(* ===== verification/_CoqProject ===== *)
-Q . S2P
Prelude.v
Xor.v
Block.v
Aes.v
Circuit.v
GcMmo.v
Bits.v
Concrete.v
GcProps.v
Merkle.v
Bristol.v
PlaintextOprf.v
ProbeResilient.v
VoprfSer.v
StarkGarble.v
StarkProps.v
VoprfE2e.v
VoprfProps.v
Workers.v
YaoKey.v
YaoGate.v
GcVm.v
YaoWire.v
YaoLocal.v
YaoSim.v
YaoProps.v
YaoJobs.v
YaoVm.v
YaoInput.v
YaoInputProps.v
YaoMachine.v
YaoSession.v
YaoSessionProps.v
YaoTheorems.v
YaoOneShot.v
Memory.v
OctetStream.v
OctetProps.v
Random.v
BitVector.v
Square128.v
Gf2n.v
OtMatrix.v
OtExtension.v
OtProps.v
OtTheorems.v
Exchange.v
ExchangeProps.v
Commit.v
CommitProps.v
SeedProps.v
BroadcastProps.v
OtAgree.v
OtRandom.v
Ppss.v
PpssProps.v
BaseOt.v
BaseOtProps.v
CryptoTools.v
SmallField.v
SmallFieldProps.v
Pprf.v
PprfProps.v
SubspaceVole.v
SubspaceProps.v
SoftSpoken.v
SoftBatch.v
SoftHash.v
OtTranspose.v
SoftSpokenProps.v
OtSoft.v
