(* ===== verification/Prelude.v ===== *)
(** * A verification development for simple-OPRF

    The repository holds an oblivious pseudo-random function from garbled circuits
    twice: [voprf-bench/], a self-contained protocol with half gates, a STARK of the
    garbling and commitments, and a modified MP-SPDZ ([MP-SPDZ-master/]), whose Yao
    parties garble and evaluate a program of a binary virtual machine on top of an OT
    extension.  Paths below are relative to [src/], and to [src/MP-SPDZ-master/] in the
    second and third part.

    ** The parts

    *** [voprf-bench]: the OPRF of one AES circuit

    - [Block], [Aes]: blocks, [FixedKeyAES] in both builds ([gc_mmo.hpp]); the AES-NI
      instructions are the rounds of FIPS 197 over GF(2^8), apart from the tables and
      the code of the portable build.
    - [Circuit], [Bristol]: [load_bristol] on the text of a file,
      [eval_circuit_plain] ([gc_mmo.hpp]).
    - [GcMmo], [GcProps], [Merkle], [Bits]: [garble_circuit], [eval_circuit_labels],
      [decode_outputs], the Merkle root, the bit order ([gc_mmo.hpp]).
    - [PlaintextOprf] ([plaintext_oprf.hpp]), [ProbeResilient]
      ([probe_resilient.hpp]), [VoprfSer] ([voprf_ser.hpp]).
    - [StarkGarble], [StarkProps]: witness reader, trace, constraints and proof file
      ([stark-garble/src/main.rs]).
    - [VoprfE2e], [VoprfProps]: [run_server] and [run_client] ([voprf_e2e.cpp]).

    *** The Yao parties

    - [Workers]: the jobs of one instruction on several threads ([Tools/Worker.h],
      [Yao/YaoAndJob.h]).
    - [YaoKey], [YaoGate]: keys, their hash, four-row gates and half gates
      ([BMR/Key.h], [Tools/MMO.h], [Tools/aes-ni.cpp], [Yao/YaoGate.*],
      [Yao/YaoHalfGate.*]).  Both schemes implement [GateScheme] and [GateLaws].
    - [GcVm], [YaoMachine], [YaoVm]: the binary virtual machine and its programs
      ([GC/Processor.*], [GC/Secret.*], [GC/instructions.h], [GC/Program.hpp]), over
      any type of wires.
    - [YaoWire], [YaoInput], [YaoSession]: the operations of each party, batches and
      jobs, inputs, and the loops of the parties ([Yao/YaoGarbleWire.*],
      [Yao/YaoEvalWire.*], [Yao/YaoGarbler.*], [Yao/YaoEvaluator.*],
      [Yao/YaoCommon.*], [GC/ShareSecret.hpp]).
    - [YaoOneShot]: the parties with garbling at once (option [-O]) and the store of
      messages ([Tools/FlexBuffer.*]).
    - [YaoLocal], [YaoSim], [YaoProps], [YaoJobs], [YaoInputProps],
      [YaoSessionProps], [YaoTheorems]: their theorems.

    *** The OT extension and its tools

    - [Memory], [OctetStream], [OctetProps]: raw buffers and network messages
      ([Tools/octetStream.*], [Networking/data.h], [Networking/sockets.h]).
    - [Random]: the generator ([Tools/random.*]).  [BitVector]: [Tools/BitVector.*].
    - [Square128], [OtMatrix]: squares of bits, their transposition, matrices and
      slices ([OT/BitMatrix.*], [Math/square128.cpp]).  [Gf2n]: products of polynomials
      ([Math/gf2n.cpp], [Math/gf2nlong.h]).
    - [OtExtension], [OtProps], [OtTheorems], [OtAgree], [OtRandom]: [OTExtension],
      [OTCorrelator], [OTExtensionWithMatrix] ([OT/]), and the agreement of the parties
      on the protocol ([Tools/Bundle.h]).  [YaoInput] uses the OT through
      an interface; [OtTheorems] proves what that interface promises.
    - [Exchange], [ExchangeProps]: two parties that send and receive at the same time
      ([Networking/Exchanger.h], [octetStream::exchange]).
    - [Commit], [CommitProps], [SeedProps], [BroadcastProps]: hashes, commitments,
      broadcast behind the interface [PlayerBase], the common seed of the check of the
      extension ([Tools/Commit.*], [Tools/Hash.*], [Tools/Subroutines.cpp],
      [Networking/Player.*]).
    - [BaseOt], [BaseOtProps]: the 128 OTs that seed the extension, over Kyber and
      without security, and the set-up of the extension ([OT/BaseOT.*]).

    *** SoftSpoken OT, the extension of the default build

    Paths are relative to [deps/libOTe/libOTe/].

    - [CryptoTools]: the generator, AES streams, rounding ([../cryptoTools/]).
    - [SmallField], [SmallFieldProps]: VOLE over small fields, its reduction tree
      ([Vole/SoftSpokenOT/SmallFieldVole.*]).
    - [Pprf], [PprfProps]: the punctured PRF that sets it up, with the proof of
      consistency ([Tools/SilentPprf.cpp], [SmallFieldVole.cpp]).
    - [SubspaceVole], [SubspaceProps]: VOLE of chosen words, the universal hash and its
      check ([SubspaceVole.h], [SubspaceVoleMaliciousLeaky.h], [Tools/RepetitionCode.h]).
    - [SoftSpoken], with [SoftBatch] (batches of chunks), [SoftHash] (the hash with
      tweaks) and [SoftSpokenProps] (whole runs): [TwoOneMaliciousSender] and
      [TwoOneMaliciousReceiver] ([TwoChooseOne/SoftSpokenOT/], [Tools/Chunker.h]).  They
      use a transposition through the interface [Transpose128], which
      [OtTranspose] implements ([sse_transpose128], [Tools/Tools.cpp]).
    - [OtSoft]: [soft_sender] and [soft_receiver]
      ([OT/OTExtensionWithMatrix.cpp] of MP-SPDZ).

    The sender of the OTs is the receiver of the VOLE.  Both parties are run in one
    function in the order of their messages, each of which is a value; one direction
    of the two is modelled, with the field of four elements that MP-SPDZ asks for where a
    theorem needs it, and up to eight elements in the VOLE.  Uninitialised memory is an
    argument [raw].

    *** Password-protected secret sharing

    - [Ppss], [PpssProps]: what the client and the server do around a session of the
      Yao parties ([Yao/YaoEvaluator.cpp], and the variants [YaoEvaluator.reconstruct.cpp]
      and [YaoGarbler.reconstruct.cpp] of the repository).

    ** How the code is modelled

    Integers are [Z], wrapped where the C++ type wraps ([u8], [u32], [u64], [s32]); a
    [__m128i] is a [Z] below [2 ^ 128] ([Key]) or sixteen bytes ([Block]).  A C++
    function is a function into [outcome]: [Ok], [Throw] with the message of the
    exception, or [UB].  Objects are records that operations take and return.
    A socket is the list of octets sent or still to be received, a session of two
    parties is two machines and the queues between them, with every schedule
    considered.  The jobs of an instruction on several threads interleave as an oracle
    ([Scheduler]) decides, one for every step of a session; their units are the
    instructions of four arguments.  If one job writes a register that another accesses,
    that is a data race and the result is [UB], so a finer grain makes no difference.
    What is left unspecified by C++ (the cells of [new octet[n]], the
    scratch squares of the transposition) is an arbitrary function that theorems
    quantify over.

    Loops over known ranges are [foldM], readers of text and messages recurse on what
    is left; other loops have fuel: the Merkle root (one unit for each leaf, since a
    level is shorter than the one below it), [PRNG::get_octets] (one more than the
    octets asked for; the same for [PRNG::implGet] of libOTe), the columns of
    [reorder_seeds] (those of the field), the tables of short products (16, the bits of a factor), the
    plaintext meaning of a program (its number of steps, chosen by the theorem's user;
    the parties themselves are step relations and need none), and the rejection loop
    of [PRNG::get_uint(upper)] (it need not end; its theorem is about the values it
    accepts).  Lemmas show that the fuel is enough.

    Parameters, with the documented behaviour that theorems assume: SHA-256
    ([Sha256], fixed output length), the Mersenne twister ([RandGen]), winterfell
    ([Winterfell]: completeness for traces of at least 8 rows whose length is a power of
    two within the limit of the library), the OT library of [voprf_e2e.cpp] (the pads agree
    on the chosen message), GMP ([Gmp]), Kyber ([Kyber]: lengths of its arrays),
    [crypto_generichash] ([GenericHash]: length of its output), the AES and Blake2 of
    cryptoTools ([OcAes], [Blake2]: outputs are blocks and octets); what [randombytes_buf]
    gives is an argument.  [clmul] of the OT extension is any product
    that meets [clmul_spec]; the software one of [gf2nlong.h] does.

    ** What the theorems show

    - The protocol of [voprf-bench]: the client obtains the OPRF value and accepts
      ([voprf_correct]); the garbled circuit computes the circuit
      ([garbled_circuit_correct]); honest proofs are accepted
      ([stark_honest_accepted]); what the commitments bind
      ([garble_commitments_binding], [key_commitment_binding]); messages and circuits
      are read back ([tables_roundtrip], [load_print_bristol]); the loader keeps its
      invariant ([load_bristol_sound]); AES is AES in both builds.
    - Yao: a whole session leaves both parties with the values of the plaintext
      machine and comes to its end, under every schedule of the parties and of the jobs
      of their workers ([yao_session_correct]); batches, jobs, gates and splits on their
      own ([yao_ands_correct], [yao_xors_parallel]).  The conditions on programs are
      those of [program_ok].
    - OT: the extension refines the correlated OT ([extend_correlated_refines]), its
      hashes are random OTs ([extend_gives_random_ot]), the KOS15 check binds a
      receiver that does not know [delta] ([check_extracts_delta]); the parties of the check get
      one seed ([seed_globally_agrees]) from commitments that bind
      ([commitment_binding]); messages are swapped whatever the sockets take of each
      call ([exchange_swaps]); broadcasts are compared
      ([check_broadcast_compares]).  The extension of the default build gives random
      OTs to parties whose base OTs agree ([soft_extend_gives_ot]), since SoftSpoken OT
      does ([soft_spoken_ot_correct]), since its VOLE is set up right
      ([small_field_vole_shares]).  Transposition,
      field multiplication, generator, streams and bit vectors do what their callers
      rely on.
    - Secret sharing: the message of the client holds masked shares and a commitment
      ([client_init_message]).
    - Where the code falls short, with a proof that it does: [forged_tables_accepted],
      [stark_constraints_vacuous], [active_input_label_reveals_bit],
      [half_gate_tweaks_repeat], [garbled_repeat_diverges], [dependent_batch_races], [oneshot_deadlock],
      [inputb_loses_bit63],
      [load_bristol_unchecked_wires], [reset_write_head_stale_bits],
      [kyber_receiver_ignores_sender], [setup_ignores_sender], [shares_lose_secret],
      [reconstruction_misses_secret], [server_reconstruct_overruns],
      [exchange_in_place_dangling], [commitment_boundary_unbound],
      [create_random_seed_any_opening], [all_open_checks_below], [hash_size_wraps],
      [final_hash_ignores_high_half].

    ** Not modelled

    The variants [Yao*.oprf.cpp], which run a session and nothing else; Kyber itself,
    SimplestOT; of libOTe: AES and Blake2, the AVX transposition, several threads, fields
    of more than eight elements, its own base OTs and its other protocols; printing, timing, options, files and
    sockets themselves; the arithmetic virtual machine and the other protocols of
    MP-SPDZ, which the OPRF does not use; vendored libraries. *)

From Stdlib Require Export ZArith Lia.
From stdpp Require Export base tactics numbers list list_numbers strings option sets gmap.

#[global] Open Scope Z_scope.

(** ** Outcomes of a C++ computation

    [Ok] is a normal return, [Throw] a C++ exception with its message, [UB]
    undefined behaviour (an access outside of an object). *)
Inductive outcome (A : Type) : Type :=
  | Ok (a : A)
  | Throw (msg : string)
  | UB.
Arguments Ok {A} a.
Arguments Throw {A} msg.
Arguments UB {A}.

#[export] Instance outcome_ret : MRet outcome := λ A a, Ok a.
#[export] Instance outcome_bind : MBind outcome := λ A B f m,
  match m with
  | Ok a => f a
  | Throw e => Throw e
  | UB => UB
  end.

#[export] Instance outcome_eq_dec `{EqDecision A} : EqDecision (outcome A).
Proof. solve_decision. Defined.

(** Reads the value out of a successful outcome. *)
Definition is_ok {A} (m : outcome A) : bool :=
  match m with Ok _ => true | _ => false end.

Definition from_ok {A} (d : A) (m : outcome A) : A :=
  match m with Ok a => a | _ => d end.

Lemma bind_ok {A B} (f : A → outcome B) a : (Ok a ≫= f) = f a.
Proof. reflexivity. Qed.

Lemma bind_Ok_inv {A B} (f : A → outcome B) m b :
  (m ≫= f) = Ok b → ∃ a, m = Ok a ∧ f a = Ok b.
Proof. destruct m as [a|e|]; cbn; [eauto|discriminate..]. Qed.

(** ** Loops

    [foldM] is a [for] loop over the elements of a list that threads a state
    and stops at the first exception or undefined behaviour. *)
Fixpoint foldM {A B} (f : B → A → outcome B) (b : B) (l : list A) : outcome B :=
  match l with
  | [] => Ok b
  | a :: l => b' ← f b a; foldM f b' l
  end.

Lemma foldM_app {A B} (f : B → A → outcome B) b l1 l2 :
  foldM f b (l1 ++ l2) = (b' ← foldM f b l1; foldM f b' l2).
Proof.
  revert b. induction l1 as [|a l1 IH]; intros b; cbn; [done|].
  destruct (f b a); cbn; [apply IH|done..].
Qed.

Lemma foldM_ext {A B} (f g : B → A → outcome B) b l :
  (∀ b a, f b a = g b a) → foldM f b l = foldM g b l.
Proof.
  intros Hfg. revert b. induction l as [|a l IH]; intros b; cbn; [done|].
  rewrite Hfg. destruct (g b a); cbn; auto.
Qed.

Lemma foldM_ext_in {A B} (f g : B → A → outcome B) b l :
  (∀ b a, a ∈ l → f b a = g b a) → foldM f b l = foldM g b l.
Proof.
  revert b. induction l as [|a l IH]; intros b Hfg; cbn [foldM]; [done|].
  rewrite Hfg by set_solver. destruct (g b a); cbn; auto. apply IH. intros b' a' Ha. apply Hfg. set_solver.
Qed.

Lemma foldM_fmap {A A' B} (f : B → A' → outcome B) (g : A → A') b l :
  foldM f b (g <$> l) = foldM (λ b a, f b (g a)) b l.
Proof. revert b. induction l as [|a l IH]; intros b; cbn; [done|]. destruct (f b (g a)); cbn; auto. Qed.

Lemma foldM_join {A B} (f : B → A → outcome B) b (ls : list (list A)) :
  foldM (foldM f) b ls = foldM f b (mjoin ls).
Proof.
  revert b. induction ls as [|l ls IH]; intros b; cbn; [done|]. rewrite foldM_app.
  destruct (foldM f b l); cbn; auto.
Qed.

(** Total correctness of a loop: an invariant that holds at the start and that
    each iteration re-establishes without failing holds at the end. *)
Lemma foldM_inv {A B} (P : nat → B → Prop) (f : B → A → outcome B) l b :
  P 0%nat b →
  (∀ i a b, l !! i = Some a → P i b → ∃ b', f b a = Ok b' ∧ P (S i) b') →
  ∃ b', foldM f b l = Ok b' ∧ P (length l) b'.
Proof.
  revert P b. induction l as [|a l IH]; intros P b H0 HS; cbn; [by eauto|].
  destruct (HS 0%nat a b eq_refl H0) as (b1 & Hf & H1). rewrite Hf. cbn.
  apply (IH (λ i, P (S i))); [done|].
  intros i a' b' Hi. by apply (HS (S i) a' b').
Qed.

(** A loop whose body never fails is a left fold. *)
Lemma foldM_Ok {A B} (f : B → A → B) (g : B → A → outcome B) b l :
  (∀ b a, g b a = Ok (f b a)) → foldM g b l = Ok (foldl f b l).
Proof. intros Hg. revert b. induction l; intros b; cbn; [done|]. rewrite Hg. cbn. auto. Qed.

(** [mapM_out] is a loop that builds a vector of results in order. *)
Fixpoint mapM_out {A B} (f : A → outcome B) (l : list A) : outcome (list B) :=
  match l with
  | [] => Ok []
  | a :: l => b ← f a; bs ← mapM_out f l; Ok (b :: bs)
  end.

Lemma mapM_out_Ok {A B} (f : A → B) (g : A → outcome B) l :
  (∀ a, a ∈ l → g a = Ok (f a)) → mapM_out g l = Ok (f <$> l).
Proof.
  induction l as [|a l IH]; intros Hg; cbn; [done|].
  rewrite (Hg a) by set_solver. cbn. rewrite IH by set_solver. done.
Qed.

Lemma mapM_out_fmap {A B C} (h : A → B) (f : B → outcome C) l :
  mapM_out f (h <$> l) = mapM_out (λ a, f (h a)) l.
Proof. induction l as [|a l IH]; [done|]. cbn [fmap list_fmap mapM_out]. by rewrite IH. Qed.

Lemma mapM_out_app {A B} (f : A → outcome B) l1 l2 :
  mapM_out f (l1 ++ l2) = (b1 ← mapM_out f l1; b2 ← mapM_out f l2; Ok (b1 ++ b2)).
Proof.
  induction l1 as [|a l1 IH]; cbn [app mapM_out].
  - cbn. by destruct (mapM_out f l2).
  - destruct (f a); [|done..]. cbn [mbind outcome_bind]. rewrite IH.
    destruct (mapM_out f l1); [|done..]. cbn. by destruct (mapM_out f l2).
Qed.

Lemma mapM_out_length {A B} (g : A → outcome B) l bs :
  mapM_out g l = Ok bs → length bs = length l.
Proof.
  revert bs. induction l as [|a l IH]; intros bs; cbn; [by intros [= <-]|].
  intros (b & _ & (bs' & E & [= <-])%bind_Ok_inv)%bind_Ok_inv. cbn. f_equal. auto.
Qed.

Lemma mapM_out_inv {A B} (f : A → B) (g : A → outcome B) l bs :
  (∀ a b, g a = Ok b → b = f a) → mapM_out g l = Ok bs → bs = f <$> l.
Proof.
  intros Hf. revert bs. induction l as [|a l IH]; intros bs; cbn; [by intros [= <-]|].
  intros (b & Eb & (bs' & E & [= <-])%bind_Ok_inv)%bind_Ok_inv.
  by rewrite (Hf a b Eb), (IH bs' E).
Qed.

Lemma mapM_out_Forall {A B} (P : B → Prop) (g : A → outcome B) l bs :
  (∀ a b, g a = Ok b → P b) → mapM_out g l = Ok bs → Forall P bs.
Proof.
  intros HP. revert bs. induction l as [|a l IH]; intros bs; cbn; [by intros [= <-]|].
  intros (b & Eb & (bs' & E & [= <-])%bind_Ok_inv)%bind_Ok_inv. constructor; eauto.
Qed.

(** Partial correctness of a loop. *)
Lemma foldM_preserves {A B} (P : B → Prop) (f : B → A → outcome B) l b b' :
  (∀ a b b', P b → f b a = Ok b' → P b') → P b → foldM f b l = Ok b' → P b'.
Proof.
  intros HP. revert b. induction l as [|a l IH]; intros b Hb; cbn; [by intros [= <-]|].
  intros (b1 & E1 & E)%bind_Ok_inv. eauto.
Qed.

(** ** Vectors and arrays

    [std::vector::operator[]] and plain array accesses: undefined behaviour
    out of range. *)
Definition vget {A} (l : list A) (i : Z) : outcome A :=
  if i <? 0 then UB
  else match l !! Z.to_nat i with Some x => Ok x | None => UB end.

Definition vset {A} (l : list A) (i : Z) (x : A) : outcome (list A) :=
  if i <? 0 then UB
  else if Z.of_nat (length l) <=? i then UB else Ok (<[Z.to_nat i := x]> l).

Lemma vget_Ok {A} (l : list A) i x :
  0 ≤ i → l !! Z.to_nat i = Some x → vget l i = Ok x.
Proof. intros Hi Hx. unfold vget. rewrite (proj2 (Z.ltb_ge i 0)) by lia. by rewrite Hx. Qed.

Lemma vget_nat {A} (l : list A) (i : nat) x :
  l !! i = Some x → vget l (Z.of_nat i) = Ok x.
Proof. intros. apply vget_Ok; [lia|]. by rewrite Nat2Z.id. Qed.

Lemma vget_inv {A} (l : list A) i x :
  vget l i = Ok x → 0 ≤ i ∧ l !! Z.to_nat i = Some x.
Proof.
  unfold vget. destruct (Z.ltb_spec i 0); [done|].
  destruct (l !! Z.to_nat i) eqn:E; [|done]. intros [= <-]. split; [lia|done].
Qed.

Lemma vset_Ok {A} (l : list A) i x :
  0 ≤ i < Z.of_nat (length l) → vset l i x = Ok (<[Z.to_nat i := x]> l).
Proof.
  intros Hi. unfold vset. rewrite (proj2 (Z.ltb_ge i 0)) by lia.
  by rewrite (proj2 (Z.leb_gt _ i)) by lia.
Qed.

Lemma vget_total {A} `{Inhabited A} (l : list A) i x : vget l i = Ok x → x = l !!! Z.to_nat i.
Proof. intros [_ E]%vget_inv. symmetry. by apply list_lookup_total_correct. Qed.

Lemma vget_lt {A} `{Inhabited A} (l : list A) i : 0 ≤ i < Z.of_nat (length l) →
  vget l i = Ok (l !!! Z.to_nat i).
Proof. intros. apply vget_Ok; [lia|]. apply list_lookup_lookup_total_lt. lia. Qed.

Lemma vget_Forall {A} (P : A → Prop) (l : list A) i x : Forall P l → vget l i = Ok x → P x.
Proof. intros Hf [_ E]%vget_inv. by eapply Forall_lookup_1. Qed.

Lemma vset_Forall {A} (P : A → Prop) (l l' : list A) i x :
  Forall P l → P x → vset l i x = Ok l' → Forall P l'.
Proof.
  unfold vset. destruct (i <? 0); [done|]. destruct (_ <=? i); [done|].
  intros Hf Hx [= <-]. by apply Forall_insert.
Qed.

Lemma vset_length {A} (l l' : list A) i x : vset l i x = Ok l' → length l' = length l.
Proof.
  unfold vset. destruct (i <? 0); [done|]. destruct (_ <=? i); [done|].
  intros [= <-]. apply length_insert.
Qed.

Lemma lookup_in_range {A} (l : list A) i :
  0 ≤ i < Z.of_nat (length l) → is_Some (l !! Z.to_nat i).
Proof. intros. apply lookup_lt_is_Some. lia. Qed.

(** Writing the first free cell of a partly filled vector. *)
Lemma vset_front {A} (l : list A) n d x :
  vset (l ++ replicate (S n) d) (Z.of_nat (length l)) x = Ok ((l ++ [x]) ++ replicate n d).
Proof.
  rewrite vset_Ok by (rewrite length_app, length_replicate; lia).
  rewrite Nat2Z.id. rewrite insert_app_r_alt, Nat.sub_diag by lia. cbn. by rewrite <-app_assoc.
Qed.

(** A loop over the indices of a vector is a loop over its elements. *)
Lemma mapM_seqZ_app {A B} (f : A → outcome B) pre l :
  mapM_out (λ i, vget (pre ++ l) i ≫= f) (seqZ (Z.of_nat (length pre)) (Z.of_nat (length l)))
    = mapM_out f l.
Proof.
  revert pre. induction l as [|x l IH]; intros pre; [done|].
  rewrite seqZ_cons by (cbn; lia). cbn [mapM_out].
  rewrite (vget_nat _ _ x) by by apply list_lookup_middle. rewrite bind_ok.
  specialize (IH (pre ++ [x])). rewrite <-app_assoc, length_app in IH. cbn in IH.
  replace (Z.of_nat (length pre + 1)) with (Z.succ (Z.of_nat (length pre))) in IH by lia.
  replace (Z.pred (Z.of_nat (length (x :: l)))) with (Z.of_nat (length l)) by (cbn; lia).
  by rewrite IH.
Qed.

Lemma mapM_seqZ {A B} (l : list A) (f : A → outcome B) n : length l = Z.to_nat n →
  mapM_out (λ i, vget l i ≫= f) (seqZ 0 n) = mapM_out f l.
Proof.
  intros Hn. replace (seqZ 0 n) with (seqZ 0 (Z.of_nat (length l))).
  - apply (mapM_seqZ_app f []).
  - rewrite Hn. destruct (decide (0 ≤ n)) as [|Hneg]; [by rewrite Z2Nat.id|].
    by rewrite !seqZ_nil by lia.
Qed.

(** A loop over two vectors. *)
Lemma mapM_zip_seq {A B C} (f : A → B → C) (xs : list A) pre ds :
  (length xs ≤ length ds)%nat →
  mapM_out (λ '(i, x), d ← vget (pre ++ ds) (Z.of_nat i); Ok (f x d))
    (zip (seq (length pre) (length xs)) xs) = Ok (zip_with f xs ds).
Proof.
  revert pre ds. induction xs as [|x xs IH]; intros pre [|d ds] Hl; cbn in Hl; [done..|lia|].
  change (zip (seq (length pre) (length (x :: xs))) (x :: xs))
    with ((length pre, x) :: zip (seq (S (length pre)) (length xs)) xs).
  cbn [mapM_out].
  rewrite (vget_nat _ _ d) by by apply list_lookup_middle. rewrite !bind_ok.
  specialize (IH (pre ++ [d]) ds). rewrite <-app_assoc, length_app, Nat.add_1_r in IH.
  cbn [app] in IH. rewrite IH by lia. done.
Qed.

Lemma mapM_zip_seq0 {A B C} (f : A → B → C) (xs : list A) ds :
  (length xs ≤ length ds)%nat →
  mapM_out (λ '(i, x), d ← vget ds (Z.of_nat i); Ok (f x d))
    (zip (seq 0 (length xs)) xs) = Ok (zip_with f xs ds).
Proof. apply (mapM_zip_seq f xs []). Qed.

(** ** Machine integers *)
Definition u8 (x : Z) : Z := x mod 2 ^ 8.
Definition u32 (x : Z) : Z := x mod 2 ^ 32.
Definition u64 (x : Z) : Z := x mod 2 ^ 64.

(** The same bits as a signed integer. *)
Definition s64 (x : Z) : Z :=
  let x := u64 x in if x <? 2 ^ 63 then x else x - 2 ^ 64.
Definition s32 (x : Z) : Z :=
  let x := u32 x in if x <? 2 ^ 31 then x else x - 2 ^ 32.

(** The result of an operation on signed integers of 64 bits: undefined behaviour on
    overflow. *)
Definition int64 (x : Z) : outcome Z :=
  if (- 2 ^ 63 <=? x) && (x <? 2 ^ 63) then Ok x else UB.

Lemma int64_Ok x : - 2 ^ 63 ≤ x < 2 ^ 63 → int64 x = Ok x.
Proof. intros Hx. unfold int64. by rewrite (proj2 (Z.leb_le _ x)), (proj2 (Z.ltb_lt x _)) by lia. Qed.

Lemma signed_id n l : 0 < n → - 2 ^ (n - 1) ≤ l < 2 ^ (n - 1) →
  (if l mod 2 ^ n <? 2 ^ (n - 1) then l mod 2 ^ n else l mod 2 ^ n - 2 ^ n) = l.
Proof.
  intros Hn Hl. assert (E : 2 ^ n = 2 * 2 ^ (n - 1)) by (rewrite <-Z.pow_succ_r by lia; f_equal; lia).
  destruct (Z.lt_ge_cases l 0).
  - rewrite <-(Z.mod_add l 1 (2 ^ n)), Z.mod_small by lia.
    rewrite (proj2 (Z.ltb_ge _ _)) by lia. lia.
  - rewrite Z.mod_small by lia. by rewrite (proj2 (Z.ltb_lt _ _)) by lia.
Qed.

Lemma s64_u64 l : - 2 ^ 63 ≤ l < 2 ^ 63 → s64 (u64 l) = l.
Proof. intros. unfold s64, u64. rewrite Z.mod_mod by lia. by apply (signed_id 64). Qed.

Lemma s32_u32 l : - 2 ^ 31 ≤ l < 2 ^ 31 → s32 (u32 l) = l.
Proof. intros. unfold s32, u32. rewrite Z.mod_mod by lia. by apply (signed_id 32). Qed.

(** A byte and a word of [n] bits. *)
Definition is_word (n x : Z) : Prop := 0 ≤ x < 2 ^ n.
Abbreviation is_u8 := (is_word 8).

#[export] Instance is_word_dec n x : Decision (is_word n x).
Proof. unfold is_word. apply _. Defined.

Create HintDb word.

Lemma is_word_bits n x : 0 ≤ n → 0 ≤ x →
  is_word n x ↔ ∀ i, n ≤ i → Z.testbit x i = false.
Proof.
  intros Hn Hx. unfold is_word. split.
  - intros [_ Hb] i Hi. destruct (decide (x = 0)) as [->|]; [apply Z.bits_0|].
    apply Z.bits_above_log2; [done|].
    assert (Z.log2 x < n) by (apply Z.log2_lt_pow2; lia). lia.
  - intros Hb. split; [done|]. destruct (Z.lt_ge_cases x (2 ^ n)) as [|Hge]; [done|].
    assert (0 < x) by (pose proof (Z.pow_pos_nonneg 2 n); lia).
    assert (n ≤ Z.log2 x) by (apply Z.log2_le_pow2; lia).
    pose proof (Z.bit_log2 x). rewrite Hb in *; [|done]. intuition discriminate.
Qed.

Lemma is_word_high n x i : is_word n x → 0 ≤ n → n ≤ i → Z.testbit x i = false.
Proof. intros Hx Hn Hi. apply (proj1 (is_word_bits n x Hn ltac:(apply Hx)) Hx). done. Qed.

Lemma is_word_lxor n x y : 0 ≤ n → is_word n x → is_word n y → is_word n (Z.lxor x y).
Proof.
  intros Hn Hx Hy. pose proof Hx as [? _]. pose proof Hy as [? _].
  apply is_word_bits; [done|by apply Z.lxor_nonneg|].
  intros i Hi. rewrite Z.lxor_spec.
  rewrite (proj1 (is_word_bits n x Hn ltac:(done)) Hx i Hi).
  by rewrite (proj1 (is_word_bits n y Hn ltac:(done)) Hy i Hi).
Qed.

Lemma is_word_lor n x y : 0 ≤ n → is_word n x → is_word n y → is_word n (Z.lor x y).
Proof.
  intros Hn Hx Hy. pose proof Hx as [? _]. pose proof Hy as [? _].
  apply is_word_bits; [done|by apply Z.lor_nonneg|].
  intros i Hi. rewrite Z.lor_spec.
  rewrite (proj1 (is_word_bits n x Hn ltac:(done)) Hx i Hi).
  by rewrite (proj1 (is_word_bits n y Hn ltac:(done)) Hy i Hi).
Qed.

Lemma is_word_land_l n x y : 0 ≤ n → is_word n x → 0 ≤ y → is_word n (Z.land x y).
Proof.
  intros Hn Hx Hy. pose proof Hx as [? _].
  apply is_word_bits; [done|apply Z.land_nonneg; by left|].
  intros i Hi. rewrite Z.land_spec.
  by rewrite (proj1 (is_word_bits n x Hn ltac:(done)) Hx i Hi).
Qed.

Lemma is_word_land_r n x y : 0 ≤ n → is_word n y → is_word n (Z.land x y).
Proof.
  intros Hn Hy. pose proof Hy as [? _].
  apply is_word_bits; [done|apply Z.land_nonneg; by right|].
  intros i Hi. rewrite Z.land_spec.
  rewrite (proj1 (is_word_bits n y Hn ltac:(done)) Hy i Hi). apply andb_false_r.
Qed.

Lemma is_word_mod n x : 0 ≤ n → is_word n (x mod 2 ^ n).
Proof. intros. apply Z.mod_pos_bound. apply Z.pow_pos_nonneg; lia. Qed.

Lemma is_u8_u8 x : is_u8 (u8 x).
Proof. apply is_word_mod. lia. Qed.

Lemma u8_id x : is_u8 x → u8 x = x.
Proof. intros. by apply Z.mod_small. Qed.

#[export] Hint Resolve is_word_lxor is_word_lor is_word_land_r is_u8_u8 is_word_mod : word.
#[export] Hint Extern 1 (0 ≤ _) => lia : word.
#[export] Hint Extern 2 (is_word _ _) => (unfold is_word; lia) : word.

Lemma testbit_u8 x i : 0 ≤ i < 8 → Z.testbit (u8 x) i = Z.testbit x i.
Proof. intros. unfold u8. rewrite <-Z.land_ones by lia. rewrite Z.land_spec, Z.ones_spec_low by lia. apply andb_true_r. Qed.

Definition DIV_CEIL (n k : Z) : Z := Z.quot (n + k - 1) k.

(** The conversion of a [bool] to an integer. *)
Definition b2z (b : bool) : Z := if b then 1 else 0.

Lemma lxor_b2z a b : Z.lxor (b2z a) (b2z b) = b2z (xorb a b).
Proof. by destruct a, b. Qed.

Lemma land_b2z a b : Z.land (b2z a) (b2z b) = b2z (a && b).
Proof. by destruct a, b. Qed.

Lemma b2z_inj a b : b2z a = b2z b → a = b.
Proof. by destruct a, b. Qed.

(** ** Little-endian byte order *)
Fixpoint le_bytes (n : nat) (x : Z) : list Z :=
  match n with
  | O => []
  | S n => u8 x :: le_bytes n (Z.shiftr x 8)
  end.

Fixpoint le_val (l : list Z) : Z :=
  match l with
  | [] => 0
  | b :: l => b + 256 * le_val l
  end.

Lemma le_bytes_length n x : length (le_bytes n x) = n.
Proof. revert x. induction n; intros; cbn; auto. Qed.

Lemma le_bytes_u8 n x : Forall is_u8 (le_bytes n x).
Proof. revert x. induction n; intros; cbn; constructor; auto with word. Qed.

Lemma le_val_bytes n x : is_word (8 * Z.of_nat n) x → le_val (le_bytes n x) = x.
Proof.
  revert x. induction n as [|n IH]; intros x; cbn [le_bytes le_val].
  - unfold is_word. change (2 ^ (8 * Z.of_nat 0)) with 1. lia.
  - intros [H0 H1]. rewrite Z.shiftr_div_pow2 by lia. unfold u8. change (2 ^ 8) with 256.
    rewrite IH; [pose proof (Z_div_mod_eq_full x 256); lia|].
    split; [apply Z.div_pos; lia|]. apply Z.div_lt_upper_bound; [lia|].
    replace (8 * Z.of_nat (S n)) with (8 + 8 * Z.of_nat n) in H1 by lia.
    rewrite Z.pow_add_r in H1 by lia. lia.
Qed.

Lemma le_val_bytes_mod n x : le_val (le_bytes n x) = x mod 2 ^ (8 * Z.of_nat n).
Proof.
  revert x. induction n as [|n IH]; intros x; cbn [le_bytes le_val]; [by rewrite Z.mod_1_r|].
  rewrite IH, Z.shiftr_div_pow2 by lia. unfold u8.
  replace (8 * Z.of_nat (S n)) with (8 + 8 * Z.of_nat n) by lia.
  rewrite Z.pow_add_r by lia. change (2 ^ 8) with 256.
  rewrite Z.rem_mul_r by lia. done.
Qed.

Lemma le_val_word l : Forall is_u8 l → is_word (8 * Z.of_nat (length l)) (le_val l).
Proof.
  unfold is_word. induction 1 as [|b l Hb _ IH]; [cbn; lia|].
  cbn [length le_val].
  replace (8 * Z.of_nat (S (length l))) with (8 + 8 * Z.of_nat (length l)) by lia.
  rewrite Z.pow_add_r by lia. change (2 ^ 8) with 256 in *. lia.
Qed.

Lemma le_bytes_val l : Forall is_u8 l → le_bytes (length l) (le_val l) = l.
Proof.
  induction 1 as [|b l Hb _ IH]; [done|]. cbn [length le_bytes le_val].
  change (2 ^ 8) with 256 in Hb. unfold is_word in Hb. change (2 ^ 8) with 256 in Hb.
  rewrite Z.shiftr_div_pow2 by lia. unfold u8. change (2 ^ 8) with 256.
  f_equal.
  - rewrite Z.mul_comm, Z.mod_add by lia. apply Z.mod_small; lia.
  - rewrite Z.mul_comm, Z.div_add by lia. rewrite Z.div_small by lia. by rewrite Z.add_0_l.
Qed.

Lemma le_bytes_mod n x : le_bytes n (x mod 2 ^ (8 * Z.of_nat n)) = le_bytes n x.
Proof.
  rewrite <-le_val_bytes_mod. pose proof (le_bytes_val (le_bytes n x) (le_bytes_u8 n x)) as E.
  by rewrite le_bytes_length in E.
Qed.

Lemma le_bytes_mod_le n m x : 8 * Z.of_nat n ≤ m → le_bytes n (x mod 2 ^ m) = le_bytes n x.
Proof.
  intros Hm. rewrite <-(le_bytes_mod n (x mod 2 ^ m)), <-(le_bytes_mod n x). f_equal.
  apply Z.mod_mod_divide.
  exists (2 ^ (m - 8 * Z.of_nat n)). rewrite <-Z.pow_add_r by lia. f_equal; lia.
Qed.

(** ** Tactics *)

(** Opens a monadic hypothesis [x ← m; k = Ok r]. *)
Ltac bind_inv H :=
  let a := fresh "a" in let E := fresh "E" in
  apply bind_Ok_inv in H; destruct H as (a & E & H).

(** Runs a monadic goal one successful step at a time. *)
Ltac mstep H := rewrite H; cbn [mbind outcome_bind].
