(* ===== verification/Xor.v ===== *)
(** * XOR algebra and the garbled AND of half gates

    Wire labels are combined with XOR in two representations: [Block], sixteen
    bytes ([voprf-bench/gc_mmo.hpp]), and [Key], one [__m128i]
    ([MP-SPDZ-master/BMR/Key.h]).  [XorOps] and [XorLaws] are the interface that
    both implement; [xor_solve] decides XOR equations over any implementation by
    reflection.  [half_and] is the algebraic core of the half-gate AND, proved
    once against the interface. *)

From S2P Require Import Prelude.

Class XorOps (L : Type) := {
  xor : L → L → L;
  xzero : L;
  xwf : L → Prop;
  xsig : L → bool;
}.

Class XorLaws (L : Type) `{XorOps L} := {
  xor_comm a b : xor a b = xor b a;
  xor_assoc a b c : xor a (xor b c) = xor (xor a b) c;
  xor_zero_l a : xwf a → xor xzero a = a;
  xor_self a : xwf a → xor a a = xzero;
  xwf_zero : xwf xzero;
  xwf_xor a b : xwf a → xwf b → xwf (xor a b);
  xsig_xor a b : xwf a → xwf b → xsig (xor a b) = xorb (xsig a) (xsig b);
}.

Declare Scope xor_scope.
Delimit Scope xor_scope with xor.
Infix "⊕" := xor (at level 50, left associativity) : xor_scope.

Create HintDb xor.
#[export] Hint Resolve xwf_zero xwf_xor : xor.

(** ** A reflexive decision procedure *)
Inductive xexp := XZero | XAtom (n : nat) | XXor (a b : xexp).

Fixpoint xins (n : nat) (l : list nat) : list nat :=
  match l with
  | [] => [n]
  | m :: l' =>
      if Nat.eqb n m then l'
      else if Nat.ltb n m then n :: l else m :: xins n l'
  end.

Fixpoint xnf (e : xexp) : list nat :=
  match e with
  | XZero => []
  | XAtom n => [n]
  | XXor a b => foldr xins (xnf b) (xnf a)
  end.

Fixpoint xnth {L} (n : nat) (l : list L) (d : L) : L :=
  match l, n with
  | [], _ => d
  | a :: _, O => a
  | _ :: l, S n => xnth n l d
  end.

Section solver.
Context {L : Type} `{XorLaws L}.
Local Open Scope xor_scope.

Lemma xor_zero_r a : xwf a → a ⊕ xzero = a.
Proof. intros. rewrite xor_comm. by apply xor_zero_l. Qed.

Lemma xor_cancel_l a b : xwf a → xwf b → a ⊕ (a ⊕ b) = b.
Proof. intros. by rewrite xor_assoc, xor_self, xor_zero_l. Qed.

Lemma xor_cancel_r a b : xwf a → xwf b → a ⊕ b ⊕ b = a.
Proof. intros. by rewrite <-xor_assoc, xor_self, xor_zero_r. Qed.

Lemma xor_inj_l a b c : xwf a → xwf b → xwf c → a ⊕ b = a ⊕ c → b = c.
Proof. intros ??? E. rewrite <-(xor_cancel_l a b), E by done. by apply xor_cancel_l. Qed.

Fixpoint xden (env : list L) (e : xexp) : L :=
  match e with
  | XZero => xzero
  | XAtom n => xnth n env xzero
  | XXor a b => xden env a ⊕ xden env b
  end.

Fixpoint xdenl (env : list L) (l : list nat) : L :=
  match l with
  | [] => xzero
  | n :: l => xnth n env xzero ⊕ xdenl env l
  end.

Lemma nth_wf env n : Forall xwf env → xwf (xnth n env xzero).
Proof. intros Hf. revert n. induction Hf; intros [|n]; cbn; auto with xor. Qed.

Lemma xdenl_wf env l : Forall xwf env → xwf (xdenl env l).
Proof. intros. induction l; cbn; auto using nth_wf with xor. Qed.

Lemma xins_den env n l : Forall xwf env →
  xdenl env (xins n l) = xnth n env xzero ⊕ xdenl env l.
Proof.
  intros Hf. induction l as [|m l IH]; cbn [xins xdenl]; [done|].
  destruct (Nat.eqb_spec n m) as [->|].
  - rewrite xor_cancel_l; [done|by apply nth_wf|by apply xdenl_wf].
  - destruct (Nat.ltb n m); cbn [xdenl]; [done|]. rewrite IH.
    rewrite !xor_assoc. f_equal. apply xor_comm.
Qed.

Lemma xnf_den env e : Forall xwf env → xdenl env (xnf e) = xden env e.
Proof.
  intros Hf. induction e as [|n|a IHa b IHb]; cbn; [done| |].
  - apply xor_zero_r. by apply nth_wf.
  - rewrite <-IHa, <-IHb. clear IHa IHb. induction (xnf a) as [|n l IH]; cbn.
    + rewrite xor_zero_l; [done|by apply xdenl_wf].
    + by rewrite xins_den, IH, xor_assoc by done.
Qed.

Lemma xor_reflect env ea eb a b :
  xden env ea = a → xden env eb = b → Forall xwf env → xnf ea = xnf eb → a = b.
Proof. intros <- <- Hf E. by rewrite <-!xnf_den, E by done. Qed.
End solver.

(** The conversion unfolds the interpretation of an expression before [xor]. *)
#[global] Strategy expand [xden xnth].

Ltac xor_mem a l :=
  lazymatch l with
  | [] => constr:(false)
  | a :: _ => constr:(true)
  | _ :: ?l => xor_mem a l
  end.
Ltac xor_index a l :=
  lazymatch l with
  | a :: _ => constr:(O)
  | _ :: ?l => let n := xor_index a l in constr:(S n)
  end.
Ltac xor_atoms e l :=
  lazymatch e with
  | xor ?a ?b => let l := xor_atoms a l in xor_atoms b l
  | xzero => l
  | _ => let m := xor_mem e l in lazymatch m with true => l | false => constr:(e :: l) end
  end.
Ltac xor_reify e l :=
  lazymatch e with
  | xor ?a ?b => let a := xor_reify a l in let b := xor_reify b l in constr:(XXor a b)
  | xzero => constr:(XZero)
  | _ => let n := xor_index e l in constr:(XAtom n)
  end.

(** Proves an equation between XOR expressions whose atoms are well formed. *)
Ltac xor_solve :=
  lazymatch goal with
  | |- @eq ?L ?a ?b =>
      let l := xor_atoms a (@nil L) in let l := xor_atoms b l in
      let ea := xor_reify a l in let eb := xor_reify b l in
      apply (xor_reflect l ea eb);
        [cbv [xden xnth]; reflexivity | cbv [xden xnth]; reflexivity
        | repeat (apply Forall_cons_2; [auto with xor|]); apply Forall_nil_2 | reflexivity]
  end.

(** ** Labels

    [label w0 delta b]: the label of value [b] on a wire with zero label [w0]. *)
Section labels.
Context {L : Type} `{XorLaws L}.
Local Open Scope xor_scope.

Definition label (w0 delta : L) (b : bool) : L := if b then w0 ⊕ delta else w0.

Lemma label_wf w0 delta b : xwf w0 → xwf delta → xwf (label w0 delta b).
Proof. intros. destruct b; cbn; auto with xor. Qed.

Lemma label_xor w0 w1 delta a b : xwf w0 → xwf w1 → xwf delta →
  label w0 delta a ⊕ label w1 delta b = label (w0 ⊕ w1) delta (xorb a b).
Proof. intros. destruct a, b; cbn; xor_solve. Qed.

Lemma label_flip w0 delta a : xwf w0 → xwf delta →
  label (w0 ⊕ delta) delta (negb a) = label w0 delta a.
Proof. intros. destruct a; cbn; xor_solve. Qed.

Lemma label_sig w0 delta a : xwf w0 → xwf delta → xsig delta = true →
  xsig (label w0 delta a) = xorb (xsig w0) a.
Proof.
  intros ?? Hd. destruct a; cbn; [|by rewrite xorb_false_r].
  by rewrite xsig_xor, Hd.
Qed.

(** The garbled AND: from the hashes of the two labels of each input and the
    zero labels, the two ciphertexts and the zero label of the output. *)
Definition half_garble (delta a0 b0 ha0 ha1 hb0 hb1 : L) : L * L * L :=
  let tg := if xsig b0 then ha0 ⊕ ha1 ⊕ delta else ha0 ⊕ ha1 in
  let wg := if xsig a0 then ha0 ⊕ tg else ha0 in
  let te := hb0 ⊕ hb1 ⊕ a0 in
  let we := if xsig b0 then hb0 ⊕ (te ⊕ a0) else hb0 in
  (tg, te, wg ⊕ we).

(** The evaluation: from the hashes of the two active labels. *)
Definition half_eval (tg te wa wb ha hb : L) : L :=
  let wg := if xsig wa then ha ⊕ tg else ha in
  let we := if xsig wb then hb ⊕ (te ⊕ wa) else hb in
  wg ⊕ we.

Lemma half_garble_wf delta a0 b0 ha0 ha1 hb0 hb1 :
  xwf delta → xwf a0 → xwf b0 → xwf ha0 → xwf ha1 → xwf hb0 → xwf hb1 →
  xwf (half_garble delta a0 b0 ha0 ha1 hb0 hb1).1.1 ∧
  xwf (half_garble delta a0 b0 ha0 ha1 hb0 hb1).1.2 ∧
  xwf (half_garble delta a0 b0 ha0 ha1 hb0 hb1).2.
Proof. intros. cbn. destruct (xsig b0), (xsig a0); auto 10 with xor. Qed.

(** Correctness of the half-gate AND for any label hash [h]. *)
Lemma half_and delta a0 b0 (hg he : L → L) a b :
  xwf delta → xwf a0 → xwf b0 → xsig delta = true →
  (∀ x, xwf x → xwf (hg x)) → (∀ x, xwf x → xwf (he x)) →
  let g := half_garble delta a0 b0 (hg a0) (hg (a0 ⊕ delta)) (he b0) (he (b0 ⊕ delta)) in
  let wa := label a0 delta a in
  let wb := label b0 delta b in
  half_eval g.1.1 g.1.2 wa wb (hg wa) (he wb) = label g.2 delta (a && b).
Proof.
  intros Hd Ha Hb Hs Hg He. cbn.
  pose proof (Hg _ Ha); pose proof (He _ Hb).
  pose proof (Hg _ (xwf_xor _ _ Ha Hd)); pose proof (He _ (xwf_xor _ _ Hb Hd)).
  unfold half_eval. rewrite !label_sig by done.
  destruct a, b, (xsig a0), (xsig b0); cbn; xor_solve.
Qed.
End labels.

(** ** Integers

    Machine words as integers; the signal bit is the lowest one. *)
#[export] Instance Z_xor_ops : XorOps Z :=
  { xor := Z.lxor; xzero := 0; xwf := λ _, True; xsig := Z.odd }.

#[export] Instance Z_xor_laws : XorLaws Z.
Proof.
  constructor; cbn [xor xzero xwf xsig Z_xor_ops]; intros.
  - apply Z.lxor_comm.
  - symmetry. apply Z.lxor_assoc.
  - apply Z.lxor_0_l.
  - apply Z.lxor_nilpotent.
  - done.
  - done.
  - by rewrite <-!Z.bit0_odd, Z.lxor_spec.
Qed.

#[export] Hint Extern 1 (@xwf Z _ _) => exact I : xor.

(** The same procedure on [Z.lxor] itself. *)
Fixpoint zden (env : list Z) (e : xexp) : Z :=
  match e with
  | XZero => 0
  | XAtom n => xnth n env 0
  | XXor a b => Z.lxor (zden env a) (zden env b)
  end.
#[global] Strategy expand [zden].

Lemma zden_xden env e : zden env e = xden env e.
Proof. induction e as [| |a IHa b IHb]; [done..|]. cbn [zden xden]. by rewrite IHa, IHb. Qed.

Lemma z_xor_reflect env ea eb a b :
  zden env ea = a → zden env eb = b → xnf ea = xnf eb → a = b.
Proof.
  rewrite !zden_xden. intros Ha Hb. apply (xor_reflect env ea eb a b Ha Hb).
  apply Forall_true. done.
Qed.

Ltac z_xor_atoms e l :=
  lazymatch e with
  | Z.lxor ?a ?b => let l := z_xor_atoms a l in z_xor_atoms b l
  | 0 => l
  | _ => let m := xor_mem e l in lazymatch m with true => l | false => constr:(e :: l) end
  end.
Ltac z_xor_reify e l :=
  lazymatch e with
  | Z.lxor ?a ?b => let a := z_xor_reify a l in let b := z_xor_reify b l in constr:(XXor a b)
  | 0 => constr:(XZero)
  | _ => let n := xor_index e l in constr:(XAtom n)
  end.

(** Proves an equation between [Z.lxor] expressions. *)
Ltac z_xor_solve :=
  lazymatch goal with
  | |- ?a = ?b =>
      let l := z_xor_atoms a (@nil Z) in let l := z_xor_atoms b l in
      let ea := z_xor_reify a l in let eb := z_xor_reify b l in
      apply (z_xor_reflect l ea eb);
        [cbv [zden xnth]; reflexivity | cbv [zden xnth]; reflexivity | reflexivity]
  end.
