(* ===== verification/Block.v ===== *)
(** * Blocks

    [struct Block] of [voprf-bench/gc_mmo.hpp]: sixteen bytes, with the XOR,
    the signal bit and the sampling functions.  [Block] implements the XOR
    interface of [Xor]. *)

From S2P Require Import Prelude Xor.

(** [struct Block { u8 b[16]; }]; [block_wf] is what its type says. *)
Abbreviation Block := (list Z).
Definition block_wf (x : Block) : Prop := length x = 16%nat ∧ Forall is_u8 x.
Definition zero_block : Block := replicate 16 0.

#[export] Instance block_wf_dec x : Decision (block_wf x).
Proof. unfold block_wf. apply _. Defined.

Definition xor_block (a b : Block) : Block := zip_with Z.lxor a b.

(** [(x.b[0] & 1) != 0] *)
Definition lsb (x : Block) : bool := negb (Z.land (x !!! 0%nat) 1 =? 0).

(** [memcmp(a.b, b.b, 16) == 0] *)
Definition blocks_eq (a b : Block) : bool := bool_decide (a = b).

(** ** Random numbers

    The state of a [std::mt19937_64] and [rng()]; the generator is a parameter
    of everything that draws from it. *)
Class RandGen (G : Type) := rand_next : G → Z * G.

(** [for (i < n) d.b[i] = (u8)(rng() & 0xff)] *)
Fixpoint draw_bytes {G} `{RandGen G} (n : nat) (g : G) : list Z * G :=
  match n with
  | O => ([], g)
  | S n =>
      let '(x, g) := rand_next g in
      let '(l, g) := draw_bytes n g in
      (u8 (Z.land x 255) :: l, g)
  end.

Definition make_delta {G} `{RandGen G} (g : G) : Block * G :=
  let '(d, g) := draw_bytes 16 g in
  (<[0%nat := Z.lor (d !!! 0%nat) 1]> d, g).

Definition random_block {G} `{RandGen G} (g : G) : Block * G := draw_bytes 16 g.

(** ** Facts *)
Lemma draw_bytes_wf {G} `{RandGen G} n (g : G) :
  length (draw_bytes n g).1 = n ∧ Forall is_u8 (draw_bytes n g).1.
Proof.
  revert g. induction n as [|n IH]; intros g; cbn; [done|].
  destruct (rand_next g) as [x g1]. specialize (IH g1).
  destruct (draw_bytes n g1) as [l g2]; cbn in *.
  split; [f_equal; apply IH|]. constructor; [auto with word|apply IH].
Qed.

Lemma random_block_wf {G} `{RandGen G} (g : G) : block_wf (random_block g).1.
Proof. apply draw_bytes_wf. Qed.

Lemma lsb_odd x : lsb x = Z.odd (x !!! 0%nat).
Proof.
  unfold lsb. change 1 with (Z.ones 1). rewrite Z.land_ones by lia. change (2 ^ 1) with 2.
  rewrite Zmod_odd. by destruct (Z.odd _).
Qed.

Lemma make_delta_wf {G} `{RandGen G} (g : G) :
  block_wf (make_delta g).1 ∧ lsb (make_delta g).1 = true.
Proof.
  unfold make_delta. pose proof (draw_bytes_wf 16 g) as [Hl Hf].
  destruct (draw_bytes 16 g) as [d g']; cbn [fst] in *.
  destruct d as [|b d]; [done|]. cbn.
  apply Forall_cons in Hf as [Hb Hf]. split.
  - split; [done|]. constructor; [|done]. auto with word.
  - rewrite lsb_odd. cbn. rewrite <-Z.bit0_odd, Z.lor_spec. cbn. by rewrite orb_true_r.
Qed.

Lemma xor_block_wf a b : block_wf a → block_wf b → block_wf (xor_block a b).
Proof.
  intros [La Fa] [Lb Fb]. unfold xor_block. split; [rewrite length_zip_with; lia|].
  clear La Lb. revert b Fb. induction Fa as [|x a Hx Fa IH]; intros b Fb; [constructor|].
  destruct Fb; constructor; auto with word.
Qed.

Lemma zero_block_wf : block_wf zero_block.
Proof. split; [done|]. by apply Forall_replicate. Qed.

Lemma zip_with_lxor_assoc (a b c : list Z) :
  zip_with Z.lxor a (zip_with Z.lxor b c) = zip_with Z.lxor (zip_with Z.lxor a b) c.
Proof.
  revert b c. induction a as [|x a IH]; intros [|y b] [|z c]; cbn; try done.
  by rewrite IH, Z.lxor_assoc.
Qed.

Lemma zip_with_lxor_comm (a b : list Z) : zip_with Z.lxor a b = zip_with Z.lxor b a.
Proof. revert b. induction a as [|x a IH]; intros [|y b]; cbn; try done. by rewrite IH, Z.lxor_comm. Qed.

Lemma zip_with_lxor_self (a : list Z) : zip_with Z.lxor a a = replicate (length a) 0.
Proof. induction a; cbn; [done|]. by rewrite Z.lxor_nilpotent, IHa. Qed.

Lemma zip_with_lxor_zero (a : list Z) : zip_with Z.lxor (replicate (length a) 0) a = a.
Proof. induction a; cbn; [done|]. by rewrite IHa. Qed.

#[export] Instance Block_xor_ops : XorOps Block :=
  { xor := xor_block; xzero := zero_block; xwf := block_wf; xsig := lsb }.

#[export] Instance Block_xor_laws : XorLaws Block.
Proof.
  constructor; cbn [xor xzero xwf xsig Block_xor_ops].
  - apply zip_with_lxor_comm.
  - apply zip_with_lxor_assoc.
  - intros a [Ha _]. unfold zero_block, xor_block. rewrite <-Ha. apply zip_with_lxor_zero.
  - intros a [Ha _]. unfold xor_block. by rewrite zip_with_lxor_self, Ha.
  - apply zero_block_wf.
  - apply xor_block_wf.
  - intros a b [La _] [Lb _]. rewrite !lsb_odd.
    destruct a as [|x a], b as [|y b]; try done. cbn.
    by rewrite <-!Z.bit0_odd, Z.lxor_spec.
Qed.

(** Restates [Block] goals in the terms of the XOR interface. *)
Ltac block_fold :=
  change xor_block with (@xor Block _) in *; change zero_block with (@xzero Block _) in *;
  change block_wf with (@xwf Block _) in *; change lsb with (@xsig Block _) in *.

Ltac block_solve := block_fold; xor_solve.

Lemma block_lookup x (i : nat) : block_wf x → (i < 16)%nat → is_Some (x !! i).
Proof. intros [Hl _] Hi. apply lookup_lt_is_Some. lia. Qed.

Lemma block_byte x (i : nat) : block_wf x → (i < 16)%nat → is_u8 (x !!! i).
Proof.
  intros Hx Hi. destruct (block_lookup x i Hx Hi) as [b Hb].
  rewrite (list_lookup_total_correct _ _ _ Hb). destruct Hx as [_ Hf].
  by eapply Forall_lookup_1.
Qed.

Lemma blocks_eq_spec a b : blocks_eq a b = true ↔ a = b.
Proof. apply bool_decide_eq_true. Qed.
