(* ===== verification/Aes.v ===== *)
(** * The fixed-key AES of [voprf-bench/gc_mmo.hpp]

    [FixedKeyAES] in its two builds: the portable one (tables and loops) and the
    AES-NI one (compiler intrinsics, modelled from Intel's description of the
    instructions and the arithmetic of FIPS-197).  The theorems: the S-box table is the AES S-box, the portable
    cipher meets the FIPS-197 vector and is a permutation of the blocks, and the
    two builds agree on every key and block. *)

From S2P Require Import Prelude Xor Block.

(** ** Tables *)
Definition SBOX : list Z :=
  [0x63; 0x7c; 0x77; 0x7b; 0xf2; 0x6b; 0x6f; 0xc5; 0x30; 0x01; 0x67; 0x2b; 0xfe; 0xd7; 0xab; 0x76;
   0xca; 0x82; 0xc9; 0x7d; 0xfa; 0x59; 0x47; 0xf0; 0xad; 0xd4; 0xa2; 0xaf; 0x9c; 0xa4; 0x72; 0xc0;
   0xb7; 0xfd; 0x93; 0x26; 0x36; 0x3f; 0xf7; 0xcc; 0x34; 0xa5; 0xe5; 0xf1; 0x71; 0xd8; 0x31; 0x15;
   0x04; 0xc7; 0x23; 0xc3; 0x18; 0x96; 0x05; 0x9a; 0x07; 0x12; 0x80; 0xe2; 0xeb; 0x27; 0xb2; 0x75;
   0x09; 0x83; 0x2c; 0x1a; 0x1b; 0x6e; 0x5a; 0xa0; 0x52; 0x3b; 0xd6; 0xb3; 0x29; 0xe3; 0x2f; 0x84;
   0x53; 0xd1; 0x00; 0xed; 0x20; 0xfc; 0xb1; 0x5b; 0x6a; 0xcb; 0xbe; 0x39; 0x4a; 0x4c; 0x58; 0xcf;
   0xd0; 0xef; 0xaa; 0xfb; 0x43; 0x4d; 0x33; 0x85; 0x45; 0xf9; 0x02; 0x7f; 0x50; 0x3c; 0x9f; 0xa8;
   0x51; 0xa3; 0x40; 0x8f; 0x92; 0x9d; 0x38; 0xf5; 0xbc; 0xb6; 0xda; 0x21; 0x10; 0xff; 0xf3; 0xd2;
   0xcd; 0x0c; 0x13; 0xec; 0x5f; 0x97; 0x44; 0x17; 0xc4; 0xa7; 0x7e; 0x3d; 0x64; 0x5d; 0x19; 0x73;
   0x60; 0x81; 0x4f; 0xdc; 0x22; 0x2a; 0x90; 0x88; 0x46; 0xee; 0xb8; 0x14; 0xde; 0x5e; 0x0b; 0xdb;
   0xe0; 0x32; 0x3a; 0x0a; 0x49; 0x06; 0x24; 0x5c; 0xc2; 0xd3; 0xac; 0x62; 0x91; 0x95; 0xe4; 0x79;
   0xe7; 0xc8; 0x37; 0x6d; 0x8d; 0xd5; 0x4e; 0xa9; 0x6c; 0x56; 0xf4; 0xea; 0x65; 0x7a; 0xae; 0x08;
   0xba; 0x78; 0x25; 0x2e; 0x1c; 0xa6; 0xb4; 0xc6; 0xe8; 0xdd; 0x74; 0x1f; 0x4b; 0xbd; 0x8b; 0x8a;
   0x70; 0x3e; 0xb5; 0x66; 0x48; 0x03; 0xf6; 0x0e; 0x61; 0x35; 0x57; 0xb9; 0x86; 0xc1; 0x1d; 0x9e;
   0xe1; 0xf8; 0x98; 0x11; 0x69; 0xd9; 0x8e; 0x94; 0x9b; 0x1e; 0x87; 0xe9; 0xce; 0x55; 0x28; 0xdf;
   0x8c; 0xa1; 0x89; 0x0d; 0xbf; 0xe6; 0x42; 0x68; 0x41; 0x99; 0x2d; 0x0f; 0xb0; 0x54; 0xbb; 0x16].

Definition RCON : list Z :=
  [0; 0x01; 0x02; 0x04; 0x08; 0x10; 0x20; 0x40; 0x80; 0x1B; 0x36].

Definition sbox (x : Z) : Z := SBOX !!! Z.to_nat x.

(** ** The portable build *)
Module Portable.

(** One pass of the key-schedule loop: [rk[r]] from [rk[r-1]] and [RCON[r]]. *)
Definition next_round_key (prev : Block) (rcon : Z) : Block :=
  let t := [Z.lxor (sbox (prev !!! 13%nat)) rcon; sbox (prev !!! 14%nat);
            sbox (prev !!! 15%nat); sbox (prev !!! 12%nat)] in
  foldl (λ rk i, rk ++ [Z.lxor (prev !!! i) (rk !!! (i - 4)%nat)])
    (zip_with Z.lxor (take 4 prev) t) (seq 4 12).

(** The constructor: the eleven round keys [rk[0..10]]. *)
Definition FixedKeyAES (key : Block) : list Block :=
  foldl (λ rk r, rk ++ [next_round_key (rk !!! (r - 1)%nat) (RCON !!! r)]) [key] (seq 1 10).

Definition sub_bytes (st : list Z) : list Z := sbox <$> st.

(** The row rotations, assignment by assignment. *)
Definition shift_rows (st : list Z) : list Z :=
  let t := st !!! 1%nat in
  let st := <[1%nat := st !!! 5%nat]> st in
  let st := <[5%nat := st !!! 9%nat]> st in
  let st := <[9%nat := st !!! 13%nat]> st in
  let st := <[13%nat := t]> st in
  let t := st !!! 2%nat in
  let st := <[2%nat := st !!! 10%nat]> st in
  let st := <[10%nat := t]> st in
  let t := st !!! 6%nat in
  let st := <[6%nat := st !!! 14%nat]> st in
  let st := <[14%nat := t]> st in
  let t := st !!! 15%nat in
  let st := <[15%nat := st !!! 11%nat]> st in
  let st := <[11%nat := st !!! 7%nat]> st in
  let st := <[7%nat := st !!! 3%nat]> st in
  <[3%nat := t]> st.

Definition xtime (x : Z) : Z :=
  u8 (Z.lxor (Z.shiftl x 1) (if negb (Z.land x 0x80 =? 0) then 0x1b else 0)).

Definition mix_column (a0 a1 a2 a3 : Z) : list Z :=
  let t := Z.lxor (Z.lxor (Z.lxor a0 a1) a2) a3 in
  [Z.lxor a0 (Z.lxor t (xtime (Z.lxor a0 a1)));
   Z.lxor a1 (Z.lxor t (xtime (Z.lxor a1 a2)));
   Z.lxor a2 (Z.lxor t (xtime (Z.lxor a2 a3)));
   Z.lxor a3 (Z.lxor t (xtime (Z.lxor a3 a0)))].

Definition mix_columns (st : list Z) : list Z :=
  concat ((λ c : nat, mix_column (st !!! (4 * c)%nat) (st !!! (4 * c + 1)%nat)
                           (st !!! (4 * c + 2)%nat) (st !!! (4 * c + 3)%nat)) <$> seq 0 4).

(** [for (i < 16) s[i] ^= rk[i]] *)
Definition add_round_key (s rk : list Z) : list Z := zip_with Z.lxor s rk.

Definition encrypt (rk : list Block) (inp : Block) : Block :=
  let s := add_round_key inp (rk !!! 0%nat) in
  let s := foldl (λ s r, add_round_key (mix_columns (shift_rows (sub_bytes s))) (rk !!! r))
                 s (seq 1 9) in
  add_round_key (shift_rows (sub_bytes s)) (rk !!! 10%nat).

End Portable.

(** ** Specification: the round operations of FIPS-197

    The instructions of the processor are described by FIPS-197; their model is
    written from the standard, by arithmetic in GF(2^8), and uses neither the
    table nor the loops of the portable build. *)
Module Fips.

(** The product of two polynomials over GF(2), [n] coefficients of [y]. *)
Fixpoint clmul (n : nat) (x y : Z) : Z :=
  match n with
  | O => 0
  | S n => Z.lxor (if Z.testbit y (Z.of_nat n) then Z.shiftl x (Z.of_nat n) else 0) (clmul n x y)
  end.

(** The remainder modulo x^8 + x^4 + x^3 + x + 1 of a polynomial of degree below [8 + n]. *)
Fixpoint reduce (n : nat) (p : Z) : Z :=
  match n with
  | O => p
  | S n => reduce n (if Z.testbit p (8 + Z.of_nat n) then Z.lxor p (Z.shiftl 0x11b (Z.of_nat n)) else p)
  end.

Definition gf_mul (x y : Z) : Z := reduce 7 (clmul 8 x y).

(** The multiplicative inverse, with 0 for 0: the power 254. *)
Definition gf_inv (x : Z) : Z :=
  let x2 := gf_mul x x in
  let x3 := gf_mul x2 x in
  let x12 := (λ y, gf_mul y y) (gf_mul x3 x3) in
  let x15 := gf_mul x12 x3 in
  let x240 := Nat.iter 4 (λ y, gf_mul y y) x15 in
  gf_mul (gf_mul x240 x12) x2.

(** Bit [i] of the affine map is the sum of the bits [i], [i+4], [i+5], [i+6] and
    [i+7] modulo 8 of the argument and bit [i] of 0x63. *)
Definition affine (b : Z) : Z :=
  foldr (λ i v, 2 * v + Z.b2z
    (foldr (λ j, xorb (Z.testbit b ((i + j) mod 8))) (Z.testbit 0x63 i) [0; 4; 5; 6; 7])) 0 (seqZ 0 8).

Definition sub_byte (x : Z) : Z := affine (gf_inv x).
Definition sub_bytes (st : list Z) : list Z := sub_byte <$> st.

(** Byte [r + 4 c] of the state is in row [r] and column [c]; row [r] rotates by [r]. *)
Definition shift_rows (st : list Z) : list Z :=
  (λ i : nat, st !!! (i mod 4 + 4 * ((i / 4 + i mod 4) mod 4))%nat) <$> seq 0 16.

(** The columns are multiplied by the circulant matrix of 2, 3, 1, 1. *)
Definition mix_entry (r k : nat) : Z := [2; 3; 1; 1] !!! ((k + 4 - r) mod 4)%nat.
Definition mix_columns (st : list Z) : list Z :=
  (λ i : nat, foldr (λ k, Z.lxor (gf_mul (mix_entry (i mod 4) k) (st !!! (4 * (i / 4) + k)%nat)))
     0 (seq 0 4)) <$> seq 0 16.

End Fips.

(** ** The AES-NI build

    A [__m128i] is its sixteen bytes in memory order.  The intrinsics follow
    their documented operation, with the round operations of FIPS-197. *)
Module Aesni.

Definition slli_si128 (x : list Z) (n : nat) : list Z := replicate n 0 ++ take (16 - n) x.
Definition shuffle_ff (x : list Z) : list Z :=
  let d := [x !!! 12%nat; x !!! 13%nat; x !!! 14%nat; x !!! 15%nat] in d ++ d ++ d ++ d.
Definition rot_word (w : list Z) : list Z :=
  [w !!! 1%nat; w !!! 2%nat; w !!! 3%nat; w !!! 0%nat].
Definition sub_word (w : list Z) : list Z := Fips.sub_byte <$> w.
Definition xor_rcon (w : list Z) (rcon : Z) : list Z := zip_with Z.lxor w [rcon; 0; 0; 0].
Definition aeskeygenassist (x : list Z) (rcon : Z) : list Z :=
  let x1 := [x !!! 4%nat; x !!! 5%nat; x !!! 6%nat; x !!! 7%nat] in
  let x3 := [x !!! 12%nat; x !!! 13%nat; x !!! 14%nat; x !!! 15%nat] in
  sub_word x1 ++ xor_rcon (rot_word (sub_word x1)) rcon ++
  sub_word x3 ++ xor_rcon (rot_word (sub_word x3)) rcon.
Definition aesenc (m rk : list Z) : list Z :=
  zip_with Z.lxor (Fips.mix_columns (Fips.sub_bytes (Fips.shift_rows m))) rk.
Definition aesenclast (m rk : list Z) : list Z :=
  zip_with Z.lxor (Fips.sub_bytes (Fips.shift_rows m)) rk.

Definition key_expand_assist (key assist : list Z) : list Z :=
  let key := zip_with Z.lxor key (slli_si128 key 4) in
  let key := zip_with Z.lxor key (slli_si128 key 4) in
  let key := zip_with Z.lxor key (slli_si128 key 4) in
  zip_with Z.lxor key (shuffle_ff assist).

Definition FixedKeyAES (key : Block) : list Block :=
  let rk0 := key in
  let rk1 := key_expand_assist rk0 (aeskeygenassist rk0 0x01) in
  let rk2 := key_expand_assist rk1 (aeskeygenassist rk1 0x02) in
  let rk3 := key_expand_assist rk2 (aeskeygenassist rk2 0x04) in
  let rk4 := key_expand_assist rk3 (aeskeygenassist rk3 0x08) in
  let rk5 := key_expand_assist rk4 (aeskeygenassist rk4 0x10) in
  let rk6 := key_expand_assist rk5 (aeskeygenassist rk5 0x20) in
  let rk7 := key_expand_assist rk6 (aeskeygenassist rk6 0x40) in
  let rk8 := key_expand_assist rk7 (aeskeygenassist rk7 0x80) in
  let rk9 := key_expand_assist rk8 (aeskeygenassist rk8 0x1B) in
  let rk10 := key_expand_assist rk9 (aeskeygenassist rk9 0x36) in
  [rk0; rk1; rk2; rk3; rk4; rk5; rk6; rk7; rk8; rk9; rk10].

Definition encrypt (rk : list Block) (inp : Block) : Block :=
  let m := zip_with Z.lxor inp (rk !!! 0%nat) in
  let m := foldl (λ m i, aesenc m (rk !!! i)) m (seq 1 9) in
  aesenclast m (rk !!! 10%nat).

End Aesni.

(** ** Specification: the inverse cipher *)
Module Inverse.

Definition inv_sbox (y : Z) : Z :=
  match list_find (λ x, x = y) SBOX with Some (i, _) => Z.of_nat i | None => 0 end.

Definition inv_shift_rows (st : list Z) : list Z :=
  (λ i : nat, st !!! ((13 * i) mod 16)%nat) <$> seq 0 16.

Definition x2 (a : Z) : Z := Portable.xtime a.
Definition mul9 (a : Z) : Z := Z.lxor (x2 (x2 (x2 a))) a.
Definition mul11 (a : Z) : Z := Z.lxor (Z.lxor (x2 (x2 (x2 a))) (x2 a)) a.
Definition mul13 (a : Z) : Z := Z.lxor (Z.lxor (x2 (x2 (x2 a))) (x2 (x2 a))) a.
Definition mul14 (a : Z) : Z := Z.lxor (Z.lxor (x2 (x2 (x2 a))) (x2 (x2 a))) (x2 a).

Definition inv_mix_column (c0 c1 c2 c3 : Z) : list Z :=
  [Z.lxor (Z.lxor (mul14 c0) (mul11 c1)) (Z.lxor (mul13 c2) (mul9 c3));
   Z.lxor (Z.lxor (mul9 c0) (mul14 c1)) (Z.lxor (mul11 c2) (mul13 c3));
   Z.lxor (Z.lxor (mul13 c0) (mul9 c1)) (Z.lxor (mul14 c2) (mul11 c3));
   Z.lxor (Z.lxor (mul11 c0) (mul13 c1)) (Z.lxor (mul9 c2) (mul14 c3))].

Definition inv_mix_columns (st : list Z) : list Z :=
  concat ((λ c : nat, inv_mix_column (st !!! (4 * c)%nat) (st !!! (4 * c + 1)%nat)
                        (st !!! (4 * c + 2)%nat) (st !!! (4 * c + 3)%nat)) <$> seq 0 4).

Definition inv_round (rk s : list Z) : list Z :=
  inv_sbox <$> inv_shift_rows (inv_mix_columns (Portable.add_round_key s rk)).

Definition decrypt (rk : list Block) (c : Block) : Block :=
  let s := inv_sbox <$> inv_shift_rows (Portable.add_round_key c (rk !!! 10%nat)) in
  let s := foldr (λ r s, inv_round (rk !!! r) s) s (seq 1 9) in
  Portable.add_round_key s (rk !!! 0%nat).

End Inverse.

(** ** Facts about bytes *)
Lemma u8_forall (P : Z → bool) :
  forallb P (seqZ 0 256) = true → ∀ x, is_u8 x → P x = true.
Proof.
  intros HP x Hx. rewrite forallb_forall in HP. apply HP.
  apply list_elem_of_In, elem_of_seqZ. unfold is_word in Hx. lia.
Qed.

Lemma sbox_u8 x : is_u8 x → is_u8 (sbox x).
Proof.
  intros Hx. apply (bool_decide_eq_true_1 _).
  revert x Hx. apply u8_forall. by vm_compute.
Qed.

(** The table [SBOX] is the S-box of FIPS-197. *)
Lemma sbox_sub_byte x : is_u8 x → sbox x = Fips.sub_byte x.
Proof.
  intros Hx. apply (bool_decide_eq_true_1 _). revert x Hx. apply u8_forall. by vm_compute.
Qed.

(** The products with the entries of the matrix, by the shift of the portable build. *)
Lemma gf_mul_entries x : is_u8 x →
  Fips.gf_mul 1 x = x ∧ Fips.gf_mul 2 x = Portable.xtime x ∧
  Fips.gf_mul 3 x = Z.lxor (Portable.xtime x) x.
Proof.
  intros Hx. apply (bool_decide_eq_true_1 _). revert x Hx. apply u8_forall. by vm_compute.
Qed.

Lemma inv_sbox_sbox x : is_u8 x → Inverse.inv_sbox (sbox x) = x.
Proof.
  intros Hx. apply (bool_decide_eq_true_1 _).
  revert x Hx. apply u8_forall. by vm_compute.
Qed.

Lemma xtime_u8 x : is_u8 (Portable.xtime x).
Proof. apply is_u8_u8. Qed.

Lemma xtime_lxor x y : is_u8 x → is_u8 y →
  Portable.xtime (Z.lxor x y) = Z.lxor (Portable.xtime x) (Portable.xtime y).
Proof.
  intros Hx Hy. apply (bool_decide_eq_true_1 _). revert y Hy. apply u8_forall.
  revert x Hx. apply (u8_forall (λ x, forallb _ _)). by vm_compute.
Qed.

#[export] Hint Resolve sbox_u8 xtime_u8 : word.

(** ** Facts about states *)

(** A list of sixteen elements is sixteen elements. *)
Lemma list16_inv (P : list Z → Prop) :
  (∀ a0 a1 a2 a3 a4 a5 a6 a7 a8 a9 a10 a11 a12 a13 a14 a15,
     P [a0; a1; a2; a3; a4; a5; a6; a7; a8; a9; a10; a11; a12; a13; a14; a15]) →
  ∀ x, length x = 16%nat → P x.
Proof. intros HP x Hx. do 16 (destruct x; [done|]). destruct x; [apply HP|done]. Qed.

Ltac list16 x H := pattern x; revert x H; apply list16_inv; intros.

(** Opens a well-formed block into its bytes. *)
Ltac block_open x H :=
  let Hl := fresh in let Hf := fresh "Hf" in
  destruct H as [Hl Hf]; revert Hf; pattern x; revert x Hl; apply list16_inv; intros;
  repeat match goal with HF : Forall _ (_ :: _) |- _ => apply Forall_cons in HF as [? HF] end.

(** A block given by its bytes is well formed. *)
Ltac u8_tac :=
  repeat first [assumption | apply xtime_u8 | apply is_u8_u8 | apply sbox_u8
               | apply is_word_lxor; [done|..]].
Ltac bytes_wf := repeat (apply Forall_cons_2; [by u8_tac|]); apply Forall_nil_2.
Ltac block_wf_tac := split; [done|bytes_wf].

Lemma sub_bytes_wf st : block_wf st → block_wf (sbox <$> st).
Proof.
  intros [Hl Hf]. split; [by rewrite length_fmap|].
  apply Forall_fmap. eapply Forall_impl; [done|]. intros x. apply sbox_u8.
Qed.

Lemma inv_sub_bytes st : block_wf st → Inverse.inv_sbox <$> (sbox <$> st) = st.
Proof.
  intros [_ Hf]. rewrite <-list_fmap_compose. rewrite <-(list_fmap_id st) at 2.
  apply Forall_fmap_ext_1. eapply Forall_impl; [done|]. intros x. apply inv_sbox_sbox.
Qed.

Lemma shift_rows_wf st : block_wf st → block_wf (Portable.shift_rows st).
Proof. intros H. block_open st H. cbn. block_wf_tac. Qed.

Lemma inv_shift_rows st : length st = 16%nat →
  Inverse.inv_shift_rows (Portable.shift_rows st) = st.
Proof. by apply (list16_inv (λ st, Inverse.inv_shift_rows (Portable.shift_rows st) = st)). Qed.

Lemma mix_column_u8 a0 a1 a2 a3 : is_u8 a0 → is_u8 a1 → is_u8 a2 → is_u8 a3 →
  Forall is_u8 (Portable.mix_column a0 a1 a2 a3).
Proof. intros. unfold Portable.mix_column. bytes_wf. Qed.

(** Functions on bytes that commute with XOR. *)
Definition u8_additive (f : Z → Z) : Prop :=
  ∀ x y, is_u8 x → is_u8 y → f (Z.lxor x y) = Z.lxor (f x) (f y).

Lemma x2_additive : u8_additive Inverse.x2.
Proof. intros x y. apply xtime_lxor. Qed.

Lemma additive_comp f g : u8_additive f → u8_additive g →
  (∀ x, is_u8 (g x)) → u8_additive (λ x, f (g x)).
Proof. intros Hf Hg Hr x y Hx Hy. by rewrite Hg, Hf. Qed.

Lemma additive_xor f g : u8_additive f → u8_additive g →
  u8_additive (λ x, Z.lxor (f x) (g x)).
Proof. intros Hf Hg x y Hx Hy. rewrite Hf, Hg by done. z_xor_solve. Qed.

Lemma additive_id : u8_additive (λ x, x).
Proof. by intros x y. Qed.

Lemma mul_additive :
  u8_additive Inverse.mul9 ∧ u8_additive Inverse.mul11 ∧
  u8_additive Inverse.mul13 ∧ u8_additive Inverse.mul14.
Proof.
  pose proof x2_additive. pose proof additive_id.
  assert (u8_additive (λ x, Inverse.x2 (Inverse.x2 x))) as H2
    by (apply (additive_comp Inverse.x2 Inverse.x2); [done..|apply xtime_u8]).
  assert (u8_additive (λ x, Inverse.x2 (Inverse.x2 (Inverse.x2 x)))) as H3
    by (apply (additive_comp Inverse.x2 (λ x, Inverse.x2 (Inverse.x2 x))); [done..|];
        intros; apply xtime_u8).
  split_and!; repeat apply additive_xor; done.
Qed.

(** An additive function of one output byte of [mix_column]. *)
Lemma additive_column f a a0 a1 a2 a3 b c : u8_additive f →
  is_u8 a → is_u8 a0 → is_u8 a1 → is_u8 a2 → is_u8 a3 → is_u8 b → is_u8 c →
  f (Z.lxor a (Z.lxor (Z.lxor (Z.lxor (Z.lxor a0 a1) a2) a3) (Portable.xtime (Z.lxor b c)))) =
  Z.lxor (f a) (Z.lxor (Z.lxor (Z.lxor (Z.lxor (f a0) (f a1)) (f a2)) (f a3))
                  (Z.lxor (f (Portable.xtime b)) (f (Portable.xtime c)))).
Proof.
  intros Hf. intros. rewrite xtime_lxor by done.
  rewrite !Hf by u8_tac. done.
Qed.

Lemma inv_mix_column a0 a1 a2 a3 : is_u8 a0 → is_u8 a1 → is_u8 a2 → is_u8 a3 →
  let c := Portable.mix_column a0 a1 a2 a3 in
  Inverse.inv_mix_column (c !!! 0%nat) (c !!! 1%nat) (c !!! 2%nat) (c !!! 3%nat)
    = [a0; a1; a2; a3].
Proof.
  intros. destruct mul_additive as (H9 & H11 & H13 & H14).
  unfold c, Portable.mix_column, Inverse.inv_mix_column.
  cbn [lookup_total list_lookup_total].
  rewrite !(additive_column _ _ _ _ _ _ _ _ H9), !(additive_column _ _ _ _ _ _ _ _ H11),
    !(additive_column _ _ _ _ _ _ _ _ H13), !(additive_column _ _ _ _ _ _ _ _ H14) by done.
  unfold Inverse.mul9, Inverse.mul11, Inverse.mul13, Inverse.mul14, Inverse.x2.
  repeat (apply (f_equal2 cons); [z_xor_solve|]). done.
Qed.

Lemma mix_columns_wf st : block_wf st → block_wf (Portable.mix_columns st).
Proof. intros H. block_open st H. block_wf_tac. Qed.

Lemma inv_mix_columns st : block_wf st →
  Inverse.inv_mix_columns (Portable.mix_columns st) = st.
Proof.
  intros H. block_open st H.
  match goal with |- _ = [?a0; ?a1; ?a2; ?a3; ?a4; ?a5; ?a6; ?a7; ?a8; ?a9; ?a10; ?a11;
                          ?a12; ?a13; ?a14; ?a15] =>
    pose (col b0 b1 b2 b3 :=
      let c := Portable.mix_column b0 b1 b2 b3 in
      Inverse.inv_mix_column (c !!! 0%nat) (c !!! 1%nat) (c !!! 2%nat) (c !!! 3%nat));
    trans (col a0 a1 a2 a3 ++ col a4 a5 a6 a7 ++ col a8 a9 a10 a11 ++ col a12 a13 a14 a15 ++ [])
  end; [reflexivity|].
  unfold col. rewrite !inv_mix_column by done. done.
Qed.

Lemma add_round_key_wf s rk : block_wf s → block_wf rk → block_wf (Portable.add_round_key s rk).
Proof. apply xor_block_wf. Qed.

Lemma add_round_key_inv s rk : block_wf s → block_wf rk →
  Portable.add_round_key (Portable.add_round_key s rk) rk = s.
Proof. intros Hs Hk. exact (@xor_cancel_r Block _ _ s rk Hs Hk). Qed.

Definition round (rk s : list Z) : list Z :=
  Portable.add_round_key (Portable.mix_columns (Portable.shift_rows (Portable.sub_bytes s))) rk.

Lemma round_wf rk s : block_wf rk → block_wf s → block_wf (round rk s).
Proof.
  intros. apply add_round_key_wf; [|done].
  by apply mix_columns_wf, shift_rows_wf, sub_bytes_wf.
Qed.

Lemma inv_round_round rk s : block_wf rk → block_wf s → Inverse.inv_round rk (round rk s) = s.
Proof.
  intros Hrk Hs. pose proof (sub_bytes_wf s Hs) as H1. pose proof (shift_rows_wf _ H1) as H2.
  unfold Inverse.inv_round, round.
  rewrite add_round_key_inv by (done || by apply mix_columns_wf).
  rewrite inv_mix_columns by done. rewrite inv_shift_rows by apply H1.
  by apply inv_sub_bytes.
Qed.

(** Round keys that are blocks. *)
Definition schedule_wf (rk : list Block) : Prop :=
  length rk = 11%nat ∧ Forall block_wf rk.

Lemma schedule_lookup rk (r : nat) : schedule_wf rk → (r < 11)%nat → block_wf (rk !!! r).
Proof.
  intros [Hl Hf] Hr. destruct (lookup_lt_is_Some_2 rk r) as [k Hk]; [lia|].
  rewrite (list_lookup_total_correct _ _ _ Hk). by eapply Forall_lookup_1.
Qed.

(** Nine rounds, and the way back. *)
Lemma rounds_inv rk l s : schedule_wf rk → block_wf s → Forall (λ r, (r < 11)%nat) l →
  block_wf (foldl (λ s r, round (rk !!! r) s) s l) ∧
  foldr (λ r s, Inverse.inv_round (rk !!! r) s) (foldl (λ s r, round (rk !!! r) s) s l) l = s.
Proof.
  intros Hrk Hs Hl. revert s Hs. induction Hl as [|r l Hr Hl IH]; intros s Hs; [done|].
  pose proof (schedule_lookup rk r Hrk Hr) as Hk.
  destruct (IH (round (rk !!! r) s) (round_wf _ _ Hk Hs)) as [Hw He].
  cbn [foldl foldr]. split; [done|]. rewrite He. by apply inv_round_round.
Qed.

Lemma main_rounds_range : Forall (λ r, (r < 11)%nat) (seq 1 9).
Proof. apply Forall_forall. intros r Hr%elem_of_seq. lia. Qed.

Lemma encrypt_wf rk inp : schedule_wf rk → block_wf inp → block_wf (Portable.encrypt rk inp).
Proof.
  intros Hrk Hi. unfold Portable.encrypt.
  apply add_round_key_wf; [|apply schedule_lookup; [done|lia]].
  apply shift_rows_wf, sub_bytes_wf, rounds_inv; [done| |apply main_rounds_range].
  apply add_round_key_wf; [done|]. apply schedule_lookup; [done|lia].
Qed.

Lemma next_round_key_wf prev rcon : block_wf prev → is_u8 rcon →
  block_wf (Portable.next_round_key prev rcon).
Proof. intros H Hr. block_open prev H. cbn -[sbox Z.lxor]. split; [done|]. bytes_wf. Qed.

Lemma RCON_u8 r : is_u8 (RCON !!! r).
Proof.
  destruct (RCON !! r) as [x|] eqn:E.
  - rewrite (list_lookup_total_correct _ _ _ E).
    assert (Forall is_u8 RCON) by (vm_compute; repeat constructor; done).
    by eapply Forall_lookup_1.
  - rewrite list_lookup_total_alt, E. cbn. by unfold is_word.
Qed.

(** The key schedule yields eleven blocks. *)
Definition schedule_step (rk : list Block) (r : nat) : list Block :=
  rk ++ [Portable.next_round_key (rk !!! (r - 1)%nat) (RCON !!! r)].

Lemma schedule_step_wf rk r : Forall block_wf rk → length rk = r → (0 < r)%nat →
  Forall block_wf (schedule_step rk r) ∧ length (schedule_step rk r) = S r.
Proof.
  intros Hf Hl Hr. unfold schedule_step. rewrite length_app, Hl, Nat.add_1_r.
  split; [|done]. apply Forall_app. split; [done|]. apply Forall_singleton.
  apply next_round_key_wf; [|apply RCON_u8].
  destruct (lookup_lt_is_Some_2 rk (r - 1)) as [k Hk]; [lia|].
  rewrite (list_lookup_total_correct _ _ _ Hk). by eapply Forall_lookup_1.
Qed.

Lemma schedule_steps_wf n rk r : Forall block_wf rk → length rk = r → (0 < r)%nat →
  Forall block_wf (foldl schedule_step rk (seq r n)) ∧
  length (foldl schedule_step rk (seq r n)) = (r + n)%nat.
Proof.
  revert rk r. induction n as [|n IH]; intros rk r Hf Hl Hr; cbn [seq foldl].
  - by rewrite Nat.add_0_r.
  - destruct (schedule_step_wf rk r Hf Hl Hr) as [Hf' Hl'].
    destruct (IH _ _ Hf' Hl') as [H1 H2]; [lia|]. split; [done|lia].
Qed.

Lemma FixedKeyAES_wf key : block_wf key → schedule_wf (Portable.FixedKeyAES key).
Proof.
  intros Hk. unfold schedule_wf, Portable.FixedKeyAES. fold schedule_step.
  destruct (schedule_steps_wf 10 [key] 1) as [Hf Hl]; [by repeat constructor; apply Hk|done|lia|].
  split; [apply Hl|apply Hf].
Qed.

#[export] Hint Resolve encrypt_wf FixedKeyAES_wf : word.

(** ** The AES-NI build computes the same functions *)

Lemma key_expand_eq prev rcon : block_wf prev →
  Aesni.key_expand_assist prev (Aesni.aeskeygenassist prev rcon)
    = Portable.next_round_key prev rcon.
Proof.
  intros H. block_open prev H.
  unfold Aesni.key_expand_assist, Aesni.aeskeygenassist, Aesni.slli_si128, Aesni.shuffle_ff,
    Aesni.xor_rcon, Aesni.rot_word, Aesni.sub_word, Portable.next_round_key.
  cbn -[sbox Fips.sub_byte Z.lxor]. rewrite <-!sbox_sub_byte by done.
  repeat (apply (f_equal2 cons); [z_xor_solve|]). done.
Qed.

Lemma schedule_eq key : block_wf key →
  Aesni.FixedKeyAES key = Portable.FixedKeyAES key.
Proof.
  intros Hk. unfold Aesni.FixedKeyAES.
  rewrite !key_expand_eq by (repeat apply next_round_key_wf; done || by unfold is_word).
  unfold Portable.FixedKeyAES. generalize Portable.next_round_key as f. intros f. by vm_compute.
Qed.

Lemma fips_shift_rows st : length st = 16%nat → Fips.shift_rows st = Portable.shift_rows st.
Proof. by apply (list16_inv (λ st, Fips.shift_rows st = Portable.shift_rows st)). Qed.

Lemma fips_sub_bytes st : block_wf st → Fips.sub_bytes st = Portable.sub_bytes st.
Proof.
  intros [_ Hf]. apply Forall_fmap_ext_1. eapply Forall_impl; [exact Hf|]. intros x Hx.
  symmetry. by apply sbox_sub_byte.
Qed.

Lemma sub_shift_comm st : block_wf st →
  Fips.sub_bytes (Fips.shift_rows st) = Portable.shift_rows (Portable.sub_bytes st).
Proof.
  intros H. rewrite fips_shift_rows by apply H. rewrite fips_sub_bytes by by apply shift_rows_wf.
  destruct H as [H _]. by list16 st H.
Qed.

Lemma fips_mix_columns st : block_wf st → Fips.mix_columns st = Portable.mix_columns st.
Proof.
  intros H. block_open st H.
  unfold Fips.mix_columns, Fips.mix_entry, Portable.mix_columns, Portable.mix_column.
  cbn -[Fips.gf_mul Portable.xtime Z.lxor].
  repeat match goal with Hx : is_u8 ?x |- _ =>
    destruct (gf_mul_entries x Hx) as (-> & -> & ->); revert Hx end.
  intros. rewrite !xtime_lxor by done.
  repeat (apply (f_equal2 cons); [z_xor_solve|]). done.
Qed.

Lemma aesenc_round m rk : block_wf m → Aesni.aesenc m rk = round rk m.
Proof.
  intros H. unfold Aesni.aesenc, round. rewrite sub_shift_comm by done.
  rewrite fips_mix_columns; [done|]. by apply shift_rows_wf, sub_bytes_wf.
Qed.

Lemma aesni_rounds rk l m : schedule_wf rk → block_wf m → Forall (λ r, (r < 11)%nat) l →
  foldl (λ m i, Aesni.aesenc m (rk !!! i)) m l = foldl (λ s r, round (rk !!! r) s) m l.
Proof.
  intros Hrk Hm Hl. revert m Hm. induction Hl as [|r l Hr Hl IH]; intros m Hm; [done|].
  cbn [foldl]. rewrite aesenc_round by done. apply IH, round_wf; [|done].
  by apply schedule_lookup.
Qed.

Lemma aesni_encrypt_eq rk inp : schedule_wf rk → block_wf inp →
  Aesni.encrypt rk inp = Portable.encrypt rk inp.
Proof.
  intros Hrk Hi. unfold Aesni.encrypt, Portable.encrypt.
  assert (block_wf (zip_with Z.lxor inp (rk !!! 0%nat))) as H0
    by (apply add_round_key_wf; [done|apply schedule_lookup; [done|lia]]).
  rewrite aesni_rounds by (done || apply main_rounds_range).
  unfold Aesni.aesenclast. rewrite sub_shift_comm; [done|].
  by apply rounds_inv; [..|apply main_rounds_range].
Qed.

Lemma decrypt_encrypt key inp : block_wf key → block_wf inp →
  Inverse.decrypt (Portable.FixedKeyAES key) (Portable.encrypt (Portable.FixedKeyAES key) inp)
    = inp.
Proof.
  intros Hk Hi. pose proof (FixedKeyAES_wf key Hk) as Hrk.
  set (rk := Portable.FixedKeyAES key) in *. unfold Inverse.decrypt, Portable.encrypt.
  pose proof (schedule_lookup rk 0 Hrk ltac:(lia)) as H0.
  pose proof (schedule_lookup rk 10 Hrk ltac:(lia)) as H10.
  set (s0 := Portable.add_round_key inp (rk !!! 0%nat)).
  assert (block_wf s0) as Hs0 by by apply add_round_key_wf.
  destruct (rounds_inv rk (seq 1 9) s0 Hrk Hs0 main_rounds_range) as [Hw He].
  unfold round in Hw, He. set (s9 := foldl _ s0 _) in *.
  pose proof (sub_bytes_wf s9 Hw) as Hsb. pose proof (shift_rows_wf _ Hsb) as Hsr.
  rewrite add_round_key_inv by done. rewrite inv_shift_rows by apply Hsb.
  unfold Portable.sub_bytes. rewrite inv_sub_bytes by done. rewrite He.
  unfold s0. by apply add_round_key_inv.
Qed.

(** ** Properties *)

Lemma gf_inv_table x : is_u8 x → (x =? 0) || (Fips.gf_mul x (Fips.gf_inv x) =? 1) = true.
Proof.
  apply (u8_forall (λ x, (x =? 0) || (Fips.gf_mul x (Fips.gf_inv x) =? 1))). by vm_compute.
Qed.

(** The table [SBOX] is the AES S-box: every entry is the affine map of FIPS-197
    of the inverse in GF(2^8), and what the model takes for the inverse is one. *)
Theorem sbox_table_correct x : is_u8 x →
  sbox x = Fips.affine (Fips.gf_inv x) ∧ (x ≠ 0 → Fips.gf_mul x (Fips.gf_inv x) = 1).
Proof.
  intros Hx. split; [rewrite sbox_sub_byte by done; unfold Fips.sub_byte; reflexivity|]. intros H0.
  destruct (orb_prop _ _ (gf_inv_table x Hx)) as [E|E]; apply Z.eqb_eq in E; [by destruct (H0 E)|exact E].
Qed.

Lemma sbox_table_correct_witness :
  sbox 0x53 = Fips.affine (Fips.gf_inv 0x53) ∧ Fips.gf_mul 0x53 (Fips.gf_inv 0x53) = 1.
Proof.
  assert (is_u8 0x53) as H by (unfold is_word; lia). assert (0x53 ≠ 0) as H0 by lia.
  split; [exact (proj1 (sbox_table_correct 0x53 H))|exact (proj2 (sbox_table_correct 0x53 H) H0)].
Defined.

(** The portable cipher is a permutation of the blocks for every key: the
    inverse cipher recovers the plaintext from the ciphertext. *)
Theorem portable_encrypt_invertible key inp : block_wf key → block_wf inp →
  Inverse.decrypt (Portable.FixedKeyAES key) (Portable.encrypt (Portable.FixedKeyAES key) inp)
    = inp.
Proof. apply decrypt_encrypt. Qed.

Lemma portable_encrypt_invertible_witness :
  Inverse.decrypt (Portable.FixedKeyAES (Z.of_nat <$> seq 0 16))
    (Portable.encrypt (Portable.FixedKeyAES (Z.of_nat <$> seq 0 16)) (replicate 16 7))
    = replicate 16 7.
Proof.
  apply (portable_encrypt_invertible (Z.of_nat <$> seq 0 16) (replicate 16 7));
    by apply (bool_decide_eq_true_1 _).
Defined.

(** The portable build meets the example vector of FIPS-197, appendix C.1. *)
Theorem portable_fips197_vector :
  Portable.encrypt
    (Portable.FixedKeyAES
       [0x00; 0x01; 0x02; 0x03; 0x04; 0x05; 0x06; 0x07;
        0x08; 0x09; 0x0a; 0x0b; 0x0c; 0x0d; 0x0e; 0x0f])
    [0x00; 0x11; 0x22; 0x33; 0x44; 0x55; 0x66; 0x77;
     0x88; 0x99; 0xaa; 0xbb; 0xcc; 0xdd; 0xee; 0xff]
  = [0x69; 0xc4; 0xe0; 0xd8; 0x6a; 0x7b; 0x04; 0x30;
     0xd8; 0xcd; 0xb7; 0x80; 0x70; 0xb4; 0xc5; 0x5a].
Proof. by vm_compute. Qed.

(** C29. The portable build of [FixedKeyAES], with its table, its row rotations and
    its mixing of columns, and the AES-NI build, whose instructions are those of
    FIPS-197 (inverse and affine map, matrix product over GF(2^8)), expand every key
    to the same round keys and encrypt every block under it to the same ciphertext. *)
Theorem aesni_portable_equivalence key inp : block_wf key → block_wf inp →
  Aesni.FixedKeyAES key = Portable.FixedKeyAES key ∧
  Aesni.encrypt (Aesni.FixedKeyAES key) inp = Portable.encrypt (Portable.FixedKeyAES key) inp.
Proof.
  intros Hk Hi. rewrite schedule_eq by done. split; [done|].
  apply aesni_encrypt_eq; [by apply FixedKeyAES_wf|done].
Qed.

Lemma aesni_portable_equivalence_witness :
  Aesni.encrypt (Aesni.FixedKeyAES (replicate 16 1)) (replicate 16 2)
    = Portable.encrypt (Portable.FixedKeyAES (replicate 16 1)) (replicate 16 2).
Proof.
  apply (aesni_portable_equivalence (replicate 16 1) (replicate 16 2));
    by apply (bool_decide_eq_true_1 _).
Defined.

(** Conversion unfolds the cipher last. *)
#[global] Strategy 1000 [Portable.encrypt Portable.FixedKeyAES Aesni.encrypt Aesni.FixedKeyAES
  Inverse.decrypt].
