(* ===== verification/Circuit.v ===== *)
(** * Boolean circuits: the Bristol loader and the plaintext evaluation

    [Gate], [Circuit], [load_bristol] and [eval_circuit_plain] of
    [voprf-bench/gc_mmo.hpp].  The loader is modelled on the text of the file,
    with the formatted extraction of [std::istream] it uses. *)

From Stdlib Require Import Ascii.
From S2P Require Import Prelude.

Inductive GateType := XOR | AND | INV.

Record Gate := mkGate { type : GateType; in0 : Z; in1 : Z; gout : Z }.

Record Circuit := mkCircuit {
  n_gates : Z;
  n_wires : Z;
  n_input0 : Z;
  n_input1 : Z;
  n_output : Z;
  n_and : Z;
  n_xor : Z;
  gates : list Gate;
  output_wires : list Z;
}.

#[export] Instance GateType_eq_dec : EqDecision GateType.
Proof. solve_decision. Defined.
#[export] Instance Gate_eq_dec : EqDecision Gate.
Proof. solve_decision. Defined.

(** ** Formatted extraction

    A stream is the text that is left, or [None] once its failbit is set; an
    extraction from a failed stream leaves its target alone. *)
Abbreviation stream := (option (list ascii)).

Definition is_space (c : ascii) : bool :=
  let n := Ascii.N_of_ascii c in
  bool_decide (n = 32%N) || (bool_decide (9 ≤ n)%N && bool_decide (n ≤ 13)%N).

Definition digit_val (c : ascii) : option Z :=
  let n := Z.of_N (Ascii.N_of_ascii c) in
  if (48 <=? n) && (n <=? 57) then Some (n - 48) else None.

Fixpoint skip_ws (s : list ascii) : list ascii :=
  match s with
  | c :: s' => if is_space c then skip_ws s' else s
  | [] => []
  end.

(** The digits at the front of the text: their value, how many, the rest. *)
Fixpoint read_digits (acc : Z) (n : nat) (s : list ascii) : Z * nat * list ascii :=
  match s with
  | c :: s' =>
      match digit_val c with
      | Some d => read_digits (10 * acc + d) (S n) s'
      | None => (acc, n, s)
      end
  | [] => (acc, n, [])
  end.

Definition read_sign (s : list ascii) : bool * list ascii :=
  match s with
  | c :: s' =>
      if bool_decide (c = "-"%char) then (true, s')
      else if bool_decide (c = "+"%char) then (false, s') else (false, s)
  | [] => (false, [])
  end.

(** [is >> x] for an unsigned [x] of [w] bits that holds [old]. *)
Definition ext_unsigned (w : Z) (old : Z) (ins : stream) : Z * stream :=
  match ins with
  | None => (old, None)
  | Some s =>
      let '(neg, s) := read_sign (skip_ws s) in
      let '(m, n, rest) := read_digits 0 0 s in
      if Nat.eqb n 0 then (0, None)
      else if 2 ^ w <=? m then (2 ^ w - 1, None)
      else (if neg : bool then (- m) mod 2 ^ w else m, Some rest)
  end.

(** [is >> x] for an [int x] that holds [old]. *)
Definition ext_int (old : Z) (ins : stream) : Z * stream :=
  match ins with
  | None => (old, None)
  | Some s =>
      let '(neg, s) := read_sign (skip_ws s) in
      let '(m, n, rest) := read_digits 0 0 s in
      let v := if neg : bool then - m else m in
      if Nat.eqb n 0 then (0, None)
      else if v <? - 2 ^ 31 then (- 2 ^ 31, None)
      else if 2 ^ 31 <=? v then (2 ^ 31 - 1, None)
      else (v, Some rest)
  end.

Fixpoint read_word (s : list ascii) : list ascii * list ascii :=
  match s with
  | c :: s' =>
      if is_space c then ([], s)
      else let '(w, r) := read_word s' in (c :: w, r)
  | [] => ([], [])
  end.

(** [is >> op] for a [std::string op] that is empty. *)
Definition ext_string (ins : stream) : list ascii * stream :=
  match ins with
  | None => ([], None)
  | Some s =>
      match read_word (skip_ws s) with
      | ([], _) => ([], None)
      | (w, r) => (w, Some r)
      end
  end.

(** [std::getline] until the end of the file. *)
Fixpoint getlines (cur : list ascii) (s : list ascii) : list (list ascii) :=
  match s with
  | [] => match cur with [] => [] | _ => [reverse cur] end
  | c :: s' =>
      if bool_decide (c = "010"%char) then reverse cur :: getlines [] s'
      else getlines (c :: cur) s'
  end.

Definition str (l : list ascii) : string := String.string_of_list_ascii l.
Definition chars (s : string) : list ascii := String.list_ascii_of_string s.

Definition is_op (op : list ascii) (names : list string) : bool :=
  bool_decide (str op ∈ names).

(** ** [load_bristol] *)

(** What one line contributes: nothing, or a gate.  A wire number that a failed
    extraction leaves unset is never used: [op] is then empty and the line is
    rejected. *)
Definition parse_gate (line : list ascii) : outcome (option Gate) :=
  match line with
  | [] => Ok None
  | c :: _ =>
      if bool_decide (c = "#"%char) then Ok None
      else
        let '(nin_g, ss) := ext_int 0 (Some line) in
        let '(nout_g, ss) := ext_int 0 ss in
        match ss with
        | None => Ok None
        | Some _ =>
            if (nin_g =? 2) && (nout_g =? 1) then
              let '(a, ss) := ext_unsigned 32 0 ss in
              let '(b, ss) := ext_unsigned 32 0 ss in
              let '(o, ss) := ext_unsigned 32 0 ss in
              let '(op, _) := ext_string ss in
              if is_op op ["XOR"; "xor"]%string then Ok (Some (mkGate XOR a b o))
              else if is_op op ["AND"; "and"]%string then Ok (Some (mkGate AND a b o))
              else Throw ("unknown gate: " +:+ str op)
            else if (nin_g =? 1) && (nout_g =? 1) then
              let '(a, ss) := ext_unsigned 32 0 ss in
              let '(o, ss) := ext_unsigned 32 0 ss in
              let '(op, _) := ext_string ss in
              if is_op op ["INV"; "NOT"; "inv"; "not"]%string
              then Ok (Some (mkGate INV a a o))
              else Throw ("unknown unary gate: " +:+ str op)
            else Throw ("unsupported gate arity in: " +:+ str line)
        end
  end.

(** [c.gates.push_back(g)] and the gate counters. *)
Definition add_gate (c : Circuit) (g : Gate) : Circuit :=
  {| n_gates := n_gates c; n_wires := n_wires c; n_input0 := n_input0 c;
     n_input1 := n_input1 c; n_output := n_output c;
     n_and := (match type g with AND => u64 (n_and c + 1) | _ => n_and c end);
     n_xor := (match type g with AND => n_xor c | _ => u64 (n_xor c + 1) end);
     gates := gates c ++ [g];
     output_wires := output_wires c |}.

(** One iteration of the line loop. *)
Definition load_line (c : Circuit) (line : list ascii) : outcome Circuit :=
  g ← parse_gate line;
  match g with
  | None => Ok c
  | Some g => Ok (add_gate c g)
  end.

(** [load_bristol(path)]: [file] is the content of the file at [path], [None]
    when it cannot be opened.  Memory is unbounded. *)
Definition load_bristol (path : string) (file : option (list ascii)) : outcome Circuit :=
  match file with
  | None => Throw ("cannot open circuit: " +:+ path)
  | Some text =>
      let '(ng, ins) := ext_unsigned 64 0 (Some text) in
      let '(nw, ins) := ext_unsigned 64 0 ins in
      let '(nin, ins) := ext_unsigned 64 0 ins in
      let '(i0, ins) := ext_unsigned 64 0 ins in
      let '(i1, ins) := ext_unsigned 64 0 ins in
      if negb (nin =? 2) then Throw "expected 2 input bundles"
      else
        let '(nout, ins) := ext_unsigned 64 0 ins in
        let '(no, ins) := ext_unsigned 64 0 ins in
        if negb (nout =? 1) then Throw "expected 1 output bundle"
        else
          let lines := match ins with Some s => tail (getlines [] s) | None => [] end in
          c ← foldM load_line (mkCircuit ng nw i0 i1 no 0 0 [] []) lines;
          if negb (Z.of_nat (length (gates c)) =? n_gates c) then Throw "gate count mismatch"
          else
            let out_start := u64 (n_wires c - n_output c) in
            Ok {| n_gates := n_gates c; n_wires := n_wires c; n_input0 := n_input0 c;
                  n_input1 := n_input1 c; n_output := n_output c;
                  n_and := n_and c; n_xor := n_xor c; gates := gates c;
                  output_wires := (λ i, u32 (u64 (out_start + i))) <$> seqZ 0 (n_output c) |}
  end.

(** ** Plaintext evaluation *)
Definition eval_gate_plain (w : list Z) (g : Gate) : outcome (list Z) :=
  match type g with
  | XOR => a ← vget w (in0 g); b ← vget w (in1 g); vset w (gout g) (Z.lxor a b)
  | AND => a ← vget w (in0 g); b ← vget w (in1 g); vset w (gout g) (Z.land a b)
  | INV => a ← vget w (in0 g); vset w (gout g) (Z.lxor a 1)
  end.

(** [for (i < l.size()) w[i] = f(l[i])] *)
Definition copy_in {A B} (f : A → B) (w : list B) (l : list A) : outcome (list B) :=
  foldM (λ w '(i, x), vset w (Z.of_nat i) (f x)) w (zip (seq 0 (length l)) l).

Definition eval_circuit_plain (c : Circuit) (in_bits : list Z) : outcome (list Z) :=
  if negb (Z.of_nat (length in_bits) =? u64 (n_input0 c + n_input1 c))
  then Throw "plain eval: bad input size"
  else
    w ← copy_in (λ x, Z.land x 1) (replicate (Z.to_nat (n_wires c)) 0) in_bits;
    w ← foldM eval_gate_plain w (gates c);
    mapM_out (λ i, vget (output_wires c) i ≫= vget w) (seqZ 0 (n_output c)).

(** ** Well-formed circuits

    What the loader does not check: every wire a gate or the output list names
    exists, the inputs fit and no gate overwrites one. *)
Definition gate_wf (nw : Z) (g : Gate) : Prop :=
  0 ≤ in0 g < nw ∧ 0 ≤ in1 g < nw ∧ 0 ≤ gout g < nw.

Record circuit_wf (c : Circuit) : Prop := {
  wf_in0 : 0 ≤ n_input0 c;
  wf_in1 : 0 ≤ n_input1 c;
  wf_inputs : n_input0 c + n_input1 c ≤ n_wires c;
  wf_wires : n_wires c < 2 ^ 64;
  wf_gates : Forall (gate_wf (n_wires c)) (gates c);
  wf_outs : Forall (λ g, n_input0 c + n_input1 c ≤ gout g) (gates c);
  wf_size : Z.of_nat (length (gates c)) < 2 ^ 64;
  wf_output : length (output_wires c) = Z.to_nat (n_output c);
  wf_output_wires : Forall (λ i, 0 ≤ i < n_wires c) (output_wires c);
}.

#[export] Instance gate_wf_dec nw g : Decision (gate_wf nw g).
Proof. unfold gate_wf. apply _. Defined.

Definition circuit_wfb (c : Circuit) : bool :=
  (0 <=? n_input0 c) && (0 <=? n_input1 c) &&
  (n_input0 c + n_input1 c <=? n_wires c) && (n_wires c <? 2 ^ 64) &&
  forallb (λ g, bool_decide (gate_wf (n_wires c) g)) (gates c) &&
  forallb (λ g, n_input0 c + n_input1 c <=? gout g) (gates c) &&
  (Z.of_nat (length (gates c)) <? 2 ^ 64) &&
  Nat.eqb (length (output_wires c)) (Z.to_nat (n_output c)) &&
  forallb (λ i, (0 <=? i) && (i <? n_wires c)) (output_wires c).

Lemma circuit_wfb_sound c : circuit_wfb c = true → circuit_wf c.
Proof.
  unfold circuit_wfb. rewrite !andb_true_iff, !Z.leb_le, !Z.ltb_lt, Nat.eqb_eq, !forallb_forall.
  intros [[[[[[[[? ?] ?] ?] Hg] Hi] ?] ?] Ho]. constructor; try done.
  - apply Forall_forall. intros g Hin%list_elem_of_In. by apply (bool_decide_eq_true_1 _), Hg.
  - apply Forall_forall. intros g Hin%list_elem_of_In. apply Z.leb_le. by apply Hi.
  - apply Forall_forall. intros i Hin%list_elem_of_In.
    specialize (Ho i Hin). rewrite andb_true_iff, Z.leb_le, Z.ltb_lt in Ho. done.
Qed.

(** ** Loops over the inputs and the outputs *)
Lemma copy_in_spec {A B} (f : A → B) (l : list A) n d : (length l ≤ n)%nat →
  copy_in f (replicate n d) l = Ok ((f <$> l) ++ replicate (n - length l) d).
Proof.
  intros Hn. unfold copy_in.
  destruct (foldM_inv
    (λ i w, w = (f <$> take i l) ++ replicate (n - i) d)
    (λ w '(i, x), vset w (Z.of_nat i) (f x)) (zip (seq 0 (length l)) l) (replicate n d))
    as (w & -> & ->).
  - by rewrite Nat.sub_0_r.
  - intros i [j x] w Hx ->. apply lookup_zip_Some in Hx as [Hj Hx]. cbn in Hj, Hx.
    apply lookup_seq in Hj as [-> Hi].
    eexists. split; [|reflexivity]. replace (0 + i)%nat with (length (f <$> take i l))
      by (rewrite length_fmap, length_take; lia).
    replace (n - i)%nat with (S (n - S i)) by lia.
    rewrite vset_front. by rewrite (take_S_r _ _ _ Hx), fmap_app.
  - f_equal. f_equal; [|f_equal]; rewrite length_zip, length_seq, Nat.min_id; [|done].
    by rewrite firstn_all.
Qed.

(** Reading the outputs. *)
Lemma read_outputs {A} `{Inhabited A} c (w : list A) :
  circuit_wf c → Z.of_nat (length w) = n_wires c →
  mapM_out (λ i, vget (output_wires c) i ≫= vget w) (seqZ 0 (n_output c))
    = Ok ((λ o, w !!! Z.to_nat o) <$> output_wires c).
Proof.
  intros Hc Hw. rewrite (mapM_seqZ (output_wires c)) by apply Hc.
  apply mapM_out_Ok. intros o Ho. pose proof (wf_output_wires c Hc) as Hf.
  rewrite Forall_forall in Hf. specialize (Hf o Ho).
  apply vget_Ok; [lia|]. apply list_lookup_lookup_total_lt. lia.
Qed.
