(* ===== verification/GcMmo.v ===== *)
(** * Half-gate garbling with the fixed-key AES hash

    [mmo_hash], [tweak], [garble_circuit], [eval_circuit_labels],
    [decode_outputs], the bit order of the Bristol AES circuit and the Merkle
    root, of [voprf-bench/gc_mmo.hpp].  [GcProps], [Merkle] and
    [Bits] hold the theorems. *)

From S2P Require Import Prelude Xor Block Aes Circuit.

(** OpenSSL's SHA-256, and its output format. *)
Class Sha256 := sha256_bytes : list Z → list Z.
Class Sha256Laws `{Sha256} := {
  sha256_length l : length (sha256_bytes l) = 32%nat;
  sha256_u8 l : Forall is_u8 (sha256_bytes l);
}.

(** [FixedKeyAES]: its round keys.  The two builds agree
    ([Aes.aesni_portable_equivalence]); the model takes the portable one. *)
Abbreviation AES := (list Block).

Definition mmo_hash (aes : AES) (x : Block) : Block :=
  xor_block (Portable.encrypt aes x) x.

Definition xor_byte (i : nat) (v : Z) (x : Block) : Block :=
  <[i := Z.lxor (x !!! i) v]> x.

Definition tweak (x : Block) (gid : Z) (t : Z) : Block :=
  let y := x in
  let y := xor_byte 8 (u8 gid) y in
  let y := xor_byte 9 (u8 (Z.shiftr gid 8)) y in
  let y := xor_byte 10 (u8 (Z.shiftr gid 16)) y in
  let y := xor_byte 11 (u8 (Z.shiftr gid 24)) y in
  xor_byte 12 t y.

(** Wire 0 is the lowest bit of the block read as a big-endian number. *)
Definition bits128_to_block (bits : list Z) : Block :=
  let be_bits := (λ i : nat, Z.land (bits !!! (127 - i)%nat) 1) <$> seq 0 128 in
  foldl (λ (out : Block) (i : nat),
    if negb (be_bits !!! i =? 0)
    then <[(i / 8)%nat := Z.lor (out !!! (i / 8)%nat)
             (u8 (Z.shiftl 1 (7 - Z.of_nat (i mod 8))))]> out
    else out) zero_block (seq 0 128).

Definition block_to_bits128 (bl : Block) : list Z :=
  let be_bits := (λ i : nat,
    Z.land (Z.shiftr (bl !!! (i / 8)%nat) (7 - Z.of_nat (i mod 8))) 1) <$> seq 0 128 in
  (λ i : nat, be_bits !!! (127 - i)%nat) <$> seq 0 128.

Record AndGateTable := mkTable { T0 : Block; T1 : Block }.

Record HalfGateWitness := mkWit {
  wit_a0 : Block; wit_b0 : Block; wit_Tg : Block; wit_Te : Block;
  wit_Ha0 : Block; wit_Ha1 : Block; wit_Hb0 : Block; wit_Hb1 : Block;
  wit_pa : Z; wit_pb : Z;
}.

Record GarbleResult := mkGarble {
  gr_tables : list AndGateTable;
  gr_and_wit : list HalfGateWitness;
  gr_wire0 : list Block;
  gr_delta : Block;
  gr_aes_key : Block;
  gr_out_decode : list Z;
  gr_gc_hash : list Z;
  gr_R_root : list Z;
}.

(** ** The Merkle root of the label pairs *)
Section merkle.
Context `{Sha256}.

(** [buf[0..32) = level[i]; buf[32..64) = level[i + 1]] *)
Fixpoint hash_pairs (level : list (list Z)) : list (list Z) :=
  match level with
  | a :: b :: level => sha256_bytes (a ++ b) :: hash_pairs level
  | _ => []
  end.

(** One pass of the [while] loop. *)
Definition merkle_step (level : list (list Z)) : list (list Z) :=
  let level := if Nat.odd (length level)
               then match last level with Some x => level ++ [x] | None => level end
               else level in
  hash_pairs level.

(** [while (level.size() > 1)]; the fuel bounds the number of passes. *)
Fixpoint merkle_loop (fuel : nat) (level : list (list Z)) : option (list Z) :=
  match level with
  | [] => None
  | [x] => Some x
  | _ => match fuel with O => None | S fuel => merkle_loop fuel (merkle_step level) end
  end.

Definition merkle_root_pairs (pairs : list (Block * Block)) : option (list Z) :=
  match pairs with
  | [] => Some (sha256_bytes [])
  | _ => merkle_loop (length pairs) ((λ '(p0, p1), sha256_bytes (p0 ++ p1)) <$> pairs)
  end.
End merkle.

(** ** Garbling *)
Record GarbleState := mkGState {
  gs_wire0 : list Block;
  gs_tables : list AndGateTable;
  gs_wit : list HalfGateWitness;
  gs_and_id : Z;
}.

(** The half gates of one AND: the output zero label, the table, the witness. *)
Definition garble_and (aes : AES) (delta : Block) (and_id : Z) (a0 b0 : Block)
    : Block * AndGateTable * HalfGateWitness :=
  let a1 := xor_block a0 delta in
  let b1 := xor_block b0 delta in
  let pa := lsb a0 in
  let pb := lsb b0 in
  let Ha0 := mmo_hash aes (tweak a0 and_id 0) in
  let Ha1 := mmo_hash aes (tweak a1 and_id 0) in
  let Tg := xor_block Ha0 Ha1 in
  let Tg := if pb then xor_block Tg delta else Tg in
  let wg0 := Ha0 in
  let wg0 := if pa then xor_block wg0 Tg else wg0 in
  let Hb0 := mmo_hash aes (tweak b0 and_id 1) in
  let Hb1 := mmo_hash aes (tweak b1 and_id 1) in
  let Te := xor_block Hb0 Hb1 in
  let Te := xor_block Te a0 in
  let we0 := Hb0 in
  let we0 := if pb then xor_block we0 (xor_block Te a0) else we0 in
  let w0 := xor_block wg0 we0 in
  (w0, mkTable Tg Te, mkWit a0 b0 Tg Te Ha0 Ha1 Hb0 Hb1 (b2z pa) (b2z pb)).

Definition garble_gate (aes : AES) (delta : Block) (st : GarbleState) (g : Gate)
    : outcome GarbleState :=
  match type g with
  | XOR =>
      a ← vget (gs_wire0 st) (in0 g);
      b ← vget (gs_wire0 st) (in1 g);
      w ← vset (gs_wire0 st) (gout g) (xor_block a b);
      Ok (mkGState w (gs_tables st) (gs_wit st) (gs_and_id st))
  | INV =>
      a ← vget (gs_wire0 st) (in0 g);
      w ← vset (gs_wire0 st) (gout g) (xor_block a delta);
      Ok (mkGState w (gs_tables st) (gs_wit st) (gs_and_id st))
  | AND =>
      a0 ← vget (gs_wire0 st) (in0 g);
      b0 ← vget (gs_wire0 st) (in1 g);
      let '(w0, tab, wit) := garble_and aes delta (gs_and_id st) a0 b0 in
      w ← vset (gs_wire0 st) (gout g) w0;
      Ok (mkGState w (gs_tables st ++ [tab]) (gs_wit st ++ [wit]) (u64 (gs_and_id st + 1)))
  end.

(** The zero label of one input wire: random, with its lowest bit cleared. *)
Definition fresh_input_label {G} `{RandGen G} (delta : Block) (g : G) : Block * G :=
  let '(b, g) := random_block g in
  (if lsb b then xor_block b delta else b, g).

Definition input_step {G} `{RandGen G} (delta : Block) (st : list Block * G) (i : Z)
    : outcome (list Block * G) :=
  let '(w, g) := st in
  let '(b, g) := fresh_input_label delta g in
  w ← vset w i b;
  Ok (w, g).

Definition table_bytes (t : AndGateTable) : list Z := T0 t ++ T1 t.

Section garble.
Context {G : Type} `{RandGen G} `{Sha256}.

Definition garble_circuit (c : Circuit) (mmo_key : Block) (aes : AES) (rng : G)
    : outcome (GarbleResult * G) :=
  let '(delta, rng) := make_delta rng in
  let wire0 := replicate (Z.to_nat (n_wires c)) zero_block in
  '(wire0, rng) ← foldM (input_step delta) (wire0, rng)
                    (seqZ 0 (u64 (n_input0 c + n_input1 c)));
  st ← foldM (garble_gate aes delta) (mkGState wire0 [] [] 0) (gates c);
  out_decode ← mapM_out (λ i,
      o ← vget (output_wires c) i; w ← vget (gs_wire0 st) o; Ok (b2z (lsb w)))
    (seqZ 0 (n_output c));
  let gc_hash := sha256_bytes (concat (table_bytes <$> gs_tables st)) in
  pairs ← mapM_out (λ i,
      z ← vget (gs_wire0 st) (u64 (n_input0 c + i)); Ok (z, xor_block z delta))
    (seqZ 0 (n_input1 c));
  match merkle_root_pairs pairs with
  | None => UB
  | Some R_root =>
      Ok (mkGarble (gs_tables st) (gs_wit st) (gs_wire0 st) delta mmo_key out_decode
            gc_hash R_root, rng)
  end.
End garble.

Definition label_for_bit (wire0 delta : Block) (bit : Z) : Block :=
  if negb (bit =? 0) then xor_block wire0 delta else wire0.

(** ** Evaluation *)
Definition eval_and (aes : AES) (and_id : Z) (T : AndGateTable) (wa wb : Block) : Block :=
  let sa := lsb wa in
  let sb := lsb wb in
  let Hg := mmo_hash aes (tweak wa and_id 0) in
  let wg := Hg in
  let wg := if sa then xor_block wg (T0 T) else wg in
  let He := mmo_hash aes (tweak wb and_id 1) in
  let we := He in
  let we := if sb then xor_block we (xor_block (T1 T) wa) else we in
  xor_block wg we.

Definition eval_gate_labels (aes : AES) (tables : list AndGateTable)
    (st : list Block * Z) (g : Gate) : outcome (list Block * Z) :=
  let '(w, and_id) := st in
  match type g with
  | XOR =>
      a ← vget w (in0 g);
      b ← vget w (in1 g);
      w ← vset w (gout g) (xor_block a b);
      Ok (w, and_id)
  | INV =>
      a ← vget w (in0 g);
      w ← vset w (gout g) a;
      Ok (w, and_id)
  | AND =>
      T ← vget tables and_id;
      wa ← vget w (in0 g);
      wb ← vget w (in1 g);
      w ← vset w (gout g) (eval_and aes and_id T wa wb);
      Ok (w, u64 (and_id + 1))
  end.

Definition eval_circuit_labels (c : Circuit) (aes : AES) (gr : GarbleResult)
    (input_labels : list Block) : outcome (list Block) :=
  if negb (Z.of_nat (length input_labels) =? u64 (n_input0 c + n_input1 c))
  then Throw "eval: bad input label count"
  else
    w ← copy_in id (replicate (Z.to_nat (n_wires c)) zero_block) input_labels;
    '(w, _) ← foldM (eval_gate_labels aes (gr_tables gr)) (w, 0) (gates c);
    mapM_out (λ i, vget (output_wires c) i ≫= vget w) (seqZ 0 (n_output c)).

Definition decode_outputs (gr : GarbleResult) (out_labels : list Block) : outcome (list Z) :=
  mapM_out (λ '(i, l), d ← vget (gr_out_decode gr) (Z.of_nat i); Ok (Z.lxor (b2z (lsb l)) d))
    (zip (seq 0 (length out_labels)) out_labels).

(** [sizeof(AndGateTable)] is 32. *)
Definition tables_bytes (gr : GarbleResult) : Z :=
  u64 (Z.of_nat (length (gr_tables gr)) * 32).

(** ** Well-formedness *)
Lemma xor_byte_wf i v x : block_wf x → is_u8 v → (i < 16)%nat → block_wf (xor_byte i v x).
Proof.
  intros Hx Hv Hi. pose proof (block_byte x i Hx Hi). destruct Hx as [Hl Hf].
  unfold xor_byte.
  split; [by rewrite length_insert|]. apply Forall_insert; auto with word.
Qed.

Lemma tweak_wf x gid t : block_wf x → is_u8 t → block_wf (tweak x gid t).
Proof. intros. unfold tweak. repeat apply xor_byte_wf; auto using is_u8_u8; lia. Qed.

Lemma mmo_hash_wf aes x : schedule_wf aes → block_wf x → block_wf (mmo_hash aes x).
Proof. intros. apply xor_block_wf; [by apply encrypt_wf|done]. Qed.

Lemma tweak_hash_wf aes x gid (b : bool) : schedule_wf aes → block_wf x →
  block_wf (mmo_hash aes (tweak x gid (b2z b))).
Proof. intros. apply mmo_hash_wf; [done|]. apply tweak_wf; [done|]. by destruct b. Qed.

Lemma label_for_bit_label w0 delta b : label_for_bit w0 delta (b2z b) = label w0 delta b.
Proof. by destruct b. Qed.

(** ** The garbled circuit simulates the plaintext one *)

(** The labels that carry the values [vals]. *)
Definition active (delta : Block) (w0 : list Block) (vals : list bool) : list Block :=
  zip_with (λ w b, label w delta b) w0 vals.

Lemma active_lookup delta w0 vals i w b :
  w0 !! i = Some w → vals !! i = Some b → active delta w0 vals !! i = Some (label w delta b).
Proof. intros Hw Hb. unfold active. by rewrite lookup_zip_with, Hw, Hb. Qed.

Lemma active_insert delta w0 vals i w b :
  <[i := label w delta b]> (active delta w0 vals)
    = active delta (<[i := w]> w0) (<[i := b]> vals).
Proof. apply (insert_zip_with (λ w b, label w delta b)). Qed.

Lemma active_length delta w0 vals : length w0 = length vals →
  length (active delta w0 vals) = length w0.
Proof. intros. unfold active. rewrite length_zip_with. lia. Qed.

(** The state of the garbler after some gates. *)
Record garble_inv (nw : Z) (st : GarbleState) (vals : list bool) : Prop := {
  inv_wires : Z.of_nat (length (gs_wire0 st)) = nw;
  inv_vals : length vals = length (gs_wire0 st);
  inv_blocks : Forall block_wf (gs_wire0 st);
  inv_and_id : gs_and_id st = Z.of_nat (length (gs_tables st));
}.

Lemma inv_wire nw st vals i : garble_inv nw st vals → 0 ≤ i < nw →
  ∃ w b, gs_wire0 st !! Z.to_nat i = Some w ∧ vals !! Z.to_nat i = Some b ∧ block_wf w ∧
         vget (gs_wire0 st) i = Ok w ∧ vget (b2z <$> vals) i = Ok (b2z b) ∧
         ∀ delta, vget (active delta (gs_wire0 st) vals) i = Ok (label w delta b).
Proof.
  intros [Hw Hv Hb _] Hi.
  destruct (lookup_in_range (gs_wire0 st) i) as [w Ew]; [lia|].
  destruct (lookup_in_range vals i) as [b Eb]; [lia|].
  exists w, b. split_and!; try done.
  - by eapply Forall_lookup_1.
  - apply vget_Ok; [lia|done].
  - apply vget_Ok; [lia|]. by rewrite list_lookup_fmap, Eb.
  - intros delta. apply vget_Ok; [lia|]. by apply active_lookup.
Qed.

Lemma inv_set nw st vals o w b tabs wit : garble_inv nw st vals → 0 ≤ o < nw → block_wf w →
  let st' := mkGState (<[Z.to_nat o := w]> (gs_wire0 st)) tabs wit (Z.of_nat (length tabs)) in
  let vals' := <[Z.to_nat o := b]> vals in
  garble_inv nw st' vals' ∧
  vset (gs_wire0 st) o w = Ok (gs_wire0 st') ∧
  vset (b2z <$> vals) o (b2z b) = Ok (b2z <$> vals') ∧
  ∀ delta, vset (active delta (gs_wire0 st) vals) o (label w delta b)
             = Ok (active delta (gs_wire0 st') vals').
Proof.
  intros [Hw Hv Hb _] Ho Hwf. cbn [gs_wire0 gs_tables gs_wit gs_and_id]. split_and!.
  - constructor; cbn [gs_wire0 gs_tables gs_wit gs_and_id]; rewrite ?length_insert; try done. by apply Forall_insert.
  - apply vset_Ok. lia.
  - rewrite vset_Ok by (rewrite length_fmap; lia). by rewrite list_fmap_insert.
  - intros delta. rewrite vset_Ok by (rewrite active_length; lia). by rewrite active_insert.
Qed.

(** One gate: the garbler, the evaluator and the plaintext step together. *)
Definition gate_simulated (nw : Z) (aes : AES) (delta : Block) (st : GarbleState)
    (vals : list bool) (g : Gate) (st' : GarbleState) (vals' : list bool) : Prop :=
  garble_gate aes delta st g = Ok st' ∧
  garble_inv nw st' vals' ∧
  eval_gate_plain (b2z <$> vals) g = Ok (b2z <$> vals') ∧
  gs_tables st `prefix_of` gs_tables st' ∧
  (length (gs_tables st') ≤ S (length (gs_tables st)))%nat ∧
  ∀ T, gs_tables st' `prefix_of` T →
    eval_gate_labels aes T (active delta (gs_wire0 st) vals, gs_and_id st) g
      = Ok (active delta (gs_wire0 st') vals', gs_and_id st').

Section simulation.
#[local] Opaque mmo_hash tweak.
Context (nw : Z) (aes : AES) (delta : Block).
Context (Haes : schedule_wf aes) (Hd : block_wf delta) (Hsig : lsb delta = true).

(** The garbled AND against the half-gate specification. *)
Lemma and_correct id wa wb a b : block_wf wa → block_wf wb →
  ∃ w0 tab wit, garble_and aes delta id wa wb = (w0, tab, wit) ∧ block_wf w0 ∧
    eval_and aes id tab (label wa delta a) (label wb delta b) = label w0 delta (a && b).
Proof.
  intros Ha Hb.
  pose (hg x := mmo_hash aes (tweak x id 0)). pose (he x := mmo_hash aes (tweak x id 1)).
  assert (∀ x, block_wf x → block_wf (hg x)) as Hg
    by (intros x Hx; exact (tweak_hash_wf aes x id false Haes Hx)).
  assert (∀ x, block_wf x → block_wf (he x)) as He
    by (intros x Hx; exact (tweak_hash_wf aes x id true Haes Hx)).
  pose proof (half_garble_wf delta wa wb (hg wa) (hg (xor_block wa delta)) (he wb)
              (he (xor_block wb delta)) Hd Ha Hb (Hg _ Ha) (Hg _ (xor_block_wf _ _ Ha Hd))
              (He _ Hb) (He _ (xor_block_wf _ _ Hb Hd))) as (_ & _ & Hw0).
  pose proof (half_and delta wa wb hg he a b Hd Ha Hb Hsig Hg He) as Hcorr.
  unfold garble_and, eval_and.
  eexists _, _, _. split; [reflexivity|]. split; [exact Hw0|exact Hcorr].
Qed.

Lemma xor_gate_sim st vals g : gate_wf nw g → garble_inv nw st vals → type g = XOR →
  ∃ st' vals', gate_simulated nw aes delta st vals g st' vals'.
Proof.
  intros (H0 & H1 & Ho) Hst Ht. pose proof (inv_and_id _ _ _ Hst) as Hid.
  destruct (inv_wire _ _ _ _ Hst H0) as (wa & a & _ & _ & Ha & Ga & Pa & La).
  destruct (inv_wire _ _ _ _ Hst H1) as (wb & b & _ & _ & Hb & Gb & Pb & Lb).
  destruct (inv_set _ _ _ (gout g) (xor_block wa wb) (xorb a b) (gs_tables st) (gs_wit st)
              Hst Ho (xor_block_wf _ _ Ha Hb)) as (Hinv & Sg & Sp & Sl).
  eexists _, _. split_and!; [|exact Hinv|..].
  - unfold garble_gate. rewrite Ht, Ga, bind_ok, Gb, bind_ok, Sg, bind_ok, Hid. done.
  - unfold eval_gate_plain. rewrite Ht, Pa, bind_ok, Pb, bind_ok, lxor_b2z. apply Sp.
  - done.
  - cbn. lia.
  - intros T _. unfold eval_gate_labels. rewrite Ht, La, bind_ok, Lb, bind_ok.
    pose proof (label_xor wa wb delta a b Ha Hb Hd) as E.
    change xor_block with (@xor Block _). rewrite E. change (@xor Block _) with xor_block.
    rewrite Sl, bind_ok, Hid. done.
Qed.

Lemma inv_gate_sim st vals g : gate_wf nw g → garble_inv nw st vals → type g = INV →
  ∃ st' vals', gate_simulated nw aes delta st vals g st' vals'.
Proof.
  intros (H0 & _ & Ho) Hst Ht. pose proof (inv_and_id _ _ _ Hst) as Hid.
  destruct (inv_wire _ _ _ _ Hst H0) as (wa & a & _ & _ & Ha & Ga & Pa & La).
  destruct (inv_set _ _ _ (gout g) (xor_block wa delta) (negb a) (gs_tables st) (gs_wit st)
              Hst Ho (xor_block_wf _ _ Ha Hd)) as (Hinv & Sg & Sp & Sl).
  eexists _, _. split_and!; [|exact Hinv|..].
  - unfold garble_gate. rewrite Ht, Ga, bind_ok, Sg, bind_ok, Hid. done.
  - unfold eval_gate_plain. rewrite Ht, Pa, bind_ok.
    replace (Z.lxor (b2z a) 1) with (b2z (negb a)) by by destruct a. apply Sp.
  - done.
  - cbn. lia.
  - intros T _. unfold eval_gate_labels. rewrite Ht, La, bind_ok.
    pose proof (label_flip wa delta a Ha Hd) as E. rewrite <-E.
    change (@xor Block _) with xor_block. rewrite Sl, bind_ok, Hid. done.
Qed.

Lemma and_gate_sim st vals g : gate_wf nw g → garble_inv nw st vals → type g = AND →
  Z.of_nat (length (gs_tables st)) + 1 < 2 ^ 64 →
  ∃ st' vals', gate_simulated nw aes delta st vals g st' vals'.
Proof.
  intros (H0 & H1 & Ho) Hst Ht Hb64. pose proof (inv_and_id _ _ _ Hst) as Hid.
  destruct (inv_wire _ _ _ _ Hst H0) as (wa & a & _ & _ & Ha & Ga & Pa & La).
  destruct (inv_wire _ _ _ _ Hst H1) as (wb & b & _ & _ & Hb & Gb & Pb & Lb).
  set (id := gs_and_id st) in *.
  destruct (and_correct id wa wb a b Ha Hb) as (w0 & tab & wit & Eg & Hw0 & Ev).
  destruct (inv_set _ _ _ (gout g) w0 (a && b) (gs_tables st ++ [tab]) (gs_wit st ++ [wit])
              Hst Ho Hw0) as (Hinv & Sg & Sp & Sl).
  assert (u64 (id + 1) = Z.of_nat (length (gs_tables st ++ [tab]))) as Hid'.
  { rewrite length_app, Hid. cbn. unfold u64. rewrite Z.mod_small; lia. }
  eexists _, _. split_and!; [|exact Hinv|..].
  - unfold garble_gate. rewrite Ht, Ga, bind_ok, Gb, bind_ok. fold id.
    rewrite Eg, Sg, bind_ok, Hid'. done.
  - unfold eval_gate_plain. rewrite Ht, Pa, bind_ok, Pb, bind_ok, land_b2z. apply Sp.
  - cbn. by apply prefix_app_r.
  - cbn. rewrite length_app. cbn. lia.
  - intros T [suf ->]. unfold eval_gate_labels. rewrite Ht. fold id. cbn [gs_tables].
    rewrite (vget_Ok _ id tab); [|lia|].
    2: { rewrite Hid, Nat2Z.id, <-app_assoc. by apply list_lookup_middle. }
    rewrite bind_ok, La, bind_ok, Lb, bind_ok, Ev, Sl, bind_ok, Hid'. done.
Qed.

Lemma gate_sim st vals g : gate_wf nw g → garble_inv nw st vals →
  Z.of_nat (length (gs_tables st)) + 1 < 2 ^ 64 →
  ∃ st' vals', gate_simulated nw aes delta st vals g st' vals'.
Proof.
  destruct (type g) eqn:E; eauto using xor_gate_sim, and_gate_sim, inv_gate_sim.
Qed.

(** The gate loops of the three functions. *)
Lemma gates_sim gs st vals : Forall (gate_wf nw) gs → garble_inv nw st vals →
  Z.of_nat (length (gs_tables st)) + Z.of_nat (length gs) < 2 ^ 64 →
  ∃ st' vals',
    foldM (garble_gate aes delta) st gs = Ok st' ∧
    garble_inv nw st' vals' ∧
    foldM eval_gate_plain (b2z <$> vals) gs = Ok (b2z <$> vals') ∧
    gs_tables st `prefix_of` gs_tables st' ∧
    ∀ T, gs_tables st' `prefix_of` T →
      foldM (eval_gate_labels aes T) (active delta (gs_wire0 st) vals, gs_and_id st) gs
        = Ok (active delta (gs_wire0 st') vals', gs_and_id st').
Proof.
  intros Hgs. revert st vals. induction Hgs as [|g gs Hg Hgs IH]; intros st vals Hst Hlen.
  - exists st, vals. by split_and!.
  - cbn [length] in Hlen.
    destruct (gate_sim st vals g Hg Hst) as (st1 & v1 & Eg & Hi & Ep & Hp & Hl & El); [lia|].
    destruct (IH st1 v1 Hi) as (st2 & v2 & Eg2 & Hi2 & Ep2 & Hp2 & El2); [lia|].
    exists st2, v2. cbn [foldM]. rewrite Eg, Ep, !bind_ok. split_and!; try done.
    + by etrans.
    + intros T HT. rewrite El by by etrans. rewrite bind_ok. by apply El2.
Qed.
End simulation.

(** ** The labels of the input wires *)

(** The generator after [n] input labels, and the labels. *)
Fixpoint fresh_labels {G} `{RandGen G} (delta : Block) (n : nat) (g : G) : list Block * G :=
  match n with
  | O => ([], g)
  | S n =>
      let '(l, g) := fresh_labels delta n g in
      let '(b, g) := fresh_input_label delta g in
      (l ++ [b], g)
  end.

Lemma fresh_input_label_wf {G} `{RandGen G} delta (g : G) :
  block_wf delta → lsb delta = true →
  block_wf (fresh_input_label delta g).1 ∧ lsb (fresh_input_label delta g).1 = false.
Proof.
  intros Hd Hs. unfold fresh_input_label. pose proof (random_block_wf g) as Hb.
  destruct (random_block g) as [b g']; cbn [fst] in *.
  destruct (lsb b) eqn:E; [|done]. split; [by apply xor_block_wf|].
  pose proof (xsig_xor (L := Block) b delta Hb Hd) as Hx.
  change (lsb (xor_block b delta) = xorb (lsb b) (lsb delta)) in Hx. by rewrite Hx, E, Hs.
Qed.

Lemma fresh_labels_wf {G} `{RandGen G} delta n (g : G) :
  block_wf delta → lsb delta = true →
  length (fresh_labels delta n g).1 = n ∧
  Forall (λ b, block_wf b ∧ lsb b = false) (fresh_labels delta n g).1.
Proof.
  intros Hd Hs. induction n as [|n [IHl IHf]]; [done|]. cbn [fresh_labels].
  destruct (fresh_labels delta n g) as [l g1]; cbn [fst] in *.
  pose proof (fresh_input_label_wf delta g1 Hd Hs).
  destruct (fresh_input_label delta g1) as [b g2]; cbn [fst] in *.
  rewrite length_app, IHl. split; [cbn; lia|]. apply Forall_app. split; [done|].
  by apply Forall_singleton.
Qed.

Lemma input_loop {G} `{RandGen G} delta nw (n : nat) (g : G) : (n ≤ nw)%nat →
  block_wf delta → lsb delta = true →
  foldM (input_step delta) (replicate nw zero_block, g) (seqZ 0 (Z.of_nat n))
    = Ok ((fresh_labels delta n g).1 ++ replicate (nw - n) zero_block,
          (fresh_labels delta n g).2).
Proof.
  intros Hn Hd Hs. induction n as [|n IH].
  - cbn [fresh_labels fst snd]. by rewrite Nat.sub_0_r.
  - rewrite seqZ_S, foldM_app, IH, bind_ok by lia. cbn [foldM fresh_labels].
    pose proof (fresh_labels_wf delta n g Hd Hs) as [Hl _].
    destruct (fresh_labels delta n g) as [l g1]; cbn [fst snd] in *. unfold input_step.
    destruct (fresh_input_label delta g1) as [b g2]; cbn [fst snd].
    replace (nw - n)%nat with (S (nw - S n)) by lia.
    rewrite Z.add_0_l, <-Hl, vset_front, Hl. done.
Qed.

(** The gates leave every wire they do not drive alone. *)
Lemma garble_gate_frame aes delta st g st' (i : nat) :
  garble_gate aes delta st g = Ok st' → Z.to_nat (gout g) ≠ i →
  gs_wire0 st' !! i = gs_wire0 st !! i.
Proof.
  assert (∀ (w w' : list Block) o x, vset w o x = Ok w' → Z.to_nat o ≠ i → w' !! i = w !! i)
    as Hset.
  { intros w w' o x. unfold vset. destruct (o <? 0); [done|]. destruct (Z.of_nat (length w) <=? o); [done|]. intros [= <-] Hne.
    by rewrite list_lookup_insert_ne. }
  intros H Hne. unfold garble_gate in H. destruct (type g).
  - bind_inv H. bind_inv H. bind_inv H. injection H as <-. eauto.
  - bind_inv H. bind_inv H. destruct (garble_and _ _ _ _ _) as [[w0 tab] wit].
    bind_inv H. injection H as <-. eauto.
  - bind_inv H. bind_inv H. injection H as <-. eauto.
Qed.

Lemma garble_gates_frame aes delta gs st st' (i : nat) :
  foldM (garble_gate aes delta) st gs = Ok st' →
  Forall (λ g, Z.to_nat (gout g) ≠ i) gs → gs_wire0 st' !! i = gs_wire0 st !! i.
Proof.
  intros H Hf. revert st H. induction Hf as [|g gs Hg Hf IH]; intros st H; cbn in H.
  - by injection H as <-.
  - bind_inv H. rewrite (IH _ H). by eapply garble_gate_frame.
Qed.

(** Reads of the garbler's wires. *)
Lemma output_wire_get c (w : list Block) o : circuit_wf c → Z.of_nat (length w) = n_wires c →
  o ∈ output_wires c → vget w o = Ok (w !!! Z.to_nat o).
Proof.
  intros Hc Hw Ho. pose proof (wf_output_wires c Hc) as Hf. rewrite Forall_forall in Hf.
  specialize (Hf o Ho). apply vget_Ok; [lia|]. apply list_lookup_lookup_total_lt. lia.
Qed.

Lemma input1_wire_get c (w : list Block) i : circuit_wf c → Z.of_nat (length w) = n_wires c →
  i ∈ seqZ 0 (n_input1 c) →
  vget w (u64 (n_input0 c + i)) = Ok (w !!! Z.to_nat (n_input0 c + i)).
Proof.
  intros [] Hw Hi%elem_of_seqZ. unfold u64. rewrite Z.mod_small by lia.
  apply vget_Ok; [lia|]. apply list_lookup_lookup_total_lt. lia.
Qed.

(** ** The Merkle loop ends with a root *)
Lemma hash_pairs_length `{Sha256} l : length (hash_pairs l) = (length l / 2)%nat.
Proof.
  assert (∀ n l, (length l ≤ n)%nat → length (hash_pairs l) = (length l / 2)%nat) as Hn; [|eauto].
  clear l. induction n as [|n IH]; intros [|a [|b l]] Hl; cbn in Hl; try done; try lia.
  cbn [hash_pairs length]. rewrite IH by lia.
  replace (S (S (length l))) with (length l + 1 * 2)%nat by lia. rewrite Nat.div_add; lia.
Qed.

Lemma merkle_step_length `{Sha256} l : l ≠ [] →
  length (merkle_step l) = ((length l + 1) / 2)%nat.
Proof.
  intros Hl. unfold merkle_step. rewrite hash_pairs_length.
  destruct (Nat.odd (length l)) eqn:E.
  - destruct (last l) as [x|] eqn:El; [by rewrite length_app|].
    by apply last_None in El.
  - rewrite <-Nat.negb_even in E. apply negb_false_iff, Nat.even_spec in E as [k Hk]. rewrite Hk.
    rewrite (Nat.mul_comm 2 k), Nat.div_mul, Nat.div_add_l by lia. cbn. lia.
Qed.

Lemma merkle_loop_total `{Sha256} fuel l : l ≠ [] → (length l ≤ fuel)%nat →
  is_Some (merkle_loop fuel l).
Proof.
  revert l. induction fuel as [|fuel IH]; intros [|a [|b l]] Hl Hf; cbn in Hf; try done; try lia.
  cbn [merkle_loop]. pose proof (merkle_step_length (a :: b :: l) Hl) as Hs. cbn [length] in Hs.
  pose proof (Nat.div_mod_eq (S (S (length l)) + 1) 2).
  pose proof (Nat.mod_upper_bound (S (S (length l)) + 1) 2).
  apply IH; [|lia]. intros E. rewrite E in Hs. cbn [length] in Hs. lia.
Qed.

Lemma merkle_root_total `{Sha256} pairs : is_Some (merkle_root_pairs pairs).
Proof.
  unfold merkle_root_pairs. destruct pairs as [|p pairs]; [done|].
  apply merkle_loop_total; [done|]. by rewrite length_fmap.
Qed.

(** ** The garbled circuit *)
Section garbled.
Context {G : Type} `{RandGen G} `{Sha256}.

(** What garbling yields, in terms of the wire labels. *)
Record garbled (c : Circuit) (aes : AES) (gr : GarbleResult) : Prop := {
  gd_delta : block_wf (gr_delta gr) ∧ lsb (gr_delta gr) = true;
  gd_blocks : Forall block_wf (gr_wire0 gr);
  gd_wires : Z.of_nat (length (gr_wire0 gr)) = n_wires c;
  gd_clear : ∀ i b, gr_wire0 gr !! i = Some b →
    (i < Z.to_nat (n_input0 c + n_input1 c))%nat → lsb b = false;
  gd_decode : gr_out_decode gr = (λ o, b2z (lsb (gr_wire0 gr !!! Z.to_nat o))) <$> output_wires c;
  gd_eval : ∀ bits, Z.of_nat (length bits) = n_input0 c + n_input1 c →
    ∃ vals, length vals = length (gr_wire0 gr) ∧
      eval_circuit_plain c (b2z <$> bits)
        = Ok ((λ o, b2z (vals !!! Z.to_nat o)) <$> output_wires c) ∧
      eval_circuit_labels c aes gr (active (gr_delta gr) (gr_wire0 gr) bits)
        = Ok ((λ o, active (gr_delta gr) (gr_wire0 gr) vals !!! Z.to_nat o) <$> output_wires c);
}.

(** The wires at the start of the gate loops: inputs, then zero blocks. *)
Lemma active_start delta ins bits m : length ins = length bits →
  active delta ins bits ++ replicate m zero_block
    = active delta (ins ++ replicate m zero_block) (bits ++ replicate m false).
Proof.
  intros Hl. unfold active. rewrite zip_with_app by done.
  by rewrite (zip_with_replicate (λ w b, label w delta b)).
Qed.

Lemma garble_inputs c : circuit_wf c →
  u64 (n_input0 c + n_input1 c) = n_input0 c + n_input1 c ∧
  0 ≤ n_input0 c + n_input1 c ≤ n_wires c.
Proof. intros [Hin0 Hin1 Hi Hw _ _ _ _ _]. unfold u64. rewrite Z.mod_small; lia. Qed.

(** The inputs keep their labels through the gate loop. *)
Lemma inputs_kept c aes delta ins m st : circuit_wf c →
  Z.of_nat (length ins) = n_input0 c + n_input1 c →
  foldM (garble_gate aes delta)
    (mkGState (ins ++ replicate m zero_block) [] [] 0) (gates c) = Ok st →
  take (length ins) (gs_wire0 st) = ins.
Proof.
  intros Hc Hl E. pose proof (wf_outs c Hc) as Ho.
  assert (∀ i, (i < length ins)%nat → gs_wire0 st !! i = ins !! i) as Hk.
  { intros i Hi. rewrite (garble_gates_frame _ _ _ _ _ i E).
    - cbn [gs_wire0]. by rewrite lookup_app_l by lia.
    - eapply Forall_impl; [done|]. cbn. lia. }
  apply list_eq. intros i. destruct (decide (i < length ins)%nat) as [Hi|Hi].
  - by rewrite lookup_take_lt, Hk by done.
  - rewrite lookup_take_ge by lia. symmetry. apply lookup_ge_None. lia.
Qed.

Lemma active_prefix delta w0 bits :
  active delta w0 bits = active delta (take (length bits) w0) bits.
Proof. unfold active. by rewrite zip_with_take_l. Qed.

(** The state of the wires when the gate loops start. *)
Definition start_wires (c : Circuit) (ins : list Block) : list Block :=
  ins ++ replicate (Z.to_nat (n_wires c) - length ins) zero_block.
Definition start_vals (c : Circuit) (bits : list bool) : list bool :=
  bits ++ replicate (Z.to_nat (n_wires c) - length bits) false.

Lemma start_inv c ins bits : Forall block_wf ins → length bits = length ins →
  Z.of_nat (length ins) ≤ n_wires c →
  garble_inv (n_wires c) (mkGState (start_wires c ins) [] [] 0) (start_vals c bits).
Proof.
  intros Hwf Hb Hn. unfold start_wires, start_vals.
  constructor; cbn [gs_wire0 gs_tables gs_and_id];
    rewrite ?length_app, ?length_replicate; [lia|lia| |done].
  apply Forall_app. split; [done|]. apply Forall_replicate, zero_block_wf.
Qed.

(** The three gate loops of a run, from any input bits. *)
Lemma gate_loops c aes delta ins bits : circuit_wf c → schedule_wf aes →
  block_wf delta → lsb delta = true → Forall block_wf ins → length bits = length ins →
  Z.of_nat (length ins) ≤ n_wires c →
  ∃ st vals,
    foldM (garble_gate aes delta) (mkGState (start_wires c ins) [] [] 0) (gates c) = Ok st ∧
    garble_inv (n_wires c) st vals ∧
    foldM eval_gate_plain (b2z <$> start_vals c bits) (gates c) = Ok (b2z <$> vals) ∧
    foldM (eval_gate_labels aes (gs_tables st))
      (active delta (start_wires c ins) (start_vals c bits), 0) (gates c)
      = Ok (active delta (gs_wire0 st) vals, gs_and_id st).
Proof.
  intros Hc Haes Hd Hs Hwf Hb Hn. pose proof (wf_size c Hc).
  destruct (gates_sim (n_wires c) aes delta Haes Hd Hs (gates c) _ _ (wf_gates c Hc)
              (start_inv c ins bits Hwf Hb Hn)) as (st & vals & E1 & E2 & E3 & _ & E4);
    [cbn; lia|].
  exists st, vals. split_and!; try done. by apply E4.
Qed.

Lemma land_b2z_1 (bits : list bool) : (λ x, Z.land x 1) <$> (b2z <$> bits) = b2z <$> bits.
Proof. rewrite <-list_fmap_compose. apply list_fmap_ext. intros i [] _; done. Qed.

(** The plaintext evaluation, from its gate loop. *)
Lemma eval_plain_loop c bits vals : circuit_wf c →
  Z.of_nat (length bits) = n_input0 c + n_input1 c → Z.of_nat (length vals) = n_wires c →
  foldM eval_gate_plain (b2z <$> start_vals c bits) (gates c) = Ok (b2z <$> vals) →
  eval_circuit_plain c (b2z <$> bits)
    = Ok ((λ o, b2z (vals !!! Z.to_nat o)) <$> output_wires c).
Proof.
  intros Hc Hb Hv Ep. destruct (garble_inputs c Hc) as (Hu & Hw0 & Hw).
  unfold eval_circuit_plain. rewrite length_fmap, Hu, Hb, Z.eqb_refl. cbn [negb].
  rewrite copy_in_spec, bind_ok by (rewrite length_fmap; lia).
  rewrite length_fmap, land_b2z_1.
  unfold start_vals in Ep. rewrite fmap_app, fmap_replicate in Ep.
  change (b2z false) with 0 in Ep. rewrite Ep, bind_ok.
  rewrite read_outputs by (done || rewrite length_fmap; lia).
  f_equal. apply list_fmap_ext. intros i o Ho.
  pose proof (Forall_lookup_1 _ _ _ _ (wf_output_wires c Hc) Ho) as Hr. cbn in Hr.
  by rewrite (list_lookup_total_fmap b2z vals) by lia.
Qed.

(** The evaluation of the garbled circuit, from its gate loop. *)
Lemma eval_labels_loop c aes delta gr ins bits w0 vals n : circuit_wf c →
  Z.of_nat (length bits) = n_input0 c + n_input1 c → length bits = length ins →
  length vals = length w0 → Z.of_nat (length w0) = n_wires c →
  foldM (eval_gate_labels aes (gr_tables gr))
    (active delta (start_wires c ins) (start_vals c bits), 0) (gates c)
    = Ok (active delta w0 vals, n) →
  eval_circuit_labels c aes gr (active delta ins bits)
    = Ok ((λ o, active delta w0 vals !!! Z.to_nat o) <$> output_wires c).
Proof.
  intros Hc Hb Hi Hv Hw El. destruct (garble_inputs c Hc) as (Hu & Hw0 & Hw1).
  unfold eval_circuit_labels. rewrite active_length by done.
  rewrite <-Hi, Hu, Hb, Z.eqb_refl. cbn [negb].
  rewrite copy_in_spec, bind_ok by (rewrite active_length; lia).
  rewrite list_fmap_id, active_length by done.
  unfold start_wires, start_vals in El. rewrite Hi in El.
  rewrite active_start, El, bind_ok by done.
  apply read_outputs; [done|]. rewrite active_length; lia.
Qed.

Lemma garble_circuit_garbled c mmo_key aes rng : circuit_wf c → schedule_wf aes →
  ∃ gr rng', garble_circuit c mmo_key aes rng = Ok (gr, rng') ∧ garbled c aes gr.
Proof.
  intros Hc Haes. unfold garble_circuit. pose proof (make_delta_wf rng) as [Hd Hs].
  destruct (make_delta rng) as [delta rng1]; cbn [fst] in *.
  destruct (garble_inputs c Hc) as (Hu & Hw0 & Hw). rewrite Hu.
  set (k := Z.to_nat (n_input0 c + n_input1 c)).
  assert (n_input0 c + n_input1 c = Z.of_nat k) as Ek by (unfold k; lia). rewrite Ek.
  rewrite input_loop, bind_ok by (done || lia). cbv beta iota.
  pose proof (fresh_labels_wf delta k rng1 Hd Hs) as [Hl Hf].
  destruct (fresh_labels delta k rng1) as [ins rng2]; cbn [fst snd] in *.
  assert (Forall block_wf ins) as Hwf by (eapply Forall_impl; [exact Hf|]; by intros ? []).
  rewrite <-Hl. fold (start_wires c ins).
  assert (∀ bits, length bits = length ins → _) as Hrun
    by exact (λ bits Hb, gate_loops c aes delta ins bits Hc Haes Hd Hs Hwf Hb ltac:(lia)).
  destruct (Hrun (replicate (length ins) false)) as (st & vals0 & Est & Hinv0 & _ & _);
    [by rewrite length_replicate|].
  rewrite Est, bind_ok. pose proof (inv_wires _ _ _ Hinv0) as Hlen.
  rewrite (mapM_seqZ (output_wires c) _ _ (wf_output c Hc)).
  rewrite (mapM_out_Ok (λ o, b2z (lsb (gs_wire0 st !!! Z.to_nat o)))), bind_ok
    by (intros o Ho; by rewrite (output_wire_get c _ o Hc Hlen Ho)).
  rewrite (mapM_out_Ok (λ i, let z := gs_wire0 st !!! Z.to_nat (n_input0 c + i) in
                             (z, xor_block z delta))), bind_ok
    by (intros i Hi; by rewrite (input1_wire_get c _ i Hc Hlen Hi)).
  match goal with |- context [merkle_root_pairs ?p] =>
    destruct (merkle_root_total p) as [root ->] end.
  eexists _, _. split; [reflexivity|].
  pose proof (inputs_kept c aes delta ins _ st Hc ltac:(lia) Est) as Hkept.
  constructor; cbn [gr_delta gr_wire0 gr_out_decode]; try done.
  - apply (inv_blocks _ _ _ Hinv0).
  - intros i b Hb Hi. assert (ins !! i = Some b) as Hi'
      by (rewrite <-Hkept, lookup_take_lt; [done|lia]).
    by destruct (Forall_lookup_1 _ _ _ _ Hf Hi').
  - intros bits Hb. destruct (Hrun bits) as (st' & vals & Est' & Hinv & Ep & El); [lia|].
    rewrite Est in Est'. injection Est' as <-.
    pose proof (inv_vals _ _ _ Hinv) as Hv. exists vals. split_and!; [done| |].
    + apply eval_plain_loop; [done..|lia|done].
    + rewrite active_prefix. replace (length bits) with (length ins) by lia.
      rewrite Hkept. eapply eval_labels_loop; [done|done|lia|done|done|exact El].
Qed.
End garbled.
