(* ===== verification/Bits.v ===== *)
(** * The bit order of the circuit's blocks

    [bits128_to_block] and [block_to_bits128] of [voprf-bench/gc_mmo.hpp]: wire
    0 is the lowest bit of the block read as a big-endian number. *)

From S2P Require Import Prelude Block GcMmo.

(** A byte is its bits. *)
Lemma u8_bits_eq x y : is_u8 x → is_u8 y →
  (∀ j : nat, (j < 8)%nat → Z.testbit x (Z.of_nat j) = Z.testbit y (Z.of_nat j)) → x = y.
Proof.
  intros Hx Hy Hb. apply Z.bits_inj'. intros n Hn.
  destruct (decide (n < 8)) as [Hlt|Hge].
  - specialize (Hb (Z.to_nat n) ltac:(lia)). by rewrite Z2Nat.id in Hb by lia.
  - destruct Hx as [Hx0 Hx], Hy as [Hy0 Hy].
    rewrite (proj1 (is_word_bits 8 x ltac:(lia) Hx0) (conj Hx0 Hx) n ltac:(lia)).
    by rewrite (proj1 (is_word_bits 8 y ltac:(lia) Hy0) (conj Hy0 Hy) n ltac:(lia)).
Qed.

Definition bit_at (b : Block) (i : nat) : bool :=
  Z.testbit (b !!! (i / 8)%nat) (7 - Z.of_nat (i mod 8)).

Lemma divmod8 i k j : (j < 8)%nat → i = (8 * k + j)%nat → (i / 8 = k ∧ i mod 8 = j)%nat.
Proof.
  intros Hj ->. rewrite (Nat.mul_comm 8 k). rewrite Nat.div_add_l, Nat.Div0.add_mod by lia.
  rewrite Nat.Div0.mod_mul, Nat.add_0_l, Nat.Div0.mod_mod, Nat.div_small, Nat.mod_small by lia.
  lia.
Qed.

(** Blocks with the same 128 bits are equal. *)
Lemma block_bits_eq a b : block_wf a → block_wf b →
  (∀ i, (i < 128)%nat → bit_at a i = bit_at b i) → a = b.
Proof.
  intros Ha Hb Hi. apply list_eq_same_length with 16%nat; [apply Hb|apply Ha|].
  intros k x y Hk Hx Hy.
  pose proof (block_byte a k Ha Hk) as Ba. pose proof (block_byte b k Hb Hk) as Bb.
  rewrite (list_lookup_total_correct _ _ _ Hx) in Ba.
  rewrite (list_lookup_total_correct _ _ _ Hy) in Bb.
  apply u8_bits_eq; [done..|]. intros j Hj.
  specialize (Hi (8 * k + (7 - j))%nat ltac:(lia)). unfold bit_at in Hi.
  destruct (divmod8 (8 * k + (7 - j)) k (7 - j)) as [-> ->] in Hi; [lia..|].
  rewrite (list_lookup_total_correct _ _ _ Hx), (list_lookup_total_correct _ _ _ Hy) in Hi.
  by replace (7 - Z.of_nat (7 - j)) with (Z.of_nat j) in Hi by lia.
Qed.

(** Setting one bit. *)
Lemma set_bit_wf b i : block_wf b → (i < 128)%nat →
  block_wf (<[(i / 8)%nat := Z.lor (b !!! (i / 8)%nat)
              (u8 (Z.shiftl 1 (7 - Z.of_nat (i mod 8))))]> b).
Proof.
  intros Hb Hi. assert (i / 8 < 16)%nat as Hk by (apply Nat.Div0.div_lt_upper_bound; lia).
  pose proof (block_byte b _ Hb Hk). destruct Hb as [Hl Hf].
  split; [by rewrite length_insert|]. apply Forall_insert; auto with word.
Qed.

Lemma set_bit_at b i k : block_wf b → (i < 128)%nat → (k < 128)%nat →
  bit_at (<[(i / 8)%nat := Z.lor (b !!! (i / 8)%nat)
            (u8 (Z.shiftl 1 (7 - Z.of_nat (i mod 8))))]> b) k
    = bit_at b k || bool_decide (i = k).
Proof.
  intros [Hl Hf] Hi Hk. unfold bit_at.
  pose proof (Nat.div_mod_eq i 8). pose proof (Nat.div_mod_eq k 8).
  pose proof (Nat.mod_upper_bound i 8 ltac:(lia)). pose proof (Nat.mod_upper_bound k 8 ltac:(lia)).
  destruct (decide (i / 8 = k / 8)%nat) as [E|E].
  - rewrite E, list_lookup_total_insert_eq by lia.
    rewrite Z.lor_spec, testbit_u8, Z.shiftl_spec by lia. f_equal.
    destruct (decide (i = k)) as [->|Hne].
    + rewrite bool_decide_eq_true_2, Z.sub_diag by done. done.
    + rewrite bool_decide_eq_false_2 by done.
      destruct (Z.lt_ge_cases (7 - Z.of_nat (k mod 8) - (7 - Z.of_nat (i mod 8))) 0).
      * by apply Z.testbit_neg_r.
      * apply Z.bits_above_log2; [lia|]. change (Z.log2 1) with 0. lia.
  - rewrite list_lookup_total_insert_ne by done.
    rewrite bool_decide_eq_false_2 by congruence. by rewrite orb_false_r.
Qed.

(** The loop of [bits128_to_block], after the first [n] bits. *)
Lemma pack_loop (be : nat → bool) n : (n ≤ 128)%nat →
  let out := foldl (λ (out : Block) (i : nat),
    if be i then <[(i / 8)%nat := Z.lor (out !!! (i / 8)%nat)
                     (u8 (Z.shiftl 1 (7 - Z.of_nat (i mod 8))))]> out
    else out) zero_block (seq 0 n) in
  block_wf out ∧ ∀ k, (k < 128)%nat → bit_at out k = bool_decide (k < n)%nat && be k.
Proof.
  induction n as [|n IH]; intros Hn; cbn zeta.
  - split; [apply zero_block_wf|]. intros k Hk. cbn [seq foldl]. unfold bit_at, zero_block.
    assert (k / 8 < 16)%nat by (apply Nat.Div0.div_lt_upper_bound; lia).
    rewrite lookup_total_replicate_2 by done. apply Z.bits_0.
  - rewrite seq_S, foldl_app. cbn [foldl Nat.add].
    destruct (IH ltac:(lia)) as [Hw Hb]. set (o := foldl _ _ (seq 0 n)) in *.
    destruct (be n) eqn:En.
    + split; [apply set_bit_wf; [done|lia]|]. intros k Hk.
      rewrite set_bit_at, Hb by (done || lia). destruct (decide (n = k)) as [->|Hne].
      * rewrite (bool_decide_eq_true_2 (k = k)), (bool_decide_eq_true_2 (k < S k)%nat) by lia.
        by rewrite En, orb_true_r.
      * rewrite (bool_decide_eq_false_2 (n = k)) by done. rewrite orb_false_r.
        f_equal. apply bool_decide_ext. lia.
    + split; [done|]. intros k Hk. rewrite Hb by done. destruct (decide (n = k)) as [->|Hne].
      * by rewrite En, !andb_false_r.
      * f_equal. apply bool_decide_ext. lia.
Qed.

Lemma lookup_total_map_seq {A} `{Inhabited A} (f : nat → A) n i : (i < n)%nat →
  (f <$> seq 0 n) !!! i = f i.
Proof.
  intros Hi. apply list_lookup_total_correct. rewrite list_lookup_fmap.
  by rewrite lookup_seq_lt by done.
Qed.

Lemma land_1_odd x : negb (Z.land x 1 =? 0) = Z.odd x.
Proof.
  change 1 with (Z.ones 1). rewrite Z.land_ones by lia. change (2 ^ 1) with 2.
  rewrite Zmod_odd. by destruct (Z.odd x).
Qed.

Lemma bits128_to_block_spec bits : block_wf (bits128_to_block bits) ∧
  ∀ k, (k < 128)%nat → bit_at (bits128_to_block bits) k = Z.odd (bits !!! (127 - k)%nat).
Proof.
  destruct (pack_loop (λ i, negb ((((λ i : nat,
    Z.land (bits !!! (127 - i)%nat) 1) <$> seq 0 128) : list Z) !!! i =? 0)) 128) as [Hw Hb]; [lia|].
  split; [exact Hw|]. intros k Hk. unfold bits128_to_block. rewrite Hb by done.
  rewrite bool_decide_eq_true_2 by done.
  rewrite (lookup_total_map_seq (λ i : nat, Z.land (bits !!! (127 - i)%nat) 1)) by done.
  apply land_1_odd.
Qed.

Lemma block_to_bits128_spec b k : (k < 128)%nat →
  length (block_to_bits128 b) = 128%nat ∧
  block_to_bits128 b !!! k = b2z (bit_at b (127 - k)).
Proof.
  intros Hk. split; [done|]. unfold block_to_bits128.
  rewrite lookup_total_map_seq by done.
  rewrite (lookup_total_map_seq (λ i : nat,
    Z.land (Z.shiftr (b !!! (i / 8)%nat) (7 - Z.of_nat (i mod 8))) 1)) by lia.
  unfold bit_at. set (i := (127 - k)%nat).
  pose proof (Nat.mod_upper_bound i 8 ltac:(lia)).
  change 1 with (Z.ones 1). rewrite Z.land_ones by lia. change (2 ^ 1) with 2.
  rewrite Zmod_odd, <-Z.bit0_odd, Z.shiftr_spec by lia. by rewrite Z.add_0_l.
Qed.

Lemma block_roundtrip b : block_wf b → bits128_to_block (block_to_bits128 b) = b.
Proof.
  intros Hb. destruct (bits128_to_block_spec (block_to_bits128 b)) as [Hw Hbit].
  apply block_bits_eq; [done..|]. intros k Hk. rewrite Hbit by done.
  rewrite (proj2 (block_to_bits128_spec b (127 - k) ltac:(lia))).
  replace (127 - (127 - k))%nat with k by lia. by destruct (bit_at b k).
Qed.

(** The bit order is a bijection between blocks and vectors of 128 bits: the
    two conversions are inverses of each other. *)
Theorem bits128_roundtrip b bits : block_wf b → length bits = 128%nat →
  bits128_to_block (block_to_bits128 b) = b ∧
  block_to_bits128 (bits128_to_block (b2z <$> bits)) = b2z <$> bits.
Proof.
  intros Hb Hl. split; [by apply block_roundtrip|].
  destruct (bits128_to_block_spec (b2z <$> bits)) as [Hw Hbit].
  apply list_eq_same_length with 128%nat; [by rewrite length_fmap|done|].
  intros k x y Hk Hx Hy. apply list_lookup_total_correct in Hx, Hy.
  rewrite <-Hx, <-Hy, (proj2 (block_to_bits128_spec _ k Hk)), Hbit by lia.
  replace (127 - (127 - k))%nat with k by lia.
  rewrite (list_lookup_total_fmap b2z bits) by lia. by destruct (bits !!! k).
Qed.

Lemma bits128_roundtrip_witness :
  bits128_to_block (block_to_bits128 (le_bytes 16 0xdeadbeef)) = le_bytes 16 0xdeadbeef.
Proof.
  apply (bits128_roundtrip (le_bytes 16 0xdeadbeef) (replicate 128 true));
    by apply (bool_decide_eq_true_1 _).
Defined.
