(* ===== verification/Concrete.v ===== *)
(** * Concrete parameters

    A generator, a hash function and small circuits, at which the witnesses of
    the properties evaluate the definitions. *)

From S2P Require Import Prelude Xor Block Aes Circuit GcMmo.

(** A 64-bit linear congruential generator. *)
Definition lcg_next (s : Z) : Z * Z :=
  let s := u64 (6364136223846793005 * s + 1442695040888963407) in (Z.shiftr s 16, s).
Definition lcg : RandGen Z := lcg_next.

(** A hash function with the output format of SHA-256. *)
Definition toy_hash (l : list Z) : list Z :=
  le_bytes 32 (foldl (λ h b, (h * 6364136223846793005 + b + 1) mod 2 ^ 256) 7 l).
Definition toy_sha256 : Sha256 := toy_hash.

Lemma toy_sha256_laws : @Sha256Laws toy_sha256.
Proof. constructor; intros l; [apply le_bytes_length|apply le_bytes_u8]. Qed.

(** A one-bit adder with carry and an inverter: wires 0 and 1 are the
    garbler's, wires 2 and 3 the evaluator's. *)
Definition adder : Circuit := {|
  n_gates := 8; n_wires := 12; n_input0 := 2; n_input1 := 2; n_output := 3;
  n_and := 3; n_xor := 5;
  gates := [ mkGate XOR 0 2 4; mkGate AND 0 2 5; mkGate XOR 1 3 6; mkGate AND 1 3 7;
             mkGate INV 6 6 8; mkGate AND 5 6 9; mkGate XOR 4 8 10; mkGate XOR 7 9 11 ];
  output_wires := [9; 10; 11];
|}.

Lemma adder_wf : circuit_wf adder.
Proof. apply circuit_wfb_sound. by vm_compute. Qed.

(** Blocks for the witnesses. *)
Definition block_of (n : Z) : Block := le_bytes 16 n.

Lemma block_of_wf n : block_wf (block_of n).
Proof. split; [apply le_bytes_length|apply le_bytes_u8]. Qed.

(** The adder, garbled under one key from one state of the generator. *)
Definition adder_run : GarbleResult * Z :=
  from_ok (mkGarble [] [] [] [] [] [] [] [], 0)
    (@garble_circuit Z lcg toy_sha256 adder (block_of 5) (Portable.FixedKeyAES (block_of 5)) 1).
Definition adder_gr : GarbleResult := adder_run.1.

Lemma adder_garbled :
  @garble_circuit Z lcg toy_sha256 adder (block_of 5) (Portable.FixedKeyAES (block_of 5)) 1
    = Ok (adder_gr, adder_run.2).
Proof. by vm_compute. Qed.
