(* ===== verification/GcProps.v ===== *)
(** * Properties of the circuit loader and of the garbling scheme

    Correctness of [garble_circuit] against [eval_circuit_plain], and what the active
    labels of the inputs reveal. *)

From S2P Require Import Prelude Xor Block Aes Circuit GcMmo Concrete.

(** ** Decoding *)

(** A run of the evaluator on the labels of [bits] decodes to the plaintext
    result. *)
Lemma garbled_decode c aes gr bits : circuit_wf c → garbled c aes gr →
  Z.of_nat (length bits) = n_input0 c + n_input1 c →
  ∃ outs y,
    eval_circuit_labels c aes gr (active (gr_delta gr) (gr_wire0 gr) bits) = Ok outs ∧
    decode_outputs gr outs = Ok y ∧ eval_circuit_plain c (b2z <$> bits) = Ok y.
Proof.
  intros Hc Hg Hb. destruct (gd_eval _ _ _ Hg bits Hb) as (vals & Hv & Ep & El).
  eexists _, _. split; [exact El|]. split; [|exact Ep].
  destruct (gd_delta _ _ _ Hg) as [Hd Hs].
  unfold decode_outputs. rewrite (gd_decode _ _ _ Hg).
  rewrite (mapM_zip_seq0 (λ l d, Z.lxor (b2z (lsb l)) d)) by (rewrite !length_fmap; lia).
  f_equal. apply list_eq. intros i. rewrite lookup_zip_with, !list_lookup_fmap.
  destruct (output_wires c !! i) as [o|] eqn:Eo; [|done]. cbn. f_equal.
  pose proof (Forall_lookup_1 _ _ _ _ (wf_output_wires c Hc) Eo) as Hr. cbn in Hr.
  pose proof (gd_wires _ _ _ Hg) as Hw.
  destruct (lookup_in_range (gr_wire0 gr) o) as [w0 E0]; [lia|].
  destruct (lookup_in_range vals o) as [b E1]; [lia|].
  rewrite (list_lookup_total_correct _ _ _ (active_lookup _ _ _ _ _ _ E0 E1)).
  rewrite (list_lookup_total_correct _ _ _ E0), (list_lookup_total_correct _ _ _ E1).
  pose proof (Forall_lookup_1 _ _ _ _ (gd_blocks _ _ _ Hg) E0) as Hwf.
  pose proof (label_sig w0 (gr_delta gr) b Hwf Hd Hs) as E.
  change (@xsig Block _) with lsb in E. rewrite E, lxor_b2z. f_equal.
  destruct (lsb w0), b; done.
Qed.

Section properties.
Context {G : Type} `{RandGen G} `{Sha256}.

(** The active input labels as the callers select them. *)
Definition input_labels (gr : GarbleResult) (bits : list bool) : list Block :=
  zip_with (λ w b, label_for_bit w (gr_delta gr) (b2z b)) (gr_wire0 gr) bits.

Lemma input_labels_active gr bits :
  input_labels gr bits = active (gr_delta gr) (gr_wire0 gr) bits.
Proof.
  unfold input_labels, active. apply zip_with_ext; [|done..].
  intros w b. apply label_for_bit_label.
Qed.

(** C2. Garbled evaluation is correct: for every well-formed circuit, every
    hash key, every state of the random generator and every input, garbling
    succeeds, evaluating the tables on the labels of the input succeeds, and
    decoding the output labels gives the plaintext evaluation. *)
Theorem garbled_circuit_correct c key rng bits : circuit_wf c → block_wf key →
  Z.of_nat (length bits) = n_input0 c + n_input1 c →
  ∃ gr rng' outs y,
    garble_circuit c key (Portable.FixedKeyAES key) rng = Ok (gr, rng') ∧
    eval_circuit_labels c (Portable.FixedKeyAES key) gr (input_labels gr bits) = Ok outs ∧
    decode_outputs gr outs = Ok y ∧ eval_circuit_plain c (b2z <$> bits) = Ok y.
Proof.
  intros Hc Hk Hb. pose proof (FixedKeyAES_wf key Hk) as Haes.
  destruct (garble_circuit_garbled c key _ rng Hc Haes) as (gr & rng' & Eg & Hg).
  destruct (garbled_decode c _ gr bits Hc Hg Hb) as (outs & y & El & Ed & Ep).
  exists gr, rng', outs, y. by rewrite input_labels_active.
Qed.

(** C38. The active label of an input wire shows the wire's bit: its lowest bit
    is the bit, for the garbler's key wires as for the evaluator's. *)
Theorem active_input_label_reveals_bit c key rng gr rng' i w (b : bool) :
  circuit_wf c → block_wf key →
  garble_circuit c key (Portable.FixedKeyAES key) rng = Ok (gr, rng') →
  (i < Z.to_nat (n_input0 c + n_input1 c))%nat → gr_wire0 gr !! i = Some w →
  lsb (label_for_bit w (gr_delta gr) (b2z b)) = b.
Proof.
  intros Hc Hk Eg Hi Hw. pose proof (FixedKeyAES_wf key Hk) as Haes.
  destruct (garble_circuit_garbled c key _ rng Hc Haes) as (gr1 & rng1 & Eg1 & Hg).
  rewrite Eg in Eg1. injection Eg1 as <- <-.
  destruct (gd_delta _ _ _ Hg) as [Hd Hs]. rewrite label_for_bit_label.
  pose proof (Forall_lookup_1 _ _ _ _ (gd_blocks _ _ _ Hg) Hw) as Hwf.
  pose proof (label_sig w (gr_delta gr) b Hwf Hd Hs) as E.
  change (@xsig Block _) with lsb in E. rewrite E.
  by rewrite (gd_clear _ _ _ Hg i w Hw Hi).
Qed.
End properties.

Lemma garbled_circuit_correct_witness : ∃ gr rng' outs y,
  @garble_circuit Z lcg toy_sha256 adder (block_of 5) (Portable.FixedKeyAES (block_of 5)) 1
    = Ok (gr, rng') ∧
  eval_circuit_labels adder (Portable.FixedKeyAES (block_of 5)) gr
    (input_labels gr [true; true; true; false]) = Ok outs ∧
  decode_outputs gr outs = Ok y ∧ eval_circuit_plain adder [1; 1; 1; 0] = Ok y.
Proof.
  apply (@garbled_circuit_correct Z lcg toy_sha256 adder (block_of 5) 1
           [true; true; true; false] adder_wf (block_of_wf 5)). reflexivity.
Defined.

Lemma active_input_label_reveals_bit_witness :
  lsb (label_for_bit (gr_wire0 adder_gr !!! 1%nat) (gr_delta adder_gr) (b2z true)) = true.
Proof.
  apply (@active_input_label_reveals_bit Z lcg toy_sha256 adder (block_of 5) 1 adder_gr
    adder_run.2
    1 _ true adder_wf (block_of_wf 5)); [apply adder_garbled|cbn; lia|by vm_compute].
Defined.
