(* ===== verification/Merkle.v ===== *)
(** * What the commitments of a garbling bind

    [merkle_root_pairs] and [gc_hash] of [voprf-bench/gc_mmo.hpp]: two label
    vectors of one length with one root, or two tables with one hash, are equal
    or two different strings with one digest, both among the strings that the
    two computations hash. *)

From S2P Require Import Prelude Xor Block Aes Circuit GcMmo Concrete.

(** ** What a garbling commits to *)

(** The tables of a garbling are pairs of blocks. *)
Definition table_wf (t : AndGateTable) : Prop := block_wf (T0 t) ∧ block_wf (T1 t).

#[local] Opaque mmo_hash tweak.

Lemma garble_and_wf aes delta id a0 b0 : schedule_wf aes → block_wf delta →
  block_wf a0 → block_wf b0 →
  block_wf (garble_and aes delta id a0 b0).1.1 ∧ table_wf (garble_and aes delta id a0 b0).1.2.
Proof.
  intros Haes Hd Ha Hb.
  pose proof (tweak_hash_wf aes a0 id false Haes Ha) as H0.
  pose proof (tweak_hash_wf aes _ id false Haes (xor_block_wf _ _ Ha Hd)) as H1.
  pose proof (tweak_hash_wf aes b0 id true Haes Hb) as H2.
  pose proof (tweak_hash_wf aes _ id true Haes (xor_block_wf _ _ Hb Hd)) as H3.
  destruct (@half_garble_wf Block Block_xor_ops Block_xor_laws delta a0 b0 _ _ _ _
              Hd Ha Hb H0 H1 H2 H3) as (Hg & He & Hw).
  split; [exact Hw|]. split; [exact Hg|exact He].
Qed.

Definition state_wf (st : GarbleState) : Prop :=
  Forall block_wf (gs_wire0 st) ∧ Forall table_wf (gs_tables st).

Lemma garble_gate_wf aes delta g st st' : schedule_wf aes → block_wf delta →
  state_wf st → garble_gate aes delta st g = Ok st' → state_wf st'.
Proof.
  intros Haes Hd [Hw Ht] E. unfold garble_gate in E. destruct (type g).
  - bind_inv E. bind_inv E. bind_inv E. injection E as <-. split; [|done]. cbn [gs_wire0].
    eapply vset_Forall; [exact Hw| |done]. apply xor_block_wf; by eapply vget_Forall.
  - bind_inv E. bind_inv E.
    pose proof (vget_Forall _ _ _ _ Hw E0) as Ha. pose proof (vget_Forall _ _ _ _ Hw E1) as Hb.
    destruct (garble_and_wf aes delta (gs_and_id st) a a0 Haes Hd Ha Hb) as [Hw0 Htab].
    destruct (garble_and aes delta (gs_and_id st) a a0) as [[w0 tab] wit].
    bind_inv E. injection E as <-. cbn [fst snd] in *. split; cbn [gs_wire0 gs_tables].
    + by eapply vset_Forall.
    + apply Forall_app. split; [done|]. by apply Forall_singleton.
  - bind_inv E. bind_inv E. injection E as <-. split; [|done]. cbn [gs_wire0].
    eapply vset_Forall; [exact Hw| |done]. apply xor_block_wf; [by eapply vget_Forall|done].
Qed.

Section binding.
Context `{Sha256} `{!Sha256Laws}.

(** A collision between two computations: a string that the first one hashes and
    a different string that the second one hashes, with the same digest. *)
Definition collide (xs ys : list (list Z)) : Prop :=
  ∃ x y, x ∈ xs ∧ y ∈ ys ∧ x ≠ y ∧ sha256_bytes x = sha256_bytes y.

Lemma sha256_inj x y : sha256_bytes x = sha256_bytes y → x = y ∨ collide [x] [y].
Proof.
  intros E. destruct (decide (x = y)); [by left|]. right. exists x, y.
  split_and!; [by apply list_elem_of_singleton..|done|done].
Qed.

Lemma collide_mono xs ys xs' ys' : collide xs ys → xs ⊆ xs' → ys ⊆ ys' → collide xs' ys'.
Proof. intros (x & y & Hx & Hy & Hd) Sx Sy. exists x, y. auto. Qed.

Lemma collide_left xs ys zs ws : collide xs ys → collide (xs ++ zs) (ys ++ ws).
Proof. intros Hc. apply (collide_mono _ _ _ _ Hc); intros x; rewrite elem_of_app; auto. Qed.

Lemma collide_right xs ys zs ws : collide xs ys → collide (zs ++ xs) (ws ++ ys).
Proof. intros Hc. apply (collide_mono _ _ _ _ Hc); intros x; rewrite elem_of_app; auto. Qed.

(** The strings hashed for one level, for all levels, and for a root. *)
Fixpoint pair_strings (level : list (list Z)) : list (list Z) :=
  match level with
  | a :: b :: level => (a ++ b) :: pair_strings level
  | _ => []
  end.

(** A digest as the levels of the tree hold it. *)
Definition digest_wf (d : list Z) : Prop := length d = 32%nat.

Lemma sha256_digest x : digest_wf (sha256_bytes x).
Proof. apply sha256_length. Qed.

Lemma hash_pairs_wf l : Forall digest_wf (hash_pairs l).
Proof.
  assert (∀ n l, (length l ≤ n)%nat → Forall digest_wf (hash_pairs l)) as Hn; [|eauto].
  clear l. induction n as [|n IH]; intros [|a [|b l]] Hl; cbn in Hl; try done; try lia.
  cbn [hash_pairs]. constructor; [apply sha256_digest|]. apply IH. lia.
Qed.

Lemma hash_pairs_inj k l1 l2 : length l1 = (2 * k)%nat → length l2 = (2 * k)%nat →
  Forall digest_wf l1 → Forall digest_wf l2 →
  hash_pairs l1 = hash_pairs l2 → l1 = l2 ∨ collide (pair_strings l1) (pair_strings l2).
Proof.
  revert l1 l2. induction k as [|k IH]; intros l1 l2 L1 L2 F1 F2 E.
  - apply nil_length_inv in L1, L2. subst. by left.
  - destruct l1 as [|a1 [|b1 l1]]; cbn in L1; try lia.
    destruct l2 as [|a2 [|b2 l2]]; cbn in L2; try lia.
    rewrite !Forall_cons in F1, F2. destruct F1 as (A1 & B1 & F1), F2 as (A2 & B2 & F2).
    cbn [hash_pairs] in E. injection E as Eh Et.
    cbn [pair_strings].
    destruct (sha256_inj _ _ Eh) as [Eab|]; [|right; by apply (collide_left [_] [_])].
    apply app_inj_1 in Eab as [-> ->]; [|unfold digest_wf in *; congruence].
    destruct (IH l1 l2) as [->|];
      [lia..|done|done|done|by left|right; by apply (collide_right _ _ [_] [_])].
Qed.

(** The level a pass hashes: an odd level repeats its last digest. *)
Definition padded (l : list (list Z)) : list (list Z) :=
  if Nat.odd (length l) then match last l with Some x => l ++ [x] | None => l end else l.

Fixpoint level_strings (fuel : nat) (level : list (list Z)) : list (list Z) :=
  match level, fuel with
  | _ :: _ :: _, S fuel => pair_strings (padded level) ++ level_strings fuel (merkle_step level)
  | _, _ => []
  end.

Definition leaf_strings (pairs : list (Block * Block)) : list (list Z) :=
  (λ '(p0, p1), p0 ++ p1) <$> pairs.

Definition root_strings (pairs : list (Block * Block)) : list (list Z) :=
  leaf_strings pairs ++
  level_strings (length pairs) ((λ '(p0, p1), sha256_bytes (p0 ++ p1)) <$> pairs).

Lemma merkle_step_padded l : merkle_step l = hash_pairs (padded l).
Proof. done. Qed.

Lemma padded_wf l : Forall digest_wf l → Forall digest_wf (padded l).
Proof.
  intros Hf. unfold padded. destruct (Nat.odd _); [|done].
  destruct (last l) as [x|] eqn:E; [|done]. apply Forall_app. split; [done|].
  apply Forall_singleton. apply last_Some_elem_of in E. rewrite Forall_forall in Hf. auto.
Qed.

Lemma padded_length l : l ≠ [] →
  length (padded l) = (2 * ((length l + 1) / 2))%nat ∧ take (length l) (padded l) = l.
Proof.
  intros Hl. unfold padded. pose proof (Nat.div_mod_eq (length l + 1) 2).
  destruct (Nat.odd (length l)) eqn:E.
  - apply Nat.odd_spec in E as [k Hk].
    destruct (last l) as [x|] eqn:El; [|by apply last_None in El].
    rewrite length_app, take_app_length. split; [|done]. cbn [length].
    replace (length l + 1)%nat with ((k + 1) * 2)%nat by lia. rewrite Nat.div_mul by lia. lia.
  - rewrite firstn_all. split; [|done].
    rewrite <-Nat.negb_even in E. apply negb_false_iff, Nat.even_spec in E as [k Hk].
    replace (length l + 1)%nat with (k * 2 + 1)%nat by lia.
    rewrite Nat.div_add_l by lia. cbn. lia.
Qed.

Lemma merkle_step_inj l1 l2 : l1 ≠ [] → length l1 = length l2 →
  Forall digest_wf l1 → Forall digest_wf l2 →
  merkle_step l1 = merkle_step l2 →
  l1 = l2 ∨ collide (pair_strings (padded l1)) (pair_strings (padded l2)).
Proof.
  intros Hne Hl F1 F2 E. rewrite !merkle_step_padded in E.
  assert (l2 ≠ []) as Hne2 by (intros ->; by apply nil_length_inv in Hl).
  destruct (padded_length l1 Hne) as [L1 P1], (padded_length l2 Hne2) as [L2 P2].
  destruct (hash_pairs_inj _ _ _ L1 (eq_trans L2 (f_equal (λ n, 2 * ((n + 1) / 2))%nat
    (eq_sym Hl))) (padded_wf _ F1) (padded_wf _ F2) E) as [Ep|]; [|by right].
  left. by rewrite <-P1, <-P2, Ep, Hl.
Qed.

Lemma merkle_loop_inj fuel l1 l2 r : length l1 = length l2 →
  Forall digest_wf l1 → Forall digest_wf l2 →
  merkle_loop fuel l1 = Some r → merkle_loop fuel l2 = Some r →
  l1 = l2 ∨ collide (level_strings fuel l1) (level_strings fuel l2).
Proof.
  revert l1 l2. induction fuel as [|fuel IH];
    intros [|a1 [|b1 l1]] [|a2 [|b2 l2]] Hl F1 F2 E1 E2; try done.
  - cbn in E1, E2. left. congruence.
  - cbn in E1, E2. left. congruence.
  - cbn [merkle_loop] in E1, E2. set (m1 := a1 :: b1 :: l1) in *.
    set (m2 := a2 :: b2 :: l2) in *.
    assert (∀ a b l, level_strings (S fuel) (a :: b :: l)
      = pair_strings (padded (a :: b :: l)) ++ level_strings fuel (merkle_step (a :: b :: l))) as El
      by done.
    unfold m1, m2. rewrite !El. fold m1 m2. clear El.
    destruct (IH (merkle_step m1) (merkle_step m2)) as [E|];
      [..|right; by apply collide_right]; try done.
    + rewrite !merkle_step_length by done. by rewrite Hl.
    + apply hash_pairs_wf.
    + apply hash_pairs_wf.
    + destruct (merkle_step_inj m1 m2) as [Em|]; [done..|by left|].
      right. by apply collide_left.
Qed.

Lemma merkle_loop_wf fuel l r : Forall digest_wf l → merkle_loop fuel l = Some r → digest_wf r.
Proof.
  revert l. induction fuel as [|fuel IH]; intros [|a [|b l]] Hf E; try done;
    [by injection E as <-; inversion Hf|by injection E as <-; inversion Hf|].
  cbn [merkle_loop] in E. eapply IH; [|exact E]. apply hash_pairs_wf.
Qed.

Lemma leaves_wf ps : Forall digest_wf ((λ '(p0, p1), sha256_bytes (p0 ++ p1)) <$> ps).
Proof. apply Forall_fmap, Forall_forall. intros [? ?] _. apply sha256_digest. Qed.

Lemma merkle_root_wf ps r : merkle_root_pairs ps = Some r → digest_wf r.
Proof.
  unfold merkle_root_pairs. destruct ps as [|p ps]; [intros [= <-]; apply sha256_digest|].
  apply merkle_loop_wf, leaves_wf.
Qed.

Lemma leaves_inj ps qs : Forall (λ p, length p.1 = 16%nat) ps →
  Forall (λ p, length p.1 = 16%nat) qs →
  (λ '(p0, p1), sha256_bytes (p0 ++ p1)) <$> ps = (λ '(p0, p1), sha256_bytes (p0 ++ p1)) <$> qs →
  ps = qs ∨ collide (leaf_strings ps) (leaf_strings qs).
Proof.
  intros F1. revert qs. induction F1 as [|[p0 p1] ps Hp F1 IH]; intros [|[q0 q1] qs] F2 E;
    cbn in E; try done; [by left|].
  apply Forall_cons in F2 as [Hq F2]. injection E as Eh Et. cbn in Hp, Hq.
  unfold leaf_strings. cbn [fmap list_fmap].
  destruct (sha256_inj _ _ Eh) as [Ea|]; [|right; by apply (collide_left [_] [_])].
  apply app_inj_1 in Ea as [-> ->]; [|congruence].
  destruct (IH qs F2 Et) as [->|]; [by left|right; by apply (collide_right _ _ [_] [_])].
Qed.

(** Two vectors of pairs of one length with the same root are equal, or two
    strings hashed for the roots collide. *)
Lemma merkle_root_inj ps qs : Forall (λ p, length p.1 = 16%nat) ps →
  Forall (λ p, length p.1 = 16%nat) qs → length ps = length qs →
  merkle_root_pairs ps = merkle_root_pairs qs → ps = qs ∨ collide (root_strings ps) (root_strings qs).
Proof.
  intros F1 F2 Hl E. destruct (merkle_root_total ps) as [r Er]. rewrite Er in E.
  unfold merkle_root_pairs in *.
  destruct ps as [|p ps], qs as [|q qs]; try done; [by left|]. rewrite Hl in Er.
  symmetry in E. unfold root_strings. rewrite Hl.
  eapply merkle_loop_inj in E as [El|]; [..|exact Er]; [| | |apply leaves_wf..].
  - destruct (leaves_inj _ _ F1 F2 El) as [|]; [by left|].
    right. by apply collide_left.
  - right. by apply collide_right.
  - by rewrite !length_fmap.
Qed.

Lemma merkle_loop_fuel fuel fuel' l r : (fuel ≤ fuel')%nat →
  merkle_loop fuel l = Some r → merkle_loop fuel' l = Some r.
Proof.
  revert fuel' l. induction fuel as [|fuel IH]; intros fuel' [|a [|b l]] Hf E;
    destruct fuel'; try done; try lia. cbn [merkle_loop] in *. apply IH; [lia|done].
Qed.

(** The root does not bind the number of pairs: repeating the last pair of
    an odd level leaves the root unchanged. *)
Theorem merkle_root_repeats_last ps p : ps ≠ [] → Nat.even (length ps) = true →
  merkle_root_pairs (ps ++ [p; p]) = merkle_root_pairs (ps ++ [p]).
Proof.
  intros Hne He. set (leaf := λ '(p0, p1), sha256_bytes (p0 ++ p1)).
  assert (∀ qs, qs ≠ [] → merkle_root_pairs qs = merkle_loop (length qs) (leaf <$> qs)) as Hr
    by by intros [].
  rewrite !Hr by by destruct ps. rewrite !length_app. cbn [length].
  rewrite !fmap_app. cbn [fmap list_fmap].
  assert (∃ f a b m, (length ps + 1 = S f)%nat ∧ leaf <$> ps = a :: b :: m)
    as (f & a & b & m & Ef & Em).
  { destruct ps as [|p1 [|p2 ps]]; [done..|]. cbn. eauto 10. }
  assert (2 ≤ length ps)%nat as H2
    by (destruct ps as [|p1 [|p2 ps]]; cbn in He |- *; congruence || lia).
  rewrite Em, Ef. replace (length ps + 2)%nat with (S (S f)) by lia.
  cbn [app merkle_loop]. rewrite !app_comm_cons, <-Em.
  assert (merkle_step ((leaf <$> ps) ++ [leaf p; leaf p]) = merkle_step ((leaf <$> ps) ++ [leaf p]))
    as ->.
  { unfold merkle_step. rewrite !length_app, length_fmap, last_snoc. cbn [length].
    rewrite !Nat.odd_add, <-Nat.negb_even, He. cbn. by rewrite <-app_assoc. }
  set (l := (leaf <$> ps) ++ [leaf p]).
  assert (l ≠ []) as Hl by (unfold l; by rewrite Em).
  assert (length l = S f) as Ll by (unfold l; rewrite length_app, length_fmap; cbn; lia).
  pose proof (merkle_step_length l Hl) as Hs. rewrite Ll in Hs.
  pose proof (Nat.div_mod_eq (S f + 1) 2).
  pose proof (Nat.mod_upper_bound (S f + 1) 2 ltac:(lia)).
  destruct (merkle_loop_total f (merkle_step l)) as [r E].
  - intros E. rewrite E in Hs. cbn [length] in Hs. lia.
  - rewrite Hs. lia.
  - rewrite E. apply (merkle_loop_fuel f (S f)); [lia|done].
Qed.

Lemma table_bytes_inj ts us : Forall table_wf ts → Forall table_wf us →
  concat (table_bytes <$> ts) = concat (table_bytes <$> us) → ts = us.
Proof.
  assert (∀ t, table_wf t → length (table_bytes t) = 32%nat) as Hlen
    by (intros t [[H0' _] [H1' _]]; unfold table_bytes; rewrite length_app; lia).
  intros F1. revert us. induction F1 as [|[t0 t1] ts Ht F1 IH]; intros [|[u0 u1] us] F2 E.
  - done.
  - apply Forall_cons in F2 as [Hu _]. apply (f_equal length) in E.
    cbn [concat fmap list_fmap] in E. rewrite length_app, (Hlen _ Hu) in E. done.
  - apply (f_equal length) in E.
    cbn [concat fmap list_fmap] in E. rewrite length_app, (Hlen _ Ht) in E. done.
  - apply Forall_cons in F2 as [Hu F2]. cbn [concat fmap list_fmap] in E.
    apply app_inj_1 in E as [Et Er]; [|by rewrite (Hlen _ Ht), (Hlen _ Hu)].
    rewrite (IH us F2 Er). f_equal. unfold table_bytes in Et. cbn [T0 T1] in Et.
    apply app_inj_1 in Et as [-> ->]; [done|].
    destruct Ht as [[Ht _] _], Hu as [[Hu _] _]. cbn [T0] in Ht, Hu. congruence.
Qed.

(** The label pairs of the evaluator's inputs. *)
Definition evaluator_pairs (c : Circuit) (gr : GarbleResult) : list (Block * Block) :=
  (λ i, let z := gr_wire0 gr !!! Z.to_nat (u64 (n_input0 c + i)) in
        (z, xor_block z (gr_delta gr))) <$> seqZ 0 (n_input1 c).

(** The run behind a garbling: the input labels [w0] and the final state [st]. *)
Record garble_run (c : Circuit) (aes : AES) (gr : GarbleResult) (w0 : list Block)
    (st : GarbleState) : Prop := {
  gr_run_delta : block_wf (gr_delta gr) ∧ lsb (gr_delta gr) = true;
  gr_run_labels : Forall block_wf w0 ∧ length w0 = Z.to_nat (n_wires c);
  gr_run_gates : foldM (garble_gate aes (gr_delta gr)) (mkGState w0 [] [] 0) (gates c) = Ok st;
  gr_run_tables : gr_tables gr = gs_tables st;
  gr_run_wit : gr_and_wit gr = gs_wit st;
  gr_run_wire0 : gr_wire0 gr = gs_wire0 st;
  gr_run_decode : length (gr_out_decode gr) = Z.to_nat (n_output c);
  gr_run_hash : gr_gc_hash gr = sha256_bytes (concat (table_bytes <$> gr_tables gr));
  gr_run_root : merkle_root_pairs (evaluator_pairs c gr) = Some (gr_R_root gr);
  gr_run_pairs : Forall (λ p, length p.1 = 16%nat) (evaluator_pairs c gr);
  gr_run_wf : state_wf st;
}.

Lemma input_step_inv {G} `{RandGen G} delta (w w' : list Block) (g g' : G) i :
  block_wf delta → lsb delta = true → Forall block_wf w →
  input_step delta (w, g) i = Ok (w', g') → Forall block_wf w' ∧ length w' = length w.
Proof.
  intros Hd Hs Hw. unfold input_step.
  pose proof (fresh_input_label_wf delta g Hd Hs) as [Hb _].
  destruct (fresh_input_label delta g) as [b g'']; cbn [fst] in *. intros Ei.
  bind_inv Ei. injection Ei as <- <-. split; [by eapply vset_Forall|by eapply vset_length].
Qed.

Lemma garble_circuit_inv {G} `{RandGen G} c key aes (rng : G) gr rng' : schedule_wf aes →
  garble_circuit c key aes rng = Ok (gr, rng') →
  gr_aes_key gr = key ∧ ∃ w0 st, garble_run c aes gr w0 st.
Proof.
  intros Haes E. unfold garble_circuit in E. pose proof (make_delta_wf rng) as [Hd Hs].
  destruct (make_delta rng) as [delta rng1]; cbn [fst] in *.
  bind_inv E. destruct a as [w0 rng2]. bind_inv E. bind_inv E. bind_inv E.
  assert (Forall block_wf w0 ∧ length w0 = Z.to_nat (n_wires c)) as Hw0.
  { refine (foldM_preserves
      (λ st, Forall block_wf st.1 ∧ length st.1 = Z.to_nat (n_wires c)) _ _ _ _ _ _ E0).
    - intros i [w g] [w' g'] [Hw Hl] Ei.
      destruct (input_step_inv delta w w' g g' i Hd Hs Hw Ei). cbn in *. split; [done|lia].
    - cbn. rewrite length_replicate. split; [apply Forall_replicate, zero_block_wf|done]. }
  assert (state_wf a) as Ha.
  { refine (foldM_preserves state_wf _ _ _ _ _ _ E1); [|by split; [apply Hw0|]].
    intros. by eapply garble_gate_wf. }
  pose proof Ha as [Hw Ht].
  assert (Forall (λ p, length p.1 = 16%nat) a1) as Hp.
  { eapply mapM_out_Forall; [|exact E3]. intros i b Ei. bind_inv Ei. injection Ei as <-.
    by destruct (vget_Forall _ _ _ _ Hw E4). }
  apply mapM_out_inv with (f := λ i, let z := gs_wire0 a !!! Z.to_nat (u64 (n_input0 c + i)) in
        (z, xor_block z delta)) in E3 as ->.
  2: { intros i b Ei. bind_inv Ei. injection Ei as <-. by rewrite (vget_total _ _ _ E4). }
  destruct (merkle_root_pairs _) as [root|] eqn:Er; [|done]. injection E as <- <-.
  split; [done|]. exists w0, a. constructor; try done.
  cbn [gr_out_decode]. apply mapM_out_length in E2. by rewrite E2, length_seqZ.
Qed.

(** The strings that the commitments of a garbling are computed from: the tables
    of [gc_hash] and the nodes of the tree of [R_root]. *)
Definition commitment_strings (c : Circuit) (gr : GarbleResult) : list (list Z) :=
  concat (table_bytes <$> gr_tables gr) :: root_strings (evaluator_pairs c gr).

(** C20. The commitments of a garbling bind it: two garblings whose table hashes
    and Merkle roots agree, for circuits with the same number of evaluator
    inputs, have the same tables and the same evaluator label pairs, or the two
    computations exhibit a collision: one of the strings that the first garbling
    hashes (its tables, its leaves and the nodes of its tree) and a different one
    that the second garbling hashes have the same digest. *)
Theorem garble_commitments_binding {G} `{RandGen G} c c' key key' (rng rng' : G)
    gr gr' r r' : block_wf key → block_wf key' → n_input1 c = n_input1 c' →
  garble_circuit c key (Portable.FixedKeyAES key) rng = Ok (gr, r) →
  garble_circuit c' key' (Portable.FixedKeyAES key') rng' = Ok (gr', r') →
  gr_gc_hash gr = gr_gc_hash gr' → gr_R_root gr = gr_R_root gr' →
  (gr_tables gr = gr_tables gr' ∧ evaluator_pairs c gr = evaluator_pairs c' gr') ∨
  collide (commitment_strings c gr) (commitment_strings c' gr').
Proof.
  intros Hk Hk' Hn E E' Eh Er.
  destruct (garble_circuit_inv c key _ rng gr r (FixedKeyAES_wf key Hk) E)
    as (_ & w0 & st & R).
  destruct (garble_circuit_inv c' key' _ rng' gr' r' (FixedKeyAES_wf key' Hk') E')
    as (_ & w0' & st' & R').
  rewrite (gr_run_hash _ _ _ _ _ R), (gr_run_hash _ _ _ _ _ R') in Eh.
  destruct (sha256_inj _ _ Eh) as [Et|];
    [|right; by apply (collide_left [_] [_])].
  apply table_bytes_inj in Et;
    [|rewrite (gr_run_tables _ _ _ _ _ R); exact (proj2 (gr_run_wf _ _ _ _ _ R))
     |rewrite (gr_run_tables _ _ _ _ _ R'); exact (proj2 (gr_run_wf _ _ _ _ _ R'))].
  destruct (merkle_root_inj _ _ (gr_run_pairs _ _ _ _ _ R) (gr_run_pairs _ _ _ _ _ R'))
    as [Ep|]; [..|by left|right; by apply (collide_right _ _ [_] [_])].
  - unfold evaluator_pairs. by rewrite !length_fmap, !length_seqZ, Hn.
  - pose proof (gr_run_root _ _ _ _ _ R). pose proof (gr_run_root _ _ _ _ _ R'). congruence.
Qed.
End binding.

Lemma garble_commitments_binding_witness :
  (gr_tables adder_gr = gr_tables adder_gr ∧
   evaluator_pairs adder adder_gr = evaluator_pairs adder adder_gr) ∨
  @collide toy_sha256 (@commitment_strings toy_sha256 adder adder_gr)
    (@commitment_strings toy_sha256 adder adder_gr).
Proof.
  apply (@garble_commitments_binding toy_sha256 toy_sha256_laws Z lcg adder adder
           (block_of 5) (block_of 5) 1 1 adder_gr adder_gr adder_run.2 adder_run.2
           (block_of_wf 5) (block_of_wf 5) eq_refl adder_garbled adder_garbled eq_refl eq_refl).
Defined.

Lemma merkle_root_repeats_last_witness :
  @merkle_root_pairs toy_sha256 ([([1], [2]); ([3], [4])] ++ [([5], [6]); ([5], [6])])
    = @merkle_root_pairs toy_sha256 ([([1], [2]); ([3], [4])] ++ [([5], [6])]).
Proof.
  apply (@merkle_root_repeats_last toy_sha256 [([1], [2]); ([3], [4])] ([5], [6]));
    done.
Defined.
