(* ===== verification/Bristol.v ===== *)
(** * The Bristol Fashion loader

    What [load_bristol] of [voprf-bench/gc_mmo.hpp] accepts and returns, against
    a printer of the format: the circuits it returns are exactly those that
    printing and loading preserves. *)

From Stdlib Require Import Ascii.
From S2P Require Import Prelude Xor Block Aes Circuit GcMmo Concrete.

(** ** Printing *)
Definition digit_char (d : Z) : ascii := Ascii.ascii_of_N (Z.to_N (48 + d)).

(** The decimal digits of [n], the lowest first. *)
Fixpoint rdigits (fuel : nat) (n : Z) : list Z :=
  match fuel with
  | O => []
  | S fuel => n mod 10 :: (if n <? 10 then [] else rdigits fuel (n / 10))
  end.

(** Twenty digits are enough for 64 bits. *)
Definition print_dec (n : Z) : list ascii := digit_char <$> reverse (rdigits 20 n).

Definition sp : list ascii := [" "%char].
Definition nl : ascii := "010"%char.

Definition print_gate (g : Gate) : list ascii :=
  match type g with
  | INV => chars "1 1 " ++ print_dec (in0 g) ++ sp ++ print_dec (gout g) ++ sp ++ chars "INV"
  | t => chars "2 1 " ++ print_dec (in0 g) ++ sp ++ print_dec (in1 g) ++ sp ++
           print_dec (gout g) ++ sp ++ chars (match t with XOR => "XOR" | _ => "AND" end)
  end.

Definition print_header (c : Circuit) : list ascii :=
  print_dec (n_gates c) ++ sp ++ print_dec (n_wires c) ++ [nl] ++
  chars "2 " ++ print_dec (n_input0 c) ++ sp ++ print_dec (n_input1 c) ++ [nl] ++
  chars "1 " ++ print_dec (n_output c) ++ [nl].

Definition print_bristol (c : Circuit) : list ascii :=
  print_header c ++ [nl] ++ concat ((λ g, print_gate g ++ [nl]) <$> gates c).

(** ** What the loader returns *)
Definition is_and (g : Gate) : bool := match type g with AND => true | _ => false end.
Definition count_and (gs : list Gate) : Z := Z.of_nat (length (filter (λ g, is_and g) gs)).

Definition gate_printable (g : Gate) : Prop :=
  is_word 32 (in0 g) ∧ is_word 32 (in1 g) ∧ is_word 32 (gout g) ∧ (type g = INV → in1 g = in0 g).

#[export] Instance gate_printable_dec g : Decision (gate_printable g).
Proof. unfold gate_printable. apply _. Defined.

Record bristol_wf (c : Circuit) : Prop := {
  bw_gates : is_word 64 (n_gates c);
  bw_wires : is_word 64 (n_wires c);
  bw_in0 : is_word 64 (n_input0 c);
  bw_in1 : is_word 64 (n_input1 c);
  bw_out : is_word 64 (n_output c);
  bw_gate : Forall gate_printable (gates c);
  bw_size : Z.of_nat (length (gates c)) = n_gates c;
  bw_and : n_and c = count_and (gates c);
  bw_xor : n_xor c = n_gates c - count_and (gates c);
  bw_outs : output_wires c =
    (λ i, u32 (u64 (u64 (n_wires c - n_output c) + i))) <$> seqZ 0 (n_output c);
}.

(** ** Decimal numbers *)
Definition is_digit (d : Z) : Prop := 0 ≤ d < 10.

Lemma digit_char_spec d : is_digit d →
  digit_val (digit_char d) = Some d ∧ is_space (digit_char d) = false ∧
  digit_char d ≠ "-"%char ∧ digit_char d ≠ "+"%char ∧ digit_char d ≠ nl.
Proof.
  intros [H0 H1].
  assert (d ∈ [0; 1; 2; 3; 4; 5; 6; 7; 8; 9]) as Hin by (rewrite !elem_of_cons; lia).
  clear H0 H1. revert d Hin. apply Forall_forall. repeat constructor; by vm_compute.
Qed.

Lemma rdigits_digit fuel n : 0 ≤ n → Forall is_digit (rdigits fuel n).
Proof.
  revert n. induction fuel as [|fuel IH]; intros n Hn; cbn [rdigits]; [constructor|].
  constructor; [by apply Z.mod_pos_bound|]. destruct (n <? 10); [constructor|].
  apply IH. by apply Z.div_pos.
Qed.

Lemma rdigits_val fuel n : 0 ≤ n < 10 ^ Z.of_nat fuel → (0 < fuel)%nat →
  foldl (λ a d, 10 * a + d) 0 (reverse (rdigits fuel n)) = n.
Proof.
  revert n. induction fuel as [|fuel IH]; intros n Hn Hf; [lia|]. cbn [rdigits].
  rewrite reverse_cons, foldl_snoc. pose proof (Z.div_mod n 10 ltac:(lia)) as Hd.
  destruct (Z.ltb_spec n 10) as [Hlt|Hge].
  - cbn. rewrite Z.mod_small by lia. done.
  - rewrite Nat2Z.inj_succ, Z.pow_succ_r in Hn by lia. destruct fuel as [|fuel]; [cbn in Hn; lia|].
    rewrite IH; [lia| |lia]. split; [apply Z.div_pos; lia|]. apply Z.div_lt_upper_bound; lia.
Qed.

Definition no_digit (s : list ascii) : Prop :=
  match s with [] => True | c :: _ => digit_val c = None end.

Lemma read_digits_print ds acc k rest : Forall is_digit ds → no_digit rest →
  read_digits acc k ((digit_char <$> ds) ++ rest)
    = (foldl (λ a d, 10 * a + d) acc ds, (k + length ds)%nat, rest).
Proof.
  intros Hds Hr. revert acc k. induction Hds as [|d ds Hd _ IH]; intros acc k.
  - cbn [fmap list_fmap app foldl length]. rewrite Nat.add_0_r.
    destruct rest as [|c rest]; [done|]. cbn in Hr. cbn [read_digits]. by rewrite Hr.
  - cbn [fmap list_fmap app read_digits foldl length].
    rewrite (proj1 (digit_char_spec d Hd)), IH. f_equal. f_equal. lia.
Qed.

Lemma print_dec_head n : 0 ≤ n → ∃ d s, is_digit d ∧ print_dec n = digit_char d :: s.
Proof.
  intros Hn. pose proof (rdigits_digit 20 n Hn) as Hf. unfold print_dec.
  destruct (reverse (rdigits 20 n)) as [|d ds] eqn:E.
  - apply (f_equal length) in E. rewrite length_reverse in E. done.
  - rewrite <-(reverse_involutive (rdigits 20 n)), E in Hf. rewrite Forall_reverse in Hf.
    apply Forall_cons in Hf as [Hd _]. by eexists _, _.
Qed.

Lemma skip_ws_spaces ws s : Forall (λ c, is_space c = true) ws → skip_ws (ws ++ s) = skip_ws s.
Proof. induction 1 as [|c ws Hc _ IH]; cbn; [done|]. by rewrite Hc. Qed.

(** A number in front of the cursor. *)
Lemma read_number ws n rest : Forall (λ c, is_space c = true) ws → is_word 64 n → no_digit rest →
  ∃ s, read_sign (skip_ws (ws ++ print_dec n ++ rest)) = (false, s) ∧
  ∃ k, read_digits 0 0 s = (n, S k, rest).
Proof.
  intros Hws Hn Hr. rewrite skip_ws_spaces by done.
  destruct (print_dec_head n (proj1 Hn)) as (d & s & Hd & E). rewrite E. cbn [app skip_ws].
  destruct (digit_char_spec d Hd) as (_ & -> & Hm & Hp & _). unfold read_sign.
  rewrite !bool_decide_eq_false_2 by done. eexists. split; [reflexivity|].
  rewrite app_comm_cons, <-E. unfold print_dec.
  rewrite read_digits_print;
    [|apply Forall_reverse, rdigits_digit, Hn|done].
  rewrite rdigits_val by (unfold is_word in Hn; lia). rewrite length_reverse. by eexists.
Qed.

Lemma ext_unsigned_print w old ws n rest : Forall (λ c, is_space c = true) ws → w ≤ 64 → 0 ≤ w →
  is_word w n → no_digit rest →
  ext_unsigned w old (Some (ws ++ print_dec n ++ rest)) = (n, Some rest).
Proof.
  intros Hws Hw Hw0 Hn Hr.
  assert (is_word 64 n) as Hn64.
  { destruct Hn. split; [done|]. pose proof (Z.pow_le_mono_r 2 w 64). lia. }
  destruct (read_number ws n rest Hws Hn64 Hr) as (s & Es & k & Ek).
  unfold ext_unsigned. rewrite Es, Ek. cbn [Nat.eqb].
  by rewrite (proj2 (Z.leb_gt _ _)) by apply Hn.
Qed.

(** ** Lines *)
Lemma parse_binary s : parse_gate (chars "2 1" ++ sp ++ s) =
  (let '(a, ss) := ext_unsigned 32 0 (Some (sp ++ s)) in
   let '(b, ss) := ext_unsigned 32 0 ss in
   let '(o, ss) := ext_unsigned 32 0 ss in
   let '(op, _) := ext_string ss in
   if is_op op ["XOR"; "xor"]%string then Ok (Some (mkGate XOR a b o))
   else if is_op op ["AND"; "and"]%string then Ok (Some (mkGate AND a b o))
   else Throw ("unknown gate: " +:+ str op)).
Proof. reflexivity. Qed.

Lemma parse_unary s : parse_gate (chars "1 1" ++ sp ++ s) =
  (let '(a, ss) := ext_unsigned 32 0 (Some (sp ++ s)) in
   let '(o, ss) := ext_unsigned 32 0 ss in
   let '(op, _) := ext_string ss in
   if is_op op ["INV"; "NOT"; "inv"; "not"]%string then Ok (Some (mkGate INV a a o))
   else Throw ("unknown unary gate: " +:+ str op)).
Proof. reflexivity. Qed.

Lemma ext_wire old n s : is_word 32 n → no_digit s →
  ext_unsigned 32 old (Some (sp ++ print_dec n ++ s)) = (n, Some s).
Proof. intros. apply ext_unsigned_print; [by repeat constructor|lia..|done|done]. Qed.

Lemma parse_print_gate g : gate_printable g → parse_gate (print_gate g) = Ok (Some g).
Proof.
  destruct g as [t a b o]. intros (H0 & H1 & Ho & Hi). cbn in H0, H1, Ho, Hi.
  unfold print_gate. cbn [type in0 in1 gout]. destruct t.
  - change (chars "2 1 ") with (chars "2 1" ++ sp). rewrite <-app_assoc, parse_binary.
    rewrite !ext_wire by done. reflexivity.
  - change (chars "2 1 ") with (chars "2 1" ++ sp). rewrite <-app_assoc, parse_binary.
    rewrite !ext_wire by done. reflexivity.
  - change (chars "1 1 ") with (chars "1 1" ++ sp). rewrite <-app_assoc, parse_unary.
    rewrite !ext_wire by done. rewrite Hi by done. reflexivity.
Qed.

Lemma getlines_line cur s rest : nl ∉ s →
  getlines cur (s ++ nl :: rest) = (reverse cur ++ s) :: getlines [] rest.
Proof.
  revert cur. induction s as [|c s IH]; intros cur Hs; cbn [app getlines].
  - by rewrite bool_decide_eq_true_2, app_nil_r.
  - rewrite not_elem_of_cons in Hs. destruct Hs as [Hc Hs].
    rewrite bool_decide_eq_false_2 by (intros ->; by apply Hc).
    rewrite IH by done. by rewrite reverse_cons, <-app_assoc.
Qed.

Lemma getlines_lines ls : Forall (λ l, nl ∉ l) ls →
  getlines [] (concat ((λ l, l ++ [nl]) <$> ls)) = ls.
Proof.
  induction 1 as [|l ls Hl _ IH]; [done|]. cbn [fmap list_fmap concat].
  rewrite <-app_assoc. cbn [app]. by rewrite getlines_line, IH.
Qed.

Lemma print_dec_no_nl n : 0 ≤ n → nl ∉ print_dec n.
Proof.
  intros Hn (d & Hd & Hin)%list_elem_of_fmap. pose proof (rdigits_digit 20 n Hn) as Hf.
  rewrite elem_of_reverse in Hin. rewrite Forall_forall in Hf.
  destruct (digit_char_spec d (Hf d Hin)) as (_ & _ & _ & _ & Hne). by apply Hne.
Qed.

Lemma print_gate_no_nl g : gate_printable g → nl ∉ print_gate g.
Proof.
  intros ([H0 _] & [H1 _] & [Ho _] & _). unfold print_gate.
  pose proof (print_dec_no_nl _ H0). pose proof (print_dec_no_nl _ H1).
  pose proof (print_dec_no_nl _ Ho).
  assert (nl ∉ sp) by by apply (bool_decide_eq_true_1 _).
  destruct (type g); rewrite !elem_of_app; intuition;
    match goal with Hx : nl ∈ chars _ |- _ => by apply (bool_decide_eq_true_2 _) in Hx end.
Qed.

(** ** The line loop *)
Lemma count_and_cons g gs : count_and (g :: gs) = b2z (is_and g) + count_and gs.
Proof.
  unfold count_and. rewrite filter_cons.
  destruct (is_and g); [rewrite decide_True by done|rewrite decide_False by auto];
    cbn [length b2z]; lia.
Qed.

Lemma foldl_add_gate c gs : 0 ≤ n_and c → 0 ≤ n_xor c →
  n_and c + Z.of_nat (length gs) < 2 ^ 64 → n_xor c + Z.of_nat (length gs) < 2 ^ 64 →
  foldl add_gate c gs = {|
    n_gates := n_gates c; n_wires := n_wires c; n_input0 := n_input0 c;
    n_input1 := n_input1 c; n_output := n_output c;
    n_and := n_and c + count_and gs;
    n_xor := n_xor c + (Z.of_nat (length gs) - count_and gs);
    gates := gates c ++ gs; output_wires := output_wires c |}.
Proof.
  revert c. induction gs as [|g gs IH]; intros c Ha Hx La Lx.
  - cbn. rewrite app_nil_r, !Z.add_0_r. by destruct c.
  - cbn [foldl length] in *.
    assert (0 ≤ n_and (add_gate c g) ≤ n_and c + 1 ∧ 0 ≤ n_xor (add_gate c g) ≤ n_xor c + 1)
      as [? ?] by (cbn; unfold u64; destruct (type g); rewrite ?Z.mod_small; lia).
    rewrite IH by lia. rewrite count_and_cons. unfold add_gate, is_and.
    cbn [n_gates n_wires n_input0 n_input1 n_output n_and n_xor gates output_wires].
    rewrite <-app_assoc. unfold u64.
    f_equal; destruct (type g); cbn [b2z]; rewrite ?Z.mod_small; lia.
Qed.

Lemma load_lines_print c gs : Forall gate_printable gs →
  foldM load_line c (print_gate <$> gs) = Ok (foldl add_gate c gs).
Proof.
  intros Hf. revert c. induction Hf as [|g gs Hg _ IH]; intros c; [done|].
  cbn [fmap list_fmap foldM foldl].
  assert (load_line c (print_gate g) = Ok (add_gate c g)) as ->
    by (unfold load_line; by rewrite parse_print_gate).
  rewrite bind_ok. apply IH.
Qed.

(** ** Loading what was printed *)
Lemma ext_u64_print old ws n rest : Forall (λ c, is_space c = true) ws → is_word 64 n →
  no_digit rest → ext_unsigned 64 old (Some (ws ++ print_dec n ++ rest)) = (n, Some rest).
Proof. intros. by apply ext_unsigned_print. Qed.

Lemma ext_u64_first old n rest : is_word 64 n →
  no_digit rest → ext_unsigned 64 old (Some (print_dec n ++ rest)) = (n, Some rest).
Proof. apply (ext_u64_print old []). constructor. Qed.

Lemma ext_u64_literal d old ws rest : is_digit d → Forall (λ c, is_space c = true) ws →
  no_digit rest → ext_unsigned 64 old (Some (ws ++ [digit_char d] ++ rest)) = (d, Some rest).
Proof.
  intros Hd Hws Hr. replace [digit_char d] with (print_dec d).
  - apply ext_u64_print; [done| |done]. destruct Hd. unfold is_word. lia.
  - unfold print_dec. cbn [rdigits]. destruct Hd. rewrite (proj2 (Z.ltb_lt d 10)) by done.
    by rewrite Z.mod_small.
Qed.

(** C30. [load_bristol] inverts the printer of the format: every circuit whose
    wire numbers and sizes fit their types, and whose counters and output wires
    are the ones of its gates, is read back from its printed text. *)
Theorem load_print_bristol path c : bristol_wf c →
  load_bristol path (Some (print_bristol c)) = Ok c.
Proof.
  intros [Hg Hw Hi0 Hi1 Ho Hgs Hn Ha Hx Hout].
  assert (Forall (λ c, is_space c = true) sp) as Hsp by by repeat constructor.
  assert (Forall (λ c, is_space c = true) [nl]) as Hnl by by repeat constructor.
  unfold load_bristol, print_bristol, print_header.
  change (chars "2 ") with ([digit_char 2] ++ sp). change (chars "1 ") with ([digit_char 1] ++ sp).
  rewrite <-!app_assoc.
  rewrite ext_u64_first, ext_u64_print, ext_u64_literal, !ext_u64_print by done.
  rewrite ext_u64_literal, ext_u64_print by done. cbn [Z.eqb Pos.eqb negb].
  change (getlines [] ([nl] ++ [nl] ++ ?l)) with ([] :: [] :: getlines [] l). cbn [tail].
  change ((λ g, print_gate g ++ [nl]) <$> gates c)
    with ((λ l, l ++ [nl]) ∘ print_gate <$> gates c).
  rewrite list_fmap_compose, getlines_lines.
  2: { apply Forall_fmap. eapply Forall_impl; [exact Hgs|]. apply print_gate_no_nl. }
  change (foldM load_line ?c0 ([] :: ?l)) with (foldM load_line c0 l).
  rewrite load_lines_print by done.
  destruct Hg. rewrite foldl_add_gate by (cbn; lia). rewrite bind_ok.
  cbn [n_gates n_wires n_input0 n_input1 n_output n_and n_xor gates output_wires app].
  rewrite Hn, Z.eqb_refl. cbn [negb]. rewrite <-Hout, !Z.add_0_l, <-Hx, <-Ha.
  by destruct c.
Qed.

(** ** What a load returns *)
Lemma ext_unsigned_word w old s : 0 ≤ w → is_word w old → is_word w (ext_unsigned w old s).1.
Proof.
  intros Hw Ho. pose proof (Z.pow_pos_nonneg 2 w ltac:(lia) Hw).
  unfold ext_unsigned. destruct s as [s|]; [|done].
  destruct (read_sign _) as [neg s1]. destruct (read_digits 0 0 s1) as [[m n] rest] eqn:E.
  destruct (Nat.eqb n 0); [cbn; unfold is_word; lia|].
  destruct (Z.leb_spec (2 ^ w) m); [cbn; unfold is_word; lia|].
  cbn [fst]. destruct neg; [by apply is_word_mod|].
  assert (∀ acc k s, 0 ≤ acc → 0 ≤ (read_digits acc k s).1.1) as Hnn.
  { clear. intros acc k s. revert acc k. induction s as [|c s IH]; intros acc k Ha; [done|].
    cbn [read_digits]. unfold digit_val. destruct (_ && _) eqn:E; [|done]. apply IH.
    rewrite andb_true_iff, Z.leb_le in E. lia. }
  specialize (Hnn 0 0%nat s1 ltac:(lia)). rewrite E in Hnn. cbn in Hnn. unfold is_word. lia.
Qed.

Lemma parse_gate_printable line g : parse_gate line = Ok (Some g) → gate_printable g.
Proof.
  assert (∀ old s, is_word 32 old → is_word 32 (ext_unsigned 32 old s).1) as Hu
    by (intros; by apply ext_unsigned_word).
  unfold parse_gate. destruct line as [|c line]; [done|].
  destruct (bool_decide _); [done|].
  destruct (ext_int 0 _) as [nin ss]. destruct (ext_int 0 ss) as [nout [s|]]; [|done].
  destruct (_ && _).
  - destruct (ext_unsigned 32 0 (Some s)) as [a s1] eqn:E1.
    destruct (ext_unsigned 32 0 s1) as [b s2] eqn:E2.
    destruct (ext_unsigned 32 0 s2) as [o s3] eqn:E3. destruct (ext_string s3) as [op s4].
    pose proof (Hu 0 (Some s) ltac:(done)) as H1. pose proof (Hu 0 s1 ltac:(done)) as H2.
    pose proof (Hu 0 s2 ltac:(done)) as H3. rewrite E1 in H1. rewrite E2 in H2. rewrite E3 in H3.
    destruct (is_op op _); [by intros [= <-]|]. by destruct (is_op op _); [intros [= <-]|].
  - destruct (_ && _); [|done].
    destruct (ext_unsigned 32 0 (Some s)) as [a s1] eqn:E1.
    destruct (ext_unsigned 32 0 s1) as [o s2] eqn:E2. destruct (ext_string s2) as [op s3].
    pose proof (Hu 0 (Some s) ltac:(done)) as H1. pose proof (Hu 0 s1 ltac:(done)) as H2.
    rewrite E1 in H1. rewrite E2 in H2. by destruct (is_op op _); [intros [= <-]|].
Qed.

Lemma load_lines_inv c lines c' : foldM load_line c lines = Ok c' →
  ∃ gs, Forall gate_printable gs ∧ c' = foldl add_gate c gs.
Proof.
  revert c. induction lines as [|l lines IH]; intros c E; cbn [foldM] in E.
  - injection E as <-. by exists [].
  - bind_inv E. unfold load_line in E0. bind_inv E0.
    destruct (IH _ E) as (gs & Hgs & ->). destruct a0 as [g|]; injection E0 as <-.
    + exists (g :: gs). split; [|done]. constructor; [by eapply parse_gate_printable|done].
    + by exists gs.
Qed.

Lemma foldl_add_gate_frame c gs :
  n_gates (foldl add_gate c gs) = n_gates c ∧ gates (foldl add_gate c gs) = gates c ++ gs.
Proof.
  revert c. induction gs as [|g gs IH]; intros c; cbn [foldl]; [by rewrite app_nil_r|].
  destruct (IH (add_gate c g)) as [-> ->]. cbn. by rewrite <-app_assoc.
Qed.

Lemma load_bristol_wf path file c : load_bristol path (Some file) = Ok c → bristol_wf c.
Proof.
  intros E. unfold load_bristol in E.
  destruct (ext_unsigned 64 0 (Some file)) as [ng s1] eqn:E1.
  destruct (ext_unsigned 64 0 s1) as [nw s2] eqn:E2.
  destruct (ext_unsigned 64 0 s2) as [nin s3] eqn:E3.
  destruct (ext_unsigned 64 0 s3) as [i0 s4] eqn:E4.
  destruct (ext_unsigned 64 0 s4) as [i1 s5] eqn:E5.
  destruct (negb _); [done|].
  destruct (ext_unsigned 64 0 s5) as [nout s6] eqn:E6.
  destruct (ext_unsigned 64 0 s6) as [no s7] eqn:E7.
  destruct (negb _); [done|]. bind_inv E.
  destruct (Z.eqb_spec (Z.of_nat (length (gates a))) (n_gates a)) as [Hn|]; [|done].
  injection E as <-.
  assert (∀ s n s', ext_unsigned 64 0 s = (n, s') → is_word 64 n) as Hu.
  { intros s n s' Es. pose proof (ext_unsigned_word 64 0 s ltac:(lia) ltac:(done)) as H.
    by rewrite Es in H. }
  destruct (load_lines_inv _ _ _ E0) as (gs & Hgs & ->).
  destruct (foldl_add_gate_frame (mkCircuit ng nw i0 i1 no 0 0 [] []) gs) as [Eg El].
  rewrite Eg, El in Hn. cbn in Hn. pose proof (Hu _ _ _ E1) as [_ Hlt].
  rewrite foldl_add_gate by (cbn; lia).
  constructor; cbn [n_gates n_wires n_input0 n_input1 n_output n_and n_xor gates output_wires app];
    eauto; lia.
Qed.

(** C31. Every circuit [load_bristol] returns is well-formed as a text: its sizes
    fit their types, it holds as many gates as the header announces, [n_and] and
    [n_xor] count the AND gates and the others, wire numbers fit 32 bits, an
    inverter reads one wire twice; and when the header is consistent the outputs
    are the last [n_output] wires. *)
Theorem load_bristol_sound path file c : load_bristol path (Some file) = Ok c →
  bristol_wf c ∧
  (n_output c ≤ n_wires c ≤ 2 ^ 32 →
   output_wires c = seqZ (n_wires c - n_output c) (n_output c)).
Proof.
  intros E. pose proof (load_bristol_wf path file c E) as Hw.
  split; [done|]. intros Hb. rewrite (bw_outs c Hw).
  transitivity (Z.add (n_wires c - n_output c) <$> seqZ 0 (n_output c)).
  - apply list_fmap_ext. intros i x Hx%list_elem_of_lookup_2%elem_of_seqZ.
    unfold u32, u64. rewrite (Z.mod_small (n_wires c - n_output c)) by lia.
    rewrite (Z.mod_small _ (2 ^ 64)), Z.mod_small; lia.
  - rewrite fmap_add_seqZ. f_equal. lia.
Qed.

(** ** The tables of a loaded circuit *)
Lemma garble_gate_tables aes delta st g st' : garble_gate aes delta st g = Ok st' →
  Z.of_nat (length (gs_tables st')) = Z.of_nat (length (gs_tables st)) + b2z (is_and g) ∧
  Z.of_nat (length (gs_wit st')) = Z.of_nat (length (gs_wit st)) + b2z (is_and g).
Proof.
  intros E. unfold garble_gate in E. unfold is_and. destruct (type g).
  - bind_inv E. bind_inv E. bind_inv E. injection E as <-. cbn. lia.
  - bind_inv E. bind_inv E. destruct (garble_and _ _ _ _ _) as [[w0 tab] wit].
    bind_inv E. injection E as <-. cbn. rewrite !length_app. cbn. lia.
  - bind_inv E. bind_inv E. injection E as <-. cbn. lia.
Qed.

Lemma garble_gates_tables aes delta gs st st' : foldM (garble_gate aes delta) st gs = Ok st' →
  Z.of_nat (length (gs_tables st')) = Z.of_nat (length (gs_tables st)) + count_and gs ∧
  Z.of_nat (length (gs_wit st')) = Z.of_nat (length (gs_wit st)) + count_and gs.
Proof.
  revert st. induction gs as [|g gs IH]; intros st E; cbn [foldM] in E.
  - injection E as <-. unfold count_and. cbn. lia.
  - bind_inv E. destruct (IH _ E) as [? ?]. destruct (garble_gate_tables _ _ _ _ _ E0) as [? ?].
    rewrite count_and_cons. lia.
Qed.

(** Garbling a loaded circuit yields one table and one STARK witness row per
    AND gate, as many as the [n_and] of the loader, and one decoding bit per
    output. *)
Theorem loaded_circuit_tables {G} `{RandGen G} `{Sha256} path file c key aes (rng : G) gr rng' :
  load_bristol path (Some file) = Ok c →
  garble_circuit c key aes rng = Ok (gr, rng') →
  Z.of_nat (length (gr_tables gr)) = n_and c ∧
  Z.of_nat (length (gr_and_wit gr)) = n_and c ∧
  Z.of_nat (length (gr_out_decode gr)) = n_output c.
Proof.
  intros El E. pose proof (load_bristol_wf path file c El) as Hw.
  unfold garble_circuit in E. destruct (make_delta rng) as [delta rng1].
  bind_inv E. destruct a as [w0 rng2]. bind_inv E. bind_inv E. bind_inv E.
  destruct (merkle_root_pairs _) as [root|]; [|done]. injection E as <- <-.
  cbn [gr_tables gr_and_wit gr_out_decode]. rewrite (bw_and c Hw).
  destruct (garble_gates_tables _ _ _ _ _ E1) as [-> ->]. cbn [gs_tables gs_wit length].
  apply mapM_out_length in E2. rewrite E2, length_seqZ.
  destruct (bw_out c Hw). lia.
Qed.

(** The loader accepts wire numbers no wire has. *)
Definition bad_wire_text : list ascii :=
  chars "1 3" ++ [nl] ++ chars "2 1 1" ++ [nl] ++ chars "1 1" ++ [nl] ++
  chars "2 1 0 9 2 AND".

Lemma bad_wire_garble {G} `{RandGen G} `{Sha256} key aes (rng : G) :
  garble_circuit (mkCircuit 1 3 1 1 1 1 0 [mkGate AND 0 9 2] [2]) key aes rng = UB.
Proof.
  unfold garble_circuit. pose proof (make_delta_wf rng) as [Hd Hs].
  destruct (make_delta rng) as [delta rng1]. cbn [fst] in Hd, Hs.
  cbn [n_wires n_input0 n_input1 gates].
  change (u64 (1 + 1)) with (Z.of_nat 2). change (Z.to_nat 3) with 3%nat.
  rewrite input_loop, bind_ok by (done || lia). cbv beta iota.
  pose proof (fresh_labels_wf delta 2 rng1 Hd Hs) as [Hl _].
  destruct (fresh_labels delta 2 rng1) as [l rng2]. cbn [fst snd] in *.
  destruct l as [|l0 [|l1 [|]]]; try discriminate Hl. reflexivity.
Qed.

(** The loader does not check wire numbers: there is a text it accepts whose
    circuit reads wire 9 of 3, so that the plaintext evaluation and the garbling
    both access memory out of bounds. *)
Theorem load_bristol_unchecked_wires :
  ∃ c, load_bristol "bad.txt" (Some bad_wire_text) = Ok c ∧
    eval_circuit_plain c [0; 0] = UB ∧
    ∀ key aes rng, @garble_circuit Z lcg toy_sha256 c key aes rng = UB.
Proof.
  exists (mkCircuit 1 3 1 1 1 1 0 [mkGate AND 0 9 2] [2]).
  split; [by vm_compute|]. split; [by vm_compute|]. apply bad_wire_garble.
Qed.

(** ** Witnesses *)
Lemma adder_bristol_wf : bristol_wf adder.
Proof.
  constructor; apply (bool_decide_eq_true_1 _); by vm_compute.
Qed.

Lemma load_print_bristol_witness : load_bristol "adder.txt" (Some (print_bristol adder)) = Ok adder.
Proof. apply (load_print_bristol "adder.txt" adder adder_bristol_wf). Defined.

Lemma load_bristol_sound_witness :
  bristol_wf adder ∧ (3 ≤ 12 ≤ 2 ^ 32 → output_wires adder = seqZ 9 3).
Proof.
  apply (load_bristol_sound "adder.txt" (print_bristol adder) adder). by vm_compute.
Defined.

Lemma loaded_circuit_tables_witness :
  Z.of_nat (length (gr_tables adder_gr)) = 3 ∧ Z.of_nat (length (gr_and_wit adder_gr)) = 3 ∧
  Z.of_nat (length (gr_out_decode adder_gr)) = 3.
Proof.
  apply (@loaded_circuit_tables Z lcg toy_sha256 "adder.txt" (print_bristol adder) adder
           (block_of 5) (Portable.FixedKeyAES (block_of 5)) 1 adder_gr adder_run.2);
    [by vm_compute|apply adder_garbled].
Defined.
