(* ===== verification/PlaintextOprf.v ===== *)
(** * The plaintext OPRF

    [voprf-bench/plaintext_oprf.hpp]: F_k(x) = H2(x, AES_k(H1(x))), the key
    commitment of the protocol and the hexadecimal form of a digest. *)

From Stdlib Require Import Ascii.
From S2P Require Import Prelude Xor Block Aes GcMmo Merkle Concrete.

Definition array32 := list Z.

Section oprf.
Context `{Sha256}.

Definition sha256 (data : list Z) : array32 := sha256_bytes data.

(** SHA-256 truncated to 16 bytes. *)
Definition H1 (x : list Z) : Block := take 16 (sha256 x).

Definition H2 (x : list Z) (z : Block) : array32 :=
  let buf := x in
  let buf := buf ++ z in
  sha256 buf.

Definition aes_encrypt (key pt : Block) : Block :=
  let aes := Portable.FixedKeyAES key in Portable.encrypt aes pt.

(** The eleven round keys. *)
Definition key_schedule (key : Block) : list Block := take 11 (Portable.FixedKeyAES key).

Definition F_k (k : Block) (x : list Z) : array32 :=
  let xp := H1 x in
  let z := aes_encrypt k xp in
  H2 x z.

(** The block of counter [i] that is encrypted under the committed key. *)
Definition commitment_point (i : Z) : Block :=
  <[1%nat := u8 (Z.land (Z.shiftr i 8) 255)]> (<[0%nat := u8 (Z.land i 255)]> zero_block).

Definition key_commitment (k : Block) (T : nat) : list Z :=
  let cm := sha256 k in
  let aes := Portable.FixedKeyAES k in
  foldl (λ cm i, cm ++ Portable.encrypt aes (commitment_point i)) cm (seqZ 0 (Z.of_nat T)).
End oprf.

Definition hexd : list ascii := String.list_ascii_of_string "0123456789abcdef".

#[export] Instance ascii_inhabited : Inhabited ascii := populate Ascii.zero.

Definition hex_byte (b : Z) : list ascii :=
  [hexd !!! Z.to_nat (Z.shiftr b 4); hexd !!! Z.to_nat (Z.land b 15)].

Definition hex32 (a : array32) : list ascii := concat (hex_byte <$> a).

(** ** Facts *)
Section facts.
Context `{Sha256} `{!Sha256Laws}.

Lemma H1_wf x : block_wf (H1 x).
Proof.
  split; [unfold H1, sha256; rewrite length_take, sha256_length; done|].
  apply Forall_take, sha256_u8.
Qed.

Lemma commitment_point_wf i : block_wf (commitment_point i).
Proof.
  unfold commitment_point. split; [by rewrite !length_insert|].
  apply Forall_insert; [|auto with word]. apply Forall_insert; [apply zero_block_wf|auto with word].
Qed.

Lemma key_commitment_spec k T :
  key_commitment k T = sha256 k ++
    concat ((λ i, Portable.encrypt (Portable.FixedKeyAES k) (commitment_point i)) <$>
              seqZ 0 (Z.of_nat T)).
Proof.
  unfold key_commitment. generalize (sha256 k) as o. generalize (seqZ 0 (Z.of_nat T)) as l.
  induction l as [|i l IH]; intros o; cbn [foldl fmap list_fmap concat].
  - by rewrite app_nil_r.
  - by rewrite IH, <-app_assoc.
Qed.

Lemma concat_length {A} (l : list (list A)) n : Forall (λ x, length x = n) l →
  length (concat l) = (length l * n)%nat.
Proof. induction 1 as [|x l Hx _ IH]; cbn; [done|]. rewrite length_app. lia. Qed.

Lemma key_commitment_length k T : block_wf k → length (key_commitment k T) = (32 + T * 16)%nat.
Proof.
  intros Hk. rewrite key_commitment_spec, length_app. unfold sha256.
  rewrite sha256_length, (concat_length _ 16).
  - by rewrite length_fmap, length_seqZ, Nat2Z.id.
  - apply Forall_fmap, Forall_forall. intros i _.
    apply (encrypt_wf _ _ (FixedKeyAES_wf k Hk) (commitment_point_wf i)).
Qed.

(** The points of different counters below 2^16 differ. *)
Lemma commitment_point_inj i j : 0 ≤ i < 2 ^ 16 → 0 ≤ j < 2 ^ 16 →
  commitment_point i = commitment_point j → i = j.
Proof.
  intros Hi Hj E. unfold commitment_point, zero_block in E. cbn in E. injection E as E0 E1.
  assert (∀ x, u8 (Z.land x 255) = x mod 256) as Eu.
  { intros x. unfold u8. change 255 with (Z.ones 8). rewrite Z.land_ones by lia. apply Zmod_mod. }
  rewrite !Eu in E0, E1. rewrite !Z.shiftr_div_pow2 in E1 by lia.
  change (2 ^ 8) with 256 in E1. rewrite !Z.mod_small in E1.
  - pose proof (Z_div_mod_eq_full i 256). pose proof (Z_div_mod_eq_full j 256). lia.
  - split; [apply Z.div_pos; lia|apply Z.div_lt_upper_bound; lia].
  - split; [apply Z.div_pos; lia|apply Z.div_lt_upper_bound; lia].
Qed.
End facts.

Lemma aes_encrypt_inj k x y : block_wf k → block_wf x → block_wf y →
  aes_encrypt k x = aes_encrypt k y → x = y.
Proof.
  intros Hk Hx Hy E. rewrite <-(decrypt_encrypt k x), <-(decrypt_encrypt k y) by done.
  unfold aes_encrypt in E. by rewrite E.
Qed.

(** The key commitment binds the key: two keys with the same commitment are
    equal, or different with one digest; it has 32 + 16 T bytes, and up to
    2^16 points its ciphertexts are pairwise different. *)
Theorem key_commitment_binding `{Sha256} `{!Sha256Laws} k k' T : block_wf k → block_wf k' →
  length (key_commitment k T) = (32 + T * 16)%nat ∧
  (key_commitment k T = key_commitment k' T → k = k' ∨ collide [k] [k']) ∧
  (∀ i j, 0 ≤ i < 2 ^ 16 → 0 ≤ j < 2 ^ 16 →
     aes_encrypt k (commitment_point i) = aes_encrypt k (commitment_point j) → i = j).
Proof.
  intros Hk Hk'. split; [by apply key_commitment_length|]. split.
  - rewrite !key_commitment_spec. intros E. unfold sha256 in E.
    apply app_inj_1 in E as [E _]; [|by rewrite !sha256_length]. by apply sha256_inj.
  - intros i j Hi Hj E. apply commitment_point_inj; [done..|].
    by apply (aes_encrypt_inj k); [|apply commitment_point_wf|apply commitment_point_wf|].
Qed.

Lemma key_commitment_binding_witness :
  length (@key_commitment toy_sha256 (block_of 1) 128) = 2080%nat.
Proof.
  apply (@key_commitment_binding toy_sha256 toy_sha256_laws (block_of 1) (block_of 2) 128
           (block_of_wf 1) (block_of_wf 2)).
Defined.

(** ** Hexadecimal *)
Definition hex_val (c : ascii) : Z :=
  let n := Z.of_N (Ascii.N_of_ascii c) in if n <? 97 then n - 48 else n - 87.

Fixpoint unhex (s : list ascii) : list Z :=
  match s with
  | c :: d :: s => 16 * hex_val c + hex_val d :: unhex s
  | _ => []
  end.

Lemma hex_byte_val b : is_u8 b →
  16 * hex_val (hexd !!! Z.to_nat (Z.shiftr b 4)) + hex_val (hexd !!! Z.to_nat (Z.land b 15)) = b.
Proof.
  intros Hb. apply (bool_decide_eq_true_1 _). revert b Hb. apply u8_forall. by vm_compute.
Qed.

(** [hex32] loses nothing: the 64 characters it prints determine the digest. *)
Theorem hex32_roundtrip a : Forall is_u8 a →
  unhex (hex32 a) = a ∧ length (hex32 a) = (2 * length a)%nat.
Proof.
  intros Hf. unfold hex32. induction Hf as [|b a Hb _ [IH1 IH2]]; [done|].
  pose proof (hex_byte_val b Hb) as Hv. cbn [fmap list_fmap concat].
  unfold hex_byte at 1 3. cbn [app unhex length].
  split; [by rewrite Hv, IH1|rewrite IH2; lia].
Qed.

Lemma hex32_roundtrip_witness : unhex (hex32 (replicate 32 0xa7)) = replicate 32 0xa7.
Proof. apply (hex32_roundtrip (replicate 32 0xa7)). by apply Forall_replicate. Defined.
