(* ===== verification/ProbeResilient.v ===== *)
(** * Probe-resilient input sharing

    [voprf-bench/probe_resilient.hpp]: every input bit is split into two XOR
    shares, every input label into two share labels; the client reconstructs
    the label of a bit from the labels of its shares. *)

From S2P Require Import Prelude Xor Block GcMmo Concrete.

Section probe_resilient.
Context {G : Type} `{RandGen G}.

(** [std::vector<u8> shares(bits.size() * 2)], filled pair by pair. *)
Fixpoint encode_shares (bits : list Z) (rng : G) : list Z * G :=
  match bits with
  | [] => ([], rng)
  | bit :: bits =>
      let '(x, rng) := rand_next rng in
      let r := u8 (Z.land x 1) in
      let '(shares, rng) := encode_shares bits rng in
      (r :: u8 (Z.lxor r (Z.land bit 1)) :: shares, rng)
  end.

Record ShareLabelPair := mkShare { s0_0 : Block; s1_0 : Block }.

Definition make_share_labels (wire0 delta : Block) (rng : G) : ShareLabelPair * G :=
  let '(s0, rng) := random_block rng in
  let s0 := if lsb s0 then xor_block s0 delta else s0 in
  let s1 := xor_block wire0 s0 in
  (mkShare s0 s1, rng).

Definition reconstruct_label (lab0 lab1 : Block) : Block := xor_block lab0 lab1.

(** ** Facts *)

Lemma encode_shares_length bits rng : length (encode_shares bits rng).1 = (2 * length bits)%nat.
Proof.
  revert rng. induction bits as [|b bits IH]; intros rng; [done|]. cbn [encode_shares].
  destruct (rand_next rng) as [x rng1]. specialize (IH rng1).
  destruct (encode_shares bits rng1) as [shares rng2]. cbn [fst length] in *. lia.
Qed.

(** The shares of the [i]-th bit. *)
Lemma encode_shares_bits (bits : list bool) rng i b : bits !! i = Some b →
  ∃ s0 s1, (encode_shares (b2z <$> bits) rng).1 !! (2 * i)%nat = Some (b2z s0) ∧
    (encode_shares (b2z <$> bits) rng).1 !! (2 * i + 1)%nat = Some (b2z s1) ∧ xorb s0 s1 = b.
Proof.
  revert rng i. induction bits as [|b' bits IH]; intros rng i Hi; [done|].
  cbn [fmap list_fmap encode_shares]. destruct (rand_next rng) as [x rng1].
  specialize (IH rng1). destruct (encode_shares (b2z <$> bits) rng1) as [shares rng2] eqn:E.
  cbn [fst] in *. destruct i as [|i].
  - injection Hi as ->. exists (Z.odd x), (xorb (Z.odd x) b).
    assert (u8 (Z.land x 1) = b2z (Z.odd x)) as Ex.
    { change 1 with (Z.ones 1). rewrite Z.land_ones by lia. change (2 ^ 1) with 2.
      rewrite Zmod_odd. by destruct (Z.odd x). }
    cbn. rewrite Ex. split_and!; [done| |by destruct (Z.odd x), b].
    by destruct (Z.odd x), b.
  - destruct (IH i Hi) as (s0 & s1 & E0 & E1 & Ex). exists s0, s1.
    replace (2 * S i)%nat with (S (S (2 * i))) by lia.
    replace (S (S (2 * i)) + 1)%nat with (S (S (2 * i + 1))) by lia. done.
Qed.

Lemma make_share_labels_wf wire0 delta rng : block_wf wire0 → block_wf delta →
  let p := (make_share_labels wire0 delta rng).1 in
  block_wf (s0_0 p) ∧ s1_0 p = xor_block wire0 (s0_0 p) ∧
  (lsb delta = true → lsb (s0_0 p) = false).
Proof.
  intros Hw Hd. unfold make_share_labels. pose proof (random_block_wf rng) as Hb.
  destruct (random_block rng) as [s0 rng']; cbn [fst] in *. cbn [s0_0 s1_0].
  destruct (lsb s0) eqn:E; [|done]. split; [by apply xor_block_wf|]. split; [done|].
  intros Hs. pose proof (xsig_xor (L := Block) s0 delta Hb Hd) as Hx.
  change (lsb (xor_block s0 delta) = xorb (lsb s0) (lsb delta)) in Hx. by rewrite Hx, E, Hs.
Qed.

(** The labels of two shares reconstruct the label of their XOR. *)
Lemma reconstruct_share_labels wire0 delta rng b0 b1 : block_wf wire0 → block_wf delta →
  let p := (make_share_labels wire0 delta rng).1 in
  reconstruct_label (label (s0_0 p) delta b0) (label (s1_0 p) delta b1)
    = label wire0 delta (xorb b0 b1).
Proof.
  intros Hw Hd. destruct (make_share_labels_wf wire0 delta rng Hw Hd) as (Hs & E & _).
  cbn zeta. rewrite E. unfold reconstruct_label. set (s0 := s0_0 _) in *.
  destruct b0, b1; cbn [label xorb]; block_solve.
Qed.

(** Input sharing is correct: from the labels that OT delivers for the two
    shares of an input bit, the client reconstructs the label of the bit, for
    every random tape of the client and of the server. *)
Theorem shared_input_label wire0 delta bits rng rng' i (b : bool) :
  block_wf wire0 → block_wf delta → bits !! i = Some b →
  let p := (make_share_labels wire0 delta rng).1 in
  let shares := (encode_shares (b2z <$> bits) rng').1 in
  reconstruct_label (label_for_bit (s0_0 p) delta (shares !!! (2 * i)%nat))
                    (label_for_bit (s1_0 p) delta (shares !!! (2 * i + 1)%nat))
    = label_for_bit wire0 delta (b2z b).
Proof.
  intros Hw Hd Hi. destruct (encode_shares_bits bits rng' i b Hi) as (x0 & x1 & E0 & E1 & <-).
  cbn zeta. rewrite (list_lookup_total_correct _ _ _ E0), (list_lookup_total_correct _ _ _ E1).
  rewrite !label_for_bit_label. by apply reconstruct_share_labels.
Qed.
End probe_resilient.

Lemma shared_input_label_witness :
  let p := (@make_share_labels Z lcg (block_of 77) (block_of 99) 3).1 in
  let shares := (@encode_shares Z lcg (b2z <$> [false; true]) 4).1 in
  reconstruct_label (label_for_bit (s0_0 p) (block_of 99) (shares !!! 2%nat))
                    (label_for_bit (s1_0 p) (block_of 99) (shares !!! 3%nat))
    = label_for_bit (block_of 77) (block_of 99) 1.
Proof.
  apply (@shared_input_label Z lcg (block_of 77) (block_of 99) [false; true] 3 4 1 true
           (block_of_wf 77) (block_of_wf 99) eq_refl).
Defined.
