(* ===== verification/VoprfSer.v ===== *)
(** * Protocol messages

    [voprf-bench/voprf_ser.hpp]: the byte strings of the garbled tables, of the
    STARK witness and of the public binding.  Readers pass an offset along; a
    read past the end of the vector is undefined behaviour, as the code checks
    no bound.  [Codec] is the interface the message formats are built on: an
    encoder, a reader, and the two laws that relate them. *)

From S2P Require Import Prelude Xor Block Aes Circuit GcMmo.

(** ** Readers *)

(** A reader gets the vector and the offset [size_t& off].  Offsets stay below
    the size of the vector, so they do not wrap. *)
Definition parser (A : Type) : Type := list Z → Z → outcome (A * Z).

#[export] Instance parser_ret : MRet parser := λ A a inp off, Ok (a, off).
#[export] Instance parser_bind : MBind parser := λ A B f p inp off,
  match p inp off with
  | Ok (a, off) => f a inp off
  | Throw e => Throw e
  | UB => UB
  end.

(** [memcpy(dst, in.data() + off, n); off += n] *)
Definition take_bytes (n : nat) : parser (list Z) := λ inp off,
  if (off <? 0) || (Z.of_nat (length inp) <? off + Z.of_nat n) then UB
  else Ok (take n (drop (Z.to_nat off) inp), off + Z.of_nat n).

(** [std::vector::resize(n)] of elements of [size] bytes: an allocation beyond
    the maximal size throws.  Memory is otherwise unbounded. *)
Definition resize (size n : Z) : parser () := λ inp off,
  if (2 ^ 63 - 1) / size <? n then Throw "vector::_M_default_append" else Ok ((), off).

(** [for (i < n) v[i] = take(in, off)] *)
Fixpoint take_n {A} (n : nat) (p : parser A) : parser (list A) :=
  match n with
  | O => mret []
  | S n => x ← p; xs ← take_n n p; mret (x :: xs)
  end.

(** *** Laws of readers *)

(** What a reader does on a truncated vector: it reads past the end exactly when
    the cut is before the offset it would have reached. *)
Definition prefix_law {A} (p : parser A) : Prop := ∀ inp off a off',
  0 ≤ off → p inp off = Ok (a, off') →
  off ≤ off' ≤ Z.max off (Z.of_nat (length inp)) ∧
  ∀ k : nat, off ≤ Z.of_nat k → (k ≤ length inp)%nat →
    p (take k inp) off = if Z.of_nat k <? off' then UB else Ok (a, off').

Create HintDb parser.

Lemma prefix_ret {A} (a : A) : prefix_law (mret a).
Proof.
  intros inp off a' off' H0 [= -> ->]. split; [lia|]. intros k Hk _.
  by rewrite (proj2 (Z.ltb_ge _ _)) by lia.
Qed.

Lemma prefix_bind {A B} (p : parser A) (f : A → parser B) :
  prefix_law p → (∀ a, prefix_law (f a)) → prefix_law (p ≫= f).
Proof.
  intros Hp Hf inp off b off2 H0 E. unfold mbind, parser_bind in E.
  destruct (p inp off) as [[a off1]|e|] eqn:Ep; [|done..].
  destruct (Hp inp off a off1 H0 Ep) as [Hle Hk].
  destruct (Hf a inp off1 b off2 ltac:(lia) E) as [Hle2 Hk2].
  split; [lia|]. intros k Hko Hkl. unfold mbind, parser_bind. rewrite Hk by done.
  destruct (Z.ltb_spec (Z.of_nat k) off1).
  - by rewrite (proj2 (Z.ltb_lt _ _)) by lia.
  - by apply Hk2.
Qed.

Lemma prefix_take_bytes n : prefix_law (take_bytes n).
Proof.
  intros inp off a off' H0 E. unfold take_bytes in *.
  rewrite (proj2 (Z.ltb_ge off 0)) in * by done. cbn [orb] in *.
  destruct (Z.ltb_spec (Z.of_nat (length inp)) (off + Z.of_nat n)); [done|].
  injection E as <- <-. split; [lia|]. intros k Hk Hkl.
  rewrite length_take, Nat.min_l by done.
  destruct (Z.ltb_spec (Z.of_nat k) (off + Z.of_nat n)); [done|].
  f_equal. f_equal. rewrite skipn_firstn_comm, take_take. f_equal. lia.
Qed.

Lemma prefix_resize size n : prefix_law (resize size n).
Proof.
  intros inp off a off' H0 E. unfold resize in *. destruct (_ <? n); [done|].
  injection E as <- <-. split; [lia|]. intros k Hk _.
  by rewrite (proj2 (Z.ltb_ge _ _)) by lia.
Qed.

#[export] Hint Resolve prefix_ret prefix_bind prefix_take_bytes prefix_resize : parser.

Lemma prefix_take_n {A} n (p : parser A) : prefix_law p → prefix_law (take_n n p).
Proof. intros Hp. induction n; cbn [take_n]; auto with parser. Qed.
#[export] Hint Resolve prefix_take_n : parser.

(** [reads p l a]: in front of any text, [p] reads [l] as [a]. *)
Definition reads {A} (p : parser A) (l : list Z) (a : A) : Prop := ∀ pre post,
  p (pre ++ l ++ post) (Z.of_nat (length pre))
    = Ok (a, Z.of_nat (length pre) + Z.of_nat (length l)).

Lemma reads_ret {A} (a : A) : reads (mret a) [] a.
Proof. intros pre post. cbn. unfold mret, parser_ret. f_equal. f_equal. lia. Qed.

Lemma reads_bind {A B} (p : parser A) (f : A → parser B) l1 l2 a b :
  reads p l1 a → reads (f a) l2 b → reads (p ≫= f) (l1 ++ l2) b.
Proof.
  intros Hp Hf pre post. unfold mbind, parser_bind.
  rewrite <-app_assoc, Hp. specialize (Hf (pre ++ l1) post).
  rewrite <-app_assoc, length_app, Nat2Z.inj_add in Hf. rewrite Hf.
  f_equal. f_equal. rewrite length_app. lia.
Qed.

(** The last step of a reader, and a step that reads nothing. *)
Lemma reads_last {A B} (p : parser A) (f : A → B) l a :
  reads p l a → reads (p ≫= λ x, mret (f x)) l (f a).
Proof. intros Hp. rewrite <-(app_nil_r l). apply (reads_bind _ _ _ _ a); [done|apply reads_ret]. Qed.

Lemma reads_silent {A B} (p : parser A) (f : A → parser B) l a b :
  reads p [] a → reads (f a) l b → reads (p ≫= f) l b.
Proof. intros Hp Hf. by apply (reads_bind _ _ [] l a). Qed.

Lemma reads_bytes n l : length l = n → reads (take_bytes n) l l.
Proof.
  intros <- pre post. unfold take_bytes. rewrite !length_app.
  rewrite (proj2 (Z.ltb_ge _ _)) by lia. rewrite (proj2 (Z.ltb_ge _ _)) by lia. cbn [orb].
  by rewrite Nat2Z.id, drop_app_length, take_app_length.
Qed.

Lemma reads_resize size n : n ≤ (2 ^ 63 - 1) / size → reads (resize size n) [] ().
Proof.
  intros Hn pre post. unfold resize. rewrite (proj2 (Z.ltb_ge _ _)) by done.
  f_equal. f_equal. cbn. lia.
Qed.

Lemma reads_n {A} (p : parser A) (e : A → list Z) (l : list A) :
  Forall (λ a, reads p (e a) a) l → reads (take_n (length l) p) (concat (e <$> l)) l.
Proof.
  induction 1 as [|a l Ha _ IH]; cbn [length take_n fmap list_fmap concat]; [apply reads_ret|].
  apply (reads_bind _ _ _ _ a); [done|]. by apply reads_last.
Qed.

(** ** Primitive messages *)
Definition push_u64 (o : list Z) (x : Z) : list Z :=
  foldl (λ o i, o ++ [u8 (Z.land (Z.shiftr x (8 * i)) 255)]) o (seqZ 0 8).

Definition push_bytes (o p : list Z) : list Z := o ++ p.
Definition push_block (o : list Z) (b : Block) : list Z := push_bytes o b.
Definition push_arr32 (o a : list Z) : list Z := push_bytes o a.

Definition take_u64 : parser Z := λ inp off,
  foldM (λ '(x, off) i, b ← vget inp off; Ok (Z.lor x (u64 (Z.shiftl b (8 * i))), off + 1))
    (0, off) (seqZ 0 8).

Definition take_block : parser Block := take_bytes 16.

Lemma push_u64_spec o x : push_u64 o x = o ++ le_bytes 8 x.
Proof.
  assert (∀ y, u8 (Z.land y 255) = u8 y) as E.
  { intros y. unfold u8. change 255 with (Z.ones 8). rewrite Z.land_ones by lia.
    apply Zmod_mod. }
  unfold push_u64. change (seqZ 0 8) with [0; 1; 2; 3; 4; 5; 6; 7]. cbn [foldl].
  rewrite !E, <-!app_assoc. cbn [app le_bytes]. by rewrite !Z.shiftr_shiftr by lia.
Qed.

(** The value [take_u64] builds from eight bytes. *)
Definition lor_val (l : list Z) : Z :=
  foldl (λ x '(i, b), Z.lor x (u64 (Z.shiftl b (8 * i)))) 0 (zip (seqZ 0 8) l).

Lemma take_u64_loop ks x inp off : 0 ≤ off →
  foldM (λ '(x, off) i, b ← vget inp off; Ok (Z.lor x (u64 (Z.shiftl b (8 * i))), off + 1))
    (x, off) ks
  = if Z.of_nat (length inp) <? off + Z.of_nat (length ks) then (match ks with [] => Ok (x, off) | _ => UB end)
    else Ok (foldl (λ x '(i, b), Z.lor x (u64 (Z.shiftl b (8 * i)))) x
               (zip ks (take (length ks) (drop (Z.to_nat off) inp))),
             off + Z.of_nat (length ks)).
Proof.
  revert x off. induction ks as [|i ks IH]; intros x off H0; cbn [foldM length].
  - destruct (_ <? _); [done|]. cbn. f_equal. f_equal. lia.
  - destruct (Z.lt_ge_cases off (Z.of_nat (length inp))) as [Hlt|Hge].
    + destruct (lookup_in_range inp off) as [b Hb]; [lia|].
      rewrite (vget_Ok _ _ _ H0 Hb), !bind_ok, IH by lia.
      replace (off + 1 + Z.of_nat (length ks)) with (off + Z.of_nat (S (length ks))) by lia.
      destruct (Z.ltb_spec (Z.of_nat (length inp)) (off + Z.of_nat (S (length ks)))).
      * destruct ks; [cbn [length] in *; lia|done].
      * rewrite (drop_S inp b (Z.to_nat off)) by done. cbn [take zip zip_with foldl].
        by replace (Z.to_nat (off + 1)) with (S (Z.to_nat off)) by lia.
    + rewrite (proj2 (Z.ltb_lt _ _)) by lia. unfold vget.
      rewrite (proj2 (Z.ltb_ge off 0)) by done. by rewrite lookup_ge_None_2 by lia.
Qed.

Lemma take_u64_bytes inp off : 0 ≤ off →
  take_u64 inp off = (take_bytes 8 ≫= λ l, mret (lor_val l)) inp off.
Proof.
  intros H0. unfold take_u64. rewrite take_u64_loop by done.
  unfold mbind, parser_bind, take_bytes. rewrite (proj2 (Z.ltb_ge off 0)) by done. cbn [orb].
  change (length (seqZ 0 8)) with 8%nat. by destruct (_ <? _).
Qed.

Lemma lor_shiftl_add x b n : 0 ≤ n → 0 ≤ x < 2 ^ n → Z.lor x (Z.shiftl b n) = x + b * 2 ^ n.
Proof.
  intros Hn Hx. rewrite <-Z.lxor_lor, <-Z.add_nocarry_lxor, Z.shiftl_mul_pow2; try done.
  all: apply Z.bits_inj'; intros i Hi; rewrite Z.land_spec, Z.bits_0, Z.shiftl_spec by done.
  all: destruct (Z.lt_ge_cases i n); [rewrite (Z.testbit_neg_r b), andb_false_r; [done|lia]|].
  all: rewrite (proj1 (is_word_bits n x Hn (proj1 Hx)) Hx i); done.
Qed.

Lemma lor_val_le l : length l = 8%nat → Forall is_u8 l → lor_val l = le_val l.
Proof.
  intros Hl Hf. assert (∀ i b, is_u8 b → 0 ≤ i < 8 → u64 (Z.shiftl b (8 * i)) = Z.shiftl b (8 * i))
    as Eu.
  { intros i b [Hb0 Hb] Hi. unfold u64. apply Z.mod_small. rewrite Z.shiftl_mul_pow2 by lia.
    pose proof (Z.pow_pos_nonneg 2 (8 * i)). pose proof (Z.pow_le_mono_r 2 (8 * i) 56).
    change (2 ^ 8) with 256 in Hb. nia. }
  do 9 (destruct l as [|?b l]; try discriminate Hl).
  rewrite !Forall_cons in Hf. destruct_and!. unfold lor_val.
  change (seqZ 0 8) with [0; 1; 2; 3; 4; 5; 6; 7]. cbn [zip zip_with foldl le_val].
  rewrite !Eu by (done || lia).
  unfold is_word in *. change (2 ^ 8) with 256 in *.
  rewrite Z.lor_0_l, Z.shiftl_0_r.
  change (8 * 1) with 8; change (8 * 2) with 16; change (8 * 3) with 24; change (8 * 4) with 32;
    change (8 * 5) with 40; change (8 * 6) with 48; change (8 * 7) with 56.
  rewrite (lor_shiftl_add b), (lor_shiftl_add _ b1), (lor_shiftl_add _ b2),
    (lor_shiftl_add _ b3), (lor_shiftl_add _ b4), (lor_shiftl_add _ b5),
    (lor_shiftl_add _ b6) by lia. lia.
Qed.

Lemma prefix_take_u64 : prefix_law take_u64.
Proof.
  assert (prefix_law (take_bytes 8 ≫= λ l, mret (lor_val l))) as Hp by auto with parser.
  intros inp off a off' H0 E. rewrite take_u64_bytes in E by done.
  destruct (Hp _ _ _ _ H0 E) as [Hle Hk]. split; [done|].
  intros. rewrite take_u64_bytes by done. auto.
Qed.

Lemma reads_u64 x : is_word 64 x → reads take_u64 (le_bytes 8 x) x.
Proof.
  intros Hx pre post. rewrite take_u64_bytes by lia.
  rewrite <-(le_val_bytes 8 x Hx) at 2.
  rewrite <-(lor_val_le (le_bytes 8 x)) by (apply le_bytes_length || apply le_bytes_u8).
  apply reads_last. by apply reads_bytes, le_bytes_length.
Qed.

Lemma prefix_take_block : prefix_law take_block.
Proof. apply prefix_take_bytes. Qed.

Lemma reads_block b : block_wf b → reads take_block b b.
Proof. intros [Hl _]. by apply reads_bytes. Qed.

#[export] Hint Resolve prefix_take_u64 prefix_take_block : parser.

(** ** The tables of one circuit *)
Definition serialize_tables (gr : GarbleResult) : outcome (list Z) :=
  let o := push_block [] (gr_aes_key gr) in
  let o := push_block o (gr_delta gr) in
  let o := push_u64 o (Z.of_nat (length (gr_tables gr))) in
  let o := foldl (λ o t, push_block (push_block o (T0 t)) (T1 t)) o (gr_tables gr) in
  let o := push_u64 o 128 in
  o ← foldM (λ o i, b ← vget (gr_wire0 gr) i; Ok (push_block o b)) o (seqZ 0 128);
  let o := push_u64 o (Z.of_nat (length (gr_out_decode gr))) in
  let o := push_bytes o (gr_out_decode gr) in
  let o := push_arr32 o (gr_gc_hash gr) in
  Ok (push_arr32 o (gr_R_root gr)).

Record TablesMsg := mkTablesMsg {
  tm_aes_key : Block;
  tm_delta : Block;
  tm_tables : list AndGateTable;
  tm_key_wire0 : list Block;
  tm_out_decode : list Z;
  tm_gc_hash : list Z;
  tm_R_root : list Z;
}.

Definition take_table : parser AndGateTable :=
  t0 ← take_block; t1 ← take_block; mret (mkTable t0 t1).

Definition take_tables_msg : parser TablesMsg :=
  aes_key ← take_block;
  delta ← take_block;
  n ← take_u64;
  _ ← resize 32 n;
  tables ← take_n (Z.to_nat n) take_table;
  nk ← take_u64;
  _ ← resize 16 nk;
  key_wire0 ← take_n (Z.to_nat nk) take_block;
  nd ← take_u64;
  _ ← resize 1 nd;
  out_decode ← take_bytes (Z.to_nat nd);
  gc_hash ← take_bytes 32;
  R_root ← take_bytes 32;
  mret (mkTablesMsg aes_key delta tables key_wire0 out_decode gc_hash R_root).

Definition deserialize_tables (inp : list Z) : outcome TablesMsg :=
  '(m, _) ← take_tables_msg inp 0; Ok m.

(** ** The STARK witness and the public binding *)
Definition push_and_wit (o : list Z) (w : HalfGateWitness) : list Z :=
  let o := push_block o (wit_a0 w) in
  let o := push_block o (wit_b0 w) in
  let o := push_block o (wit_Tg w) in
  let o := push_block o (wit_Te w) in
  let o := push_block o (wit_Ha0 w) in
  let o := push_block o (wit_Ha1 w) in
  let o := push_block o (wit_Hb0 w) in
  let o := push_block o (wit_Hb1 w) in
  let o := o ++ [wit_pa w] in
  o ++ [wit_pb w].

Definition serialize_stark_witness `{Sha256} (gr : GarbleResult) (cm : list Z) : list Z :=
  let o := push_u64 [] (Z.of_nat (length (gr_and_wit gr))) in
  let o := push_bytes o cm in
  let o := push_arr32 o (gr_gc_hash gr) in
  let o := push_arr32 o (gr_R_root gr) in
  let out_hash := sha256_bytes (gr_out_decode gr) in
  let o := push_arr32 o out_hash in
  let o := push_block o (gr_delta gr) in
  foldl push_and_wit o (gr_and_wit gr).

Definition serialize_public_binding `{Sha256} (gr : GarbleResult) (cm : list Z) : list Z :=
  let o := push_arr32 [] (gr_gc_hash gr) in
  let o := push_arr32 o (gr_R_root gr) in
  let out_hash := sha256_bytes (gr_out_decode gr) in
  let o := push_arr32 o out_hash in
  push_bytes o cm.

(** ** The bytes of the tables message *)

(** What a garbling must satisfy to be sent. *)
Record sendable (gr : GarbleResult) : Prop := {
  sd_key : block_wf (gr_aes_key gr);
  sd_delta : block_wf (gr_delta gr);
  sd_tables : Forall (λ t, block_wf (T0 t) ∧ block_wf (T1 t)) (gr_tables gr);
  sd_tables_size : Z.of_nat (length (gr_tables gr)) ≤ (2 ^ 63 - 1) / 32;
  sd_wires : Forall block_wf (gr_wire0 gr);
  sd_wires_size : (128 ≤ length (gr_wire0 gr))%nat;
  sd_decode_size : Z.of_nat (length (gr_out_decode gr)) ≤ 2 ^ 63 - 1;
  sd_gc_hash : length (gr_gc_hash gr) = 32%nat;
  sd_R_root : length (gr_R_root gr) = 32%nat;
}.

(** What the client receives of it. *)
Definition tables_msg (gr : GarbleResult) : TablesMsg :=
  mkTablesMsg (gr_aes_key gr) (gr_delta gr) (gr_tables gr) (take 128 (gr_wire0 gr))
    (gr_out_decode gr) (gr_gc_hash gr) (gr_R_root gr).

Definition tables_text (gr : GarbleResult) : list Z :=
  gr_aes_key gr ++ gr_delta gr ++
  le_bytes 8 (Z.of_nat (length (gr_tables gr))) ++ concat (table_bytes <$> gr_tables gr) ++
  le_bytes 8 128 ++ concat (take 128 (gr_wire0 gr)) ++
  le_bytes 8 (Z.of_nat (length (gr_out_decode gr))) ++ gr_out_decode gr ++
  gr_gc_hash gr ++ gr_R_root gr.

Lemma foldl_push {A} (f : A → list Z) (push : list Z → A → list Z) l o :
  (∀ o a, push o a = o ++ f a) → foldl push o l = o ++ concat (f <$> l).
Proof.
  intros Hp. revert o. induction l as [|a l IH]; intros o; cbn [foldl fmap list_fmap concat].
  - by rewrite app_nil_r.
  - by rewrite IH, Hp, <-app_assoc.
Qed.

(** A loop that appends the first [n] blocks of a vector. *)
Lemma foldM_push (l : list Block) (n : nat) o : (n ≤ length l)%nat →
  foldM (λ o i, b ← vget l i; Ok (push_block o b)) o (seqZ 0 (Z.of_nat n))
    = Ok (o ++ concat (take n l)).
Proof.
  induction n as [|n IH]; intros Hn; [cbn; by rewrite app_nil_r|].
  rewrite seqZ_S, foldM_app, IH, bind_ok by lia. cbn [foldM].
  destruct (lookup_lt_is_Some_2 l n ltac:(lia)) as [b Hb].
  rewrite Z.add_0_l, (vget_nat _ _ _ Hb), !bind_ok, (take_S_r _ _ _ Hb), concat_app.
  cbn [concat]. rewrite app_nil_r. unfold push_block, push_bytes. by rewrite app_assoc.
Qed.

Lemma serialize_tables_text gr : (128 ≤ length (gr_wire0 gr))%nat →
  serialize_tables gr = Ok (tables_text gr).
Proof.
  intros Hn. unfold serialize_tables. change 128 with (Z.of_nat 128).
  rewrite foldM_push, bind_ok by done. unfold push_arr32, push_block, push_bytes.
  rewrite !push_u64_spec, (foldl_push table_bytes)
    by (intros; unfold table_bytes; by rewrite app_assoc).
  unfold tables_text. by rewrite <-!app_assoc.
Qed.

Lemma reads_table t : block_wf (T0 t) → block_wf (T1 t) → reads take_table (table_bytes t) t.
Proof.
  intros H0 H1. unfold take_table, table_bytes. destruct t as [t0 t1].
  apply (reads_bind _ _ _ _ t0); [by apply reads_block|].
  apply (reads_last _ (λ x, mkTable t0 x)). by apply reads_block.
Qed.

Lemma reads_tables gr : sendable gr → reads take_tables_msg (tables_text gr) (tables_msg gr).
Proof.
  intros [Hk Hd Ht Hts Hw Hws Hds Hg Hr]. unfold take_tables_msg, tables_text.
  assert (∀ n : nat, Z.of_nat n ≤ 2 ^ 63 - 1 → is_word 64 (Z.of_nat n)) as Hu
    by (intros; unfold is_word; lia).
  apply (reads_bind _ _ _ _ (gr_aes_key gr)); [by apply reads_block|].
  apply (reads_bind _ _ _ _ (gr_delta gr)); [by apply reads_block|].
  eapply reads_bind.
  { apply reads_u64, Hu. etrans; [exact Hts|]. apply Z.div_le_upper_bound; lia. }
  eapply reads_silent; [by apply reads_resize|].
  rewrite Nat2Z.id. eapply reads_bind.
  { apply reads_n. eapply Forall_impl; [exact Ht|]. intros t [? ?]. by apply reads_table. }
  eapply reads_bind; [by apply reads_u64|]. eapply reads_silent; [by apply reads_resize|].
  eapply reads_bind.
  { replace (Z.to_nat 128) with (length (take 128 (gr_wire0 gr)))
      by (rewrite length_take; lia).
    rewrite <-(list_fmap_id (take 128 (gr_wire0 gr))) at 2. apply (reads_n _ id).
    apply Forall_take. eapply Forall_impl; [exact Hw|]. intros b. apply reads_block. }
  eapply reads_bind; [by apply reads_u64, Hu|].
  eapply reads_silent; [apply reads_resize; by rewrite Z.div_1_r|].
  rewrite Nat2Z.id. eapply reads_bind; [by apply reads_bytes|].
  eapply reads_bind; [by apply reads_bytes|].
  apply (reads_last (take_bytes 32) (λ r, mkTablesMsg _ _ _ _ _ _ r)). by apply reads_bytes.
Qed.

Lemma prefix_table : prefix_law take_table.
Proof. unfold take_table. auto 10 with parser. Qed.
#[export] Hint Resolve prefix_table : parser.

Lemma prefix_tables : prefix_law take_tables_msg.
Proof.
  unfold take_tables_msg. repeat (apply prefix_bind; [auto with parser|intros ?]).
  auto with parser.
Qed.

(** C26. The tables message round-trips: every sendable garbling is serialized,
    and reading the bytes gives back its key, offset, tables, decoding bits and
    hashes, and the zero labels of the first 128 wires. *)
Theorem tables_roundtrip gr : sendable gr →
  ∃ o, serialize_tables gr = Ok o ∧ deserialize_tables o = Ok (tables_msg gr).
Proof.
  intros Hs. exists (tables_text gr). split; [apply serialize_tables_text, Hs|].
  pose proof (reads_tables gr Hs [] []) as E. cbn [app length] in E.
  rewrite app_nil_r in E. change (Z.of_nat 0) with 0 in E.
  unfold deserialize_tables. by rewrite E.
Qed.

(** The reader checks no bound: on every proper prefix of a tables message it
    reads past the end of the vector, it never reports an error. *)
Theorem tables_truncated gr o k : sendable gr → serialize_tables gr = Ok o →
  (k < length o)%nat → deserialize_tables (take k o) = UB.
Proof.
  intros Hs Eo Hk. rewrite serialize_tables_text in Eo by apply Hs. injection Eo as <-.
  pose proof (reads_tables gr Hs [] []) as E. cbn [app length] in E.
  rewrite app_nil_r in E. change (Z.of_nat 0) with 0 in E.
  destruct (prefix_tables _ 0 _ _ ltac:(lia) E) as [_ Hp].
  unfold deserialize_tables. rewrite Hp by lia. by rewrite (proj2 (Z.ltb_lt _ _)) by lia.
Qed.

(** A garbling of a circuit with 128 wires of the garbler, for the witnesses. *)
Definition sample_gr : GarbleResult :=
  mkGarble [mkTable (replicate 16 1) (replicate 16 2)] [] (replicate 130 (replicate 16 3))
    (replicate 16 4) (replicate 16 5) [1; 0] (replicate 32 6) (replicate 32 7).

Lemma sample_gr_sendable : sendable sample_gr.
Proof. constructor; apply (bool_decide_eq_true_1 _); by vm_compute. Qed.

Lemma tables_roundtrip_witness :
  ∃ o, serialize_tables sample_gr = Ok o ∧ deserialize_tables o = Ok (tables_msg sample_gr).
Proof. apply (tables_roundtrip sample_gr sample_gr_sendable). Defined.

Lemma tables_truncated_witness : deserialize_tables (take 2000 (tables_text sample_gr)) = UB.
Proof.
  apply (tables_truncated sample_gr (tables_text sample_gr) 2000 sample_gr_sendable);
    [by vm_compute|]. apply (bool_decide_eq_true_1 _). by vm_compute.
Defined.
