(* ===== verification/StarkGarble.v ===== *)
(** * The STARK prover and verifier of the garbling

    [voprf-bench/stark-garble/src/main.rs]: the reader of the witness the C++
    code writes, the half-gate check, the execution trace, the algebraic
    constraints, and the proof file.  The proof system itself (winterfell) is a
    parameter. *)

From S2P Require Import Prelude Xor Block Aes Circuit GcMmo VoprfSer.

(** The prime of [math::fields::f64]: 2^64 - 2^32 + 1. *)
Definition MODULUS : Z := 2 ^ 64 - 2 ^ 32 + 1.
Definition TRACE_WIDTH : nat := 18.
Definition CM_BYTES : nat := 32 + 128 * 16.

(** [BaseElement::new] *)
Definition felt (x : Z) : Z := x mod MODULUS.

Record PublicInputs := mkPub { p_bind : list Z; p_n_and : Z; p_n_bits : Z }.

#[export] Instance PublicInputs_eq_dec : EqDecision PublicInputs.
Proof. solve_decision. Defined.

(** [GateWit] has the fields of [HalfGateWitness]. *)
Record Witness := mkWitness {
  w_n_and : Z;
  w_cm : list Z;
  w_gc_hash : list Z;
  w_r_root : list Z;
  w_out_hash : list Z;
  w_delta : Block;
  w_gates : list HalfGateWitness;
}.

(** ** Reading a witness; a slice out of range panics *)
Definition panic {A} : outcome A := Throw "panic".

Definition read_arr (n : nat) : parser (list Z) := λ buf off,
  if Z.of_nat (length buf) <? off + Z.of_nat n then panic
  else Ok (take n (drop (Z.to_nat off) buf), off + Z.of_nat n).

(** A step that does not read. *)
Definition lift {A} (m : outcome A) : parser A := λ buf off, a ← m; Ok (a, off).

Definition read_u64_le : parser Z := l ← read_arr 8; mret (le_val l).

Definition read_byte : parser Z := l ← read_arr 1; mret (l !!! 0%nat).

(** [Vec::with_capacity(n)] of 130-byte elements *)
Definition with_capacity (n : Z) : parser () := λ buf off,
  if 2 ^ 63 - 1 <? n * 130 then panic else Ok ((), off).

Definition read_gate : parser HalfGateWitness :=
  a0 ← read_arr 16; b0 ← read_arr 16; tg ← read_arr 16; te ← read_arr 16;
  ha0 ← read_arr 16; ha1 ← read_arr 16; hb0 ← read_arr 16; hb1 ← read_arr 16;
  pa ← read_byte; pb ← read_byte;
  mret (mkWit a0 b0 tg te ha0 ha1 hb0 hb1 pa pb).

Definition read_witness : parser Witness :=
  n_and ← read_u64_le;
  cm ← read_arr CM_BYTES;
  gc_hash ← read_arr 32;
  r_root ← read_arr 32;
  out_hash ← read_arr 32;
  delta ← read_arr 16;
  _ ← with_capacity n_and;
  gates ← take_n (Z.to_nat n_and) read_gate;
  mret (mkWitness n_and cm gc_hash r_root out_hash delta gates).

Definition parse_witness (buf : list Z) : outcome Witness := '(w, _) ← read_witness buf 0; Ok w.

(** ** The half-gate check *)
Definition get_bit (block : Block) (bit : nat) : Z :=
  Z.land (Z.shiftr (block !!! (bit / 8)%nat) (Z.of_nat (bit mod 8))) 1.

Inductive GateError := NotBoolean (i : nat) | TgFail (i bit : nat) | TeFail (i bit : nat).

(** The bits of one gate, in order; the first failure stops. *)
Fixpoint check_bits (delta : Block) (i : nat) (g : HalfGateWitness) (bits : list nat)
    : option GateError :=
  match bits with
  | [] => None
  | bit :: bits =>
      let expect_tg := Z.lxor (Z.lxor (get_bit (wit_Ha0 g) bit) (get_bit (wit_Ha1 g) bit))
                         (Z.land (wit_pb g) (get_bit delta bit)) in
      if negb (get_bit (wit_Tg g) bit =? expect_tg) then Some (TgFail i bit)
      else
        let expect_te := Z.lxor (Z.lxor (get_bit (wit_Hb0 g) bit) (get_bit (wit_Hb1 g) bit))
                           (get_bit (wit_a0 g) bit) in
        if negb (get_bit (wit_Te g) bit =? expect_te) then Some (TeFail i bit)
        else check_bits delta i g bits
  end.

Fixpoint check_gates (delta : Block) (i : nat) (gs : list HalfGateWitness) : option GateError :=
  match gs with
  | [] => None
  | g :: gs =>
      if (1 <? wit_pa g) || (1 <? wit_pb g) then Some (NotBoolean i)
      else match check_bits delta i g (seq 0 128) with
           | Some e => Some e
           | None => check_gates delta (S i) gs
           end
  end.

Definition check_half_gates (w : Witness) : option GateError :=
  check_gates (w_delta w) 0 (w_gates w).

(** ** The binding of the public values *)
Definition binding_hash `{Sha256} (w : Witness) : list Z :=
  sha256_bytes (w_cm w ++ w_gc_hash w ++ w_r_root w ++ w_out_hash w ++ le_bytes 8 (w_n_and w)).

Definition binding_to_field (b : list Z) : list Z :=
  (λ i, let limb := take 8 (drop (i * 8) b) in
        let limb := <[7%nat := Z.land (limb !!! 7%nat) 0x3f]> limb in
        felt (le_val limb)) <$> seq 0 4.

Definition pub_to_bytes (p : PublicInputs) : list Z :=
  le_bytes 8 (p_n_and p) ++ le_bytes 8 (p_n_bits p) ++ concat (le_bytes 8 <$> p_bind p).

Definition read_pub : parser PublicInputs :=
  n_and ← read_u64_le;
  n_bits ← read_u64_le;
  bind ← take_n 4 read_u64_le;
  mret (mkPub (felt <$> bind) n_and n_bits).

Definition pub_from_bytes (buf : list Z) : outcome PublicInputs := '(p, _) ← read_pub buf 0; Ok p.

(** ** The trace and the constraints *)

(** [evaluate_transition]: the fifteen values that vanish on an accepted row. *)
Definition evaluate_transition (cur : list Z) : list Z :=
  let pa := cur !!! 0%nat in
  let pb := cur !!! 1%nat in
  let ha0 := cur !!! 2%nat in
  let ha1 := cur !!! 3%nat in
  let d := cur !!! 4%nat in
  let tg := cur !!! 5%nat in
  let pbd := cur !!! 6%nat in
  let hb0 := cur !!! 7%nat in
  let hb1 := cur !!! 8%nat in
  let a0 := cur !!! 9%nat in
  let te := cur !!! 10%nat in
  let xor3 := ha0 + ha1 + pbd - 2 * (ha0 * ha1 + ha0 * pbd + ha1 * pbd) + ha0 * ha1 * pbd * 4 in
  let xor3e := hb0 + hb1 + a0 - 2 * (hb0 * hb1 + hb0 * a0 + hb1 * a0) + hb0 * hb1 * a0 * 4 in
  felt <$> [ pa * (pa - 1); pb * (pb - 1); ha0 * (ha0 - 1); ha1 * (ha1 - 1); d * (d - 1);
             tg * (tg - 1); pbd - pb * d; tg - xor3; hb0 * (hb0 - 1); hb1 * (hb1 - 1);
             a0 * (a0 - 1); te * (te - 1); te - xor3e; 0; 0 ].

(** [get_assertions]: column 14 of the first four rows. *)
Definition assertions_hold (p : PublicInputs) (trace : list (list Z)) : Prop :=
  ∀ i, (i < 4)%nat → (trace !!! i) !!! 14%nat = p_bind p !!! i.

(** A trace the proof system accepts: the transition constraints hold on every
    row but the last, the assertions hold. *)
Definition air_accepts (p : PublicInputs) (trace : list (list Z)) : Prop :=
  Forall (λ row, length row = TRACE_WIDTH) trace ∧
  Forall (λ row, evaluate_transition row = replicate 15 0) (removelast trace) ∧
  assertions_hold p trace.

Definition next_pow2 (n : Z) : Z := Z.max (if n <=? 1 then 1 else 2 ^ Z.log2_up n) 8.

Definition trace_row (w : Witness) (bind : list Z) (n_bits row : Z) : outcome (list Z) :=
  let '(gate_id, bit) :=
    if row <? n_bits then (row / 128, row mod 128) else (Z.max (w_n_and w - 1) 0, 127)
  in
  match w_gates w !! Z.to_nat (Z.min gate_id (w_n_and w - 1)) with
  | None => panic
  | Some g =>
      let b := Z.to_nat bit in
      let dbit := get_bit (w_delta w) b in
      Ok [ wit_pa g; wit_pb g; get_bit (wit_Ha0 g) b; get_bit (wit_Ha1 g) b; dbit;
           get_bit (wit_Tg g) b; Z.land (wit_pb g) dbit; get_bit (wit_Hb0 g) b;
           get_bit (wit_Hb1 g) b; get_bit (wit_a0 g) b; get_bit (wit_Te g) b; 0;
           felt gate_id; bit; bind !!! Z.to_nat (row mod 4); 0; 0; 0 ]
  end.

(** [build_trace]; the subtraction [w.n_and - 1] panics or indexes out of range
    when there is no gate. *)
Definition build_trace `{Sha256} (w : Witness) : outcome (list (list Z) * PublicInputs) :=
  if w_n_and w =? 0 then panic
  else
    let n_bits := u64 (w_n_and w * 128) in
    let trace_len := next_pow2 (Z.max n_bits 4) in
    let bind := binding_to_field (binding_hash w) in
    trace ← mapM_out (trace_row w bind n_bits) (seqZ 0 trace_len);
    Ok (trace, mkPub bind (w_n_and w) n_bits).

(** ** The proof file *)

(** [winterfell]: [Prover::prove] and [winterfell::verify] on the serialized
    proof. *)
Class Winterfell := {
  wf_prove : list (list Z) → PublicInputs → list Z;
  wf_verify : list Z → PublicInputs → outcome bool;
  (** The longest trace: the domains of the library's field are finite. *)
  wf_max_trace : Z;
}.

(** The traces the library takes: their lengths are powers of two from 8 on. *)
Definition trace_length_ok `{Winterfell} (trace : list (list Z)) : Prop :=
  8 ≤ Z.of_nat (length trace) ≤ wf_max_trace ∧ ∃ k, 0 ≤ k ∧ Z.of_nat (length trace) = 2 ^ k.

(** The completeness of the proof system for these traces. *)
Class WinterfellLaws `{Winterfell} := {
  wf_complete trace p : air_accepts p trace → trace_length_ok trace →
    wf_verify (wf_prove trace p) p = Ok true;
  wf_min_trace : 8 ≤ wf_max_trace;
}.

Section proof_file.
Context `{Sha256} `{Winterfell}.

(** The bytes [do_prove] writes. *)
Definition do_prove (buf : list Z) : outcome (list Z) :=
  w ← parse_witness buf;
  match check_half_gates w with
  | Some _ => panic
  | None =>
      if negb (Nat.eqb (length (w_cm w)) CM_BYTES) then panic
      else
        '(trace, p) ← build_trace w;
        let pub_bytes := pub_to_bytes p in
        Ok (le_bytes 8 (Z.of_nat (length pub_bytes)) ++ pub_bytes ++ binding_hash w ++
            w_gc_hash w ++ w_r_root w ++ w_out_hash w ++ w_cm w ++ wf_prove trace p)
  end.

(** The fields of a proof file, up to the proof itself. *)
Definition read_proof_header : parser (PublicInputs * list Z * list Z * list Z * list Z * list Z) :=
  pub_len ← read_u64_le;
  pub_bytes ← read_arr (Z.to_nat pub_len);
  pub_inputs ← lift (pub_from_bytes pub_bytes);
  binding ← read_arr 32;
  gc_hash ← read_arr 32;
  r_root ← read_arr 32;
  out_hash ← read_arr 32;
  cm ← read_arr CM_BYTES;
  mret (pub_inputs, binding, gc_hash, r_root, out_hash, cm).

(** [do_verify] without a public file: whether it prints "verify: ok". *)
Definition do_verify (bytes : list Z) : outcome bool :=
  '((p, binding, gc_hash, r_root, out_hash, cm), off) ← read_proof_header bytes 0;
  let bh := sha256_bytes (cm ++ gc_hash ++ r_root ++ out_hash ++ le_bytes 8 (p_n_and p)) in
  if negb (bool_decide (bh = binding)) then Ok false
  else if negb (bool_decide (binding_to_field bh = p_bind p)) then Ok false
  else wf_verify (drop (Z.to_nat off) bytes) p.
End proof_file.
