(* ===== verification/StarkProps.v ===== *)
(** * Properties of the STARK witness, trace and proof file *)

From S2P Require Import Prelude Xor Block Aes Circuit GcMmo VoprfSer StarkGarble Merkle Concrete.

(** ** The witness is read back *)
Definition wit_blocks (w : HalfGateWitness) : list Block :=
  [wit_a0 w; wit_b0 w; wit_Tg w; wit_Te w; wit_Ha0 w; wit_Ha1 w; wit_Hb0 w; wit_Hb1 w].

(** A witness row of an honest garbling with offset [delta]. *)
Record wit_honest (delta : Block) (w : HalfGateWitness) : Prop := {
  wh_blocks : Forall block_wf (wit_blocks w);
  wh_bits : ∃ pa pb, wit_pa w = b2z pa ∧ wit_pb w = b2z pb ∧
    wit_Tg w = (let t := xor_block (wit_Ha0 w) (wit_Ha1 w) in
                if pb then xor_block t delta else t);
  wh_Te : wit_Te w = xor_block (xor_block (wit_Hb0 w) (wit_Hb1 w)) (wit_a0 w);
}.

Definition wit_bytes (w : HalfGateWitness) : list Z :=
  concat (wit_blocks w) ++ [wit_pa w; wit_pb w].

Lemma reads_arr n l : length l = n → reads (read_arr n) l l.
Proof.
  intros <- pre post. unfold read_arr. rewrite !length_app.
  rewrite (proj2 (Z.ltb_ge _ _)) by lia.
  by rewrite Nat2Z.id, drop_app_length, take_app_length.
Qed.

Lemma reads_u64_le x : is_word 64 x → reads read_u64_le (le_bytes 8 x) x.
Proof.
  intros Hx. unfold read_u64_le. rewrite <-(le_val_bytes 8 x Hx) at 2.
  apply reads_last. apply reads_arr, le_bytes_length.
Qed.

Lemma reads_byte x : reads read_byte [x] x.
Proof.
  assert ([x] !!! 0%nat = x) as E by done. rewrite <-E at 2.
  apply (reads_last (read_arr 1) (λ l, l !!! 0%nat)). by apply reads_arr.
Qed.

Lemma reads_capacity n : n * 130 ≤ 2 ^ 63 - 1 → reads (with_capacity n) [] ().
Proof.
  intros Hn pre post. unfold with_capacity. rewrite (proj2 (Z.ltb_ge _ _)) by done.
  f_equal. f_equal. cbn. lia.
Qed.

Lemma reads_gate delta w : wit_honest delta w → reads read_gate (wit_bytes w) w.
Proof.
  intros [Hb _ _]. unfold wit_bytes, wit_blocks in *.
  destruct w as [a0 b0 tg te ha0 ha1 hb0 hb1 pa pb]; cbn [wit_a0 wit_b0 wit_Tg wit_Te
    wit_Ha0 wit_Ha1 wit_Hb0 wit_Hb1 wit_pa wit_pb] in *.
  rewrite !Forall_cons in Hb. destruct_and!. unfold block_wf in *. destruct_and!.
  cbn [concat]. rewrite <-!app_assoc. cbn [app]. unfold read_gate.
  repeat (eapply reads_bind; [by apply reads_arr|]).
  change [pa; pb] with ([pa] ++ [pb]).
  eapply reads_bind; [apply reads_byte|].
  apply (reads_last read_byte (λ x, mkWit _ _ _ _ _ _ _ _ _ x)). apply reads_byte.
Qed.

Lemma push_and_wit_bytes o w : push_and_wit o w = o ++ wit_bytes w.
Proof.
  unfold push_and_wit, wit_bytes, wit_blocks, push_block, push_bytes. cbn [concat].
  by rewrite <-!app_assoc.
Qed.

Section witness.
Context `{Sha256}.

(** What the prover reads of a garbling. *)
Definition witness_of (gr : GarbleResult) (cm : list Z) : Witness :=
  mkWitness (Z.of_nat (length (gr_and_wit gr))) cm (gr_gc_hash gr) (gr_R_root gr)
    (sha256_bytes (gr_out_decode gr)) (gr_delta gr) (gr_and_wit gr).

Definition witness_text (gr : GarbleResult) (cm : list Z) : list Z :=
  le_bytes 8 (Z.of_nat (length (gr_and_wit gr))) ++ cm ++ gr_gc_hash gr ++ gr_R_root gr ++
  sha256_bytes (gr_out_decode gr) ++ gr_delta gr ++ concat (wit_bytes <$> gr_and_wit gr).

Lemma serialize_witness_text gr cm : serialize_stark_witness gr cm = witness_text gr cm.
Proof.
  unfold serialize_stark_witness, push_arr32, push_block, push_bytes.
  rewrite push_u64_spec, (foldl_push wit_bytes) by apply push_and_wit_bytes.
  unfold witness_text. rewrite <-!app_assoc. done.
Qed.

(** What an honest garbling satisfies. *)
Record garbling_honest (gr : GarbleResult) : Prop := {
  gh_delta : block_wf (gr_delta gr);
  gh_wit : Forall (wit_honest (gr_delta gr)) (gr_and_wit gr);
  gh_size : Z.of_nat (length (gr_and_wit gr)) * 130 ≤ 2 ^ 63 - 1;
  gh_gc_hash : length (gr_gc_hash gr) = 32%nat;
  gh_R_root : length (gr_R_root gr) = 32%nat;
}.

Lemma parse_witness_text `{!Sha256Laws} gr cm : garbling_honest gr → length cm = CM_BYTES →
  parse_witness (serialize_stark_witness gr cm) = Ok (witness_of gr cm).
Proof.
  intros [Hd Hw Hs Hg Hr] Hcm. rewrite serialize_witness_text.
  assert (reads read_witness (witness_text gr cm) (witness_of gr cm)) as E.
  { unfold read_witness, witness_text.
    eapply reads_bind; [apply reads_u64_le; unfold is_word; lia|].
    eapply reads_bind; [by apply reads_arr|]. eapply reads_bind; [by apply reads_arr|].
    eapply reads_bind; [by apply reads_arr|].
    eapply reads_bind; [apply reads_arr, sha256_length|].
    eapply reads_bind; [apply reads_arr, Hd|].
    eapply reads_silent; [by apply reads_capacity|]. rewrite Nat2Z.id.
    apply (reads_last _ (λ gs, mkWitness _ _ _ _ _ _ gs)). apply reads_n.
    eapply Forall_impl; [exact Hw|]. intros w. apply reads_gate. }
  specialize (E [] []). cbn [app length] in E. rewrite app_nil_r in E.
  change (Z.of_nat 0) with 0 in E. unfold parse_witness. by rewrite E.
Qed.
End witness.

(** ** Bits *)
Definition bit_of (b : Block) (i : nat) : bool :=
  Z.testbit (b !!! (i / 8)%nat) (Z.of_nat (i mod 8)).

Lemma get_bit_spec b i : get_bit b i = b2z (bit_of b i).
Proof.
  unfold get_bit, bit_of. change 1 with (Z.ones 1). rewrite Z.land_ones by lia.
  change (2 ^ 1) with 2. rewrite Zmod_odd, <-Z.bit0_odd, Z.shiftr_spec by lia.
  by rewrite Z.add_0_l.
Qed.

Lemma bit_of_xor a b i : block_wf a → block_wf b → (i < 128)%nat →
  bit_of (xor_block a b) i = xorb (bit_of a i) (bit_of b i).
Proof.
  intros Ha Hb Hi. assert (i / 8 < 16)%nat as Hk by (apply Nat.Div0.div_lt_upper_bound; lia).
  unfold bit_of, xor_block.
  destruct (block_lookup a _ Ha Hk) as [x Hx], (block_lookup b _ Hb Hk) as [y Hy].
  rewrite (list_lookup_total_correct _ _ _ Hx), (list_lookup_total_correct _ _ _ Hy).
  rewrite (list_lookup_total_correct _ _ (Z.lxor x y)) by by rewrite lookup_zip_with, Hx, Hy.
  apply Z.lxor_spec.
Qed.

(** The bits of an honest row. *)
Lemma honest_row_bits delta w i : wit_honest delta w → block_wf delta → (i < 128)%nat →
  ∃ pa pb, wit_pa w = b2z pa ∧ wit_pb w = b2z pb ∧
    bit_of (wit_Tg w) i = xorb (xorb (bit_of (wit_Ha0 w) i) (bit_of (wit_Ha1 w) i))
                            (pb && bit_of delta i) ∧
    bit_of (wit_Te w) i = xorb (xorb (bit_of (wit_Hb0 w) i) (bit_of (wit_Hb1 w) i))
                            (bit_of (wit_a0 w) i).
Proof.
  intros [Hb (pa & pb & Ea & Eb & Et) Ee] Hd Hi. exists pa, pb. unfold wit_blocks in Hb.
  rewrite !Forall_cons in Hb. destruct_and!. rewrite Et, Ee.
  rewrite !bit_of_xor by (done || by apply xor_block_wf). split_and!; [done..| |done].
  destruct pb; rewrite ?bit_of_xor by (done || by apply xor_block_wf); [done|].
  by rewrite andb_false_l, xorb_false_r.
Qed.

Lemma check_bits_honest delta i w bits : wit_honest delta w → block_wf delta →
  Forall (λ b, (b < 128)%nat) bits → check_bits delta i w bits = None.
Proof.
  intros Hw Hd Hf. induction Hf as [|b bits Hb _ IH]; [done|]. cbn [check_bits].
  destruct (honest_row_bits delta w b Hw Hd Hb) as (pa & pb & _ & Epb & Et & Ee).
  rewrite !get_bit_spec, Epb, Et, Ee, land_b2z, !lxor_b2z, !Z.eqb_refl. cbn [negb]. done.
Qed.

Lemma check_gates_honest delta i ws : Forall (wit_honest delta) ws → block_wf delta →
  check_gates delta i ws = None.
Proof.
  intros Hf Hd. revert i. induction Hf as [|w ws Hw _ IH]; intros i; [done|]. cbn [check_gates].
  destruct (wh_bits _ _ Hw) as (pa & pb & -> & -> & _).
  rewrite check_bits_honest; [|done|done|apply Forall_forall; intros b Hb%elem_of_seq; lia].
  destruct pa, pb; apply IH.
Qed.

(** ** Honest garblings *)
#[local] Opaque mmo_hash tweak.

Lemma garble_and_honest aes delta id a0 b0 : schedule_wf aes → block_wf delta →
  block_wf a0 → block_wf b0 → wit_honest delta (garble_and aes delta id a0 b0).2.
Proof.
  intros Haes Hd Ha Hb.
  pose proof (garble_and_wf aes delta id a0 b0 Haes Hd Ha Hb) as [_ [Hg He]].
  pose proof (tweak_hash_wf aes a0 id false Haes Ha) as H0.
  pose proof (tweak_hash_wf aes _ id false Haes (xor_block_wf _ _ Ha Hd)) as H1.
  pose proof (tweak_hash_wf aes b0 id true Haes Hb) as H2.
  pose proof (tweak_hash_wf aes _ id true Haes (xor_block_wf _ _ Hb Hd)) as H3.
  constructor.
  - unfold wit_blocks. repeat constructor; first [exact Hg | exact He | assumption | idtac].
    all: first [apply Ha | apply Hb | apply H0 | apply H1 | apply H2 | apply H3 | apply Hg | apply He].
  - exists (lsb a0), (lsb b0). split_and!; reflexivity.
  - reflexivity.
Qed.

Lemma garble_gate_honest aes delta g st st' : schedule_wf aes → block_wf delta →
  state_wf st → Forall (wit_honest delta) (gs_wit st) → garble_gate aes delta st g = Ok st' →
  Forall (wit_honest delta) (gs_wit st').
Proof.
  intros Haes Hd [Hw Ht] Hh E. unfold garble_gate in E. destruct (type g).
  - bind_inv E. bind_inv E. bind_inv E. by injection E as <-.
  - bind_inv E. bind_inv E.
    pose proof (vget_Forall _ _ _ _ Hw E0) as Ha. pose proof (vget_Forall _ _ _ _ Hw E1) as Hb.
    pose proof (garble_and_honest aes delta (gs_and_id st) a a0 Haes Hd Ha Hb) as Hwit.
    destruct (garble_and aes delta (gs_and_id st) a a0) as [[w0 tab] wit].
    bind_inv E. injection E as <-. cbn [fst snd gs_wit] in *.
    apply Forall_app. split; [done|]. by apply Forall_singleton.
  - bind_inv E. bind_inv E. by injection E as <-.
Qed.

Lemma garble_run_honest `{Sha256} `{!Sha256Laws} c aes gr w0 st : schedule_wf aes →
  garble_run c aes gr w0 st → Z.of_nat (length (gr_and_wit gr)) * 130 ≤ 2 ^ 63 - 1 →
  garbling_honest gr.
Proof.
  intros Haes R Hs. destruct (gr_run_delta _ _ _ _ _ R) as [Hd _].
  constructor; [done| |done| |].
  - rewrite (gr_run_wit _ _ _ _ _ R).
    refine (proj2 (foldM_preserves
      (λ st, state_wf st ∧ Forall (wit_honest (gr_delta gr)) (gs_wit st)) _ _ _ _ _ _
      (gr_run_gates _ _ _ _ _ R))).
    + intros g s s' [Hw Hh] E.
      split; [by eapply garble_gate_wf|by eapply garble_gate_honest].
    + split; [|done]. split; [apply (gr_run_labels _ _ _ _ _ R)|done].
  - rewrite (gr_run_hash _ _ _ _ _ R). apply sha256_length.
  - apply (merkle_root_wf _ _ (gr_run_root _ _ _ _ _ R)).
Qed.

(** ** The constraints on an honest trace *)
Lemma transition_bits pa pb ha0 ha1 d hb0 hb1 a0 x11 x12 x13 x14 :
  evaluate_transition
    [b2z pa; b2z pb; b2z ha0; b2z ha1; b2z d; b2z (xorb (xorb ha0 ha1) (pb && d)); b2z (pb && d);
     b2z hb0; b2z hb1; b2z a0; b2z (xorb (xorb hb0 hb1) a0); x11; x12; x13; x14; 0; 0; 0]
  = replicate 15 0.
Proof. by destruct pa, pb, ha0, ha1, d, hb0, hb1, a0. Qed.

Lemma trace_row_honest w bind n_bits row : block_wf (w_delta w) →
  Forall (wit_honest (w_delta w)) (w_gates w) → w_n_and w = Z.of_nat (length (w_gates w)) →
  0 < w_n_and w → 0 ≤ row → n_bits = w_n_and w * 128 →
  ∃ r, trace_row w bind n_bits row = Ok r ∧ length r = TRACE_WIDTH ∧
    evaluate_transition r = replicate 15 0 ∧ r !!! 14%nat = bind !!! Z.to_nat (row mod 4).
Proof.
  intros Hd Hf Hn Hpos Hrow ->. unfold trace_row.
  set (gb := if row <? _ then _ else _).
  assert (0 ≤ gb.1 ∧ 0 ≤ gb.2 < 128) as [Hg Hb].
  { unfold gb. destruct (Z.ltb_spec row (w_n_and w * 128)); cbn.
    - split; [by apply Z.div_pos|by apply Z.mod_pos_bound].
    - lia. }
  destruct gb as [gate_id bit]; cbn [fst snd] in *.
  destruct (lookup_in_range (w_gates w) (Z.min gate_id (w_n_and w - 1))) as [g Eg]; [lia|].
  rewrite Eg. eexists. split; [reflexivity|]. split; [done|].
  pose proof (Forall_lookup_1 _ _ _ _ Hf Eg) as Hh.
  destruct (honest_row_bits (w_delta w) g (Z.to_nat bit) Hh Hd ltac:(lia))
    as (pa & pb & Epa & Epb & Et & Ee).
  rewrite !get_bit_spec, Epa, Epb, Et, Ee, land_b2z. split; [apply transition_bits|done].
Qed.

Lemma next_pow2_ge n : 8 ≤ next_pow2 n.
Proof. unfold next_pow2. lia. Qed.

Lemma next_pow2_pow n : ∃ k, 0 ≤ k ∧ next_pow2 n = 2 ^ k.
Proof.
  unfold next_pow2. destruct (Z.leb_spec n 1); [by exists 3|].
  pose proof (Z.log2_up_nonneg n). destruct (Z.max_spec (2 ^ Z.log2_up n) 8) as [[_ ->]|[_ ->]]; [by exists 3|].
  by exists (Z.log2_up n).
Qed.

Lemma binding_length b : length (binding_to_field b) = 4%nat.
Proof. done. Qed.

Section honest.
Context `{Sha256} `{!Sha256Laws}.

(** Every honest witness has a trace that the constraints accept. *)
Lemma build_trace_honest w : block_wf (w_delta w) →
  Forall (wit_honest (w_delta w)) (w_gates w) → w_n_and w = Z.of_nat (length (w_gates w)) →
  0 < w_n_and w < 2 ^ 57 →
  ∃ trace, build_trace w
      = Ok (trace, mkPub (binding_to_field (binding_hash w)) (w_n_and w) (w_n_and w * 128)) ∧
    air_accepts (mkPub (binding_to_field (binding_hash w)) (w_n_and w) (w_n_and w * 128)) trace ∧
    Z.of_nat (length trace) = next_pow2 (w_n_and w * 128).
Proof.
  intros Hd Hf Hn Hb. unfold build_trace. rewrite (proj2 (Z.eqb_neq _ _)) by lia.
  unfold u64. rewrite (Z.mod_small (w_n_and w * 128)) by lia.
  set (bind := binding_to_field _). set (nb := w_n_and w * 128).
  set (row_of i := from_ok [] (trace_row w bind nb i)).
  assert (∀ i, 0 ≤ i → trace_row w bind nb i = Ok (row_of i) ∧ length (row_of i) = TRACE_WIDTH ∧
    evaluate_transition (row_of i) = replicate 15 0 ∧
    row_of i !!! 14%nat = bind !!! Z.to_nat (i mod 4)) as Hrow.
  { intros i Hi. destruct (trace_row_honest w bind nb i) as (r & E & ?); [done|done|done|lia|done..|].
    unfold row_of. by rewrite E. }
  rewrite (mapM_out_Ok row_of) by (intros i [? _]%elem_of_seqZ; by apply Hrow).
  rewrite bind_ok. eexists. split; [reflexivity|].
  pose proof (next_pow2_ge (Z.max nb 4)) as Hlen. split; [split_and!|].
  - apply Forall_fmap, Forall_forall. intros i [? _]%elem_of_seqZ. by apply Hrow.
  - apply Forall_forall. intros r Hr.
    assert (r ∈ row_of <$> seqZ 0 (next_pow2 (Z.max nb 4))) as (i & -> & [? _]%elem_of_seqZ)%list_elem_of_fmap.
    { rewrite removelast_firstn_len in Hr. by eapply elem_of_take in Hr as (? & ?%list_elem_of_lookup_2 & _). }
    by apply Hrow.
  - intros i Hi. cbn [p_bind].
    rewrite (list_lookup_total_correct _ i (row_of (Z.of_nat i))).
    + destruct (Hrow (Z.of_nat i)) as (_ & _ & _ & ->); [lia|].
      rewrite Z.mod_small by lia. by rewrite Nat2Z.id.
    + rewrite list_lookup_fmap, lookup_seqZ_lt by lia. by rewrite Z.add_0_l.
  - rewrite length_fmap, length_seqZ, Z2Nat.id by lia. by rewrite Z.max_l by lia.
Qed.
End honest.

(** ** The proof file *)
Lemma reads_lift {A} (a : A) : reads (lift (Ok a)) [] a.
Proof. intros pre post. unfold lift. rewrite bind_ok. f_equal. f_equal. cbn. lia. Qed.

Definition pub_ok (p : PublicInputs) : Prop :=
  is_word 64 (p_n_and p) ∧ is_word 64 (p_n_bits p) ∧
  length (p_bind p) = 4%nat ∧ Forall (λ b, 0 ≤ b < MODULUS) (p_bind p).

Lemma reads_pub p : pub_ok p → reads read_pub (pub_to_bytes p) p.
Proof.
  intros (Hn & Hb & Hl & Hf). unfold read_pub, pub_to_bytes. destruct p as [bind n b].
  cbn [p_bind p_n_and p_n_bits] in *.
  eapply reads_bind; [by apply reads_u64_le|]. eapply reads_bind; [by apply reads_u64_le|].
  assert (felt <$> bind = bind) as E.
  { rewrite <-(list_fmap_id bind) at 2. apply list_fmap_ext. intros i x Hx. unfold felt.
    apply Z.mod_small. by apply (Forall_lookup_1 _ _ _ _ Hf Hx). }
  rewrite <-E at 2. apply (reads_last _ (λ bind, mkPub (felt <$> bind) n b)).
  replace (take_n 4 read_u64_le) with (take_n (length bind) read_u64_le) by by rewrite Hl.
  apply reads_n. eapply Forall_impl; [exact Hf|]. intros x Hx. apply reads_u64_le.
  unfold is_word, MODULUS in *. lia.
Qed.

Lemma pub_from_to p : pub_ok p → pub_from_bytes (pub_to_bytes p) = Ok p.
Proof.
  intros Hp. pose proof (reads_pub p Hp [] []) as E. cbn [app length] in E.
  rewrite app_nil_r in E. change (Z.of_nat 0) with 0 in E. unfold pub_from_bytes. by rewrite E.
Qed.

Lemma pub_to_bytes_length p : length (p_bind p) = 4%nat → length (pub_to_bytes p) = 48%nat.
Proof.
  unfold pub_to_bytes. rewrite !length_app, !le_bytes_length. intros Hl.
  destruct (p_bind p) as [|b0 [|b1 [|b2 [|b3 [|]]]]]; try discriminate Hl.
  cbn [fmap list_fmap concat]. rewrite !length_app, !le_bytes_length. done.
Qed.

Lemma binding_pub_ok b n : 0 < n < 2 ^ 57 → pub_ok (mkPub (binding_to_field b) n (n * 128)).
Proof.
  intros Hn. unfold pub_ok, is_word. cbn [p_n_and p_n_bits p_bind]. split_and!; try lia; [done|].
  unfold binding_to_field. apply Forall_fmap, Forall_forall. intros i _.
  by apply Z.mod_pos_bound.
Qed.

Section proofs.
Context `{Sha256} `{!Sha256Laws} `{Winterfell} `{!WinterfellLaws}.

(** The text of an honest proof file. *)
Definition proof_text (p : PublicInputs) (w : Witness) (proof : list Z) : list Z :=
  le_bytes 8 (Z.of_nat (length (pub_to_bytes p))) ++ pub_to_bytes p ++ binding_hash w ++
  w_gc_hash w ++ w_r_root w ++ w_out_hash w ++ w_cm w ++ proof.

Lemma binding_hash_length w : length (binding_hash w) = 32%nat.
Proof. apply sha256_length. Qed.

Lemma verify_text p w proof : pub_ok p → p_n_and p = w_n_and w →
  p_bind p = binding_to_field (binding_hash w) →
  length (w_gc_hash w) = 32%nat → length (w_r_root w) = 32%nat →
  length (w_out_hash w) = 32%nat → length (w_cm w) = CM_BYTES →
  do_verify (proof_text p w proof) = wf_verify proof p.
Proof.
  intros Hp Hn Hb Hg Hr Ho Hc. pose proof (pub_to_bytes_length p (proj1 (proj2 (proj2 Hp)))) as Hl.
  assert (reads read_proof_header
    (le_bytes 8 (Z.of_nat (length (pub_to_bytes p))) ++ pub_to_bytes p ++ binding_hash w ++
     w_gc_hash w ++ w_r_root w ++ w_out_hash w ++ w_cm w)
    (p, binding_hash w, w_gc_hash w, w_r_root w, w_out_hash w, w_cm w)) as E.
  { unfold read_proof_header. eapply reads_bind; [apply reads_u64_le; by rewrite Hl|].
    rewrite Nat2Z.id. eapply reads_bind; [by apply reads_arr|].
    rewrite (pub_from_to p Hp). eapply reads_silent; [apply reads_lift|].
    eapply reads_bind; [apply reads_arr, sha256_length|].
    do 3 (eapply reads_bind; [by apply reads_arr|]).
    apply (reads_last (read_arr CM_BYTES) (λ cm, (_, _, _, _, _, cm))). by apply reads_arr. }
  specialize (E [] proof). cbn [app length] in E. rewrite <-!app_assoc in E.
  change (Z.of_nat 0) with 0 in E. unfold do_verify, proof_text. rewrite E, bind_ok, Hn.
  change (sha256_bytes (w_cm w ++ w_gc_hash w ++ w_r_root w ++ w_out_hash w ++
    le_bytes 8 (w_n_and w))) with (binding_hash w).
  rewrite !bool_decide_eq_true_2 by done. cbn [negb]. f_equal.
  rewrite Z.add_0_l, Nat2Z.id. rewrite !app_assoc. by rewrite drop_app_length.
Qed.

Lemma stark_honest {G} `{RandGen G} c key (rng : G) gr rng' cm : block_wf key →
  garble_circuit c key (Portable.FixedKeyAES key) rng = Ok (gr, rng') →
  length cm = CM_BYTES → 0 < Z.of_nat (length (gr_and_wit gr)) < 2 ^ 55 →
  next_pow2 (Z.of_nat (length (gr_and_wit gr)) * 128) ≤ wf_max_trace →
  ∃ p trace, do_prove (serialize_stark_witness gr cm)
      = Ok (proof_text p (witness_of gr cm) (wf_prove trace p)) ∧
    do_verify (proof_text p (witness_of gr cm) (wf_prove trace p)) = Ok true ∧
    length (pub_to_bytes p) = 48%nat ∧ length (gr_gc_hash gr) = 32%nat.
Proof.
  intros Hk E Hcm Hn Hfit. pose proof (FixedKeyAES_wf key Hk) as Haes.
  destruct (garble_circuit_inv c key _ rng gr rng' Haes E) as (_ & w0 & st & R).
  pose proof (garble_run_honest c _ gr w0 st Haes R ltac:(lia)) as Hh.
  set (w := witness_of gr cm). pose proof (gh_delta gr Hh) as Hd.
  destruct (build_trace_honest w Hd (gh_wit gr Hh) eq_refl) as (trace & Et & Ha & Htl);
    [cbn; lia|].
  set (p := mkPub _ _ _) in *.
  assert (pub_ok p) as Hp by (apply binding_pub_ok; cbn; lia).
  exists p, trace.
  pose proof (pub_to_bytes_length p eq_refl) as Hl. split_and!; [..|done|apply Hh].
  - unfold do_prove. rewrite parse_witness_text by done. rewrite bind_ok. fold w.
    unfold check_half_gates. rewrite check_gates_honest by (apply Hh || done).
    cbn [w_cm w witness_of]. rewrite Hcm, Nat.eqb_refl. cbn [negb].
    fold w. rewrite Et, bind_ok. done.
  - assert (trace_length_ok trace) as Hok.
    { unfold trace_length_ok. rewrite Htl. pose proof (next_pow2_ge (w_n_and w * 128)).
      split; [done|apply next_pow2_pow]. }
    rewrite verify_text; [by apply wf_complete|done..|apply Hh|apply Hh| |done].
    apply sha256_length.
Qed.

(** C19. An honest garbling is accepted when its trace, of a row per bit of its AND
    gates rounded up to a power of two, is one that the proof library takes: the prover reads the witness the C++
    code writes, its half-gate check passes, its trace satisfies the
    constraints, the verifier accepts the file it writes, and the hash of the
    tables is where the client reads it. *)
Theorem stark_honest_accepted {G} `{RandGen G} c key (rng : G) gr rng' cm : block_wf key →
  garble_circuit c key (Portable.FixedKeyAES key) rng = Ok (gr, rng') →
  length cm = CM_BYTES → 0 < Z.of_nat (length (gr_and_wit gr)) < 2 ^ 55 →
  next_pow2 (Z.of_nat (length (gr_and_wit gr)) * 128) ≤ wf_max_trace →
  ∃ proof, do_prove (serialize_stark_witness gr cm) = Ok proof ∧ do_verify proof = Ok true ∧
    le_val (take 8 proof) = 48 ∧ take 32 (drop (8 + 48 + 32) proof) = gr_gc_hash gr.
Proof.
  intros Hk E Hcm Hn Hfit.
  destruct (stark_honest c key rng gr rng' cm Hk E Hcm Hn Hfit) as (p & trace & Ep & Ev & Hl & Hg).
  eexists. split; [exact Ep|]. split; [exact Ev|]. unfold proof_text. split.
  - rewrite take_app_length' by by rewrite le_bytes_length.
    rewrite Hl. apply le_val_bytes. by unfold is_word.
  - rewrite (app_assoc (le_bytes 8 _)), (app_assoc (_ ++ _)).
    rewrite drop_app_length' by (rewrite !length_app, le_bytes_length, Hl, binding_hash_length; done).
    apply take_app_length'. by symmetry.
Qed.

(** A trace that holds the binding and nothing else. *)
Definition binding_row (b : Z) : list Z := replicate 14 0 ++ [b; 0; 0; 0].
Definition binding_trace (p : PublicInputs) : list (list Z) :=
  (binding_row <$> p_bind p) ++ replicate 4 (binding_row 0).

Lemma binding_trace_accepted p : length (p_bind p) = 4%nat →
  air_accepts p (binding_trace p) ∧ trace_length_ok (binding_trace p) ∧
  Forall (λ row, ∃ b, row = binding_row b) (binding_trace p).
Proof.
  intros Hl.
  assert (Forall (λ row, ∃ b, row = binding_row b) (binding_trace p)) as Hf.
  { apply Forall_app. split; [|apply Forall_replicate; by exists 0].
    apply Forall_fmap, Forall_forall. intros b _. by exists b. }
  split; [|split; [|done]].
  - split_and!.
    + eapply Forall_impl; [exact Hf|]. by intros row [b ->].
    + apply Forall_forall. intros r Hr. rewrite removelast_firstn_len in Hr.
      rewrite Forall_forall in Hf. destruct (Hf r) as [b ->]; [|done].
      by eapply elem_of_take in Hr as (? & ?%list_elem_of_lookup_2 & _).
    + intros i Hi. unfold binding_trace. destruct (p_bind p) as [|b0 [|b1 [|b2 [|b3 [|]]]]]; try done.
      by destruct i as [|[|[|[|i]]]]; [..|lia].
  - unfold trace_length_ok, binding_trace. rewrite length_app, length_fmap, length_replicate, Hl.
    pose proof wf_min_trace. split; [cbn; lia|by exists 3].
Qed.

(** An accepted file for any hashes and any commitment. *)
Lemma stark_vacuous (gc_hash r_root out_hash cm : list Z) n : 0 < n < 2 ^ 57 →
  length gc_hash = 32%nat → length r_root = 32%nat → length out_hash = 32%nat →
  length cm = CM_BYTES →
  let w := mkWitness n cm gc_hash r_root out_hash [] [] in
  let p := mkPub (binding_to_field (binding_hash w)) n (n * 128) in
  do_verify (proof_text p w (wf_prove (binding_trace p) p)) = Ok true ∧ length (pub_to_bytes p) = 48%nat.
Proof.
  intros Hn Hg Hr Ho Hc w p.
  assert (pub_ok p) as Hp by by apply binding_pub_ok.
  destruct (binding_trace_accepted p eq_refl) as (Ha & Hl & _).
  split; [|by apply pub_to_bytes_length].
  rewrite verify_text by done. by apply wf_complete.
Qed.

(** C39. The constraints do not mention the garbling.  Every public input has an
    accepted trace that is zero outside of the binding column.  With it, for any
    commitment, hash of the tables, root and hash of the outputs and any number of
    gates, the verifier accepts a file that announces them: the length of the public
    input, the public input, the binding, the four values as chosen, and the proof of
    the trace. *)
Theorem stark_constraints_vacuous :
  (∀ p, length (p_bind p) = 4%nat → ∃ trace, air_accepts p trace ∧ trace_length_ok trace ∧
     Forall (λ row, ∃ b, row = replicate 14 0 ++ [b; 0; 0; 0]) trace) ∧
  (∀ (gc_hash r_root out_hash cm : list Z) n, 0 < n < 2 ^ 57 →
     length gc_hash = 32%nat → length r_root = 32%nat → length out_hash = 32%nat →
     length cm = CM_BYTES →
     let binding := sha256_bytes (cm ++ gc_hash ++ r_root ++ out_hash ++ le_bytes 8 n) in
     let p := mkPub (binding_to_field binding) n (n * 128) in
     ∃ trace, Forall (λ row, ∃ b, row = replicate 14 0 ++ [b; 0; 0; 0]) trace ∧
       do_verify (le_bytes 8 48 ++ pub_to_bytes p ++ binding ++
                  gc_hash ++ r_root ++ out_hash ++ cm ++ wf_prove trace p) = Ok true).
Proof.
  split.
  - intros p Hp. exists (binding_trace p). by apply binding_trace_accepted.
  - intros gc_hash r_root out_hash cm n Hn Hg Hr Ho Hc binding p.
    destruct (stark_vacuous gc_hash r_root out_hash cm n Hn Hg Hr Ho Hc) as (Hv & Hl).
    exists (binding_trace p). split; [by apply binding_trace_accepted|].
    unfold proof_text in Hv. rewrite Hl in Hv. exact Hv.
Qed.
End proofs.

(** ** A proof system for the witnesses: the proof is the trace *)
Fixpoint chunks (fuel : nat) (l : list Z) : list (list Z) :=
  match fuel, l with
  | S fuel, _ :: _ => take TRACE_WIDTH l :: chunks fuel (drop TRACE_WIDTH l)
  | _, _ => []
  end.

Definition air_acceptsb (p : PublicInputs) (trace : list (list Z)) : bool :=
  forallb (λ row, bool_decide (evaluate_transition row = replicate 15 0)) (removelast trace) &&
  forallb (λ i, bool_decide ((trace !!! i) !!! 14%nat = p_bind p !!! i)) (seq 0 4).

Definition trace_winterfell : Winterfell := {|
  wf_prove trace p := concat trace;
  wf_verify proof p := Ok (air_acceptsb p (chunks (length proof) proof));
  wf_max_trace := 2 ^ 29;
|}.

Lemma chunks_concat fuel trace : Forall (λ row, length row = TRACE_WIDTH) trace →
  (length (concat trace) ≤ fuel)%nat → chunks fuel (concat trace) = trace.
Proof.
  intros Hf. revert fuel. induction Hf as [|row trace Hr _ IH]; intros fuel Hl.
  - by destruct fuel.
  - cbn [concat] in *. rewrite length_app, Hr in Hl.
    destruct fuel as [|fuel]; [unfold TRACE_WIDTH in Hl; lia|].
    assert (∃ x l, row ++ concat trace = x :: l) as (x & l & E) by (destruct row; [done|by do 2 eexists]).
    rewrite E. cbn [chunks]. rewrite <-E.
    rewrite take_app_length', drop_app_length' by done. f_equal. apply IH.
    unfold TRACE_WIDTH in Hl. lia.
Qed.

Lemma trace_winterfell_laws : @WinterfellLaws trace_winterfell.
Proof.
  constructor; [|done]. intros trace p (Hl & Ht & Ha) _. cbn [wf_verify wf_prove trace_winterfell].
  rewrite chunks_concat by done. f_equal. unfold air_acceptsb.
  apply andb_true_iff. split; apply forallb_forall; intros x Hx%list_elem_of_In.
  - apply bool_decide_eq_true. rewrite Forall_forall in Ht. auto.
  - apply bool_decide_eq_true, Ha. apply elem_of_seq in Hx. lia.
Qed.

Lemma stark_honest_accepted_witness : ∃ proof,
  @do_prove toy_sha256 trace_winterfell
    (@serialize_stark_witness toy_sha256 adder_gr (replicate CM_BYTES 9)) = Ok proof ∧
  @do_verify toy_sha256 trace_winterfell proof = Ok true ∧
  le_val (take 8 proof) = 48 ∧ take 32 (drop (8 + 48 + 32) proof) = gr_gc_hash adder_gr.
Proof.
  apply (@stark_honest_accepted toy_sha256 toy_sha256_laws trace_winterfell
           trace_winterfell_laws Z lcg adder (block_of 5) 1 adder_gr adder_run.2
           (replicate CM_BYTES 9) (block_of_wf 5) adder_garbled (length_replicate _ _));
    apply (bool_decide_eq_true_1 _); by vm_compute.
Defined.

Lemma stark_constraints_vacuous_witness :
  let ff := replicate 32 0xff in let z := replicate 32 0 in let cm := replicate CM_BYTES 0 in
  let binding := @sha256_bytes toy_sha256 (cm ++ ff ++ z ++ z ++ le_bytes 8 6800) in
  let p := mkPub (binding_to_field binding) 6800 (6800 * 128) in
  ∃ trace, Forall (λ row, ∃ b, row = replicate 14 0 ++ [b; 0; 0; 0]) trace ∧
    @do_verify toy_sha256 trace_winterfell (le_bytes 8 48 ++ pub_to_bytes p ++ binding ++
       ff ++ z ++ z ++ cm ++ @wf_prove trace_winterfell trace p) = Ok true.
Proof.
  apply (proj2 (@stark_constraints_vacuous toy_sha256 toy_sha256_laws trace_winterfell
           trace_winterfell_laws) (replicate 32 0xff) (replicate 32 0) (replicate 32 0)
           (replicate CM_BYTES 0) 6800);
    first [apply length_replicate | apply (bool_decide_eq_true_1 _); by vm_compute].
Defined.
