(* ===== verification/VoprfE2e.v ===== *)
(** * The protocol

    [run_server] and [run_client] of [voprf-bench/voprf_e2e.cpp]: the messages
    of the server in order, and what the client computes from them.  The OT
    extension (libOTe) is a parameter: the server's random pads, and the pads
    the client gets for its choices. *)

From S2P Require Import Prelude Xor Block Aes Circuit GcMmo Bits PlaintextOprf ProbeResilient VoprfSer StarkGarble.

(** ** Messages on the channel *)

(** One [chl.send]: the bytes of a block or of a vector of blocks. *)
Abbreviation frame := (list Z).

Definition chan (A : Type) : Type := list frame → outcome (A * list frame).

#[export] Instance chan_ret : MRet chan := λ A a q, Ok (a, q).
#[export] Instance chan_bind : MBind chan := λ A B f p q,
  match p q with
  | Ok (a, q) => f a q
  | Throw e => Throw e
  | UB => UB
  end.

(** [chl.recv] into a buffer of [n] bytes; a message of another size is an
    error of the channel. *)
Definition recv_frame (n : Z) : chan frame := λ q,
  match q with
  | [] => Throw "channel closed"
  | f :: q => if Z.of_nat (length f) =? n then Ok (f, q) else Throw "message size"
  end.

(** The block that carries a [u64]. *)
Definition send_u64 (x : Z) : frame := le_bytes 8 x ++ replicate 8 0.
Definition recv_u64 : chan Z := b ← recv_frame 16; mret (le_val (take 8 b)).

Definition send_blob (data : list Z) : list frame :=
  let n := Z.of_nat (length data) in
  let nblk := u64 (n + 15) / 16 in
  send_u64 n ::
    (if nblk =? 0 then [] else [data ++ replicate (Z.to_nat (nblk * 16 - n)) 0]).

Definition recv_blob : chan (list Z) :=
  n ← recv_u64;
  let nblk := u64 (n + 15) / 16 in
  if nblk =? 0 then mret (replicate (Z.to_nat n) 0)
  else
    blocks ← recv_frame (nblk * 16);
    mret (take (Z.to_nat n) blocks).

(** A loop that receives [n] messages. *)
Fixpoint recv_n {A} (n : nat) (p : chan A) : chan (list A) :=
  match n with
  | O => mret []
  | S n => x ← p; xs ← recv_n n p; mret (x :: xs)
  end.

Definition of_outcome {A} (m : outcome A) : chan A := λ q, a ← m; Ok (a, q).

Record Config := mkConfig { cfg_m : Z; n_ot : Z; tables_online : bool }.

(** ** The server *)
Section server.
Context {G : Type} `{RandGen G} `{Sha256} `{Winterfell}.

(** What the server keeps of one garbled circuit. *)
Record ServerCircuit := mkServerCircuit {
  sc_gc : GarbleResult;
  sc_blob : list Z;
  sc_shares : list ShareLabelPair;
}.

Definition share_step (c : Circuit) (gr : GarbleResult) (st : list ShareLabelPair * G) (j : Z)
    : outcome (list ShareLabelPair * G) :=
  let '(shares, rng) := st in
  w ← vget (gr_wire0 gr) (u64 (n_input0 c + j));
  let '(p, rng) := make_share_labels w (gr_delta gr) rng in
  Ok (shares ++ [p], rng).

Definition garble_step (c : Circuit) (mmo_key : Block) (mmo : AES)
    (st : list ServerCircuit * G) (i : Z) : outcome (list ServerCircuit * G) :=
  let '(gcs, rng) := st in
  '(gr, rng) ← garble_circuit c mmo_key mmo rng;
  blob ← serialize_tables gr;
  '(shares, rng) ← foldM (share_step c gr) ([], rng) (seqZ 0 (n_input1 c));
  Ok (gcs ++ [mkServerCircuit gr blob shares], rng).

(** The masked share labels of wire [j] of circuit [i]. *)
Definition mask_step (gcs : list ServerCircuit) (otMsg : list (Block * Block)) (masks : list Z)
    (ij : Z * Z) : outcome (list Z) :=
  let '(i, j) := ij in
  sc ← vget gcs i;
  sp ← vget (sc_shares sc) j;
  let idx0 := i * 256 + 2 * j in
  let idx1 := idx0 + 1 in
  '(r00, r01) ← vget otMsg idx0;
  '(r10, r11) ← vget otMsg idx1;
  let delta := gr_delta (sc_gc sc) in
  let c00 := xor_block r00 (s0_0 sp) in
  let c01 := xor_block r01 (xor_block (s0_0 sp) delta) in
  let c10 := xor_block r10 (s1_0 sp) in
  let c11 := xor_block r11 (xor_block (s1_0 sp) delta) in
  Ok (push_block (push_block (push_block (push_block masks c00) c01) c10) c11).

(** The active labels of the key. *)
Definition key_labels (key_bits : list Z) (gr : GarbleResult) : outcome (list Z) :=
  foldM (λ o j,
      w ← vget (gr_wire0 gr) j;
      b ← vget key_bits j;
      Ok (push_block o (label_for_bit w (gr_delta gr) b)))
    [] (seqZ 0 128).

Record ServerRun := mkServerRun {
  sv_key : Block;
  sv_gcs : list ServerCircuit;
  sv_frames : list frame;
}.

(** [run_server], from the sampling of the OPRF key on; [otMsg] are the pads of
    the OT extension.  [std::exit] is a throw. *)
Definition run_server (cfg : Config) (circ : Circuit) (rng : G) (otMsg : list (Block * Block))
    : outcome ServerRun :=
  let '(oprf_key, rng) := random_block rng in
  let cm := key_commitment oprf_key 128 in
  let key_bits := block_to_bits128 oprf_key in
  let '(mmo_key, rng) := random_block rng in
  let mmo := Portable.FixedKeyAES mmo_key in
  '(gcs, rng) ← foldM (garble_step circ mmo_key mmo) ([], rng) (seqZ 0 (cfg_m cfg));
  gc0 ← vget gcs 0;
  let wit := serialize_stark_witness (sc_gc gc0) cm in
  proof ← (match do_prove wit with Ok p => Ok p | _ => Throw "STARK prove failed" end);
  let meta := foldl (λ o sc, push_arr32 o (gr_gc_hash (sc_gc sc))) (push_u64 [] (cfg_m cfg)) gcs in
  let blobs := concat ((λ sc, send_blob (sc_blob sc)) <$> gcs) in
  if negb (n_ot cfg =? u64 (cfg_m cfg * 256)) then Throw "n_ot must be m*256"
  else
    masks ← foldM (mask_step gcs otMsg) []
              (i ← seqZ 0 (cfg_m cfg); j ← seqZ 0 128; [(i, j)]);
    key_labs ← mapM_out (λ sc, key_labels key_bits (sc_gc sc)) gcs;
    Ok (mkServerRun oprf_key gcs
      (send_blob cm ++ send_blob meta ++ (if tables_online cfg then [] else blobs) ++
       send_blob masks ++ (if tables_online cfg then blobs else []) ++
       concat (send_blob <$> key_labs) ++ send_blob proof ++ send_blob oprf_key)).
End server.

(** ** The client *)
Section client.
Context {G : Type} `{RandGen G} `{Sha256} `{Winterfell}.

(** [memcpy(v.data() + off, src, n)] *)
Definition vcopy (v : list Z) (off : Z) (src : list Z) : outcome (list Z) :=
  if Z.of_nat (length v) <? off + Z.of_nat (length src) then UB
  else Ok (take (Z.to_nat off) v ++ src ++ drop (Z.to_nat off + length src) v).

(** One input: sixteen random bytes, their hash in shares. *)
Definition input_step (st : list (list Z) * list Z * G) (i : Z)
    : outcome (list (list Z) * list Z * G) :=
  let '(xs, all_shares, rng) := st in
  let '(x, rng) := draw_bytes 16 rng in
  let bits := block_to_bits128 (H1 x) in
  let '(shares, rng) := encode_shares bits rng in
  all_shares ← vcopy all_shares (i * 256) (take 256 shares);
  Ok (xs ++ [x], all_shares, rng).

(** The pads of the OT outputs removed from the chosen masks. *)
Definition unmask (choices : list bool) (otOut : list Block) : parser (list Block) :=
  cs ← take_n (length choices) (c0 ← take_block; c1 ← take_block; mret (c0, c1));
  mret (zip_with (λ '(choice, pad) '(c0, c1), xor_block pad (if choice : bool then c1 else c0))
          (zip choices otOut) cs).

(** [ys[i]] of one circuit. *)
Definition client_eval (circ : Circuit) (tm : TablesMsg) (key_labs share_labels : list Block)
    (x : list Z) (i : Z) : outcome (list Z) :=
  let gr := mkGarble (tm_tables tm) [] [] (tm_delta tm) (tm_aes_key tm) (tm_out_decode tm)
              (tm_gc_hash tm) (tm_R_root tm) in
  let aes := Portable.FixedKeyAES (tm_aes_key tm) in
  in0 ← mapM_out (vget key_labs) (seqZ 0 128);
  in1 ← mapM_out (λ j,
      l0 ← vget share_labels (i * 256 + 2 * j);
      l1 ← vget share_labels (i * 256 + 2 * j + 1);
      Ok (reconstruct_label l0 l1)) (seqZ 0 128);
  out_labs ← eval_circuit_labels circ aes gr (in0 ++ in1);
  out_bits ← decode_outputs gr out_labs;
  if (length out_bits <? 128)%nat then UB else Ok (H2 x (bits128_to_block out_bits)).

(** The check that ties the proof to the tables of circuit 0. *)
Definition check_binding (proof : list Z) (blob0 : outcome (list Z)) (hash0 : outcome (list Z))
    : outcome bool :=
  if Z.of_nat (length proof) <=? 16 then Ok false
  else
    '(pub_len, _) ← take_u64 proof 0;
    let off := u64 (8 + pub_len + 32) in
    if u64 (off + 32) <=? Z.of_nat (length proof) then
      '(proof_gc, _) ← take_bytes 32 proof off;
      t0 ← blob0 ≫= deserialize_tables;
      h0 ← hash0;
      Ok (bool_decide (proof_gc = tm_gc_hash t0) && bool_decide (proof_gc = h0))
    else Ok false.

Record EvalState := mkEval {
  ev_stopped : bool;
  ev_plaintext_ok : bool;
  ev_plain_match : Z;
  ev_ys : list (list Z);
}.

(** One iteration of the evaluation loop; a hash mismatch breaks out of it. *)
Definition eval_step (circ : Circuit) (oprf_key : Block) (table_blobs : list (list Z))
    (gc_hashes : list (list Z)) (key_labs : list (list Block)) (share_labels : list Block)
    (xs : list (list Z)) (st : EvalState) (i : Z) : outcome EvalState :=
  if ev_stopped st then Ok st
  else
    blob ← vget table_blobs i;
    tm ← deserialize_tables blob;
    h ← vget gc_hashes i;
    if negb (bool_decide (tm_gc_hash tm = h))
    then Ok (mkEval true false (ev_plain_match st) (ev_ys st))
    else
      kl ← vget key_labs i;
      x ← vget xs i;
      y ← client_eval circ tm kl share_labels x i;
      ys ← vset (ev_ys st) i y;
      let y_ref := F_k oprf_key x in
      if bool_decide (y_ref = y)
      then Ok (mkEval false (ev_plaintext_ok st) (ev_plain_match st + 1) ys)
      else Ok (mkEval false false (ev_plain_match st) ys).

Record ClientRun := mkClientRun {
  cl_xs : list (list Z);
  cl_stark_ok : bool;
  cl_bind_ok : bool;
  cl_ys : list (list Z);
  cl_vok : Z;
}.

(** What the client reads off the channel, in order. *)
Record ClientInput := mkClientInput {
  ci_blobs : list (list Z);
  ci_hashes : list (list Z);
  ci_masks : list Z;
  ci_key_labels : list (list Block);
  ci_proof : list Z;
  ci_key_blob : list Z;
}.

Definition recv_meta (cfg : Config) : chan (list (list Z)) :=
  meta ← recv_blob;
  '(m_meta, moff) ← of_outcome (take_u64 meta 0);
  if negb (m_meta =? cfg_m cfg) then of_outcome (Throw "m mismatch")
  else
    '(hashes, _) ← of_outcome (take_n (Z.to_nat (cfg_m cfg)) (take_bytes 32) meta moff);
    mret hashes.

Definition recv_key_labels : chan (list Block) :=
  blob ← recv_blob;
  '(labs, _) ← of_outcome (take_n 128 take_block blob 0);
  mret labs.

Definition recv_all (cfg : Config) : chan ClientInput :=
  _ ← recv_blob;
  hashes ← recv_meta cfg;
  off_blobs ← (if tables_online cfg then mret [] else recv_n (Z.to_nat (cfg_m cfg)) recv_blob);
  masks ← recv_blob;
  on_blobs ← (if tables_online cfg then recv_n (Z.to_nat (cfg_m cfg)) recv_blob else mret []);
  key_labs ← recv_n (Z.to_nat (cfg_m cfg)) recv_key_labels;
  proof ← recv_blob;
  key_blob ← recv_blob;
  mret (mkClientInput (if tables_online cfg then on_blobs else off_blobs) hashes masks key_labs
          proof key_blob).

(** [run_client]; [ot] gives the OT outputs for the client's choices. *)
Definition run_client (cfg : Config) (circ : Circuit) (frames : list frame) (rng : G)
    (ot : list bool → list Block) : outcome ClientRun :=
  '(ci, _) ← recv_all cfg frames;
  '(xs, all_shares, rng) ← foldM input_step ([], replicate (Z.to_nat (n_ot cfg)) 0, rng)
                             (seqZ 0 (cfg_m cfg));
  let choices := (λ s, negb (Z.land s 1 =? 0)) <$> all_shares in
  '(share_labels, _) ← unmask choices (ot choices) (ci_masks ci) 0;
  let oprf_key := if Nat.eqb (length (ci_key_blob ci)) 16 then ci_key_blob ci else zero_block in
  let stark_ok := match do_verify (ci_proof ci) with Ok true => true | _ => false end in
  bind_ok ← (if stark_ok then check_binding (ci_proof ci) (vget (ci_blobs ci) 0)
                                (vget (ci_hashes ci) 0)
             else Ok false);
  let st := mkEval false true 0 (replicate (Z.to_nat (cfg_m cfg)) (replicate 32 0)) in
  st ← (if stark_ok && bind_ok
        then foldM (eval_step circ oprf_key (ci_blobs ci) (ci_hashes ci) (ci_key_labels ci)
                      share_labels xs) st (seqZ 0 (cfg_m cfg))
        else Ok st);
  let vok := stark_ok && bind_ok && ev_plaintext_ok st && (ev_plain_match st =? s32 (cfg_m cfg)) in
  Ok (mkClientRun xs stark_ok bind_ok (ev_ys st) (b2z vok)).
End client.
