(* ===== verification/VoprfProps.v ===== *)
(** * Correctness of the protocol

    The client of [voprf_e2e.cpp], run on the messages of the server, obtains
    the value of the circuit on the server's key and its own hashed inputs, and
    accepts exactly when these are the values of the OPRF. *)

From S2P Require Import Prelude Xor Block Aes Circuit GcMmo Bits GcProps Merkle Bristol PlaintextOprf ProbeResilient VoprfSer StarkGarble StarkProps VoprfE2e Concrete.

(** ** The channel *)

(** [sends p fs a]: in front of any messages, [p] receives [fs] as [a]. *)
Definition sends {A} (p : chan A) (fs : list frame) (a : A) : Prop :=
  ∀ q, p (fs ++ q) = Ok (a, q).

Lemma sends_ret {A} (a : A) : sends (mret a) [] a.
Proof. done. Qed.

Lemma sends_bind {A B} (p : chan A) (f : A → chan B) fs gs a b :
  sends p fs a → sends (f a) gs b → sends (p ≫= f) (fs ++ gs) b.
Proof. intros Hp Hf q. unfold mbind, chan_bind. by rewrite <-app_assoc, Hp, Hf. Qed.

Lemma sends_last {A B} (p : chan A) (f : A → B) fs a :
  sends p fs a → sends (p ≫= λ x, mret (f x)) fs (f a).
Proof. intros Hp. rewrite <-(app_nil_r fs). by apply (sends_bind _ _ _ _ a). Qed.

Lemma sends_silent {A B} (p : chan A) (f : A → chan B) fs a b :
  sends p [] a → sends (f a) fs b → sends (p ≫= f) fs b.
Proof. intros. by apply (sends_bind _ _ [] fs a). Qed.

Lemma sends_n {A B} (p : chan B) (s : A → list frame) (f : A → B) l :
  Forall (λ a, sends p (s a) (f a)) l → sends (recv_n (length l) p) (concat (s <$> l)) (f <$> l).
Proof.
  induction 1 as [|a l Ha _ IH]; cbn [length recv_n fmap list_fmap concat]; [done|].
  apply (sends_bind _ _ _ _ (f a)); [done|]. by apply sends_last.
Qed.

Lemma sends_of_outcome {A} (m : outcome A) a : m = Ok a → sends (of_outcome m) [] a.
Proof. by intros -> q. Qed.

Lemma sends_u64 x : is_word 64 x → sends recv_u64 [send_u64 x] x.
Proof.
  intros Hx q. unfold recv_u64, mbind, chan_bind. cbn [app recv_frame].
  unfold send_u64 at 1. rewrite length_app, le_bytes_length, length_replicate. cbn [Z.eqb].
  unfold send_u64. change (Z.of_nat (8 + 8) =? 16) with true. cbv iota.
  rewrite take_app_length' by by rewrite le_bytes_length.
  unfold mret, chan_ret. by rewrite le_val_bytes.
Qed.

(** Every blob is received as it was sent. *)
Lemma sends_blob d : Z.of_nat (length d) < 2 ^ 63 → sends recv_blob (send_blob d) d.
Proof.
  intros Hd. unfold recv_blob, send_blob. set (n := Z.of_nat (length d)) in *.
  assert (u64 (n + 15) = n + 15) as -> by (apply Z.mod_small; lia).
  change (send_u64 n :: ?l) with ([send_u64 n] ++ l).
  pose proof (Z.div_mod (n + 15) 16 ltac:(lia)). pose proof (Z.mod_pos_bound (n + 15) 16 ltac:(lia)).
  apply (sends_bind _ _ _ _ n); [apply sends_u64; unfold is_word; lia|]. cbv zeta.
  assert (u64 (n + 15) = n + 15) as -> by (apply Z.mod_small; lia).
  destruct (Z.eqb_spec ((n + 15) / 16) 0) as [E|E].
  - assert (d = []) as -> by (apply nil_length_inv; lia). done.
  - set (k := (n + 15) / 16) in *.
    rewrite <-(take_app_length' d (replicate (Z.to_nat (k * 16 - n)) 0) (Z.to_nat n)) at 2 by lia.
    apply (sends_last (recv_frame (k * 16)) (λ b, take (Z.to_nat n) b)
             _ (d ++ replicate (Z.to_nat (k * 16 - n)) 0)).
    intros q. unfold recv_frame. cbn [app].
    rewrite length_app, length_replicate. by rewrite (proj2 (Z.eqb_eq _ _)) by lia.
Qed.

(** ** Lists of blocks of one length *)
Lemma lookup_concat {A} (l : list (list A)) n i k x :
  Forall (λ x, length x = n) l → (k < n)%nat → l !! i = Some x →
  concat l !! (i * n + k)%nat = x !! k.
Proof.
  intros Hf Hk. revert i. induction Hf as [|y l Hy _ IH]; intros i Hi; [done|].
  cbn [concat]. destruct i as [|i].
  - injection Hi as ->. rewrite lookup_app_l by lia. done.
  - rewrite lookup_app_r by lia. rewrite <-(IH i Hi). f_equal. lia.
Qed.

(** The index pairs of the mask loop. *)
Definition wire_pairs (n : nat) : list (Z * Z) :=
  i ← seqZ 0 (Z.of_nat n); j ← seqZ 0 128; [(i, j)].

Definition wire_pairs_z (n : Z) : list (Z * Z) :=
  i ← seqZ 0 n; j ← seqZ 0 128; [(i, j)].

Lemma wire_pairs_concat n :
  wire_pairs n = concat ((λ i, (λ j, (i, j)) <$> seqZ 0 128) <$> seqZ 0 (Z.of_nat n)).
Proof.
  unfold wire_pairs. induction (seqZ 0 (Z.of_nat n)) as [|i l IH]; [done|].
  cbn [mbind list_bind fmap list_fmap concat]. f_equal. exact IH.
Qed.

Lemma wire_pairs_lookup n i j : (i < n)%nat → (j < 128)%nat →
  wire_pairs n !! (i * 128 + j)%nat = Some (Z.of_nat i, Z.of_nat j).
Proof.
  intros Hi Hj. rewrite wire_pairs_concat.
  rewrite (lookup_concat _ 128 i j ((λ j, (Z.of_nat i, j)) <$> seqZ 0 128)); [|..|done|].
  - rewrite list_lookup_fmap, lookup_seqZ_lt by lia. done.
  - apply Forall_fmap, Forall_forall. intros x _. cbn. by rewrite length_fmap, length_seqZ.
  - rewrite list_lookup_fmap, lookup_seqZ_lt by lia. done.
Qed.

Lemma wire_pairs_length n : length (wire_pairs n) = (n * 128)%nat.
Proof.
  rewrite wire_pairs_concat, (concat_length _ 128).
  - by rewrite length_fmap, length_seqZ, Nat2Z.id.
  - apply Forall_fmap, Forall_forall. intros x _. cbn. by rewrite length_fmap, length_seqZ.
Qed.

Lemma wire_pairs_range n ij : ij ∈ wire_pairs n →
  0 ≤ ij.1 < Z.of_nat n ∧ 0 ≤ ij.2 < 128.
Proof.
  unfold wire_pairs. intros (i & Hin & Hi%elem_of_seqZ)%list_elem_of_bind.
  apply list_elem_of_bind in Hin as (j & [= ->]%list_elem_of_singleton & Hj%elem_of_seqZ).
  cbn. lia.
Qed.

(** ** The server *)
Section server.
Context {G : Type} `{RandGen G} `{Sha256} `{!Sha256Laws}.

(** The circuits of the protocol: 128 key bits, 128 input bits, 128 output bits. *)
Record protocol_circuit (c : Circuit) : Prop := {
  pc_wf : circuit_wf c;
  pc_in0 : n_input0 c = 128;
  pc_in1 : n_input1 c = 128;
  pc_out : n_output c = 128;
  pc_and : 0 < count_and (gates c) < 2 ^ 55;
}.

(** What the server holds of each circuit. *)
Record server_circuit_ok (c : Circuit) (key : Block) (sc : ServerCircuit) : Prop := {
  so_garbled : garbled c (Portable.FixedKeyAES key) (sc_gc sc);
  so_run : ∃ (rng rng' : G),
    garble_circuit c key (Portable.FixedKeyAES key) rng = Ok (sc_gc sc, rng');
  so_key : gr_aes_key (sc_gc sc) = key;
  so_sendable : sendable (sc_gc sc);
  so_wit : Z.of_nat (length (gr_and_wit (sc_gc sc))) = count_and (gates c);
  so_blob : sc_blob sc = tables_text (sc_gc sc);
  so_size : Z.of_nat (length (tables_text (sc_gc sc))) < 2 ^ 63;
  so_shares : length (sc_shares sc) = 128%nat;
  so_share : ∀ j sp, sc_shares sc !! j = Some sp → block_wf (s0_0 sp) ∧
    s1_0 sp = xor_block (gr_wire0 (sc_gc sc) !!! (128 + j)%nat) (s0_0 sp);
}.

Lemma garbling_sendable c key aes gr w0 st : protocol_circuit c → block_wf key →
  gr_aes_key gr = key → schedule_wf aes → garbled c aes gr → garble_run c aes gr w0 st →
  sendable gr ∧ Z.of_nat (length (gr_and_wit gr)) = count_and (gates c) ∧
  Z.of_nat (length (gr_tables gr)) = count_and (gates c) ∧ length (gr_out_decode gr) = 128%nat.
Proof.
  intros [Hc Hi0 Hi1 Ho Ha] Hk Ek Haes Hg R.
  destruct (garble_gates_tables _ _ _ _ _ (gr_run_gates _ _ _ _ _ R)) as [Et Ew].
  cbn [gs_tables gs_wit length] in Et, Ew.
  destruct (gr_run_wf _ _ _ _ _ R) as [_ Hwf]. rewrite <-(gr_run_tables _ _ _ _ _ R) in Et, Hwf.
  rewrite <-(gr_run_wit _ _ _ _ _ R) in Ew.
  split; [|split; [lia|split; [lia|by rewrite (gr_run_decode _ _ _ _ _ R), Ho]]]. constructor.
  - by rewrite Ek.
  - apply (gr_run_delta _ _ _ _ _ R).
  - exact Hwf.
  - rewrite Et. apply Z.div_le_lower_bound; lia.
  - apply (gd_blocks _ _ _ Hg).
  - pose proof (gd_wires _ _ _ Hg). pose proof (wf_inputs c Hc). lia.
  - rewrite (gr_run_decode _ _ _ _ _ R), Ho. done.
  - rewrite (gr_run_hash _ _ _ _ _ R). apply sha256_length.
  - apply (merkle_root_wf _ _ (gr_run_root _ _ _ _ _ R)).
Qed.

Lemma tables_text_length gr : sendable gr →
  length (tables_text gr)
    = (120 + 32 * length (gr_tables gr) + 2048 + length (gr_out_decode gr))%nat.
Proof.
  intros [[Hk _] [Hd _] Ht _ Hw Hn _ Hg Hr]. unfold tables_text.
  rewrite !length_app, !le_bytes_length, Hk, Hd, Hg, Hr.
  rewrite (concat_length (table_bytes <$> gr_tables gr) 32), length_fmap.
  2: { apply Forall_fmap. eapply Forall_impl; [exact Ht|]. intros t [[H0' _] [H1' _]]. cbn.
       unfold table_bytes. rewrite length_app. lia. }
  rewrite (concat_length (take 128 (gr_wire0 gr)) 16), length_take.
  2: { apply Forall_take. eapply Forall_impl; [exact Hw|]. by intros b []. }
  lia.
Qed.

(** The share labels of one circuit. *)
Lemma share_loop c gr (rng : G) (n : nat) : circuit_wf c →
  Z.of_nat (length (gr_wire0 gr)) = n_wires c → Forall block_wf (gr_wire0 gr) →
  block_wf (gr_delta gr) → Z.of_nat n ≤ n_input1 c →
  ∃ shares rng', foldM (share_step c gr) ([], rng) (seqZ 0 (Z.of_nat n)) = Ok (shares, rng') ∧
    length shares = n ∧
    ∀ j sp, shares !! j = Some sp → block_wf (s0_0 sp) ∧
      s1_0 sp = xor_block (gr_wire0 gr !!! (Z.to_nat (n_input0 c) + j)%nat) (s0_0 sp).
Proof.
  intros Hc Hw Hf Hd. pose proof Hc as [Hi0 Hi1 Hi Hn64 _ _ _ _ _].
  induction n as [|n IH]; intros Hn.
  - by exists [], rng.
  - destruct IH as (shares & rng1 & E & Hl & Hs); [lia|].
    rewrite seqZ_S, foldM_app, E, bind_ok by lia. cbn [foldM]. unfold share_step.
    unfold u64. rewrite Z.mod_small by lia. rewrite Z.add_0_l.
    destruct (lookup_in_range (gr_wire0 gr) (n_input0 c + Z.of_nat n)) as [w Ew]; [lia|].
    rewrite (vget_Ok _ _ w) by (done || lia). rewrite bind_ok.
    pose proof (Forall_lookup_1 _ _ _ _ Hf Ew) as Hwf.
    destruct (make_share_labels_wf w (gr_delta gr) rng1 Hwf Hd) as (Hp & Ep & _).
    destruct (make_share_labels w (gr_delta gr) rng1) as [p rng2]. cbn [fst] in *.
    rewrite bind_ok. eexists _, _. split; [reflexivity|].
    split; [rewrite length_app; cbn; lia|]. intros j sp Hj.
    apply lookup_app_Some in Hj as [Hj|[Hge Hj]]; [by apply Hs|].
    apply list_lookup_singleton_Some in Hj as [Hj <-]. split; [done|].
    rewrite Ep. do 2 f_equal. symmetry. apply list_lookup_total_correct.
    rewrite <-Ew. f_equal. lia.
Qed.

Lemma garble_step_ok c key (gcs : list ServerCircuit) (rng : G) i : protocol_circuit c →
  block_wf key → ∃ sc rng',
    garble_step c key (Portable.FixedKeyAES key) (gcs, rng) i = Ok (gcs ++ [sc], rng') ∧
    server_circuit_ok c key sc.
Proof.
  intros Hpc Hk. pose proof (FixedKeyAES_wf key Hk) as Haes. pose proof (pc_wf c Hpc) as Hc.
  destruct (garble_circuit_garbled c key _ rng Hc Haes) as (gr & rng1 & Eg & Hg).
  destruct (garble_circuit_inv c key _ rng gr rng1 Haes Eg) as (Ek & w0 & st & R).
  destruct (garbling_sendable c key _ gr w0 st Hpc Hk Ek Haes Hg R) as (Hs & Hw & Ht & Hod).
  destruct (share_loop c gr rng1 128 Hc (gd_wires _ _ _ Hg) (gd_blocks _ _ _ Hg)
              (proj1 (gd_delta _ _ _ Hg))) as (shares & rng2 & Es & Hl & Hsh);
    [rewrite (pc_in1 c Hpc); lia|].
  exists (mkServerCircuit gr (tables_text gr) shares), rng2.
  unfold garble_step. rewrite Eg, bind_ok, serialize_tables_text, bind_ok by apply Hs.
  rewrite (pc_in1 c Hpc). change 128 with (Z.of_nat 128). rewrite Es, bind_ok.
  split; [done|]. constructor; cbn [sc_gc sc_blob sc_shares]; try done; [by do 2 eexists| |].
  { rewrite (tables_text_length gr Hs). pose proof (pc_and c Hpc). lia. }
  intros j sp Hj. by rewrite (pc_in0 c Hpc) in Hsh; apply Hsh.
Qed.

Lemma garble_loop_ok c key (rng : G) (n : nat) : protocol_circuit c → block_wf key →
  ∃ gcs rng', foldM (garble_step c key (Portable.FixedKeyAES key)) ([], rng)
                (seqZ 0 (Z.of_nat n)) = Ok (gcs, rng') ∧
    length gcs = n ∧ Forall (server_circuit_ok c key) gcs.
Proof.
  intros Hpc Hk. induction n as [|n (gcs & rng1 & E & Hl & Hf)].
  - by exists [], rng.
  - rewrite seqZ_S, foldM_app, E, bind_ok by lia. cbn [foldM].
    destruct (garble_step_ok c key gcs rng1 (0 + Z.of_nat n) Hpc Hk) as (sc & rng2 & Es & Hs).
    rewrite Es, bind_ok. eexists _, _. split; [reflexivity|].
    split; [rewrite length_app; cbn; lia|]. apply Forall_app. split; [done|].
    by apply Forall_singleton.
Qed.
End server.

(** ** Bits and labels as lists *)
Definition bits_of (b : Block) : list bool := (λ i, bit_at b (127 - i)) <$> seq 0 128.

Lemma bits_of_length b : length (bits_of b) = 128%nat.
Proof. done. Qed.

Lemma block_to_bits128_bits b : block_to_bits128 b = b2z <$> bits_of b.
Proof.
  apply list_eq_same_length with 128%nat; [done..|].
  intros k x y Hk Hx Hy. apply list_lookup_total_correct in Hx, Hy.
  rewrite <-Hx, <-Hy, (proj2 (block_to_bits128_spec b k Hk)).
  rewrite (list_lookup_total_fmap b2z (bits_of b)) by done. unfold bits_of.
  by rewrite lookup_total_map_seq by done.
Qed.

Lemma active_seq delta w0 bits : (length bits ≤ length w0)%nat →
  active delta w0 bits = (λ i, label (w0 !!! i) delta (bits !!! i)) <$> seq 0 (length bits).
Proof.
  intros Hl. apply list_eq. intros i. unfold active. rewrite lookup_zip_with, list_lookup_fmap.
  destruct (decide (i < length bits)%nat) as [Hi|Hi].
  - rewrite lookup_seq_lt by done.
    destruct (lookup_lt_is_Some_2 w0 i ltac:(lia)) as [w Hw].
    destruct (lookup_lt_is_Some_2 bits i Hi) as [b Hb].
    rewrite Hw, Hb. cbn. by rewrite (list_lookup_total_correct _ _ _ Hw), (list_lookup_total_correct _ _ _ Hb).
  - rewrite (lookup_ge_None_2 bits) by lia. rewrite lookup_seq_ge by lia. by destruct (w0 !! i).
Qed.

Lemma foldM_Ok_in {A B} (f : B → A → B) (g : B → A → outcome B) b l :
  (∀ b a, a ∈ l → g b a = Ok (f b a)) → foldM g b l = Ok (foldl f b l).
Proof.
  revert b. induction l as [|a l IH]; intros b Hg; cbn; [done|].
  rewrite Hg by set_solver. cbn. apply IH. set_solver.
Qed.

(** A loop that appends what it computes for each element. *)
Lemma foldM_append {A} (f : A → list Z) (g : list Z → A → outcome (list Z)) l :
  (∀ o a, a ∈ l → g o a = Ok (o ++ f a)) → foldM g [] l = Ok (concat (f <$> l)).
Proof.
  intros Hg. rewrite (foldM_Ok_in (λ o a, o ++ f a)) by done.
  by rewrite (foldl_push f (λ o a, o ++ f a)).
Qed.

(** ** The key labels *)
Lemma key_labels_ok key gr : (128 ≤ length (gr_wire0 gr))%nat →
  key_labels (block_to_bits128 key) gr
    = Ok (concat (active (gr_delta gr) (gr_wire0 gr) (bits_of key))).
Proof.
  intros Hl. unfold key_labels.
  rewrite (foldM_append (λ j, label (gr_wire0 gr !!! Z.to_nat j) (gr_delta gr)
                                (bits_of key !!! Z.to_nat j))).
  - rewrite active_seq by done. rewrite bits_of_length. do 2 f_equal.
  - intros o j Hj%elem_of_seqZ.
    rewrite (vget_lt (gr_wire0 gr)), bind_ok by lia. rewrite block_to_bits128_bits.
    assert (Z.to_nat j < length (b2z <$> bits_of key))%nat as Hlt
      by (rewrite length_fmap, bits_of_length; lia).
    rewrite vget_lt, bind_ok by lia.
    rewrite length_fmap in Hlt. rewrite (list_lookup_total_fmap b2z (bits_of key)) by done.
    by rewrite label_for_bit_label.
Qed.

(** ** The masked share labels *)
#[local] Instance gr_inhabited : Inhabited GarbleResult :=
  populate (mkGarble [] [] [] [] [] [] [] []).
#[local] Instance sc_inhabited : Inhabited ServerCircuit :=
  populate (mkServerCircuit inhabitant [] []).
#[local] Instance sp_inhabited : Inhabited ShareLabelPair := populate (mkShare [] []).

Definition pair_bytes (p : Block * Block) : list Z := p.1 ++ p.2.

(** The four masked labels of one wire. *)
Definition mask_row (gcs : list ServerCircuit) (otMsg : list (Block * Block)) (ij : Z * Z)
    : list (Block * Block) :=
  let sc := gcs !!! Z.to_nat ij.1 in
  let sp := sc_shares sc !!! Z.to_nat ij.2 in
  let p0 := otMsg !!! Z.to_nat (ij.1 * 256 + 2 * ij.2) in
  let p1 := otMsg !!! Z.to_nat (ij.1 * 256 + 2 * ij.2 + 1) in
  let delta := gr_delta (sc_gc sc) in
  [(xor_block p0.1 (s0_0 sp), xor_block p0.2 (xor_block (s0_0 sp) delta));
   (xor_block p1.1 (s1_0 sp), xor_block p1.2 (xor_block (s1_0 sp) delta))].

Definition mask_pairs (gcs : list ServerCircuit) (otMsg : list (Block * Block)) (n : nat)
    : list (Block * Block) := concat (mask_row gcs otMsg <$> wire_pairs n).

Lemma concat_fmap_concat {A B C} (f : B → list C) (g : A → list B) (l : list A) :
  concat ((λ a, concat (f <$> g a)) <$> l) = concat (f <$> concat (g <$> l)).
Proof.
  induction l as [|a l IH]; [done|]. cbn [fmap list_fmap concat].
  by rewrite fmap_app, concat_app, IH.
Qed.

Lemma mask_loop_ok gcs otMsg n : length gcs = n → length otMsg = (n * 256)%nat →
  Forall (λ sc, length (sc_shares sc) = 128%nat) gcs →
  foldM (mask_step gcs otMsg) [] (wire_pairs n)
    = Ok (concat (pair_bytes <$> mask_pairs gcs otMsg n)).
Proof.
  intros Hn Hl Hf. unfold mask_pairs. rewrite <-concat_fmap_concat. apply foldM_append.
  intros o [i j] [Hi Hj]%wire_pairs_range. cbn [fst snd] in *. unfold mask_step, mask_row.
  cbn [fst snd]. rewrite (vget_lt gcs), bind_ok by lia.
  assert (length (sc_shares (gcs !!! Z.to_nat i)) = 128%nat) as Hs.
  { rewrite Forall_forall in Hf. apply Hf, list_elem_of_lookup_total_2. lia. }
  rewrite (vget_lt (sc_shares _)), bind_ok by lia. cbv zeta.
  rewrite (vget_lt otMsg (i * 256 + 2 * j)), bind_ok by lia.
  destruct (otMsg !!! Z.to_nat (i * 256 + 2 * j)) as [r00 r01].
  rewrite (vget_lt otMsg), bind_ok by lia.
  destruct (otMsg !!! Z.to_nat (i * 256 + 2 * j + 1)) as [r10 r11].
  unfold pair_bytes, push_block, push_bytes. cbn [fmap list_fmap concat fst snd].
  by rewrite app_nil_r, <-!app_assoc.
Qed.

Lemma mask_pairs_length gcs otMsg n : length (mask_pairs gcs otMsg n) = (n * 256)%nat.
Proof.
  unfold mask_pairs. rewrite (concat_length _ 2).
  - rewrite length_fmap, wire_pairs_length. lia.
  - apply Forall_fmap, Forall_forall. done.
Qed.

Lemma mask_pairs_lookup gcs otMsg n i j k : (i < n)%nat → (j < 128)%nat → (k < 2)%nat →
  mask_pairs gcs otMsg n !! (i * 256 + 2 * j + k)%nat
    = mask_row gcs otMsg (Z.of_nat i, Z.of_nat j) !! k.
Proof.
  intros Hi Hj Hk. unfold mask_pairs.
  rewrite <-(lookup_concat (mask_row gcs otMsg <$> wire_pairs n) 2 (i * 128 + j) k).
  - f_equal. lia.
  - apply Forall_fmap, Forall_forall. done.
  - done.
  - by rewrite list_lookup_fmap, wire_pairs_lookup.
Qed.

(** What the OT extension promises: the client gets the pads of its choices. *)
Definition pick (p : Block * Block) (choice : bool) : Block := if choice then p.2 else p.1.

Definition pads_wf (otMsg : list (Block * Block)) : Prop :=
  Forall (λ p, block_wf p.1 ∧ block_wf p.2) otMsg.

Lemma unmask_reads (choices : list bool) (out : list Block) (ps : list (Block * Block)) :
  length choices = length ps → Forall (λ p, length p.1 = 16%nat ∧ length p.2 = 16%nat) ps →
  reads (unmask choices out) (concat (pair_bytes <$> ps))
    (zip_with (λ '(choice, pad) '(c0, c1), xor_block pad (if choice : bool then c1 else c0))
       (zip choices out) ps).
Proof.
  intros Hl Hf. unfold unmask.
  apply (reads_last _ (λ cs, zip_with _ (zip choices out) cs)). rewrite Hl. apply reads_n.
  eapply Forall_impl; [exact Hf|]. intros [c0 c1] [H0 H1]. unfold pair_bytes. cbn [fst snd] in *.
  eapply reads_bind; [by apply reads_bytes|].
  apply (reads_last take_block (λ c1, (c0, c1))). by apply reads_bytes.
Qed.

(** The label the client holds after unmasking share [k] of wire [j]. *)
Lemma unmask_label (s0 delta r0 r1 : Block) (b : bool) : block_wf s0 → block_wf delta →
  block_wf r0 → block_wf r1 →
  xor_block (pick (r0, r1) b)
    (if b then xor_block r1 (xor_block s0 delta) else xor_block r0 s0) = label s0 delta b.
Proof. intros. destruct b; cbn [pick fst snd label]; block_solve. Qed.

(** ** The inputs of the client *)
Section client.
Context {G : Type} `{RandGen G} `{Sha256} `{!Sha256Laws}.

Lemma vcopy_front (a b src : list Z) (off : Z) (d : nat) : off = Z.of_nat (length a) →
  d = length src → (d ≤ length b)%nat →
  vcopy (a ++ b) off src = Ok (a ++ src ++ drop d b).
Proof.
  intros -> -> Hl. unfold vcopy. rewrite length_app, (proj2 (Z.ltb_ge _ _)) by lia.
  rewrite Nat2Z.id, take_app_length. do 3 f_equal.
  rewrite drop_app_ge by lia. f_equal. lia.
Qed.

(** The shares of an input, for some state of the generator. *)
Definition shares_of (x sh : list Z) : Prop :=
  ∃ rng : G, sh = (encode_shares (b2z <$> bits_of (H1 x)) rng).1.

Lemma input_loop_ok (n mm : nat) (rng : G) : (n ≤ mm)%nat →
  ∃ xs shs rng',
    foldM VoprfE2e.input_step ([], replicate (mm * 256) 0, rng) (seqZ 0 (Z.of_nat n))
      = Ok (xs, concat shs ++ replicate ((mm - n) * 256) 0, rng') ∧
    length xs = n ∧ Forall2 shares_of xs shs ∧ Forall (λ sh, length sh = 256%nat) shs.
Proof.
  induction n as [|n IH]; intros Hn.
  - exists [], [], rng. rewrite Nat.sub_0_r. by split_and!.
  - destruct IH as (xs & shs & rng1 & E & Hl & Hf2 & Hf); [lia|].
    rewrite seqZ_S, foldM_app, E, bind_ok by lia. cbn [foldM]. unfold VoprfE2e.input_step.
    destruct (draw_bytes 16 rng1) as [x rng2]. rewrite block_to_bits128_bits.
    pose proof (encode_shares_length (b2z <$> bits_of (H1 x)) rng2) as Hsl.
    destruct (encode_shares (b2z <$> bits_of (H1 x)) rng2) as [sh rng3] eqn:Es.
    rewrite length_fmap, bits_of_length in Hsl. cbn [fst] in Hsl.
    rewrite (firstn_all2 sh) by lia. change (2 * 128)%nat with 256%nat in Hsl.
    apply Forall2_length in Hf2 as Hls.
    rewrite (vcopy_front (concat shs) _ sh _ 256);
      [|rewrite (concat_length _ 256) by done; lia|done|rewrite length_replicate; lia].
    rewrite !bind_ok. exists (xs ++ [x]), (shs ++ [sh]), rng3. split_and!.
    + rewrite concat_app, drop_replicate. cbn [concat]. rewrite app_nil_r, <-app_assoc.
      by replace ((mm - n) * 256 - 256)%nat with ((mm - S n) * 256)%nat by lia.
    + rewrite length_app. cbn. lia.
    + apply Forall2_app; [done|]. constructor; [|constructor]. exists rng2. by rewrite Es.
    + apply Forall_app. split; [done|]. by apply Forall_singleton.
Qed.
End client.

(** ** One evaluation of the client *)
Section eval.
Context {G : Type} `{RandGen G} `{Sha256} `{!Sha256Laws}.

(** The value of the circuit on a key and an input. *)
Definition circuit_value (c : Circuit) (key : Block) (x : list Z) : outcome (list Z) :=
  eval_circuit_plain c (b2z <$> (bits_of key ++ bits_of (H1 x))).

Lemma circuit_value_length c key x v : protocol_circuit c → circuit_value c key x = Ok v →
  length v = 128%nat.
Proof.
  intros Hpc. unfold circuit_value, eval_circuit_plain. destruct (negb _); [done|].
  intros E. bind_inv E. bind_inv E. apply mapM_out_length in E.
  by rewrite E, length_seqZ, (pc_out c Hpc).
Qed.

(** What the unmasked labels must deliver for circuit [i] and input [x]. *)
Definition delivers (gr : GarbleResult) (share_labels : list Block) (x : list Z) (i : nat) : Prop :=
  ∀ j, (j < 128)%nat → ∃ l0 l1,
    share_labels !! (i * 256 + 2 * j)%nat = Some l0 ∧
    share_labels !! (i * 256 + 2 * j + 1)%nat = Some l1 ∧
    reconstruct_label l0 l1
      = label (gr_wire0 gr !!! (128 + j)%nat) (gr_delta gr) (bits_of (H1 x) !!! j).

Lemma seqZ_fmap {A} (f : nat → A) n :
  (λ j, f (Z.to_nat j)) <$> seqZ 0 (Z.of_nat n) = f <$> seq 0 n.
Proof.
  unfold seqZ. rewrite Nat2Z.id, <-list_fmap_compose. apply list_fmap_ext.
  intros i j _. cbn. f_equal. lia.
Qed.

Lemma input_labels_split delta w0 kb xb : length kb = 128%nat → length xb = 128%nat →
  (256 ≤ length w0)%nat →
  active delta w0 (kb ++ xb)
    = active delta w0 kb ++ ((λ j, label (w0 !!! (128 + j)%nat) delta (xb !!! j)) <$> seq 0 128).
Proof.
  intros Hk Hx Hw. rewrite !active_seq by (rewrite ?length_app; lia).
  rewrite length_app, Hk, Hx, seq_app, fmap_app. f_equal.
  - apply list_fmap_ext. intros i j Hj%lookup_seq. destruct Hj as [-> Hj].
    by rewrite lookup_total_app_l by (cbn; lia).
  - change (seq (0 + 128) 128) with (seq (128 + 0) 128).
    rewrite <-(fmap_add_seq 128 0 128), <-list_fmap_compose. apply list_fmap_ext.
    intros i j Hj%lookup_seq. destruct Hj as [-> Hj]. cbn [compose].
    rewrite lookup_total_app_r by lia. do 2 f_equal. lia.
Qed.

Lemma client_eval_ok c key mmo_key sc share_labels x (i : nat) : protocol_circuit c →
  server_circuit_ok (G := G) c mmo_key sc → delivers (sc_gc sc) share_labels x i →
  ∃ v, circuit_value c key x = Ok v ∧
    client_eval c (tables_msg (sc_gc sc))
      (active (gr_delta (sc_gc sc)) (gr_wire0 (sc_gc sc)) (bits_of key)) share_labels x (Z.of_nat i)
      = Ok (H2 x (bits128_to_block v)).
Proof.
  intros Hpc [Hg _ Ek _ _ _ _ _ _] Hdel. set (gr := sc_gc sc) in *.
  pose proof (pc_wf c Hpc) as Hc. pose proof (wf_inputs c Hc) as Hin.
  rewrite (pc_in0 c Hpc), (pc_in1 c Hpc) in Hin. pose proof (gd_wires _ _ _ Hg) as Hw.
  set (bits := bits_of key ++ bits_of (H1 x)).
  destruct (garbled_decode c _ gr bits Hc Hg) as (outs & v & El & Ed & Ep);
    [rewrite (pc_in0 c Hpc), (pc_in1 c Hpc); done|].
  exists v. split; [exact Ep|]. unfold client_eval, tables_msg.
  cbn [tm_aes_key tm_delta tm_tables tm_out_decode tm_gc_hash tm_R_root]. rewrite Ek.
  set (labs := active (gr_delta gr) (gr_wire0 gr) (bits_of key)).
  assert (length labs = 128%nat) as Hlabs
    by (unfold labs; rewrite active_seq by (rewrite bits_of_length; lia); done).
  rewrite (mapM_out_Ok (λ j, labs !!! Z.to_nat j) (vget labs)), bind_ok
    by (intros j Hj%elem_of_seqZ; apply vget_lt; lia).
  rewrite (mapM_out_Ok (λ j, label (gr_wire0 gr !!! (128 + Z.to_nat j)%nat) (gr_delta gr)
                               (bits_of (H1 x) !!! Z.to_nat j))), bind_ok.
  2: { intros j Hj%elem_of_seqZ. destruct (Hdel (Z.to_nat j)) as (l0 & l1 & E0 & E1 & Er); [lia|].
       rewrite (vget_Ok _ (Z.of_nat i * 256 + 2 * j) l0), bind_ok; [|lia|rewrite <-E0; f_equal; lia].
       rewrite (vget_Ok _ _ l1), bind_ok; [|lia|rewrite <-E1; f_equal; lia]. by rewrite Er. }
  change 128 with (Z.of_nat 128) at 1 2.
  rewrite (seqZ_fmap (λ j, labs !!! j)), (seqZ_fmap (λ j, label (gr_wire0 gr !!! (128 + j)%nat)
    (gr_delta gr) (bits_of (H1 x) !!! j))).
  assert ((λ j, labs !!! j) <$> seq 0 128 = labs) as ->.
  { rewrite <-Hlabs. clear. induction labs as [|l labs IH] using rev_ind; [done|].
    rewrite length_app. cbn [length]. rewrite Nat.add_1_r, seq_S, fmap_app. cbn [fmap list_fmap].
    f_equal; [|by rewrite lookup_total_app_r, Nat.sub_diag by lia].
    rewrite <-IH at 2. apply list_fmap_ext. intros i j Hj%lookup_seq.
    by rewrite lookup_total_app_l by lia. }
  unfold labs. rewrite <-input_labels_split by (done || lia). fold bits.
  change (eval_circuit_labels c ?aes (mkGarble ?t _ _ _ _ _ _ _) ?l)
    with (eval_circuit_labels c aes gr l).
  rewrite El, bind_ok.
  change (decode_outputs (mkGarble _ _ _ _ _ ?d _ _) ?l) with (decode_outputs gr l).
  rewrite Ed, bind_ok. by rewrite (circuit_value_length c key x v Hpc Ep).
Qed.
End eval.

(** ** From the masks to the input labels *)
Section deliver.
Context {G : Type} `{RandGen G} `{Sha256} `{!Sha256Laws}.

Definition choices_of (all_shares : list Z) : list bool :=
  (λ s, negb (Z.land s 1 =? 0)) <$> all_shares.

Definition share_labels_of (choices : list bool) (out : list Block) (ps : list (Block * Block))
    : list Block :=
  zip_with (λ '(choice, pad) '(c0, c1), xor_block pad (if choice : bool then c1 else c0))
    (zip choices out) ps.

Lemma choice_b2z s : negb (Z.land (b2z s) 1 =? 0) = s.
Proof. by destruct s. Qed.

Lemma share_label_lookup choices otMsg ps (i : nat) ch p cp :
  choices !! i = Some ch → otMsg !! i = Some p → ps !! i = Some cp →
  share_labels_of choices (zip_with pick otMsg choices) ps !! i
    = Some (xor_block (pick p ch) (if ch then cp.2 else cp.1)).
Proof.
  intros Hc Hp Hcp. unfold share_labels_of.
  rewrite lookup_zip_with, Hcp, lookup_zip_with, Hc, lookup_zip_with, Hp, Hc. cbn.
  by destruct cp.
Qed.

Lemma share_pair_label w s0 delta b0 b1 : block_wf w → block_wf s0 → block_wf delta →
  reconstruct_label (label s0 delta b0) (label (xor_block w s0) delta b1)
    = label w delta (xorb b0 b1).
Proof. intros. unfold reconstruct_label. destruct b0, b1; cbn [label xorb]; block_solve. Qed.

Lemma mask_pairs_at gcs otMsg n (i j : nat) sc sp p0 p1 : (i < n)%nat → (j < 128)%nat →
  gcs !! i = Some sc → sc_shares sc !! j = Some sp →
  otMsg !! (i * 256 + 2 * j)%nat = Some p0 → otMsg !! (i * 256 + 2 * j + 1)%nat = Some p1 →
  mask_pairs gcs otMsg n !! (i * 256 + 2 * j)%nat
    = Some (xor_block p0.1 (s0_0 sp), xor_block p0.2 (xor_block (s0_0 sp) (gr_delta (sc_gc sc)))) ∧
  mask_pairs gcs otMsg n !! (i * 256 + 2 * j + 1)%nat
    = Some (xor_block p1.1 (s1_0 sp), xor_block p1.2 (xor_block (s1_0 sp) (gr_delta (sc_gc sc)))).
Proof.
  intros Hi Hj Hsc Hsp Hp0 Hp1.
  pose proof (λ k, mask_pairs_lookup gcs otMsg n i j k Hi Hj) as Hm.
  assert (∀ k, (k < 2)%nat → mask_row gcs otMsg (Z.of_nat i, Z.of_nat j) !! k =
    [(xor_block p0.1 (s0_0 sp), xor_block p0.2 (xor_block (s0_0 sp) (gr_delta (sc_gc sc))));
     (xor_block p1.1 (s1_0 sp), xor_block p1.2 (xor_block (s1_0 sp) (gr_delta (sc_gc sc))))] !! k)
    as Hrow.
  { intros k _. f_equal. unfold mask_row. cbn [fst snd]. rewrite !Nat2Z.id.
    replace (Z.to_nat (Z.of_nat i * 256 + 2 * Z.of_nat j)) with (i * 256 + 2 * j)%nat by lia.
    replace (Z.to_nat (Z.of_nat i * 256 + 2 * Z.of_nat j + 1))
      with (i * 256 + 2 * j + 1)%nat by lia.
    rewrite (list_lookup_total_correct _ _ _ Hsc), (list_lookup_total_correct _ _ _ Hsp).
    by rewrite (list_lookup_total_correct _ _ _ Hp0), (list_lookup_total_correct _ _ _ Hp1). }
  split.
  - rewrite <-(Nat.add_0_r (i * 256 + 2 * j)), Hm, Hrow by lia. done.
  - rewrite Hm, Hrow by lia. done.
Qed.

(** The choice bits are the shares. *)
Lemma choices_at shs (i k : nat) (sh : list Z) s : Forall (λ sh, length sh = 256%nat) shs →
  shs !! i = Some sh → (k < 256)%nat → sh !! k = Some (b2z s) →
  choices_of (concat shs) !! (i * 256 + k)%nat = Some s.
Proof.
  intros Hf Hi Hk Hs. unfold choices_of.
  rewrite list_lookup_fmap, (lookup_concat _ 256 i k _ Hf Hk Hi), Hs. cbn. by rewrite choice_b2z.
Qed.

Lemma server_wire_wf c key sc j : protocol_circuit c → server_circuit_ok (G := G) c key sc →
  (j < 128)%nat → block_wf (gr_wire0 (sc_gc sc) !!! (128 + j)%nat).
Proof.
  intros Hpc [Hg _ _ _ _ _ _ _ _] Hj. pose proof (gd_blocks _ _ _ Hg) as Hbl.
  rewrite Forall_forall in Hbl. apply Hbl, list_elem_of_lookup_total_2.
  pose proof (gd_wires _ _ _ Hg). pose proof (wf_inputs c (pc_wf c Hpc)) as Hin.
  rewrite (pc_in0 c Hpc), (pc_in1 c Hpc) in Hin. lia.
Qed.

Lemma masks_deliver c mmo_key gcs otMsg n xs shs (i : nat) sc x : protocol_circuit c →
  Forall (server_circuit_ok (G := G) c mmo_key) gcs → length gcs = n →
  length otMsg = (n * 256)%nat → pads_wf otMsg →
  Forall2 (shares_of (G := G)) xs shs → Forall (λ sh, length sh = 256%nat) shs →
  gcs !! i = Some sc → xs !! i = Some x →
  let choices := choices_of (concat shs) in
  delivers (sc_gc sc)
    (share_labels_of choices (zip_with pick otMsg choices) (mask_pairs gcs otMsg n)) x i.
Proof.
  intros Hpc Hf Hn Ho Hp Hxs Hsh Hi Hx choices j Hj.
  pose proof (Forall_lookup_1 _ _ _ _ Hf Hi) as Hok.
  pose proof (server_wire_wf c mmo_key sc j Hpc Hok Hj) as Hw.
  destruct Hok as [Hg _ _ _ _ _ _ Hlen Hshare].
  destruct (Forall2_lookup_l _ _ _ _ _ Hxs Hx) as (sh & Hshi & rng & Esh).
  destruct (lookup_lt_is_Some_2 (bits_of (H1 x)) j Hj) as [b Hb].
  destruct (encode_shares_bits (bits_of (H1 x)) rng j b Hb) as (b0 & b1 & E0 & E1 & Ex).
  rewrite <-Esh in E0, E1. pose proof (lookup_lt_Some _ _ _ Hi) as Hin.
  pose proof (choices_at shs i (2 * j) sh b0 Hsh Hshi ltac:(lia) E0) as C0.
  pose proof (choices_at shs i (2 * j + 1) sh b1 Hsh Hshi ltac:(lia) E1) as C1.
  rewrite Nat.add_assoc in C1.
  destruct (lookup_lt_is_Some_2 (sc_shares sc) j ltac:(lia)) as [sp Hsp].
  destruct (Hshare j sp Hsp) as [Hs0 Hs1].
  pose proof (proj1 (gd_delta _ _ _ Hg)) as Hd.
  destruct (lookup_lt_is_Some_2 otMsg (i * 256 + 2 * j) ltac:(lia)) as [p0 Hp0].
  destruct (lookup_lt_is_Some_2 otMsg (i * 256 + 2 * j + 1) ltac:(lia)) as [p1 Hp1].
  destruct (Forall_lookup_1 _ _ _ _ Hp Hp0) as [W00 W01].
  destruct (Forall_lookup_1 _ _ _ _ Hp Hp1) as [W10 W11].
  destruct (mask_pairs_at gcs otMsg n i j sc sp p0 p1) as [M0 M1]; [lia|done..|].
  eexists _, _. split_and!; [by apply (share_label_lookup _ _ _ _ _ _ _ C0 Hp0 M0)|
    by apply (share_label_lookup _ _ _ _ _ _ _ C1 Hp1 M1)|].
  rewrite (list_lookup_total_correct _ _ _ Hb), <-Ex. cbn [fst snd].
  destruct p0 as [r00 r01], p1 as [r10 r11]. cbn [fst snd] in *.
  assert (block_wf (s1_0 sp)) by (rewrite Hs1; by apply xor_block_wf).
  rewrite !unmask_label by done. rewrite Hs1. by apply share_pair_label.
Qed.
End deliver.

(** ** The evaluation loop *)
Section loop.
Context {G : Type} `{RandGen G} `{Sha256} `{!Sha256Laws}.

(** The output of the client for an input. *)
Definition yval (c : Circuit) (key : Block) (x : list Z) : list Z :=
  H2 x (bits128_to_block (from_ok [] (circuit_value c key x))).

Definition matches (c : Circuit) (key : Block) (x : list Z) : bool :=
  bool_decide (F_k key x = yval c key x).

(** The state of the loop after the inputs [done], with [k] inputs left. *)
Definition loop_state (c : Circuit) (key : Block) (dn : list (list Z)) (k : nat) : EvalState :=
  mkEval false (forallb (matches c key) dn)
    (Z.of_nat (length (filter (λ x, matches c key x) dn)))
    ((yval c key <$> dn) ++ replicate k (replicate 32 0)).

Lemma deserialize_text gr : sendable gr → deserialize_tables (tables_text gr) = Ok (tables_msg gr).
Proof.
  intros Hs. pose proof (reads_tables gr Hs [] []) as E. cbn [app length] in E.
  rewrite app_nil_r in E. change (Z.of_nat 0) with 0 in E.
  unfold deserialize_tables. by rewrite E.
Qed.

Lemma eval_step_ok c key mmo_key gcs share_labels xs (i : nat) sc x k : protocol_circuit c →
  server_circuit_ok (G := G) c mmo_key sc → gcs !! i = Some sc → xs !! i = Some x →
  delivers (sc_gc sc) share_labels x i →
  eval_step c key (sc_blob <$> gcs) ((λ sc, gr_gc_hash (sc_gc sc)) <$> gcs)
    ((λ sc, active (gr_delta (sc_gc sc)) (gr_wire0 (sc_gc sc)) (bits_of key)) <$> gcs)
    share_labels xs (loop_state c key (take i xs) (S k)) (Z.of_nat i)
    = Ok (loop_state c key (take (S i) xs) k).
Proof.
  intros Hpc Hok Hsc Hx Hdel. pose proof (lookup_lt_Some _ _ _ Hx) as Hlt.
  destruct (client_eval_ok c key mmo_key sc share_labels x i Hpc Hok Hdel) as (v & Ev & Ey).
  unfold eval_step. cbn [ev_stopped loop_state].
  rewrite (vget_nat (sc_blob <$> gcs) i (sc_blob sc)), bind_ok by by rewrite list_lookup_fmap, Hsc.
  rewrite (so_blob _ _ _ Hok), deserialize_text, bind_ok by apply (so_sendable _ _ _ Hok).
  rewrite (vget_nat ((λ sc, gr_gc_hash (sc_gc sc)) <$> gcs) i (gr_gc_hash (sc_gc sc))), bind_ok
    by by rewrite list_lookup_fmap, Hsc.
  cbn [tm_gc_hash tables_msg]. rewrite bool_decide_eq_true_2 by done. cbn [negb].
  rewrite (vget_nat (_ <$> gcs) i (active (gr_delta (sc_gc sc)) (gr_wire0 (sc_gc sc)) (bits_of key))),
    bind_ok by by rewrite list_lookup_fmap, Hsc.
  rewrite (vget_nat xs i x Hx), bind_ok, Ey, bind_ok. cbn [ev_ys loop_state].
  assert (length (yval c key <$> take i xs) = i) as Hl by (rewrite length_fmap, length_take; lia).
  pose proof (vset_front (yval c key <$> take i xs) k (replicate 32 0)
                (H2 x (bits128_to_block v))) as Eset.
  rewrite Hl in Eset. rewrite Eset, bind_ok. cbn [ev_plaintext_ok ev_plain_match loop_state].
  assert (H2 x (bits128_to_block v) = yval c key x) as Hy by (unfold yval; by rewrite Ev).
  rewrite Hy. unfold loop_state. rewrite (take_S_r _ _ _ Hx), fmap_app, forallb_app, filter_app.
  cbn [fmap list_fmap forallb]. rewrite andb_true_r, filter_cons, filter_nil, length_app.
  change (bool_decide (F_k key x = yval c key x)) with (matches c key x).
  destruct (matches c key x); [rewrite decide_True by done|rewrite decide_False by auto];
    rewrite ?andb_true_r, ?andb_false_r; cbn [length]; repeat f_equal; lia.
Qed.

Lemma eval_loop_ok c key mmo_key gcs share_labels xs n : protocol_circuit c →
  Forall (server_circuit_ok (G := G) c mmo_key) gcs → length gcs = n → length xs = n →
  (∀ i sc x, gcs !! i = Some sc → xs !! i = Some x → delivers (sc_gc sc) share_labels x i) →
  foldM (eval_step c key (sc_blob <$> gcs) ((λ sc, gr_gc_hash (sc_gc sc)) <$> gcs)
    ((λ sc, active (gr_delta (sc_gc sc)) (gr_wire0 (sc_gc sc)) (bits_of key)) <$> gcs)
    share_labels xs) (loop_state c key [] n) (seqZ 0 (Z.of_nat n))
  = Ok (loop_state c key xs 0).
Proof.
  intros Hpc Hf Hn Hx Hdel.
  destruct (foldM_inv (λ i st, st = loop_state c key (take i xs) (n - i)) (eval_step c key
    (sc_blob <$> gcs) ((λ sc, gr_gc_hash (sc_gc sc)) <$> gcs)
    ((λ sc, active (gr_delta (sc_gc sc)) (gr_wire0 (sc_gc sc)) (bits_of key)) <$> gcs)
    share_labels xs) (seqZ 0 (Z.of_nat n)) (loop_state c key [] n)) as (st & E & ->).
  - by rewrite Nat.sub_0_r.
  - intros i a st Hi ->. apply lookup_seqZ in Hi as [-> Hi]. rewrite Z.add_0_l.
    destruct (lookup_lt_is_Some_2 gcs i ltac:(lia)) as [sc Hsc].
    destruct (lookup_lt_is_Some_2 xs i ltac:(lia)) as [x Hxi].
    eexists. split; [|reflexivity]. replace (n - i)%nat with (S (n - S i)) by lia.
    eapply eval_step_ok; eauto. by eapply Forall_lookup_1.
  - rewrite E. rewrite length_seqZ, Nat2Z.id, Nat.sub_diag. by rewrite firstn_all2 by lia.
Qed.
End loop.

(** ** The binding check *)
Section binding.
Context `{Sha256} `{!Sha256Laws} `{Winterfell}.

(** A check against tables that only share the hash field. *)
Lemma check_binding_forged p w pf gr : sendable gr → length (pub_to_bytes p) = 48%nat →
  w_gc_hash w = gr_gc_hash gr →
  check_binding (proof_text p w pf) (Ok (tables_text gr)) (Ok (gr_gc_hash gr)) = Ok true.
Proof.
  intros Hs Hl Hw.
  set (pre := le_bytes 8 (Z.of_nat (length (pub_to_bytes p))) ++ pub_to_bytes p ++ binding_hash w).
  set (post := w_r_root w ++ w_out_hash w ++ w_cm w ++ pf).
  assert (proof_text p w pf = pre ++ gr_gc_hash gr ++ post) as E
    by (unfold proof_text, pre, post; by rewrite Hw, <-!app_assoc).
  assert (length pre = 88%nat) as Hpre
    by (unfold pre; by rewrite !length_app, le_bytes_length, Hl, binding_hash_length).
  pose proof (sd_gc_hash gr Hs) as Hg.
  unfold check_binding. rewrite E. rewrite (proj2 (Z.leb_gt _ _))
    by (rewrite !length_app, Hpre; lia).
  assert (take_u64 (pre ++ gr_gc_hash gr ++ post) 0 = Ok (48, 8)) as ->.
  { pose proof (reads_u64 48 ltac:(by unfold is_word) []
      (pub_to_bytes p ++ binding_hash w ++ gr_gc_hash gr ++ post)) as Er.
    cbn [app length] in Er. rewrite le_bytes_length in Er. unfold pre. rewrite Hl.
    rewrite <-!app_assoc. exact Er. }
  rewrite bind_ok. change (u64 (8 + 48 + 32)) with 88. cbv zeta.
  change (u64 (88 + 32)) with 120.
  rewrite (proj2 (Z.leb_le _ _)) by (rewrite !length_app, Hpre; lia).
  pose proof (reads_bytes 32 (gr_gc_hash gr) Hg pre post) as Er. rewrite Hpre in Er.
  change (Z.of_nat 88) with 88 in Er. rewrite Er, !bind_ok, deserialize_text, !bind_ok by done.
  cbn [tm_gc_hash tables_msg]. by rewrite !bool_decide_eq_true_2 by done.
Qed.
End binding.

(** ** The messages of a run *)
Section frames.
Context {G : Type} `{RandGen G} `{Sha256} `{!Sha256Laws}.

Lemma key_label_blob (labs : list Block) : length labs = 128%nat → Forall block_wf labs →
  sends recv_key_labels (send_blob (concat labs)) labs.
Proof.
  intros Hl Hf. unfold recv_key_labels. rewrite <-(app_nil_r (send_blob _)).
  eapply sends_bind.
  - apply sends_blob. rewrite (concat_length _ 16); [lia|]. eapply Forall_impl; [exact Hf|].
    by intros b [].
  - assert (reads (take_n (length labs) take_block) (concat (id <$> labs)) labs) as Hr
      by (apply (reads_n _ id); eapply Forall_impl; [exact Hf|]; intros b; apply reads_block).
    rewrite list_fmap_id, Hl in Hr. specialize (Hr [] []). cbn [app length] in Hr.
    rewrite app_nil_r in Hr. change (Z.of_nat 0) with 0 in Hr.
    eapply sends_silent; [by apply sends_of_outcome|]. done.
Qed.

Definition meta_text (cfg : Config) (hashes : list (list Z)) : list Z :=
  le_bytes 8 (cfg_m cfg) ++ concat hashes.

Lemma meta_blob cfg hashes : cfg_m cfg = Z.of_nat (length hashes) → cfg_m cfg < 2 ^ 31 →
  Forall (λ h, length h = 32%nat) hashes →
  sends (recv_meta cfg) (send_blob (meta_text cfg hashes)) hashes.
Proof.
  intros Hm Hb Hf. unfold recv_meta. rewrite <-(app_nil_r (send_blob _)).
  assert (is_word 64 (cfg_m cfg)) as Hw by (unfold is_word; lia).
  eapply sends_bind.
  - apply sends_blob. unfold meta_text.
    rewrite length_app, le_bytes_length, (concat_length _ 32) by done. lia.
  - pose proof (reads_u64 (cfg_m cfg) Hw [] (concat hashes)) as Eu. cbn [app length] in Eu.
    rewrite le_bytes_length in Eu. change (Z.of_nat 0 + Z.of_nat 8) with 8 in Eu.
    change (Z.of_nat 0) with 0 in Eu.
    eapply sends_silent; [apply sends_of_outcome; exact Eu|]. cbv beta iota.
    rewrite Z.eqb_refl. cbn [negb].
    assert (reads (take_n (length hashes) (take_bytes 32)) (concat (id <$> hashes)) hashes) as Hr
      by (apply (reads_n _ id); eapply Forall_impl; [exact Hf|]; intros h; apply reads_bytes).
    rewrite list_fmap_id in Hr. specialize (Hr (le_bytes 8 (cfg_m cfg)) []).
    rewrite app_nil_r, le_bytes_length in Hr.
    replace (Z.to_nat (cfg_m cfg)) with (length hashes) by lia.
    eapply sends_silent; [apply sends_of_outcome; exact Hr|]. done.
Qed.
End frames.

(** ** A run of the protocol *)
Section protocol.
Context {G : Type} `{RandGen G} `{Sha256} `{!Sha256Laws} `{Winterfell} `{!WinterfellLaws}.
(** Proofs fit into memory. *)
Context (Hproof : ∀ trace p, Z.of_nat (length (wf_prove trace p)) < 2 ^ 62).

Definition key_labels_of (key : Block) (sc : ServerCircuit) : list Block :=
  active (gr_delta (sc_gc sc)) (gr_wire0 (sc_gc sc)) (bits_of key).

(** The messages of an honest server. *)
Definition server_frames (cfg : Config) (key : Block) (gcs : list ServerCircuit)
    (otMsg : list (Block * Block)) (proof : list Z) : list frame :=
  let blobs := concat ((λ sc, send_blob (sc_blob sc)) <$> gcs) in
  send_blob (key_commitment key 128) ++
  send_blob (meta_text cfg ((λ sc, gr_gc_hash (sc_gc sc)) <$> gcs)) ++
  (if tables_online cfg then [] else blobs) ++
  send_blob (concat (pair_bytes <$> mask_pairs gcs otMsg (length gcs))) ++
  (if tables_online cfg then blobs else []) ++
  concat ((λ sc, send_blob (concat (key_labels_of key sc))) <$> gcs) ++
  send_blob proof ++ send_blob key.

Lemma proof_text_size p gr cm pf : sendable gr → length cm = CM_BYTES →
  length (pub_to_bytes p) = 48%nat → Z.of_nat (length pf) < 2 ^ 62 →
  Z.of_nat (length (proof_text p (witness_of gr cm) pf)) < 2 ^ 63.
Proof.
  intros Hs Hc Hl Hp. unfold proof_text. rewrite !length_app, le_bytes_length, Hl.
  rewrite binding_hash_length. cbn [w_gc_hash w_r_root w_out_hash w_cm witness_of].
  rewrite (sd_gc_hash gr Hs), (sd_R_root gr Hs), sha256_length, Hc. unfold CM_BYTES. lia.
Qed.

Lemma run_server_ok c cfg (rng : G) otMsg : protocol_circuit c → 0 < cfg_m cfg < 2 ^ 31 →
  n_ot cfg = cfg_m cfg * 256 → length otMsg = Z.to_nat (n_ot cfg) →
  next_pow2 (count_and (gates c) * 128) ≤ wf_max_trace →
  ∃ key mmo_key gcs sc0 p pf,
    let cm := key_commitment key 128 in
    let proof := proof_text p (witness_of (sc_gc sc0) cm) pf in
    run_server cfg c rng otMsg
      = Ok (mkServerRun key gcs (server_frames cfg key gcs otMsg proof)) ∧
    block_wf key ∧ Z.of_nat (length gcs) = cfg_m cfg ∧
    Forall (server_circuit_ok (G := G) c mmo_key) gcs ∧ gcs !! 0%nat = Some sc0 ∧
    do_verify proof = Ok true ∧ length (pub_to_bytes p) = 48%nat ∧
    Z.of_nat (length pf) < 2 ^ 62.
Proof.
  intros Hpc Hm Hn Hl Hfit. unfold run_server. pose proof (random_block_wf rng) as Hk.
  destruct (random_block rng) as [key rng1]. pose proof (random_block_wf rng1) as Hmk.
  destruct (random_block rng1) as [mmo_key rng2]. cbn [fst] in *.
  destruct (garble_loop_ok c mmo_key rng2 (Z.to_nat (cfg_m cfg)) Hpc Hmk)
    as (gcs & rng3 & E & Hlen & Hf). rewrite Z2Nat.id in E by lia. rewrite E, bind_ok.
  destruct (lookup_lt_is_Some_2 gcs 0 ltac:(lia)) as [sc0 Hsc0].
  rewrite (vget_nat gcs 0 sc0 Hsc0 : vget gcs 0 = _), bind_ok.
  pose proof (Forall_lookup_1 _ _ _ _ Hf Hsc0) as Hok0.
  destruct (so_run _ _ _ Hok0) as (r & r' & Eg).
  pose proof (so_wit _ _ _ Hok0) as Hwit. pose proof (pc_and c Hpc).
  pose proof (key_commitment_length key 128 Hk) as Hcm.
  destruct (stark_honest c mmo_key r (sc_gc sc0) r' (key_commitment key 128) Hmk Eg Hcm)
    as (p & trace & Ep & Ev & Hp & _); [lia|by rewrite Hwit|].
  rewrite Ep. rewrite bind_ok, Hn.
  assert (u64 (cfg_m cfg * 256) = cfg_m cfg * 256) as -> by (apply Z.mod_small; lia).
  rewrite Z.eqb_refl. cbn [negb].
  change (i ← seqZ 0 (cfg_m cfg); j ← seqZ 0 128; [(i, j)]) with (wire_pairs_z (cfg_m cfg)).
  assert (wire_pairs_z (cfg_m cfg) = wire_pairs (length gcs)) as ->
    by (unfold wire_pairs_z, wire_pairs; by rewrite Hlen, Z2Nat.id by lia).
  rewrite mask_loop_ok, bind_ok;
    [|done|lia|eapply Forall_impl; [exact Hf|]; intros sc Hok; apply (so_shares _ _ _ Hok)].
  rewrite (mapM_out_Ok (λ sc, concat (key_labels_of key sc))), bind_ok.
  2: { intros sc Hin. rewrite Forall_forall in Hf.
       apply key_labels_ok, (so_sendable _ _ _ (Hf sc Hin)). }
  exists key, mmo_key, gcs, sc0, p, (wf_prove trace p). split_and!; try done; [|lia].
  do 2 f_equal. unfold server_frames.
  rewrite (foldl_push (λ sc, gr_gc_hash (sc_gc sc))) by done.
  rewrite push_u64_spec. cbn [app]. unfold meta_text. rewrite <-list_fmap_compose. done.
Qed.

Lemma key_labels_wf key mmo_key c sc : protocol_circuit c →
  server_circuit_ok (G := G) c mmo_key sc →
  length (key_labels_of key sc) = 128%nat ∧ Forall block_wf (key_labels_of key sc).
Proof.
  intros Hpc Hok. pose proof (so_sendable _ _ _ Hok) as Hs. unfold key_labels_of.
  pose proof (sd_wires_size _ Hs). rewrite active_seq by (rewrite bits_of_length; lia).
  split; [by rewrite length_fmap|]. apply Forall_fmap, Forall_forall. intros i Hi%elem_of_seq.
  rewrite bits_of_length in Hi. cbn [compose].
  apply (@label_wf Block Block_xor_ops Block_xor_laws); [|apply (sd_delta _ Hs)].
  pose proof (sd_wires _ Hs) as Hw. rewrite Forall_forall in Hw. apply Hw, list_elem_of_lookup_total_2. lia.
Qed.

(** Everything the server sends arrives. *)
Lemma recv_all_ok c cfg key mmo_key gcs otMsg proof : protocol_circuit c →
  0 < cfg_m cfg < 2 ^ 31 → Z.of_nat (length gcs) = cfg_m cfg → block_wf key →
  Forall (server_circuit_ok (G := G) c mmo_key) gcs →
  Forall (λ p, length p.1 = 16%nat ∧ length p.2 = 16%nat) (mask_pairs gcs otMsg (length gcs)) →
  Z.of_nat (length proof) < 2 ^ 63 →
  recv_all cfg (server_frames cfg key gcs otMsg proof)
    = Ok (mkClientInput (sc_blob <$> gcs) ((λ sc, gr_gc_hash (sc_gc sc)) <$> gcs)
            (concat (pair_bytes <$> mask_pairs gcs otMsg (length gcs)))
            (key_labels_of key <$> gcs) proof key, []).
Proof.
  intros Hpc Hm Hn Hk Hf Hmp Hpr.
  assert (sends (recv_n (Z.to_nat (cfg_m cfg)) recv_blob)
    (concat ((λ sc, send_blob (sc_blob sc)) <$> gcs)) (sc_blob <$> gcs)) as Hblobs.
  { replace (Z.to_nat (cfg_m cfg)) with (length gcs) by lia. apply (sends_n _ _ sc_blob).
    eapply Forall_impl; [exact Hf|]. intros sc Hok. apply sends_blob.
    rewrite (so_blob _ _ _ Hok). apply (so_size _ _ _ Hok). }
  assert (sends (recv_all cfg) (server_frames cfg key gcs otMsg proof)
    (mkClientInput (sc_blob <$> gcs) ((λ sc, gr_gc_hash (sc_gc sc)) <$> gcs)
       (concat (pair_bytes <$> mask_pairs gcs otMsg (length gcs)))
       (key_labels_of key <$> gcs) proof key)) as Hs.
  { unfold recv_all, server_frames.
    eapply sends_bind; [apply sends_blob; rewrite key_commitment_length by done; lia|].
    eapply sends_bind; [apply meta_blob; [by rewrite length_fmap|lia|]|].
    { apply Forall_fmap. eapply Forall_impl; [exact Hf|]. intros sc Hok.
      apply (sd_gc_hash _ (so_sendable _ _ _ Hok)). }
    eapply (sends_bind _ _ _ _ (if tables_online cfg then [] else sc_blob <$> gcs));
      [by destruct (tables_online cfg)|].
    eapply sends_bind; [apply sends_blob|].
    { rewrite (concat_length _ 32), length_fmap, mask_pairs_length; [lia|].
      apply Forall_fmap. eapply Forall_impl; [exact Hmp|]. intros [p0 p1] [? ?].
      cbn in *. unfold pair_bytes. rewrite length_app. cbn. lia. }
    eapply (sends_bind _ _ _ _ (if tables_online cfg then sc_blob <$> gcs else []));
      [by destruct (tables_online cfg)|].
    eapply sends_bind.
    { replace (Z.to_nat (cfg_m cfg)) with (length gcs) by lia.
      apply (sends_n _ (λ sc, send_blob (concat (key_labels_of key sc))) (key_labels_of key)).
      eapply Forall_impl; [exact Hf|]. intros sc Hok.
      destruct (key_labels_wf key mmo_key c sc Hpc Hok). by apply key_label_blob. }
    eapply sends_bind; [by apply sends_blob|].
    assert (length key = 16%nat) as Hk16 by apply Hk.
    destruct (tables_online cfg);
      apply (sends_last recv_blob (λ kb, mkClientInput _ _ _ _ _ kb));
      apply sends_blob; lia. }
  specialize (Hs []). by rewrite app_nil_r in Hs.
Qed.

Lemma filter_true {A} (f : A → bool) l : forallb f l = true → filter (λ x, f x) l = l.
Proof.
  induction l as [|x l IH]; cbn [forallb]; [done|]. intros [Hx Hl]%andb_true_iff.
  rewrite filter_cons, decide_True by by rewrite Hx. by rewrite IH.
Qed.

Lemma mask_pairs_wf c mmo_key gcs otMsg : Forall (server_circuit_ok (G := G) c mmo_key) gcs →
  protocol_circuit c → length otMsg = (length gcs * 256)%nat → pads_wf otMsg →
  Forall (λ p, length p.1 = 16%nat ∧ length p.2 = 16%nat) (mask_pairs gcs otMsg (length gcs)).
Proof.
  intros Hf Hpc Hl Hp. unfold mask_pairs. apply Forall_concat, Forall_fmap, Forall_forall.
  intros [i j] [Hi Hj]%wire_pairs_range. cbn [fst snd compose] in *.
  destruct (lookup_in_range gcs i) as [sc Hsc]; [lia|].
  pose proof (Forall_lookup_1 _ _ _ _ Hf Hsc) as Hok.
  destruct (lookup_in_range (sc_shares sc) j) as [sp Hsp];
    [rewrite (so_shares _ _ _ Hok); lia|].
  destruct (so_share _ _ _ Hok _ _ Hsp) as [Hs0 Hs1].
  pose proof (server_wire_wf c mmo_key sc (Z.to_nat j) Hpc Hok ltac:(lia)) as Hw.
  assert (block_wf (s1_0 sp)) as Hs1' by (rewrite Hs1; by apply xor_block_wf).
  pose proof (sd_delta _ (so_sendable _ _ _ Hok)) as Hd.
  unfold pads_wf in Hp. rewrite Forall_forall in Hp.
  destruct (Hp (otMsg !!! Z.to_nat (i * 256 + 2 * j))) as [W00 W01];
    [apply list_elem_of_lookup_total_2; lia|].
  destruct (Hp (otMsg !!! Z.to_nat (i * 256 + 2 * j + 1))) as [W10 W11];
    [apply list_elem_of_lookup_total_2; lia|].
  unfold mask_row. cbn [fst snd].
  rewrite (list_lookup_total_correct _ _ _ Hsc), (list_lookup_total_correct _ _ _ Hsp).
  repeat constructor; cbn [fst snd]; repeat apply xor_block_wf; done.
Qed.

Lemma run_client_ok c cfg (rng : G) otMsg ot key mmo_key gcs sc0 cm p pf :
  protocol_circuit c → 0 < cfg_m cfg < 2 ^ 31 → n_ot cfg = cfg_m cfg * 256 →
  length otMsg = Z.to_nat (n_ot cfg) → pads_wf otMsg →
  (∀ ch, length ch = length otMsg → ot ch = zip_with pick otMsg ch) → block_wf key →
  Z.of_nat (length gcs) = cfg_m cfg → Forall (server_circuit_ok (G := G) c mmo_key) gcs →
  gcs !! 0%nat = Some sc0 → length cm = CM_BYTES → length (pub_to_bytes p) = 48%nat →
  Z.of_nat (length pf) < 2 ^ 62 →
  let proof := proof_text p (witness_of (sc_gc sc0) cm) pf in do_verify proof = Ok true →
  ∃ xs, length xs = length gcs ∧
    run_client cfg c (server_frames cfg key gcs otMsg proof) rng ot
      = Ok (mkClientRun xs true true (yval c key <$> xs) (b2z (forallb (matches c key) xs))).
Proof.
  intros Hpc Hm Hot Hl Hp Hpick Hk Hn Hf H0g Hcm Hpl Hpf proof Hv.
  pose proof (Forall_lookup_1 _ _ _ _ Hf H0g) as Hok0.
  assert (length otMsg = (length gcs * 256)%nat) as Hl' by lia.
  pose proof (mask_pairs_wf c mmo_key gcs otMsg Hf Hpc Hl' Hp) as Hmp.
  pose proof (proof_text_size p (sc_gc sc0) cm pf (so_sendable _ _ _ Hok0) Hcm Hpl Hpf) as Hsize.
  unfold run_client. rewrite (recv_all_ok c cfg key mmo_key gcs otMsg proof) by done.
  rewrite bind_ok.
  destruct (input_loop_ok (length gcs) (length gcs) rng ltac:(lia))
    as (xs & shs & rng' & Ei & Hxs & Hf2 & Hsh).
  rewrite Nat.sub_diag, app_nil_r in Ei.
  replace (Z.to_nat (n_ot cfg)) with (length gcs * 256)%nat by lia.
  rewrite <-Hn, Ei, bind_ok. cbn [ci_masks ci_key_blob ci_proof ci_blobs ci_hashes ci_key_labels].
  fold (choices_of (concat shs)). set (choices := choices_of (concat shs)).
  assert (length choices = length otMsg) as Hch.
  { unfold choices, choices_of. rewrite length_fmap, (concat_length _ 256) by done.
    apply Forall2_length in Hf2. lia. }
  rewrite (Hpick choices Hch).
  pose proof (unmask_reads choices (zip_with pick otMsg choices) (mask_pairs gcs otMsg (length gcs))
                ltac:(rewrite mask_pairs_length; lia) Hmp [] []) as Eu.
  cbn [app length] in Eu. rewrite app_nil_r in Eu. change (Z.of_nat 0) with 0 in Eu.
  rewrite Eu, bind_ok. fold (share_labels_of choices (zip_with pick otMsg choices)
    (mask_pairs gcs otMsg (length gcs))).
  rewrite (proj1 Hk), Nat.eqb_refl, Hv.
  rewrite (vget_nat (sc_blob <$> gcs) 0 (sc_blob sc0) ltac:(by rewrite list_lookup_fmap, H0g)
    : vget (sc_blob <$> gcs) 0 = _).
  rewrite (vget_nat ((λ sc, gr_gc_hash (sc_gc sc)) <$> gcs) 0 (gr_gc_hash (sc_gc sc0))
    ltac:(by rewrite list_lookup_fmap, H0g) : vget ((λ sc, gr_gc_hash (sc_gc sc)) <$> gcs) 0 = _).
  rewrite (so_blob _ _ _ Hok0). unfold proof.
  rewrite check_binding_forged, bind_ok by (done || apply (so_sendable _ _ _ Hok0)). cbn [andb].
  rewrite Nat2Z.id.
  change (mkEval false true 0 (replicate ?n ?x)) with (loop_state c key [] n).
  unfold key_labels_of. rewrite (eval_loop_ok c key mmo_key) with (n := length gcs); try done.
  - exists xs. split; [done|]. rewrite bind_ok. unfold loop_state. cbn [ev_plaintext_ok
      ev_plain_match ev_ys replicate]. rewrite app_nil_r. do 2 f_equal. f_equal.
    destruct (forallb (matches c key) xs) eqn:Ea; [|done]. cbn [andb].
    rewrite filter_true, Hxs by done. unfold s32, u32.
    by rewrite (signed_id 32), Hn, Z.eqb_refl by lia.
  - intros i sc x Hsc Hx. by apply (masks_deliver c mmo_key gcs otMsg (length gcs) xs shs).
Qed.

(** C1. The protocol computes the OPRF: on a circuit with 128 key bits, 128 input
    bits and 128 outputs, with a trace of its AND gates that the proof library takes, for every number of evaluations, all random tapes, and
    tables sent offline or online, the server and the client both succeed, the
    client accepts the proof and its binding, its outputs are H2(x, C(k, H1(x)))
    for its inputs x, and it reports success exactly when these are the values
    of the plaintext OPRF, which is the case whenever C computes AES. *)
Theorem voprf_correct c cfg (rng_s rng_c : G) otMsg ot :
  protocol_circuit c → 0 < cfg_m cfg < 2 ^ 31 → n_ot cfg = cfg_m cfg * 256 →
  length otMsg = Z.to_nat (n_ot cfg) → pads_wf otMsg →
  (∀ ch, length ch = length otMsg → ot ch = zip_with pick otMsg ch) →
  next_pow2 (count_and (gates c) * 128) ≤ wf_max_trace →
  ∃ sv cl, run_server cfg c rng_s otMsg = Ok sv ∧
    run_client cfg c (sv_frames sv) rng_c ot = Ok cl ∧
    cl_stark_ok cl = true ∧ cl_bind_ok cl = true ∧ Z.of_nat (length (cl_xs cl)) = cfg_m cfg ∧
    cl_ys cl = yval c (sv_key sv) <$> cl_xs cl ∧
    (cl_vok cl = 1 ↔ cl_ys cl = F_k (sv_key sv) <$> cl_xs cl) ∧
    ((∀ k p, block_wf k → block_wf p →
        eval_circuit_plain c (block_to_bits128 k ++ block_to_bits128 p)
          = Ok (block_to_bits128 (aes_encrypt k p))) → cl_vok cl = 1).
Proof.
  intros Hpc Hm Hot Hl Hp Hpick Hfit.
  destruct (run_server_ok c cfg rng_s otMsg Hpc Hm Hot Hl Hfit)
    as (key & mmo_key & gcs & sc0 & p & pf & Es & Hk & Hn & Hf & H0g & Hv & Hpl & Hpf).
  destruct (run_client_ok c cfg rng_c otMsg ot key mmo_key gcs sc0 _ p pf Hpc Hm Hot Hl Hp Hpick
              Hk Hn Hf H0g (key_commitment_length key 128 Hk) Hpl Hpf Hv) as (xs & Hxs & Ec).
  eexists _, _. split; [exact Es|]. split; [exact Ec|].
  cbn [cl_stark_ok cl_bind_ok cl_xs cl_ys cl_vok sv_key]. split_and!; try done; [lia|..].
  - split.
    + destruct (forallb (matches c key) xs) eqn:Ea; [intros _|done].
      rewrite forallb_forall in Ea. apply list_fmap_ext. intros i x Hx.
      specialize (Ea x). rewrite <-list_elem_of_In in Ea.
      symmetry. apply (bool_decide_eq_true_1 _), Ea. by eapply list_elem_of_lookup_2.
    + intros E. replace (forallb (matches c key) xs) with true; [done|]. symmetry.
      apply forallb_forall. intros x [i Hi]%list_elem_of_In%list_elem_of_lookup_1.
      apply bool_decide_eq_true. apply (f_equal (.!! i)) in E.
      rewrite !list_lookup_fmap, Hi in E. by injection E.
  - intros Haes. replace (forallb (matches c key) xs) with true; [done|]. symmetry.
    apply forallb_forall. intros x _. apply bool_decide_eq_true. unfold F_k, yval. f_equal.
    unfold circuit_value. rewrite fmap_app, <-!block_to_bits128_bits.
    rewrite Haes by (done || apply H1_wf). cbn [from_ok]. rewrite block_roundtrip; [done|].
    apply encrypt_wf; [by apply FixedKeyAES_wf|apply H1_wf].
Qed.
End protocol.

(** ** What the binding check is worth *)
Section forge.
Context `{Sha256} `{!Sha256Laws} `{Winterfell} `{!WinterfellLaws}.

(** C37. The client's checks do not tie the tables to a garbling: for every tables
    message, whatever its tables and whatever its hash field, there is a proof
    file that the verifier accepts and that the binding check accepts together
    with the announced hash. *)
Theorem forged_tables_accepted gr : sendable gr →
  ∃ proof, do_verify proof = Ok true ∧
    check_binding proof (Ok (tables_text gr)) (Ok (gr_gc_hash gr)) = Ok true.
Proof.
  intros Hs.
  destruct (stark_vacuous (gr_gc_hash gr) (gr_R_root gr) (replicate 32 0)
    (replicate CM_BYTES 0) 1) as (Hv & Hl);
    [lia|apply Hs|apply Hs|done|apply length_replicate|].
  eexists. split; [exact Hv|]. by apply check_binding_forged.
Qed.
End forge.

(** ** Witnesses *)

(** A circuit of the protocol: eight AND gates, the rest XOR. *)
Definition mini_circuit : Circuit := {|
  n_gates := 128; n_wires := 384; n_input0 := 128; n_input1 := 128; n_output := 128;
  n_and := 8; n_xor := 120;
  gates := (λ i, mkGate (if i <? 8 then AND else XOR) i (128 + i) (256 + i)) <$> seqZ 0 128;
  output_wires := seqZ 256 128;
|}.

Lemma mini_circuit_protocol : protocol_circuit mini_circuit.
Proof.
  constructor; [apply circuit_wfb_sound; by vm_compute|reflexivity..|].
  apply (bool_decide_eq_true_1 _). by vm_compute.
Qed.

(** A proof system that accepts every proof. *)
Definition short_winterfell : Winterfell :=
  {| wf_prove trace p := [1]; wf_verify proof p := Ok true; wf_max_trace := 2 ^ 29 |}.

Lemma short_winterfell_laws : @WinterfellLaws short_winterfell.
Proof. by constructor. Qed.

Definition sample_pads (n : nat) : list (Block * Block) :=
  (λ i, (block_of i, block_of (i + 100000))) <$> seqZ 0 (Z.of_nat n).

Lemma voprf_correct_witness :
  let cfg := mkConfig 2 512 true in
  let pads := sample_pads 512 in
  ∃ sv cl,
    @run_server Z lcg toy_sha256 short_winterfell cfg mini_circuit 11 pads = Ok sv ∧
    @run_client Z lcg toy_sha256 short_winterfell cfg mini_circuit (sv_frames sv) 12
      (λ ch, zip_with pick pads ch) = Ok cl ∧
    cl_stark_ok cl = true ∧ cl_bind_ok cl = true ∧ Z.of_nat (length (cl_xs cl)) = 2 ∧
    cl_ys cl = @yval toy_sha256 mini_circuit (sv_key sv) <$> cl_xs cl ∧
    (cl_vok cl = 1 ↔ cl_ys cl = @F_k toy_sha256 (sv_key sv) <$> cl_xs cl) ∧
    ((∀ k p, block_wf k → block_wf p →
        eval_circuit_plain mini_circuit (block_to_bits128 k ++ block_to_bits128 p)
          = Ok (block_to_bits128 (aes_encrypt k p))) → cl_vok cl = 1).
Proof.
  apply (@voprf_correct Z lcg toy_sha256 toy_sha256_laws short_winterfell short_winterfell_laws
           (λ _ _, eq_refl) mini_circuit (mkConfig 2 512 true) 11 12 (sample_pads 512)
           (λ ch, zip_with pick (sample_pads 512) ch) mini_circuit_protocol);
    [done|done|by vm_compute| |done|by apply (bool_decide_eq_true_1 _); vm_compute].
  apply Forall_fmap, Forall_forall. intros i _. split; apply block_of_wf.
Defined.

Lemma forged_tables_accepted_witness : ∃ proof,
  @do_verify toy_sha256 trace_winterfell proof = Ok true ∧
  check_binding proof (Ok (tables_text sample_gr)) (Ok (gr_gc_hash sample_gr)) = Ok true.
Proof.
  apply (@forged_tables_accepted toy_sha256 toy_sha256_laws trace_winterfell
           trace_winterfell_laws sample_gr sample_gr_sendable).
Defined.
