(* ===== verification/Workers.v ===== *)
(** * Worker threads over a shared memory

    The jobs that a party of [Yao/] hands to its [Worker]s ([Tools/Worker.h]) run at the
    same time on one memory.  A job is a list of units and a local state; the units of
    different jobs interleave in every way, as an oracle decides.  Two units of different
    jobs of which one writes what the other accesses are a data race, which is undefined
    behaviour in C++.  The theorem: without a race every schedule ends in the state of the
    jobs run one after the other. *)

From S2P Require Import Prelude.

(** ** Footprints

    Ranges of registers [(first, number)]: the one that is written, those that are read. *)
Record Footprint := mkFp { fp_writes : Z * Z; fp_reads : list (Z * Z) }.

Definition within (i : Z * Z) (r : Z) : bool := (i.1 <=? r) && (r <? i.1 + i.2).
Definition overlap (i j : Z * Z) : bool := Z.max i.1 j.1 <? Z.min (i.1 + i.2) (j.1 + j.2).
Definition accesses (f : Footprint) (r : Z) : bool :=
  within (fp_writes f) r || existsb (λ i, within i r) (fp_reads f).
Definition conflict (f g : Footprint) : bool :=
  overlap (fp_writes f) (fp_writes g) || existsb (overlap (fp_writes f)) (fp_reads g)
  || existsb (overlap (fp_writes g)) (fp_reads f).

Lemma within_overlap i j r : within i r = true → within j r = true → overlap i j = true.
Proof. destruct i, j. unfold within, overlap. cbn. lia. Qed.

Lemma conflict_sym f g : conflict f g = conflict g f.
Proof.
  unfold conflict. assert (overlap (fp_writes f) (fp_writes g) = overlap (fp_writes g) (fp_writes f)) as ->
    by (unfold overlap; lia).
  rewrite <-!orb_assoc. f_equal. apply orb_comm.
Qed.

(** Without a conflict nobody accesses what the other writes. *)
Lemma conflict_apart f g r : conflict f g = false → within (fp_writes f) r = true → accesses g r = false.
Proof.
  unfold conflict, accesses. intros [[H1 H2]%orb_false_iff _]%orb_false_iff Hr. apply orb_false_iff. split.
  - destruct (within (fp_writes g) r) eqn:E; [|done]. by rewrite (within_overlap _ _ _ Hr E) in H1.
  - apply not_true_is_false. intros (i & Hi & E)%existsb_exists.
    apply not_true_iff_false in H2. apply H2, existsb_exists. exists i. split; [done|]. by eapply within_overlap.
Qed.

(** Units that access less conflict less. *)
Lemma conflict_mono f g f' g' : fp_writes f = fp_writes f' → fp_writes g = fp_writes g' →
  (∀ i r, i ∈ fp_reads f → within i r = true → existsb (λ j, within j r) (fp_reads f') = true) →
  (∀ i r, i ∈ fp_reads g → within i r = true → existsb (λ j, within j r) (fp_reads g') = true) →
  conflict f' g' = false → conflict f g = false.
Proof.
  assert (∀ w i, overlap w i = true → ∃ r, within w r = true ∧ within i r = true) as Hover.
  { intros [a n] [b m]. unfold overlap, within. cbn. intros Hlt. exists (Z.max a b). lia. }
  assert (∀ w l l', (∀ i r, i ∈ l → within i r = true → existsb (λ j, within j r) l' = true) →
    existsb (overlap w) l' = false → existsb (overlap w) l = false) as Hreads.
  { intros w l l' Hl E. apply not_true_is_false. intros (i & Hi & (r & Hw & Hr)%Hover)%existsb_exists.
    pose proof (Hl i r ltac:(by apply list_elem_of_In) Hr) as (j & Hj & Hjr)%existsb_exists.
    apply not_true_iff_false in E. apply E, existsb_exists. exists j. split; [done|]. by eapply within_overlap. }
  intros Ef Eg Hf Hg. unfold conflict. rewrite Ef, Eg, !orb_false_iff. intros [[H1 H2] H3]. split_and!; eauto.
Qed.

(** ** Computations that touch a footprint only *)
Section out2.
Context {A B : Type}.

Definition out2 (R : A → B → Prop) (m1 : outcome A) (m2 : outcome B) : Prop :=
  match m1, m2 with
  | Ok a, Ok b => R a b
  | Throw e1, Throw e2 => e1 = e2
  | UB, UB => True
  | _, _ => False
  end.
End out2.

Lemma out2_bind {A B A' B'} (R : A → B → Prop) (R' : A' → B' → Prop) m1 m2
    (f1 : A → outcome A') (f2 : B → outcome B') :
  out2 R m1 m2 → (∀ a b, R a b → out2 R' (f1 a) (f2 b)) → out2 R' (m1 ≫= f1) (m2 ≫= f2).
Proof. intros HR Hf. destruct m1, m2; try done. by apply Hf. Qed.

Lemma out2_same {A A' B'} (R' : A' → B' → Prop) (m : outcome A)
    (f1 : A → outcome A') (f2 : A → outcome B') :
  (∀ a, out2 R' (f1 a) (f2 a)) → out2 R' (m ≫= f1) (m ≫= f2).
Proof. intros Hf. destruct m; try done. by apply Hf. Qed.

Lemma out2_foldM {A B I} (R : A → B → Prop) (f1 : A → I → outcome A) (f2 : B → I → outcome B) l a b :
  (∀ i a b, i ∈ l → R a b → out2 R (f1 a i) (f2 b i)) → R a b → out2 R (foldM f1 a l) (foldM f2 b l).
Proof.
  revert a b. induction l as [|i l IH]; intros a b Hf HR; [done|]. cbn [foldM].
  eapply out2_bind; [apply Hf; [set_solver|done]|].
  intros a' b' HR'. apply IH; [|done]. intros j a1 b1 Hj. apply Hf. set_solver.
Qed.

Section frame.
Context {A : Type}.

Definition same_on (F : Z → bool) (S T : list A) : Prop :=
  length S = length T ∧ ∀ r : nat, F (Z.of_nat r) = true → S !! r = T !! r.

(** Two runs from [A1] and [A2]: what they have touched agrees, the rest is unchanged. *)
Record framed (f : Footprint) (A1 A2 T1 T2 : list A) : Prop := {
  fr_same : same_on (accesses f) T1 T2;
  fr_left : same_on (λ r, negb (within (fp_writes f) r)) A1 T1;
  fr_right : same_on (λ r, negb (within (fp_writes f) r)) A2 T2;
}.

Lemma framed_refl f A1 A2 : same_on (accesses f) A1 A2 → framed f A1 A2 A1 A2.
Proof. intros Hs. split; [done|by split|by split]. Qed.

Lemma framed_vget f A1 A2 T1 T2 r : framed f A1 A2 T1 T2 → accesses f r = true → vget T1 r = vget T2 r.
Proof.
  intros [[_ Hs] _ _] Hr. unfold vget. destruct (Z.ltb_spec r 0); [done|].
  by rewrite (Hs (Z.to_nat r)) by by rewrite Z2Nat.id by lia.
Qed.

Lemma framed_vset f A1 A2 T1 T2 r x : framed f A1 A2 T1 T2 → within (fp_writes f) r = true →
  out2 (framed f A1 A2) (vset T1 r x) (vset T2 r x).
Proof.
  intros [[Hl Hs] [Hl1 H1] [Hl2 H2]] Hr. unfold vset. rewrite <-Hl. destruct (Z.ltb_spec r 0); [done|].
  destruct (Z.leb_spec (Z.of_nat (length T1)) r); [done|]. cbn.
  assert (∀ k : nat, negb (within (fp_writes f) (Z.of_nat k)) = true → k ≠ Z.to_nat r) as Hne
    by (intros k Hk ->; by rewrite Z2Nat.id, Hr in Hk by lia).
  split; split; rewrite ?length_insert; try done; intros k Hk.
  - destruct (decide (k = Z.to_nat r)) as [->|].
    + by rewrite !list_lookup_insert_eq by lia.
    + by rewrite !list_lookup_insert_ne by done; apply Hs.
  - rewrite list_lookup_insert_ne by (by apply not_eq_sym, Hne). by apply H1.
  - rewrite list_lookup_insert_ne by (by apply not_eq_sym, Hne). by apply H2.
Qed.

(** [f] accesses the footprint and writes its writes. *)
Definition local {L} (fp : Footprint) (f : list A → L → outcome (list A * L)) : Prop :=
  ∀ A1 A2 l, same_on (accesses fp) A1 A2 →
    out2 (λ r1 r2, r1.2 = r2.2 ∧ framed fp A1 A2 r1.1 r2.1) (f A1 l) (f A2 l).

Lemma local_Ok {L} fp (f : list A → L → outcome (list A * L)) A1 A2 l T1 l1 :
  local fp f → same_on (accesses fp) A1 A2 → f A1 l = Ok (T1, l1) →
  ∃ T2, f A2 l = Ok (T2, l1) ∧ framed fp A1 A2 T1 T2.
Proof.
  intros Hf Hs E. specialize (Hf A1 A2 l Hs). rewrite E in Hf.
  destruct (f A2 l) as [[T2 l2]| |]; try done. destruct Hf as [El HF]. cbn in *. subst l2. by exists T2.
Qed.

(** Two of them without a conflict commute. *)
Lemma local_commute {L K} fp gp (f : list A → L → outcome (list A * L)) (g : list A → K → outcome (list A * K))
    S l k S1 l' S2 k' :
  local fp f → local gp g → conflict fp gp = false →
  f S l = Ok (S1, l') → g S1 k = Ok (S2, k') →
  ∃ S1', g S k = Ok (S1', k') ∧ f S1' l = Ok (S2, l').
Proof.
  intros Hf Hg Hc E1 E2.
  assert (∀ r, within (fp_writes fp) r = true → accesses gp r = false) as Wf by (intros r; by apply conflict_apart).
  assert (∀ r, within (fp_writes gp) r = true → accesses fp r = false) as Wg
    by (intros r; apply conflict_apart; by rewrite conflict_sym).
  assert (∀ hp r, within (fp_writes hp) r = true → accesses hp r = true) as Wacc
    by (intros hp r Hr; unfold accesses; by rewrite Hr).
  destruct (local_Ok fp f S S l S1 l' Hf ltac:(by split) E1) as (? & E1' & [_ [L1 Off1] _]).
  rewrite E1 in E1'. injection E1' as <-.
  assert (same_on (accesses gp) S1 S) as Hs1.
  { split; [done|]. intros r Hr. symmetry. apply Off1. destruct (within (fp_writes fp) _) eqn:E; [|done].
    by rewrite (Wf _ E) in Hr. }
  destruct (local_Ok gp g S1 S k S2 k' Hg Hs1 E2) as (S1' & Eg & [[L2 On2] [L3 Off2] [L4 Off3]]).
  assert (same_on (accesses fp) S S1') as Hs2.
  { split; [done|]. intros r Hr. apply Off3. destruct (within (fp_writes gp) _) eqn:E; [|done].
    by rewrite (Wg _ E) in Hr. }
  destruct (local_Ok fp f S S1' l S1 l' Hf Hs2 E1) as (S2' & Ef & [[L5 On4] _ [L6 Off4]]).
  exists S1'. split; [done|]. rewrite Ef. do 2 f_equal. apply list_eq. intros r.
  destruct (within (fp_writes fp) (Z.of_nat r)) eqn:Ewf.
  - rewrite <-On4 by by apply Wacc. apply Off2.
    destruct (within (fp_writes gp) (Z.of_nat r)) eqn:Ewg; [|done].
    pose proof (Wf _ Ewf) as Hn. by rewrite (Wacc gp _ Ewg) in Hn.
  - rewrite <-Off4 by by rewrite Ewf. destruct (within (fp_writes gp) (Z.of_nat r)) eqn:Ewg.
    + symmetry. apply On2. by apply Wacc.
    + rewrite <-Off3, <-Off2 by by rewrite Ewg. apply Off1. by rewrite Ewf.
Qed.
End frame.

(** ** Tasks and their schedules *)

(** The job of one thread: its own state and the units it still has to do. *)
Record Task (L U : Type) := mkTask { t_local : L; t_todo : list U }.
Arguments mkTask {L U}.
Arguments t_local {L U}.
Arguments t_todo {L U}.

(** Which of the unfinished tasks does the next unit, for every step in turn. *)
Class Scheduler := schedule : nat → nat.

Fixpoint independent {U} (fp : U → Footprint) (us : list U) : bool :=
  match us with
  | [] => true
  | u :: us => forallb (λ v, negb (conflict (fp u) (fp v))) us && independent fp us
  end.

(** No unit of a task conflicts with one of another task. *)
Fixpoint race_free {U} (fp : U → Footprint) (uss : list (list U)) : bool :=
  match uss with
  | [] => true
  | us :: uss => forallb (λ u, forallb (λ v, negb (conflict (fp u) (fp v))) (mjoin uss)) us && race_free fp uss
  end.

Section tasks.
Context {A L U : Type} (fp : U → Footprint) (run : U → list A → L → outcome (list A * L)).
#[local] Abbreviation Tasks := (list (Task L U)).

(** The tasks that are not done. *)
Definition unfinished (ts : Tasks) (i : nat) : bool :=
  match ts !! i with Some (mkTask _ (_ :: _)) => true | _ => false end.
Definition pending (ts : Tasks) : list nat := filter (λ i, unfinished ts i = true) (seq 0 (length ts)).

Definition task_step (i : nat) (m : list A) (ts : Tasks) : outcome (list A * Tasks) :=
  match ts !! i with
  | Some (mkTask l (u :: us)) => '(m, l) ← run u m l; Ok (m, <[i := mkTask l us]> ts)
  | _ => Ok (m, ts)
  end.

(** [n] steps at most; none of them does nothing. *)
Fixpoint run_tasks (n : nat) (sched : nat → nat) (m : list A) (ts : Tasks) : outcome (list A * Tasks) :=
  match n with
  | O => Ok (m, ts)
  | S n =>
      match pending ts !! (sched 0%nat mod length (pending ts))%nat with
      | None => Ok (m, ts)
      | Some i => '(m, ts) ← task_step i m ts; run_tasks n (λ k, sched (S k)) m ts
      end
  end.

Definition remaining (ts : Tasks) : nat := length (mjoin (t_todo <$> ts)).

(** The threads from the dispatch of their tasks to the last of them: the memory and the
    local states. *)
Definition run_workers {sched : Scheduler} (m : list A) (ts : Tasks) : outcome (list A * list L) :=
  if race_free fp (t_todo <$> ts)
  then st ← run_tasks (remaining ts) schedule m ts; Ok (st.1, t_local <$> (st.2 : Tasks))
  else UB.

(** One task after the other. *)
Definition run_units (m : list A) (l : L) (us : list U) : outcome (list A * L) :=
  foldM (λ st u, run u st.1 st.2) (m, l) us.

Fixpoint run_in_order (m : list A) (ts : Tasks) : outcome (list A * Tasks) :=
  match ts with
  | [] => Ok (m, [])
  | t :: ts =>
      '(m, l) ← run_units m (t_local t) (t_todo t);
      '(m, ts) ← run_in_order m ts;
      Ok (m, mkTask l [] :: ts)
  end.

Lemma run_in_order_cons m l us m1 l1 ts m2 ts2 : run_units m l us = Ok (m1, l1) →
  run_in_order m1 ts = Ok (m2, ts2) → run_in_order m (mkTask l us :: ts) = Ok (m2, mkTask l1 [] :: ts2).
Proof. intros E1 E2. cbn [run_in_order t_local t_todo]. by rewrite E1, bind_ok, E2. Qed.

Lemma independent_app us vs : independent fp (us ++ vs) =
  independent fp us && independent fp vs
    && forallb (λ u, forallb (λ v, negb (conflict (fp u) (fp v))) vs) us.
Proof.
  induction us as [|u us IH]; cbn; [by rewrite andb_true_r|]. rewrite IH, forallb_app. clear IH.
  repeat match goal with |- context [forallb ?f ?l] => generalize (forallb f l) end.
  generalize (independent fp us), (independent fp vs). by repeat intros [].
Qed.

(** Units without a conflict, however they are dealt out. *)
Lemma independent_race_free uss : independent fp (mjoin uss) = true → race_free fp uss = true.
Proof.
  induction uss as [|us uss IH]; [done|]. cbn [mjoin list_join race_free].
  rewrite independent_app, !andb_true_iff. intros [[_ H2] H3]. by split; [|apply IH].
Qed.

Context (run_local : ∀ u, local (fp u) (run u)).

Lemma run_units_commute m l us u k m1 l1 m2 k1 :
  forallb (λ v, negb (conflict (fp v) (fp u))) us = true →
  run_units m l us = Ok (m1, l1) → run u m1 k = Ok (m2, k1) →
  ∃ m', run u m k = Ok (m', k1) ∧ run_units m' l us = Ok (m2, l1).
Proof.
  unfold run_units. revert m l. induction us as [|v us IH]; intros m l; cbn [forallb foldM].
  { intros _ [= <- <-] E. by exists m2. }
  intros [Hv%negb_true_iff Hus]%andb_true_iff ([m0 l0] & E0 & E1)%bind_Ok_inv E2.
  destruct (IH m0 l0 Hus E1 E2) as (m0' & E3 & E4).
  destruct (local_commute _ _ _ _ _ _ _ _ _ _ _ (run_local v) (run_local u) Hv E0 E3) as (m' & E5 & E6).
  exists m'. split; [done|]. cbn [fst snd] in *. by rewrite E6, bind_ok.
Qed.

Lemma run_units_commute_inv m l us u k m' m2 k1 l1 :
  forallb (λ v, negb (conflict (fp v) (fp u))) us = true →
  run u m k = Ok (m', k1) → run_units m' l us = Ok (m2, l1) →
  ∃ m1, run_units m l us = Ok (m1, l1) ∧ run u m1 k = Ok (m2, k1).
Proof.
  unfold run_units. revert m m' l. induction us as [|v us IH]; intros m m' l; cbn [forallb foldM].
  { intros _ E [= <- <-]. by exists m. }
  intros [Hv%negb_true_iff Hus]%andb_true_iff E2 ([m0 l0] & E0 & E1)%bind_Ok_inv. rewrite conflict_sym in Hv.
  destruct (local_commute _ _ _ _ _ _ _ _ _ _ _ (run_local u) (run_local v) Hv E2 E0) as (m3 & E3 & E4).
  destruct (IH m3 m0 l0 Hus E4 E1) as (m1 & E5 & E6). exists m1. cbn [fst snd] in *. by rewrite E3, bind_ok.
Qed.

(** The next unit of any task may as well come first. *)
Lemma front_unit m ts i l u us r : race_free fp (t_todo <$> ts) = true → ts !! i = Some (mkTask l (u :: us)) →
  run_in_order m ts = Ok r ↔
  ∃ m1 l1, run u m l = Ok (m1, l1) ∧ run_in_order m1 (<[i := mkTask l1 us]> ts) = Ok r.
Proof.
  revert m i r. induction ts as [|t ts IH]; intros m [|i] r; [done..| |].
  - intros _ [= ->]. cbn [insert list_insert run_in_order t_local t_todo]. unfold run_units. cbn [foldM fst snd]. split.
    + intros ([m2 l2] & ([m1 l1] & E1 & E2)%bind_Ok_inv & E3)%bind_Ok_inv. exists m1, l1. split; [done|].
      by rewrite E2, bind_ok.
    + intros (m1 & l1 & -> & E). by rewrite bind_ok.
  - cbn [fmap list_fmap race_free lookup list_lookup insert list_insert run_in_order].
    intros [H0 Hr]%andb_true_iff Hi.
    assert (forallb (λ v, negb (conflict (fp v) (fp u))) (t_todo t) = true) as Hc.
    { apply forallb_forall. intros v Hv. pose proof (proj1 (forallb_forall _ _) H0 v Hv) as Hf.
      apply (proj1 (forallb_forall _ _) Hf). apply list_elem_of_In, list_elem_of_join. exists (u :: us).
      split; [left|]. apply list_elem_of_fmap. exists (mkTask l (u :: us)). split; [done|].
      by eapply list_elem_of_lookup_2. }
    split.
    + intros ([m0 l0] & E0 & E)%bind_Ok_inv. apply bind_Ok_inv in E as ([m3 ts3] & E & [= <-]).
      destruct (proj1 (IH m0 i _ Hr Hi) E) as (m1 & l1 & E1 & E2).
      destruct (run_units_commute _ _ _ _ _ _ _ _ _ Hc E0 E1) as (m' & E3 & E4).
      exists m', l1. split; [done|]. rewrite E4, bind_ok. exact (f_equal (mbind _) E2).
    + intros (m' & l1 & E3 & ([m1 l0] & E4 & E)%bind_Ok_inv). apply bind_Ok_inv in E as ([m3 ts3] & E & [= <-]).
      destruct (run_units_commute_inv _ _ _ _ _ _ _ _ _ Hc E3 E4) as (m0 & E0 & E1).
      rewrite E0, bind_ok. cbn beta iota. by rewrite (proj2 (IH m0 i (m3, ts3) Hr Hi)) by eauto.
Qed.

Lemma elem_of_pending ts i : i ∈ pending ts ↔ ∃ l u us, ts !! i = Some (mkTask l (u :: us)).
Proof.
  unfold pending. rewrite list_elem_of_filter, elem_of_seq. unfold unfinished.
  destruct (ts !! i) as [[l [|u us]]|] eqn:E.
  - split; [by intros [? _]|]. intros (? & ? & ? & ?). simplify_eq.
  - apply lookup_lt_Some in E as Hlt. split; [by eauto 10|]. split; [done|lia].
  - split; [by intros [? _]|]. intros (? & ? & ? & ?). simplify_eq.
Qed.

Lemma remaining_step (ts : Tasks) i l u us l1 : ts !! i = Some (mkTask l (u :: us)) →
  remaining ts = S (remaining (<[i := mkTask l1 us]> ts)).
Proof.
  unfold remaining. revert i. induction ts as [|t ts IH]; intros [|i] Hi; [done..| |].
  - by injection Hi as ->.
  - change (length (t_todo t ++ mjoin (t_todo <$> ts))
      = S (length (t_todo t ++ mjoin (t_todo <$> <[i := mkTask l1 us]> ts)))).
    rewrite !length_app, (IH i Hi). lia.
Qed.

Lemma remaining_pending ts : remaining ts ≠ 0%nat → pending ts ≠ [].
Proof.
  intros Hr Hn. apply Hr. unfold remaining. apply length_zero_iff_nil, join_nil_2, Forall_forall.
  intros us (t & -> & Ht)%list_elem_of_fmap. apply list_elem_of_lookup in Ht as [i Hi].
  destruct t as [l [|u us]]; [done|]. exfalso. apply (not_elem_of_nil i). rewrite <-Hn.
  apply elem_of_pending. eauto.
Qed.

Lemma todo_step (ts : Tasks) i l u us l1 w : ts !! i = Some (mkTask l (u :: us)) →
  w ∈ mjoin (t_todo <$> <[i := mkTask l1 us]> ts) → w ∈ mjoin (t_todo <$> ts).
Proof.
  revert i. induction ts as [|t ts IH]; intros [|i] Hi; [done..| |].
  - injection Hi as ->. intros Hw. by right.
  - change (w ∈ t_todo t ++ mjoin (t_todo <$> <[i := mkTask l1 us]> ts) → w ∈ t_todo t ++ mjoin (t_todo <$> ts)).
    rewrite !elem_of_app. intros [?|Hw]; [by left|right]. by eapply IH.
Qed.

Lemma race_free_step (ts : Tasks) i l u us l1 : ts !! i = Some (mkTask l (u :: us)) →
  race_free fp (t_todo <$> ts) = true → race_free fp (t_todo <$> <[i := mkTask l1 us]> ts) = true.
Proof.
  revert i. induction ts as [|t ts IH]; intros [|i] Hi; [done..| |].
  - injection Hi as ->. cbn. rewrite !andb_true_iff. by intros [[_ ?] ?].
  - change (race_free fp (t_todo t :: (t_todo <$> ts)) = true →
      race_free fp (t_todo t :: (t_todo <$> <[i := mkTask l1 us]> ts)) = true).
    cbn [race_free]. rewrite !andb_true_iff. intros [H0 Hr]. split; [|by eapply IH].
    apply forallb_forall. intros v Hv. pose proof (proj1 (forallb_forall _ _) H0 v Hv) as Hf.
    apply forallb_forall. intros w Hw%list_elem_of_In. apply (proj1 (forallb_forall _ _) Hf).
    apply list_elem_of_In. by eapply todo_step.
Qed.

Lemma run_in_order_done ts m : remaining ts = 0%nat → run_in_order m ts = Ok (m, ts).
Proof.
  unfold remaining. revert m. induction ts as [|[l [|u us]] ts IH]; intros m Hr; [done| |done].
  cbn. by rewrite IH.
Qed.

(** Every schedule is as good as the order of dispatch. *)
Lemma run_tasks_in_order n sched m ts r : race_free fp (t_todo <$> ts) = true → remaining ts = n →
  run_tasks n sched m ts = Ok r ↔ run_in_order m ts = Ok r.
Proof.
  revert sched m ts. induction n as [|n IH]; intros sched m ts Hr Hn.
  { cbn [run_tasks]. by rewrite run_in_order_done. }
  cbn [run_tasks].
  assert (length (pending ts) ≠ 0%nat) as Hp.
  { intros E%length_zero_iff_nil. apply (remaining_pending ts); [lia|done]. }
  destruct (lookup_lt_is_Some_2 (pending ts) (sched 0%nat mod length (pending ts))) as [i Hi];
    [by apply Nat.mod_upper_bound|]. rewrite Hi.
  apply list_elem_of_lookup_2, elem_of_pending in Hi as (l & u & us & Hi).
  rewrite (front_unit m ts i l u us r Hr Hi). unfold task_step. rewrite Hi. split.
  - intros ([m1 ts1] & ([m2 l1] & E1 & [= -> <-])%bind_Ok_inv & E)%bind_Ok_inv. exists m1, l1. split; [done|].
    eapply IH; [by eapply race_free_step| |exact E].
    rewrite (remaining_step ts i l u us l1 Hi) in Hn. by injection Hn.
  - intros (m1 & l1 & E1 & E). rewrite E1, !bind_ok.
    eapply IH; [by eapply race_free_step| |exact E].
    rewrite (remaining_step ts i l u us l1 Hi) in Hn. by injection Hn.
Qed.

(** Without a race the schedule is of no consequence. *)
Lemma run_workers_Ok {sched : Scheduler} m ts m' ls : race_free fp (t_todo <$> ts) = true →
  run_in_order m ts = Ok (m', ls) → run_workers m ts = Ok (m', t_local <$> ls).
Proof.
  intros Hr E. unfold run_workers. rewrite Hr. by rewrite (proj2 (run_tasks_in_order _ _ _ _ _ Hr eq_refl) E).
Qed.

Lemma run_workers_same (S1 S2 : Scheduler) m ts r :
  run_workers (sched:=S1) m ts = Ok r → run_workers (sched:=S2) m ts = Ok r.
Proof.
  unfold run_workers. destruct (race_free _ _) eqn:Hr; [|done]. intros ([m' ts'] & E & [= <-])%bind_Ok_inv.
  apply run_tasks_in_order in E; [|done..]. by rewrite (proj2 (run_tasks_in_order _ _ _ _ _ Hr eq_refl) E).
Qed.
End tasks.
