(* ===== verification/YaoKey.v ===== *)
(** * Keys and their hash

    [BMR/Key.h] and [Tools/MMO.h] of MP-SPDZ: a key is one [__m128i], the hash of
    the garbling is AES with a fixed key in Matyas-Meyer-Oseas mode
    ([Tools/aes-ni.cpp], [Tools/aes.h], the AES-NI path). *)

From S2P Require Import Prelude Xor Block Aes.

(** ** [class Key] *)

(** The 128 bits of the register; the low lane holds bits 0 to 63. *)
Abbreviation Key := Z.

Definition key_lanes (hi lo : Z) : Key := Z.lor (Z.shiftl (u64 hi) 64) (u64 lo).
Definition lane_lo (k : Key) : Z := u64 k.
Definition lane_hi (k : Key) : Z := u64 (Z.shiftr k 64).

(** [Key(long long a)] and [Key(long long a, long long b)]; a negative integer
    is its two's complement. *)
Definition Key_of_long (a : Z) : Key := key_lanes 0 a.
Definition Key_of_longs (a b : Z) : Key := key_lanes a b.

Definition get_signal (k : Key) : bool := negb (Z.land k 1 =? 0).
Definition set_signal (k : Key) (signal : bool) : Key := Z.lxor (Z.ldiff k 1) (b2z signal).

(** Both lanes shifted to the left. *)
Definition doubling (k : Key) (i : Z) : Key :=
  key_lanes (Z.shiftl (lane_hi k) i) (Z.shiftl (lane_lo k) i).

(** ** AES, key schedule and encryption with AES-NI *)
Definition AES_128_ASSIST (temp1 temp2 : list Z) : list Z :=
  let temp2 := Aesni.shuffle_ff temp2 in
  let temp3 := Aesni.slli_si128 temp1 4 in
  let temp1 := zip_with Z.lxor temp1 temp3 in
  let temp3 := Aesni.slli_si128 temp3 4 in
  let temp1 := zip_with Z.lxor temp1 temp3 in
  let temp3 := Aesni.slli_si128 temp3 4 in
  let temp1 := zip_with Z.lxor temp1 temp3 in
  zip_with Z.lxor temp1 temp2.

Definition aes_128_schedule (userkey : Block) : list Block :=
  let k0 := userkey in
  let k1 := AES_128_ASSIST k0 (Aesni.aeskeygenassist k0 0x1) in
  let k2 := AES_128_ASSIST k1 (Aesni.aeskeygenassist k1 0x2) in
  let k3 := AES_128_ASSIST k2 (Aesni.aeskeygenassist k2 0x4) in
  let k4 := AES_128_ASSIST k3 (Aesni.aeskeygenassist k3 0x8) in
  let k5 := AES_128_ASSIST k4 (Aesni.aeskeygenassist k4 0x10) in
  let k6 := AES_128_ASSIST k5 (Aesni.aeskeygenassist k5 0x20) in
  let k7 := AES_128_ASSIST k6 (Aesni.aeskeygenassist k6 0x40) in
  let k8 := AES_128_ASSIST k7 (Aesni.aeskeygenassist k7 0x80) in
  let k9 := AES_128_ASSIST k8 (Aesni.aeskeygenassist k8 0x1b) in
  let k10 := AES_128_ASSIST k9 (Aesni.aeskeygenassist k9 0x36) in
  [k0; k1; k2; k3; k4; k5; k6; k7; k8; k9; k10].

(** [ecb_aes_128_encrypt<N>]: the rounds in the outer loop, the [N] blocks in the
    inner one. *)
Definition ecb_aes_128_encrypt (key : list Block) (inp : list Block) : list Block :=
  let tmp := (λ b, zip_with Z.lxor b (key !!! 0%nat)) <$> inp in
  let tmp := foldl (λ tmp j, (λ b, Aesni.aesenc b (key !!! j)) <$> tmp) tmp (seq 1 9) in
  (λ b, Aesni.aesenclast b (key !!! 10%nat)) <$> tmp.

(** ** [class MMO] *)
Definition N_KEYS : nat := 8.

(** The schedules of the keys [0, 1, ...], the first byte of which counts. *)
Definition zeroIV : list (list Block) :=
  (λ i, aes_128_schedule (<[0%nat := Z.of_nat i]> (replicate 16 0))) <$> seq 0 N_KEYS.

(** [encrypt_and_xor<N>] on keys. *)
Definition encrypt_and_xor (key : list Block) (inp : list Key) : list Key :=
  zip_with Z.lxor (le_val <$> ecb_aes_128_encrypt key (le_bytes 16 <$> inp)) inp.

(** [MMO::hash<N>] and [MMO::hash] *)
Definition mmo_hashes (inp : list Key) : list Key := encrypt_and_xor (zeroIV !!! 0%nat) inp.
Definition mmo_hash1 (inp : Key) : Key := mmo_hashes [inp] !!! 0%nat.

(** ** Facts about keys *)
Lemma key_lanes_bits hi lo i : 0 ≤ i →
  Z.testbit (key_lanes hi lo) i
    = if i <? 64 then Z.testbit lo i else (i <? 128) && Z.testbit hi (i - 64).
Proof.
  intros Hi. unfold key_lanes, u64. rewrite Z.lor_spec, Z.shiftl_spec by lia.
  rewrite <-!Z.land_ones, !Z.land_spec by lia.
  destruct (Z.ltb_spec i 64).
  - rewrite (Z.ones_spec_low 64 i), andb_true_r by lia.
    rewrite (Z.testbit_neg_r hi) by lia. done.
  - rewrite (Z.ones_spec_high 64 i), andb_false_r, orb_false_r by lia.
    destruct (Z.ltb_spec i 128).
    + rewrite Z.ones_spec_low by lia. apply andb_true_r.
    + rewrite Z.ones_spec_high by lia. apply andb_false_r.
Qed.

Lemma lane_lo_bits k i : 0 ≤ i → Z.testbit (lane_lo k) i = (i <? 64) && Z.testbit k i.
Proof.
  intros. unfold lane_lo, u64. rewrite <-Z.land_ones, Z.land_spec by lia.
  destruct (Z.ltb_spec i 64); [rewrite Z.ones_spec_low|rewrite Z.ones_spec_high]; try lia;
    by rewrite ?andb_true_r, ?andb_false_r.
Qed.

Lemma lane_hi_bits k i : 0 ≤ i → Z.testbit (lane_hi k) i = (i <? 64) && Z.testbit k (i + 64).
Proof.
  intros. unfold lane_hi, u64. rewrite <-Z.land_ones, Z.land_spec, Z.shiftr_spec by lia.
  destruct (Z.ltb_spec i 64); [rewrite Z.ones_spec_low|rewrite Z.ones_spec_high]; try lia;
    by rewrite ?andb_true_r, ?andb_false_r.
Qed.

(** Doubling respects XOR. *)
Lemma doubling_lxor a b i : 0 ≤ i →
  doubling (Z.lxor a b) i = Z.lxor (doubling a i) (doubling b i).
Proof.
  intros Hi. unfold doubling. apply Z.bits_inj'. intros n Hn.
  rewrite Z.lxor_spec, !key_lanes_bits by done.
  destruct (Z.ltb_spec n 64) as [Hn64|Hn64].
  - rewrite !Z.shiftl_spec by lia. destruct (Z.ltb_spec (n - i) 0).
    + by rewrite !Z.testbit_neg_r by lia.
    + rewrite !lane_lo_bits, Z.lxor_spec by lia.
      by destruct (n - i <? 64), (Z.testbit a (n - i)), (Z.testbit b (n - i)).
  - destruct (n <? 128); [cbn [andb]|done]. rewrite !Z.shiftl_spec by lia.
    destruct (Z.ltb_spec (n - 64 - i) 0).
    + by rewrite !Z.testbit_neg_r by lia.
    + rewrite !lane_hi_bits, Z.lxor_spec by lia.
      by destruct (n - 64 - i <? 64), (Z.testbit a (n - 64 - i + 64)),
                  (Z.testbit b (n - 64 - i + 64)).
Qed.

Lemma doubling_zero i : 0 ≤ i → doubling 0 i = 0.
Proof.
  intros. unfold doubling. change (lane_hi 0) with 0. change (lane_lo 0) with 0.
  by rewrite Z.shiftl_0_l.
Qed.

Lemma get_signal_odd k : get_signal k = Z.odd k.
Proof.
  unfold get_signal. change 1 with (Z.ones 1). rewrite Z.land_ones by lia. change (2 ^ 1) with 2.
  rewrite Zmod_odd. by destruct (Z.odd k).
Qed.

Lemma set_signal_odd k s : Z.odd (set_signal k s) = s.
Proof.
  unfold set_signal. rewrite <-Z.bit0_odd, Z.lxor_spec, Z.ldiff_spec. cbn.
  rewrite andb_false_r. by destruct s.
Qed.

Lemma set_signal_false k : set_signal k false = Z.lxor k (b2z (Z.odd k)).
Proof.
  unfold set_signal. rewrite Z.lxor_0_r. apply Z.bits_inj'. intros n Hn.
  rewrite Z.ldiff_spec, Z.lxor_spec. destruct (decide (n = 0)) as [->|].
  - rewrite Z.bit0_odd. by destruct (Z.odd k).
  - assert (Z.testbit 1 n = false) as ->
      by (apply (Z.bits_above_log2 1); cbn; lia).
    assert (Z.testbit (b2z (Z.odd k)) n = false) as ->
      by (destruct (Z.odd k); [apply (Z.bits_above_log2 1); cbn; lia|apply Z.bits_0]).
    by destruct (Z.testbit k n).
Qed.

Lemma set_signal_eq k s : set_signal k s = Z.lxor (set_signal k false) (b2z s).
Proof. unfold set_signal. cbn [b2z]. by rewrite Z.lxor_0_r. Qed.

(** The signal bit can be cut out of a sum. *)
Lemma set_signal_lxor a b :
  set_signal (Z.lxor a b) false = Z.lxor (set_signal a false) (set_signal b false).
Proof.
  rewrite !set_signal_false.
  assert (Z.odd (Z.lxor a b) = xorb (Z.odd a) (Z.odd b)) as ->
    by by rewrite <-!Z.bit0_odd, Z.lxor_spec.
  rewrite <-lxor_b2z. z_xor_solve.
Qed.

(** ** Facts about the cipher *)
Lemma AES_128_ASSIST_eq prev rcon : block_wf prev →
  AES_128_ASSIST prev (Aesni.aeskeygenassist prev rcon) = Portable.next_round_key prev rcon.
Proof.
  intros H. block_open prev H.
  unfold AES_128_ASSIST, Aesni.aeskeygenassist, Aesni.slli_si128, Aesni.shuffle_ff,
    Aesni.xor_rcon, Aesni.rot_word, Aesni.sub_word, Portable.next_round_key.
  cbn -[sbox Fips.sub_byte Z.lxor]. rewrite <-!sbox_sub_byte by done.
  repeat (apply (f_equal2 cons); [z_xor_solve|]). done.
Qed.

Lemma aes_128_schedule_eq key : block_wf key →
  aes_128_schedule key = Portable.FixedKeyAES key.
Proof.
  intros Hk. unfold aes_128_schedule.
  rewrite !AES_128_ASSIST_eq by (repeat apply next_round_key_wf; done || by unfold is_word).
  unfold Portable.FixedKeyAES. generalize Portable.next_round_key as f. intros f. by vm_compute.
Qed.

(** The blocks of one call do not influence each other. *)
Lemma ecb_aes_128_encrypt_map key inp :
  ecb_aes_128_encrypt key inp = Aesni.encrypt key <$> inp.
Proof.
  unfold ecb_aes_128_encrypt.
  assert (∀ (l : list nat) (tmp : list Block), foldl (λ tmp j, (λ b, Aesni.aesenc b (key !!! j)) <$> tmp) tmp l
    = (λ b, foldl (λ b j, Aesni.aesenc b (key !!! j)) b l) <$> tmp) as Hf.
  { induction l as [|j l IH]; intros tmp; cbn [foldl]; [by rewrite list_fmap_id|].
    by rewrite IH, <-list_fmap_compose. }
  by rewrite Hf, <-!list_fmap_compose.
Qed.

Lemma encrypt_and_xor_map key inp : encrypt_and_xor key inp
  = (λ k, Z.lxor (le_val (Aesni.encrypt key (le_bytes 16 k))) k) <$> inp.
Proof.
  unfold encrypt_and_xor. rewrite ecb_aes_128_encrypt_map. generalize (Aesni.encrypt key). intros e.
  induction inp as [|k inp IH]; [done|]. cbn [fmap list_fmap zip_with]. by rewrite IH.
Qed.

(** Every key of one call is hashed on its own. *)
Lemma mmo_hashes_map inp : mmo_hashes inp = mmo_hash1 <$> inp.
Proof.
  unfold mmo_hash1, mmo_hashes. rewrite encrypt_and_xor_map. apply list_fmap_ext. intros i k _.
  by rewrite encrypt_and_xor_map.
Qed.

Lemma zeroIV_0 : zeroIV !!! 0%nat = aes_128_schedule (replicate 16 0).
Proof. unfold zeroIV. generalize aes_128_schedule. intros f. reflexivity. Qed.

(** The hash is Matyas-Meyer-Oseas over the portable cipher. *)
(** The fixed-key hash of MP-SPDZ, on AES-NI with its own key schedule, is the
    Matyas-Meyer-Oseas hash with the portable AES under the zero key. *)
Theorem mmo_hash1_portable k :
  mmo_hash1 k = Z.lxor (le_val (Portable.encrypt (Portable.FixedKeyAES (replicate 16 0))
                                  (le_bytes 16 k))) k.
Proof.
  unfold mmo_hash1, mmo_hashes. rewrite encrypt_and_xor_map.
  rewrite zeroIV_0, aes_128_schedule_eq by apply zero_block_wf.
  refine (f_equal (λ c, Z.lxor (le_val c) k) (aesni_encrypt_eq _ _ _ _)).
  - apply FixedKeyAES_wf. split; [done|]. by apply Forall_replicate.
  - split; [apply le_bytes_length|apply le_bytes_u8].
Qed.

#[global] Strategy 1000 [aes_128_schedule ecb_aes_128_encrypt mmo_hashes mmo_hash1 zeroIV].
