(* ===== verification/YaoGate.v ===== *)
(** * Garbled gates of MP-SPDZ

    The two garbling schemes of [Yao/config.h]: [YaoHalfGate] (the default) and
    [YaoFullGate] ([FULL_GATES]), each with the wires it works on.  [GateScheme]
    is the interface the rest of the Yao code uses under the name [YaoGate];
    [GateLaws] is what it may rely on.  Both schemes implement it. *)

From S2P Require Import Prelude Xor Block Aes YaoKey.

(** ** Random numbers

    [class PRNG] of [Tools/random.h], as far as the garbling draws from it. *)
Class Prng (P : Type) := {
  get_doubleword : P → Z * P;
  get_bit : P → bool * P;
}.

(** ** Wires

    [YaoGarbleWire] and [YaoEvalWire] hold one key each. *)
Definition wire_key (w : Key) : Key := set_signal w false.
Definition mask (w : Key) : bool := get_signal w.
Definition external (w : Key) : bool := get_signal w.
Definition randomize {P} `{Prng P} (prng : P) : Key * P := get_doubleword prng.
(** [YaoGarbleWire::set(Key key, bool mask)] *)
Definition set_wire (key : Key) (m : bool) : Key := set_signal key m.

(** [class Function] of [BMR/common.h], built from the integer form. *)
Definition Function_of_int (int_rep : Z) : list bool :=
  (λ i, negb (Z.land (Z.shiftl int_rep (4 * (3 - i))) 1 =? 0)) <$> [0; 1; 2; 3].
Definition Function_call (rep : list bool) (left right : bool) : bool :=
  rep !!! Z.to_nat (2 * b2z left + b2z right).
Definition Function_AND : list bool := Function_of_int 0x0001.

Definition key_if (b : bool) (k : Key) : Key := if b then k else 0.

(** ** [class YaoFullGate] *)
Module YaoFullGate.

(** [entries[left][right]], row by row. *)
Definition gate : Type := list Key.

Definition N_EVAL_HASHES : nat := 1.

Definition E_input (left right : Key) (T : Z) : Key :=
  Z.lxor (Z.lxor (doubling left 1) (doubling right 2)) (Key_of_long T).

Definition E_inputs (left right left_delta right_delta : Key) (T : Z) : list Key :=
  let l := doubling (wire_key left) 1 in
  let r := doubling (wire_key right) 2 in
  (λ '(i, j), Z.lxor (Z.lxor (Z.lxor (Z.lxor l (key_if i left_delta)) r) (key_if j right_delta))
                (Key_of_long T))
    <$> [(false, false); (false, true); (true, false); (true, true)].

Definition eval_inputs (left right : Key) (T : Z) : list Key := [E_input left right T].

Definition gate_randomize {P} `{Prng P} (out : Key) (prng : P) : Key * P := randomize prng.

Definition garble_public_input (value : bool) (delta : Key) : Key := Key_of_long (b2z value).

(** The four entries of a gate whose value on external bits [l], [r] is
    [f l r]. *)
Definition entries (f : bool → bool → bool) (out : Key) (hashes : list Key) (delta : Key) : gate :=
  (λ '(l, r), let key := wire_key out in
    let key := if f l r then Z.lxor key delta else key in
    Z.lxor key (hashes !!! Z.to_nat (2 * b2z l + b2z r)))
  <$> [(false, false); (false, true); (true, false); (true, true)].

Definition and_garble (out : Key) (hashes : list Key) (left right delta : Key) : gate * Key :=
  (entries (λ l r, xorb (xorb l (mask left) && xorb r (mask right)) (mask out)) out hashes delta,
   out).

Definition garble (out : Key) (hashes : list Key) (left_mask right_mask : bool)
    (func : list bool) (delta : Key) : gate :=
  entries (λ l r, xorb (Function_call func (xorb l left_mask) (xorb r right_mask)) (mask out))
    out hashes delta.

(** The constructor [YaoFullGate(out, left, right, func)]. *)
Definition gate_op (hash : Key → Key) (out left right delta : Key) (func : list bool)
    (counter gate_id : Z) : outcome (gate * Key) :=
  let hashes :=
    (λ '(i, j), hash (E_input (Z.lxor (wire_key left) (key_if i delta))
                        (Z.lxor (wire_key right) (key_if j delta)) gate_id))
      <$> [(false, false); (false, true); (true, false); (true, true)] in
  Ok (garble out hashes (mask left) (mask right) func delta, out).

Definition get_entry (g : gate) (left right : bool) : Key :=
  g !!! Z.to_nat (2 * b2z left + b2z right).

(** [eval(out, hash, left, right)] *)
Definition gate_eval (g : gate) (hash : list Key) (left right : Key) : Key :=
  Z.lxor (get_entry g (external left) (external right)) (hash !!! 0%nat).

(** [eval(out, left, right)] *)
Definition gate_op_eval (hash : Key → Key) (g : gate) (left right : Key) (counter gate_id : Z)
    : Key :=
  let key := E_input left right gate_id in
  gate_eval g [hash key] left right.

End YaoFullGate.

(** ** [class YaoHalfGate] *)
Module YaoHalfGate.

Record HalfGate := mkHalfGate { TG : Key; TE : Key }.
Definition gate : Type := HalfGate.

Definition N_EVAL_HASHES : nat := 2.

Definition E_inputs (left right left_delta right_delta : Key) (T : Z) : list Key :=
  let l := doubling left 1 in
  let r := doubling right 1 in
  let j := Z.shiftl T 1 in
  let output0 := Z.lxor l (Key_of_long j) in
  let output1 := Z.lxor output0 left_delta in
  let output2 := Z.lxor r (Key_of_long (j + 1)) in
  let output3 := Z.lxor output2 left_delta in
  [output0; output1; output2; output3].

Definition eval_inputs (left right : Key) (T : Z) : list Key :=
  let j := Z.shiftl T 1 in
  [Z.lxor (doubling left 1) (Key_of_long j); Z.lxor (doubling right 1) (Key_of_long (j + 1))].

Definition gate_randomize {P} `{Prng P} (out : Key) (prng : P) : Key * P := (out, prng).

Definition garble_public_input (value : bool) (delta : Key) : Key :=
  if value then delta else Key_of_long 0.

Definition and_garble (out : Key) (hashes : list Key) (left right delta : Key) : gate * Key :=
  let h i := hashes !!! (i : nat) in
  let pa := mask left in
  let pb := mask right in
  let TG := Z.lxor (h 0%nat) (h 1%nat) in
  let TG := if pb then Z.lxor TG delta else TG in
  let WG := h 0%nat in
  let WG := if pa then Z.lxor WG TG else WG in
  let TE := Z.lxor (Z.lxor (h 2%nat) (h 3%nat)) left in
  let WE := h 2%nat in
  let WE := if pb then Z.lxor WE (Z.lxor TE left) else WE in
  (mkHalfGate TG TE, Z.lxor WG WE).

(** The constructor; an assertion on the function comes first. *)
Definition gate_op (hash : Key → Key) (out left right delta : Key) (func : list bool)
    (counter gate_id : Z) : outcome (gate * Key) :=
  if negb (bool_decide (func = Function_AND)) then Throw "assertion failed"
  else
    let labels := E_inputs left right (doubling delta 1) 0 counter in
    let hashes := hash <$> labels in
    Ok (and_garble out hashes left right delta).

(** [eval(out, hashes, left, right)] *)
Definition gate_eval (g : gate) (hashes : list Key) (left right : Key) : Key :=
  let sa := external left in
  let sb := external right in
  let WG := hashes !!! 0%nat in
  let WG := if sa then Z.lxor WG (TG g) else WG in
  let WE := hashes !!! 1%nat in
  let WE := if sb then Z.lxor WE (Z.lxor (TE g) left) else WE in
  Z.lxor WG WE.

(** [eval(out, left, right)] *)
Definition gate_op_eval (hash : Key → Key) (g : gate) (left right : Key) (counter gate_id : Z)
    : Key :=
  let labels := eval_inputs left right counter in
  let hashes := hash <$> labels in
  gate_eval g hashes left right.

End YaoHalfGate.

(** ** The interface [YaoGate] *)
Class GateScheme := {
  gate : Type;
  E_inputs : Key → Key → Key → Key → Z → list Key;
  eval_inputs : Key → Key → Z → list Key;
  gate_randomize : ∀ P, Prng P → Key → P → Key * P;
  garble_public_input : bool → Key → Key;
  and_garble : Key → list Key → Key → Key → Key → gate * Key;
  gate_op : (Key → Key) → Key → Key → Key → Key → list bool → Z → Z → outcome (gate * Key);
  gate_eval : gate → list Key → Key → Key → Key;
  gate_op_eval : (Key → Key) → gate → Key → Key → Z → Z → Key;
  (** [wire_rel delta g b e]: the evaluator's wire [e] stands for [b] on the
      garbler's wire [g]. *)
  wire_rel : Key → Key → bool → Key → Prop;
}.
Arguments gate_randomize {_} {P} {_} out prng.

Class GateLaws `{GateScheme} := {
  rel_xor delta g1 g2 b1 b2 e1 e2 : wire_rel delta g1 b1 e1 → wire_rel delta g2 b2 e2 →
    wire_rel delta (Z.lxor g1 g2) (xorb b1 b2) (Z.lxor e1 e2);
  rel_public delta b : wire_rel delta (garble_public_input b delta) b 0;
  (** The decoding of an output wire. *)
  rel_output delta g b e : Z.odd delta = true → wire_rel delta g b e →
    xorb (external e) (mask g) = b;
  (** A wire whose label was sent by correlated OT. *)
  rel_input delta k b : Z.odd delta = true →
    wire_rel delta (set_wire k false) b (Z.lxor (set_wire k false) (key_if b delta));
  rel_and h delta T out gl gr bl br el er : Z.odd delta = true →
    wire_rel delta gl bl el → wire_rel delta gr br er →
    let r := and_garble out (h <$> E_inputs gl gr (doubling delta 1) (doubling delta 2) T)
               gl gr delta in
    wire_rel delta r.2 (bl && br) (gate_eval r.1 (h <$> eval_inputs el er T) el er);
  rel_op h delta counter id out gl gr bl br el er : Z.odd delta = true →
    wire_rel delta gl bl el → wire_rel delta gr br er →
    ∃ g out', gate_op h out gl gr delta Function_AND counter id = Ok (g, out') ∧
      wire_rel delta out' (bl && br) (gate_op_eval h g el er counter id);
}.

(** ** The schemes implement it *)
Lemma key_if_doubling b k i : 0 ≤ i → doubling (key_if b k) i = key_if b (doubling k i).
Proof. intros. destruct b; cbn [key_if]; [done|]. by apply doubling_zero. Qed.

Lemma lxor_key_if a b k : Z.lxor a (key_if b k) = if b then Z.lxor a k else a.
Proof. destruct b; cbn [key_if]; [done|apply Z.lxor_0_r]. Qed.

Lemma odd_lxor a b : Z.odd (Z.lxor a b) = xorb (Z.odd a) (Z.odd b).
Proof. by rewrite <-!Z.bit0_odd, Z.lxor_spec. Qed.

Lemma odd_key_if b k : Z.odd k = true → Z.odd (key_if b k) = b.
Proof. by destruct b. Qed.

Lemma wire_key_even w : Z.odd (wire_key w) = false.
Proof. apply set_signal_odd. Qed.

Lemma label_key_if (g delta : Key) b : label g delta b = Z.lxor g (key_if b delta).
Proof. unfold label. by rewrite lxor_key_if. Qed.

Module HalfLaws.

#[export] Instance scheme : GateScheme := {|
  gate := YaoHalfGate.gate;
  E_inputs := YaoHalfGate.E_inputs;
  eval_inputs := YaoHalfGate.eval_inputs;
  gate_randomize := λ P _, YaoHalfGate.gate_randomize;
  garble_public_input := YaoHalfGate.garble_public_input;
  and_garble := YaoHalfGate.and_garble;
  gate_op := YaoHalfGate.gate_op;
  gate_eval := YaoHalfGate.gate_eval;
  gate_op_eval := YaoHalfGate.gate_op_eval;
  wire_rel := λ delta g b e, e = Z.lxor g (key_if b delta);
|}.

(** The gate of MP-SPDZ is the half gate of [Xor]. *)
Lemma and_garble_half out h0 h1 h2 h3 left right delta :
  let g := half_garble delta left right h0 h1 h2 h3 in
  YaoHalfGate.and_garble out [h0; h1; h2; h3] left right delta = (YaoHalfGate.mkHalfGate g.1.1 g.1.2, g.2).
Proof. unfold YaoHalfGate.and_garble, mask. by rewrite !get_signal_odd. Qed.

Lemma gate_eval_half tg te h0 h1 left right :
  YaoHalfGate.gate_eval (YaoHalfGate.mkHalfGate tg te) [h0; h1] left right
    = half_eval tg te left right h0 h1.
Proof. unfold YaoHalfGate.gate_eval, external. by rewrite !get_signal_odd. Qed.

Lemma half_correct h delta rd T out gl gr bl br : Z.odd delta = true →
  let r := YaoHalfGate.and_garble out
             (h <$> YaoHalfGate.E_inputs gl gr (doubling delta 1) rd T) gl gr delta in
  let el := Z.lxor gl (key_if bl delta) in
  let er := Z.lxor gr (key_if br delta) in
  YaoHalfGate.gate_eval r.1 (h <$> YaoHalfGate.eval_inputs el er T) el er
    = Z.lxor r.2 (key_if (bl && br) delta).
Proof.
  intros Hd. unfold YaoHalfGate.E_inputs, YaoHalfGate.eval_inputs. cbn [fmap list_fmap].
  set (j := Key_of_long (Z.shiftl T 1)). set (j' := Key_of_long (Z.shiftl T 1 + 1)).
  pose proof (half_and delta gl gr (λ x, h (Z.lxor (doubling x 1) j))
    (λ x, h (Z.lxor (doubling x 1) j')) bl br I I I Hd (λ _ _, I) (λ _ _, I)) as E.
  cbv zeta beta in E. rewrite !label_key_if in E. cbn [xor Z_xor_ops] in E.
  rewrite (doubling_lxor gl delta), (doubling_lxor gr delta) in E by lia.
  replace (Z.lxor (Z.lxor (doubling gl 1) (doubling delta 1)) j)
    with (Z.lxor (Z.lxor (doubling gl 1) j) (doubling delta 1)) in E by z_xor_solve.
  replace (Z.lxor (Z.lxor (doubling gr 1) (doubling delta 1)) j')
    with (Z.lxor (Z.lxor (doubling gr 1) j') (doubling delta 1)) in E by z_xor_solve.
  rewrite and_garble_half. cbn [fst snd]. rewrite gate_eval_half. exact E.
Qed.

#[export] Instance laws : GateLaws.
Proof.
  constructor; cbn [wire_rel scheme and_garble gate_eval gate_op gate_op_eval garble_public_input
    E_inputs eval_inputs].
  - intros delta g1 g2 b1 b2 e1 e2 -> ->. rewrite !lxor_key_if.
    destruct b1, b2; cbn [xorb]; z_xor_solve.
  - intros delta b. unfold YaoHalfGate.garble_public_input. change (Key_of_long 0) with 0.
    destruct b; cbn [key_if]; [by rewrite Z.lxor_nilpotent|done].
  - intros delta g b e Hd ->. unfold external, mask. rewrite !get_signal_odd, odd_lxor.
    rewrite odd_key_if by done. by destruct (Z.odd g), b.
  - done.
  - intros h delta T out gl gr bl br el er Hd -> ->. by apply half_correct.
  - intros h delta counter id out gl gr bl br el er Hd -> ->.
    unfold YaoHalfGate.gate_op. rewrite bool_decide_eq_true_2 by done. cbn [negb].
    eexists _, _. split; [by rewrite (surjective_pairing (YaoHalfGate.and_garble _ _ _ _ _))|].
    by apply half_correct.
Qed.
End HalfLaws.

Module FullLaws.

#[export] Instance scheme : GateScheme := {|
  gate := YaoFullGate.gate;
  E_inputs := YaoFullGate.E_inputs;
  eval_inputs := YaoFullGate.eval_inputs;
  gate_randomize := λ P _, YaoFullGate.gate_randomize;
  garble_public_input := YaoFullGate.garble_public_input;
  and_garble := YaoFullGate.and_garble;
  gate_op := YaoFullGate.gate_op;
  gate_eval := YaoFullGate.gate_eval;
  gate_op_eval := YaoFullGate.gate_op_eval;
  wire_rel := λ delta g b e, e = Z.lxor (wire_key g) (key_if (xorb (mask g) b) delta);
|}.

(** The evaluator's external bit is the value under the wire's mask. *)
Lemma external_rel delta g b : Z.odd delta = true →
  external (Z.lxor (wire_key g) (key_if (xorb (mask g) b) delta)) = xorb (mask g) b.
Proof.
  intros Hd. unfold external. rewrite get_signal_odd, odd_lxor, wire_key_even.
  by rewrite odd_key_if by done.
Qed.

(** A table indexed by two bits. *)
Lemma lookup_bits (F : bool * bool → Key) l r :
  (F <$> [(false, false); (false, true); (true, false); (true, true)])
    !!! Z.to_nat (2 * b2z l + b2z r) = F (l, r).
Proof. by destruct l, r. Qed.

(** The entry of a gate at the evaluator's bits, without its hash. *)
Lemma get_entry_entries f out hashes delta l r :
  Z.lxor (YaoFullGate.get_entry (YaoFullGate.entries f out hashes delta) l r)
         (hashes !!! Z.to_nat (2 * b2z l + b2z r))
    = Z.lxor (wire_key out) (key_if (f l r) delta).
Proof.
  unfold YaoFullGate.get_entry, YaoFullGate.entries. rewrite lookup_bits, lxor_key_if.
  set (h := _ !!! _). destruct (f l r); z_xor_solve.
Qed.

(** The hash the evaluator computes is the one the garbler used for the entry. *)
Lemma E_inputs_lookup (h : Key → Key) gl gr delta T i j :
  (h <$> YaoFullGate.E_inputs gl gr (doubling delta 1) (doubling delta 2) T)
      !!! Z.to_nat (2 * b2z i + b2z j)
    = h (YaoFullGate.E_input (Z.lxor (wire_key gl) (key_if i delta))
           (Z.lxor (wire_key gr) (key_if j delta)) T).
Proof.
  unfold YaoFullGate.E_inputs, YaoFullGate.E_input. rewrite <-list_fmap_compose.
  rewrite (lookup_bits (h ∘ _)). unfold compose. f_equal.
  rewrite !doubling_lxor, !key_if_doubling by lia. z_xor_solve.
Qed.

Lemma entries_correct f g h out hashes delta el er :
  g = YaoFullGate.entries f out hashes delta →
  h = hashes !!! Z.to_nat (2 * b2z (external el) + b2z (external er)) →
  YaoFullGate.gate_eval g [h] el er
    = Z.lxor (wire_key out) (key_if (f (external el) (external er)) delta).
Proof. intros -> ->. unfold YaoFullGate.gate_eval. apply get_entry_entries. Qed.

#[export] Instance laws : GateLaws.
Proof.
  constructor; cbn [wire_rel scheme and_garble gate_eval gate_op gate_op_eval garble_public_input
    E_inputs eval_inputs].
  - intros delta g1 g2 b1 b2 e1 e2 -> ->. unfold wire_key, mask.
    rewrite set_signal_lxor, !get_signal_odd, odd_lxor, !lxor_key_if.
    destruct b1, b2, (Z.odd g1), (Z.odd g2); cbn [xorb]; z_xor_solve.
  - intros delta b. by destruct b.
  - intros delta g b e Hd ->. rewrite external_rel by done. by destruct (mask g), b.
  - intros delta k b _. unfold wire_key, set_wire, mask.
    rewrite get_signal_odd, set_signal_odd, xorb_false_l. f_equal.
    rewrite (set_signal_false (set_signal k false)), set_signal_odd. symmetry. apply Z.lxor_0_r.
  - intros h delta T out gl gr bl br el er Hd -> ->. cbn [fst snd].
    unfold YaoFullGate.eval_inputs, YaoFullGate.and_garble. cbn [fmap list_fmap fst snd].
    erewrite entries_correct; [|reflexivity|].
    + rewrite !external_rel by done. f_equal. f_equal.
      by destruct (mask gl), (mask gr), bl, br, (mask out).
    + rewrite E_inputs_lookup, !external_rel by done. done.
  - intros h delta counter id out gl gr bl br el er Hd -> ->.
    eexists _, _. split; [done|]. unfold YaoFullGate.gate_op_eval, YaoFullGate.garble. cbv zeta.
    erewrite entries_correct; [|reflexivity|].
    + rewrite !external_rel by done. f_equal. f_equal.
      by destruct (mask gl), (mask gr), bl, br, (mask out).
    + rewrite lookup_bits, !external_rel by done. done.
Qed.
End FullLaws.
