(* ===== verification/GcVm.v ===== *)
(** * The binary virtual machine

    [GC/Processor], [GC/Secret] and [GC/Memory] of MP-SPDZ: registers of wires
    and clear registers, and the instructions on them ([GC/instructions.h]).  The
    code is a template over the type of wires; here the operations on wires are
    a type class, and the garbler, the evaluator and the plaintext machine are
    its instances. *)

From S2P Require Import Prelude.

(** [Secret::default_length], [Clear::N_BITS] *)
Definition default_length : Z := 64.
Definition N_BITS : Z := 64.

(** What the virtual machine does with one wire [W], in a party with state [P]. *)
Class WireOps (W P : Type) := {
  (** [T()] *)
  w_new : W;
  w_XOR : W → W → W;
  w_public_input : P → bool → W;
  (** [op(left, right, 0x0001)], in two steps: what is written to the result
      before the operands are read, and the operation itself. *)
  w_op_init : P → W → W * P;
  w_op : P → W → W → W → outcome (W * P);
  w_get_output : P → W → outcome (bool * P);
}.

(** ** Memory *)

(** [Memory<Secret<T>>] *)
Abbreviation Secrets W := (list (list W)).

(** [Memory<Clear>], each register the bits of a [long] *)
Abbreviation Clears := (list Z).

Section memory.
Context {W P : Type} `{WireOps W P}.

(** [S[r].registers.at(i)] *)
Definition get_reg (S : Secrets W) (r i : Z) : outcome W :=
  regs ← vget S r;
  if i <? 0 then Throw "vector::_M_range_check"
  else match regs !! Z.to_nat i with
       | Some w => Ok w
       | None => Throw "vector::_M_range_check"
       end.

(** [S[r].registers[i] = w] *)
Definition set_reg (S : Secrets W) (r i : Z) (w : W) : outcome (Secrets W) :=
  regs ← vget S r;
  regs ← vset regs i w;
  vset S r regs.

Definition resize (n : Z) (regs : list W) : list W :=
  take (Z.to_nat n) regs ++ replicate (Z.to_nat n - length regs) w_new.

Definition resize_regs (S : Secrets W) (r n : Z) : outcome (Secrets W) :=
  regs ← vget S r;
  if Z.of_nat (length regs) =? n then Ok S
  else if n <? 0 then Throw "vector::_M_default_append"
  else vset S r (resize n regs).

(** ** [class Secret] *)
Definition xor_ (S : Secrets W) (d n x y : Z) : outcome (Secrets W) :=
  S ← resize_regs S d n;
  foldM (λ S i, a ← get_reg S x i; b ← get_reg S y i; set_reg S d i (w_XOR a b)) S (seqZ 0 n).

Definition invert (party : P) (S : Secrets W) (d n x : Z) : outcome (Secrets W) :=
  S ← resize_regs S d n;
  let one := w_public_input party true in
  foldM (λ S i, a ← get_reg S x i; set_reg S d i (w_XOR a one)) S (seqZ 0 n).

(** [registers[di].op(left, right, 0x0001)] on references to registers. *)
Definition AND (st : Secrets W * P) (d di x xi y yi : Z) : outcome (Secrets W * P) :=
  _ ← get_reg st.1 x xi;
  _ ← get_reg st.1 y yi;
  old ← get_reg st.1 d di;
  let '(w, party) := w_op_init st.2 old in
  S ← set_reg st.1 d di w;
  left ← get_reg S x xi;
  right ← get_reg S y yi;
  '(w, party) ← w_op party w left right;
  S ← set_reg S d di w;
  Ok (S, party).

Definition secret_and (st : Secrets W * P) (d n x y : Z) (repeat : bool) : outcome (Secrets W * P) :=
  if default_length <? n then Throw "assertion failed"
  else
    S ← resize_regs st.1 d n;
    foldM (λ st i, AND st d i x i y (if repeat then 0 else i)) (S, st.2) (seqZ 0 n).

(** [load_clear(n, x)] *)
Definition load_clear (party : P) (S : Secrets W) (d n x : Z) : outcome (Secrets W) :=
  if (u32 n <? 64) && (Z.shiftl 1 n <? Z.abs x) then Throw "public value too long"
  else
    S ← resize_regs S d n;
    foldM (λ S i, if 64 <=? i then UB
                  else set_reg S d i (w_public_input party (Z.testbit x i))) S (seqZ 0 n).

(** [bitcom] and [bitdec] *)
Definition bitcom (S : Secrets W) (d : Z) (regs : list Z) : outcome (Secrets W) :=
  S ← vset S d [];
  foldM (λ S r,
      src ← vget S r;
      match src with
      | [w] => dst ← vget S d; vset S d (dst ++ [w])
      | _ => Throw "can only compose bits"
      end) S regs.

Definition bitdec (S : Secrets W) (s : Z) (regs : list Z) : outcome (Secrets W) :=
  src ← vget S s;
  if (length src <? length regs)%nat then Throw "not enough bits for bit decomposition"
  else
    foldM (λ S '(i, r),
        S ← vset S r [];
        w ← get_reg S s (Z.of_nat i);
        vset S r [w]) S (zip (seq 0 (length regs)) regs).

(** [trans] *)
Definition trans (party : P) (S : Secrets W) (n_outputs : Z) (args : list Z) : outcome (Secrets W) :=
  let n_inputs := Z.of_nat (length args) - n_outputs in
  foldM (λ S i,
      d ← vget args i;
      S ← foldM (λ S j, resize_regs S (d + j) (Z.min default_length (n_inputs - j * default_length)))
            S (seqZ 0 (DIV_CEIL n_inputs default_length));
      foldM (λ S j,
          s ← vget args (n_outputs + j);
          source ← vget S (s + Z.quot i default_length);
          w ← (if Z.rem i default_length <? Z.of_nat (length source)
               then vget source (Z.rem i default_length)
               else Ok (w_public_input party false));
          set_reg S (d + Z.quot j default_length) (Z.rem j default_length) w)
        S (seqZ 0 n_inputs))
    S (seqZ 0 n_outputs).

(** ** [class Processor] *)

(** [check_args]: the number of arguments and the sum of the sizes. *)
Definition check_args (args : list Z) (n : Z) : outcome Z :=
  if negb (Z.of_nat (length args) mod n =? 0) then Throw "invalid number of arguments"
  else
    foldM (λ total i, x ← vget args (n * i); Ok (total + x)) 0
      (seqZ 0 (Z.of_nat (length args) / n)).

(** The iterations of a loop that advances by four arguments. *)
Fixpoint quads (args : list Z) : list (Z * Z * Z * Z) :=
  match args with
  | n :: d :: x :: y :: args => (n, d, x, y) :: quads args
  | _ => []
  end.

Definition slice (start stop : Z) (args : list Z) : list Z :=
  take (Z.to_nat (stop - start)) (drop (Z.to_nat start) args).

(** [xors(args, start, end)] *)
Definition xors_one (S : Secrets W) (q : Z * Z * Z * Z) : outcome (Secrets W) :=
  let '(n, d, x, y) := q in
  if n =? 1 then xor_ S d 1 x y
  else
    foldM (λ S j,
        let left := Z.min default_length (n - j * default_length) in
        xor_ S (d + j) left (x + j) (y + j))
      S (seqZ 0 (DIV_CEIL n default_length)).

Definition xors (S : Secrets W) (args : list Z) (start stop : Z) : outcome (Secrets W) :=
  if negb (start mod 4 =? 0) || negb (stop mod 4 =? 0) || (stop <=? start)
     || (Z.of_nat (length args) <? stop)
  then Throw "assertion failed"
  else foldM xors_one S (quads (slice start stop args)).

(** [and_(args, repeat)] *)
Definition and_one (repeat : bool) (st : Secrets W * P) (q : Z * Z * Z * Z) : outcome (Secrets W * P) :=
  let '(n, d, x, y) := q in
  foldM (λ st j,
      let n := Z.min default_length (n - j * default_length) in
      secret_and st (d + j) n (x + j) (y + (if repeat then 0 else j)) repeat)
    st (seqZ 0 (DIV_CEIL n default_length)).

Definition and_ (st : Secrets W * P) (args : list Z) (repeat : bool) : outcome (Secrets W * P) :=
  _ ← check_args args 4;
  foldM (and_one repeat) st (quads args).

Definition nots (party : P) (S : Secrets W) (r0 r1 total : Z) : outcome (Secrets W) :=
  foldM (λ S i,
      let n := Z.min default_length (total - i * default_length) in
      invert party S (r0 + i) n (r1 + i))
    S (seqZ 0 (DIV_CEIL total default_length)).

(** [andrsvec]: one group of arguments is [total, size], the destinations, the
    repeated operand and the sources. *)
Definition vec_at {A} (l : list A) (i : Z) : outcome A :=
  match vget l i with Ok x => Ok x | _ => Throw "vector::_M_range_check" end.

(** [tmp.and_(1, x, y, false)] on new objects of one wire *)
Definition and_bit (party : P) (x y : W) : outcome (W * P) :=
  let '(tmp, party) := w_op_init party w_new in
  w_op party tmp x y.

Definition andrsvec_bit (dests srcs : list Z) (base : Z) (st : Secrets W * P) (i : Z)
    : outcome (Secrets W * P) :=
  let u := Z.quot i default_length in
  let k := Z.rem i default_length in
  _ ← vec_at st.1 (base + u);
  y ← get_reg st.1 (base + u) k;
  foldM (λ st '(d, s),
      _ ← vec_at st.1 (s + u);
      x ← get_reg st.1 (s + u) k;
      '(tmp, party) ← and_bit st.2 x y;
      _ ← vec_at st.1 (d + u);
      _ ← get_reg st.1 (d + u) k;
      S ← set_reg st.1 (d + u) k tmp;
      Ok (S, party)) st (zip dests srcs).

Definition andrsvec_group (dests srcs : list Z) (base size : Z) (st : Secrets W * P)
    : outcome (Secrets W * P) :=
  if default_length <? Z.of_nat (length dests) then Throw "assertion failed"
  else
    foldM (λ st i,
        S ← (if Z.rem i default_length =? 0
             then foldM (λ S d, _ ← vec_at S (d + Z.quot i default_length);
                          resize_regs S (d + Z.quot i default_length)
                            (Z.min default_length (size - i))) st.1 dests
             else Ok st.1);
        andrsvec_bit dests srcs base (S, st.2) i)
      st (seqZ 0 size).

Fixpoint andrsvec_loop (fuel : nat) (st : Secrets W * P) (args : list Z) : outcome (Secrets W * P) :=
  match fuel, args with
  | _, [] => Ok st
  | Datatypes.S fuel, total :: size :: args =>
      let n_args := Z.quot (total - 3) 2 in
      let k := Z.to_nat n_args in
      if (n_args <? 0) || (length args <? 2 * k + 1)%nat then UB
      else
        base ← vget args n_args;
        st ← andrsvec_group (take k args) (take k (drop (k + 1) args)) base size st;
        andrsvec_loop fuel st (drop (2 * k + 1) args)
  | _, _ => UB
  end.

Definition andrsvec (st : Secrets W * P) (args : list Z) : outcome (Secrets W * P) :=
  andrsvec_loop (length args) st args.

(** ** Clear registers *)

Definition clear_mask (x n : Z) : Z := if n <? N_BITS then Z.land x (Z.shiftl 1 n - 1) else x.

Definition xorc (C : Clears) (r0 r1 r2 total : Z) : outcome Clears :=
  foldM (λ C i,
      let n := Z.min default_length (total - i * default_length) in
      a ← vget C (r1 + i);
      b ← vget C (r2 + i);
      vset C (r0 + i) (Z.lxor (clear_mask a n) (clear_mask b n)))
    C (seqZ 0 (DIV_CEIL total default_length)).

Definition notcb (C : Clears) (r0 r1 total : Z) : outcome Clears :=
  foldM (λ C i,
      let n := Z.min N_BITS (total - i * N_BITS) in
      a ← vget C (r1 + i);
      vset C (r0 + i) (clear_mask (u64 (Z.lnot a)) n))
    C (seqZ 0 (DIV_CEIL total N_BITS)).

(** [x] is a reference to a register, which the loop may overwrite. *)
Definition bitdecc (C : Clears) (regs : list Z) (r0 : Z) : outcome Clears :=
  foldM (λ C '(i, r),
      x ← vget C r0;
      vset C r (if (i <? 64)%nat then Z.land (Z.shiftr x (Z.of_nat i)) 1 else 0)) C
    (zip (seq 0 (length regs)) regs).

(** [YaoWire::andm] *)
Definition andm (party : P) (S : Secrets W) (C : Clears) (r0 r1 r2 total : Z) : outcome (Secrets W) :=
  foldM (λ S i,
      let n := Z.min N_BITS (total - i * N_BITS) in
      S ← resize_regs S (r0 + i) n;
      foldM (λ S j,
          c ← vget C (r2 + i);
          w ← (if Z.testbit c j then get_reg S (r1 + i) j else Ok (w_public_input party false));
          set_reg S (r0 + i) j w)
        S (seqZ 0 n))
    S (seqZ 0 (DIV_CEIL total N_BITS)).

(** [YaoGarbleWire::convcbit2s] *)
Definition convcbit2s (party : P) (S : Secrets W) (C : Clears) (r0 r1 total : Z) : outcome (Secrets W) :=
  foldM (λ S i,
      let n := Z.min N_BITS (total - i * N_BITS) in
      S ← resize_regs S (r0 + i) n;
      foldM (λ S j,
          c ← vget C (r1 + i);
          set_reg S (r0 + i) j (w_public_input party (Z.testbit c j)))
        S (seqZ 0 n))
    S (seqZ 0 (DIV_CEIL total N_BITS)).

(** [Secret::reveal(n_bits, x)] *)
Definition secret_reveal (party : P) (S : Secrets W) (r n_bits : Z) : outcome (Z * P) :=
  regs ← vget S r;
  if Z.of_nat (length regs) <? n_bits then Throw "not enough wires for revealing"
  else
    foldM (λ '(x, party) i,
        w ← get_reg S r i;
        '(out, party) ← w_get_output party w;
        Ok (Z.lxor x (Z.shiftl (b2z out) i), party))
      (0, party) (seqZ 0 (Z.min 64 (Z.of_nat (length regs)))).

(** The iterations of a loop that advances by three arguments. *)
Fixpoint triples (args : list Z) : list (Z * Z * Z) :=
  match args with
  | n :: r0 :: r1 :: args => (n, r0, r1) :: triples args
  | _ => []
  end.

(** [Processor::reveal] *)
Definition reveal_one (S : Secrets W) (st : Clears * P) (t : Z * Z * Z) : outcome (Clears * P) :=
  let '(n, r0, r1) := t in
  foldM (λ '(C, party) i,
      '(x, party) ← secret_reveal party S (r1 + i) (Z.min N_BITS (n - i * N_BITS));
      C ← vset C (r0 + i) x;
      Ok (C, party))
    st (seqZ 0 (DIV_CEIL n default_length)).

Definition reveal (S : Secrets W) (C : Clears) (party : P) (args : list Z) : outcome (Clears * P) :=
  if negb (Z.of_nat (length args) mod 3 =? 0) then UB
  else foldM (reveal_one S) (C, party) (triples args).
End memory.
