(* ===== verification/YaoWire.v ===== *)
(** * The two parties of the Yao protocol

    [YaoGarbleWire], [YaoEvalWire], [YaoGarbler], [YaoEvaluator] and [YaoCommon]
    of MP-SPDZ: the operations of each party on its wires, the batched AND gates
    with their single- and multi-threaded forms, and the numbering of gates.  The
    jobs of the multi-threaded form run at the same time ([run_workers] of Workers): a
    unit is one gate instruction of four arguments, with the registers it accesses as
    its footprint.  The garbling scheme is any [GateScheme]. *)

From S2P Require Import Prelude Xor Block Aes Workers YaoKey YaoGate GcVm.

(** ** [class YaoCommon] *)

(** [counter + (thread_num << (64 - log_n_threads))], before the reduction to a
    [long]; a shift by 64 is the shift by 0 of x86. *)
Definition gate_id (log_n_threads counter thread_num : Z) : Z :=
  counter + Z.shiftl thread_num ((64 - log_n_threads) mod 64).

Definition set_n_program_threads (n_threads : Z) : Z := Z.log2 n_threads.

(** [get_n_worker_threads] *)
Definition get_n_worker_threads (hardware_concurrency nthreads : Z) : Z :=
  Z.max 1 (hardware_concurrency / nthreads).

(** [get_splits]: for each job its number of gates and the end of its
    arguments. *)
Definition max_gates_per_thread (threshold total workers : Z) : Z :=
  Z.max (Z.quot threshold 2) (Z.quot (total + workers - 1) workers).

Fixpoint splits_loop (max_gates i_gate pos : Z) (qs : list (Z * Z * Z * Z)) : list (Z * Z) :=
  match qs with
  | [] => []
  | (n, _, _, _) :: qs =>
      let i_gate := i_gate + n in
      let stop := pos + 4 in
      if (max_gates <=? i_gate) || match qs with [] => true | _ => false end
      then (i_gate, stop) :: splits_loop max_gates 0 stop qs
      else splits_loop max_gates i_gate stop qs
  end.

Definition get_splits (args : list Z) (threshold total workers : Z) : list (Z * Z) :=
  splits_loop (max_gates_per_thread threshold total workers) 0 0 (quads args).

(** ** Units of the jobs *)

(** The registers of one instruction of four arguments, 64 wires in each. *)
Definition gate_footprint (q : Z * Z * Z * Z) : Footprint :=
  let '(n, d, x, y) := q in
  let n_units := DIV_CEIL n default_length in
  mkFp (d, n_units) [(x, n_units); (y, n_units)].

(** [YaoWire::xors]: from 1024 instructions on, equal shares for the workers and the rest
    for the calling thread, which runs at the same time. *)
Section xors.
Context {W P : Type} `{WireOps W P} {sched : Scheduler}.

Definition xor_job (q : Z * Z * Z * Z) (mem : Secrets W) (job : unit) : outcome (Secrets W * unit) :=
  S ← xors_one mem q; Ok (S, job).

(** The call [xors(args, start, end)] as a task of its own. *)
Definition xors_task (args : list Z) (start stop : Z) : outcome (Task unit (Z * Z * Z * Z)) :=
  if negb (start mod 4 =? 0) || negb (stop mod 4 =? 0) || (stop <=? start)
     || (Z.of_nat (length args) <? stop)
  then Throw "assertion failed"
  else Ok (mkTask tt (quads (slice start stop args))).

Definition xors_dispatch (args : list Z) (batch : Z) (st : list (Task unit (Z * Z * Z * Z)) * Z) (i : Z)
    : outcome (list (Task unit (Z * Z * Z * Z)) * Z) :=
  let '(jobs, start) := st in
  let stop := start + batch * 4 in
  job ← xors_task args start stop;
  Ok (jobs ++ [job], stop).

Definition yao_xors (workers : Z) (S : Secrets W) (args : list Z) : outcome (Secrets W) :=
  let len := Z.of_nat (length args) in
  if Z.quot len 4 <? 1024 then xors S args 0 len
  else
    let batch := Z.quot (Z.quot len 4) (workers + 1) in
    '(jobs, start) ← foldM (xors_dispatch args batch) ([], 0) (seqZ 0 workers);
    job ← xors_task args start len;
    '(mem, _) ← run_workers gate_footprint xor_job S (jobs ++ [job]);
    Ok mem.
End xors.

(** ** State of the parties *)
Section parties.
Context {P : Type} `{Prng P} `{GateScheme}.

Record Garbler := mkGarbler {
  g_delta : Key;
  g_prng : P;
  g_job_prngs : list P;
  g_counter : Z;
  g_gates : list gate;
  g_output_masks : list bool;
  g_thread_num : Z;
  g_log_n_threads : Z;
  g_threshold : Z;
}.

Record Evaluator := mkEvaluator {
  e_counter : Z;
  e_gates : list gate;
  e_output_masks : list bool;
  e_thread_num : Z;
  e_log_n_threads : Z;
  e_workers : Z;
}.

Definition g_workers (g : Garbler) : Z := Z.of_nat (length (g_job_prngs g)).

Definition g_gate_id (g : Garbler) : Z := gate_id (g_log_n_threads g) (g_counter g) (g_thread_num g).
Definition e_gate_id (e : Evaluator) : Z :=
  gate_id (e_log_n_threads e) (e_counter e) (e_thread_num e).

Definition g_set_prng (g : Garbler) (prng : P) : Garbler :=
  mkGarbler (g_delta g) prng (g_job_prngs g) (g_counter g) (g_gates g) (g_output_masks g)
    (g_thread_num g) (g_log_n_threads g) (g_threshold g).
Definition g_set_job_prngs (g : Garbler) (prngs : list P) : Garbler :=
  mkGarbler (g_delta g) (g_prng g) prngs (g_counter g) (g_gates g) (g_output_masks g)
    (g_thread_num g) (g_log_n_threads g) (g_threshold g).
Definition g_set_counter (g : Garbler) (counter : Z) : Garbler :=
  mkGarbler (g_delta g) (g_prng g) (g_job_prngs g) counter (g_gates g) (g_output_masks g)
    (g_thread_num g) (g_log_n_threads g) (g_threshold g).
Definition g_push_gates (g : Garbler) (gs : list gate) : Garbler :=
  mkGarbler (g_delta g) (g_prng g) (g_job_prngs g) (g_counter g) (g_gates g ++ gs)
    (g_output_masks g) (g_thread_num g) (g_log_n_threads g) (g_threshold g).
Definition g_push_mask (g : Garbler) (m : bool) : Garbler :=
  mkGarbler (g_delta g) (g_prng g) (g_job_prngs g) (g_counter g) (g_gates g)
    (g_output_masks g ++ [m]) (g_thread_num g) (g_log_n_threads g) (g_threshold g).
Definition e_set_counter (e : Evaluator) (counter : Z) : Evaluator :=
  mkEvaluator counter (e_gates e) (e_output_masks e) (e_thread_num e) (e_log_n_threads e)
    (e_workers e).
Definition e_set_gates (e : Evaluator) (gs : list gate) : Evaluator :=
  mkEvaluator (e_counter e) gs (e_output_masks e) (e_thread_num e) (e_log_n_threads e)
    (e_workers e).
Definition e_set_masks (e : Evaluator) (ms : list bool) : Evaluator :=
  mkEvaluator (e_counter e) (e_gates e) ms (e_thread_num e) (e_log_n_threads e) (e_workers e).

(** [store_gate], [load_gate] and [gates.consume] on whole gates *)
Definition store_gate (g : Garbler) (x : gate) : Garbler := g_push_gates g [x].
Definition load_gate (e : Evaluator) : outcome (gate * Evaluator) :=
  match e_gates e with
  | [] => Throw "not enough data in buffer"
  | x :: gs => Ok (x, e_set_gates e gs)
  end.
Definition consume (e : Evaluator) (n : Z) : outcome (list gate * Evaluator) :=
  if Z.of_nat (length (e_gates e)) <? n then Throw "not enough data in buffer"
  else Ok (take (Z.to_nat n) (e_gates e), e_set_gates e (drop (Z.to_nat n) (e_gates e))).

(** ** The garbler's wires *)
Definition garble_op (g : Garbler) (out left right : Key) : outcome (Key * Garbler) :=
  let g := g_set_counter g (g_counter g + 1) in
  '(x, out) ← gate_op mmo_hash1 out left right (g_delta g) Function_AND (g_counter g) (g_gate_id g);
  Ok (out, store_gate g x).

#[export] Instance garble_wire : WireOps Key Garbler := {|
  w_new := 0;
  w_XOR := Z.lxor;
  w_public_input g b := garble_public_input b (g_delta g);
  w_op_init g _ := let '(k, prng) := randomize (g_prng g) in (k, g_set_prng g prng);
  w_op := garble_op;
  w_get_output g w := Ok (false, g_push_mask g (mask w));
|}.

(** [YaoGarbleWire::random] *)
Definition garble_random (g : Garbler) : Key * Garbler :=
  let '(b, prng) := get_bit (g_prng g) in
  (if b : bool then g_delta g else 0, g_set_prng g prng).

(** The state of one run of [YaoGarbleWire::and_]: memory, generator, counter and
    the gates written. *)
Record GarbleLoop := mkGL { gl_S : Secrets Key; gl_prng : P; gl_counter : Z; gl_gates : list gate }.

(** One gate of the loop, on the wires [(x, xi)] and [(y, yi)]; [rnd] is the
    randomization of the result. *)
Definition garble_and_gate (delta : Key) (rnd : Key → P → Key * P) (st : GarbleLoop)
    (d di x xi y yi : Z) (resize : Secrets Key → outcome (Secrets Key)) : outcome GarbleLoop :=
  left ← get_reg (gl_S st) x xi;
  right ← get_reg (gl_S st) y yi;
  let counter := gl_counter st + 1 in
  let labels := E_inputs left right (doubling delta 1) (doubling delta 2) counter in
  let hashes := mmo_hashes labels in
  S ← resize (gl_S st);
  old ← get_reg S d di;
  let '(w, prng) := rnd old (gl_prng st) in
  S ← set_reg S d di w;
  left ← get_reg S x xi;
  right ← get_reg S y yi;
  let '(gate, out) := and_garble w hashes left right delta in
  S ← set_reg S d di out;
  Ok (mkGL S prng counter (gl_gates st ++ [gate])).

Definition garble_and_one (delta : Key) (repeat : bool) (st : GarbleLoop) (q : Z * Z * Z * Z)
    : outcome GarbleLoop :=
  let '(n, d, x, y) := q in
  if n =? 1 then
    garble_and_gate delta (λ w prng, gate_randomize w prng) st d 0 x 0 y 0 (λ S, resize_regs S d 1)
  else
    foldM (λ st j,
        let left := Z.min default_length (n - j * default_length) in
        S ← resize_regs (gl_S st) (d + j) left;
        foldM (λ st k,
            garble_and_gate delta (λ _ prng, randomize prng) st (d + j) k (x + j) k (y + j)
              (if repeat then 0 else k) (λ S, Ok S))
          (mkGL S (gl_prng st) (gl_counter st) (gl_gates st)) (seqZ 0 left))
      st (seqZ 0 (DIV_CEIL n default_length)).

(** [YaoGarbleWire::and_(S, args, start, end, ...)] *)
Definition garble_and (delta : Key) (repeat : bool) (st : GarbleLoop) (args : list Z)
    (start stop : Z) : outcome GarbleLoop :=
  foldM (garble_and_one delta repeat) st (quads (slice start stop args)).

Definition garble_and_singlethread (st : Secrets Key * Garbler) (args : list Z) (repeat : bool)
    : outcome (Secrets Key * Garbler) :=
  total ← check_args args 4;
  if total <? 10 then and_ st args repeat
  else
    let g := st.2 in
    l ← garble_and (g_delta g) repeat (mkGL st.1 (g_prng g) (g_gate_id g) []) args 0
          (Z.of_nat (length args));
    let g := g_set_prng (g_push_gates g (gl_gates l)) (gl_prng l) in
    Ok (gl_S l, g_set_counter g (g_counter g + (gl_counter l - g_gate_id g))).

(** What a job of the garbler has of its own: the generator, the counter, its part of
    the gates. *)
#[local] Abbreviation GarbleJob := (P * Z * list gate)%type.

Definition garble_job (delta : Key) (repeat : bool) (q : Z * Z * Z * Z) (mem : Secrets Key) (job : GarbleJob)
    : outcome (Secrets Key * GarbleJob) :=
  let '(prng, counter, gates) := job in
  l ← garble_and_one delta repeat (mkGL mem prng counter gates) q;
  Ok (gl_S l, (gl_prng l, gl_counter l, gl_gates l)).

(** The dispatch of one job, with the generator of its worker. *)
Definition garble_dispatch (args : list Z)
    (st : Garbler * list (Task GarbleJob (Z * Z * Z * Z)) * Z * Z) (split : Z * Z)
    : outcome (Garbler * list (Task GarbleJob (Z * Z * Z * Z)) * Z * Z) :=
  let '(g, jobs, start, i_thread) := st in
  let '(i_gate, stop) := split in
  prng ← vget (g_job_prngs g) i_thread;
  let job := mkTask (prng, g_gate_id g, []) (quads (slice start stop args)) in
  Ok (g_set_counter g (g_counter g + i_gate), jobs ++ [job], stop, i_thread + 1).

(** After [wait]: the parts of the gates in the order of the dispatch, the generators
    of the workers. *)
Definition garble_collect (g : Garbler) (jobs : list GarbleJob) : Garbler :=
  g_set_job_prngs (g_push_gates g (mjoin jobs.*2)) (jobs.*1.*1 ++ drop (length jobs) (g_job_prngs g)).

(** [and_multithread] *)
Definition garble_and_multithread {sched : Scheduler} (repeat : bool) (st : Secrets Key * Garbler) (args : list Z)
    : outcome (Secrets Key * Garbler) :=
  total ← check_args args 4;
  if total <? g_threshold st.2 then garble_and_singlethread st args repeat
  else
    '(g, jobs, _, _) ← foldM (garble_dispatch args) (st.2, [], 0, 0)
                         (get_splits args (g_threshold st.2) total (g_workers st.2));
    '(mem, jobs) ← run_workers gate_footprint (garble_job (g_delta st.2) repeat) st.1 jobs;
    Ok (mem, garble_collect g jobs).

(** ** The evaluator's wires *)
Definition eval_op (e : Evaluator) (out left right : Key) : outcome (Key * Evaluator) :=
  '(x, e) ← load_gate e;
  let e := e_set_counter e (e_counter e + 1) in
  Ok (gate_op_eval mmo_hash1 x left right (e_counter e) (e_gate_id e), e).

Definition eval_get_output (e : Evaluator) (w : Key) : outcome (bool * Evaluator) :=
  match e_output_masks e with
  | [] => Throw "not enough data in buffer"
  | m :: ms => Ok (xorb (external w) m, e_set_masks e ms)
  end.

#[export] Instance eval_wire : WireOps Key Evaluator := {|
  w_new := 0;
  w_XOR := Z.lxor;
  w_public_input _ _ := 0;
  w_op_init e old := (old, e);
  w_op := eval_op;
  w_get_output := eval_get_output;
|}.

Record EvalLoop := mkEL { el_S : Secrets Key; el_gate_id : Z; el_gates : list gate }.

Definition eval_and_gate (st : EvalLoop) (d di x xi y yi : Z)
    (resize : Secrets Key → outcome (Secrets Key)) : outcome EvalLoop :=
  left ← get_reg (el_S st) x xi;
  right ← get_reg (el_S st) y yi;
  let id := el_gate_id st + 1 in
  let label := eval_inputs left right id in
  let hash := mmo_hashes label in
  S ← resize (el_S st);
  match el_gates st with
  | [] => UB
  | gate :: gates =>
      _ ← get_reg S d di;
      left ← get_reg S x xi;
      right ← get_reg S y yi;
      S ← set_reg S d di (gate_eval gate hash left right);
      Ok (mkEL S id gates)
  end.

Definition eval_and_one (repeat : bool) (st : EvalLoop) (q : Z * Z * Z * Z) : outcome EvalLoop :=
  let '(n, d, x, y) := q in
  if n =? 1 then eval_and_gate st d 0 x 0 y 0 (λ S, resize_regs S d 1)
  else
    foldM (λ st j,
        let n := Z.min default_length (n - j * default_length) in
        S ← resize_regs (el_S st) (d + j) n;
        foldM (λ st k,
            eval_and_gate st (d + j) k (x + j) k (y + (if repeat then 0 else j))
              (if repeat then 0 else k) (λ S, Ok S))
          (mkEL S (el_gate_id st) (el_gates st)) (seqZ 0 n))
      st (seqZ 0 (DIV_CEIL n default_length)).

(** [YaoEvalWire::and_(S, args, start, end, ...)] *)
Definition eval_and (repeat : bool) (st : EvalLoop) (args : list Z) (start stop : Z)
    : outcome EvalLoop :=
  foldM (eval_and_one repeat) st (quads (slice start stop args)).

Definition eval_and_singlethread (repeat : bool) (st : Secrets Key * Evaluator) (args : list Z)
    (total_ands : Z) : outcome (Secrets Key * Evaluator) :=
  if total_ands <? 10 then and_ st args repeat
  else
    '(gate, e) ← consume st.2 total_ands;
    l ← eval_and repeat (mkEL st.1 (e_gate_id e) gate) args 0 (Z.of_nat (length args));
    Ok (el_S l, e_set_counter e (e_counter e + (el_gate_id l - e_gate_id e))).

(** As [gate_footprint]; a repeated operand is the first wire of its first register. *)
Definition eval_footprint (repeat : bool) (q : Z * Z * Z * Z) : Footprint :=
  let '(n, d, x, y) := q in
  let n_units := DIV_CEIL n default_length in
  mkFp (d, n_units) [(x, n_units); (y, if repeat then Z.min 1 n_units else n_units)].

(** A job of the evaluator: the number of its next gate and its gates. *)
Definition eval_job (repeat : bool) (q : Z * Z * Z * Z) (mem : Secrets Key) (job : Z * list gate)
    : outcome (Secrets Key * (Z * list gate)) :=
  l ← eval_and_one repeat (mkEL mem job.1 job.2) q;
  Ok (el_S l, (el_gate_id l, el_gates l)).

Definition eval_dispatch (args : list Z)
    (st : Evaluator * list (Task (Z * list gate) (Z * Z * Z * Z)) * Z * Z) (split : Z * Z)
    : outcome (Evaluator * list (Task (Z * list gate) (Z * Z * Z * Z)) * Z * Z) :=
  let '(e, jobs, start, i_thread) := st in
  let '(i_gate, stop) := split in
  '(gate, e) ← consume e i_gate;
  if e_workers e <=? i_thread then UB
  else
    let job := mkTask (e_gate_id e, gate) (quads (slice start stop args)) in
    Ok (e_set_counter e (e_counter e + i_gate), jobs ++ [job], stop, i_thread + 1).

Definition eval_threshold : Z := 1024.

(** [YaoEvalWire::and_<repeat>(processor, args)] *)
Definition eval_and_multithread {sched : Scheduler} (repeat : bool) (st : Secrets Key * Evaluator) (args : list Z)
    : outcome (Secrets Key * Evaluator) :=
  total ← check_args args 4;
  if total <? eval_threshold then eval_and_singlethread repeat st args total
  else
    '(e, jobs, _, _) ← foldM (eval_dispatch args) (st.2, [], 0, 0)
                         (get_splits args eval_threshold total (e_workers st.2));
    '(mem, _) ← run_workers (eval_footprint repeat) (eval_job repeat) st.1 jobs;
    Ok (mem, e).

(** [YaoEvalWire::convcbit2s]: every register is the zero key. *)
Definition eval_convcbit2s (S : Secrets Key) (r0 total : Z) : outcome (Secrets Key) :=
  foldM (λ S i,
      S ← resize_regs S (r0 + i) (Z.min N_BITS (total - i * N_BITS));
      regs ← vget S (r0 + i);
      vset S (r0 + i) (replicate (length regs) 0))
    S (seqZ 0 (DIV_CEIL total N_BITS)).
End parties.
Arguments Garbler P {_}.
Arguments Evaluator {_}.
Arguments mkGarbler {P _}.
Arguments mkEvaluator {_}.
Arguments GarbleLoop P {_}.
Arguments mkGL {P _}.

(** ** The plaintext machine

    What the instructions mean: wires are bits. *)
#[export] Instance plain_wire : WireOps bool unit := {|
  w_new := false;
  w_XOR := xorb;
  w_public_input _ b := b;
  w_op_init _ old := (old, tt);
  w_op _ _ left right := Ok (left && right, tt);
  w_get_output _ w := Ok (w, tt);
|}.
