(* ===== verification/YaoLocal.v ===== *)
(** * The registers that the jobs access

    A unit of a job accesses its footprint only, so units without a conflict commute
    and the schedule of the workers is of no consequence (Workers). *)

From S2P Require Import Prelude Xor Block Aes Workers YaoKey YaoGate GcVm YaoWire.

Lemma within_range b n j : j ∈ seqZ 0 n → within (b, n) (b + j) = true.
Proof. intros [H1 H2]%elem_of_seqZ. unfold within. cbn. lia. Qed.

Lemma accesses_writes f r : within (fp_writes f) r = true → accesses f r = true.
Proof. intros Hr. unfold accesses. by rewrite Hr. Qed.

Lemma accesses_reads w i l r : within i r = true → i ∈ l → accesses (mkFp w l) r = true.
Proof.
  intros Hr Hi. unfold accesses. apply orb_true_iff. right. apply existsb_exists. exists i.
  split; [by apply list_elem_of_In|done].
Qed.

Lemma div_ceil_1 : DIV_CEIL 1 default_length = 1.
Proof. done. Qed.

(** ** One register *)
Section registers.
Context {W P : Type} `{WireOps W P}.
Context (fp : Footprint) (A1 A2 : Secrets W).
#[local] Abbreviation framed := (framed fp A1 A2).

Lemma framed_get_reg T1 T2 r i : framed T1 T2 → accesses fp r = true → get_reg T1 r i = get_reg T2 r i.
Proof. intros HF Hr. unfold get_reg. by rewrite (framed_vget _ _ _ _ _ _ HF Hr). Qed.

Lemma framed_set_reg T1 T2 r i w : framed T1 T2 → within (fp_writes fp) r = true →
  out2 framed (set_reg T1 r i w) (set_reg T2 r i w).
Proof.
  intros HF Hr. unfold set_reg. rewrite (framed_vget _ _ _ _ _ _ HF) by by apply accesses_writes.
  apply out2_same. intros regs. apply out2_same. intros regs'. by apply framed_vset.
Qed.

Lemma framed_resize_regs T1 T2 r n : framed T1 T2 → within (fp_writes fp) r = true →
  out2 framed (resize_regs T1 r n) (resize_regs T2 r n).
Proof.
  intros HF Hr. unfold resize_regs. rewrite (framed_vget _ _ _ _ _ _ HF) by by apply accesses_writes.
  apply out2_same. intros regs. destruct (_ =? n); [done|]. destruct (n <? 0); [done|]. by apply framed_vset.
Qed.

Lemma framed_xor_ T1 T2 d n x y : framed T1 T2 → within (fp_writes fp) d = true →
  accesses fp x = true → accesses fp y = true → out2 framed (xor_ T1 d n x y) (xor_ T2 d n x y).
Proof.
  intros HF Hd Hx Hy. unfold xor_. eapply out2_bind; [by apply framed_resize_regs|].
  intros U1 U2 HU. apply out2_foldM; [|done]. intros i V1 V2 _ HV.
  rewrite (framed_get_reg V1 V2 x i), (framed_get_reg V1 V2 y i) by done.
  apply out2_same. intros a. apply out2_same. intros b. by apply framed_set_reg.
Qed.
End registers.

Lemma out2_local {A L} (R : list A → list A → L → L → Prop) (m1 m2 : outcome (list A * L)) fp A1 A2 :
  out2 (λ r1 r2, R r1.1 r2.1 r1.2 r2.2) m1 m2 →
  (∀ T1 T2 l1 l2, R T1 T2 l1 l2 → l1 = l2 ∧ framed fp A1 A2 T1 T2) →
  out2 (λ r1 r2, r1.2 = r2.2 ∧ framed fp A1 A2 r1.1 r2.1) m1 m2.
Proof. intros HR Hf. destruct m1 as [[]| |], m2 as [[]| |]; try done. by apply Hf. Qed.

(** ** The units *)
Lemma gate_accesses n d x y j b : j ∈ seqZ 0 (DIV_CEIL n default_length) → b ∈ [d; x; y] →
  accesses (gate_footprint (n, d, x, y)) (b + j) = true.
Proof.
  intros Hj. revert b. apply Forall_forall. repeat constructor.
  - by apply accesses_writes, within_range.
  - eapply accesses_reads; [by apply within_range|left].
  - eapply accesses_reads; [by apply within_range|right; left].
Qed.

Lemma xor_job_local {W P} `{WireOps W P} q : local (gate_footprint q) (xor_job (W:=W) q).
Proof.
  destruct q as [[[n d] x] y]. intros A1 A2 l Hs. apply framed_refl in Hs. unfold xor_job, xors_one.
  set (fp := gate_footprint _) in *.
  pose proof (gate_accesses n d x y) as Hacc. fold fp in Hacc.
  eapply out2_bind; [|intros T1 T2 HT; split; [done|exact HT]]. destruct (Z.eqb_spec n 1) as [->|_].
  - rewrite div_ceil_1 in Hacc. rewrite <-(Z.add_0_r d), <-(Z.add_0_r x), <-(Z.add_0_r y).
    apply framed_xor_; [done|by apply within_range, elem_of_seqZ|apply Hacc; [by apply elem_of_seqZ|set_solver]..].
  - apply out2_foldM; [|done]. intros j T1 T2 Hj HT. cbv zeta.
    apply framed_xor_; [done|by apply within_range|apply Hacc; [done|set_solver]..].
Qed.

Section garble.
Context {P : Type} `{Prng P} `{GateScheme}.
Context (fp : Footprint) (A1 A2 : Secrets Key).

(** Two runs of the garbler's loop on the same registers. *)
Definition loops (l1 l2 : GarbleLoop P) : Prop :=
  framed fp A1 A2 (gl_S l1) (gl_S l2) ∧ gl_prng l1 = gl_prng l2 ∧ gl_counter l1 = gl_counter l2 ∧
  gl_gates l1 = gl_gates l2.

Lemma loops_gate delta rnd l1 l2 d di x xi y yi resize : loops l1 l2 →
  within (fp_writes fp) d = true → accesses fp x = true → accesses fp y = true →
  (∀ T1 T2, framed fp A1 A2 T1 T2 → out2 (framed fp A1 A2) (resize T1) (resize T2)) →
  out2 loops (garble_and_gate delta rnd l1 d di x xi y yi resize) (garble_and_gate delta rnd l2 d di x xi y yi resize).
Proof.
  destruct l1 as [S1 prng counter gates], l2 as [S2 ???]. intros (HF & [= <-] & [= <-] & [= <-]) Hd Hx Hy Hr.
  unfold garble_and_gate. cbn [gl_S gl_prng gl_counter gl_gates] in *.
  rewrite (framed_get_reg fp A1 A2 S1 S2 x xi HF Hx), (framed_get_reg fp A1 A2 S1 S2 y yi HF Hy).
  apply out2_same. intros left. apply out2_same. intros right. cbv zeta.
  eapply out2_bind; [by apply Hr|]. intros T1 T2 HT. cbn beta.
  rewrite (framed_get_reg fp A1 A2 T1 T2 d di HT (accesses_writes _ _ Hd)). apply out2_same. intros old.
  destruct (rnd old prng) as [w prng']. eapply out2_bind; [by apply framed_set_reg|]. intros U1 U2 HU. cbn beta.
  rewrite (framed_get_reg fp A1 A2 U1 U2 x xi HU Hx), (framed_get_reg fp A1 A2 U1 U2 y yi HU Hy).
  apply out2_same. intros left'. apply out2_same. intros right'. destruct (and_garble _ _ _ _ _) as [gate out].
  eapply out2_bind; [by apply framed_set_reg|]. intros V1 V2 HV. done.
Qed.

Lemma loops_resize l1 l2 d n f : loops l1 l2 → within (fp_writes fp) d = true →
  (∀ T1 T2, framed fp A1 A2 T1 T2 →
     out2 loops (f (mkGL T1 (gl_prng l1) (gl_counter l1) (gl_gates l1)))
                (f (mkGL T2 (gl_prng l2) (gl_counter l2) (gl_gates l2)))) →
  out2 loops (S ← resize_regs (gl_S l1) d n; f (mkGL S (gl_prng l1) (gl_counter l1) (gl_gates l1)))
             (S ← resize_regs (gl_S l2) d n; f (mkGL S (gl_prng l2) (gl_counter l2) (gl_gates l2))).
Proof. intros [HF _] Hd Hf. eapply out2_bind; [by apply framed_resize_regs|]. exact Hf. Qed.
End garble.

Lemma garble_job_local {P} `{Prng P} `{GateScheme} delta repeat q :
  local (gate_footprint q) (garble_job (P:=P) delta repeat q).
Proof.
  destruct q as [[[n d] x] y]. intros A1 A2 [[prng counter] gates] Hs%framed_refl. unfold garble_job.
  set (fp := gate_footprint _) in *.
  pose proof (gate_accesses n d x y) as Hacc. fold fp in Hacc.
  eapply (out2_bind (loops fp A1 A2)).
  2: { intros [] [] (HF & [= <-] & [= <-] & [= <-]). split; [done|exact HF]. }
  assert (loops fp A1 A2 (mkGL A1 prng counter gates) (mkGL A2 prng counter gates)) as HL by done.
  revert HL. generalize (mkGL A1 prng counter gates), (mkGL A2 prng counter gates). intros l1 l2 HL.
  unfold garble_and_one. destruct (Z.eqb_spec n 1) as [->|_].
  - specialize (Hacc 0). rewrite div_ceil_1 in Hacc. setoid_rewrite Z.add_0_r in Hacc.
    assert (within (fp_writes fp) d = true) as Hd
      by (rewrite <-(Z.add_0_r d); by apply within_range, elem_of_seqZ).
    apply loops_gate; [done|done|apply Hacc; [by apply elem_of_seqZ|set_solver]..|].
    intros T1 T2 HT. by apply framed_resize_regs.
  - apply out2_foldM; [|done]. intros j m1 m2 Hj HM. cbv zeta.
    assert (within (fp_writes fp) (d + j) = true) as Hd by by apply within_range.
    apply (loops_resize fp A1 A2 m1 m2 (d + j) _ (λ st, foldM _ st _)); [done|done|]. intros T1 T2 HT.
    destruct HM as (_ & E1 & E2 & E3). apply out2_foldM; [|done]. intros k k1 k2 _ HK.
    apply loops_gate; [done|done|apply Hacc; [done|set_solver]..|]. by intros U1 U2.
Qed.

Section eval.
Context `{GateScheme}.
Context (fp : Footprint) (A1 A2 : Secrets Key).

Definition eval_loops (l1 l2 : EvalLoop) : Prop :=
  framed fp A1 A2 (el_S l1) (el_S l2) ∧ el_gate_id l1 = el_gate_id l2 ∧ el_gates l1 = el_gates l2.

Lemma eval_loops_gate l1 l2 d di x xi y yi resize : eval_loops l1 l2 →
  within (fp_writes fp) d = true → accesses fp x = true → accesses fp y = true →
  (∀ T1 T2, framed fp A1 A2 T1 T2 → out2 (framed fp A1 A2) (resize T1) (resize T2)) →
  out2 eval_loops (eval_and_gate l1 d di x xi y yi resize) (eval_and_gate l2 d di x xi y yi resize).
Proof.
  destruct l1 as [S1 id gates], l2 as [S2 ??]. intros (HF & [= <-] & [= <-]) Hd Hx Hy Hr.
  unfold eval_and_gate. cbn [el_S el_gate_id el_gates] in *.
  rewrite (framed_get_reg fp A1 A2 S1 S2 x xi HF Hx), (framed_get_reg fp A1 A2 S1 S2 y yi HF Hy).
  apply out2_same. intros left. apply out2_same. intros right. cbv zeta.
  eapply out2_bind; [by apply Hr|]. intros T1 T2 HT. cbn beta. destruct gates as [|gate gates]; [done|].
  rewrite (framed_get_reg fp A1 A2 T1 T2 d di HT (accesses_writes _ _ Hd)). apply out2_same. intros old.
  rewrite (framed_get_reg fp A1 A2 T1 T2 x xi HT Hx), (framed_get_reg fp A1 A2 T1 T2 y yi HT Hy).
  apply out2_same. intros left'. apply out2_same. intros right'.
  eapply out2_bind; [by apply framed_set_reg|]. intros V1 V2 HV. done.
Qed.

Lemma eval_loops_resize l1 l2 d n f : eval_loops l1 l2 → within (fp_writes fp) d = true →
  (∀ T1 T2, framed fp A1 A2 T1 T2 →
     out2 eval_loops (f (mkEL T1 (el_gate_id l1) (el_gates l1))) (f (mkEL T2 (el_gate_id l2) (el_gates l2)))) →
  out2 eval_loops (S ← resize_regs (el_S l1) d n; f (mkEL S (el_gate_id l1) (el_gates l1)))
                  (S ← resize_regs (el_S l2) d n; f (mkEL S (el_gate_id l2) (el_gates l2))).
Proof. intros [HF _] Hd Hf. eapply out2_bind; [by apply framed_resize_regs|]. exact Hf. Qed.
End eval.

Lemma eval_accesses repeat n d x y j : j ∈ seqZ 0 (DIV_CEIL n default_length) →
  let fp := eval_footprint repeat (n, d, x, y) in
  within (fp_writes fp) (d + j) = true ∧ accesses fp (x + j) = true ∧
  accesses fp (y + (if repeat then 0 else j)) = true.
Proof.
  intros Hj fp. split_and!; [by apply within_range|eapply accesses_reads; [by apply within_range|left]|].
  eapply accesses_reads; [|right; left]. apply within_range. destruct repeat; [|done].
  apply elem_of_seqZ in Hj. apply elem_of_seqZ. lia.
Qed.

Lemma eval_job_local `{GateScheme} repeat q : local (eval_footprint repeat q) (eval_job repeat q).
Proof.
  destruct q as [[[n d] x] y]. intros A1 A2 [id gates] Hs%framed_refl. unfold eval_job. cbn [fst snd].
  set (fp := eval_footprint _ _) in *.
  pose proof (eval_accesses repeat n d x y) as Hacc. cbv zeta in Hacc. fold fp in Hacc.
  eapply (out2_bind (eval_loops fp A1 A2)).
  2: { intros [] [] (HF & [= <-] & [= <-]). split; [done|exact HF]. }
  assert (eval_loops fp A1 A2 (mkEL A1 id gates) (mkEL A2 id gates)) as HL by done.
  revert HL. generalize (mkEL A1 id gates), (mkEL A2 id gates). intros l1 l2 HL.
  unfold eval_and_one. destruct (Z.eqb_spec n 1) as [->|_].
  - destruct (Hacc 0) as (Hd & Hx & Hy); [by apply elem_of_seqZ|]. rewrite Z.add_0_r in Hd, Hx.
    replace (y + _) with y in Hy by (destruct repeat; lia).
    apply eval_loops_gate; [done..|]. intros T1 T2 HT. by apply framed_resize_regs.
  - apply out2_foldM; [|done]. intros j m1 m2 Hj HM. cbv zeta. destruct (Hacc j Hj) as (Hd & Hx & Hy).
    apply (eval_loops_resize fp A1 A2 m1 m2 (d + j) _ (λ st, foldM _ st _)); [done|done|]. intros T1 T2 HT.
    destruct HM as (_ & E1 & E2). apply out2_foldM; [|done]. intros k k1 k2 _ HK.
    apply eval_loops_gate; [done..|]. by intros U1 U2.
Qed.
