(* ===== verification/YaoSim.v ===== *)
(** * The parties compute what the program says

    Every instruction of the virtual machine, executed by the garbler, by the
    evaluator and on plaintext bits, keeps the three memories related: the
    evaluator's key of each wire stands for the plaintext bit on the garbler's
    wire. *)

From S2P Require Import Prelude Xor Block Aes YaoKey YaoGate GcVm YaoWire.

(** ** Computations that succeed or fail together *)
Section out3.
Context {A B C : Type}.

Definition out3 (R : A → B → C → Prop) (m1 : outcome A) (m2 : outcome B) (m3 : outcome C) : Prop :=
  match m1, m2, m3 with
  | Ok a, Ok b, Ok c => R a b c
  | Throw e1, Throw e2, Throw e3 => e1 = e2 ∧ e2 = e3
  | UB, UB, UB => True
  | _, _, _ => False
  end.

Lemma out3_Ok (R : A → B → C → Prop) m1 m2 m3 b :
  out3 R m1 m2 m3 → m2 = Ok b → ∃ a c, m1 = Ok a ∧ m3 = Ok c ∧ R a b c.
Proof. intros HR ->. destruct m1, m3; try done. eauto. Qed.
End out3.

Lemma out3_bind {A B C A' B' C'} (R : A → B → C → Prop) (R' : A' → B' → C' → Prop)
    m1 m2 m3 (f1 : A → outcome A') (f2 : B → outcome B') (f3 : C → outcome C') :
  out3 R m1 m2 m3 → (∀ a b c, R a b c → out3 R' (f1 a) (f2 b) (f3 c)) →
  out3 R' (m1 ≫= f1) (m2 ≫= f2) (m3 ≫= f3).
Proof. intros HR Hf. destruct m1, m2, m3; try done. by apply Hf. Qed.

Lemma out3_foldM {A B C I} (R : A → B → C → Prop) (f1 : A → I → outcome A)
    (f2 : B → I → outcome B) (f3 : C → I → outcome C) l a b c :
  (∀ i a b c, i ∈ l → R a b c → out3 R (f1 a i) (f2 b i) (f3 c i)) → R a b c →
  out3 R (foldM f1 a l) (foldM f2 b l) (foldM f3 c l).
Proof.
  revert a b c. induction l as [|i l IH]; intros a b c Hf HR; [done|]. cbn [foldM].
  eapply out3_bind; [apply Hf; [set_solver|done]|].
  intros a' b' c' HR'. apply IH; [|done]. intros j a1 b1 c1 Hj. apply Hf. set_solver.
Qed.

Lemma Forall3_lookup {A B C} (Q : A → B → C → Prop) l1 l2 l3 i :
  Forall3 Q l1 l2 l3 →
  match l1 !! i, l2 !! i, l3 !! i with
  | Some a, Some b, Some c => Q a b c
  | None, None, None => True
  | _, _, _ => False
  end.
Proof. intros HF. revert i. induction HF; intros [|i]; cbn; try done. apply IHHF. Qed.

Lemma Forall3_lengths {A B C} (Q : A → B → C → Prop) l1 l2 l3 : Forall3 Q l1 l2 l3 →
  length l1 = length l2 ∧ length l3 = length l2.
Proof. induction 1; cbn; [done|]. destruct IHForall3. auto. Qed.

Lemma Forall3_insert {A B C} (Q : A → B → C → Prop) l1 l2 l3 i a b c :
  Forall3 Q l1 l2 l3 → Q a b c → Forall3 Q (<[i:=a]> l1) (<[i:=b]> l2) (<[i:=c]> l3).
Proof.
  intros HF HQ. revert i. induction HF; intros [|i]; cbn; constructor; auto.
Qed.

Lemma Forall3_take' {A B C} (Q : A → B → C → Prop) n l1 l2 l3 :
  Forall3 Q l1 l2 l3 → Forall3 Q (take n l1) (take n l2) (take n l3).
Proof. intros HF. revert n. induction HF; intros [|n]; cbn; constructor; auto. Qed.

Lemma Forall3_replicate {A B C} (Q : A → B → C → Prop) n a b c :
  Q a b c → Forall3 Q (replicate n a) (replicate n b) (replicate n c).
Proof. intros. induction n; cbn; by constructor. Qed.

Lemma vget_rel3 {A B C} (Q : A → B → C → Prop) l1 l2 l3 i :
  Forall3 Q l1 l2 l3 → out3 Q (vget l1 i) (vget l2 i) (vget l3 i).
Proof.
  intros HF. unfold vget. destruct (i <? 0); [done|].
  pose proof (Forall3_lookup Q l1 l2 l3 (Z.to_nat i) HF).
  by destruct (l1 !! _), (l2 !! _), (l3 !! _).
Qed.

Lemma vset_rel3 {A B C} (Q : A → B → C → Prop) l1 l2 l3 i a b c :
  Forall3 Q l1 l2 l3 → Q a b c → out3 (Forall3 Q) (vset l1 i a) (vset l2 i b) (vset l3 i c).
Proof.
  intros HF HQ. unfold vset. destruct (Forall3_lengths Q l1 l2 l3 HF) as [-> ->].
  destruct (i <? 0); [done|]. destruct (_ <=? i); [done|]. by apply Forall3_insert.
Qed.

(** ** Related memories *)
Section mem.
Context {W1 W2 W3 P1 P2 P3 : Type} `{WireOps W1 P1} `{WireOps W2 P2} `{WireOps W3 P3}.
Context (R : W1 → W2 → W3 → Prop).
Context (R_new : R (@w_new W1 P1 _) (@w_new W2 P2 _) (@w_new W3 P3 _)).
Context (R_xor : ∀ a1 a2 a3 b1 b2 b3, R a1 a2 a3 → R b1 b2 b3 →
  R (@w_XOR W1 P1 _ a1 b1) (@w_XOR W2 P2 _ a2 b2) (@w_XOR W3 P3 _ a3 b3)).

Definition mem3 : Secrets W1 → Secrets W2 → Secrets W3 → Prop := Forall3 (Forall3 R).

Lemma get_reg_rel3 S1 S2 S3 r i : mem3 S1 S2 S3 →
  out3 R (get_reg S1 r i) (get_reg S2 r i) (get_reg S3 r i).
Proof.
  intros HS. unfold get_reg. eapply out3_bind; [by apply vget_rel3|].
  intros l1 l2 l3 Hl. cbn beta. destruct (i <? 0); [done|].
  pose proof (Forall3_lookup R l1 l2 l3 (Z.to_nat i) Hl).
  by destruct (l1 !! _), (l2 !! _), (l3 !! _).
Qed.

Lemma set_reg_rel3 S1 S2 S3 r i w1 w2 w3 : mem3 S1 S2 S3 → R w1 w2 w3 →
  out3 mem3 (set_reg S1 r i w1) (set_reg S2 r i w2) (set_reg S3 r i w3).
Proof.
  intros HS Hw. unfold set_reg. eapply out3_bind; [by apply vget_rel3|].
  intros l1 l2 l3 Hl. cbn beta. eapply out3_bind; [by apply vset_rel3|].
  intros l1' l2' l3' Hl'. by apply vset_rel3.
Qed.

Lemma resize_regs_rel3 S1 S2 S3 r n : mem3 S1 S2 S3 →
  out3 mem3 (@resize_regs W1 P1 _ S1 r n) (@resize_regs W2 P2 _ S2 r n)
    (@resize_regs W3 P3 _ S3 r n).
Proof.
  intros HS. unfold resize_regs. eapply out3_bind; [by apply vget_rel3|].
  intros l1 l2 l3 Hl. cbn beta. destruct (Forall3_lengths _ _ _ _ Hl) as [E1 E3].
  rewrite E1, E3. destruct (_ =? n); [done|]. destruct (n <? 0); [done|].
  apply vset_rel3; [done|]. unfold resize. rewrite E1, E3. apply Forall3_app.
  - by apply Forall3_take'.
  - by apply Forall3_replicate.
Qed.

Lemma xor__rel3 S1 S2 S3 d n x y : mem3 S1 S2 S3 →
  out3 mem3 (@xor_ W1 P1 _ S1 d n x y) (@xor_ W2 P2 _ S2 d n x y) (@xor_ W3 P3 _ S3 d n x y).
Proof.
  intros HS. unfold xor_. eapply out3_bind; [by apply resize_regs_rel3|].
  intros T1 T2 T3 HT. apply out3_foldM; [|done]. intros i U1 U2 U3 _ HU.
  eapply out3_bind; [by apply get_reg_rel3|]. intros a1 a2 a3 Ha.
  eapply out3_bind; [by apply get_reg_rel3|]. intros b1 b2 b3 Hb.
  apply set_reg_rel3; auto.
Qed.

Lemma xors_rel3 S1 S2 S3 args start stop : mem3 S1 S2 S3 →
  out3 mem3 (@xors W1 P1 _ S1 args start stop) (@xors W2 P2 _ S2 args start stop)
    (@xors W3 P3 _ S3 args start stop).
Proof.
  intros HS. unfold xors. destruct (_ || _); [done|].
  apply out3_foldM; [|done]. intros [[[n d] x] y] U1 U2 U3 _ HU. unfold xors_one.
  destruct (n =? 1); [by apply xor__rel3|].
  apply out3_foldM; [|done]. intros j V1 V2 V3 _ HV. by apply xor__rel3.
Qed.

Lemma bitcom_rel3 S1 S2 S3 d regs : mem3 S1 S2 S3 →
  out3 mem3 (bitcom S1 d regs) (bitcom S2 d regs) (bitcom S3 d regs).
Proof.
  intros HS. unfold bitcom. eapply out3_bind; [apply (vset_rel3 (Forall3 R)); [done|constructor]|].
  intros T1 T2 T3 HT. apply out3_foldM; [|done]. intros r U1 U2 U3 _ HU.
  eapply out3_bind; [by apply vget_rel3|]. intros l1 l2 l3 Hl.
  destruct Hl as [|a1 a2 a3 l1 l2 l3 Ha Hl]; [done|]. destruct Hl; [|done].
  eapply out3_bind; [by apply vget_rel3|]. intros d1 d2 d3 Hd.
  apply vset_rel3; [done|]. apply Forall3_app; [done|]. by repeat constructor.
Qed.

Lemma bitdec_rel3 S1 S2 S3 s regs : mem3 S1 S2 S3 →
  out3 mem3 (bitdec S1 s regs) (bitdec S2 s regs) (bitdec S3 s regs).
Proof.
  intros HS. unfold bitdec. eapply out3_bind; [by apply vget_rel3|]. intros l1 l2 l3 Hl.
  cbn beta. destruct (Forall3_lengths _ _ _ _ Hl) as [-> ->]. destruct (_ <? _)%nat; [done|].
  apply out3_foldM; [|done]. intros [i r] U1 U2 U3 _ HU.
  eapply out3_bind; [apply (vset_rel3 (Forall3 R)); [done|constructor]|]. intros V1 V2 V3 HV.
  eapply out3_bind; [by apply get_reg_rel3|]. intros w1 w2 w3 Hw.
  apply vset_rel3; [done|]. by repeat constructor.
Qed.

(** Instructions that put public values on wires. *)
Section public.
Context (p1 : P1) (p2 : P2) (p3 : P3).
Context (R_public : ∀ b, R (w_public_input p1 b) (w_public_input p2 b) (w_public_input p3 b)).

Lemma invert_rel3 S1 S2 S3 d n x : mem3 S1 S2 S3 →
  out3 mem3 (invert p1 S1 d n x) (invert p2 S2 d n x) (invert p3 S3 d n x).
Proof.
  intros HS. unfold invert. eapply out3_bind; [by apply resize_regs_rel3|].
  intros T1 T2 T3 HT. apply out3_foldM; [|done]. intros i U1 U2 U3 _ HU.
  eapply out3_bind; [by apply get_reg_rel3|]. intros a1 a2 a3 Ha.
  apply set_reg_rel3; auto.
Qed.

Lemma nots_rel3 S1 S2 S3 r0 r1 total : mem3 S1 S2 S3 →
  out3 mem3 (nots p1 S1 r0 r1 total) (nots p2 S2 r0 r1 total) (nots p3 S3 r0 r1 total).
Proof.
  intros HS. apply out3_foldM; [|done]. intros i U1 U2 U3 _ HU. by apply invert_rel3.
Qed.

Lemma load_clear_rel3 S1 S2 S3 d n x : mem3 S1 S2 S3 →
  out3 mem3 (load_clear p1 S1 d n x) (load_clear p2 S2 d n x) (load_clear p3 S3 d n x).
Proof.
  intros HS. unfold load_clear. destruct (_ && _); [done|].
  eapply out3_bind; [by apply resize_regs_rel3|].
  intros T1 T2 T3 HT. apply out3_foldM; [|done]. intros i U1 U2 U3 _ HU.
  destruct (64 <=? i); [done|]. apply set_reg_rel3; auto.
Qed.

Lemma trans_rel3 S1 S2 S3 n args : mem3 S1 S2 S3 →
  out3 mem3 (trans p1 S1 n args) (trans p2 S2 n args) (trans p3 S3 n args).
Proof.
  intros HS. apply out3_foldM; [|done]. intros i U1 U2 U3 _ HU.
  apply (out3_bind (λ a b c, a = b ∧ b = c)); [by destruct (vget args i)|].
  intros d ? ? [<- <-]. eapply out3_bind.
  { apply out3_foldM; [|done]. intros j V1 V2 V3 _ HV. by apply resize_regs_rel3. }
  intros T1 T2 T3 HT. apply out3_foldM; [|done]. intros j V1 V2 V3 _ HV.
  apply (out3_bind (λ a b c, a = b ∧ b = c)); [by destruct (vget args _)|].
  intros s ? ? [<- <-]. eapply out3_bind; [by apply vget_rel3|]. intros l1 l2 l3 Hl.
  cbn beta. destruct (Forall3_lengths _ _ _ _ Hl) as [-> ->]. eapply out3_bind.
  { destruct (_ <? _); [by apply vget_rel3|apply R_public]. }
  intros w1 w2 w3 Hw. by apply set_reg_rel3.
Qed.

Lemma andm_rel3 S1 S2 S3 C r0 r1 r2 total : mem3 S1 S2 S3 →
  out3 mem3 (andm p1 S1 C r0 r1 r2 total) (andm p2 S2 C r0 r1 r2 total)
    (andm p3 S3 C r0 r1 r2 total).
Proof.
  intros HS. apply out3_foldM; [|done]. intros i U1 U2 U3 _ HU.
  eapply out3_bind; [by apply resize_regs_rel3|]. intros T1 T2 T3 HT.
  apply out3_foldM; [|done]. intros j V1 V2 V3 _ HV.
  apply (out3_bind (λ a b c, a = b ∧ b = c)); [by destruct (vget C _)|].
  intros c ? ? [<- <-]. eapply out3_bind.
  { destruct (Z.testbit c j); [by apply get_reg_rel3|apply R_public]. }
  intros w1 w2 w3 Hw. by apply set_reg_rel3.
Qed.

Lemma convcbit2s_rel3 S1 S2 S3 C r0 r1 total : mem3 S1 S2 S3 →
  out3 mem3 (convcbit2s p1 S1 C r0 r1 total) (convcbit2s p2 S2 C r0 r1 total)
    (convcbit2s p3 S3 C r0 r1 total).
Proof.
  intros HS. apply out3_foldM; [|done]. intros i U1 U2 U3 _ HU.
  eapply out3_bind; [by apply resize_regs_rel3|]. intros T1 T2 T3 HT.
  apply out3_foldM; [|done]. intros j V1 V2 V3 _ HV.
  apply (out3_bind (λ a b c, a = b ∧ b = c)); [by destruct (vget C _)|].
  intros c ? ? [<- <-]. apply set_reg_rel3; auto.
Qed.
End public.
End mem.

(** ** Computations of the parties

    [sim Rv mg mp me]: whenever the plaintext computation succeeds, the garbler's
    succeeds, and the evaluator's succeeds on what the garbler produced, using up
    exactly that, with results related by [Rv]. *)
Section sim.
Context {P : Type} `{Prng P} `{GateScheme} `{!GateLaws}.
Context (delta : Key).

Definition Mem : Secrets Key → Secrets bool → Secrets Key → Prop := mem3 (wire_rel delta).

Definition g_ok (g : Garbler P) : Prop :=
  g_delta g = delta ∧ 10 ≤ g_threshold g ∧ (0 < length (g_job_prngs g) < 1024)%nat.

Definition synced (g : Garbler P) (e : Evaluator) : Prop :=
  g_counter g = e_counter e ∧ g_thread_num g = e_thread_num e ∧
  g_log_n_threads g = e_log_n_threads e ∧ 0 < e_workers e < 1024.

Record g_after (g g' : Garbler P) (gs : list gate) (ms : list bool) : Prop := {
  after_delta : g_delta g' = g_delta g;
  after_threshold : g_threshold g' = g_threshold g;
  after_prngs : length (g_job_prngs g') = length (g_job_prngs g);
  after_thread : g_thread_num g' = g_thread_num g;
  after_log : g_log_n_threads g' = g_log_n_threads g;
  after_gates : g_gates g' = g_gates g ++ gs;
  after_masks : g_output_masks g' = g_output_masks g ++ ms;
  after_counter : g_counter g' = g_counter g + Z.of_nat (length gs);
}.

(** The evaluator after [n] gates, with [gr] and [mr] left. *)
Definition e_after (e : Evaluator) (n : nat) (gr : list gate) (mr : list bool) : Evaluator :=
  mkEvaluator (e_counter e + Z.of_nat n) gr mr (e_thread_num e) (e_log_n_threads e) (e_workers e).

Definition sim {A B C} (Rv : A → B → C → Prop) (mg : Garbler P → outcome (A * Garbler P))
    (mp : outcome (B * unit)) (me : Evaluator → outcome (C * Evaluator)) : Prop :=
  ∀ b u, mp = Ok (b, u) → ∀ g, g_ok g →
  ∃ a g' gs ms, mg g = Ok (a, g') ∧ g_after g g' gs ms ∧
    ∀ e gr mr, synced g e → e_gates e = gs ++ gr → e_output_masks e = ms ++ mr →
    ∃ c, me e = Ok (c, e_after e (length gs) gr mr) ∧ Rv a b c.

Lemma g_after_refl g : g_after g g [] [].
Proof. constructor; rewrite ?app_nil_r; cbn; try done. lia. Qed.

Lemma g_after_trans g1 g2 g3 gs ms gs' ms' :
  g_after g1 g2 gs ms → g_after g2 g3 gs' ms' → g_after g1 g3 (gs ++ gs') (ms ++ ms').
Proof.
  intros [] []. constructor; rewrite ?app_assoc; try congruence. rewrite length_app. lia.
Qed.

Lemma g_after_ok g g' gs ms : g_after g g' gs ms → g_ok g → g_ok g'.
Proof. intros [] (?&?&?). repeat split; congruence || lia. Qed.

Lemma g_after_inj g g' gs ms gs' ms' : g_after g g' gs ms → g_after g g' gs' ms' →
  gs = gs' ∧ ms = ms'.
Proof.
  intros [] []. split; [apply (app_inv_head (g_gates g))|apply (app_inv_head (g_output_masks g))];
    congruence.
Qed.

Lemma synced_after g g' e gs ms gr mr : g_after g g' gs ms → synced g e →
  synced g' (e_after e (length gs) gr mr).
Proof. intros [] (?&?&?&?). repeat split; cbn; congruence || lia. Qed.

Lemma e_after_refl e : e_after e 0 (e_gates e) (e_output_masks e) = e.
Proof. destruct e. unfold e_after. cbn. by rewrite Z.add_0_r. Qed.

Lemma e_after_trans e n m gr mr gr' mr' :
  e_after (e_after e n gr mr) m gr' mr' = e_after e (n + m) gr' mr'.
Proof. unfold e_after. cbn. f_equal. lia. Qed.

(** An evaluator in step with a garbler. *)
Definition shadow (g : Garbler P) (gs : list gate) (ms : list bool) : Evaluator :=
  mkEvaluator (g_counter g) gs ms (g_thread_num g) (g_log_n_threads g) 1.

Lemma shadow_synced g gs ms : synced g (shadow g gs ms).
Proof. done. Qed.

Lemma sim_ext {A B C} (Rv : A → B → C → Prop) mg mp me mg' mp' me' :
  (∀ g, mg g = mg' g) → mp = mp' → (∀ e, me e = me' e) → sim Rv mg' mp' me' → sim Rv mg mp me.
Proof.
  intros Eg -> Ee HS b u Hb g Hg. destruct (HS b u Hb g Hg) as (a & g' & gs & ms & E & Ha & He).
  exists a, g', gs, ms. rewrite Eg. split_and!; [done..|].
  intros e gr mr Hs Hgs Hms. rewrite Ee. eauto.
Qed.

Lemma sim_ret {A B C} (Rv : A → B → C → Prop) a b c :
  Rv a b c → sim Rv (λ g, Ok (a, g)) (Ok (b, tt)) (λ e, Ok (c, e)).
Proof.
  intros HR b' u [= <- <-] g Hg. exists a, g, [], []. split_and!; [done|apply g_after_refl|].
  intros e gr mr Hs Hgs Hms. exists c. cbn in Hgs, Hms. subst. by rewrite e_after_refl.
Qed.

Lemma sim_impl {A B C} (Rv Rv' : A → B → C → Prop) mg mp me :
  (∀ a b c, Rv a b c → Rv' a b c) → sim Rv mg mp me → sim Rv' mg mp me.
Proof.
  intros HR HS b u Hb g Hg. destruct (HS b u Hb g Hg) as (a & g' & gs & ms & E & Ha & He).
  exists a, g', gs, ms. split_and!; [done..|]. intros e gr mr Hs Hgs Hms.
  destruct (He e gr mr Hs Hgs Hms) as (c & Ec & HRv). eauto.
Qed.

Lemma sim_bind {A B C A' B' C'} (Rv : A → B → C → Prop) (Rv' : A' → B' → C' → Prop)
    mg mp me fg fp fe :
  sim Rv mg mp me →
  (∀ a b c, Rv a b c → sim Rv' (λ g, fg (a, g)) (fp (b, tt)) (λ e, fe (c, e))) →
  sim Rv' (λ g, mg g ≫= fg) (mp ≫= fp) (λ e, me e ≫= fe).
Proof.
  intros HS HF b' u' Hb' g Hg.
  apply bind_Ok_inv in Hb' as ([b u] & Hb & Hb'). destruct u.
  destruct (HS b tt Hb g Hg) as (a & g1 & gs & ms & E & Ha & He).
  destruct (He (shadow g (gs ++ []) (ms ++ [])) [] [] (shadow_synced _ _ _) eq_refl eq_refl)
    as (c0 & _ & HR0).
  destruct (HF a b c0 HR0 b' u' Hb' g1 (g_after_ok _ _ _ _ Ha Hg))
    as (a' & g2 & gs' & ms' & E' & Ha' & _).
  exists a', g2, (gs ++ gs'), (ms ++ ms'). rewrite E, bind_ok.
  split_and!; [done|by eapply g_after_trans|].
  intros e gr mr Hs Hgs Hms. rewrite <-app_assoc in Hgs, Hms.
  destruct (He e _ _ Hs Hgs Hms) as (c & Ec & HR).
  destruct (HF a b c HR b' u' Hb' g1 (g_after_ok _ _ _ _ Ha Hg))
    as (a'' & g2' & gs'' & ms'' & E'' & Ha'' & He'').
  rewrite E' in E''. injection E'' as <- <-.
  destruct (g_after_inj _ _ _ _ _ _ Ha' Ha'') as [<- <-].
  destruct (He'' _ gr mr (synced_after _ _ _ _ _ _ _ Ha Hs) eq_refl eq_refl) as (c' & Ec' & HR').
  exists c'. rewrite Ec, bind_ok, Ec', e_after_trans, length_app. done.
Qed.

(** A step that touches neither party. *)
Lemma sim_lift {A B C A' B' C'} (R0 : A → B → C → Prop) (Rv : A' → B' → C' → Prop)
    m1 m2 m3 fg fp fe :
  out3 R0 m1 m2 m3 → (∀ a b c, R0 a b c → sim Rv (fg a) (fp b) (fe c)) →
  sim Rv (λ g, m1 ≫= λ a, fg a g) (m2 ≫= fp) (λ e, m3 ≫= λ c, fe c e).
Proof.
  intros HR HF b u Hb. apply bind_Ok_inv in Hb as (b0 & Hb0 & Hb).
  destruct (out3_Ok _ _ _ _ _ HR Hb0) as (a0 & c0 & -> & -> & HR0).
  exact (HF a0 b0 c0 HR0 b u Hb).
Qed.

(** A step that leaves both parties as they are. *)
Lemma sim_public {A B C} (Rv : A → B → C → Prop) m1 m2 m3 :
  (∀ g e b, g_ok g → synced g e → m2 = Ok b → ∃ a c, m1 g = Ok a ∧ m3 e = Ok c ∧ Rv a b c) →
  sim Rv (λ g, a ← m1 g; Ok (a, g)) (b ← m2; Ok (b, tt)) (λ e, c ← m3 e; Ok (c, e)).
Proof.
  intros HR b u Hb g Hg. apply bind_Ok_inv in Hb as (b0 & Hb0 & [= <- <-]).
  destruct (HR g (shadow g [] []) b0 Hg (shadow_synced g [] []) Hb0) as (a & c0 & Ea & _ & _).
  exists a, g, [], []. rewrite Ea. split_and!; [done|apply g_after_refl|].
  intros e gr mr Hs Hgs Hms.
  destruct (HR g e b0 Hg Hs Hb0) as (a' & c & Ea' & Ec & HRv).
  rewrite Ea in Ea'. injection Ea' as <-. exists c. rewrite Ec, bind_ok.
  cbn in Hgs, Hms. subst. by rewrite e_after_refl.
Qed.

Lemma sim_foldM {A B C I} (Rv : A → B → C → Prop) fg fp fe (l : list I) a b c :
  (∀ i a b c, i ∈ l → Rv a b c →
    sim Rv (λ g, fg (a, g) i) (fp (b, tt) i) (λ e, fe (c, e) i)) →
  Rv a b c → sim Rv (λ g, foldM fg (a, g) l) (foldM fp (b, tt) l) (λ e, foldM fe (c, e) l).
Proof.
  revert a b c. induction l as [|i l IH]; intros a b c HF HR; cbn [foldM]; [by apply sim_ret|].
  apply (sim_bind Rv Rv (λ g, fg (a, g) i) (fp (b, tt) i) (λ e, fe (c, e) i)).
  - apply HF; [set_solver|done].
  - intros a' b' c' HR'. apply IH; [|done]. intros j a1 b1 c1 Hj. apply HF. set_solver.
Qed.
End sim.
