(* ===== verification/YaoProps.v ===== *)
(** * Correctness of the Yao parties

    The AND instructions: gate by gate, in one thread and split into jobs, the
    evaluator obtains the keys of the plaintext results from the gates the
    garbler wrote. *)

From S2P Require Import Prelude Xor Block Aes YaoKey YaoGate GcVm YaoWire YaoSim.

(** ** Writing and reading registers *)
Lemma vget_insert_ne {A} (l : list A) i j x :
  0 ≤ i → i ≠ j → vget (<[Z.to_nat i := x]> l) j = vget l j.
Proof.
  intros Hi Hn. unfold vget. destruct (Z.ltb_spec j 0); [done|].
  rewrite list_lookup_insert_ne; [done|]. lia.
Qed.

Section regs.
Context {W : Type}.
Implicit Types S : Secrets W.

Lemma set_reg_inv S d i w S' : set_reg S d i w = Ok S' →
  ∃ regs, 0 ≤ d < Z.of_nat (length S) ∧ S !! Z.to_nat d = Some regs ∧
    0 ≤ i < Z.of_nat (length regs) ∧ S' = <[Z.to_nat d := <[Z.to_nat i := w]> regs]> S.
Proof.
  unfold set_reg. intros H. bind_inv H. bind_inv H. apply vget_inv in E as [Hd Hl].
  unfold vset in *. destruct (Z.ltb_spec i 0); [done|].
  destruct (Z.leb_spec (Z.of_nat (length a)) i); [done|]. injection E0 as <-.
  destruct (Z.ltb_spec d 0); [done|]. destruct (Z.leb_spec (Z.of_nat (length S)) d); [done|].
  injection H as <-. exists a. split_and!; [lia..|done|lia|lia|done].
Qed.

Lemma get_reg_set_ne S d i w S' r j : set_reg S d i w = Ok S' → d ≠ r →
  get_reg S' r j = get_reg S r j.
Proof.
  intros (regs & ? & ? & ? & ->)%set_reg_inv Hn. unfold get_reg. by rewrite vget_insert_ne by lia.
Qed.

Lemma set_reg_set S d i w S' w' : set_reg S d i w = Ok S' →
  set_reg S' d i w' = set_reg S d i w'.
Proof.
  intros (regs & Hd & Hl & Hi & ->)%set_reg_inv. unfold set_reg.
  rewrite (vget_Ok S d regs) by (done || lia).
  rewrite (vget_Ok (<[Z.to_nat d := _]> S) d (<[Z.to_nat i := w]> regs))
    by (lia || (apply list_lookup_insert_eq; lia)).
  rewrite !bind_ok. rewrite !vset_Ok by (rewrite ?length_insert; lia). rewrite !bind_ok.
  rewrite list_insert_insert_eq.
  rewrite !vset_Ok by (rewrite ?length_insert; lia). by rewrite list_insert_insert_eq.
Qed.

Lemma get_reg_resize_ne {P} `{WireOps W P} S d n S' r j : resize_regs S d n = Ok S' → d ≠ r →
  get_reg S' r j = get_reg S r j.
Proof.
  unfold resize_regs. intros HE Hn. bind_inv HE. apply vget_inv in E as [Hd _].
  destruct (_ =? _); [by injection HE as <-|]. destruct (n <? 0); [done|].
  unfold vset in HE. destruct (d <? 0); [done|]. destruct (_ <=? d); [done|].
  injection HE as <-. unfold get_reg. by rewrite vget_insert_ne by lia.
Qed.
End regs.

Lemma mem3_shape {W1 W2 W3} (R : W1 → W2 → W3 → Prop) S1 S2 S3 :
  mem3 R S1 S2 S3 → mem3 (λ _ _ _, True) S1 S2 S3.
Proof. intros HS. eapply Forall3_impl; [exact HS|]. intros l1 l2 l3 Hl. by eapply Forall3_impl. Qed.

(** A register can be overwritten in one memory when it can in a related one. *)
Lemma set_reg_shape {W1 W2 W3} (R : W1 → W2 → W3 → Prop) S1 S2 S3 d i w1 w2 w3 S2' :
  mem3 R S1 S2 S3 → set_reg S2 d i w2 = Ok S2' →
  ∃ S1' S3', set_reg S1 d i w1 = Ok S1' ∧ set_reg S3 d i w3 = Ok S3'.
Proof.
  intros HS HE.
  destruct (out3_Ok _ _ _ _ _
    (set_reg_rel3 (λ _ _ _, True) S1 S2 S3 d i w1 w2 w3 (mem3_shape R _ _ _ HS) I) HE)
    as (S1' & S3' & E1 & E3 & _). eauto.
Qed.

(** ** One AND gate *)
Section yao.
Context {P : Type} `{Prng P} `{GateScheme} `{!GateLaws}.
Context (delta : Key) (delta_odd : Z.odd delta = true).
#[local] Abbreviation Mem := (YaoSim.Mem delta).
#[local] Abbreviation sim := (YaoSim.sim (P:=P) delta).

Lemma rel_new :
  wire_rel delta (@w_new Key (Garbler P) _) (@w_new bool unit _) (@w_new Key Evaluator _).
Proof.
  cbn. pose proof (rel_public delta false) as Hf. pose proof (rel_xor _ _ _ _ _ _ _ Hf Hf) as Hx.
  by rewrite Z.lxor_nilpotent in Hx.
Qed.

Lemma rel_wires a1 a2 a3 b1 b2 b3 : wire_rel delta a1 a2 a3 → wire_rel delta b1 b2 b3 →
  wire_rel delta (@w_XOR Key (Garbler P) _ a1 b1) (@w_XOR bool unit _ a2 b2)
    (@w_XOR Key Evaluator _ a3 b3).
Proof. apply rel_xor. Qed.

Lemma rel_publics (g : Garbler P) (e : Evaluator) b : g_delta g = delta →
  wire_rel delta (w_public_input g b) (w_public_input tt b) (w_public_input e b).
Proof. intros <-. apply rel_public. Qed.

Lemma get_reg_mem Sg Sp Se r i b : Mem Sg Sp Se → get_reg Sp r i = Ok b →
  ∃ a c, get_reg Sg r i = Ok a ∧ get_reg Se r i = Ok c ∧ wire_rel delta a b c.
Proof. intros HS. apply out3_Ok. by apply get_reg_rel3. Qed.

Lemma set_reg_mem Sg Sp Se r i a b c Sp' : Mem Sg Sp Se → wire_rel delta a b c →
  set_reg Sp r i b = Ok Sp' →
  ∃ Sg' Se', set_reg Sg r i a = Ok Sg' ∧ set_reg Se r i c = Ok Se' ∧ Mem Sg' Sp' Se'.
Proof. intros HS Hw. apply out3_Ok. by apply set_reg_rel3. Qed.

Lemma resize_mem Sg Sp Se d n Sp' : Mem Sg Sp Se → resize_regs (P:=unit) Sp d n = Ok Sp' →
  ∃ Sg' Se', resize_regs (P:=Garbler P) Sg d n = Ok Sg' ∧
    resize_regs (P:=Evaluator) Se d n = Ok Se' ∧ Mem Sg' Sp' Se'.
Proof. intros HS. apply out3_Ok. apply resize_regs_rel3; [apply rel_new|exact HS]. Qed.

(** [op] keeps the parties in step: its gate is appended by the garbler and taken
    by the evaluator. *)
Lemma op_sim (g : Garbler P) out gl gr bl br el er : g_ok delta g →
  wire_rel delta gl bl el → wire_rel delta gr br er →
  ∃ a g' x, garble_op g out gl gr = Ok (a, g') ∧ g_after g g' [x] [] ∧
    ∀ e gs ms old, synced g e → e_gates e = x :: gs → e_output_masks e = ms →
    ∃ c, eval_op e old el er = Ok (c, e_after e 1 gs ms) ∧ wire_rel delta a (bl && br) c.
Proof.
  intros (Hd & _) Hl Hr. unfold garble_op, eval_op, load_gate.
  destruct (rel_op mmo_hash1 delta (g_counter g + 1)
    (g_gate_id (g_set_counter g (g_counter g + 1))) out gl gr bl br el er delta_odd Hl Hr)
    as (x & out' & Eg & HR). cbn [g_delta g_counter g_set_counter]. rewrite Hd, Eg, bind_ok.
  eexists _, _, x. split; [done|]. split.
  { constructor; cbn; rewrite ?app_nil_r; done. }
  intros e gs ms old (Hc & Ht & Hlog & _) -> <-. rewrite bind_ok. eexists. split; [done|].
  unfold e_gate_id. cbn [e_counter e_thread_num e_log_n_threads e_set_counter e_set_gates].
  rewrite <-Hc, <-Ht, <-Hlog. exact HR.
Qed.

Lemma AND_sim Sg Sp Se d di x xi y yi : Mem Sg Sp Se → d ≠ x → d ≠ y →
  sim Mem (λ g, AND (Sg, g) d di x xi y yi) (AND (Sp, tt) d di x xi y yi)
    (λ e, AND (Se, e) d di x xi y yi).
Proof.
  intros HS Hx Hy Sp' u HE g Hg. unfold AND in HE. cbn [fst snd] in HE.
  bind_inv HE. rename a into lp, E into El. bind_inv HE. rename a into rp, E into Er.
  bind_inv HE. rename a into op, E into Eo. cbn [w_op_init plain_wire] in HE.
  bind_inv HE. rename a into Sp1, E into Es.
  rewrite (get_reg_set_ne _ _ _ _ _ x xi Es Hx), El, bind_ok in HE.
  rewrite (get_reg_set_ne _ _ _ _ _ y yi Es Hy), Er, bind_ok in HE.
  cbn [w_op plain_wire] in HE. rewrite bind_ok in HE. bind_inv HE. injection HE as <- <-.
  rewrite (set_reg_set _ _ _ _ _ _ Es) in E. rename a into Sp2.
  destruct (get_reg_mem _ _ _ _ _ _ HS El) as (lg & le & Egl & Eel & Hl).
  destruct (get_reg_mem _ _ _ _ _ _ HS Er) as (rg & re & Egr & Eer & Hr).
  destruct (get_reg_mem _ _ _ _ _ _ HS Eo) as (og & oe & Ego & Eeo & _).
  destruct (randomize (g_prng g)) as [k prng] eqn:Ek.
  destruct (set_reg_shape _ _ _ _ _ _ k _ oe _ HS Es) as (Sg1 & Se1 & Esg & Ese).
  assert (g_ok delta (g_set_prng g prng)) as Hg1 by exact Hg.
  destruct (op_sim (g_set_prng g prng) k lg rg lp rp le re Hg1 Hl Hr)
    as (a & g2 & gt & Eop & Haf & Hev).
  assert (∃ Sg2, set_reg Sg d di a = Ok Sg2) as [Sg2 Esg2].
  { destruct (set_reg_shape _ _ _ _ _ _ a _ oe _ HS Es) as (Sg2 & _ & ? & _). eauto. }
  exists Sg2, g2, [gt], []. split_and!.
  - unfold AND. cbn [fst snd]. rewrite Egl, bind_ok, Egr, bind_ok, Ego, bind_ok.
    cbn [w_op_init garble_wire]. rewrite Ek, Esg, bind_ok.
    rewrite (get_reg_set_ne _ _ _ _ _ x xi Esg Hx), Egl, bind_ok.
    rewrite (get_reg_set_ne _ _ _ _ _ y yi Esg Hy), Egr, bind_ok.
    cbn [w_op garble_wire]. rewrite Eop, bind_ok, (set_reg_set _ _ _ _ _ _ Esg), Esg2. done.
  - destruct Haf. by constructor.
  - intros e gs ms Hs Hgs Hms. cbn [app] in Hgs, Hms.
    destruct (Hev e gs ms oe Hs Hgs Hms) as (c & Ec & HR).
    destruct (set_reg_mem _ _ _ _ _ _ _ _ _ HS HR E) as (Sg2' & Se2 & Eg2' & Ee2 & HM).
    rewrite Esg2 in Eg2'. injection Eg2' as <-. exists Se2. split; [|done].
    unfold AND. cbn [fst snd]. rewrite Eel, bind_ok, Eer, bind_ok, Eeo, bind_ok.
    cbn [w_op_init eval_wire]. rewrite Ese, bind_ok.
    rewrite (get_reg_set_ne _ _ _ _ _ x xi Ese Hx), Eel, bind_ok.
    rewrite (get_reg_set_ne _ _ _ _ _ y yi Ese Hy), Eer, bind_ok.
    cbn [w_op eval_wire]. rewrite Ec, bind_ok, (set_reg_set _ _ _ _ _ _ Ese), Ee2. done.
Qed.

(** A gate on a wire of its own, as [andrsvec] computes it. *)
Lemma and_bit_sim lg lp le rg rp re : wire_rel delta lg lp le → wire_rel delta rg rp re →
  sim (wire_rel delta)
    (λ g, and_bit g lg rg) (and_bit tt lp rp) (λ e, and_bit e le re).
Proof.
  intros Hl Hr b u [= <- _] g Hg. unfold and_bit. cbn [w_op_init garble_wire eval_wire w_op].
  destruct (randomize (g_prng g)) as [k prng].
  destruct (op_sim (g_set_prng g prng) k lg rg lp rp le re Hg Hl Hr) as (a & g2 & gt & -> & Haf & Hev).
  exists a, g2, [gt], []. split_and!; [done|by destruct Haf; constructor|].
  intros e gs ms Hs Hgs Hms. exact (Hev e gs ms _ Hs Hgs Hms).
Qed.

Lemma vec_at_rel3 {A B C} (Q : A → B → C → Prop) l1 l2 l3 i :
  Forall3 Q l1 l2 l3 → out3 Q (vec_at l1 i) (vec_at l2 i) (vec_at l3 i).
Proof.
  intros HF. unfold vec_at. pose proof (vget_rel3 Q l1 l2 l3 i HF).
  by destruct (vget l1 i), (vget l2 i), (vget l3 i).
Qed.

Lemma andrsvec_bit_sim Sg Sp Se dests srcs base i : Mem Sg Sp Se →
  sim Mem (λ g, andrsvec_bit dests srcs base (Sg, g) i) (andrsvec_bit dests srcs base (Sp, tt) i)
    (λ e, andrsvec_bit dests srcs base (Se, e) i).
Proof.
  intros HS. unfold andrsvec_bit. cbn [fst snd].
  eapply (sim_lift delta); [by apply vec_at_rel3|]. intros _ _ _ _.
  eapply (sim_lift delta); [by apply get_reg_rel3|]. intros yg yp ye Hy.
  apply (sim_foldM delta); [|done]. intros [d s] Tg Tp Te _ HT. cbn [fst snd].
  eapply (sim_lift delta); [by apply vec_at_rel3|]. intros _ _ _ _.
  eapply (sim_lift delta); [by apply get_reg_rel3|]. intros xg xp xe Hx.
  eapply (sim_bind delta (wire_rel delta)); [by apply and_bit_sim|]. intros tg tp te Ht. cbv beta iota.
  eapply (sim_lift delta); [by apply vec_at_rel3|]. intros _ _ _ _.
  eapply (sim_lift delta); [by apply get_reg_rel3|]. intros _ _ _ _.
  eapply (sim_lift delta Mem); [by apply set_reg_rel3|]. intros Ug Up Ue HU. by apply sim_ret.
Qed.

Lemma andrsvec_group_sim Sg Sp Se dests srcs base size : Mem Sg Sp Se →
  sim Mem (λ g, andrsvec_group dests srcs base size (Sg, g)) (andrsvec_group dests srcs base size (Sp, tt))
    (λ e, andrsvec_group dests srcs base size (Se, e)).
Proof.
  intros HS. unfold andrsvec_group. destruct (_ <? Z.of_nat _); [by intros ?|].
  apply (sim_foldM delta); [|done]. intros i Tg Tp Te _ HT. cbn [fst snd].
  eapply (sim_lift delta Mem).
  { destruct (_ =? 0); [|done]. apply out3_foldM; [|done]. intros d Ug Up Ue _ HU.
    eapply out3_bind; [by apply vec_at_rel3|]. intros _ _ _ _. apply resize_regs_rel3; [apply rel_new|done]. }
  intros Ug Up Ue HU. by apply andrsvec_bit_sim.
Qed.

Lemma andrsvec_sim Sg Sp Se args : Mem Sg Sp Se →
  sim Mem (λ g, andrsvec (Sg, g) args) (andrsvec (Sp, tt) args) (λ e, andrsvec (Se, e) args).
Proof.
  unfold andrsvec. generalize (length args) as fuel. intros fuel. revert Sg Sp Se args.
  induction fuel as [|fuel IH]; intros Sg Sp Se [|total [|size args]] HS; try (by apply sim_ret); try (by intros ?).
  cbn [andrsvec_loop]. destruct (_ || _); [by intros ?|].
  eapply (sim_lift delta (λ a b c, a = b ∧ b = c)); [by destruct (vget args _)|].
  intros base ? ? [<- <-]. eapply (sim_bind delta Mem); [by apply andrsvec_group_sim|].
  intros Tg Tp Te HT. by apply IH.
Qed.

Lemma DIV_CEIL_lt n j : 0 ≤ j < 0 + DIV_CEIL n default_length → 64 * j < n.
Proof.
  unfold DIV_CEIL, default_length. intros Hj. Z.to_euclidean_division_equations. lia.
Qed.

(** The generic [and_] of the processor, on registers that do not overlap. *)
Definition separate (repeat : bool) (q : Z * Z * Z * Z) : Prop :=
  let '(n, d, x, y) := q in
  d ≠ x ∧ (if repeat then n ≤ default_length ∧ (0 < n → d ≠ y) else d ≠ y).

Lemma secret_and_sim Sg Sp Se d n x y repeat : Mem Sg Sp Se → d ≠ x → d ≠ y →
  sim Mem (λ g, secret_and (Sg, g) d n x y repeat) (secret_and (Sp, tt) d n x y repeat)
    (λ e, secret_and (Se, e) d n x y repeat).
Proof.
  intros HS Hx Hy. unfold secret_and. destruct (_ <? n); [by intros b u HE|]. cbn [fst snd].
  eapply (sim_lift delta Mem Mem); [apply resize_regs_rel3; [apply rel_new|exact HS]|].
  intros Tg Tp Te HT. apply (sim_foldM delta); [|done]. intros i Ug Up Ue _ HU.
  by apply AND_sim.
Qed.

Lemma and_one_sim Sg Sp Se q repeat : Mem Sg Sp Se → separate repeat q →
  sim Mem (λ g, and_one repeat (Sg, g) q) (and_one repeat (Sp, tt) q)
    (λ e, and_one repeat (Se, e) q).
Proof.
  destruct q as [[[n d] x] y]. intros HS (Hx & Hy). apply (sim_foldM delta); [|done].
  intros j Ug Up Ue Hj HU. apply elem_of_seqZ in Hj. apply secret_and_sim; [done|lia|].
  destruct repeat; [|lia]. destruct Hy as [Hn Hy].
  pose proof (DIV_CEIL_lt n j Hj). unfold default_length in *.
  specialize (Hy ltac:(lia)). lia.
Qed.

Lemma and__sim Sg Sp Se args repeat : Mem Sg Sp Se → Forall (separate repeat) (quads args) →
  sim Mem (λ g, and_ (Sg, g) args repeat) (and_ (Sp, tt) args repeat)
    (λ e, and_ (Se, e) args repeat).
Proof.
  intros HS Hq. unfold and_. destruct (check_args args 4) as [t|m|]; [|by intros b u HE..].
  cbn [mbind outcome_bind]. apply (sim_foldM delta); [|done]. intros q Ug Up Ue Hq' HU.
  apply and_one_sim; [done|]. by eapply Forall_forall.
Qed.

(** ** The batched loops *)

(** [loop_sim n fg fp fe]: from related memories, the garbler's loop writes [n]
    gates, and the evaluator's loop, given these, reaches a related memory. *)
Definition loop_sim (n : Z) (fg : GarbleLoop P → outcome (GarbleLoop P))
    (fp : Secrets bool * unit → outcome (Secrets bool * unit))
    (fe : EvalLoop → outcome EvalLoop) : Prop :=
  ∀ Sg Sp Se (prng : P) T gs Sp' u, Mem Sg Sp Se → fp (Sp, tt) = Ok (Sp', u) →
  ∃ Sg' prng' new, fg (mkGL Sg prng T gs) = Ok (mkGL Sg' prng' (T + n) (gs ++ new)) ∧
    Z.of_nat (length new) = n ∧
    ∃ Se', (∀ rest, fe (mkEL Se T (new ++ rest)) = Ok (mkEL Se' (T + n) rest)) ∧ Mem Sg' Sp' Se'.

Lemma loop_sim_ext n n' fg fg' fp fp' fe fe' : n = n' →
  (∀ st, fg st = fg' st) → (∀ st, fp st = fp' st) → (∀ st, fe st = fe' st) →
  loop_sim n' fg' fp' fe' → loop_sim n fg fp fe.
Proof.
  intros -> Eg Ep Ee HL Sg Sp Se prng T gs Sp' u HM Hp. rewrite Ep in Hp.
  destruct (HL _ _ _ prng T gs _ _ HM Hp) as (Sg' & prng' & new & E & Hn & Se' & He & HM').
  exists Sg', prng', new. rewrite Eg. split_and!; [done..|]. exists Se'. split; [|done].
  intros rest. by rewrite Ee.
Qed.

Lemma loop_sim_foldM {I} (w : I → Z) fg fp fe (l : list I) :
  (∀ i, i ∈ l → loop_sim (w i) (λ st, fg st i) (λ st, fp st i) (λ st, fe st i)) →
  loop_sim (foldr Z.add 0 (w <$> l)) (λ st, foldM fg st l) (λ st, foldM fp st l)
    (λ st, foldM fe st l).
Proof.
  induction l as [|i l IH]; intros HF Sg Sp Se prng T gs Sp' u HM Hp; cbn [foldM] in *.
  - injection Hp as <- <-. exists Sg, prng, []. cbn [fmap list_fmap foldr].
    rewrite app_nil_r, Z.add_0_r. split_and!; [done..|]. exists Se.
    split; [|done]. intros rest. by rewrite app_nil_l.
  - apply bind_Ok_inv in Hp as ([Sp1 []] & Hp1 & Hp).
    destruct (HF i ltac:(set_solver) _ _ _ prng T gs _ _ HM Hp1)
      as (Sg1 & prng1 & new1 & E1 & Hn1 & Se1 & He1 & HM1).
    destruct (IH (λ j Hj, HF j ltac:(set_solver)) _ _ _ prng1 (T + w i) (gs ++ new1) _ _ HM1 Hp)
      as (Sg2 & prng2 & new2 & E2 & Hn2 & Se2 & He2 & HM2).
    exists Sg2, prng2, (new1 ++ new2). cbn [fmap list_fmap foldr].
    rewrite E1, bind_ok, E2, <-app_assoc, Z.add_assoc, length_app.
    split_and!; [done|lia|]. exists Se2. split; [|done].
    intros rest. by rewrite <-app_assoc, He1, bind_ok, He2.
Qed.

(** One gate of the loops. *)
Lemma yao_gate_sim rnd d di x xi y yi : d ≠ x → d ≠ y →
  loop_sim 1 (λ st, garble_and_gate delta rnd st d di x xi y yi Ok)
    (λ st, AND st d di x xi y yi) (λ st, eval_and_gate st d di x xi y yi Ok).
Proof.
  intros Hx Hy Sg Sp Se prng T gs Sp2 u HS HE. unfold AND in HE. cbn [fst snd] in HE.
  bind_inv HE. rename a into lp, E into El. bind_inv HE. rename a into rp, E into Er.
  bind_inv HE. rename a into op, E into Eo. cbn [w_op_init plain_wire] in HE.
  bind_inv HE. rename a into Sp1, E into Es.
  rewrite (get_reg_set_ne _ _ _ _ _ x xi Es Hx), El, bind_ok in HE.
  rewrite (get_reg_set_ne _ _ _ _ _ y yi Es Hy), Er, bind_ok in HE.
  cbn [w_op plain_wire] in HE. rewrite bind_ok in HE. bind_inv HE. injection HE as -> <-.
  rewrite (set_reg_set _ _ _ _ _ _ Es) in E.
  destruct (get_reg_mem _ _ _ _ _ _ HS El) as (lg & le & Egl & Eel & Hl).
  destruct (get_reg_mem _ _ _ _ _ _ HS Er) as (rg & re & Egr & Eer & Hr).
  destruct (get_reg_mem _ _ _ _ _ _ HS Eo) as (og & oe & Ego & Eeo & _).
  destruct (rnd og prng) as [k prng'] eqn:Ek.
  destruct (set_reg_shape _ _ _ _ _ _ k _ oe _ HS Es) as (Sg1 & _ & Esg & _).
  pose proof (rel_and mmo_hash1 delta (T + 1) k lg rg lp rp le re delta_odd Hl Hr) as HR.
  cbv zeta in HR.
  set (ag := and_garble k _ lg rg delta) in HR. destruct ag as [gt out] eqn:Eag. subst ag.
  destruct (set_reg_mem _ _ _ _ _ _ _ _ _ HS HR E) as (Sg2 & Se2 & Esg2 & Ese2 & HM).
  cbn [fst snd] in Esg2, Ese2. exists Sg2, prng', [gt]. split_and!; [|done|].
  - unfold garble_and_gate. cbn [gl_S gl_counter gl_prng gl_gates].
    rewrite Egl, bind_ok, Egr, bind_ok, bind_ok, Ego, bind_ok, Ek, Esg, bind_ok.
    rewrite (get_reg_set_ne _ _ _ _ _ x xi Esg Hx), Egl, bind_ok.
    rewrite (get_reg_set_ne _ _ _ _ _ y yi Esg Hy), Egr, bind_ok.
    rewrite mmo_hashes_map, Eag, (set_reg_set _ _ _ _ _ _ Esg).
    by rewrite Esg2.
  - exists Se2. split; [|done]. intros rest. unfold eval_and_gate.
    cbn [el_S el_gate_id el_gates app].
    rewrite Eel, bind_ok, Eer, bind_ok, bind_ok, Eeo, bind_ok, Eel, bind_ok, Eer, bind_ok.
    rewrite mmo_hashes_map. by rewrite Ese2.
Qed.

Lemma loop_sim_resize n d w fg fp fe :
  loop_sim n fg fp fe →
  loop_sim n
    (λ st, S ← resize_regs (P:=Garbler P) (gl_S st) d w; fg (mkGL S (gl_prng st) (gl_counter st) (gl_gates st)))
    (λ st, S ← resize_regs (P:=unit) st.1 d w; fp (S, st.2))
    (λ st, S ← resize_regs (P:=Evaluator) (el_S st) d w; fe (mkEL S (el_gate_id st) (el_gates st))).
Proof.
  intros HL Sg Sp Se prng T gs Sp' u HM Hp. cbn [fst snd] in Hp.
  apply bind_Ok_inv in Hp as (Sp1 & Hp1 & Hp).
  destruct (resize_mem _ _ _ _ _ _ HM Hp1) as (Sg1 & Se1 & Eg & Ee & HM1).
  destruct (HL _ _ _ prng T gs _ _ HM1 Hp) as (Sg' & prng' & new & E & Hn & Se' & He & HM').
  exists Sg', prng', new. cbn [gl_S gl_prng gl_counter gl_gates]. rewrite Eg, bind_ok.
  split_and!; [done..|]. exists Se'. split; [|done]. intros rest.
  cbn [el_S el_gate_id el_gates]. by rewrite Ee, bind_ok.
Qed.

Lemma sum_ones {I} (l : list I) : foldr Z.add 0 ((λ _, 1) <$> l) = Z.of_nat (length l).
Proof. induction l; cbn [fmap list_fmap foldr length]; lia. Qed.

(** One register of up to 64 wires. *)
Lemma unit_sim rnd d n x y (repeat : bool) : 0 ≤ n → d ≠ x → d ≠ y →
  loop_sim n
    (λ st, S ← resize_regs (P:=Garbler P) (gl_S st) d n;
       foldM (λ st k, garble_and_gate delta rnd st d k x k y (if repeat then 0 else k) Ok)
         (mkGL S (gl_prng st) (gl_counter st) (gl_gates st)) (seqZ 0 n))
    (λ st, secret_and st d n x y repeat)
    (λ st, S ← resize_regs (P:=Evaluator) (el_S st) d n;
       foldM (λ st k, eval_and_gate st d k x k y (if repeat then 0 else k) Ok)
         (mkEL S (el_gate_id st) (el_gates st)) (seqZ 0 n)).
Proof.
  intros Hn Hx Hy Sg Sp Se prng T gs Sp' u HM Hp. unfold secret_and in Hp.
  destruct (_ <? n); [done|]. revert Sg Sp Se prng T gs Sp' u HM Hp.
  apply (loop_sim_resize n d n
    (λ st, foldM (λ st k, garble_and_gate delta rnd st d k x k y (if repeat then 0 else k) Ok)
             st (seqZ 0 n))
    (λ st, foldM (λ st k, AND st d k x k y (if repeat then 0 else k)) st (seqZ 0 n))
    (λ st, foldM (λ st k, eval_and_gate st d k x k y (if repeat then 0 else k) Ok)
             st (seqZ 0 n))).
  eapply loop_sim_ext; [|done|done|done|apply (loop_sim_foldM (λ _, 1))].
  - rewrite sum_ones, length_seqZ. lia.
  - intros k _. by apply yao_gate_sim.
Qed.

Lemma garble_gate_resize (S : Secrets Key) S1 (prng : P) T gs rnd d n di x xi y yi :
  resize_regs (P:=Garbler P) S d n = Ok S1 → d ≠ x → d ≠ y →
  garble_and_gate delta rnd (mkGL S prng T gs) d di x xi y yi
      (λ S, resize_regs (P:=Garbler P) S d n)
    = garble_and_gate delta rnd (mkGL S1 prng T gs) d di x xi y yi Ok.
Proof.
  intros HE Hx Hy. unfold garble_and_gate. cbn [gl_S gl_prng gl_counter gl_gates].
  rewrite (get_reg_resize_ne _ _ _ _ x xi HE Hx), (get_reg_resize_ne _ _ _ _ y yi HE Hy).
  destruct (get_reg S x xi); [|done..]. destruct (get_reg S y yi); [|done..].
  cbn [mbind outcome_bind]. by rewrite HE.
Qed.

Lemma eval_gate_resize (S : Secrets Key) S1 T gs d n di x xi y yi :
  resize_regs (P:=Evaluator) S d n = Ok S1 → d ≠ x → d ≠ y →
  eval_and_gate (mkEL S T gs) d di x xi y yi (λ S, resize_regs (P:=Evaluator) S d n)
    = eval_and_gate (mkEL S1 T gs) d di x xi y yi Ok.
Proof.
  intros HE Hx Hy. unfold eval_and_gate. cbn [el_S el_gate_id el_gates].
  rewrite (get_reg_resize_ne _ _ _ _ x xi HE Hx), (get_reg_resize_ne _ _ _ _ y yi HE Hy).
  destruct (get_reg S x xi); [|done..]. destruct (get_reg S y yi); [|done..].
  cbn [mbind outcome_bind]. by rewrite HE.
Qed.

(** The branch for a single gate. *)
Lemma single_sim rnd d x y (repeat : bool) : d ≠ x → d ≠ y →
  loop_sim 1
    (λ st, garble_and_gate delta rnd st d 0 x 0 y 0 (λ S, resize_regs (P:=Garbler P) S d 1))
    (λ st, secret_and st d 1 x y repeat)
    (λ st, eval_and_gate st d 0 x 0 y 0 (λ S, resize_regs (P:=Evaluator) S d 1)).
Proof.
  intros Hx Hy Sg Sp Se prng T gs Sp' u HM Hp. unfold secret_and in Hp.
  change (default_length <? 1) with false in Hp. cbv iota in Hp.
  apply bind_Ok_inv in Hp as (Sp1 & Hp1 & Hp). cbn [fst snd] in Hp1, Hp.
  change (seqZ 0 1) with [0] in Hp. cbn [foldM] in Hp.
  replace (if repeat then 0 else 0) with 0 in Hp by by destruct repeat.
  apply bind_Ok_inv in Hp as ([Sp2 u2] & Hp & [= <- <-]).
  destruct (resize_mem _ _ _ _ _ _ HM Hp1) as (Sg1 & Se1 & Eg & Ee & HM1).
  destruct (yao_gate_sim rnd d 0 x 0 y 0 Hx Hy _ _ _ prng T gs _ _ HM1 Hp)
    as (Sg' & prng' & new & E & Hn & Se' & He & HM').
  exists Sg', prng', new. split_and!; [|done|].
  - by rewrite (garble_gate_resize Sg Sg1).
  - exists Se'. split; [|done]. intros rest. by rewrite (eval_gate_resize Se Se1).
Qed.

(** The sizes of the registers of one instruction add up. *)
Lemma sum_app l1 l2 : foldr Z.add 0 (l1 ++ l2) = foldr Z.add 0 l1 + foldr Z.add 0 l2.
Proof. induction l1; cbn [foldr app]; lia. Qed.

Lemma sum_units n : 0 ≤ n →
  foldr Z.add 0 ((λ j, Z.min default_length (n - j * default_length))
    <$> seqZ 0 (DIV_CEIL n default_length)) = n.
Proof.
  intros Hn.
  assert (∀ m : nat, Z.of_nat m ≤ DIV_CEIL n default_length →
    foldr Z.add 0 ((λ j, Z.min default_length (n - j * default_length))
      <$> seqZ 0 (Z.of_nat m)) = Z.min (64 * Z.of_nat m) n) as Hm.
  { induction m as [|m IH]; intros Hm; [change (seqZ 0 (Z.of_nat 0)) with (@nil Z); cbn [fmap list_fmap foldr]; lia|].
    rewrite Nat2Z.inj_succ, <-Z.add_1_r, seqZ_app by lia.
    rewrite fmap_app, sum_app, IH by lia. change (seqZ (0 + Z.of_nat m) 1) with [0 + Z.of_nat m].
    cbn [fmap list_fmap foldr]. unfold default_length.
    pose proof (DIV_CEIL_lt n (Z.of_nat m) ltac:(lia)). lia. }
  assert (0 ≤ DIV_CEIL n default_length ∧ n ≤ 64 * DIV_CEIL n default_length) as [H0' H1'].
  { unfold DIV_CEIL, default_length. Z.to_euclidean_division_equations. lia. }
  specialize (Hm (Z.to_nat (DIV_CEIL n default_length))).
  rewrite Z2Nat.id in Hm by done. rewrite Hm; lia.
Qed.

(** One instruction. *)
Lemma quad_sim q repeat : separate repeat q → 0 ≤ q.1.1.1 →
  loop_sim q.1.1.1 (λ st, garble_and_one delta repeat st q) (λ st, and_one repeat st q)
    (λ st, eval_and_one repeat st q).
Proof.
  destruct q as [[[n d] x] y]. cbn [fst]. intros (Hx & Hy) Hn. unfold garble_and_one, eval_and_one.
  destruct (Z.eqb_spec n 1) as [->|Hn1].
  - assert (d ≠ y) as Hdy by (destruct repeat; lia).
    pose proof (single_sim (λ w prng, gate_randomize w prng) d x y repeat Hx Hdy) as HL.
    eapply loop_sim_ext; [done|done| |done|exact HL]. intros st. unfold and_one.
    change (seqZ 0 (DIV_CEIL 1 default_length)) with [0]. cbn [foldM].
    replace (if repeat then 0 else 0) with 0 by by destruct repeat.
    change (Z.min default_length (1 - 0 * default_length)) with 1. rewrite !Z.add_0_r.
    by destruct (secret_and _ _ _ _ _ _).
  - eapply loop_sim_ext; [symmetry; apply (sum_units n Hn)|done|done|done|].
    apply (loop_sim_foldM (λ j, Z.min default_length (n - j * default_length))).
    intros j Hj. apply elem_of_seqZ in Hj. pose proof (DIV_CEIL_lt n j Hj) as Hjn.
    eapply loop_sim_ext; [done| |done| |apply unit_sim].
    + intros st. destruct repeat; [|done]. cbv zeta. unfold default_length in *.
      replace j with 0 by lia. rewrite !Z.add_0_r. done.
    + done.
    + unfold default_length. lia.
    + lia.
    + destruct repeat; [|lia]. unfold default_length in *. lia.
Qed.
End yao.
