(* ===== verification/YaoJobs.v ===== *)
(** * Batched AND gates, in one thread and in jobs

    The arguments of one instruction are split into jobs by [get_splits]; the
    garbler and the evaluator split them differently.  However they do, the
    evaluator's keys match the garbler's wires. *)

From S2P Require Import Prelude Xor Block Aes Workers YaoKey YaoGate GcVm YaoWire YaoLocal YaoSim YaoProps.

(** ** The arguments *)

Definition sizes (qs : list (Z * Z * Z * Z)) : Z := foldr Z.add 0 ((λ q, q.1.1.1) <$> qs).

Lemma sizes_app qs1 qs2 : sizes (qs1 ++ qs2) = sizes qs1 + sizes qs2.
Proof. unfold sizes. by rewrite fmap_app, sum_app. Qed.

Lemma quads_cons4 n d x y args : quads (n :: d :: x :: y :: args) = (n, d, x, y) :: quads args.
Proof. done. Qed.

(** Arguments in groups of four. *)
Lemma quads_ind (Q : list Z → Prop) :
  Q [] → (∀ n d x y args, Q args → Q (n :: d :: x :: y :: args)) →
  ∀ args, Z.of_nat (length args) mod 4 = 0 → Q args.
Proof.
  intros H0 HS args. remember (length args) as k eqn:Hk. revert args Hk.
  induction (lt_wf k) as [k _ IH]. intros args -> Hm.
  destruct args as [|n [|d [|x [|y args]]]]; [done|by vm_compute in Hm..|].
  apply HS. apply (IH (length args)); [cbn; lia|done|].
  cbn [length] in Hm. rewrite !Nat2Z.inj_succ in Hm.
  replace (Z.succ (Z.succ (Z.succ (Z.succ (Z.of_nat (length args))))))
    with (Z.of_nat (length args) + 1 * 4) in Hm by lia. by rewrite Z.mod_add in Hm.
Qed.

Lemma quads_length args : Z.of_nat (length args) mod 4 = 0 →
  length args = (4 * length (quads args))%nat.
Proof. revert args. apply quads_ind; cbn; [done|]. intros. lia. Qed.

Lemma quads_drop j args : quads (drop (4 * j) args) = drop j (quads args).
Proof.
  revert args. induction j as [|j IH]; intros args; [done|].
  replace (4 * S j)%nat with (S (S (S (S (4 * j))))) by lia.
  destruct args as [|n [|d [|x [|y args]]]]; [done..|]. apply IH.
Qed.

Lemma quads_take k args : quads (take (4 * k) args) = take k (quads args).
Proof.
  revert args. induction k as [|k IH]; intros args; [by rewrite Nat.mul_0_r, !take_0|].
  replace (4 * S k)%nat with (S (S (S (S (4 * k))))) by lia.
  destruct args as [|n [|d [|x [|y args]]]]; [done..|].
  cbn [take]. rewrite !quads_cons4. cbn [take]. by rewrite IH.
Qed.

Lemma quads_slice j k args :
  quads (slice (4 * Z.of_nat j) (4 * Z.of_nat j + 4 * Z.of_nat k) args) = take k (drop j (quads args)).
Proof.
  unfold slice. replace (Z.to_nat _) with (4 * k)%nat by lia.
  replace (Z.to_nat (4 * Z.of_nat j)) with (4 * j)%nat by lia. by rewrite quads_take, quads_drop.
Qed.

Lemma slice_all args : slice 0 (Z.of_nat (length args)) args = args.
Proof. unfold slice. rewrite Z.sub_0_r, Nat2Z.id, drop_0. by rewrite firstn_all. Qed.

Lemma check_loop pre args t : Z.of_nat (length args) mod 4 = 0 → (length pre mod 4 = 0)%nat →
  foldM (λ total i, x ← vget (pre ++ args) (4 * i); Ok (total + x)) t
    (seqZ (Z.of_nat (length pre) / 4) (Z.of_nat (length args) / 4)) = Ok (t + sizes (quads args)).
Proof.
  intros Hm. revert pre t. pattern args. revert args Hm. apply quads_ind.
  - intros pre t _. cbn. by rewrite Z.add_0_r.
  - intros n d x y args IH pre t Hp.
    assert (∃ p, length pre = (4 * p)%nat) as [p Ep].
    { exists (length pre / 4)%nat. pose proof (Nat.div_mod_eq (length pre) 4). lia. }
    replace (Z.of_nat (length pre) / 4) with (Z.of_nat p)
      by (rewrite Ep, Nat2Z.inj_mul, Z.mul_comm; symmetry; by apply Z.div_mul).
    replace (Z.of_nat (length (n :: d :: x :: y :: args)) / 4)
      with (Z.succ (Z.of_nat (length args) / 4)).
    2: { cbn [length]. rewrite !Nat2Z.inj_succ.
         replace (Z.succ (Z.succ (Z.succ (Z.succ (Z.of_nat (length args))))))
           with (Z.of_nat (length args) + 1 * 4) by lia. rewrite Z.div_add by lia. lia. }
    pose proof (Z.div_pos (Z.of_nat (length args)) 4 ltac:(lia) ltac:(lia)).
    rewrite seqZ_cons by lia. cbn [foldM]. rewrite Z.pred_succ.
    rewrite (vget_Ok _ (4 * Z.of_nat p) n).
    2: lia.
    2: { replace (Z.to_nat (4 * Z.of_nat p)) with (length pre) by lia. by apply list_lookup_middle. }
    rewrite !bind_ok. specialize (IH (pre ++ [n; d; x; y]) (t + n)).
    rewrite <-app_assoc in IH. cbn [app] in IH. rewrite length_app in IH. cbn [length] in IH.
    replace (Z.of_nat (length pre + 4) / 4) with (Z.succ (Z.of_nat p)) in IH.
    2: { rewrite Ep. replace (Z.of_nat (4 * p + 4)) with (Z.succ (Z.of_nat p) * 4) by lia.
         symmetry. by apply Z.div_mul. }
    rewrite IH; [unfold sizes; cbn [quads fmap list_fmap foldr fst]; f_equal; lia|].
    rewrite Ep. replace (4 * p + 4)%nat with ((p + 1) * 4)%nat by lia. apply Nat.Div0.mod_mul.
Qed.

Lemma check_args_sizes args t : check_args args 4 = Ok t →
  Z.of_nat (length args) mod 4 = 0 ∧ t = sizes (quads args).
Proof.
  unfold check_args. destruct (Z.eqb_spec (Z.of_nat (length args) mod 4) 0) as [E|]; [|done].
  cbn [negb]. pose proof (check_loop [] args 0 E eq_refl) as HL. cbn [app length] in HL.
  change (Z.of_nat 0 / 4) with 0 in HL. rewrite HL. by intros [= <-].
Qed.

(** ** [get_splits] *)

(** The jobs take consecutive groups of arguments and nothing else. *)
Fixpoint covers (start : Z) (qs : list (Z * Z * Z * Z)) (splits : list (Z * Z)) : Prop :=
  match splits with
  | [] => qs = []
  | (i_gate, stop) :: splits =>
      ∃ k, (0 < k ≤ length qs)%nat ∧ stop = start + 4 * Z.of_nat k ∧
        i_gate = sizes (take k qs) ∧ covers stop (drop k qs) splits
  end.

Lemma splits_loop_covers m start pend qs : (qs = [] → pend = []) →
  covers start (pend ++ qs)
    (splits_loop m (sizes pend) (start + 4 * Z.of_nat (length pend)) qs).
Proof.
  revert start pend. induction qs as [|[[[n d] x] y] qs IH]; intros start pend Hp.
  { by rewrite (Hp eq_refl). }
  cbn [splits_loop]. set (q := (n, d, x, y)).
  assert (sizes (pend ++ [q]) = sizes pend + n) as Es
    by (rewrite sizes_app; unfold sizes; cbn; lia).
  destruct ((m <=? sizes pend + n) || _) eqn:Eb.
  - cbn [covers]. exists (length pend + 1)%nat.
    rewrite length_app. cbn [length]. split_and!; [lia|lia|lia|..].
    + replace (take (length pend + 1) (pend ++ q :: qs)) with (pend ++ [q]); [done|].
      rewrite firstn_app_2. done.
    + replace (drop (length pend + 1) (pend ++ q :: qs)) with qs
        by by rewrite drop_app_add.
      pose proof (IH (start + 4 * Z.of_nat (length pend) + 4) [] (λ _, eq_refl)) as Hc.
      cbn [app length] in Hc. by rewrite Z.add_0_r in Hc.
  - apply orb_false_iff in Eb as [_ Eb].
    specialize (IH start (pend ++ [q])). rewrite <-app_assoc, Es, length_app in IH.
    cbn [app length] in IH.
    replace (start + 4 * Z.of_nat (length pend + 1))
      with (start + 4 * Z.of_nat (length pend) + 4) in IH by lia.
    apply IH. by intros ->.
Qed.

Lemma get_splits_covers args threshold total workers :
  covers 0 (quads args) (get_splits args threshold total workers).
Proof. apply (splits_loop_covers _ 0 []). done. Qed.

Lemma sizes_pos qs : Forall (λ q, 0 < q.1.1.1) qs → Z.of_nat (length qs) ≤ sizes qs.
Proof. unfold sizes. induction 1; cbn [length fmap list_fmap foldr]; lia. Qed.

(** All jobs but the last have at least [m] gates. *)
Lemma splits_loop_length m i_gate pos qs : 0 < m → 0 ≤ i_gate → qs ≠ [] →
  Forall (λ q, 0 < q.1.1.1) qs →
  (Z.of_nat (length (splits_loop m i_gate pos qs)) - 1) * m < i_gate + sizes qs.
Proof.
  intros Hm. revert i_gate pos. induction qs as [|[[[n d] x] y] qs IH]; [done|].
  intros i_gate pos Hi _ [Hn Hq]%Forall_cons. cbn [splits_loop fst] in *.
  unfold sizes. cbn [fmap list_fmap foldr fst]. fold (sizes qs).
  destruct (Z.leb_spec m (i_gate + n)) as [Hle|Hlt]; cbn [orb].
  - cbn [length]. destruct qs as [|q qs]; [cbn; lia|].
    specialize (IH 0 (pos + 4) ltac:(lia) ltac:(done) Hq). lia.
  - destruct qs as [|q qs]; [cbn; lia|].
    specialize (IH (i_gate + n) (pos + 4) ltac:(lia) ltac:(done) Hq). lia.
Qed.

Lemma get_splits_length args threshold workers : 0 < workers → quads args ≠ [] →
  Forall (λ q, 0 < q.1.1.1) (quads args) →
  Z.of_nat (length (get_splits args threshold (sizes (quads args)) workers)) ≤ workers.
Proof.
  intros Hw Hne Hq. unfold get_splits. set (t := sizes (quads args)).
  pose proof (sizes_pos _ Hq) as Ht. fold t in Ht.
  assert (0 < t) by (destruct (quads args); [done|cbn [length] in Ht; lia]).
  set (m := max_gates_per_thread threshold t workers).
  assert (t ≤ workers * m ∧ 0 < m) as [Hm Hm0].
  { unfold m, max_gates_per_thread.
    assert (t ≤ workers * Z.quot (t + workers - 1) workers ∧ 0 < Z.quot (t + workers - 1) workers).
    { rewrite Z.quot_div_nonneg by lia.
      pose proof (Z.div_mod (t + workers - 1) workers ltac:(lia)).
      pose proof (Z.mod_pos_bound (t + workers - 1) workers ltac:(lia)).
      assert (1 ≤ (t + workers - 1) / workers) by (apply Z.div_le_lower_bound; lia). lia. }
    nia. }
  pose proof (splits_loop_length m 0 0 (quads args) Hm0 ltac:(lia) Hne Hq) as HL.
  fold t in HL. nia.
Qed.

(** ** The evaluator's loop uses exactly its gates *)
Section frame.
Context `{GateScheme}.

(** [f] takes [n] gates off the front and does not look further. *)
Definition eval_frame (n : Z) (f : EvalLoop → outcome EvalLoop) : Prop :=
  ∀ S T gs st', f (mkEL S T gs) = Ok st' →
  ∃ used, gs = used ++ el_gates st' ∧ Z.of_nat (length used) = n ∧ el_gate_id st' = T + n ∧
    ∀ rest, f (mkEL S T (used ++ rest)) = Ok (mkEL (el_S st') (T + n) rest).

Lemma eval_frame_foldM {I} (w : I → Z) f (l : list I) :
  (∀ i, i ∈ l → eval_frame (w i) (λ st, f st i)) →
  eval_frame (foldr Z.add 0 (w <$> l)) (λ st, foldM f st l).
Proof.
  induction l as [|i l IH]; intros HF S T gs st' HE; cbn [foldM] in *.
  - injection HE as <-. exists []. cbn. rewrite Z.add_0_r. done.
  - apply bind_Ok_inv in HE as ([S1 T1 gs1] & E1 & E2).
    destruct (HF i ltac:(set_solver) _ _ _ _ E1) as (u1 & -> & Hl1 & Ht1 & Hr1).
    cbn [el_gates el_gate_id el_S] in *. subst T1.
    destruct (IH (λ j Hj, HF j ltac:(set_solver)) _ _ _ _ E2) as (u2 & -> & Hl2 & Ht2 & Hr2).
    exists (u1 ++ u2). cbn [fmap list_fmap foldr]. rewrite Z.add_assoc, length_app.
    split_and!; [by rewrite app_assoc|lia|done|].
    intros rest. by rewrite <-app_assoc, Hr1, bind_ok, Hr2.
Qed.

Lemma eval_frame_resize n d w f : eval_frame n f →
  eval_frame n (λ st, S ← resize_regs (P:=Evaluator) (el_S st) d w;
                  f (mkEL S (el_gate_id st) (el_gates st))).
Proof.
  intros HF S T gs st' HE. cbn [el_S el_gate_id el_gates] in *.
  apply bind_Ok_inv in HE as (S1 & E1 & HE).
  destruct (HF _ _ _ _ HE) as (u & Hu & Hl & Ht & Hr). exists u. split_and!; [done..|].
  intros rest. by rewrite E1, bind_ok.
Qed.

Lemma eval_frame_gate d di x xi y yi r : eval_frame 1 (λ st, eval_and_gate st d di x xi y yi r).
Proof.
  intros S T gs st' HE. unfold eval_and_gate in *. cbn [el_S el_gate_id el_gates] in *.
  bind_inv HE. bind_inv HE. bind_inv HE. destruct gs as [|x1 gs]; [done|].
  bind_inv HE. bind_inv HE. bind_inv HE. bind_inv HE. injection HE as <-.
  exists [x1]. split_and!; [done..|]. intros rest. cbn [app el_S].
  rewrite E, bind_ok, E0, bind_ok, E1, bind_ok, E2, bind_ok, E3, bind_ok, E4, bind_ok, E5. done.
Qed.

Lemma eval_frame_weight n n' f : n = n' → eval_frame n' f → eval_frame n f.
Proof. by intros ->. Qed.

Lemma eval_frame_quad repeat q : 0 ≤ q.1.1.1 →
  eval_frame q.1.1.1 (λ st, eval_and_one repeat st q).
Proof.
  destruct q as [[[n d] x] y]. cbn [fst]. intros Hn. unfold eval_and_one.
  destruct (Z.eqb_spec n 1) as [->|]; [apply eval_frame_gate|].
  eapply eval_frame_weight; [symmetry; by apply (sum_units n)|].
  apply (eval_frame_foldM (λ j, Z.min default_length (n - j * default_length))).
  intros j Hj. apply elem_of_seqZ, DIV_CEIL_lt in Hj. cbv zeta. unfold default_length in *.
  apply (eval_frame_resize _ _ _
    (λ st, foldM (λ st k, eval_and_gate st (d + j) k (x + j) k (y + (if repeat then 0 else j))
                            (if repeat then 0 else k) (λ S, Ok S)) st _)).
  eapply eval_frame_weight; [|apply (eval_frame_foldM (λ _, 1))].
  - rewrite sum_ones, length_seqZ. lia.
  - intros k _. apply eval_frame_gate.
Qed.

Lemma eval_frame_quads repeat qs : Forall (λ q, 0 ≤ q.1.1.1) qs →
  eval_frame (sizes qs) (λ st, foldM (eval_and_one repeat) st qs).
Proof.
  intros Hq. apply (eval_frame_foldM (λ q, q.1.1.1)). intros q Hi. apply eval_frame_quad.
  by eapply Forall_forall in Hq.
Qed.

(** A run over all gates is a run over the first group and one over the rest. *)
Lemma eval_split repeat qs k S T gs S' T' : Forall (λ q, 0 ≤ q.1.1.1) qs →
  (∀ rest, foldM (eval_and_one repeat) (mkEL S T (gs ++ rest)) qs = Ok (mkEL S' T' rest)) →
  ∃ gs1 gs2 S1, gs = gs1 ++ gs2 ∧ Z.of_nat (length gs1) = sizes (take k qs) ∧
    (∀ rest, foldM (eval_and_one repeat) (mkEL S T (gs1 ++ rest)) (take k qs)
       = Ok (mkEL S1 (T + sizes (take k qs)) rest)) ∧
    (∀ rest, foldM (eval_and_one repeat) (mkEL S1 (T + sizes (take k qs)) (gs2 ++ rest)) (drop k qs)
       = Ok (mkEL S' T' rest)).
Proof.
  intros Hq HR. pose proof (HR []) as H0. rewrite <-(take_drop k qs), foldM_app in H0 at 1.
  apply bind_Ok_inv in H0 as (st1 & E1 & _).
  destruct (eval_frame_quads repeat (take k qs) ltac:(by apply Forall_take) _ _ _ _ E1)
    as (gs1 & Hu & Hl & Ht & Hr). rewrite app_nil_r in Hu.
  exists gs1, (el_gates st1), (el_S st1). split_and!; [done..|].
  intros rest. specialize (HR rest). rewrite <-(take_drop k qs), foldM_app in HR at 1.
  rewrite Hu, <-app_assoc, Hr, bind_ok in HR. done.
Qed.
End frame.

(** ** The garbler's jobs, the evaluator's jobs *)
Section jobs.
Context {P : Type} `{Prng P} `{GateScheme} `{!GateLaws}.
Context (delta : Key) (delta_odd : Z.odd delta = true).
#[local] Abbreviation Mem := (YaoSim.Mem delta).
#[local] Abbreviation sim := (YaoSim.sim (P:=P) delta).

(** What one instruction may look like: positive sizes, and results apart from
    the operands. *)
Definition quad_ok (repeat : bool) (q : Z * Z * Z * Z) : Prop :=
  separate repeat q ∧ 0 < q.1.1.1.

Lemma quads_sim qs repeat : Forall (quad_ok repeat) qs →
  loop_sim (P:=P) delta (sizes qs) (λ st, foldM (garble_and_one delta repeat) st qs)
    (λ st, foldM (and_one repeat) st qs) (λ st, foldM (eval_and_one repeat) st qs).
Proof.
  intros Hq. apply (loop_sim_foldM delta delta_odd (λ q, q.1.1.1)). intros q Hi.
  destruct (proj1 (Forall_forall _ _) Hq q Hi). apply (quad_sim delta delta_odd); [done|lia].
Qed.

Lemma quad_ok_nonneg repeat qs : Forall (quad_ok repeat) qs → Forall (λ q, 0 ≤ q.1.1.1) qs.
Proof. intros Hq. eapply Forall_impl; [exact Hq|]. intros q []. lia. Qed.

Lemma gate_id_add log counter thread n :
  gate_id log (counter + n) thread = gate_id log counter thread + n.
Proof. unfold gate_id. lia. Qed.

Lemma garble_units repeat S (prng : P) T gs qs l : foldM (garble_and_one delta repeat) (mkGL S prng T gs) qs = Ok l →
  run_units (garble_job delta repeat) S (prng, T, gs) qs = Ok (gl_S l, (gl_prng l, gl_counter l, gl_gates l)).
Proof.
  unfold run_units. revert S prng T gs. induction qs as [|q qs IH]; intros S prng T gs; cbn [foldM].
  { by intros [= <-]. }
  intros ([S1 prng1 T1 gs1] & E1 & E)%bind_Ok_inv. unfold garble_job at 2. cbn [fst snd].
  rewrite E1, !bind_ok. by apply IH.
Qed.

Lemma eval_units repeat S T gs qs l : foldM (eval_and_one repeat) (mkEL S T gs) qs = Ok l →
  run_units (eval_job repeat) S (T, gs) qs = Ok (el_S l, (el_gate_id l, el_gates l)).
Proof.
  unfold run_units. revert S T gs. induction qs as [|q qs IH]; intros S T gs; cbn [foldM].
  { by intros [= <-]. }
  intros ([S1 T1 gs1] & E1 & E)%bind_Ok_inv. unfold eval_job at 2. cbn [fst snd].
  rewrite E1, !bind_ok. by apply IH.
Qed.

(** The jobs of the garbler, one after the other. *)
Lemma garble_jobs_sim args repeat sp : ∀ j Sg Sp Se (g : Garbler P) it ts0 Sp' u,
  covers (4 * Z.of_nat j) (drop j (quads args)) sp → Forall (quad_ok repeat) (quads args) →
  Mem Sg Sp Se → g_ok delta g → 0 ≤ it → it + Z.of_nat (length sp) ≤ g_workers g →
  foldM (and_one repeat) (Sp, tt) (drop j (quads args)) = Ok (Sp', u) →
  ∃ ts stop' it' Sg' ts',
    foldM (garble_dispatch args) (g, ts0, 4 * Z.of_nat j, it) sp
      = Ok (g_set_counter g (g_counter g + sizes (drop j (quads args))), ts0 ++ ts, stop', it') ∧
    mjoin (t_todo <$> ts) = drop j (quads args) ∧ length ts' = length sp ∧
    run_in_order (garble_job delta repeat) Sg ts = Ok (Sg', ts') ∧
    Z.of_nat (length (mjoin (t_local <$> ts').*2)) = sizes (drop j (quads args)) ∧
    ∃ Se', (∀ rest, foldM (eval_and_one repeat) (mkEL Se (g_gate_id g) (mjoin (t_local <$> ts').*2 ++ rest))
                      (drop j (quads args))
              = Ok (mkEL Se' (g_gate_id g + sizes (drop j (quads args))) rest)) ∧
      Mem Sg' Sp' Se'.
Proof.
  induction sp as [|[i_gate stop] sp IH]; intros j Sg Sp Se g it ts0 Sp' u Hc Hq HM Hg Hit Hl HE.
  { cbn [covers] in Hc. rewrite Hc in *. injection HE as <- <-. change (sizes []) with 0. rewrite !Z.add_0_r.
    exists [], (4 * Z.of_nat j), it, Sg, []. rewrite app_nil_r. split_and!; [by destruct g|done..|]. by exists Se. }
  destruct Hc as (k & Hk & -> & -> & Hc). rewrite drop_drop in Hc. set (qs := drop j (quads args)) in *.
  rewrite <-(take_drop k qs), foldM_app in HE. apply bind_Ok_inv in HE as ([Sp1 []] & E1 & E2).
  unfold qs in E2. rewrite drop_drop in E2. cbn [length] in Hl.
  destruct (lookup_in_range (g_job_prngs g) it) as [prng Hprng]; [unfold g_workers in Hl; lia|].
  destruct (quads_sim (take k qs) repeat ltac:(by apply Forall_take, Forall_drop) Sg Sp Se prng (g_gate_id g) []
    _ _ HM E1) as (Sg1 & prng1 & new & Eg & Hn & Se1 & He & HM1).
  set (g1 := g_set_counter g (g_counter g + sizes (take k qs))).
  set (job := mkTask (prng, g_gate_id g, @nil gate) (take k qs)).
  replace (4 * Z.of_nat j + 4 * Z.of_nat k) with (4 * Z.of_nat (j + k)) in Hc by lia.
  destruct (IH (j + k)%nat Sg1 Sp1 Se1 g1 (it + 1) (ts0 ++ [job]) Sp' u Hc Hq HM1 Hg ltac:(lia)
    ltac:(unfold g_workers, g1 in *; cbn; lia) E2)
    as (ts & stop' & it' & Sg' & ts' & ED & Ej & Ht & EO & Hgs & Se' & He' & HM').
  assert (g_gate_id g1 = g_gate_id g + sizes (take k qs)) as Eid by apply gate_id_add.
  assert (drop (j + k) (quads args) = drop k qs) as Edr by (unfold qs; by rewrite drop_drop).
  assert (sizes qs = sizes (take k qs) + sizes (drop k qs)) as Esz by by rewrite <-sizes_app, take_drop.
  rewrite Edr in *.
  exists (job :: ts), stop', it', Sg', (mkTask (prng1, g_gate_id g + sizes (take k qs), new) [] :: ts'). split_and!.
  - cbn [foldM]. unfold garble_dispatch at 2. cbv beta iota. rewrite (vget_Ok _ it prng) by done.
    rewrite !bind_ok, quads_slice. fold qs job g1.
    replace (4 * Z.of_nat j + 4 * Z.of_nat k) with (4 * Z.of_nat (j + k)) by lia.
    rewrite ED, <-app_assoc, Esz, Z.add_assoc. done.
  - change (take k qs ++ mjoin (t_todo <$> ts) = qs). by rewrite Ej, take_drop.
  - cbn [length]. lia.
  - exact (run_in_order_cons _ _ _ _ _ _ _ _ _ (garble_units _ _ _ _ _ _ _ Eg) EO).
  - change (Z.of_nat (length (new ++ mjoin (t_local <$> ts').*2)) = sizes qs).
    rewrite length_app, Nat2Z.inj_add, Hn, Esz. f_equal. exact Hgs.
  - exists Se'. split; [|done]. intros rest.
    change (mjoin (t_local <$> _ :: ts').*2) with (new ++ mjoin (t_local <$> ts').*2).
    rewrite <-(take_drop k qs) at 1. by rewrite foldM_app, <-app_assoc, He, bind_ok, <-Eid, He', Eid, Esz, Z.add_assoc.
Qed.

Lemma eval_jobs_ok args repeat sp : ∀ j Se e it ts0 gs gr Se' T',
  covers (4 * Z.of_nat j) (drop j (quads args)) sp → Forall (quad_ok repeat) (quads args) →
  0 ≤ it → it + Z.of_nat (length sp) ≤ e_workers e → e_gates e = gs ++ gr →
  Z.of_nat (length gs) = sizes (drop j (quads args)) →
  (∀ rest, foldM (eval_and_one repeat) (mkEL Se (e_gate_id e) (gs ++ rest)) (drop j (quads args))
     = Ok (mkEL Se' T' rest)) →
  ∃ ts stop' it' ts', foldM (eval_dispatch args) (e, ts0, 4 * Z.of_nat j, it) sp
    = Ok (e_after e (length gs) gr (e_output_masks e), ts0 ++ ts, stop', it') ∧
    mjoin (t_todo <$> ts) = drop j (quads args) ∧ run_in_order (eval_job repeat) Se ts = Ok (Se', ts').
Proof.
  induction sp as [|[i_gate stop] sp IH]; intros j Se e it ts0 gs gr Se' T' Hc Hq Hit Hl Hgs Hn HR.
  { cbn [covers] in Hc. rewrite Hc in *. cbn in Hn. specialize (HR []). injection HR as -> _ _.
    exists [], (4 * Z.of_nat j), it, []. rewrite app_nil_r. destruct gs; [|done]. cbn [app] in Hgs. subst gr.
    by rewrite e_after_refl. }
  destruct Hc as (k & Hk & -> & -> & Hc). rewrite drop_drop in Hc. set (qs := drop j (quads args)) in *.
  assert (Forall (λ q, 0 ≤ q.1.1.1) qs) as Hqs by (apply Forall_drop; by eapply quad_ok_nonneg).
  destruct (eval_split repeat qs k Se (e_gate_id e) gs Se' T' Hqs HR) as (gs1 & gs2 & S1 & -> & Hl1 & He1 & He2).
  cbn [length] in Hl. cbn [foldM]. unfold eval_dispatch at 2, consume. cbv beta iota.
  rewrite Hgs, !length_app. rewrite (proj2 (Z.ltb_ge _ _)) by lia. rewrite bind_ok. cbv beta iota.
  rewrite (proj2 (Z.leb_gt _ _)) by (cbn; lia). rewrite bind_ok, quads_slice. fold qs.
  rewrite <-Hl1, Nat2Z.id, <-app_assoc, take_app_length, drop_app_length.
  change (e_gate_id (e_set_gates e (gs2 ++ gr))) with (e_gate_id e).
  set (job := mkTask (e_gate_id e, gs1) (take k qs)). set (e1 := e_set_counter _ _).
  replace (4 * Z.of_nat j + 4 * Z.of_nat k) with (4 * Z.of_nat (j + k)) in * by lia.
  destruct (IH (j + k)%nat S1 e1 (it + 1) (ts0 ++ [job]) gs2 gr Se' T' Hc Hq ltac:(lia) ltac:(cbn; lia) eq_refl)
    as (ts & stop' & it' & ts' & ED & Ej & EO).
  - rewrite length_app, <-(take_drop k qs), sizes_app in Hn. unfold qs in Hn. rewrite drop_drop in Hn.
    fold qs in Hn. lia.
  - intros rest. rewrite <-drop_drop. fold qs. rewrite <-(He2 rest). do 2 f_equal.
    unfold e_gate_id, e1. cbn. rewrite gate_id_add. lia.
  - exists (job :: ts), stop', it', (mkTask (e_gate_id e + sizes (take k qs), []) [] :: ts'). split_and!.
    + rewrite ED, <-app_assoc. unfold e_after, e1. cbn [e_counter e_set_counter e_set_gates e_output_masks
        e_thread_num e_log_n_threads e_workers].
      by replace (e_counter e + Z.of_nat (length gs1) + Z.of_nat (length gs2))
        with (e_counter e + Z.of_nat (length gs1 + length gs2)) by lia.
    + change (take k qs ++ mjoin (t_todo <$> ts) = qs). rewrite Ej, <-drop_drop. apply take_drop.
    + specialize (He1 []). rewrite app_nil_r in He1.
      exact (run_in_order_cons _ _ _ _ _ _ _ _ _ (eval_units _ _ _ _ _ _ He1) EO).
Qed.

(** Batches that are split into jobs at all consist of independent instructions. *)
Definition batch_ok (repeat : bool) (args : list Z) : Prop :=
  Forall (quad_ok repeat) (quads args) ∧
  (10 ≤ sizes (quads args) → independent gate_footprint (quads args) = true).

Lemma batch_race_free repeat args {L} (ts : list (Task L (Z * Z * Z * Z))) :
  batch_ok repeat args → 10 ≤ sizes (quads args) → mjoin (t_todo <$> ts) = quads args →
  race_free gate_footprint (t_todo <$> ts) = true.
Proof. intros [_ Hi] Ht Ej. apply independent_race_free. rewrite Ej. by apply Hi. Qed.

Lemma eval_footprint_reads repeat q i r : i ∈ fp_reads (eval_footprint repeat q) → within i r = true →
  existsb (λ j, within j r) (fp_reads (gate_footprint q)) = true.
Proof.
  destruct q as [[[n d] x] y]. cbn [eval_footprint gate_footprint fp_reads]. intros Hi Hr. apply existsb_exists.
  apply elem_of_cons in Hi as [->|[->|[]%elem_of_nil]%elem_of_cons].
  - exists (x, DIV_CEIL n default_length). split; [by left|done].
  - exists (y, DIV_CEIL n default_length). split; [by right; left|]. revert Hr. unfold within. destruct repeat; cbn; lia.
Qed.

Lemma eval_conflict repeat p q : conflict (gate_footprint p) (gate_footprint q) = false →
  conflict (eval_footprint repeat p) (eval_footprint repeat q) = false.
Proof.
  apply conflict_mono; [by destruct p as [[[]]]|by destruct q as [[[]]]|..]; intros i r; apply eval_footprint_reads.
Qed.

(** The evaluator accesses less than the garbler. *)
Lemma eval_independent repeat qs : independent gate_footprint qs = true →
  independent (eval_footprint repeat) qs = true.
Proof.
  induction qs as [|q qs IH]; [done|]. cbn [independent]. rewrite !andb_true_iff, !forallb_forall.
  intros [Hq1 Hq2]. split; [|by apply IH]. intros p Hp. specialize (Hq1 p Hp).
  apply negb_true_iff. apply negb_true_iff in Hq1. by apply eval_conflict.
Qed.

(** The garbler on a batch of at least ten gates, in one thread or in jobs. *)
Lemma garble_batch {sched : Scheduler} args repeat t Sg Sp Se (g : Garbler P) Sp' u :
  check_args args 4 = Ok t → 10 ≤ t → batch_ok repeat args → Mem Sg Sp Se →
  g_ok delta g → foldM (and_one repeat) (Sp, tt) (quads args) = Ok (Sp', u) →
  ∃ Sg' g' gs, garble_and_multithread repeat (Sg, g) args = Ok (Sg', g') ∧ g_after g g' gs [] ∧
    Z.of_nat (length gs) = t ∧
    ∃ Se' T', (∀ rest, foldM (eval_and_one repeat) (mkEL Se (g_gate_id g) (gs ++ rest)) (quads args)
                 = Ok (mkEL Se' T' rest)) ∧ Mem Sg' Sp' Se' ∧ T' = g_gate_id g + t.
Proof.
  intros Hc Ht Hb HM Hg HE. destruct (check_args_sizes args t Hc) as [Hm Et]. destruct Hb as [Hq Hi] eqn:HbE.
  unfold garble_and_multithread. rewrite Hc, bind_ok. cbn [fst snd].
  destruct (Z.ltb_spec t (g_threshold g)) as [_|Hth].
  - unfold garble_and_singlethread. rewrite Hc, bind_ok. rewrite (proj2 (Z.ltb_ge t 10)) by done.
    cbn [fst snd]. unfold garble_and. rewrite slice_all.
    destruct (quads_sim (quads args) repeat Hq Sg Sp Se (g_prng g) (g_gate_id g) [] _ _ HM HE)
      as (Sg' & prng' & new & E & Hn & Se' & He & HM').
    rewrite (proj1 Hg), E, bind_ok. cbn [gl_S gl_gates gl_prng gl_counter app].
    eexists _, _, new. split; [done|]. split; [|split; [lia|]].
    { constructor; unfold g_gate_id; cbn; rewrite ?app_nil_r; try done. lia. }
    exists Se', (g_gate_id g + sizes (quads args)). split_and!; [done|done|lia].
  - set (sp := get_splits args (g_threshold g) t (g_workers g)).
    assert (Z.of_nat (length sp) ≤ g_workers g) as Hs.
    { unfold sp. rewrite Et. apply get_splits_length.
      - unfold g_workers. destruct Hg as (_ & _ & ?). lia.
      - intros Hn. rewrite Hn in Et. cbn in Et. lia.
      - eapply Forall_impl; [exact Hq|]. by intros q []. }
    destruct (garble_jobs_sim args repeat sp 0 Sg Sp Se g 0 [] Sp' u (get_splits_covers _ _ _ _) Hq HM Hg
      ltac:(lia) ltac:(lia) HE) as (ts & stop' & it' & Sg' & ts' & ED & Ej & Hl & EO & Hn & Se' & He & HM').
    change (4 * Z.of_nat 0) with 0 in ED. rewrite drop_0 in *. rewrite ED, bind_ok, (proj1 Hg). cbn [app].
    rewrite (run_workers_Ok _ _ (garble_job_local delta repeat) _ _ _ _
      (batch_race_free repeat args ts (conj Hq Hi) ltac:(lia) Ej) EO), bind_ok.
    eexists _, _, (mjoin (t_local <$> ts').*2). split; [done|]. split_and!; [|lia|].
    { constructor; cbn; rewrite ?app_nil_r; try done; [|lia].
      rewrite length_app, !length_fmap, length_drop. unfold g_workers in Hs. lia. }
    exists Se', (g_gate_id g + sizes (quads args)). split_and!; [done|done|lia].
Qed.

(** The evaluator on the gates of such a batch. *)
Lemma eval_batch {sched : Scheduler} args repeat t Se e gs gr Se' T' :
  check_args args 4 = Ok t → 10 ≤ t → batch_ok repeat args →
  0 < e_workers e → e_gates e = gs ++ gr → Z.of_nat (length gs) = t → T' = e_gate_id e + t →
  (∀ rest, foldM (eval_and_one repeat) (mkEL Se (e_gate_id e) (gs ++ rest)) (quads args)
     = Ok (mkEL Se' T' rest)) →
  eval_and_multithread repeat (Se, e) args
    = Ok (Se', e_after e (length gs) gr (e_output_masks e)).
Proof.
  intros Hc Ht [Hq Hi] Hw Hgs Hn -> HR. destruct (check_args_sizes args t Hc) as [Hm Et].
  unfold eval_and_multithread. rewrite Hc, bind_ok. cbn [fst snd].
  destruct (Z.ltb_spec t eval_threshold) as [_|_].
  - unfold eval_and_singlethread, consume. rewrite (proj2 (Z.ltb_ge t 10)) by done.
    cbn [fst snd]. rewrite Hgs, length_app. rewrite (proj2 (Z.ltb_ge _ _)) by lia. rewrite bind_ok.
    rewrite <-Hn, Nat2Z.id, take_app_length, drop_app_length.
    unfold eval_and. rewrite slice_all. specialize (HR []). rewrite app_nil_r in HR.
    change (e_gate_id (e_set_gates e gr)) with (e_gate_id e).
    rewrite HR, bind_ok. cbn [el_S el_gate_id]. unfold e_after, e_set_counter, e_set_gates.
    cbn [e_counter e_output_masks e_thread_num e_log_n_threads e_workers e_gates].
    do 3 f_equal. rewrite <-Hn. lia.
  - destruct (eval_jobs_ok args repeat (get_splits args eval_threshold t (e_workers e)) 0 Se e 0 [] gs gr
      Se' (e_gate_id e + t) (get_splits_covers _ _ _ _) Hq ltac:(lia)) as (ts & stop' & it' & ts' & ED & Ej & EO);
      [|done|by rewrite drop_0, <-Et|done|].
    + rewrite Et. apply get_splits_length; [done| |].
      * intros Hnil. rewrite Hnil in Et. cbn in Et. lia.
      * eapply Forall_impl; [exact Hq|]. by intros q [].
    + change (4 * Z.of_nat 0) with 0 in ED. rewrite ED, bind_ok. cbn [app].
      rewrite (run_workers_Ok _ _ (eval_job_local repeat) _ _ Se' ts'); [done| |done].
      apply independent_race_free. rewrite Ej. by apply eval_independent, Hi; lia.
Qed.

(** [ands] and [andrs] of the two parties. *)
Lemma ands_sim (Sc Sc' : Scheduler) Sg Sp Se args repeat : Mem Sg Sp Se → batch_ok repeat args →
  sim Mem (λ g, garble_and_multithread (sched:=Sc) repeat (Sg, g) args) (and_ (Sp, tt) args repeat)
    (λ e, eval_and_multithread (sched:=Sc') repeat (Se, e) args).
Proof.
  intros HM Hq b u Hb g Hg. pose proof Hb as Hb'. unfold and_ in Hb'.
  apply bind_Ok_inv in Hb' as (t & Hc & HE).
  destruct (Z.ltb_spec t 10) as [Hlt|Hge].
  - destruct (and__sim delta delta_odd Sg Sp Se args repeat HM
      ltac:(eapply Forall_impl; [exact (proj1 Hq)|by intros q []]) b u Hb g Hg)
      as (a & g' & gs & ms & E & Ha & He).
    exists a, g', gs, ms. split_and!; [|done|].
    + unfold garble_and_multithread, garble_and_singlethread. rewrite Hc, !bind_ok. cbn [fst snd].
      destruct Hg as (_ & Hth & _). rewrite (proj2 (Z.ltb_lt t _)) by lia.
      by rewrite (proj2 (Z.ltb_lt t 10)).
    + intros e gr mr Hs Hgs Hms. destruct (He e gr mr Hs Hgs Hms) as (c & Ec & HR). exists c.
      split; [|done]. unfold eval_and_multithread, eval_and_singlethread, eval_threshold.
      rewrite Hc, !bind_ok. cbn [fst snd]. rewrite (proj2 (Z.ltb_lt t _)) by lia.
      by rewrite (proj2 (Z.ltb_lt t 10)).
  - destruct (garble_batch (sched:=Sc) args repeat t Sg Sp Se g b u Hc Hge Hq HM Hg HE)
      as (Sg' & g' & gs & E & Ha & Hn & Se' & T' & He & HM' & HT).
    exists Sg', g', gs, []. split_and!; [done|done|].
    intros e gr mr (Hcnt & Hth & Hlog & [Hw _]) Hgs Hms. cbn [app] in Hms. subst mr.
    assert (g_gate_id g = e_gate_id e) as Eid
      by (unfold g_gate_id, e_gate_id; congruence).
    rewrite Eid in *. exists Se'. split; [|done].
    by apply (eval_batch args repeat t Se e gs gr Se' T').
Qed.
End jobs.
