(* ===== verification/YaoVm.v ===== *)
(** * Programs of the virtual machine, and the session of the two parties

    The instructions of [GC/instructions.h] that the Yao parties share, and the
    loops of [YaoGarbler::run] and [YaoEvaluator::run] around them: the garbler
    sends its gates when a value is revealed and waits for it, the evaluator
    works on what it got until the next value is revealed. *)

From S2P Require Import Prelude Xor Block Aes Workers YaoKey YaoGate GcVm YaoWire YaoLocal YaoSim YaoProps YaoJobs.

Inductive instr :=
  | XORS (args : list Z)
  | XORCB (r0 r1 r2 n : Z)
  | NOTS (r0 r1 n : Z)
  | NOTCB (r0 r1 n : Z)
  | ANDRS (args : list Z)
  | ANDS (args : list Z)
  | ANDRSVEC (args : list Z)
  | ANDM (r0 r1 r2 n : Z)
  | BITDECS (r0 : Z) (regs : list Z)
  | BITCOMS (r0 : Z) (regs : list Z)
  | BITDECC (r0 : Z) (regs : list Z)
  | LDBITS (r0 n x : Z)
  | MOVSB (r0 r1 : Z)
  | TRANS (n : Z) (args : list Z)
  | CONVCBIT2S (r0 r1 n : Z)
  | REVEAL (args : list Z).

(** The operations that [YaoGarbleWire] and [YaoEvalWire] define on their own. *)
Class WireInstrs (W P : Type) := {
  i_ands : bool → Secrets W * P → list Z → outcome (Secrets W * P);
  i_xors : P → Secrets W → list Z → outcome (Secrets W);
  i_convcbit2s : P → Secrets W → Clears → Z → Z → Z → outcome (Secrets W);
}.

(** The schedule of the jobs of an instruction is that of its execution. *)
Section instances.
Context {P : Type} `{Prng P} `{GateScheme} {sched : Scheduler}.

#[export] Instance garble_instrs : WireInstrs Key (Garbler P) := {|
  i_ands := garble_and_multithread;
  i_xors g := yao_xors (g_workers g);
  i_convcbit2s := convcbit2s;
|}.

#[export] Instance eval_instrs : WireInstrs Key Evaluator := {|
  i_ands := eval_and_multithread;
  i_xors e := yao_xors (e_workers e);
  i_convcbit2s _ S _ r0 _ n := eval_convcbit2s S r0 n;
|}.
End instances.

#[export] Instance plain_instrs : WireInstrs bool unit := {|
  i_ands repeat st args := and_ st args repeat;
  i_xors _ S args := xors S args 0 (Z.of_nat (length args));
  i_convcbit2s := convcbit2s;
|}.

Section exec.
Context {W P : Type} `{WireOps W P} `{!WireInstrs W P}.

(** Secret registers, clear registers. *)
Definition Regs : Type := Secrets W * Clears.

Definition on_S (C : Clears) (p : P) (m : outcome (Secrets W)) : outcome (Regs * P) :=
  S ← m; Ok (S, C, p).
Definition on_C (S : Secrets W) (p : P) (m : outcome Clears) : outcome (Regs * P) :=
  C ← m; Ok (S, C, p).

(** One instruction; [REVEAL] is [Processor::reveal]. *)
Definition exec (i : instr) (regs : Regs) (p : P) : outcome (Regs * P) :=
  let '(mem, C) := regs in
  match i with
  | XORS args => on_S C p (i_xors p mem args)
  | XORCB r0 r1 r2 n => on_C mem p (xorc C r0 r1 r2 n)
  | NOTS r0 r1 n => on_S C p (nots p mem r0 r1 n)
  | NOTCB r0 r1 n => on_C mem p (notcb C r0 r1 n)
  | ANDRS args => st ← i_ands true (mem, p) args; Ok (st.1, C, st.2)
  | ANDS args => st ← i_ands false (mem, p) args; Ok (st.1, C, st.2)
  | ANDRSVEC args => st ← andrsvec (mem, p) args; Ok (st.1, C, st.2)
  | ANDM r0 r1 r2 n => on_S C p (andm p mem C r0 r1 r2 n)
  | BITDECS r0 regs => on_S C p (bitdec mem r0 regs)
  | BITCOMS r0 regs => on_S C p (bitcom mem r0 regs)
  | BITDECC r0 regs => on_C mem p (bitdecc C regs r0)
  | LDBITS r0 n x => on_S C p (load_clear p mem r0 n x)
  | MOVSB r0 r1 => on_S C p (src ← vget mem r1; vset mem r0 src)
  | TRANS n args => on_S C p (trans p mem n args)
  | CONVCBIT2S r0 r1 n => on_S C p (i_convcbit2s p mem C r0 r1 n)
  | REVEAL args => st ← reveal mem C p args; Ok (mem, st.1, st.2)
  end.
End exec.
Arguments Regs W : clear implicits.

(** ** Schedules are of no consequence for results *)
Lemma bind_le {A B} (m1 m2 : outcome A) (f : A → outcome B) r :
  (∀ a, m1 = Ok a → m2 = Ok a) → (m1 ≫= f) = Ok r → (m2 ≫= f) = Ok r.
Proof. intros Hm (a & E & Hf)%bind_Ok_inv. by rewrite (Hm a E). Qed.

Lemma bind_Ok_r {A B} (m : outcome A) (f1 f2 : A → outcome B) r :
  (∀ a, f1 a = Ok r → f2 a = Ok r) → (m ≫= f1) = Ok r → (m ≫= f2) = Ok r.
Proof. intros Hf (a & -> & E)%bind_Ok_inv. by apply Hf. Qed.

Lemma yao_xors_same {W P} `{WireOps W P} (S1 S2 : Scheduler) workers (S : Secrets W) args r :
  yao_xors (sched:=S1) workers S args = Ok r → yao_xors (sched:=S2) workers S args = Ok r.
Proof.
  unfold yao_xors. destruct (_ <? _); [done|]. apply bind_Ok_r. intros [jobs start].
  apply bind_Ok_r. intros job. apply bind_le. intros a. by apply run_workers_same, xor_job_local.
Qed.

Record instrs_le {W P} (I1 I2 : WireInstrs W P) : Prop := {
  le_ands repeat st args r : @i_ands _ _ I1 repeat st args = Ok r → @i_ands _ _ I2 repeat st args = Ok r;
  le_xors p S args r : @i_xors _ _ I1 p S args = Ok r → @i_xors _ _ I2 p S args = Ok r;
  le_convcbit2s p S C r0 r1 n r : @i_convcbit2s _ _ I1 p S C r0 r1 n = Ok r →
    @i_convcbit2s _ _ I2 p S C r0 r1 n = Ok r;
}.

Lemma exec_le {W P} `{WireOps W P} (I1 I2 : WireInstrs W P) i regs p r : instrs_le I1 I2 →
  exec (WireInstrs0:=I1) i regs p = Ok r → exec (WireInstrs0:=I2) i regs p = Ok r.
Proof.
  intros [Ha Hx Hc]. destruct regs as [mem C]. destruct i; cbn [exec]; try done; unfold on_S;
    apply bind_le; intros a; [apply Hx|apply Ha|apply Ha|apply Hc].
Qed.

Section schedules.
Context {P : Type} `{Prng P} `{GateScheme} (S1 S2 : Scheduler).

Lemma garble_instrs_le : instrs_le (garble_instrs (P:=P) (sched:=S1)) (garble_instrs (sched:=S2)).
Proof.
  split; [|intros g S args r; apply yao_xors_same|done].
  intros repeat st args r. cbn [i_ands garble_instrs]. unfold garble_and_multithread.
  apply bind_Ok_r. intros total. destruct (_ <? _); [done|]. apply bind_Ok_r. intros [[[g jobs] ?] ?].
  apply bind_le. intros a. by apply run_workers_same, garble_job_local.
Qed.

Lemma eval_instrs_le : instrs_le (eval_instrs (sched:=S1)) (eval_instrs (sched:=S2)).
Proof.
  split; [|intros g S args r; apply yao_xors_same|done].
  intros repeat st args r. cbn [i_ands eval_instrs]. unfold eval_and_multithread.
  apply bind_Ok_r. intros total. destruct (_ <? _); [done|]. apply bind_Ok_r. intros [[[g jobs] ?] ?].
  apply bind_le. intros a. by apply run_workers_same, eval_job_local.
Qed.
End schedules.

(** The registers a [REVEAL] writes, which the evaluator packs and the garbler
    unpacks. *)
Definition revealed_regs (args : list Z) : list Z :=
  mjoin ((λ '(n, r0, _), (λ i, r0 + i) <$> seqZ 0 (DIV_CEIL n N_BITS)) <$> triples args).

Definition pack_regs (C : Clears) (args : list Z) : outcome (list Z) :=
  mapM_out (λ r, x ← vget C r; Ok x) (revealed_regs args).

Fixpoint unpack_regs (C : Clears) (regs : list Z) (buffer : list Z) : outcome Clears :=
  match regs, buffer with
  | [], _ => Ok C
  | r :: regs, x :: buffer => C ← vset C r x; unpack_regs C regs buffer
  | _ :: _, [] => Throw "insufficient data"
  end.

(** ** The jobs of [xors] *)
Section xors_proof.
Context {W P : Type} `{WireOps W P}.

Lemma foldM_prefix {A B} (f : B → A → outcome B) b l b' k : foldM f b l = Ok b' →
  ∃ b1, foldM f b (take k l) = Ok b1 ∧ foldM f b1 (drop k l) = Ok b'.
Proof. rewrite <-(take_drop k l) at 1. rewrite foldM_app. apply bind_Ok_inv. Qed.

Lemma xors_inv (S S' : Secrets W) args start stop : xors S args start stop = Ok S' →
  start mod 4 = 0 ∧ stop mod 4 = 0 ∧ start < stop ≤ Z.of_nat (length args) ∧
  foldM xors_one S (quads (slice start stop args)) = Ok S'.
Proof.
  unfold xors. destruct (Z.eqb_spec (start mod 4) 0); [|done].
  destruct (Z.eqb_spec (stop mod 4) 0); [|done]. destruct (Z.leb_spec stop start); [done|].
  destruct (Z.ltb_spec (Z.of_nat (length args)) stop); [done|]. cbn [negb orb]. done.
Qed.

Lemma xors_task_run args j k : (0 < k)%nat → (4 * (j + k) ≤ length args)%nat →
  xors_task args (4 * Z.of_nat j) (4 * Z.of_nat j + 4 * Z.of_nat k)
    = Ok (mkTask tt (take k (drop j (quads args)))).
Proof.
  intros Hk Hl. unfold xors_task. rewrite quads_slice.
  replace (4 * Z.of_nat j) with (Z.of_nat j * 4) by lia.
  replace (Z.of_nat j * 4 + 4 * Z.of_nat k) with ((Z.of_nat j + Z.of_nat k) * 4) by lia.
  rewrite !Z.mod_mul by done. rewrite (proj2 (Z.leb_gt _ _)) by lia.
  rewrite (proj2 (Z.ltb_ge _ _)) by lia. done.
Qed.

Lemma xors_units (S S' : Secrets W) qs : foldM xors_one S qs = Ok S' → run_units xor_job S tt qs = Ok (S', tt).
Proof.
  unfold run_units. revert S. induction qs as [|q qs IH]; intros S; cbn [foldM]; [by intros [= <-]|].
  intros (S1 & E1 & E)%bind_Ok_inv. unfold xor_job at 2. cbn [fst snd]. rewrite E1, !bind_ok. by apply IH.
Qed.

Lemma run_in_order_app {A L U} (run : U → list A → L → outcome (list A * L)) m ts m1 ts1 us m2 us1 :
  run_in_order run m ts = Ok (m1, ts1) → run_in_order run m1 us = Ok (m2, us1) →
  run_in_order run m (ts ++ us) = Ok (m2, ts1 ++ us1).
Proof.
  revert m ts1. induction ts as [|t ts IH]; intros m ts1; cbn [run_in_order app]; [by intros [= <- <-]|].
  intros ([m3 l3] & E3 & ([m4 ts4] & E4 & [= -> <-])%bind_Ok_inv)%bind_Ok_inv E2.
  rewrite E3, bind_ok. by rewrite (IH _ _ E4 E2).
Qed.

(** The shares of the workers. *)
Lemma xors_jobs args (b m : nat) : ∀ (S S' : Secrets W), (0 < b)%nat → (4 * (b * m) ≤ length args)%nat →
  foldM xors_one S (take (b * m) (quads args)) = Ok S' →
  ∃ ts ts', foldM (xors_dispatch args (Z.of_nat b)) ([], 0) (seqZ 0 (Z.of_nat m))
      = Ok (ts, 4 * Z.of_nat (b * m)) ∧ mjoin (t_todo <$> ts) = take (b * m) (quads args) ∧
    run_in_order xor_job S ts = Ok (S', ts').
Proof.
  induction m as [|m IH]; intros S S' Hb Hl HE.
  { rewrite Nat.mul_0_r, take_0 in *. injection HE as <-. by exists [], []. }
  rewrite Nat.mul_succ_r in Hl.
  replace (b * Datatypes.S m)%nat with (b * m + b)%nat in * by lia.
  rewrite <-(take_drop (b * m) (quads args)) in HE.
  assert (length (take (b * m) (quads args)) ≤ b * m)%nat as Ht by (rewrite length_take; lia).
  destruct (foldM_prefix _ _ _ _ (b * m) HE) as (S1 & E1 & E2).
  rewrite take_drop in E1, E2. rewrite take_take, Nat.min_l in E1 by lia.
  destruct (IH S S1 Hb ltac:(lia) E1) as (ts & ts' & ED & Ej & EO).
  rewrite skipn_firstn_comm in E2. replace (b * m + b - b * m)%nat with b in E2 by lia.
  exists (ts ++ [mkTask tt (take b (drop (b * m) (quads args)))]), (ts' ++ [mkTask tt []]). split_and!.
  - rewrite Nat2Z.inj_succ, <-Z.add_1_r, seqZ_app, foldM_app, ED, bind_ok by lia.
    change (seqZ (0 + Z.of_nat m) 1) with [0 + Z.of_nat m]. cbn [foldM]. unfold xors_dispatch.
    replace (4 * Z.of_nat (b * m) + Z.of_nat b * 4) with (4 * Z.of_nat (b * m) + 4 * Z.of_nat b) by lia.
    rewrite xors_task_run, !bind_ok by lia. do 2 f_equal. lia.
  - rewrite fmap_app, join_app, Ej. cbn [fmap list_fmap mjoin list_join t_todo]. rewrite app_nil_r.
    by rewrite <-take_take_drop.
  - eapply run_in_order_app; [exact EO|].
    by eapply run_in_order_cons; [apply xors_units|].
Qed.

(** Whatever the number of workers and the schedule. *)
Lemma yao_xors_eq {sched : Scheduler} workers (S S' : Secrets W) args : 0 ≤ workers < 1024 →
  (1024 ≤ Z.of_nat (length (quads args)) → independent gate_footprint (quads args) = true) →
  xors S args 0 (Z.of_nat (length args)) = Ok S' → yao_xors workers S args = Ok S'.
Proof.
  intros Hw Hi HE. unfold yao_xors. destruct (Z.ltb_spec (Z.quot (Z.of_nat (length args)) 4) 1024); [done|].
  destruct (xors_inv _ _ _ _ _ HE) as (_ & Hm & _ & HF). rewrite slice_all in HF.
  pose proof (quads_length args Hm) as Hl. set (n := length (quads args)) in *.
  assert (Z.quot (Z.of_nat (length args)) 4 = Z.of_nat n) as Eq
    by (rewrite Hl, Z.quot_div_nonneg, Nat2Z.inj_mul, Z.mul_comm by lia; by apply Z.div_mul).
  rewrite Eq in *. set (b := Z.quot (Z.of_nat n) (workers + 1)).
  assert (0 < b ∧ b * workers < Z.of_nat n) as [Hb0 Hbw].
  { unfold b. rewrite Z.quot_div_nonneg by lia.
    pose proof (Z.mul_div_le (Z.of_nat n) (workers + 1) ltac:(lia)).
    assert (1 ≤ Z.of_nat n / (workers + 1)) by (apply Z.div_le_lower_bound; lia). nia. }
  replace b with (Z.of_nat (Z.to_nat b)) by lia.
  replace workers with (Z.of_nat (Z.to_nat workers)) by lia.
  set (b' := Z.to_nat b) in *. set (w := Z.to_nat workers).
  assert (b' * w < n)%nat as Hlt by (unfold b', w; nia).
  destruct (foldM_prefix _ _ _ _ (b' * w) HF) as (S1 & E1 & E2).
  destruct (xors_jobs args b' w S S1 ltac:(lia) ltac:(lia) E1) as (ts & ts' & ED & Ej & EO).
  rewrite ED, bind_ok.
  replace (Z.of_nat (length args)) with (4 * Z.of_nat (b' * w) + 4 * Z.of_nat (n - b' * w)) by lia.
  rewrite xors_task_run, bind_ok by lia. rewrite firstn_all2 by (rewrite length_drop; fold n; lia).
  rewrite (run_workers_Ok _ _ xor_job_local _ _ S' (ts' ++ [mkTask tt []])); [done| |].
  - apply independent_race_free. rewrite fmap_app, join_app, Ej. cbn [fmap list_fmap mjoin list_join t_todo].
    rewrite app_nil_r, take_drop. apply Hi. lia.
  - eapply run_in_order_app; [exact EO|]. by eapply run_in_order_cons; [apply xors_units|].
Qed.
End xors_proof.

(** ** One instruction of the three machines *)
Lemma foldM_ext_ok {A B} (f g : B → A → outcome B) l b b' :
  (∀ i b b', i ∈ l → f b i = Ok b' → g b i = Ok b') →
  foldM f b l = Ok b' → foldM g b l = Ok b'.
Proof.
  revert b. induction l as [|i l IH]; intros b HF; cbn [foldM]; [done|].
  intros (b1 & E1 & E)%bind_Ok_inv. rewrite (HF i b b1 ltac:(set_solver) E1), bind_ok.
  apply IH; [|done]. intros j c c' Hj. apply HF. set_solver.
Qed.

Lemma fill_reg {W} (S : Secrets W) r regs w (m : nat) :
  0 ≤ r → S !! Z.to_nat r = Some regs → (m ≤ length regs)%nat →
  foldM (λ S j, set_reg S r j w) S (seqZ 0 (Z.of_nat m))
    = Ok (<[Z.to_nat r := replicate m w ++ drop m regs]> S).
Proof.
  intros Hr HS. induction m as [|m IH]; intros Hm.
  { cbn [foldM replicate app]. rewrite drop_0, list_insert_id by done. done. }
  rewrite Nat2Z.inj_succ, <-Z.add_1_r, seqZ_app, foldM_app, IH, bind_ok by lia.
  change (seqZ (0 + Z.of_nat m) 1) with [0 + Z.of_nat m]. cbn [foldM].
  assert (Z.to_nat r < length S)%nat by by eapply lookup_lt_Some.
  unfold set_reg. rewrite (vget_Ok _ r (replicate m w ++ drop m regs))
    by (lia || (apply list_lookup_insert_eq; lia)). rewrite bind_ok.
  rewrite vset_Ok by (rewrite length_app, length_replicate, length_drop; lia).
  rewrite !bind_ok, vset_Ok by (rewrite length_insert; lia). rewrite bind_ok.
  rewrite list_insert_insert_eq. do 2 f_equal.
  rewrite insert_app_r_alt by (rewrite length_replicate; lia). rewrite length_replicate.
  replace (Z.to_nat (0 + Z.of_nat m) - m)%nat with 0%nat by lia.
  rewrite replicate_S_end, <-app_assoc. f_equal.
  destruct (drop m regs) as [|w0 l] eqn:Ed.
  { exfalso. apply (f_equal length) in Ed. rewrite length_drop in Ed. cbn in Ed. lia. }
  cbn [insert list_insert app]. f_equal. change l with (drop 1 (w0 :: l)).
  rewrite <-Ed, drop_drop. f_equal. lia.
Qed.

Lemma resize_regs_length {W P} `{WireOps W P} (S S' : Secrets W) r n : resize_regs S r n = Ok S' →
  ∃ regs, 0 ≤ r ∧ S' !! Z.to_nat r = Some regs ∧ Z.of_nat (length regs) = n.
Proof.
  unfold resize_regs. intros HE. bind_inv HE. apply vget_inv in E as [Hr Hl].
  destruct (Z.eqb_spec (Z.of_nat (length a)) n); [injection HE as <-; eauto|].
  destruct (Z.ltb_spec n 0); [done|]. unfold vset in HE. destruct (r <? 0); [done|].
  destruct (Z.leb_spec (Z.of_nat (length S)) r); [done|]. injection HE as <-.
  exists (resize n a). split_and!; [done|apply list_lookup_insert_eq; lia|].
  unfold resize. rewrite length_app, length_take, length_replicate. lia.
Qed.

Section machines.
Context {P : Type} `{Prng P} `{GateScheme} `{!GateLaws}.
Context (delta : Key) (delta_odd : Z.odd delta = true).
Context {sched : Scheduler}.
#[local] Abbreviation Mem := (YaoSim.Mem delta).
#[local] Abbreviation sim := (YaoSim.sim (P:=P) delta).

Lemma eval_convcbit2s_eq (e : Evaluator) S S' C r0 r1 n :
  convcbit2s e S C r0 r1 n = Ok S' → eval_convcbit2s S r0 n = Ok S'.
Proof.
  apply foldM_ext_ok. intros i T T' Hi HE. cbv zeta in HE.
  apply bind_Ok_inv in HE as (T1 & E1 & HE). rewrite E1, bind_ok.
  destruct (resize_regs_length _ _ _ _ E1) as (regs & Hr & Hl & Hn).
  rewrite (vget_Ok _ _ regs) by done. rewrite bind_ok.
  assert (foldM (λ S j, set_reg S (r0 + i) j 0) T1 (seqZ 0 (Z.of_nat (length regs))) = Ok T') as HF.
  { rewrite Hn. revert HE. apply foldM_ext_ok. intros j U U' _ HU. by bind_inv HU. }
  rewrite (fill_reg _ _ regs) in HF by (done || lia). injection HF as <-.
  rewrite drop_all, app_nil_r. apply vset_Ok.
  apply lookup_lt_Some in Hl. lia.
Qed.

Definition regs_rel (rg : Regs Key) (rp : Regs bool) (re : Regs Key) : Prop :=
  Mem rg.1 rp.1 re.1 ∧ rg.2 = rp.2 ∧ re.2 = rp.2.

(** Instructions as the compiler emits them: results apart from the operands, positive
    sizes, and no conflict within a batch that is large enough for several threads. *)
Definition instr_ok (i : instr) : Prop :=
  match i with
  | ANDRS args => batch_ok true args
  | ANDS args => batch_ok false args
  | XORS args => 1024 ≤ Z.of_nat (length (quads args)) → independent gate_footprint (quads args) = true
  | REVEAL _ => False
  | _ => True
  end.

Lemma on_S_sim C mg mp me :
  (∀ g e b, g_ok delta g → synced g e → mp = Ok b →
     ∃ a c, mg g = Ok a ∧ me e = Ok c ∧ Mem a b c) →
  sim regs_rel (λ g, on_S C g (mg g)) (on_S C tt mp) (λ e, on_S C e (me e)).
Proof.
  intros HR.
  eapply (sim_ext delta _ _ _ _
    (λ g, a ← (S ← mg g; Ok (S, C)); Ok (a, g)) (b ← (S ← mp; Ok (S, C)); Ok (b, tt))
    (λ e, c ← (S ← me e; Ok (S, C)); Ok (c, e))).
  - intros g. unfold on_S. by destruct (mg g).
  - unfold on_S. by destruct mp.
  - intros e. unfold on_S. by destruct (me e).
  - apply sim_public. intros g e b Hg Hs Hb. apply bind_Ok_inv in Hb as (b0 & Hb & [= <-]).
    destruct (HR g e b0 Hg Hs Hb) as (a & c & -> & -> & HM').
    exists (a, C), (c, C). done.
Qed.

Lemma on_C_sim Sg Sp Se m : Mem Sg Sp Se →
  sim regs_rel (λ g, on_C Sg g m) (on_C Sp tt m) (λ e, on_C Se e m).
Proof.
  intros HM. unfold on_C. intros b u Hb. apply bind_Ok_inv in Hb as (C & -> & Hb).
  revert b u Hb. cbn [mbind outcome_bind]. by apply sim_ret.
Qed.

Lemma instr_sim i rg rp re : instr_ok i → regs_rel rg rp re →
  sim regs_rel (λ g, exec i rg g) (exec i rp tt) (λ e, exec i re e).
Proof.
  destruct rg as [Sg C], rp as [Sp C'], re as [Se C'']. intros Hi (HM & E1 & E2).
  cbn [fst snd] in *. subst C C''. rename C' into C.
  pose proof (rel_new (P:=P) delta) as Hnew. pose proof (rel_wires (P:=P) delta) as Hxor.
  assert (∀ (g : Garbler P) (e : Evaluator), g_ok delta g → ∀ b, wire_rel delta
    (w_public_input g b) (w_public_input tt b) (w_public_input e b)) as Hpub.
  { intros g e [Hg _] b. by apply rel_publics. }
  destruct i; cbn [exec instr_ok] in *.
  - apply on_S_sim. intros g e b Hg Hs Hb. cbn [i_xors plain_instrs] in Hb.
    destruct (out3_Ok _ _ _ _ _ (xors_rel3 (wire_rel delta) Hnew Hxor Sg Sp Se args 0 _ HM) Hb)
      as (a & c & Ea & Ec & HM').
    exists a, c. cbn [i_xors garble_instrs eval_instrs]. destruct Hg as (_ & _ & ?), Hs as (_ & _ & _ & ?).
    split_and!; [apply yao_xors_eq; [unfold g_workers; lia|exact Hi|exact Ea]|apply yao_xors_eq; [lia|exact Hi|exact Ec]|done].
  - by apply on_C_sim.
  - apply on_S_sim. intros g e b Hg _. apply out3_Ok. apply nots_rel3; eauto.
  - by apply on_C_sim.
  - eapply (sim_bind delta Mem); [by apply ands_sim|].
    intros a b c HM'. cbn [fst snd]. by apply sim_ret.
  - eapply (sim_bind delta Mem); [by apply ands_sim|].
    intros a b c HM'. cbn [fst snd]. by apply sim_ret.
  - eapply (sim_bind delta Mem); [by apply andrsvec_sim|].
    intros a b c HM'. cbn [fst snd]. by apply sim_ret.
  - apply on_S_sim. intros g e b Hg _. apply out3_Ok. apply andm_rel3; eauto.
  - apply on_S_sim. intros g e b Hg _. apply out3_Ok. by apply bitdec_rel3.
  - apply on_S_sim. intros g e b Hg _. apply out3_Ok. by apply bitcom_rel3.
  - by apply on_C_sim.
  - apply on_S_sim. intros g e b Hg _. apply out3_Ok. apply load_clear_rel3; eauto.
  - apply on_S_sim. intros g e b Hg _. apply out3_Ok.
    eapply out3_bind; [by apply vget_rel3|]. intros l1 l2 l3 Hl. by apply vset_rel3.
  - apply on_S_sim. intros g e b Hg _. apply out3_Ok. apply trans_rel3; eauto.
  - apply on_S_sim. intros g e b Hg _ Hb. cbn [i_convcbit2s plain_instrs] in Hb.
    destruct (out3_Ok _ _ _ _ _ (convcbit2s_rel3 (wire_rel delta) Hnew g tt e (Hpub g e Hg)
      Sg Sp Se C r0 r1 n HM) Hb) as (a & c & Ea & Ec & HM').
    exists a, c. cbn [i_convcbit2s garble_instrs eval_instrs].
    rewrite Ea, (eval_convcbit2s_eq e _ _ _ _ _ _ Ec). done.
  - done.
Qed.

(** ** [REVEAL]

    The evaluator gets the plaintext, the garbler keeps all other registers. *)
Definition agree (R : list Z) (C C' : Clears) : Prop :=
  length C = length C' ∧ ∀ i : nat, Z.of_nat i ∉ R → C !! i = C' !! i.

Lemma vset_agree R (C C' : Clears) r x x' D' : r ∈ R → agree R C C' → vset C' r x' = Ok D' →
  ∃ D, vset C r x = Ok D ∧ agree R D D'.
Proof.
  intros Hr [Hl Ha]. unfold vset. rewrite Hl. destruct (Z.ltb_spec r 0); [done|].
  destruct (Z.of_nat (length C') <=? r); [done|]. intros [= <-]. eexists. split; [done|].
  split; [by rewrite !length_insert|]. intros i Hi.
  rewrite !list_lookup_insert_ne by (intros <-; apply Hi; rewrite Z2Nat.id by lia; done).
  by apply Ha.
Qed.

Lemma output_sim wg wp we : wire_rel delta wg wp we →
  sim (λ _ b c, c = b) (λ g, w_get_output g wg) (w_get_output tt wp) (λ e, w_get_output e we).
Proof.
  intros HR b u [= <- <-] g Hg. exists false, (g_push_mask g (mask wg)), [], [mask wg].
  split_and!; [done|constructor; cbn; rewrite ?app_nil_r; done || lia|].
  intros e gr mr Hs Hgs Hms. cbn [w_get_output eval_wire]. unfold eval_get_output. rewrite Hms.
  exists wp. split; [|done]. unfold e_set_masks, e_after. cbn [app length]. cbn in Hgs.
  by rewrite Hgs, (rel_output delta wg wp we), Z.add_0_r.
Qed.

Lemma secret_reveal_sim Sg Sp Se r n : Mem Sg Sp Se →
  sim (λ _ b c, c = b) (λ g, secret_reveal g Sg r n) (secret_reveal tt Sp r n)
    (λ e, secret_reveal e Se r n).
Proof.
  intros HM. unfold secret_reveal.
  eapply (sim_lift delta (Forall3 (wire_rel delta))); [by apply vget_rel3|]. intros l1 l2 l3 Hl.
  apply Forall3_lengths in Hl as [E1 E3]. rewrite E1, E3.
  destruct (_ <? n); [by intros ?|].
  apply (sim_foldM delta (λ _ b c, c = b)); [|done]. intros i x1 x2 x3 _ ->.
  eapply (sim_lift delta); [by apply get_reg_rel3|]. intros w1 w2 w3 Hw.
  eapply (sim_bind delta); [by apply output_sim|]. intros o1 o2 o3 ->. cbn. by apply sim_ret.
Qed.

Lemma reveal_sim Sg Sp Se C args : Mem Sg Sp Se →
  sim (λ a b c, c = b ∧ agree (revealed_regs args) a b)
    (λ g, reveal Sg C g args) (reveal Sp C tt args) (λ e, reveal Se C e args).
Proof.
  intros HM. unfold reveal. destruct (negb _); [by intros ?|].
  apply (sim_foldM delta (λ a b c, c = b ∧ agree (revealed_regs args) a b)); [|done].
  intros [[n r0] r1] a b c Ht [-> Hab]. unfold reveal_one.
  apply (sim_foldM delta (λ a b c, c = b ∧ agree (revealed_regs args) a b)); [|done].
  intros i a' b' c' Hi [-> Hab'].
  eapply (sim_bind delta); [by apply secret_reveal_sim|]. intros x1 x2 x3 ->. cbv beta iota.
  apply sim_public. intros g e D _ _ HD.
  destruct (vset_agree (revealed_regs args) a' b' (r0 + i) x1 x2 D) as (D1 & E1 & HD1); try done.
  - unfold revealed_regs. apply list_elem_of_join.
    exists ((λ i, r0 + i) <$> seqZ 0 (DIV_CEIL n N_BITS)). split; [by apply list_elem_of_fmap_2|].
    apply list_elem_of_fmap. exists (n, r0, r1). done.
  - exists D1, D. rewrite E1, HD. done.
Qed.
End machines.

Lemma regs_covered R (C C' : Clears) : agree R C C' →
  ∀ buf, mapM_out (λ r, x ← vget C' r; Ok x) R = Ok buf → unpack_regs C R buf = Ok C'.
Proof.
  revert C. induction R as [|r R IH]; intros C [Hl Ha] buf; cbn [mapM_out unpack_regs].
  - intros _. f_equal. apply list_eq. intros i. apply Ha. set_solver.
  - intros (x & (y & Ex & [= ->])%bind_Ok_inv & HB)%bind_Ok_inv.
    apply bind_Ok_inv in HB as (buf' & Eb & [= <-]).
    apply vget_inv in Ex as [Hr Hx]. pose proof (lookup_lt_Some _ _ _ Hx).
    cbn [unpack_regs]. rewrite vset_Ok by lia. rewrite bind_ok. apply IH; [|done].
    split; [by rewrite length_insert|]. intros i Hi.
    destruct (decide (i = Z.to_nat r)) as [->|Hn].
    + rewrite list_lookup_insert_eq by lia. by rewrite Hx.
    + rewrite list_lookup_insert_ne by done. apply Ha.
      intros [E|Hin]%elem_of_cons; [lia|done].
Qed.

(** What [REVEAL] wrote can be sent. *)
Section pack.
Context {W P : Type} `{WireOps W P}.

Lemma reveal_one_range mem C p n r0 r1 C' p' : reveal_one mem (C, p) (n, r0, r1) = Ok (C', p') →
  length C' = length C ∧ ∀ i, i ∈ seqZ 0 (DIV_CEIL n N_BITS) → 0 ≤ r0 + i < Z.of_nat (length C).
Proof.
  unfold reveal_one. change (DIV_CEIL n default_length) with (DIV_CEIL n N_BITS).
  generalize (seqZ 0 (DIV_CEIL n N_BITS)) as l. intros l. revert C p.
  induction l as [|i l IH]; intros C p; cbn [foldM].
  { intros [= <- <-]. split; [done|]. intros i Hi. by apply elem_of_nil in Hi. }
  intros ([C1 p1] & E & HE)%bind_Ok_inv. apply IH in HE as [El Hr].
  apply bind_Ok_inv in E as ([x p2] & _ & E). apply bind_Ok_inv in E as (C2 & E & [= <- <-]).
  pose proof (vset_length _ _ _ _ E) as Hlen. rewrite Hlen in *. split; [done|].
  intros j [->|Hj]%elem_of_cons; [|by apply Hr].
  unfold vset in E. destruct (Z.ltb_spec (r0 + i) 0); [done|].
  destruct (Z.leb_spec (Z.of_nat (length C)) (r0 + i)); [done|]. lia.
Qed.

Lemma reveal_range mem C p args C' p' : reveal mem C p args = Ok (C', p') →
  length C' = length C ∧ ∀ r, r ∈ revealed_regs args → 0 ≤ r < Z.of_nat (length C).
Proof.
  unfold reveal, revealed_regs. destruct (negb _); [done|]. generalize (triples args) as l.
  intros l. revert C p. induction l as [|[[n r0] r1] l IH]; intros C p; cbn [foldM fmap list_fmap mjoin list_join].
  { intros [= <- <-]. split; [done|]. intros r Hr. by apply elem_of_nil in Hr. }
  intros ([C1 p1] & E & HE)%bind_Ok_inv. apply IH in HE as [El Hr].
  apply reveal_one_range in E as [E1 H1]. split; [lia|].
  intros r [(i & -> & Hi)%list_elem_of_fmap|Hin]%elem_of_app; [by apply H1|].
  rewrite <-E1. by apply Hr.
Qed.

Lemma pack_Ok mem C p args C' p' : reveal mem C p args = Ok (C', p') →
  pack_regs C' args = Ok ((λ r, C' !!! Z.to_nat r) <$> revealed_regs args).
Proof.
  intros [El Hr]%reveal_range. unfold pack_regs. apply mapM_out_Ok. intros r Hin.
  specialize (Hr r Hin). by rewrite vget_lt by lia.
Qed.
End pack.
