(* ===== verification/YaoInput.v ===== *)
(** * Inputs of the two parties

    [INPUTB] and [INPUTBVEC] of the virtual machine: each player reads its own inputs, the wires
    of the evaluator's inputs are transferred by correlated OT
    ([YaoGarbleInput], [YaoEvalInput], [YaoGarbler::process_receiver_inputs]).
    The OT itself is an interface. *)

From S2P Require Import Prelude Xor Block Aes YaoKey YaoGate GcVm YaoWire YaoSim YaoProps YaoJobs YaoVm.

(** [mpz_get_si] of GMP: the value when it fits into a [long], otherwise the least
    significant part with the sign of the value. *)
Class Gmp := {
  mpz_get_si : Z → Z;
  mpz_get_si_fits x : - 2 ^ 63 ≤ x < 2 ^ 63 → mpz_get_si x = x;
  mpz_get_si_long x : - 2 ^ 63 ≤ mpz_get_si x < 2 ^ 63;
  mpz_get_si_sign x : 0 ≤ x → 0 ≤ mpz_get_si x;
  mpz_get_si_low x i : 0 ≤ i < 63 → Z.testbit (mpz_get_si x) i = Z.testbit x i;
}.

(** [OTExtensionWithMatrix::extend_correlated] as a functionality of both
    players: from the receiver's bits, the rows of the sender and of the
    receiver. *)
Class CorrelatedOT (O : Type) := {
  cot : O → Key → list bool → list Key * list Key * O;
  cot_rows o delta bs q t o' i b : cot o delta bs = (q, t, o') → bs !! i = Some b →
    ∃ k, q !! i = Some k ∧ t !! i = Some (Z.lxor k (key_if b delta));
}.

(** ** Reading inputs

    The stream holds the numbers that [IntInput] and [FixInput_] parse. *)
Definition check_input (n_bits x : Z) : outcome unit :=
  if n_bits <? 1 then UB
  else
    let test := Z.shiftr x (n_bits - 1) in
    if n_bits =? 1 then
      if (x =? 0) || (x =? 1) then Ok tt else Throw "input not a bit"
    else if (test =? 0) || (test =? -1) then Ok tt else Throw "input out of range".

Definition get_long_input (inp : list Z) (n_bits : Z) : outcome (Z * list Z) :=
  match inp with
  | [] => Throw "not enough inputs"
  | x :: inp => _ ← check_input n_bits x; Ok (x, inp)
  end.

(** [InputArgs]: player, bit length, shift and destination. *)
Definition input_args (args : list Z) : outcome (list (Z * Z * Z * Z)) :=
  if Z.of_nat (length args) mod 4 =? 0 then Ok (quads args) else UB.

(** [InputVecArgs]: player, bit length, shift and destinations.  A group of length 0
    would be read for ever. *)
Fixpoint vec_args (fuel : nat) (args : list Z) : outcome (list (Z * Z * Z * list Z)) :=
  match fuel, args with
  | _, [] => Ok []
  | S fuel, n :: n_shift :: from :: rest =>
      if n <? 0 then Throw "vector::_M_default_append"
      else if (n =? 0) || (Z.of_nat (length rest) <? n - 3) then UB
      else
        l ← vec_args fuel (drop (Z.to_nat n) args);
        Ok ((from, n - 3, n_shift, take (Z.to_nat (n - 3)) rest) :: l)
  | _, _ => UB
  end.

Definition inputvec_args (args : list Z) : outcome (list (Z * Z * Z * list Z)) :=
  vec_args (length args) args.

Inductive input_instr :=
  | INPUTB (args : list Z)
  | INPUTBVEC (args : list Z).

Definition n_input_bits (i : input_instr) : Z :=
  match i with
  | INPUTB args => foldl (λ res '(_, n_bits, _, _), res + n_bits) 0 (quads args)
  | INPUTBVEC args => foldl (λ res '(_, n_bits, _, _), res + n_bits) 0 (from_ok [] (inputvec_args args))
  end.

(** [VirtualTwoPartyPlayer::num_players] *)
Definition num_players : Z := 2.

(** [my_input] and [finalize_input] of one wire, with the state [I] of the object
    that collects the inputs. *)
Class Inputter (W P I : Type) := {
  in_mine : Z → bool;
  in_my_input : P → I → W → bool → W * I;
  in_finalize : Z → P * I → W → outcome (W * (P * I));
}.

Section inputb.
Context {W P I : Type} `{WireOps W P} `{!Inputter W P I} `{Gmp}.

Definition secret_my_input (party : P) (st : Secrets W * I) (d value n : Z)
    : outcome (Secrets W * I) :=
  S ← resize_regs st.1 d n;
  foldM (λ '(S, input) i,
      w ← get_reg S d i;
      let '(w, input) := in_my_input party input w (Z.testbit value i) in
      S ← set_reg S d i w;
      Ok (S, input)) (S, st.2) (seqZ 0 n).

Definition secret_other_input (S : Secrets W) (d n : Z) : outcome (Secrets W) := resize_regs S d n.

Definition secret_finalize_input (st : Secrets W * (P * I)) (from d n : Z)
    : outcome (Secrets W * (P * I)) :=
  S ← resize_regs st.1 d n;
  foldM (λ '(S, pi) i,
      w ← get_reg S d i;
      '(w, pi) ← in_finalize from pi w;
      S ← set_reg S d i w;
      Ok (S, pi)) (S, st.2) (seqZ 0 n).

(** [Processor::inputb] up to [input.exchange()], and after it. *)
Definition inputb_read_one (party : P) (st : Secrets W * list Z * I) (q : Z * Z * Z * Z)
    : outcome (Secrets W * list Z * I) :=
  let '(mem, inp, input) := st in
  let '(from, n_bits, _, dest) := q in
  if in_mine from then
    '(whole_input, inp) ← get_long_input inp n_bits;
    st ← foldM (λ st i,
           secret_my_input party st (dest + i)
             (mpz_get_si (Z.shiftr whole_input (i * default_length)))
             (Z.min default_length (n_bits - i * default_length)))
         (mem, input) (seqZ 0 (DIV_CEIL n_bits default_length));
    Ok (st.1, inp, st.2)
  else
    mem ← foldM (λ mem i,
           secret_other_input mem (dest + i)
             (Z.min default_length (n_bits - i * default_length)))
         mem (seqZ 0 (DIV_CEIL n_bits default_length));
    Ok (mem, inp, input).

Definition inputb_read (party : P) (st : Secrets W * list Z * I) (args : list Z)
    : outcome (Secrets W * list Z * I) :=
  qs ← input_args args;
  foldM (inputb_read_one party) st qs.

Definition inputb_finalize_one (st : Secrets W * (P * I)) (q : Z * Z * Z * Z)
    : outcome (Secrets W * (P * I)) :=
  let '(from, n_bits, _, dest) := q in
  foldM (λ st i,
      secret_finalize_input st from (dest + i)
        (Z.min default_length (n_bits - i * default_length)))
    st (seqZ 0 (DIV_CEIL n_bits default_length)).

Definition inputb_finalize (st : Secrets W * (P * I)) (args : list Z)
    : outcome (Secrets W * (P * I)) :=
  qs ← input_args args;
  foldM inputb_finalize_one st qs.

(** [Processor::inputbvec]: every bit has a register of its own. *)
Definition inputbvec_read_one (party : P) (st : Secrets W * list Z * I) (q : Z * Z * Z * list Z)
    : outcome (Secrets W * list Z * I) :=
  let '(mem, inp, input) := st in
  let '(from, n_bits, _, dest) := q in
  if num_players <=? u32 from then Throw "invalid player number"
  else if in_mine from then
    '(whole_input, inp) ← get_long_input inp n_bits;
    st ← foldM (λ st '(i, d),
           secret_my_input party st d (Z.land (mpz_get_si (Z.shiftr whole_input i)) 1) 1)
         (mem, input) (zip (seqZ 0 n_bits) dest);
    Ok (st.1, inp, st.2)
  else
    mem ← foldM (λ mem d, secret_other_input mem d 1) mem dest;
    Ok (mem, inp, input).

Definition inputbvec_read (party : P) (st : Secrets W * list Z * I) (args : list Z)
    : outcome (Secrets W * list Z * I) :=
  qs ← inputvec_args args;
  foldM (inputbvec_read_one party) st qs.

Definition inputbvec_finalize_one (st : Secrets W * (P * I)) (q : Z * Z * Z * list Z)
    : outcome (Secrets W * (P * I)) :=
  let '(from, _, _, dest) := q in
  foldM (λ st d, secret_finalize_input st from d 1) st dest.

Definition inputbvec_finalize (st : Secrets W * (P * I)) (args : list Z)
    : outcome (Secrets W * (P * I)) :=
  qs ← inputvec_args args;
  foldM inputbvec_finalize_one st qs.

Definition input_read (party : P) (st : Secrets W * list Z * I) (i : input_instr)
    : outcome (Secrets W * list Z * I) :=
  match i with
  | INPUTB args => inputb_read party st args
  | INPUTBVEC args => inputbvec_read party st args
  end.

Definition input_finalize (st : Secrets W * (P * I)) (i : input_instr) : outcome (Secrets W * (P * I)) :=
  match i with
  | INPUTB args => inputb_finalize st args
  | INPUTBVEC args => inputbvec_finalize st args
  end.
End inputb.

(** ** The garbler

    Its own inputs are public wires, the keys of the evaluator's are collected in
    [receiver_input_keys.back()]. *)
Section parties.
Context {P : Type} `{Prng P} `{GateScheme}.

#[export] Instance garble_inputter : Inputter Key (Garbler P) (list Key) := {|
  in_mine from := from =? 0;
  in_my_input g keys _ value := (w_public_input g value, keys);
  in_finalize from '(g, keys) w :=
    if from =? 1 then
      let '(k, prng) := get_doubleword (g_prng g) in
      let w := set_wire k false in
      if Bool.eqb (mask w) false then Ok (w, (g_set_prng g prng, keys ++ [w]))
      else Throw "assertion failed"
    else Ok (w, (g, keys));
|}.

(** What [process_receiver_inputs] sends for the wires [inputs], given the
    sender's rows. *)
Definition masked_keys (inputs rows : list Key) : outcome (list Key) :=
  mapM_out (λ '(i, k), r ← vget rows (Z.of_nat i); Ok (Z.lxor k r))
    (zip (seq 0 (length inputs)) inputs).

(** ** The evaluator *)
Record EvalInput := mkEI {
  ei_inputs : list bool;
  ei_i_bit : Z;
  ei_os : list Key;
  ei_rows : list Key;
}.

Definition ei_new : EvalInput := mkEI [] 0 [] [].

(** [exchange] after the OT: the receiver's rows and the garbler's message. *)
Definition ei_exchange (ei : EvalInput) (rows os : list Key) : EvalInput :=
  mkEI (ei_inputs ei) (ei_i_bit ei) os rows.

#[export] Instance eval_inputter : Inputter Key Evaluator EvalInput := {|
  in_mine from := from =? 1;
  in_my_input _ ei w value := (w, mkEI (ei_inputs ei ++ [value]) (ei_i_bit ei) (ei_os ei) (ei_rows ei));
  in_finalize from '(e, ei) _ :=
    if from =? 1 then
      match ei_os ei with
      | [] => Throw "insufficient data"
      | key :: os =>
          row ← vget (ei_rows ei) (ei_i_bit ei);
          value ← vget (ei_inputs ei) (ei_i_bit ei);
          let key := Z.lxor key row in
          if Bool.eqb (get_signal key) value
          then Ok (key, (e, mkEI (ei_inputs ei) (ei_i_bit ei + 1) os (ei_rows ei)))
          else Throw "assertion failed"
      end
    else Ok (0, (e, ei));
|}.
End parties.
Arguments EvalInput : clear implicits.

(** ** The meaning on bits *)
Definition input_bits (x n : Z) : list bool := (λ i, Z.testbit x i) <$> seqZ 0 n.

(** The input of player [from], whose stream is the first or the second, and what is
    done with it. *)
Definition plain_input (st : Secrets bool * list Z * list Z) (from n_bits : Z)
    (put : Z → Secrets bool → outcome (Secrets bool)) : outcome (Secrets bool * list Z * list Z) :=
  let '(mem, in0, in1) := st in
  if from =? 0 then
    '(x, in0) ← get_long_input in0 n_bits;
    mem ← put x mem;
    Ok (mem, in0, in1)
  else
    '(x, in1) ← get_long_input in1 n_bits;
    mem ← put x mem;
    Ok (mem, in0, in1).

Definition plain_input_one (st : Secrets bool * list Z * list Z) (q : Z * Z * Z * Z)
    : outcome (Secrets bool * list Z * list Z) :=
  let '(from, n_bits, _, dest) := q in
  plain_input st from n_bits (λ x mem, vset mem dest (input_bits x n_bits)).

Definition plain_inputvec_one (st : Secrets bool * list Z * list Z) (q : Z * Z * Z * list Z)
    : outcome (Secrets bool * list Z * list Z) :=
  let '(from, n_bits, _, dest) := q in
  plain_input st from n_bits (λ x mem,
    foldM (λ mem '(i, d), vset mem d [Z.testbit x i]) mem (zip (seqZ 0 n_bits) dest)).

Definition plain_inputb (st : Secrets bool * list Z * list Z) (i : input_instr)
    : outcome (Secrets bool * list Z * list Z) :=
  match i with
  | INPUTB args => qs ← input_args args; foldM plain_input_one st qs
  | INPUTBVEC args => qs ← inputvec_args args; foldM plain_inputvec_one st qs
  end.

(** Instructions as the compiler emits them: two players, registers of their
    own, at most one register for an input of [INPUTB]. *)
Definition input_ok (i : input_instr) : Prop :=
  match i with
  | INPUTB args =>
      Forall (λ '(from, n_bits, _, _), (from = 0 ∨ from = 1) ∧ 1 ≤ n_bits ≤ 64) (quads args) ∧
      NoDup ((λ '(_, _, _, dest), dest) <$> quads args)
  | INPUTBVEC args =>
      ∀ qs, inputvec_args args = Ok qs →
        Forall (λ '(from, _, _, _), from = 0 ∨ from = 1) qs ∧
        NoDup (mjoin ((λ '(_, _, _, dest), dest) <$> qs))
  end.
