(* ===== verification/YaoInputProps.v ===== *)
(** * Inputs reach the wires

    After [INPUTB] of both parties and the OT between them, the wires of the
    destinations stand for the bits that the players entered. *)

From S2P Require Import Prelude Xor Block Aes YaoKey YaoGate GcVm YaoWire YaoSim YaoProps YaoJobs YaoVm YaoInput.

(** ** Filling a register bit by bit *)
Section fill.
Context {W X : Type} (f : X → Z → W → outcome (W * X)).

Fixpoint imapS (j : Z) (x : X) (l : list W) : outcome (list W * X) :=
  match l with
  | [] => Ok ([], x)
  | w :: l => '(w, x) ← f x j w; '(l, x) ← imapS (j + 1) x l; Ok (w :: l, x)
  end.

Lemma fill_state (S : Secrets W) r x x' pre post ws : 0 ≤ r →
  S !! Z.to_nat r = Some (pre ++ post) → imapS (Z.of_nat (length pre)) x post = Ok (ws, x') →
  foldM (λ '(S, x) i, w ← get_reg S r i; '(w, x) ← f x i w; S ← set_reg S r i w; Ok (S, x))
    (S, x) (seqZ (Z.of_nat (length pre)) (Z.of_nat (length post)))
    = Ok (<[Z.to_nat r := pre ++ ws]> S, x').
Proof.
  intros Hr. revert S x pre ws. induction post as [|w post IH]; intros S x pre ws HS.
  { cbn [imapS]. intros [= <- <-]. rewrite list_insert_id by done. done. }
  cbn [imapS]. intros ([w' x1] & Ef & HE)%bind_Ok_inv.
  apply bind_Ok_inv in HE as ([ws' x2] & Ei & [= <- <-]).
  rewrite seqZ_cons by (cbn; lia). cbn [foldM].
  assert (Z.to_nat r < length S)%nat by by eapply lookup_lt_Some.
  assert (get_reg S r (Z.of_nat (length pre)) = Ok w) as ->.
  { unfold get_reg. rewrite (vget_Ok _ _ _ Hr HS), bind_ok.
    rewrite (proj2 (Z.ltb_ge _ _)), Nat2Z.id by lia. by rewrite list_lookup_middle. }
  rewrite bind_ok, Ef, bind_ok.
  assert (set_reg S r (Z.of_nat (length pre)) w' = Ok (<[Z.to_nat r := pre ++ w' :: post]> S)) as ->.
  { unfold set_reg. rewrite (vget_Ok _ _ _ Hr HS), bind_ok.
    rewrite vset_Ok by (rewrite length_app; cbn; lia). rewrite bind_ok, Nat2Z.id, vset_Ok by lia.
    by rewrite insert_app_r_alt, Nat.sub_diag by lia. }
  rewrite !bind_ok. specialize (IH (<[Z.to_nat r := pre ++ w' :: post]> S) x1 (pre ++ [w']) ws').
  rewrite length_app, <-!app_assoc in IH. cbn [length app] in IH.
  replace (Z.of_nat (length pre + 1)) with (Z.of_nat (length pre) + 1) in IH by lia.
  replace (Z.pred (Z.of_nat (length (w :: post)))) with (Z.of_nat (length post)) by (cbn; lia).
  unfold Z.succ. rewrite IH; [|by apply list_lookup_insert_eq|done].
  by rewrite list_insert_insert_eq.
Qed.
End fill.

Lemma resize_regs_Ok {W P} `{WireOps W P} (S : Secrets W) r n regs : 0 ≤ r → 0 ≤ n →
  S !! Z.to_nat r = Some regs → resize_regs S r n = Ok (<[Z.to_nat r := resize n regs]> S).
Proof.
  intros Hr Hn HS. unfold resize_regs. rewrite (vget_Ok _ _ _ Hr HS), bind_ok.
  pose proof (lookup_lt_Some _ _ _ HS).
  destruct (Z.eqb_spec (Z.of_nat (length regs)) n) as [<-|_].
  - unfold resize. rewrite Nat2Z.id, Nat.sub_diag, firstn_all, app_nil_r.
    by rewrite list_insert_id.
  - rewrite (proj2 (Z.ltb_ge _ _)) by lia. by rewrite vset_Ok by lia.
Qed.

Lemma resize_length {W P} `{WireOps W P} n (regs : list W) : 0 ≤ n →
  Z.of_nat (length (resize n regs)) = n.
Proof. intros. unfold resize. rewrite length_app, length_take, length_replicate. lia. Qed.

(** ** Writing several registers *)
Definition wr {W} (S : Secrets W) (ds : list Z) (l : list (list W)) : Secrets W :=
  foldl (λ S '(r, ws), <[Z.to_nat r := ws]> S) S (zip ds l).

Section wr.
Context {W : Type}.
Implicit Types S : Secrets W.

Lemma wr_length S ds l : length (wr S ds l) = length S.
Proof.
  unfold wr. generalize (zip ds l) as z. intros z. revert S. induction z as [|[r ws] z IH]; intros S; cbn; [done|].
  by rewrite IH, length_insert.
Qed.

Lemma wr_lookup_ne S ds l i : i ∉ Z.to_nat <$> ds → wr S ds l !! i = S !! i.
Proof.
  unfold wr. revert S l. induction ds as [|r ds IH]; intros S [|ws l] Hi; cbn; try done.
  cbn in Hi. rewrite not_elem_of_cons in Hi. destruct Hi as [Hn Hi].
  specialize (IH (<[Z.to_nat r := ws]> S) l Hi). cbn in IH. rewrite IH.
  by rewrite list_lookup_insert_ne by done.
Qed.

Lemma wr_agree S S' ds l : length l = length ds → length S = length S' →
  (∀ i, i ∉ Z.to_nat <$> ds → S !! i = S' !! i) → wr S ds l = wr S' ds l.
Proof.
  revert S S' l. induction ds as [|r ds IH]; intros S S' [|ws l] Hl HS Ha; try done.
  - apply list_eq. intros i. apply Ha. apply not_elem_of_nil.
  - change (wr (<[Z.to_nat r := ws]> S) ds l = wr (<[Z.to_nat r := ws]> S') ds l).
    apply IH; [by injection Hl|by rewrite !length_insert|]. intros i Hi.
    destruct (decide (i = Z.to_nat r)) as [->|Hn].
    + destruct (decide (Z.to_nat r < length S)%nat).
      * by rewrite !list_lookup_insert_eq by lia.
      * rewrite !(proj2 (lookup_ge_None _ _)); [done|rewrite length_insert; lia..].
    + rewrite !list_lookup_insert_ne by done. apply Ha. cbn. by rewrite not_elem_of_cons.
Qed.

Lemma wr_wr S ds l l' : length l' = length ds → wr (wr S ds l) ds l' = wr S ds l'.
Proof.
  intros Hl. apply wr_agree; [done|by rewrite wr_length|]. intros i Hi. by apply wr_lookup_ne.
Qed.

(** What is at the written registers. *)
Lemma wr_lookups S ds l : NoDup ds → Forall (λ r, 0 ≤ r < Z.of_nat (length S)) ds →
  length l = length ds → Forall2 (λ r ws, wr S ds l !! Z.to_nat r = Some ws) ds l.
Proof.
  revert S l. induction ds as [|r ds IH]; intros S [|ws l] Hd Hr Hl; try done.
  apply NoDup_cons in Hd as [Hn Hd]. apply Forall_cons in Hr as [Hr0 Hr].
  constructor.
  - change (wr (<[Z.to_nat r := ws]> S) ds l !! Z.to_nat r = Some ws).
    rewrite wr_lookup_ne.
    + apply list_lookup_insert_eq. lia.
    + rewrite list_elem_of_fmap. intros (r' & E & Hin).
      assert (0 ≤ r') by (rewrite Forall_forall in Hr; apply Hr in Hin; lia).
      assert (r = r') as <- by lia. done.
  - apply IH; [done| |by injection Hl]. by rewrite length_insert.
Qed.
End wr.

Lemma wr_rel3 {W1 W2 W3} (R : W1 → W2 → W3 → Prop) S1 S2 S3 ds l1 l2 l3 :
  mem3 R S1 S2 S3 → Forall3 (Forall3 R) l1 l2 l3 → mem3 R (wr S1 ds l1) (wr S2 ds l2) (wr S3 ds l3).
Proof.
  intros HS HL. revert S1 S2 S3 ds HS. induction HL; intros S1 S2 S3 [|r ds] HS; try done.
  apply IHHL. by apply Forall3_insert.
Qed.

(** ** One register of an input *)
Section units.
Context {W P I : Type} `{WireOps W P} `{!Inputter W P I} `{Gmp}.

Lemma secret_my_input_Ok party (S : Secrets W) input d value n regs ws input' :
  0 ≤ d → 0 ≤ n → S !! Z.to_nat d = Some regs →
  imapS (λ input i w, Ok (in_my_input party input w (Z.testbit value i))) 0 input (resize n regs)
    = Ok (ws, input') →
  secret_my_input party (S, input) d value n = Ok (<[Z.to_nat d := ws]> S, input').
Proof.
  intros Hd Hn HS HI. unfold secret_my_input. cbn [fst snd].
  rewrite (resize_regs_Ok _ _ _ _ Hd Hn HS), bind_ok.
  pose proof (fill_state _ (<[Z.to_nat d := resize n regs]> S) d input input' [] (resize n regs) ws
    Hd ltac:(apply list_lookup_insert_eq; by eapply lookup_lt_Some) HI) as HF.
  cbn [length app] in HF. rewrite resize_length in HF by done.
  rewrite list_insert_insert_eq in HF. exact HF.
Qed.

Lemma secret_finalize_input_Ok (S : Secrets W) pi from d n regs ws pi' :
  0 ≤ d → S !! Z.to_nat d = Some regs → Z.of_nat (length regs) = n →
  imapS (λ pi _ w, in_finalize from pi w) 0 pi regs = Ok (ws, pi') →
  secret_finalize_input (S, pi) from d n = Ok (<[Z.to_nat d := ws]> S, pi').
Proof.
  intros Hd HS <- HI. unfold secret_finalize_input. cbn [fst snd].
  assert (resize (Z.of_nat (length regs)) regs = regs) as Er.
  { unfold resize. by rewrite Nat2Z.id, Nat.sub_diag, firstn_all, app_nil_r. }
  rewrite (resize_regs_Ok _ _ _ regs) by (done || lia). rewrite bind_ok, Er.
  rewrite list_insert_id by done.
  exact (fill_state _ S d pi pi' [] regs ws Hd HS HI).
Qed.

Lemma one_unit n : 1 ≤ n ≤ 64 → seqZ 0 (DIV_CEIL n default_length) = [0].
Proof.
  intros. replace (DIV_CEIL n default_length) with 1; [done|].
  unfold DIV_CEIL, default_length. rewrite Z.quot_div_nonneg by lia.
  apply Z.div_unique with (n - 1); lia.
Qed.

Lemma get_long_input_range inp n x inp' : get_long_input inp n = Ok (x, inp') → 1 ≤ n ≤ 64 →
  - 2 ^ 63 ≤ x < 2 ^ 63.
Proof.
  destruct inp as [|y inp]; [done|]. cbn. unfold check_input. intros HE Hn.
  destruct (Z.ltb_spec n 1); [lia|]. destruct (Z.eqb_spec n 1).
  { destruct (Z.eqb_spec y 0), (Z.eqb_spec y 1); cbn in HE; try done; injection HE as <- <-; lia. }
  assert (2 ^ (n - 1) ≤ 2 ^ 63) by (apply Z.pow_le_mono_r; lia).
  rewrite Z.shiftr_div_pow2 in HE by lia.
  pose proof (Z.pow_pos_nonneg 2 (n - 1) ltac:(lia) ltac:(lia)).
  pose proof (Z.div_mod y (2 ^ (n - 1)) ltac:(lia)). pose proof (Z.mod_pos_bound y (2 ^ (n - 1)) ltac:(lia)).
  destruct (Z.eqb_spec (y / 2 ^ (n - 1)) 0) as [E|_], (Z.eqb_spec (y / 2 ^ (n - 1)) (-1)) as [E'|_];
    cbn in HE; try done; injection HE as <- <-; nia.
Qed.

End units.

(** ** Inputs as lists of parts

    An input is a number that is read once; each of its parts, [k] bits from bit [lo] on,
    goes to a register of its own.  Inputs of [INPUTB] have one part, those of
    [INPUTBVEC] one for each bit. *)
Definition part : Type := Z * Z * Z.
Definition item : Type := Z * Z * list part.

Definition item_of (q : Z * Z * Z * Z) : item :=
  let '(from, n, _, d) := q in (from, n, [(0, n, d)]).
Definition item_of_vec (q : Z * Z * Z * list Z) : item :=
  let '(from, n, _, ds) := q in (from, n, (λ '(i, d), (i, 1, d)) <$> zip (seqZ 0 n) ds).

Definition items (i : input_instr) : list item :=
  match i with
  | INPUTB args => item_of <$> quads args
  | INPUTBVEC args => item_of_vec <$> from_ok [] (inputvec_args args)
  end.

Definition part_bits (x : Z) (p : part) : list bool :=
  let '(lo, k, _) := p in input_bits (Z.shiftr x lo) k.

Definition part_dests (ps : list part) : list Z := (λ '(_, _, d), d) <$> ps.

Definition item_ok (it : item) : Prop :=
  let '(from, _, ps) := it in (from = 0 ∨ from = 1) ∧ Forall (λ '(lo, k, _), 0 ≤ lo ∧ 0 ≤ k) ps.

(** A part on its own: player, bits and register. *)
Abbreviation unit_in := (Z * Z * Z)%type (only parsing).
Definition units_of (it : item) : list unit_in :=
  let '(from, _, ps) := it in (λ '(_, k, d), (from, k, d)) <$> ps.
Definition units (its : list item) : list unit_in := mjoin (units_of <$> its).
Definition dests (us : list unit_in) : list Z := (λ '(_, _, d), d) <$> us.

Definition u_ok (u : unit_in) : Prop := let '(from, k, _) := u in (from = 0 ∨ from = 1) ∧ 0 ≤ k.

Lemma dests_units_of it : dests (units_of it) = part_dests it.2.
Proof. destruct it as [[from n] ps]. unfold dests, units_of, part_dests. rewrite <-list_fmap_compose. by apply list_fmap_ext; intros ? [[]]. Qed.

Lemma units_cons it its : units (it :: its) = units_of it ++ units its.
Proof. done. Qed.

Lemma dests_cons it its : dests (units (it :: its)) = part_dests it.2 ++ dests (units its).
Proof. rewrite units_cons. unfold dests at 1. rewrite fmap_app. f_equal. apply dests_units_of. Qed.

Lemma units_ok its : Forall item_ok its → Forall u_ok (units its).
Proof.
  induction 1 as [|[[from n] ps] its [Hf Hp] _ IH]; [constructor|]. rewrite units_cons. apply Forall_app. split; [|done].
  cbn [units_of]. apply Forall_fmap. eapply Forall_impl; [exact Hp|]. intros [[lo k] d] [_ Hk]. by split.
Qed.

Section item.
Context {W P I : Type} `{WireOps W P} `{!Inputter W P I} `{Gmp}.

Definition item_read (party : P) (st : Secrets W * list Z * I) (it : item)
    : outcome (Secrets W * list Z * I) :=
  let '(mem, inp, input) := st in
  let '(from, n, ps) := it in
  if in_mine from then
    '(x, inp) ← get_long_input inp n;
    st ← foldM (λ st '(lo, k, d), secret_my_input party st d (Z.shiftr x lo) k) (mem, input) ps;
    Ok (st.1, inp, st.2)
  else
    mem ← foldM (λ mem '(_, k, d), secret_other_input mem d k) mem ps;
    Ok (mem, inp, input).

Definition unit_finalize (st : Secrets W * (P * I)) (u : unit_in) : outcome (Secrets W * (P * I)) :=
  let '(from, k, d) := u in secret_finalize_input st from d k.

Lemma secret_my_input_ext party (st : Secrets W * I) d v v' k :
  (∀ i, 0 ≤ i < k → Z.testbit v i = Z.testbit v' i) →
  secret_my_input party st d v k = secret_my_input party st d v' k.
Proof.
  intros HE. unfold secret_my_input. destruct (resize_regs st.1 d k); [|done..]. rewrite !bind_ok.
  apply foldM_ext_in. intros [S input] i Hi%elem_of_seqZ. destruct (get_reg S d i); [|done..]. rewrite !bind_ok.
  by rewrite HE by lia.
Qed.

Lemma inputb_read_item party (st : Secrets W * list Z * I) q : 1 ≤ q.1.1.2 ≤ 64 →
  inputb_read_one party st q = item_read party st (item_of q).
Proof.
  destruct st as [[mem inp] input], q as [[[from n] sh] d]. cbn [fst snd]. intros Hn.
  assert (Z.min default_length (n - 0 * default_length) = n) as En by (unfold default_length; lia).
  unfold inputb_read_one, item_read, item_of. rewrite (one_unit n Hn). cbn [foldM]. rewrite En, Z.add_0_r.
  destruct (in_mine from); [|done]. destruct (get_long_input inp n) as [[x inp']| |] eqn:Ex; [|done..].
  rewrite !bind_ok. rewrite (secret_my_input_ext _ _ _ _ (Z.shiftr x 0)); [done|]. intros i Hi.
  change (0 * default_length) with 0. rewrite Z.shiftr_0_r, mpz_get_si_fits; [done|by eapply get_long_input_range].
Qed.

Definition vq_ok (q : Z * Z * Z * list Z) : Prop :=
  let '(from, n, _, ds) := q in (from = 0 ∨ from = 1) ∧ length ds = Z.to_nat n.

Lemma zip_dests (n : Z) (ds : list Z) : length ds = Z.to_nat n → (zip (seqZ 0 n) ds).*2 = ds.
Proof. intros Hl. apply snd_zip. rewrite length_seqZ. lia. Qed.

Lemma inputbvec_read_item party (st : Secrets W * list Z * I) q : vq_ok q →
  inputbvec_read_one party st q = item_read party st (item_of_vec q).
Proof.
  destruct st as [[mem inp] input], q as [[[from n] sh] ds]. cbn [vq_ok]. intros [Hf Hl].
  unfold inputbvec_read_one, item_read, item_of_vec.
  assert ((num_players <=? u32 from) = false) as -> by by destruct Hf as [-> | ->].
  destruct (in_mine from).
  - destruct (get_long_input inp n) as [[x inp']| |]; [|done..]. rewrite !bind_ok, foldM_fmap.
    erewrite foldM_ext; [done|]. intros st' [i d]. apply secret_my_input_ext. intros i' Hi'.
    assert (i' = 0) as -> by lia. by rewrite Z.land_spec, andb_true_r, mpz_get_si_low.
  - rewrite foldM_fmap. rewrite <-(zip_dests n ds Hl) at 1. rewrite foldM_fmap.
    erewrite foldM_ext; [done|]. by intros mem' [i d].
Qed.

Lemma inputb_finalize_item (st : Secrets W * (P * I)) q : 1 ≤ q.1.1.2 ≤ 64 →
  inputb_finalize_one st q = foldM unit_finalize st (units_of (item_of q)).
Proof.
  destruct q as [[[from n] sh] d]. cbn [fst snd]. intros Hn. unfold inputb_finalize_one. rewrite (one_unit n Hn).
  cbn [foldM item_of units_of fmap list_fmap unit_finalize].
  replace (Z.min default_length (n - 0 * default_length)) with n by (unfold default_length; lia). by rewrite Z.add_0_r.
Qed.

Lemma inputbvec_finalize_item (st : Secrets W * (P * I)) q : vq_ok q →
  inputbvec_finalize_one st q = foldM unit_finalize st (units_of (item_of_vec q)).
Proof.
  destruct q as [[[from n] sh] ds]. cbn [vq_ok]. intros [_ Hl]. unfold inputbvec_finalize_one, units_of, item_of_vec.
  rewrite !foldM_fmap. rewrite <-(zip_dests n ds Hl) at 1. rewrite foldM_fmap.
  apply foldM_ext. by intros st' [i d].
Qed.

(** What parsing gives. *)
Lemma vec_args_dests fuel args qs : vec_args fuel args = Ok qs →
  Forall (λ '(_, n, _, ds), length ds = Z.to_nat n) qs.
Proof.
  revert args qs. induction fuel as [|fuel IH]; intros [|n [|sh [|from rest]]] qs; cbn [vec_args];
    try (intros [= <-]; constructor); try done.
  destruct (Z.ltb_spec n 0); [done|]. destruct (Z.eqb_spec n 0); [done|]. cbn [orb].
  destruct (Z.ltb_spec (Z.of_nat (length rest)) (n - 3)); [done|].
  intros (l & E & [= <-])%bind_Ok_inv. constructor; [rewrite length_take; lia|by eapply IH].
Qed.

Definition parsed (i : input_instr) : Prop :=
  match i with
  | INPUTB args => Z.of_nat (length args) mod 4 = 0
  | INPUTBVEC args => is_ok (inputvec_args args) = true
  end.

Lemma vec_ok args qs : input_ok (INPUTBVEC args) → inputvec_args args = Ok qs → Forall vq_ok qs.
Proof.
  intros Hi E. destruct (Hi qs E) as [Hf _]. apply vec_args_dests in E.
  rewrite !Forall_forall in *. intros [[[from n] sh] ds] Hq. split; [exact (Hf _ Hq)|exact (E _ Hq)].
Qed.

Lemma input_items i party st : parsed i → input_ok i →
  input_read party st i = foldM (item_read party) st (items i).
Proof.
  destruct i as [args|args]; cbn [input_read items parsed].
  - intros Hp [Hi _]. unfold inputb_read, input_args. rewrite Hp, Z.eqb_refl, bind_ok, foldM_fmap. apply foldM_ext_in.
    intros st' q Hq. rewrite Forall_forall in Hi. specialize (Hi q Hq). destruct q as [[[from n] sh] d].
    apply inputb_read_item, Hi.
  - unfold inputbvec_read. destruct (inputvec_args args) as [qs| |] eqn:E; [|done..]. intros _ Hi.
    rewrite bind_ok, foldM_fmap. apply foldM_ext_in. intros st' q Hq.
    apply inputbvec_read_item. by eapply Forall_forall; [eapply vec_ok|].
Qed.

Lemma finalize_items i (st : Secrets W * (P * I)) : parsed i → input_ok i →
  input_finalize st i = foldM unit_finalize st (units (items i)).
Proof.
  unfold units. rewrite <-foldM_join, foldM_fmap. destruct i as [args|args]; cbn [input_finalize items parsed]; rewrite foldM_fmap.
  - intros Hp [Hi _]. unfold inputb_finalize, input_args. rewrite Hp, Z.eqb_refl, bind_ok. apply foldM_ext_in.
    intros st' q Hq. rewrite Forall_forall in Hi. specialize (Hi q Hq). destruct q as [[[from n] sh] d].
    apply inputb_finalize_item, Hi.
  - unfold inputbvec_finalize. destruct (inputvec_args args) as [qs| |] eqn:E; [|done..]. intros _ Hi.
    rewrite bind_ok. apply foldM_ext_in. intros st' q Hq.
    apply inputbvec_finalize_item. by eapply Forall_forall; [eapply vec_ok|].
Qed.
End item.

(** ** The plaintext machine *)
Definition plain_item (st : Secrets bool * list Z * list Z) (it : item)
    : outcome (Secrets bool * list Z * list Z) :=
  let '(from, n, ps) := it in
  plain_input st from n (λ x mem, foldM (λ mem '(lo, k, d), vset mem d (input_bits (Z.shiftr x lo) k)) mem ps).

Lemma plain_input_ext st from n put put' : (∀ x mem, put x mem = put' x mem) →
  plain_input st from n put = plain_input st from n put'.
Proof.
  intros HE. destruct st as [[mem in0] in1]. unfold plain_input.
  destruct (from =? 0); destruct (get_long_input _ n) as [[x inp]| |]; try done; rewrite !bind_ok; by rewrite HE.
Qed.

Lemma plain_items i st r : input_ok i → plain_inputb st i = Ok r →
  parsed i ∧ foldM plain_item st (items i) = Ok r ∧ Forall item_ok (items i) ∧ NoDup (dests (units (items i))).
Proof.
  destruct i as [args|args]; cbn [plain_inputb items parsed].
  - intros [Hi Hd]. unfold input_args. destruct (Z.eqb_spec (Z.of_nat (length args) mod 4) 0) as [E|]; [|done].
    rewrite bind_ok. intros HR. split_and!; [done| | |].
    + rewrite foldM_fmap. rewrite <-HR. apply foldM_ext. intros st' [[[from n] sh] d]. apply plain_input_ext.
      intros x mem. cbn [foldM item_of]. rewrite Z.shiftr_0_r. by destruct (vset mem d _).
    + apply Forall_fmap. eapply Forall_impl; [exact Hi|]. intros [[[from n] sh] d] [Hf Hn].
      split; [done|]. constructor; [lia|constructor].
    + replace (dests (units (item_of <$> quads args))) with ((λ '(_, _, _, dest), dest) <$> quads args : list Z); [done|].
      clear. induction (quads args) as [|[[[from n] sh] d] qs IH]; [done|]. cbn [fmap list_fmap]. rewrite dests_cons, <-IH. done.
  - intros Hi. destruct (inputvec_args args) as [qs| |] eqn:E; [|done..]. rewrite bind_ok. intros HR.
    pose proof (vec_ok args qs Hi E) as Hq. destruct (Hi qs E) as [_ Hd]. cbn [from_ok]. split_and!; [done| | |].
    + rewrite foldM_fmap. rewrite <-HR. apply foldM_ext_in. intros st' [[[from n] sh] ds] _. apply plain_input_ext.
      intros x mem. rewrite foldM_fmap. apply foldM_ext. intros mem' [i d].
      change (input_bits (Z.shiftr x i) 1) with [Z.testbit (Z.shiftr x i) 0]. by rewrite Z.shiftr_spec, Z.add_0_l by done.
    + apply Forall_fmap. eapply Forall_impl; [exact Hq|]. intros [[[from n] sh] ds] [Hf Hl].
      split; [done|]. apply Forall_fmap, Forall_forall. intros [i d] Hin%elem_of_zip_l. cbn.
      apply elem_of_seqZ in Hin. lia.
    + replace (dests (units (item_of_vec <$> qs))) with (mjoin ((λ '(_, _, _, dest), dest) <$> qs) : list Z); [done|].
      clear - Hq. induction Hq as [|[[[from n] sh] ds] qs [_ Hl] _ IH]; [done|].
      change (ds ++ mjoin ((λ '(_, _, _, dest), dest) <$> qs) = dests (units (item_of_vec (from, n, sh, ds) :: (item_of_vec <$> qs)))).
      rewrite dests_cons, <-IH. f_equal. cbn [item_of_vec snd]. unfold part_dests. rewrite <-list_fmap_compose.
      rewrite <-(zip_dests n ds Hl) at 1. by apply list_fmap_ext; intros ? [].
Qed.

(** ** All inputs

    The bits that player [k] enters for [its], part by part. *)
Definition part_sizes {A} (ps : list part) (l : list (list A)) : Prop :=
  Forall2 (λ '(_, k, _) ws, Z.of_nat (length ws) = k) ps l.

Inductive reads (k : Z) : list Z → list item → list (list bool) → list Z → Prop :=
  | reads_nil inp : reads k inp [] [] inp
  | reads_own n ps its x inp inp1 bss inp' : get_long_input inp n = Ok (x, inp1) →
      reads k inp1 its bss inp' → reads k inp ((k, n, ps) :: its) ((part_bits x <$> ps) ++ bss) inp'
  | reads_other from n ps its bs inp bss inp' : from ≠ k → part_sizes ps bs →
      reads k inp its bss inp' → reads k inp ((from, n, ps) :: its) (bs ++ bss) inp'.

(** What belongs to the inputs of the evaluator. *)
Definition sel {A} (us : list unit_in) (l : list (list A)) : list A :=
  mjoin (zip_with (λ '(from, _, _) x, if from =? 1 then x else []) us l).

Lemma sel_cons {A} from k d us (a : list A) l :
  sel ((from, k, d) :: us) (a :: l) = (if from =? 1 then a else []) ++ sel us l.
Proof. reflexivity. Qed.

Lemma sel_item {A} from n ps us (bs : list (list A)) l : length bs = length ps →
  sel (units_of (from, n, ps) ++ us) (bs ++ l) = (if from =? 1 then mjoin bs else []) ++ sel us l.
Proof.
  intros Hl. assert (sel (units_of (from, n, ps)) bs = if from =? 1 then mjoin bs else []) as <-.
  { revert bs Hl. induction ps as [|[[lo k] d] ps IH]; intros [|b bs] Hl; try done; [by destruct (_ =? _)|].
    injection Hl as Hl. cbn [units_of fmap list_fmap]. rewrite sel_cons. change (sel _ bs) with (sel (units_of (from, n, ps)) bs).
    rewrite (IH bs Hl). by destruct (from =? 1). }
  unfold sel. rewrite zip_with_app, join_app; [done|]. cbn [units_of]. by rewrite length_fmap.
Qed.

Lemma input_bits_length x n : 0 ≤ n → Z.of_nat (length (input_bits x n)) = n.
Proof. intros. unfold input_bits. rewrite length_fmap, length_seqZ. lia. Qed.

Lemma part_bits_sizes x ps : Forall (λ '(lo, k, _), 0 ≤ lo ∧ 0 ≤ k) ps → part_sizes ps (part_bits x <$> ps).
Proof.
  induction 1 as [|[[lo k] d] ps [_ Hk] _ IH]; [constructor|]. constructor; [|done]. by apply input_bits_length.
Qed.

Lemma wr_app {W} (S : Secrets W) ds1 ds2 l1 l2 : length l1 = length ds1 →
  wr S (ds1 ++ ds2) (l1 ++ l2) = wr (wr S ds1 l1) ds2 l2.
Proof. intros Hl. unfold wr. rewrite zip_with_app by done. apply foldl_app. Qed.

Lemma wr_cons {W} (S : Secrets W) d ds ws l : wr S (d :: ds) (ws :: l) = wr (<[Z.to_nat d := ws]> S) ds l.
Proof. done. Qed.

Definition in_range {W} (S : Secrets W) (ds : list Z) : Prop := Forall (λ r, 0 ≤ r < Z.of_nat (length S)) ds.

Lemma plain_parts x ps (S S' : Secrets bool) :
  foldM (λ mem '(lo, k, d), vset mem d (input_bits (Z.shiftr x lo) k)) S ps = Ok S' →
  S' = wr S (part_dests ps) (part_bits x <$> ps) ∧ in_range S (part_dests ps).
Proof.
  revert S. induction ps as [|[[lo k] d] ps IH]; intros S; cbn [foldM].
  { intros [= <-]. split; [done|constructor]. }
  intros (S1 & Es & HE)%bind_Ok_inv. apply IH in HE as [-> Hr].
  unfold vset in Es. destruct (Z.ltb_spec d 0); [done|].
  destruct (Z.leb_spec (Z.of_nat (length S)) d); [done|]. injection Es as <-.
  split; [done|]. unfold in_range in *. rewrite length_insert in Hr. by constructor.
Qed.

Lemma plain_loop its S in0 in1 S' in0' in1' : Forall item_ok its →
  foldM plain_item (S, in0, in1) its = Ok (S', in0', in1') →
  ∃ bss, reads 0 in0 its bss in0' ∧ reads 1 in1 its bss in1' ∧
    S' = wr S (dests (units its)) bss ∧ in_range S (dests (units its)).
Proof.
  intros Hq. revert S in0 in1. induction Hq as [|[[from n] ps] its [Hf Hp] _ IH];
    intros S in0 in1; cbn [foldM].
  { intros [= <- <- <-]. exists []. split_and!; [constructor..|done|constructor]. }
  intros ([[S1 in01] in11] & E & HE)%bind_Ok_inv. apply IH in HE as (bss & R0 & R1 & -> & Hr).
  assert (∃ x, (if from =? 0 then get_long_input in0 n = Ok (x, in01) ∧ in11 = in1
                else get_long_input in1 n = Ok (x, in11) ∧ in01 = in0) ∧
               S1 = wr S (part_dests ps) (part_bits x <$> ps) ∧ in_range S (part_dests ps)) as (x & Hx & -> & Hr1).
  { cbn [plain_item plain_input] in E. destruct (from =? 0); apply bind_Ok_inv in E as ([x i1] & Ex & E);
      apply bind_Ok_inv in E as (S2 & Es & [= -> <- <-]); apply plain_parts in Es; eauto. }
  exists ((part_bits x <$> ps) ++ bss). rewrite dests_cons. cbn [snd].
  rewrite wr_app by by unfold part_dests; rewrite !length_fmap.
  unfold in_range in *. rewrite wr_length in Hr. pose proof (part_bits_sizes x ps Hp) as Hs.
  split_and!; [| |done|by apply Forall_app].
  - destruct Hf as [-> | ->]; destruct Hx as [? ->]; [by eapply reads_own|by apply reads_other].
  - destruct Hf as [-> | ->]; destruct Hx as [? ->]; [by apply reads_other|by eapply reads_own].
Qed.

Section inputs.
Context {P : Type} `{Prng P} `{GateScheme} `{!GateLaws} `{Gmp}.
Context (delta : Key) (delta_odd : Z.odd delta = true).
#[local] Abbreviation Mem := (YaoSim.Mem delta).

Lemma garble_fill (g : Garbler P) keys x l j :
  imapS (λ input i w, Ok (in_my_input (W:=Key) g input w (Z.testbit x i))) j keys l
    = Ok ((λ i, w_public_input g (Z.testbit x i)) <$> seqZ j (Z.of_nat (length l)), keys).
Proof.
  revert j. induction l as [|w l IH]; intros j; [done|]. cbn [imapS]. rewrite bind_ok.
  unfold in_my_input at 1. cbn [garble_inputter]. rewrite IH, bind_ok.
  rewrite (seqZ_cons j) by (cbn; lia). cbn [fmap list_fmap].
  by replace (Z.pred (Z.of_nat (length (w :: l)))) with (Z.of_nat (length l)) by (cbn; lia).
Qed.

Lemma eval_fill (e : Evaluator) ei x (l : list Key) j :
  imapS (λ input i w, Ok (in_my_input (W:=Key) e input w (Z.testbit x i))) j ei l
    = Ok (l, mkEI (ei_inputs ei ++ ((λ i, Z.testbit x i) <$> seqZ j (Z.of_nat (length l))))
               (ei_i_bit ei) (ei_os ei) (ei_rows ei)).
Proof.
  revert ei j. induction l as [|w l IH]; intros ei j; cbn [imapS].
  { rewrite app_nil_r. by destruct ei. }
  rewrite bind_ok. unfold in_my_input at 1. cbn [eval_inputter]. rewrite IH, bind_ok. cbn [ei_inputs ei_i_bit ei_os ei_rows].
  rewrite (seqZ_cons j) by (cbn; lia). cbn [fmap list_fmap]. rewrite <-app_assoc.
  by replace (Z.pred (Z.of_nat (length (w :: l)))) with (Z.of_nat (length l)) by (cbn; lia).
Qed.

Definition even_key (k : Key) : Prop := ∃ k0, k = set_wire k0 false.

(** A register of the garbler after both phases. *)
Definition g_unit (g : Garbler P) (u : unit_in) (bs : list bool) (ws : list Key) : Prop :=
  let '(from, k, _) := u in
  Z.of_nat (length ws) = k ∧ Z.of_nat (length bs) = k ∧
  if from =? 1 then Forall even_key ws else ws = w_public_input g <$> bs.

(** A register of the garbler after the first. *)
Definition g_read_unit (g : Garbler P) (u : unit_in) (bs : list bool) (ws : list Key) : Prop :=
  let '(from, k, _) := u in
  Z.of_nat (length ws) = k ∧ Z.of_nat (length bs) = k ∧
  (from ≠ 1 → ws = w_public_input g <$> bs).

Lemma in_range_lookup {W} (S : Secrets W) d ds : in_range S (d :: ds) →
  0 ≤ d ∧ (∃ regs, S !! Z.to_nat d = Some regs) ∧ ∀ ws, in_range (<[Z.to_nat d := ws]> S) ds.
Proof.
  intros [Hd Hr]%Forall_cons_1. split_and!; [lia|apply lookup_lt_is_Some_2; lia|].
  intros ws. unfold in_range. by rewrite length_insert.
Qed.

(** The parts of an input of the other player. *)
Lemma other_parts {W' P'} `{WireOps W' P'} ps (S : Secrets W') : Forall (λ '(lo, k, _), 0 ≤ lo ∧ 0 ≤ k) ps →
  in_range S (part_dests ps) →
  ∃ l, foldM (λ mem '(_, k, d), secret_other_input mem d k) S ps = Ok (wr S (part_dests ps) l) ∧ part_sizes ps l.
Proof.
  intros Hp. revert S. induction Hp as [|[[lo k] d] ps [_ Hk] _ IH]; intros S Hr; [by exists []; split; [|constructor]|].
  apply in_range_lookup in Hr as (Hd & [regs HS] & Hr).
  destruct (IH _ (Hr (resize k regs))) as (l & E & HF). exists (resize k regs :: l). cbn [foldM].
  unfold secret_other_input at 1. rewrite (resize_regs_Ok _ _ _ _ Hd Hk HS), bind_ok. split; [exact E|].
  constructor; [by apply resize_length|done].
Qed.

Lemma garble_parts (g : Garbler P) keys x ps S : Forall (λ '(lo, k, _), 0 ≤ lo ∧ 0 ≤ k) ps →
  in_range S (part_dests ps) →
  foldM (λ st '(lo, k, d), secret_my_input g st d (Z.shiftr x lo) k) (S, keys) ps
    = Ok (wr S (part_dests ps) ((λ p, w_public_input g <$> part_bits x p) <$> ps), keys).
Proof.
  intros Hp. revert S. induction Hp as [|[[lo k] d] ps [_ Hk] _ IH]; intros S Hr; [done|].
  apply in_range_lookup in Hr as (Hd & [regs HS] & Hr). cbn [foldM].
  rewrite (secret_my_input_Ok _ _ _ _ _ _ regs _ _ Hd Hk HS (garble_fill g keys _ _ 0)), bind_ok.
  rewrite (resize_length k regs Hk), IH by apply Hr. cbn [part_dests fmap list_fmap part_bits].
  rewrite wr_cons. unfold input_bits. by rewrite <-list_fmap_compose.
Qed.

Lemma eval_parts (e : Evaluator) x ps : ∀ ei S, Forall (λ '(lo, k, _), 0 ≤ lo ∧ 0 ≤ k) ps →
  in_range S (part_dests ps) →
  ∃ l, foldM (λ st '(lo, k, d), secret_my_input e st d (Z.shiftr x lo) k) (S, ei) ps
      = Ok (wr S (part_dests ps) l,
            mkEI (ei_inputs ei ++ mjoin (part_bits x <$> ps)) (ei_i_bit ei) (ei_os ei) (ei_rows ei)) ∧
    part_sizes ps l.
Proof.
  induction ps as [|[[lo k] d] ps IH]; intros ei S Hp Hr.
  { exists []. split; [|constructor]. cbn. rewrite app_nil_r. by destruct ei. }
  apply Forall_cons in Hp as [[_ Hk] Hp]. apply in_range_lookup in Hr as (Hd & [regs HS] & Hr). cbn [foldM].
  rewrite (secret_my_input_Ok _ _ _ _ _ _ regs _ _ Hd Hk HS (eval_fill e ei _ _ 0)), bind_ok.
  assert (Z.of_nat (length (@resize Key Evaluator _ k regs)) = k) as Hlen by by apply resize_length.
  rewrite Hlen. edestruct (IH (mkEI (ei_inputs ei ++ input_bits (Z.shiftr x lo) k) (ei_i_bit ei) (ei_os ei) (ei_rows ei)) _ Hp
    (Hr (resize k regs))) as (l & E & HF). cbn [ei_inputs ei_i_bit ei_os ei_rows] in E. unfold input_bits in E.
  exists (resize k regs :: l). rewrite E. split; [|by constructor].
  cbn [fmap list_fmap mjoin list_join part_bits]. by rewrite <-app_assoc.
Qed.

Lemma g_read_parts (g : Garbler P) from n ps (bs : list (list bool)) (l : list (list Key)) us bss ls : (from = 0 ∨ from = 1) →
  part_sizes ps bs → part_sizes ps l → (from ≠ 1 → l = (λ b : list bool, w_public_input g <$> b : list Key) <$> bs) →
  Forall3 (g_read_unit g) us bss ls → Forall3 (g_read_unit g) (units_of (from, n, ps) ++ us) (bs ++ bss) (l ++ ls).
Proof.
  intros Hf Hb Hl He HF. apply Forall3_app; [|done]. cbn [units_of]. revert bs l Hb Hl He.
  induction ps as [|[[lo k] d] ps IH]; intros bs l Hb Hl He; inversion Hb; inversion Hl; subst; cbn; constructor.
  - split_and!; [done..|]. intros Hn. by injection (He Hn).
  - apply IH; [done..|]. intros Hn. by injection (He Hn).
Qed.

Lemma g_read (g : Garbler P) keys its inp bss inp' : reads 0 inp its bss inp' → ∀ S, Forall item_ok its →
  in_range S (dests (units its)) →
  ∃ l1, foldM (item_read g) (S, inp, keys) its = Ok (wr S (dests (units its)) l1, inp', keys) ∧
    Forall3 (g_read_unit g) (units its) bss l1.
Proof.
  induction 1 as [inp|n ps its x inp inp1 bss inp' Hx _ IH|from n ps its bs inp bss inp' Hn Hb _ IH];
    intros S Hi Hr; [by exists []; split; [|constructor]|..];
    apply Forall_cons in Hi as [[Hf Hp] Hi]; rewrite dests_cons in Hr |- *; cbn [snd] in Hr |- *; apply Forall_app in Hr as [Hr1 Hr2];
    cbn [foldM item_read in_mine garble_inputter].
  - set (l := (λ p, w_public_input g <$> part_bits x p) <$> ps).
    destruct (IH (wr S (part_dests ps) l) Hi) as (l1 & E & HF); [by unfold in_range; rewrite wr_length|].
    exists (l ++ l1). cbn [Z.eqb]. rewrite Hx, bind_ok, (garble_parts g keys x ps S Hp Hr1), bind_ok. cbn [fst snd].
    rewrite bind_ok. rewrite wr_app by by unfold part_dests, l; rewrite !length_fmap. split; [exact E|].
    rewrite units_cons. pose proof (part_bits_sizes x ps Hp) as Hs. apply g_read_parts; [done|done| | |done].
    + unfold l. revert Hs. unfold part_sizes. rewrite !Forall2_fmap_r. intros HF2. eapply Forall2_impl; [exact HF2|].
      intros [[lo k] d] p. cbn. by rewrite length_fmap.
    + intros _. unfold l. by rewrite <-list_fmap_compose.
  - destruct Hf as [-> | ->]; [done|]. cbn [Z.eqb].
    destruct (other_parts (P':=Garbler P) ps S Hp Hr1) as (l & El & Hl). rewrite El, !bind_ok.
    destruct (IH (wr S (part_dests ps) l) Hi) as (l1 & E & HF); [by unfold in_range; rewrite wr_length|].
    exists (l ++ l1). rewrite wr_app by by unfold part_dests; rewrite length_fmap; symmetry; eapply Forall2_length.
    split; [exact E|]. rewrite units_cons. by apply g_read_parts; [right|..].
Qed.

Definition unit_sizes (us : list unit_in) (l : list (list Key)) : Prop :=
  Forall2 (λ '(_, k, _) ws, Z.of_nat (length ws) = k) us l.

Lemma unit_sizes_app from n ps us l ls : part_sizes ps l → unit_sizes us ls →
  unit_sizes (units_of (from, n, ps) ++ us) (l ++ ls).
Proof.
  intros Hl HF. apply Forall2_app; [|done]. cbn [units_of]. apply Forall2_fmap_l. eapply Forall2_impl; [exact Hl|].
  by intros [[lo k] d] ws.
Qed.

Lemma e_read (e : Evaluator) its inp bss inp' : reads 1 inp its bss inp' → ∀ S ei, Forall item_ok its →
  in_range S (dests (units its)) →
  ∃ l1, foldM (item_read e) (S, inp, ei) its
      = Ok (wr S (dests (units its)) l1, inp',
            mkEI (ei_inputs ei ++ sel (units its) bss) (ei_i_bit ei) (ei_os ei) (ei_rows ei)) ∧
    unit_sizes (units its) l1.
Proof.
  induction 1 as [inp|n ps its x inp inp1 bss inp' Hx _ IH|from n ps its bs inp bss inp' Hn Hb _ IH];
    intros S ei Hi Hr; [exists []; split; [cbn; rewrite app_nil_r; by destruct ei|constructor]|..];
    apply Forall_cons in Hi as [[Hf Hp] Hi]; rewrite dests_cons in Hr |- *; cbn [snd] in Hr |- *; apply Forall_app in Hr as [Hr1 Hr2];
    cbn [foldM item_read in_mine eval_inputter].
  - destruct (eval_parts e x ps ei S Hp Hr1) as (l & El & Hl). rewrite Hx, !bind_ok, El, !bind_ok. cbn [fst snd].
    set (ei1 := mkEI (ei_inputs ei ++ mjoin (part_bits x <$> ps)) (ei_i_bit ei) (ei_os ei) (ei_rows ei)).
    destruct (IH (wr S (part_dests ps) l) ei1) as (l1 & E & HF); [done|by unfold in_range; rewrite wr_length|].
    exists (l ++ l1). rewrite wr_app by by unfold part_dests; rewrite length_fmap; symmetry; eapply Forall2_length.
    rewrite units_cons, sel_item by by rewrite length_fmap. split; [|by apply unit_sizes_app].
    rewrite (Z.eqb_refl 1), bind_ok, E. cbn [ei1 ei_inputs ei_i_bit ei_os ei_rows]. by rewrite <-app_assoc.
  - destruct Hf as [-> | ->]; [|done]. cbn [Z.eqb].
    destruct (other_parts (P':=Evaluator) ps S Hp Hr1) as (l & El & Hl). rewrite El, !bind_ok.
    destruct (IH (wr S (part_dests ps) l) ei Hi) as (l1 & E & HF); [by unfold in_range; rewrite wr_length|].
    exists (l ++ l1). rewrite wr_app by by unfold part_dests; rewrite length_fmap; symmetry; eapply Forall2_length.
    rewrite units_cons, sel_item by by symmetry; eapply Forall2_length. split; [exact E|by apply unit_sizes_app].
Qed.

Lemma garble_finalize_bit (g : Garbler P) keys w : in_finalize (W:=Key) 1 (g, keys) w
  = let '(k, prng) := get_doubleword (g_prng g) in
    Ok (set_wire k false, (g_set_prng g prng, keys ++ [set_wire k false])).
Proof.
  unfold in_finalize. cbn [garble_inputter]. rewrite (Z.eqb_refl 1).
  destruct (get_doubleword (g_prng g)) as [k prng]. cbv zeta.
  assert (mask (set_wire k false) = false) as ->; [|done].
  unfold mask, set_wire. rewrite get_signal_odd. apply set_signal_odd.
Qed.

Lemma garble_finalize_fill (g : Garbler P) keys (l : list Key) j : g_ok delta g →
  ∃ ws prng, imapS (λ pi _ w, in_finalize (W:=Key) 1 pi w) j (g, keys) l
      = Ok (ws, (g_set_prng g prng, keys ++ ws)) ∧
    length ws = length l ∧ Forall even_key ws.
Proof.
  intros Hg. revert g Hg keys j. induction l as [|w l IH]; intros g Hg keys j; cbn [imapS].
  { exists [], (g_prng g). rewrite app_nil_r. by destruct g. }
  rewrite garble_finalize_bit. destruct (get_doubleword (g_prng g)) as [k prng]. rewrite bind_ok.
  destruct (IH (g_set_prng g prng) Hg (keys ++ [set_wire k false]) (j + 1)) as (ws & prng' & E & Hl & HF).
  exists (set_wire k false :: ws), prng'. rewrite E, bind_ok, <-app_assoc. cbn [length].
  split_and!; [done|lia|constructor; [by exists k|done]].
Qed.

Lemma g_after_prng (g : Garbler P) prng : g_after g (g_set_prng g prng) [] [].
Proof. constructor; rewrite ?app_nil_r; cbn; try done. lia. Qed.

Lemma imapS_keep {W X} (f : X → Z → W → outcome (W * X)) x l j :
  (∀ j w, f x j w = Ok (w, x)) → imapS f j x l = Ok (l, x).
Proof. intros Hf. revert j. induction l as [|w l IH]; intros j; cbn [imapS]; [done|]. by rewrite Hf, bind_ok, IH. Qed.

Lemma lookups_ne {A} (S : list A) ds l d ws : d ∉ ds → Forall (λ r, 0 ≤ r) (d :: ds) →
  Forall2 (λ d ws, S !! Z.to_nat d = Some ws) ds l →
  Forall2 (λ d' ws', <[Z.to_nat d := ws]> S !! Z.to_nat d' = Some ws') ds l.
Proof.
  intros Hn [H0' Hr]%Forall_cons_1 HF.
  induction HF as [|d' ws' ds l Hd _ IH]; [constructor|].
  apply not_elem_of_cons in Hn as [Hn1 Hn]. apply Forall_cons in Hr as [Hr1 Hr].
  constructor; [|by apply IH]. by rewrite list_lookup_insert_ne by lia.
Qed.

Lemma g_finalize us : Forall u_ok us → ∀ (g : Garbler P) S keys bss l1, g_ok delta g →
  NoDup (dests us) → Forall (λ r, 0 ≤ r) (dests us) →
  Forall2 (λ d ws, S !! Z.to_nat d = Some ws) (dests us) l1 → Forall3 (g_read_unit g) us bss l1 →
  ∃ l2 prng, foldM unit_finalize (S, (g, keys)) us
      = Ok (wr S (dests us) l2, (g_set_prng g prng, keys ++ sel us l2)) ∧
    Forall3 (g_unit g) us bss l2.
Proof.
  induction 1 as [|[[from k] d] us [Hf Hn] _ IH]; intros g S keys bss l1 Hg Hd Hr HS HU.
  { exists [], (g_prng g). inversion HU. rewrite app_nil_r. split; [by destruct g|constructor]. }
  inversion HU as [|q bs ws qs' bss' l1' Hu HU']; subst. cbn [dests fmap list_fmap] in *.
  apply NoDup_cons in Hd as [Hd1 Hd]. apply Forall2_cons in HS as [HS1 HS].
  pose proof (Forall_cons_1 _ _ _ Hr) as [Hr1 Hr2]. destruct Hu as (Hl & Hlb & Hu).
  assert (∃ ws' prng, imapS (λ pi _ w, in_finalize (W:=Key) from pi w) 0 (g, keys) ws
            = Ok (ws', (g_set_prng g prng, keys ++ (if from =? 1 then ws' else []))) ∧
            g_unit g (from, k, d) bs ws') as (ws' & prng & E & Hg').
  { destruct Hf as [-> | ->].
    - exists ws, (g_prng g). cbn [Z.eqb]. rewrite app_nil_r. split.
      + replace (g_set_prng g (g_prng g)) with g by by destruct g. by apply imapS_keep.
      + split_and!; [done..|]. by apply Hu.
    - destruct (garble_finalize_fill g keys ws 0 Hg) as (ws' & prng & E & Hl' & HF).
      exists ws', prng. split; [exact E|]. split_and!; [lia|done|done]. }
  destruct (IH (g_set_prng g prng) (<[Z.to_nat d := ws']> S) (keys ++ (if from =? 1 then ws' else []))
    bss' l1' Hg Hd Hr2) as (l2 & prng2 & E2 & HF2); [by eapply lookups_ne|done|].
  exists (ws' :: l2), prng2. cbn [foldM unit_finalize].
  rewrite (secret_finalize_input_Ok S (g, keys) from d k ws ws' _ Hr1 HS1 Hl E), bind_ok, E2.
  split; [|by constructor]. by rewrite sel_cons, <-app_assoc.
Qed.

(** The evaluator's object when the keys [ks] for the bits [bs] are to come. *)
Definition ei_pending (ei : EvalInput) (ks : list Key) (bs : list bool) : Prop :=
  ∃ i q, ei_i_bit ei = Z.of_nat i ∧ drop i (ei_inputs ei) = bs ∧ length ks = length bs ∧
    ei_os ei = zip_with Z.lxor ks q ∧ (length ks ≤ length q)%nat ∧
    ∀ j b, bs !! j = Some b → ∃ k, q !! j = Some k ∧
      ei_rows ei !! (i + j)%nat = Some (Z.lxor k (key_if b delta)).

Lemma lxor_swap a b c : Z.lxor (Z.lxor a b) (Z.lxor b c) = Z.lxor a c.
Proof.
  apply Z.bits_inj'. intros i _. rewrite !Z.lxor_spec.
  by destruct (Z.testbit a i), (Z.testbit b i), (Z.testbit c i).
Qed.

Lemma eval_finalize_bit (e : Evaluator) ei k ks b bs w : even_key k →
  ei_pending ei (k :: ks) (b :: bs) →
  ∃ ei', in_finalize (W:=Key) 1 (e, ei) w = Ok (Z.lxor k (key_if b delta), (e, ei')) ∧
    ei_pending ei' ks bs.
Proof.
  intros [k0 ->] (i & q & Hi & Hd & Hl & Ho & Hq & Hrow).
  destruct q as [|q0 q]; [cbn in Hq; lia|]. cbn [zip_with] in Ho.
  destruct (Hrow 0%nat b eq_refl) as (k & [= <-] & Hr). rewrite Nat.add_0_r in Hr.
  unfold in_finalize. cbn [eval_inputter]. rewrite Z.eqb_refl, Ho, Hi.
  rewrite (vget_nat _ _ _ Hr), bind_ok.
  assert (ei_inputs ei !! i = Some b) as Hb.
  { rewrite <-(Nat.add_0_r i), <-lookup_drop, Hd. done. }
  rewrite (vget_nat _ _ _ Hb), bind_ok. cbv zeta. rewrite lxor_swap.
  assert (get_signal (Z.lxor (set_wire k0 false) (key_if b delta)) = b) as ->.
  { unfold set_wire. by rewrite get_signal_odd, odd_lxor, set_signal_odd, odd_key_if. }
  rewrite Bool.eqb_reflx. eexists. split; [done|].
  exists (S i), q. cbn [ei_i_bit ei_inputs ei_os ei_rows]. cbn [length] in *.
  split_and!; [lia|by rewrite <-Nat.add_1_r, <-drop_drop, Hd|lia|done|lia|].
  intros j b' Hj. destruct (Hrow (S j) b' Hj) as (k' & Hk & Hr'). exists k'. split; [done|].
  by rewrite Nat.add_succ_comm.
Qed.

Lemma eval_finalize_fill (e : Evaluator) ks' bs' ks : ∀ bs ei regs j, Forall even_key ks →
  ei_pending ei (ks ++ ks') (bs ++ bs') → length ks = length bs → length regs = length ks →
  ∃ ei', imapS (λ pi _ w, in_finalize (W:=Key) 1 pi w) j (e, ei) regs
      = Ok (zip_with (λ k b, Z.lxor k (key_if b delta)) ks bs, (e, ei')) ∧
    ei_pending ei' ks' bs'.
Proof.
  induction ks as [|k ks IH]; intros [|b bs] ei [|w regs] j HE HP Hl Hlr; try done.
  { exists ei. done. }
  apply Forall_cons in HE as [Hk HE]. cbn [app] in HP.
  destruct (eval_finalize_bit e ei k _ b _ w Hk HP) as (ei1 & E1 & HP1).
  destruct (IH bs ei1 regs (j + 1) HE HP1) as (ei' & E & HP'); [by injection Hl|by injection Hlr|].
  exists ei'. cbn [imapS zip_with]. by rewrite E1, bind_ok, E, bind_ok.
Qed.

Lemma eval_zero_fill (e : Evaluator) ei (l : list Key) j :
  imapS (λ pi _ w, in_finalize (W:=Key) 0 pi w) j (e, ei) l = Ok (replicate (length l) 0, (e, ei)).
Proof.
  revert j. induction l as [|w l IH]; intros j; [done|]. cbn [imapS length replicate].
  change (in_finalize 0 (e, ei) w) with (@Ok (Key * (Evaluator * EvalInput)) (0, (e, ei))).
  by rewrite bind_ok, IH.
Qed.

Lemma input_rel ws bs : length ws = length bs → Forall even_key ws →
  Forall3 (wire_rel delta) ws bs (zip_with (λ k b, Z.lxor k (key_if b delta)) ws bs).
Proof.
  revert bs. induction ws as [|w ws IH]; intros [|b bs] Hl HE; try done; [constructor|].
  apply Forall_cons in HE as [[k ->] HE]. constructor; [by apply rel_input|].
  apply IH; [by injection Hl|done].
Qed.

Lemma public_rel (g : Garbler P) bs : g_delta g = delta →
  Forall3 (wire_rel delta) (w_public_input g <$> bs) bs (replicate (length bs) 0).
Proof. intros Hg. induction bs; cbn; constructor; [|done]. rewrite Hg. apply rel_public. Qed.

Lemma e_finalize (g : Garbler P) (e : Evaluator) us : g_delta g = delta → Forall u_ok us →
  ∀ S ei bss l1 l2, NoDup (dests us) → Forall (λ r, 0 ≤ r) (dests us) →
  Forall2 (λ d ws, S !! Z.to_nat d = Some ws) (dests us) l1 →
  unit_sizes us l1 → Forall3 (g_unit g) us bss l2 →
  ei_pending ei (sel us l2) (sel us bss) →
  ∃ l3 ei', foldM unit_finalize (S, (e, ei)) us = Ok (wr S (dests us) l3, (e, ei')) ∧
    Forall3 (Forall3 (wire_rel delta)) l2 bss l3.
Proof.
  intros Hg. induction 1 as [|[[from k] d] us [Hf Hn] _ IH];
    intros S ei bss l1 l2 Hd Hr HS Hlen HU HP.
  { exists [], ei. inversion HU. split; [done|constructor]. }
  inversion HU as [|q bs ws qs' bss' l2' Hu HU']; subst q qs' bss l2. cbn [dests fmap list_fmap] in *.
  apply NoDup_cons in Hd as [Hd1 Hd].
  apply Forall2_cons_inv_l in HS as (regs & l1' & HS1 & HS & ->).
  apply Forall2_cons in Hlen as [Hl1 Hlen].
  pose proof (Forall_cons_1 _ _ _ Hr) as [Hr1 Hr2]. destruct Hu as (Hl & Hlb & Hu).
  assert (∃ ws' ei1, imapS (λ pi _ w, in_finalize (W:=Key) from pi w) 0 (e, ei) regs = Ok (ws', (e, ei1)) ∧
      Forall3 (wire_rel delta) ws bs ws' ∧ ei_pending ei1 (sel us l2') (sel us bss'))
    as (ws' & ei1 & E & HR & HP1).
  { rewrite !sel_cons in HP.
    destruct Hf as [-> | ->]; cbn [Z.eqb] in Hu, HP |- *.
    - subst ws. exists (replicate (length regs) 0), ei. split_and!; [apply eval_zero_fill| |done].
      replace (length regs) with (length bs) by lia. by apply public_rel.
    - destruct (eval_finalize_fill e _ _ ws bs ei regs 0 Hu HP) as (ei1 & E & HP1); [lia|lia|].
      eexists _, ei1. split_and!; [exact E| |exact HP1]. apply input_rel; [lia|done]. }
  destruct (IH (<[Z.to_nat d := ws']> S) ei1 bss' l1' l2' Hd Hr2) as (l3 & ei2 & E2 & HF2);
    [by eapply lookups_ne|done..|].
  exists (ws' :: l3), ei2. cbn [foldM unit_finalize].
  rewrite (secret_finalize_input_Ok S (e, ei) from d k regs ws' _ Hr1 HS1 Hl1 E), bind_ok, E2.
  split; [done|by constructor].
Qed.

Lemma sel_length {A B} (Q : unit_in → list A → list B → Prop) us l1 l2 :
  (∀ u a b, Q u a b → length a = length b) → Forall3 Q us l1 l2 →
  length (sel us l1) = length (sel us l2).
Proof.
  intros HQ. induction 1 as [|[[from k] d] a b us l1 l2 Hq _ IH]; [done|].
  rewrite !sel_cons, !length_app, IH.
  f_equal. destruct (from =? 1); [|done]. by eapply HQ.
Qed.

Lemma Forall3_len {A B C} (Q : A → B → C → Prop) l1 l2 l3 : Forall3 Q l1 l2 l3 →
  length l2 = length l1 ∧ length l3 = length l1.
Proof. intros HF. apply Forall3_lengths in HF as [-> ->]. done. Qed.

(** What [masked_keys] sends. *)
Lemma masked_keys_Ok ks rows : (length ks ≤ length rows)%nat →
  masked_keys ks rows = Ok (zip_with Z.lxor ks rows).
Proof. apply mapM_zip_seq0. Qed.

(** The state that the OT leaves to the evaluator. *)
Lemma exchange_pending ei ks bs rows t : ei_inputs ei = bs → ei_i_bit ei = 0 →
  length ks = length bs → (length bs ≤ length rows)%nat →
  (∀ i b, bs !! i = Some b →
     ∃ k, rows !! i = Some k ∧ t !! i = Some (Z.lxor k (key_if b delta))) →
  ei_pending (ei_exchange ei t (zip_with Z.lxor ks rows)) ks bs.
Proof.
  intros <- Hi Hl Hr HT. exists 0%nat, rows. cbn [ei_i_bit ei_inputs ei_os ei_rows ei_exchange].
  split_and!; [done|by rewrite drop_0|done|done|lia|done].
Qed.

Lemma rows_length {A} (bs : list bool) (rows : list A) (Q : nat → bool → A → Prop) :
  (∀ i b, bs !! i = Some b → ∃ k, rows !! i = Some k ∧ Q i b k) → (length bs ≤ length rows)%nat.
Proof.
  intros HQ. destruct bs as [|b bs]; [cbn; lia|].
  destruct (lookup_lt_is_Some_2 (b :: bs) (length bs) ltac:(cbn; lia)) as [b' Hb].
  destruct (HQ _ _ Hb) as (k & Hk & _). apply lookup_lt_Some in Hk. cbn. lia.
Qed.

(** Both phases of both parties. *)
Lemma input_correct Sg Sp Se i in0 in1 Sp' in0' in1' (g : Garbler P) :
  input_ok i → Mem Sg Sp Se → plain_inputb (Sp, in0, in1) i = Ok (Sp', in0', in1') →
  g_ok delta g →
  ∃ S1 Sg' prng keys,
    input_read g (Sg, in0, []) i = Ok (S1, in0', @nil Key) ∧
    input_finalize (S1, (g, [])) i = Ok (Sg', (g_set_prng g prng, keys)) ∧
    ∀ e : Evaluator, ∃ Se1 bits,
      input_read e (Se, in1, ei_new) i = Ok (Se1, in1', mkEI bits 0 [] []) ∧
      length bits = length keys ∧
      ∀ rows t,
        (∀ i b, bits !! i = Some b →
           ∃ k, rows !! i = Some k ∧ t !! i = Some (Z.lxor k (key_if b delta))) →
        ∃ os Se' ei', masked_keys keys rows = Ok os ∧
          input_finalize (Se1, (e, ei_exchange (mkEI bits 0 [] []) t os)) i = Ok (Se', (e, ei')) ∧
          Mem Sg' Sp' Se'.
Proof.
  intros Hi HM HP Hg. apply plain_items in HP as (Hpi & HP & Hq & Hd); [|done].
  set (us := units (items i)) in *. pose proof (units_ok _ Hq) as Hu. fold us in Hu.
  destruct (plain_loop _ _ _ _ _ _ _ Hq HP) as (bss & R0 & R1 & -> & Hr). fold us in Hr |- *.
  destruct (Forall3_lengths _ _ _ _ HM) as [Eg Ee].
  assert (in_range Sg (dests us)) as Hrg by (unfold in_range; by rewrite Eg).
  assert (in_range Se (dests us)) as Hre by (unfold in_range; by rewrite Ee).
  assert (Forall (λ r, 0 ≤ r) (dests us)) as Hr0 by (eapply Forall_impl; [exact Hr|cbn; lia]).
  destruct (g_read g [] _ _ _ _ R0 Sg Hq Hrg) as (l1 & E1 & HU1). fold us in E1, HU1.
  assert (length (dests us) = length us) as Hld by apply length_fmap.
  destruct (Forall3_len _ _ _ _ HU1) as [_ Hl1].
  destruct (g_finalize us Hu g (wr Sg (dests us) l1) [] bss l1 Hg Hd Hr0) as (l2 & prng & E2 & HU2).
  { apply wr_lookups; [done|done|by rewrite Hld]. }
  { done. }
  destruct (Forall3_len _ _ _ _ HU2) as [Hlb Hl2].
  exists (wr Sg (dests us) l1), (wr (wr Sg (dests us) l1) (dests us) l2), prng, (sel us l2).
  rewrite input_items, finalize_items by done. split_and!; [done|done|]. intros e.
  destruct (e_read e _ _ _ _ R1 Se ei_new Hq Hre) as (l3 & E3 & HU3). fold us in E3, HU3.
  exists (wr Se (dests us) l3), (sel us bss).
  assert (length (sel us bss) = length (sel us l2)) as Hls.
  { eapply sel_length; [|exact HU2]. intros [[from k] d] bs ws (Ha & Hb & _). lia. }
  rewrite input_items by done. split_and!; [exact E3|done|]. intros rows t HT.
  pose proof (rows_length _ _ _ HT) as Hrl.
  destruct (e_finalize g e us (proj1 Hg) Hu (wr Se (dests us) l3)
    (ei_exchange (mkEI (sel us bss) 0 [] []) t (zip_with Z.lxor (sel us l2) rows)) bss l3 l2 Hd Hr0)
    as (l4 & ei' & E4 & HR).
  { apply wr_lookups; [done|done|]. rewrite Hld. symmetry. by eapply Forall2_length. }
  { done. }
  { done. }
  { by apply exchange_pending. }
  eexists _, _, ei'. split_and!; [apply masked_keys_Ok; lia|by rewrite finalize_items|].
  rewrite !wr_wr.
  - by apply wr_rel3.
  - rewrite Hld. apply Forall3_lengths in HR as [_ ->]. lia.
  - rewrite Hld. lia.
Qed.
End inputs.
