(* ===== verification/YaoMachine.v ===== *)
(** * The machine around the wires

    The instructions of [GC/instructions.h] on clear and integer registers and on
    memory, which both Yao parties execute alike, the whole state of a machine,
    and the meaning of a program on plaintext bits and inputs. *)

From S2P Require Import Prelude Xor Block Aes Workers YaoKey YaoGate GcVm YaoWire YaoSim YaoProps YaoJobs YaoVm YaoInput.

(** ** [Integer] and [Clear]

    A clear register holds the 64 bits of its [long], an integer register the
    value of its [long]. *)

(** The result of an arithmetic operation on [long]. *)
Definition long (x : Z) : outcome Z := int64 x.

(** [IntBase::operator>>] and [IntBase::operator<<] on the bits [a] of a [long]. *)
Definition shift_right (a n : Z) : outcome Z :=
  if n <? 64 then if n <? 0 then UB else Ok (Z.shiftr a n) else Ok 0.
Definition shift_left (a n : Z) : outcome Z :=
  if n <? 64 then if n <? 0 then UB else Ok (u64 (Z.shiftl a n)) else Ok 0.

(** ** Clear state *)
Record Pub := mkPub {
  p_C : Clears;
  p_MC : Clears;
  p_I : list Z;
  p_MI : list Z;
  p_PC : Z;
}.

Definition set_C (p : Pub) (C : Clears) : Pub := mkPub C (p_MC p) (p_I p) (p_MI p) (p_PC p).
Definition set_MC (p : Pub) (MC : Clears) : Pub := mkPub (p_C p) MC (p_I p) (p_MI p) (p_PC p).
Definition set_I (p : Pub) (I : list Z) : Pub := mkPub (p_C p) (p_MC p) I (p_MI p) (p_PC p).
Definition set_MI (p : Pub) (MI : list Z) : Pub := mkPub (p_C p) (p_MC p) (p_I p) MI (p_PC p).
Definition set_PC (p : Pub) (PC : Z) : Pub := mkPub (p_C p) (p_MC p) (p_I p) (p_MI p) PC.

Definition put_C (p : Pub) (r : Z) (m : outcome Z) : outcome Pub :=
  x ← m; C ← vset (p_C p) r x; Ok (set_C p C).
Definition put_I (p : Pub) (r : Z) (m : outcome Z) : outcome Pub :=
  x ← m; I ← vset (p_I p) r x; Ok (set_I p I).

(** [Processor::mem_op] on two vectors.  The references to the first elements are formed
    for [n = 0] too; [check_index] is empty without [CHECK_SIZE], as [GC/config.h] has it. *)
Definition mem_op {A} (n : Z) (dest source : list A) (dest_address source_address : Z)
    : outcome (list A) :=
  _ ← vget dest dest_address;
  _ ← vget source source_address;
  foldM (λ dest i, x ← vget source (source_address + i); vset dest (dest_address + i) x)
    dest (seqZ 0 n).

(** Registers [r], the immediate [n] as a [size_t], the vector [size]. *)
Inductive pinstr :=
  | XORCBI (r0 r1 n : Z)
  | ADDCB (r0 r1 r2 : Z)
  | ADDCBI (r0 r1 n : Z)
  | MULCBI (r0 r1 n : Z)
  | SHRCBI (r0 r1 n : Z)
  | SHLCBI (r0 r1 n : Z)
  | LDMCB (r0 n size : Z)
  | STMCB (r0 n size : Z)
  | LDMCBI (r0 r1 size : Z)
  | STMCBI (r0 r1 size : Z)
  | CONVCINT (r0 r1 : Z)
  | CONVCBIT (r0 r1 : Z)
  | LDINT (r0 n : Z)
  | ADDINT (r0 r1 r2 : Z)
  | SUBINT (r0 r1 r2 : Z)
  | MULINT (r0 r1 r2 : Z)
  | DIVINT (r0 r1 r2 : Z)
  | JMP (n : Z)
  | JMPNZ (r0 n : Z)
  | JMPEQZ (r0 n : Z)
  | JMPI (r0 : Z)
  | EQZC (r0 r1 : Z)
  | LTZC (r0 r1 : Z)
  | LTC (r0 r1 r2 : Z)
  | GTC (r0 r1 r2 : Z)
  | EQC (r0 r1 r2 : Z)
  | LDMINT (r0 n : Z)
  | STMINT (r0 n : Z)
  | LDMINTI (r0 r1 : Z)
  | STMINTI (r0 r1 : Z)
  | MOVINT (r0 r1 : Z)
  | BITDECINT (regs : list Z) (r0 : Z).

Definition get_C (p : Pub) (r : Z) : outcome Z := vget (p_C p) r.
Definition get_I (p : Pub) (r : Z) : outcome Z := vget (p_I p) r.

(** The binary operation [f] on integer registers. *)
Definition int_op (p : Pub) (r0 r1 r2 : Z) (f : Z → Z → outcome Z) : outcome Pub :=
  put_I p r0 (a ← get_I p r1; b ← get_I p r2; f a b).

Definition jump (p : Pub) (offset : Z) : Pub := set_PC p (u32 (p_PC p + offset)).

(** [PC] has been incremented already. *)
Definition exec_pub (i : pinstr) (p : Pub) : outcome Pub :=
  match i with
  | XORCBI r0 r1 n => put_C p r0 (a ← get_C p r1; Ok (Z.lxor a (u64 n)))
  | ADDCB r0 r1 r2 =>
      put_C p r0 (a ← get_C p r1; b ← get_C p r2; x ← long (s64 a + s64 b); Ok (u64 x))
  | ADDCBI r0 r1 n => put_C p r0 (a ← get_C p r1; x ← long (s64 a + s32 n); Ok (u64 x))
  | MULCBI r0 r1 n => put_C p r0 (a ← get_C p r1; x ← long (s64 a * s32 n); Ok (u64 x))
  | SHRCBI r0 r1 n => put_C p r0 (a ← get_C p r1; shift_right a (s64 n))
  | SHLCBI r0 r1 n => put_C p r0 (a ← get_C p r1; shift_left a (s64 n))
  | LDMCB r0 n size => C ← mem_op size (p_C p) (p_MC p) r0 (s64 n); Ok (set_C p C)
  | STMCB r0 n size => MC ← mem_op size (p_MC p) (p_C p) (s64 n) r0; Ok (set_MC p MC)
  | LDMCBI r0 r1 size =>
      a ← get_I p r1; C ← mem_op size (p_C p) (p_MC p) r0 a; Ok (set_C p C)
  | STMCBI r0 r1 size =>
      a ← get_I p r1; MC ← mem_op size (p_MC p) (p_C p) a r0; Ok (set_MC p MC)
  | CONVCINT r0 r1 => put_C p r0 (a ← get_I p r1; Ok (u64 a))
  | CONVCBIT r0 r1 => put_I p r0 (a ← get_C p r1; Ok (s64 a))
  | LDINT r0 n => put_I p r0 (Ok (s32 n))
  | ADDINT r0 r1 r2 => int_op p r0 r1 r2 (λ a b, long (a + b))
  | SUBINT r0 r1 r2 => int_op p r0 r1 r2 (λ a b, long (a - b))
  | MULINT r0 r1 r2 => int_op p r0 r1 r2 (λ a b, long (a * b))
  | DIVINT r0 r1 r2 => int_op p r0 r1 r2 (λ a b, if b =? 0 then UB else long (Z.quot a b))
  | JMP n => Ok (jump p n)
  | JMPNZ r0 n => a ← get_I p r0; Ok (if a =? 0 then p else jump p n)
  | JMPEQZ r0 n => a ← get_I p r0; Ok (if a =? 0 then jump p n else p)
  | JMPI r0 => a ← get_I p r0; Ok (jump p a)
  | EQZC r0 r1 => put_I p r0 (a ← get_I p r1; Ok (b2z (a =? 0)))
  | LTZC r0 r1 => put_I p r0 (a ← get_I p r1; Ok (b2z (a <? 0)))
  | LTC r0 r1 r2 => int_op p r0 r1 r2 (λ a b, Ok (b2z (a <? b)))
  | GTC r0 r1 r2 => int_op p r0 r1 r2 (λ a b, Ok (b2z (b <? a)))
  | EQC r0 r1 r2 => int_op p r0 r1 r2 (λ a b, Ok (b2z (a =? b)))
  | LDMINT r0 n => put_I p r0 (vget (p_MI p) (s64 n))
  | STMINT r0 n => a ← get_I p r0; MI ← vset (p_MI p) (s64 n) a; Ok (set_MI p MI)
  | LDMINTI r0 r1 => put_I p r0 (a ← get_I p r1; vget (p_MI p) a)
  | STMINTI r0 r1 =>
      a ← get_I p r0; d ← get_I p r1; MI ← vset (p_MI p) d a; Ok (set_MI p MI)
  | MOVINT r0 r1 => put_I p r0 (get_I p r1)
  | BITDECINT regs r0 =>
      foldM (λ p '(i, r), put_I p r (x ← get_I p r0; y ← shift_right (u64 x) (Z.of_nat i); Ok (Z.land y 1)))
        p (zip (seq 0 (length regs)) regs)
  end.

(** ** The whole machine *)
Record Mach (W : Type) := mkMach { m_S : Secrets W; m_MS : Secrets W; m_pub : Pub }.
Arguments mkMach {W}.
Arguments m_S {W}.
Arguments m_MS {W}.
Arguments m_pub {W}.

(** [minstr] is an instruction of the program, the inputs apart. *)
Inductive minstr :=
  | Wire (i : instr)
  | Public (i : pinstr)
  | LDMSB (r0 n size : Z)
  | STMSB (r0 n size : Z)
  | LDMSBI (r0 r1 size : Z)
  | STMSBI (r0 r1 size : Z)
  | CONVSINT (r0 n r1 : Z).

Inductive program_instr :=
  | Local (i : minstr)
  | Input (i : input_instr).

Section exec.
Context {W P : Type} `{WireOps W P} `{!WireInstrs W P}.

Definition set_S (m : Mach W) (S : Secrets W) : Mach W := mkMach S (m_MS m) (m_pub m).
Definition set_MS (m : Mach W) (MS : Secrets W) : Mach W := mkMach (m_S m) MS (m_pub m).
Definition set_pub (m : Mach W) (p : Pub) : Mach W := mkMach (m_S m) (m_MS m) p.

Definition mach_exec (i : minstr) (m : Mach W) (party : P) : outcome (Mach W * P) :=
  match i with
  | Wire i =>
      '(mem, C, party) ← exec i (m_S m, p_C (m_pub m)) party;
      Ok (mkMach mem (m_MS m) (set_C (m_pub m) C), party)
  | Public i => p ← exec_pub i (m_pub m); Ok (set_pub m p, party)
  | LDMSB r0 n size => mem ← mem_op size (m_S m) (m_MS m) r0 (s64 n); Ok (set_S m mem, party)
  | STMSB r0 n size => mem ← mem_op size (m_MS m) (m_S m) (s64 n) r0; Ok (set_MS m mem, party)
  | LDMSBI r0 r1 size =>
      a ← get_I (m_pub m) r1; mem ← mem_op size (m_S m) (m_MS m) r0 a; Ok (set_S m mem, party)
  | STMSBI r0 r1 size =>
      a ← get_I (m_pub m) r1; mem ← mem_op size (m_MS m) (m_S m) a r0; Ok (set_MS m mem, party)
  | CONVSINT r0 n r1 =>
      x ← get_I (m_pub m) r1; mem ← load_clear party (m_S m) r0 (s32 n) x; Ok (set_S m mem, party)
  end.
End exec.

Lemma mach_exec_le {W P} `{WireOps W P} (I1 I2 : WireInstrs W P) i m party r : instrs_le I1 I2 →
  mach_exec (WireInstrs0:=I1) i m party = Ok r → mach_exec (WireInstrs0:=I2) i m party = Ok r.
Proof.
  intros HI. destruct i; cbn [mach_exec]; try done. apply bind_le. intros a. by apply exec_le.
Qed.

(** [Program::execute]: the instruction at [PC], which moves on, and the end of
    the program. *)
Definition fetch {W} (prog : list program_instr) (m : Mach W) : option (program_instr * Mach W) :=
  if Z.of_nat (length prog) <=? p_PC (m_pub m) then None
  else
    i ← prog !! Z.to_nat (p_PC (m_pub m));
    Some (i, set_pub m (set_PC (m_pub m) (p_PC (m_pub m) + 1))).

(** [Processor::complexity] counts the gates and the input bits. *)
Definition cost (i : program_instr) : Z :=
  match i with
  | Local (Wire (ANDRS args)) | Local (Wire (ANDS args)) => from_ok 0 (check_args args 4)
  | Input i => n_input_bits i
  | _ => 0
  end.

(** ** A program on plaintext bits and the inputs of both players *)
Definition PlainState : Type := Mach bool * list Z * list Z.

Definition plain_exec (i : program_instr) (st : PlainState) : outcome PlainState :=
  let '(m, in0, in1) := st in
  match i with
  | Local i => st ← mach_exec i m tt; Ok (st.1, in0, in1)
  | Input i =>
      '(mem, in0, in1) ← plain_inputb (m_S m, in0, in1) i;
      Ok (set_S m mem, in0, in1)
  end.

(** [None]: the fuel did not suffice. *)
Fixpoint plain_run (fuel : nat) (prog : list program_instr) (st : PlainState)
    : outcome (option PlainState) :=
  match fetch prog st.1.1 with
  | None => Ok (Some st)
  | Some (i, m) =>
      match fuel with
      | O => Ok None
      | S fuel => st ← plain_exec i (m, st.1.2, st.2); plain_run fuel prog st
      end
  end.

(** ** One step of the three machines *)
Section machines.
Context {P : Type} `{Prng P} `{GateScheme} `{!GateLaws}.
Context (delta : Key) (delta_odd : Z.odd delta = true) {sched : Scheduler}.
#[local] Abbreviation Mem := (YaoSim.Mem delta).
#[local] Abbreviation sim := (YaoSim.sim (P:=P) delta).

Definition mach_rel (mg : Mach Key) (m : Mach bool) (me : Mach Key) : Prop :=
  Mem (m_S mg) (m_S m) (m_S me) ∧ Mem (m_MS mg) (m_MS m) (m_MS me) ∧
  m_pub mg = m_pub m ∧ m_pub me = m_pub m.

Definition minstr_ok (i : minstr) : Prop :=
  match i with Wire i => instr_ok i | _ => True end.

Lemma mem_op_rel3 {A B C} (Q : A → B → C → Prop) n d1 d2 d3 s1 s2 s3 da sa :
  Forall3 Q d1 d2 d3 → Forall3 Q s1 s2 s3 →
  out3 (Forall3 Q) (mem_op n d1 s1 da sa) (mem_op n d2 s2 da sa) (mem_op n d3 s3 da sa).
Proof.
  intros Hd Hs. eapply out3_bind; [by apply vget_rel3|]. intros _ _ _ _.
  eapply out3_bind; [by apply vget_rel3|]. intros _ _ _ _.
  apply out3_foldM; [|done]. clear - Hs. intros i d1 d2 d3 _ Hd.
  eapply out3_bind; [by apply vget_rel3|]. intros x1 x2 x3 Hx. by apply vset_rel3.
Qed.

(** The same public computation first. *)
Lemma sim_pure {X A B C} (Rv : A → B → C → Prop) (m : outcome X) fg fp fe :
  (∀ x, sim Rv (fg x) (fp x) (fe x)) →
  sim Rv (λ g, x ← m; fg x g) (x ← m; fp x) (λ e, x ← m; fe x e).
Proof. intros HS b u Hb. destruct m as [x| |]; [|done..]. exact (HS x b u Hb). Qed.

Lemma mem_op_sim {A B C} (Rv : A → B → C → Prop) n d1 d2 d3 s1 s2 s3 da sa
    (f1 : Secrets Key → A) (f2 : Secrets bool → B) (f3 : Secrets Key → C) :
  Mem d1 d2 d3 → Mem s1 s2 s3 → (∀ m1 m2 m3, Mem m1 m2 m3 → Rv (f1 m1) (f2 m2) (f3 m3)) →
  sim Rv (λ g, m ← mem_op n d1 s1 da sa; Ok (f1 m, g)) (m ← mem_op n d2 s2 da sa; Ok (f2 m, tt))
    (λ e, m ← mem_op n d3 s3 da sa; Ok (f3 m, e)).
Proof.
  intros Hd Hs HR. eapply (sim_lift delta Mem); [by apply mem_op_rel3|].
  intros m1 m2 m3 Hm. by apply sim_ret, HR.
Qed.

Lemma sim_public_map {A B C A' B' C'} (R0 : A → B → C → Prop) (Rv : A' → B' → C' → Prop)
    m1 m2 m3 f1 f2 f3 :
  (∀ g e b, g_ok delta g → synced g e → m2 = Ok b →
     ∃ a c, m1 g = Ok a ∧ m3 e = Ok c ∧ R0 a b c) →
  (∀ a b c, R0 a b c → Rv (f1 a) (f2 b) (f3 c)) →
  sim Rv (λ g, a ← m1 g; Ok (f1 a, g)) (b ← m2; Ok (f2 b, tt)) (λ e, c ← m3 e; Ok (f3 c, e)).
Proof.
  intros HR HF.
  eapply (sim_ext delta _ _ _ _ (λ g, a ← (a ← m1 g; Ok (f1 a)); Ok (a, g))
    (b ← (b ← m2; Ok (f2 b)); Ok (b, tt)) (λ e, c ← (c ← m3 e; Ok (f3 c)); Ok (c, e))).
  - intros g. by destruct (m1 g).
  - by destruct m2.
  - intros e. by destruct (m3 e).
  - apply sim_public. intros g e b Hg Hs Hb. apply bind_Ok_inv in Hb as (b0 & Hb & [= <-]).
    destruct (HR g e b0 Hg Hs Hb) as (a & c & -> & -> & HR0).
    exists (f1 a), (f3 c). by auto.
Qed.

Lemma mach_sim i mg m me : minstr_ok i → mach_rel mg m me →
  sim mach_rel (mach_exec i mg) (mach_exec i m tt) (mach_exec i me).
Proof.
  destruct mg as [Sg MSg p], m as [Sp MSp p'], me as [Se MSe p'']. intros Hi (HM & HMS & E1 & E2).
  cbn [m_S m_MS m_pub] in *. subst p p''. rename p' into p.
  destruct i; cbn [mach_exec minstr_ok m_S m_MS m_pub] in *.
  - eapply (sim_bind delta (regs_rel delta) mach_rel (λ g, exec i (Sg, p_C p) g)
      (exec i (Sp, p_C p) tt) (λ e, exec i (Se, p_C p) e)); [by apply instr_sim|].
    intros [S1 C1] [S2 C2] [S3 C3] (HM' & ? & ?). cbn [fst snd] in *. subst. by apply sim_ret.
  - apply sim_pure. intros p'. by apply sim_ret.
  - by apply mem_op_sim.
  - by apply mem_op_sim.
  - apply sim_pure. intros a. by apply mem_op_sim.
  - apply sim_pure. intros a. by apply mem_op_sim.
  - apply sim_pure. intros x. apply (sim_public_map Mem); [|done].
    intros g e b [Hg _] _. apply out3_Ok. apply load_clear_rel3; [|intros v; by apply rel_publics|done].
    apply (rel_new (P:=P)).
Qed.
End machines.
