(* ===== verification/YaoSession.v ===== *)
(** * The session of the two parties

    [YaoGarbler::run] and [YaoEvaluator::run] in continuous mode as two machines
    that exchange messages over queues.  The garbler works ahead until a value is
    revealed or enough gates have accumulated, sends its gates, and serves the
    OTs for the inputs of the evaluator; the evaluator follows with the gates it
    received and returns the values it reveals.  Every step has its own schedule of the
    jobs of its instruction. *)

From S2P Require Import Prelude Xor Block Aes Workers YaoKey YaoGate GcVm YaoWire YaoSim YaoProps YaoJobs YaoVm YaoInput YaoInputProps YaoMachine.

(** [RuntimeBranching::untaint]: the flag afterwards and whether it throws
    [needs_cleaning]. *)
Definition untaint (tainted : bool) : bool * bool :=
  if tainted then (false, true) else (true, false).

Inductive g_mode := GExec | GSend (last : bool) | GInputs (last : bool) | GDone.
Inductive e_mode := ERecv | EExec | EInput (i : input_instr) (ei : EvalInput) | EDone.

Section session.
Context {P O : Type} `{Prng P} `{GateScheme} `{Gmp} `{!CorrelatedOT O}.
Context (prog : list program_instr) (batch_size : Z).

(** ** Configurations *)
Record GConf := mkGC {
  gc_mode : g_mode;
  gc_mach : Mach Key;
  gc_in : list Z;
  gc_party : Garbler P;
  gc_complexity : Z;
  gc_tainted : bool;
  gc_keys : list (list Key);
}.

Record EConf := mkEC {
  ec_mode : e_mode;
  ec_mach : Mach Key;
  ec_in : list Z;
  ec_party : Evaluator;
  ec_complexity : Z;
}.

(** The state of the system: the parties, the OT, and what is under way: gates
    and masks, revealed values, choice bits, keys of inputs with the rows of the
    receiver. *)
Record Sys := mkSys {
  s_g : GConf;
  s_e : EConf;
  s_ot : O;
  s_batches : list (list gate * list bool);
  s_bufs : list (list Z);
  s_bits : list (list bool);
  s_os : list (list Key * list Key);
}.

(** ** The garbler *)
Section party_steps.
Context {sched : Scheduler}.

(** The end of an instruction: [Program::execute] goes on while the complexity is
    small. *)
Definition g_next (i : program_instr) (m : Mach Key) (inp : list Z) (g : Garbler P) (complexity : Z)
    (keys : list (list Key)) : GConf :=
  let complexity := complexity + cost i in
  mkGC (if complexity <? batch_size then GExec else GSend false) m inp g complexity true keys.

(** A step has: the new configuration, the queues it reads, what it sends. *)
Definition GStep : Type :=
  GConf * O * list (list Z) * list (list bool) * list (list gate * list bool) * list (list Key * list Key).

(** [YaoGarbleWire::reveal_inst], and the handler of [needs_cleaning]. *)
Definition g_reveal (gc : GConf) (m : Mach Key) (args : list Z) (o : O) (bufs : list (list Z))
    (bits : list (list bool)) : outcome (option GStep) :=
  let C := p_C (m_pub m) in
  '(C, g) ← (if gc_tainted gc then reveal (m_S m) C (gc_party gc) args else Ok (C, gc_party gc));
  let '(tainted, throws) := untaint (gc_tainted gc) in
  if throws : bool then
    let p := set_PC (set_C (m_pub m) C) (p_PC (m_pub m) - 1) in
    Ok (Some (mkGC (GSend false) (set_pub m p) (gc_in gc) g (gc_complexity gc) tainted (gc_keys gc),
              o, bufs, bits, [], []))
  else
    match bufs with
    | [] => Ok None
    | buf :: bufs =>
        C ← unpack_regs C (revealed_regs args) buf;
        Ok (Some (g_next (Local (Wire (REVEAL args))) (set_pub m (set_C (m_pub m) C)) (gc_in gc) g
                    (gc_complexity gc) (gc_keys gc),
                  o, bufs, bits, [], []))
    end.

Definition g_exec (gc : GConf) (o : O) (bufs : list (list Z)) (bits : list (list bool))
    : outcome (option GStep) :=
  match fetch prog (gc_mach gc) with
  | None =>
      Ok (Some (mkGC (GSend true) (gc_mach gc) (gc_in gc) (gc_party gc) (gc_complexity gc)
                  (gc_tainted gc) (gc_keys gc), o, bufs, bits, [], []))
  | Some (Local (Wire (REVEAL args)), m) => g_reveal gc m args o bufs bits
  | Some (Local i, m) =>
      '(m, g) ← mach_exec i m (gc_party gc);
      Ok (Some (g_next (Local i) m (gc_in gc) g (gc_complexity gc) (gc_keys gc), o, bufs, bits, [], []))
  | Some (Input i, m) =>
      '(mem, inp, input) ← input_read (gc_party gc) (m_S m, gc_in gc, @nil Key) i;
      '(mem, (g, keys)) ← input_finalize (mem, (gc_party gc, input)) i;
      Ok (Some (g_next (Input i) (set_S m mem) inp g (gc_complexity gc) (gc_keys gc ++ [keys]),
                o, bufs, bits, [], []))
  end.

(** [YaoGarbler::send], then [gates.clear()] and [output_masks.clear()]. *)
Definition g_clear (g : Garbler P) : Garbler P :=
  mkGarbler (g_delta g) (g_prng g) (g_job_prngs g) (g_counter g) [] [] (g_thread_num g)
    (g_log_n_threads g) (g_threshold g).

Definition g_send (gc : GConf) (last : bool) (o : O) (bufs : list (list Z)) (bits : list (list bool))
    : GStep :=
  (mkGC (GInputs last) (gc_mach gc) (gc_in gc) (g_clear (gc_party gc)) 0 (gc_tainted gc) (gc_keys gc),
   o, bufs, bits, [(g_gates (gc_party gc), g_output_masks (gc_party gc))], []).

(** One iteration of [YaoGarbler::process_receiver_inputs], or the return to the
    loop of [run]. *)
Definition g_inputs (gc : GConf) (last : bool) (o : O) (bufs : list (list Z)) (bits : list (list bool))
    : outcome (option GStep) :=
  let go mode keys :=
    mkGC mode (gc_mach gc) (gc_in gc) (gc_party gc) (gc_complexity gc) (gc_tainted gc) keys in
  match gc_keys gc with
  | [] => Ok (Some (go (if last then GDone else GExec) [], o, bufs, bits, [], []))
  | [] :: keys => Ok (Some (go (GInputs last) keys, o, bufs, bits, [], [([], [])]))
  | inputs :: keys =>
      match bits with
      | [] => Ok None
      | bs :: bits =>
          if (length bs =? length inputs)%nat then
            let '(rows, t, o) := cot o (g_delta (gc_party gc)) bs in
            os ← masked_keys inputs rows;
            Ok (Some (go (GInputs last) keys, o, bufs, bits, [], [(os, t)]))
          else Throw "wrong number of choice bits"
      end
  end.

Definition g_step (gc : GConf) (o : O) (bufs : list (list Z)) (bits : list (list bool))
    : outcome (option GStep) :=
  match gc_mode gc with
  | GExec => g_exec gc o bufs bits
  | GSend last => Ok (Some (g_send gc last o bufs bits))
  | GInputs last => g_inputs gc last o bufs bits
  | GDone => Ok None
  end.

(** ** The evaluator *)
Definition EStep : Type :=
  EConf * list (list gate * list bool) * list (list Key * list Key) * list (list Z) * list (list bool).

Definition e_next (i : program_instr) (m : Mach Key) (inp : list Z) (e : Evaluator) (complexity : Z)
    : EConf :=
  let complexity := complexity + cost i in
  mkEC (if complexity <? batch_size then EExec else ERecv) m inp e complexity.

Definition e_exec (ec : EConf) (batches : list (list gate * list bool)) (os : list (list Key * list Key))
    : outcome (option EStep) :=
  match fetch prog (ec_mach ec) with
  | None =>
      Ok (Some (mkEC EDone (ec_mach ec) (ec_in ec) (ec_party ec) (ec_complexity ec), batches, os, [], []))
  | Some (Local (Wire (REVEAL args)), m) =>
      '(C, e) ← reveal (m_S m) (p_C (m_pub m)) (ec_party ec) args;
      buf ← pack_regs C args;
      Ok (Some (mkEC ERecv (set_pub m (set_C (m_pub m) C)) (ec_in ec) e (ec_complexity ec),
                batches, os, [buf], []))
  | Some (Local i, m) =>
      '(m, e) ← mach_exec i m (ec_party ec);
      Ok (Some (e_next (Local i) m (ec_in ec) e (ec_complexity ec), batches, os, [], []))
  | Some (Input i, m) =>
      '(mem, inp, ei) ← input_read (ec_party ec) (m_S m, ec_in ec, ei_new) i;
      Ok (Some (mkEC (EInput i ei) (set_S m mem) inp (ec_party ec) (ec_complexity ec),
                batches, os, [], match ei_inputs ei with [] => [] | bs => [bs] end))
  end.

Definition e_step (ec : EConf) (batches : list (list gate * list bool)) (os : list (list Key * list Key))
    : outcome (option EStep) :=
  match ec_mode ec with
  | ERecv =>
      match batches with
      | [] => Ok None
      | (gates, masks) :: batches =>
          Ok (Some (mkEC EExec (ec_mach ec) (ec_in ec)
                      (e_set_masks (e_set_gates (ec_party ec) gates) masks) 0, batches, os, [], []))
      end
  | EExec => e_exec ec batches os
  | EInput i ei =>
      match os with
      | [] => Ok None
      | (keys, rows) :: os =>
          '(mem, (e, _)) ← input_finalize (m_S (ec_mach ec), (ec_party ec, ei_exchange ei rows keys)) i;
          Ok (Some (e_next (Input i) (set_S (ec_mach ec) mem) (ec_in ec) e (ec_complexity ec),
                    batches, os, [], []))
      end
  | EDone => Ok None
  end.
End party_steps.

(** ** The system: either party moves, its jobs in any order *)
Inductive step : Sys → Sys → Prop :=
  | step_g {sched : Scheduler} gc ec o batches bufs bits os gc' o' bufs' bits' sent_batches sent_os :
      g_step gc o bufs bits = Ok (Some (gc', o', bufs', bits', sent_batches, sent_os)) →
      step (mkSys gc ec o batches bufs bits os)
           (mkSys gc' ec o' (batches ++ sent_batches) bufs' bits' (os ++ sent_os))
  | step_e {sched : Scheduler} gc ec o batches bufs bits os ec' batches' os' sent_bufs sent_bits :
      e_step ec batches os = Ok (Some (ec', batches', os', sent_bufs, sent_bits)) →
      step (mkSys gc ec o batches bufs bits os)
           (mkSys gc ec' o batches' (bufs ++ sent_bufs) (bits ++ sent_bits) os').

Definition session_start (mg me : Mach Key) (in0 in1 : list Z) (g : Garbler P) (e : Evaluator) (o : O)
    : Sys :=
  mkSys (mkGC GExec mg in0 g 0 true []) (mkEC ERecv me in1 e 0) o [] [] [] [].
End session.
Arguments GConf P {_}.
Arguments EConf {_}.
Arguments Sys P O {_}.
Arguments mkGC {P _}.
Arguments mkEC {_}.
Arguments mkSys {P O _}.
