(* ===== verification/YaoSessionProps.v ===== *)
(** * Every schedule of the session computes the program

    The parties' steps commute, so all schedules of a session end alike; and one
    schedule ends, with the registers of the plaintext machine in both parties. *)

From S2P Require Import Prelude Xor Block Aes Workers YaoKey YaoGate GcVm YaoWire YaoSim YaoProps YaoJobs YaoVm YaoInput YaoInputProps YaoMachine YaoSession.

(** ** Relations whose steps commute *)
Section diamond.
Context {A : Type} (R : A → A → Prop).
Context (dia : ∀ x y z, R x y → R x z → y = z ∨ ∃ w, R y w ∧ R z w).

Lemma diamond_strip n x y t : R x y → nsteps R n x t → (∀ s, ¬ R t s) →
  ∃ m, n = S m ∧ nsteps R m y t.
Proof.
  revert x y. induction n as [|n IH]; intros x y Hxy Hn Ht.
  { inversion Hn; subst. by apply Ht in Hxy. }
  inversion Hn as [|? ? z ? Hxz Hzt]; subst. exists n. split; [done|].
  destruct (dia _ _ _ Hxy Hxz) as [->|(w & Hyw & Hzw)]; [done|].
  destruct (IH _ _ Hzw Hzt Ht) as (m & -> & Hw). by econstructor.
Qed.

(** When one run ends after [n] steps, every run has at most [n], and can be
    continued to the same end. *)
Lemma diamond_runs n m x y t : nsteps R n x t → (∀ s, ¬ R t s) → nsteps R m x y →
  (m ≤ n)%nat ∧ nsteps R (n - m) y t.
Proof.
  intros Hn Ht Hm. revert n Hn. induction Hm as [x|m x z y Hxz _ IH]; intros n Hn.
  { rewrite Nat.sub_0_r. split; [lia|done]. }
  destruct (diamond_strip _ _ _ _ Hxz Hn Ht) as (n' & -> & Hz).
  destruct (IH n' Hz) as [Hle Hy]. split; [lia|done].
Qed.
End diamond.

Section session.
Context {P O : Type} `{Prng P} `{GateScheme} `{!GateLaws} `{Gmp} `{!CorrelatedOT O}.
Context (prog : list program_instr) (batch_size : Z).
#[local] Abbreviation step := (YaoSession.step (P:=P) (O:=O) prog batch_size).

(** ** The steps commute *)

(** Whatever the schedule of the jobs. *)
Lemma g_step_le (S1 S2 : Scheduler) (gc : GConf P) (o : O) bufs bits r :
  g_step prog batch_size (sched:=S1) gc o bufs bits = Ok r → g_step prog batch_size (sched:=S2) gc o bufs bits = Ok r.
Proof.
  unfold g_step. destruct (gc_mode gc); try done. unfold g_exec.
  destruct (fetch prog (gc_mach gc)) as [[[i|args] m]|]; try done.
  destruct i as [[]| | | | | |]; try done; apply bind_le; intros a; apply mach_exec_le, garble_instrs_le.
Qed.

Lemma e_step_le (S1 S2 : Scheduler) ec batches os r :
  e_step prog batch_size (sched:=S1) ec batches os = Ok r → e_step prog batch_size (sched:=S2) ec batches os = Ok r.
Proof.
  unfold e_step. destruct (ec_mode ec); try done. unfold e_exec.
  destruct (fetch prog (ec_mach ec)) as [[[i|args] m]|]; try done.
  destruct i as [[]| | | | | |]; try done; apply bind_le; intros a; apply mach_exec_le, eval_instrs_le.
Qed.

(** More input at the end of the queues changes nothing. *)
Lemma g_step_frame {sched : Scheduler} (gc : GConf P) (o : O) bufs bits gc' o' bufs' bits' sb so x y :
  g_step prog batch_size gc o bufs bits = Ok (Some (gc', o', bufs', bits', sb, so)) →
  g_step prog batch_size gc o (bufs ++ x) (bits ++ y)
    = Ok (Some (gc', o', bufs' ++ x, bits' ++ y, sb, so)).
Proof.
  unfold g_step. destruct (gc_mode gc); [| | |done].
  - unfold g_exec.
    destruct (fetch prog (gc_mach gc)) as [[[i|args] m]|]; [| |by intros [= <- <- <- <- <- <-]].
    + destruct i as [[]| | | | | |];
        try (destruct (mach_exec _ _ _) as [[? ?]| |]; cbn [mbind outcome_bind];
             [by intros [= <- <- <- <- <- <-]|done..]).
      unfold g_reveal. destruct (if gc_tainted gc then _ else _) as [[C g]| |]; cbn [mbind outcome_bind]; [|done..].
      destruct (untaint (gc_tainted gc)) as [t []]; [by intros [= <- <- <- <- <- <-]|].
      destruct bufs as [|buf bufs]; [done|]. cbn [app].
      destruct (unpack_regs _ _ _); cbn [mbind outcome_bind]; [|done..]. by intros [= <- <- <- <- <- <-].
    + destruct (input_read _ _ _) as [[[mem inp] input]| |]; cbn [mbind outcome_bind]; [|done..].
      destruct (input_finalize _ _) as [[mem' [g keys]]| |]; cbn [mbind outcome_bind]; [|done..].
      by intros [= <- <- <- <- <- <-].
  - by intros [= <- <- <- <- <- <-].
  - unfold g_inputs. destruct (gc_keys gc) as [|[|k ks] keys]; [by intros [= <- <- <- <- <- <-]..|].
    destruct bits as [|bs bits]; [done|]. cbn [app]. destruct (_ =? _)%nat; [|done].
    destruct (cot _ _ _) as [[rows t] o1]. destruct (masked_keys _ _); cbn [mbind outcome_bind]; [|done..].
    by intros [= <- <- <- <- <- <-].
Qed.

Lemma e_step_frame {sched : Scheduler} ec batches os ec' batches' os' sb si x y :
  e_step prog batch_size ec batches os = Ok (Some (ec', batches', os', sb, si)) →
  e_step prog batch_size ec (batches ++ x) (os ++ y)
    = Ok (Some (ec', batches' ++ x, os' ++ y, sb, si)).
Proof.
  unfold e_step. destruct (ec_mode ec) as [| |args ei|]; [| | |done].
  - destruct batches as [|[gs ms] batches]; [done|]. by intros [= <- <- <- <- <-].
  - unfold e_exec.
    destruct (fetch prog (ec_mach ec)) as [[[i|args] m]|]; [| |by intros [= <- <- <- <- <-]].
    + destruct i as [[]| | | | | |];
        try (destruct (mach_exec _ _ _) as [[? ?]| |]; cbn [mbind outcome_bind];
             [by intros [= <- <- <- <- <-]|done..]).
      destruct (reveal _ _ _ _) as [[C e]| |]; cbn [mbind outcome_bind]; [|done..].
      destruct (pack_regs _ _); cbn [mbind outcome_bind]; [|done..]. by intros [= <- <- <- <- <-].
    + destruct (input_read _ _ _) as [[[mem inp] ei]| |]; cbn [mbind outcome_bind]; [|done..].
      by intros [= <- <- <- <- <-].
  - destruct os as [|[keys rows] os]; [done|]. cbn [app].
    destruct (input_finalize _ _) as [[mem [e ei']]| |]; cbn [mbind outcome_bind]; [|done..].
    by intros [= <- <- <- <- <-].
Qed.

Lemma step_diamond x y z : step x y → step x z → y = z ∨ ∃ w, step y w ∧ step z w.
Proof.
  intros Hy Hz. inversion Hy as [S1 gc ec o ba bu bi os gc1 o1 bu1 bi1 sb so E1|S1 gc ec o ba bu bi os ec1 ba1 os1 su si E1];
    inversion Hz as [S2 gc' ec' o' ba' bu' bi' os' gc2 o2 bu2 bi2 sb' so' E2 Ex|S2 gc' ec' o' ba' bu' bi' os' ec2 ba2 os2 su' si' E2 Ex];
    subst; injection Ex as -> -> -> -> -> -> ->.
  - apply (g_step_le S1 S2) in E1. rewrite E1 in E2. injection E2 as <- <- <- <- <- <-. by left.
  - right. eexists. split.
    + eapply (step_e prog batch_size (sched:=S2)). by apply e_step_frame.
    + eapply (step_g prog batch_size (sched:=S1)). by apply g_step_frame.
  - right. eexists. split.
    + eapply (step_g prog batch_size (sched:=S2)). by apply g_step_frame.
    + eapply (step_e prog batch_size (sched:=S1)). by apply e_step_frame.
  - apply (e_step_le S1 S2) in E1. rewrite E1 in E2. injection E2 as <- <- <- <- <-. by left.
Qed.

(** ** One instruction of the garbler and, later, of the evaluator *)
Context {sched : Scheduler}.
Context (delta : Key) (delta_odd : Z.odd delta = true).
Context (batch_pos : 0 < batch_size).

Definition program_ok (i : program_instr) : Prop :=
  match i with
  | Local (Wire (REVEAL _)) => True
  | Local i => minstr_ok i
  | Input i => input_ok i
  end.

Definition adv {W} (m : Mach W) : Mach W := set_pub m (set_PC (m_pub m) (p_PC (m_pub m) + 1)).

Lemma fetch_PC {W W'} (m : Mach W) (m' : Mach W') i m1 : p_PC (m_pub m') = p_PC (m_pub m) →
  fetch prog m = Some (i, m1) → i ∈ prog ∧ m1 = adv m ∧ fetch prog m' = Some (i, adv m').
Proof.
  intros E. unfold fetch. rewrite E. destruct (_ <=? _); [done|].
  destruct (prog !! Z.to_nat (p_PC (m_pub m))) as [j|] eqn:Ej; [|done]. cbn.
  intros [= -> <-]. split_and!; [by eapply list_elem_of_lookup_2|done|].
  unfold adv. by rewrite E.
Qed.

Lemma fetch_Some {W W'} (m : Mach W) (m' : Mach W') i m1 : m_pub m' = m_pub m →
  fetch prog m = Some (i, m1) → i ∈ prog ∧ m1 = adv m ∧ fetch prog m' = Some (i, adv m').
Proof. intros E. apply fetch_PC. by rewrite E. Qed.

Lemma fetch_None {W W'} (m : Mach W) (m' : Mach W') : m_pub m' = m_pub m → fetch prog m = None →
  fetch prog m' = None.
Proof.
  intros E. unfold fetch. rewrite E. destruct (_ <=? _); [done|].
  by destruct (prog !! Z.to_nat (p_PC (m_pub m))).
Qed.

Definition g_rel (mg : Mach Key) (m : Mach bool) : Prop := ∃ me, mach_rel delta mg m me.

Lemma adv_rel mg m me : mach_rel delta mg m me → mach_rel delta (adv mg) (adv m) (adv me).
Proof. intros (HS & HMS & E1 & E2). unfold adv. repeat split; cbn; try done; by rewrite ?E1, ?E2. Qed.

Lemma g_rel_pub mg m : g_rel mg m → m_pub mg = m_pub m.
Proof. by intros (me & _ & _ & E & _). Qed.

Definition gsys (gc : GConf P) (ec : EConf) (o : O) : Sys P O := mkSys gc ec o [] [] [] [].

Definition advances (i : program_instr) (m m' : Mach bool) (in0 in1 in0' in1' : list Z) : Prop :=
  ∀ mg g cx K, g_rel mg m → g_ok delta g → ∃ mg' g' gs ms K1,
    (∀ ec o ba bu bi os,
       step (mkSys (mkGC GExec mg in0 g cx true K) ec o ba bu bi os)
            (mkSys (g_next batch_size i mg' in0' g' cx (K ++ K1)) ec o ba bu bi os)) ∧
    g_after g g' gs ms ∧ g_rel mg' m' ∧
    ∀ me e gr mr last mgx inx gx t K2 o, g_delta gx = delta → mach_rel delta mg m me →
      synced g e → e_gates e = gs ++ gr → e_output_masks e = ms ++ mr → ∃ me' o',
      rtc step (gsys (mkGC (GInputs last) mgx inx gx 0 t (K1 ++ K2)) (mkEC EExec me in1 e cx) o)
        (gsys (mkGC (GInputs last) mgx inx gx 0 t K2)
           (e_next batch_size i me' in1' (e_after e (length gs) gr mr) cx) o') ∧
      mach_rel delta mg' m' me'.

Lemma sim_both i mg m : minstr_ok i → g_rel mg m → ∀ m' u, mach_exec i m tt = Ok (m', u) →
  ∀ g : Garbler P, g_ok delta g → ∃ mg' g' gs ms, mach_exec i mg g = Ok (mg', g') ∧
    g_after g g' gs ms ∧ g_rel mg' m' ∧
    ∀ me e gr mr, mach_rel delta mg m me → synced g e → e_gates e = gs ++ gr →
      e_output_masks e = ms ++ mr → ∃ me',
      mach_exec i me e = Ok (me', e_after e (length gs) gr mr) ∧ mach_rel delta mg' m' me'.
Proof.
  intros Hi [me0 HR] m' u Hm g Hg.
  destruct (mach_sim delta delta_odd i mg m me0 Hi HR m' u Hm g Hg)
    as (mg' & g' & gs & ms & E & Ha & He).
  exists mg', g', gs, ms. split_and!; [done|done| |].
  - destruct (He (shadow g (gs ++ []) (ms ++ [])) [] [] (shadow_synced _ _ _) eq_refl eq_refl)
      as (me' & _ & HR'). by exists me'.
  - intros me e gr mr HR' Hs Hgs Hms.
    destruct (mach_sim delta delta_odd i mg m me Hi HR' m' u Hm g Hg)
      as (mg2 & g2 & gs2 & ms2 & E2 & Ha2 & He2).
    rewrite E in E2. injection E2 as <- <-. destruct (g_after_inj _ _ _ _ _ _ Ha Ha2) as [<- <-].
    by apply He2.
Qed.

Lemma local_advances i m m' u in0 in1 : (∀ args, i ≠ Wire (REVEAL args)) → minstr_ok i →
  fetch prog m = Some (Local i, adv m) → mach_exec i (adv m) tt = Ok (m', u) →
  advances (Local i) m m' in0 in1 in0 in1.
Proof.
  intros Hn Hi Hf Hm mg g cx K [me0 HR] Hg.
  destruct (sim_both i (adv mg) (adv m) Hi (ex_intro _ _ (adv_rel _ _ _ HR)) m' u Hm g Hg)
    as (mg' & g' & gs & ms & E & Ha & Hr & He).
  destruct HR as (HS0 & HMS0 & Ep1 & Ep2).
  exists mg', g', gs, ms, []. split_and!; [|done|done|].
  - intros ec o ba bu bi os. rewrite app_nil_r.
    rewrite <-(app_nil_r ba) at 2. rewrite <-(app_nil_r os) at 2. apply (step_g prog batch_size).
    unfold g_step. cbn [gc_mode]. unfold g_exec. cbn [gc_mach gc_in gc_party gc_complexity gc_keys].
    destruct (fetch_Some m mg _ _ Ep1 Hf) as (_ & _ & ->).
    destruct i as [[]| | | | | |]; try (rewrite E; reflexivity). by destruct (Hn args).
  - intros me e gr mr last mgx inx gx t K2 o _ HR Hs Hgs Hms.
    destruct (He (adv me) e gr mr (adv_rel _ _ _ HR) Hs Hgs Hms) as (me' & E' & HR').
    exists me', o. split; [|done]. apply rtc_once.
    apply (step_e prog batch_size _ _ o [] [] [] [] _ [] [] [] []).
    unfold e_step. cbn [ec_mode]. unfold e_exec. cbn [ec_mach ec_in ec_party ec_complexity].
    destruct HR as (_ & _ & _ & Ep). destruct (fetch_Some m me _ _ Ep Hf) as (_ & _ & ->).
    destruct i as [[]| | | | | |]; try (rewrite E'; reflexivity). by destruct (Hn args).
Qed.

(** The OT of one input instruction, when the evaluator has reached it. *)
Lemma serve_input (mgx : Mach Key) inx (gx : Garbler P) cxx tx last keys K2 bits m in1 e cx o args :
  length bits = length keys → g_delta gx = delta → ∃ rows t o',
    (∀ i b, bits !! i = Some b →
       ∃ k, rows !! i = Some k ∧ t !! i = Some (Z.lxor k (key_if b delta))) ∧
    ∀ os, masked_keys keys rows = Ok os →
    step (mkSys (mkGC (GInputs last) mgx inx gx cxx tx (keys :: K2))
            (mkEC (EInput args (mkEI bits 0 [] [])) m in1 e cx) o [] []
            (match bits with [] => [] | _ => [bits] end) [])
         (mkSys (mkGC (GInputs last) mgx inx gx cxx tx K2)
            (mkEC (EInput args (mkEI bits 0 [] [])) m in1 e cx) o' [] [] [] [(os, t)]).
Proof.
  intros Hl Hd. destruct keys as [|k keys].
  - destruct bits; [|done]. exists [], [], o. split; [done|]. intros os [= <-].
    by apply (step_g prog batch_size _ _ o [] [] [] [] _ o [] [] [] [([], [])]).
  - destruct bits as [|b bits]; [done|].
    destruct (cot o (g_delta gx) (b :: bits)) as [[rows t] o'] eqn:Ec.
    exists rows, t, o'. split.
    { intros i b' Hi. rewrite <-Hd. by eapply cot_rows. }
    intros os Hos. apply (step_g prog batch_size _ _ o [] [] [b :: bits] [] _ o' [] [] [] [(os, t)]).
    unfold g_step. cbn [gc_mode]. unfold g_inputs. cbn [gc_keys gc_party].
    rewrite (proj2 (Nat.eqb_eq _ _)) by done. by rewrite Ec, Hos.
Qed.

Lemma set_S_rel mg m me Sg Sp Se : mach_rel delta mg m me → Mem delta Sg Sp Se →
  mach_rel delta (set_S mg Sg) (set_S m Sp) (set_S me Se).
Proof. by intros (_ & HMS & E1 & E2) HM. Qed.

Lemma input_advances ii m m' in0 in1 in0' in1' : input_ok ii →
  fetch prog m = Some (Input ii, adv m) →
  plain_exec (Input ii) (adv m, in0, in1) = Ok (m', in0', in1') →
  advances (Input ii) m m' in0 in1 in0' in1'.
Proof.
  intros Hi Hf Hp mg g cx K [me0 (HM0 & HMS0 & Ep1 & Ep2)] Hg.
  cbn [plain_exec] in Hp. apply bind_Ok_inv in Hp as ([[mem i0] i1] & Hp & [= <- -> ->]).
  destruct (input_correct delta delta_odd _ _ _ ii in0 in1 mem in0' in1' g Hi HM0 Hp Hg)
    as (S1 & Sg' & prng & keys & E1 & E2 & He0).
  assert (∀ Se, Mem delta (m_S mg) (m_S m) Se → ∀ e : Evaluator, ∃ Se1 bits,
      input_read e (Se, in1, ei_new) ii = Ok (Se1, in1', mkEI bits 0 [] []) ∧
      length bits = length keys ∧ ∀ rows t,
        (∀ i b, bits !! i = Some b →
           ∃ k, rows !! i = Some k ∧ t !! i = Some (Z.lxor k (key_if b delta))) →
        ∃ os Se' ei', masked_keys keys rows = Ok os ∧
          input_finalize (Se1, (e, ei_exchange (mkEI bits 0 [] []) t os)) ii = Ok (Se', (e, ei')) ∧
          Mem delta Sg' mem Se') as He.
  { intros Se HM. destruct (input_correct delta delta_odd _ _ _ ii in0 in1 mem in0' in1' g Hi HM Hp Hg)
      as (S2 & Sg2 & prng2 & keys2 & E3 & E4 & He).
    rewrite E1 in E3. injection E3 as <-. rewrite E2 in E4. injection E4 as <- _ <-. exact He. }
  clear He0. exists (set_S (adv mg) Sg'), (g_set_prng g prng), [], [], [keys].
  split_and!.
  - intros ec o ba bu bi os. rewrite <-(app_nil_r ba) at 2. rewrite <-(app_nil_r os) at 2. apply (step_g prog batch_size).
    unfold g_step. cbn [gc_mode]. unfold g_exec. cbn [gc_mach gc_in gc_party gc_complexity gc_keys].
    destruct (fetch_Some m mg _ _ Ep1 Hf) as (_ & _ & ->).
    change (m_S (adv mg)) with (m_S mg). by rewrite E1, bind_ok, E2, bind_ok.
  - apply g_after_prng.
  - destruct (He _ HM0 (shadow g [] [])) as (Se1 & bits & _ & _ & HO).
    destruct (HO (replicate (length bits) 0) ((λ b, key_if b delta) <$> bits)) as (_ & Se' & _ & _ & _ & HM').
    { intros i b Hb. exists 0. rewrite lookup_replicate, list_lookup_fmap, Hb.
      split; [split; [done|by eapply lookup_lt_Some]|done]. }
    exists (set_S (adv me0) Se'). apply set_S_rel; [|done]. by apply adv_rel.
  - intros me e gr mr last mgx inx gx t K2 o Hdx HR Hs Hgs Hms.
    pose proof HR as (HM & HMS & Ep3 & Ep4).
    destruct (He _ HM e) as (Se1 & bits & Er & Hl & HO).
    destruct (serve_input mgx inx gx 0 t last keys K2 bits (set_S (adv me) Se1) in1' e cx o ii Hl Hdx)
      as (rows & t' & o' & Hrow & Hstep).
    destruct (HO rows t' Hrow) as (os & Se' & ei' & Hos & Ef & HM').
    exists (set_S (adv me) Se'), o'. split; [|apply set_S_rel; [by apply adv_rel|done]].
    eapply rtc_l; [|eapply rtc_l; [exact (Hstep os Hos)|apply rtc_once]].
    + eapply (step_e prog batch_size _ _ o [] [] [] [] _ [] [] [] _).
      unfold e_step. cbn [ec_mode]. unfold e_exec. cbn [ec_mach ec_in ec_party ec_complexity].
      destruct (fetch_Some m me _ _ Ep4 Hf) as (_ & _ & ->).
      change (m_S (adv me)) with (m_S me). rewrite Er, bind_ok. by destruct bits.
    + apply (step_e prog batch_size _ _ o' [] [] [] [(os, t')] _ [] [] [] []).
      unfold e_step. cbn [ec_mode ec_mach ec_in ec_party ec_complexity].
      change (m_S (set_S (adv me) Se1)) with Se1. rewrite Ef, bind_ok.
      cbn in Hgs, Hms. subst. by rewrite e_after_refl.
Qed.

(** ** From one batch of gates to the next *)

(** Both parties are before a batch, with the program [n] instructions from its
    end at most. *)
Definition settled (n : nat) (st' : PlainState) (s : Sys P O) : Prop :=
  ∃ k m in0 in1 mg me g e cx o, (k < n)%nat ∧ plain_run k prog (m, in0, in1) = Ok (Some st') ∧
    s = gsys (mkGC GExec mg in0 g 0 true []) (mkEC ERecv me in1 e cx) o ∧
    mach_rel delta mg m me ∧ g_ok delta g ∧ synced g e ∧ g_gates g = [] ∧ g_output_masks g = [].

Definition finished (st' : PlainState) (s : Sys P O) : Prop :=
  ∃ m in0 in1 mg me g e cx cx' o, st' = (m, in0, in1) ∧
    s = gsys (mkGC GDone mg in0 g cx true []) (mkEC EDone me in1 e cx') o ∧
    mach_rel delta mg m me.

(** The garbler reaches the end of a batch, and the evaluator can follow. *)
Definition batch_ahead (n : nat) (st' : PlainState) (m : Mach bool) (in0 in1 : list Z) : Prop :=
  ∀ mg (g : Garbler P) cx K, g_rel mg m → g_ok delta g → ∃ last mg' in0' g' cx' t' K' gs ms,
    (∀ ec o ba bu bi os,
       rtc step (mkSys (mkGC GExec mg in0 g cx true K) ec o ba bu bi os)
         (mkSys (mkGC (GSend last) mg' in0' g' cx' t' (K ++ K')) ec o ba bu bi os)) ∧
    g_after g g' gs ms ∧
    ∀ me e o, mach_rel delta mg m me → synced g e → e_gates e = gs → e_output_masks e = ms →
      ∃ s', rtc step (gsys (mkGC (GInputs last) mg' in0' (g_clear g') 0 t' K')
                        (mkEC EExec me in1 e cx) o) s' ∧
        (settled n st' s' ∨ finished st' s').

Lemma g_move gc ec o ba bu bi os gc' :
  g_step prog batch_size gc o bu bi = Ok (Some (gc', o, bu, bi, [], [])) →
  step (mkSys gc ec o ba bu bi os) (mkSys gc' ec o ba bu bi os).
Proof.
  intros E. rewrite <-(app_nil_r ba) at 2. rewrite <-(app_nil_r os) at 2. by apply (step_g prog batch_size).
Qed.

Lemma e_move gc ec o ec' : e_step prog batch_size ec [] [] = Ok (Some (ec', [], [], [], [])) →
  step (gsys gc ec o) (gsys gc ec' o).
Proof. intros E. by apply (step_e prog batch_size _ _ o [] [] [] [] _ [] [] [] []). Qed.

Lemma served last mg inp (g : Garbler P) t ec o :
  step (gsys (mkGC (GInputs last) mg inp g 0 t []) ec o)
    (gsys (mkGC (if last then GDone else GExec) mg inp g 0 t []) ec o).
Proof. by apply g_move. Qed.

Lemma g_clear_after (g g' : Garbler P) gs ms : g_after g g' gs ms → g_ok delta g →
  g_ok delta (g_clear g') ∧ g_gates (g_clear g') = [] ∧ g_output_masks (g_clear g') = [].
Proof. intros Ha Hg. by pose proof (g_after_ok delta _ _ _ _ Ha Hg). Qed.

Lemma synced_clear (g g' : Garbler P) e gs ms gr mr : g_after g g' gs ms → synced g e →
  synced (g_clear g') (e_after e (length gs) gr mr).
Proof. intros Ha Hs. exact (synced_after g g' e gs ms gr mr Ha Hs). Qed.

Lemma ahead_end st m in0 in1 : fetch prog m = None → batch_ahead st (m, in0, in1) m in0 in1.
Proof.
  intros Hf mg g cx K HR Hg.
  exists true, mg, in0, g, cx, true, [], [], []. split_and!.
  - intros ec o ba bu bi os. rewrite app_nil_r. apply rtc_once, g_move.
    unfold g_step. cbn [gc_mode]. unfold g_exec. cbn [gc_mach].
    by rewrite (fetch_None m mg (g_rel_pub _ _ HR) Hf).
  - apply g_after_refl.
  - intros me e o HR' _ _ _. eexists. split.
    + eapply rtc_l; [apply served|]. apply rtc_once, e_move.
      unfold e_step. cbn [ec_mode]. unfold e_exec. cbn [ec_mach].
      destruct HR' as (_ & _ & _ & Ep). by rewrite (fetch_None m me Ep Hf).
    + right. do 10 eexists. split_and!; [reflexivity..|done].
Qed.

(** An instruction, then either the end of the batch or what comes next. *)
Lemma ahead_step i n m m' in0 in1 in0' in1' st' :
  advances i m m' in0 in1 in0' in1' → plain_run n prog (m', in0', in1') = Ok (Some st') →
  batch_ahead n st' m' in0' in1' → batch_ahead (S n) st' m in0 in1.
Proof.
  intros HA Hrun IH mg g cx K HR Hg.
  destruct (HA mg g cx K HR Hg) as (mg1 & g1 & gs1 & ms1 & K1 & Hstep & Ha1 & HR1 & He1).
  unfold g_next in Hstep. destruct (Z.ltb_spec (cx + cost i) batch_size) as [Hlt|Hge].
  - destruct (IH mg1 g1 (cx + cost i) (K ++ K1) HR1 (g_after_ok _ _ _ _ _ Ha1 Hg))
      as (last & mg' & i0 & g' & cx' & t' & K2 & gs2 & ms2 & Hsteps & Ha2 & He2).
    exists last, mg', i0, g', cx', t', (K1 ++ K2), (gs1 ++ gs2), (ms1 ++ ms2). split_and!.
    + intros ec o ba bu bi os. eapply rtc_l; [apply Hstep|]. rewrite app_assoc. apply Hsteps.
    + by eapply g_after_trans.
    + intros me e o HR' Hs Hgs Hms.
      destruct (He1 me e gs2 ms2 last mg' i0 (g_clear g') t' K2 o) as (me1 & o1 & Hr1 & HM1); try done.
      { apply (g_clear_after _ _ _ _ (g_after_trans _ _ _ _ _ _ _ Ha1 Ha2) Hg). }
      destruct (He2 me1 (e_after e (length gs1) gs2 ms2) o1 HM1) as (s' & Hr2 & Hend); try done.
      { by eapply synced_after. }
      exists s'. split; [|destruct Hend as [Hend|?]; [left|by right]].
      * etrans; [exact Hr1|]. unfold e_next. rewrite (proj2 (Z.ltb_lt _ _)) by done. exact Hr2.
      * destruct Hend as (k & Hend). destruct Hend as (m2 & i02 & i12 & mg2 & me2 & g2 & e2 & cx2 & o2 & Hk & Hrest).
        exists k, m2, i02, i12, mg2, me2, g2, e2, cx2, o2. split; [lia|exact Hrest].
  - exists false, mg1, in0', g1, (cx + cost i), true, K1, gs1, ms1. split_and!; [|done|].
    + intros ec o ba bu bi os. apply rtc_once, Hstep.
    + intros me e o HR' Hs Hgs Hms.
      destruct (He1 me e [] [] false mg1 in0' (g_clear g1) true [] o) as (me1 & o1 & Hr1 & HM1);
        rewrite ?app_nil_r; try done.
      { apply (g_clear_after _ _ _ _ Ha1 Hg). }
      rewrite app_nil_r in Hr1. eexists. split; [etrans; [exact Hr1|apply rtc_once, served]|].
      left. unfold e_next. rewrite (proj2 (Z.ltb_ge _ _)) by done.
      exists n, m', in0', in1', mg1, me1. do 4 eexists. split_and!; [lia|done|reflexivity|done|..].
      * apply (g_clear_after _ _ _ _ Ha1 Hg).
      * by eapply synced_clear.
      * done.
      * done.
Qed.

(** [REVEAL] for both parties. *)
Lemma reveal_both mg m args C' u : g_rel mg m →
  reveal (m_S m) (p_C (m_pub m)) tt args = Ok (C', u) →
  ∀ g : Garbler P, g_ok delta g → ∃ C1 g' gs ms,
    reveal (m_S mg) (p_C (m_pub m)) g args = Ok (C1, g') ∧ g_after g g' gs ms ∧
    agree (revealed_regs args) C1 C' ∧
    ∀ me e gr mr, mach_rel delta mg m me → synced g e → e_gates e = gs ++ gr →
      e_output_masks e = ms ++ mr →
      reveal (m_S me) (p_C (m_pub m)) e args = Ok (C', e_after e (length gs) gr mr).
Proof.
  intros [me0 (HM0 & _)] Hr g Hg. set (C := p_C (m_pub m)) in *.
  destruct (reveal_sim delta delta_odd _ _ _ C args HM0 C' u Hr g Hg)
    as (C1 & g' & gs & ms & E & Ha & He).
  exists C1, g', gs, ms. split_and!; [done|done| |].
  - destruct (He (shadow g (gs ++ []) (ms ++ [])) [] [] (shadow_synced _ _ _) eq_refl eq_refl)
      as (c & _ & _ & Hagree). exact Hagree.
  - intros me e gr mr (HM & _) Hs Hgs Hms.
    destruct (reveal_sim delta delta_odd _ _ _ C args HM C' u Hr g Hg)
      as (C2 & g2 & gs2 & ms2 & E2 & Ha2 & He2).
    rewrite E in E2. injection E2 as <- <-. destruct (g_after_inj _ _ _ _ _ _ Ha Ha2) as [<- <-].
    by destruct (He2 e gr mr Hs Hgs Hms) as (c & Ec & -> & _).
Qed.

Lemma set_C_rel mg m me C : mach_rel delta mg m me →
  mach_rel delta (set_pub mg (set_C (m_pub m) C)) (set_pub m (set_C (m_pub m) C))
    (set_pub me (set_C (m_pub m) C)).
Proof. by intros (HM & HMS & _). Qed.

Lemma ahead_reveal args n m m' u in0 in1 st' : fetch prog m = Some (Local (Wire (REVEAL args)), adv m) →
  mach_exec (Wire (REVEAL args)) (adv m) tt = Ok (m', u) →
  plain_run n prog (m', in0, in1) = Ok (Some st') →
  batch_ahead (S n) st' m in0 in1.
Proof.
  intros Hf Hm Hrun mg g cx K [me0 HR0] Hg. cbn [mach_exec exec] in Hm.
  apply bind_Ok_inv in Hm as ([[mem C2] u1] & Hm & [= <- _]).
  apply bind_Ok_inv in Hm as ([C' u2] & Hm & [= <- <- _]). cbn [fst snd].
  pose proof (adv_rel _ _ _ HR0) as HRa. pose proof HR0 as (_ & _ & Ep & _).
  destruct (reveal_both (adv mg) (adv m) args C' u2 (ex_intro _ _ HRa) Hm g Hg)
    as (C1 & g' & gs & ms & E & Ha & Hag & He).
  pose proof (pack_Ok _ _ _ _ _ _ Hm) as Hpack. pose proof (regs_covered _ _ _ Hag _ Hpack) as Hunp.
  set (buf := _ <$> _) in Hpack, Hunp.
  assert (m_pub (adv mg) = m_pub (adv m)) as Epa by apply HRa.
  set (mg1 := set_pub (adv mg) (set_PC (set_C (m_pub (adv mg)) C1) (p_PC (m_pub (adv mg)) - 1))).
  exists false, mg1, in0, g', cx, false, [], gs, ms. split_and!; [|done|].
  - intros ec o ba bu bi os. rewrite app_nil_r. apply rtc_once, g_move.
    unfold g_step. cbn [gc_mode]. unfold g_exec. cbn [gc_mach].
    destruct (fetch_Some m mg _ _ Ep Hf) as (_ & _ & ->).
    unfold g_reveal. cbn [gc_tainted gc_party gc_complexity gc_in gc_keys].
    rewrite Epa at 1. rewrite E, bind_ok. reflexivity.
  - intros me e o HR Hs Hgs Hms. pose proof HR as (_ & _ & _ & Epe).
    assert (m_pub (adv me) = m_pub (adv m)) as Epea by apply (adv_rel _ _ _ HR).
    set (mgf := set_pub (adv mg) (set_C (m_pub (adv m)) C')).
    set (mef := set_pub (adv me) (set_C (m_pub (adv m)) C')).
    set (ef := e_after e (length gs) [] []).
    exists (gsys (mkGC GExec mgf in0 (g_clear g') 0 true []) (mkEC ERecv mef in1 ef cx) o).
    split; [|left].
    + eapply rtc_l.
      { apply (step_e prog batch_size _ _ o [] [] [] [] (mkEC ERecv mef in1 ef cx) [] [] [buf] []).
        unfold e_step. cbn [ec_mode]. unfold e_exec. cbn [ec_mach ec_in ec_party ec_complexity].
        destruct (fetch_Some m me _ _ Epe Hf) as (_ & _ & ->). rewrite Epea.
        rewrite (He (adv me) e [] []) by (try apply adv_rel; rewrite ?app_nil_r; done).
        rewrite bind_ok, Hpack. reflexivity. }
      eapply rtc_l; [by apply g_move|]. apply rtc_once.
      apply (step_g prog batch_size _ _ o [] [buf] [] [] _ o [] [] [] []).
      unfold g_step. cbn [gc_mode]. unfold g_exec. cbn [gc_mach].
      assert (fetch prog mg1 = Some (Local (Wire (REVEAL args)), set_pub (adv mg) (set_C (m_pub (adv m)) C1))) as ->.
      { destruct (fetch_PC m mg1 _ _ ltac:(by cbn; rewrite Ep, Z.add_simpl_r) Hf) as (_ & _ & ->).
        unfold adv, set_pub, mg1. cbn. by rewrite Ep, Z.sub_add. }
      unfold g_reveal. cbn [gc_tainted untaint gc_party gc_complexity gc_in gc_keys].
      rewrite bind_ok. cbn [app]. change (p_C _) with C1. rewrite Hunp, bind_ok.
      unfold g_next. cbn [cost]. rewrite (proj2 (Z.ltb_lt _ _)) by lia. reflexivity.
    + exists n, (set_pub (adv m) (set_C (m_pub (adv m)) C')), in0, in1, mgf, mef, (g_clear g'), ef, cx, o.
      split_and!; [lia|exact Hrun|done|by apply set_C_rel, adv_rel|..].
      * apply (g_clear_after _ _ _ _ Ha Hg).
      * by eapply synced_clear.
      * done.
      * done.
Qed.

(** ** The whole session *)
Context (prog_ok : Forall program_ok prog).

Lemma plain_ahead n m in0 in1 st' : plain_run n prog (m, in0, in1) = Ok (Some st') →
  batch_ahead n st' m in0 in1.
Proof.
  revert m in0 in1. induction n as [|n IH]; intros m in0 in1 Hrun.
  { cbn [plain_run fst snd] in Hrun. destruct (fetch prog m) as [[i m1]|] eqn:Hf; [done|].
    injection Hrun as <-. by apply ahead_end. }
  cbn [plain_run fst snd] in Hrun. destruct (fetch prog m) as [[i m1]|] eqn:Hf.
  2: { injection Hrun as <-. by apply ahead_end. }
  destruct (fetch_Some m m _ _ eq_refl Hf) as (Hin & -> & _).
  apply bind_Ok_inv in Hrun as ([[m' in0'] in1'] & Hex & Hrun).
  assert (program_ok i) as Hi by by eapply Forall_forall in prog_ok.
  destruct i as [i|args].
  - pose proof Hex as Hex'. cbn [plain_exec] in Hex'. apply bind_Ok_inv in Hex' as ([m2 u] & Hm & [= -> -> ->]).
    destruct i as [[]| | | | | |];
      try (eapply ahead_step; [|exact Hrun|by apply IH];
           eapply local_advances; [|exact Hi|exact Hf|exact Hm]; intros ?; discriminate).
    by eapply ahead_reveal; [exact Hf|exact Hm|].
  - eapply ahead_step; [by apply input_advances|exact Hrun|by apply IH].
Qed.

Lemma session_finishes n st' s : settled n st' s → ∃ s', rtc step s s' ∧ finished st' s'.
Proof.
  revert s. induction n as [n IH] using lt_wf_ind. intros s
    (k & m & in0 & in1 & mg & me & g & e & cx & o & Hk & Hrun & -> & HR & Hg & Hs & Hgs & Hms).
  destruct (plain_ahead k m in0 in1 st' Hrun mg g 0 [] ltac:(by exists me) Hg)
    as (last & mg' & i0 & g' & cx' & t' & K' & gs & ms & Hsteps & Ha & He).
  destruct (He me (e_set_masks (e_set_gates e gs) ms) o HR Hs eq_refl eq_refl) as (s1 & Hr & Hend).
  assert (g_gates g' = gs ∧ g_output_masks g' = ms) as [Egs Ems].
  { destruct Ha as [_ _ _ _ _ -> -> _]. by rewrite Hgs, Hms. }
  assert (rtc step (gsys (mkGC GExec mg in0 g 0 true []) (mkEC ERecv me in1 e cx) o) s1) as Hall.
  { etrans; [apply Hsteps|]. eapply rtc_l.
    { eapply (step_g prog batch_size _ _ o [] [] [] [] _ o [] [] [(gs, ms)] []).
      unfold g_step. cbn [gc_mode]. unfold g_send. cbn [gc_party]. by rewrite Egs, Ems. }
    eapply rtc_l; [|exact Hr].
    by eapply (step_e prog batch_size _ _ o [(gs, ms)] [] [] [] _ [] [] [] []). }
  destruct Hend as [Hset|Hfin]; [|by exists s1].
  destruct (IH k Hk s1 Hset) as (s' & Hr' & Hfin). exists s'. split; [by etrans|done].
Qed.

Lemma finished_stuck st' s s' : finished st' s → ¬ step s s'.
Proof.
  intros (m & in0 & in1 & mg & me & g & e & cx & cx' & o & -> & -> & _) Hst.
  by inversion Hst as [? ? ? ? ? ? ? ? ? ? ? ? ? HE|? ? ? ? ? ? ? ? ? ? ? ? HE].
Qed.

(** Termination and result of every schedule. *)
Lemma session_runs fuel m in0 in1 st' mg me g e o :
  plain_run fuel prog (m, in0, in1) = Ok (Some st') → mach_rel delta mg m me → g_ok delta g →
  synced g e → g_gates g = [] → g_output_masks g = [] →
  ∃ k s', nsteps step k (session_start mg me in0 in1 g e o) s' ∧ finished st' s' ∧
    ∀ j s, nsteps step j (session_start mg me in0 in1 g e o) s →
      (j ≤ k)%nat ∧ nsteps step (k - j) s s'.
Proof.
  intros Hrun HR Hg Hs Hgs Hms.
  destruct (session_finishes (S fuel) st' (session_start mg me in0 in1 g e o)) as (s' & Hr & Hf).
  { exists fuel, m, in0, in1, mg, me, g, e, 0, o. split_and!; try done. lia. }
  apply rtc_nsteps in Hr as [k Hk]. exists k, s'. split_and!; [done|done|].
  intros j s Hj. eapply diamond_runs; [apply step_diamond|exact Hk| |exact Hj].
  intros s2. by apply (finished_stuck st').
Qed.
End session.
