(* ===== verification/YaoTheorems.v ===== *)
(** * Properties of the Yao parties

    What the garbler and the evaluator compute together: whole sessions, batches
    of gates, single gates; and the bounds and gaps of the implementation. *)

From S2P Require Import Prelude Xor Block Aes Concrete Workers YaoKey YaoGate GcVm YaoWire YaoLocal YaoSim YaoProps YaoJobs YaoVm YaoInput YaoInputProps YaoMachine YaoSession YaoSessionProps.

(** Always the first of the unfinished jobs. *)
Definition first_job : Scheduler := λ _, 0%nat.

(** The machine when a program starts: registers without wires. *)
Definition fresh_mach {W} (n_S n_MS : nat) (p : Pub) : Mach W :=
  mkMach (replicate n_S []) (replicate n_MS []) p.

(** Two parties at the start of a program. *)
Record ready {P : Type} `{GateScheme} (g : Garbler P) (e : Evaluator) : Prop := {
  ready_delta : Z.odd (g_delta g) = true;
  ready_threshold : 10 ≤ g_threshold g;
  ready_g_workers : 0 < g_workers g < 1024;
  ready_e_workers : 0 < e_workers e < 1024;
  ready_counter : g_counter g = e_counter e;
  ready_thread : g_thread_num g = e_thread_num e;
  ready_log : g_log_n_threads g = e_log_n_threads e;
  ready_gates : g_gates g = [];
  ready_masks : g_output_masks g = [];
}.

Section sessions.
Context {P O : Type} `{Prng P} `{GateScheme} `{!GateLaws} `{Gmp} `{!CorrelatedOT O}.

Lemma fresh_rel delta n_S n_MS p : mach_rel delta (fresh_mach n_S n_MS p) (fresh_mach n_S n_MS p) (fresh_mach n_S n_MS p).
Proof. split_and!; [apply Forall3_replicate; constructor|apply Forall3_replicate; constructor|done|done]. Qed.

Lemma ready_ok (g : Garbler P) e : ready g e → g_ok (g_delta g) g ∧ synced g e.
Proof.
  intros []. unfold g_workers in *. split; [split_and!; [done|done|lia..]|split_and!; [done..|lia|lia]].
Qed.

(** All schedules of a session, from the result of the plaintext machine. *)
Lemma ready_runs prog batch_size fuel n_S n_MS p in0 in1 st' (g : Garbler P) e (o : O) :
  ready g e → 0 < batch_size → Forall program_ok prog →
  plain_run fuel prog (fresh_mach n_S n_MS p, in0, in1) = Ok (Some st') →
  ∃ k s', nsteps (step prog batch_size) k
      (session_start (fresh_mach n_S n_MS p) (fresh_mach n_S n_MS p) in0 in1 g e o) s' ∧
    finished (g_delta g) st' s' ∧
    ∀ j s, nsteps (step prog batch_size) j
        (session_start (fresh_mach n_S n_MS p) (fresh_mach n_S n_MS p) in0 in1 g e o) s →
      (j ≤ k)%nat ∧ nsteps (step prog batch_size) (k - j) s s'.
Proof.
  intros Hr Hb Hp Hrun. pose proof (ready_delta _ _ Hr) as Hodd. destruct (ready_ok g e Hr) as [Hg Hs]. destruct Hr.
  by eapply (session_runs prog batch_size (g_delta g) Hodd (sched:=first_job)); [..|apply fresh_rel|done|done|done|done].
Qed.

(** C3. A session of the two parties computes the program.  Let the instructions be such
    that results are apart from operands, sizes are positive, a repeated operand
    ([ANDRS]) and an input of [INPUTB] have at most 64 bits and distinct destinations,
    and that within an instruction of at least ten AND gates or 1024 [XORS] no part
    writes a register that another part accesses ([program_ok]); and let the program end
    without an error on plaintext bits and the inputs of both players.  Let the parties
    be [ready]: in step, with an odd delta, a garbler's threshold of at least ten and 1 to
    1023 workers each.  Then every
    schedule of the garbler, the evaluator and the jobs of their workers, with OT for
    the evaluator's inputs, reaches within a bounded number of steps the one final
    state, in which both parties have ended and hold the clear, integer and memory
    registers of the plaintext machine. *)
Theorem yao_session_correct prog batch_size fuel n_S n_MS p in0 in1 m in0' in1' (g : Garbler P) e (o : O) :
  ready g e → 0 < batch_size → Forall program_ok prog →
  plain_run fuel prog (fresh_mach n_S n_MS p, in0, in1) = Ok (Some (m, in0', in1')) →
  ∃ bound s', gc_mode (s_g s') = GDone ∧ ec_mode (s_e s') = EDone ∧
    m_pub (gc_mach (s_g s')) = m_pub m ∧ m_pub (ec_mach (s_e s')) = m_pub m ∧
    gc_in (s_g s') = in0' ∧ ec_in (s_e s') = in1' ∧
    ∀ j s, nsteps (step prog batch_size) j
        (session_start (fresh_mach n_S n_MS p) (fresh_mach n_S n_MS p) in0 in1 g e o) s →
      (j ≤ bound)%nat ∧ nsteps (step prog batch_size) (bound - j) s s'.
Proof.
  intros Hr Hb Hp Hrun.
  destruct (ready_runs prog batch_size fuel n_S n_MS p in0 in1 _ g e o Hr Hb Hp Hrun)
    as (k & s' & _ & (m1 & i0 & i1 & mg & me & g1 & e1 & cx & cx' & o1 & [= <- <- <-] & -> & HM) & Hall).
  destruct HM as (_ & _ & E1 & E2). eexists k, _.
  split_and!; [| | | | | |exact Hall]; done.
Qed.

End sessions.

(** ** A concrete session, with half gates *)
#[export] Existing Instance HalfLaws.scheme.
#[export] Existing Instance HalfLaws.laws.

Module Example.
Definition prng_step (n : Z) : Z := u64 (6364136223846793005 * n + 1442695040888963407).

#[export] Instance prng : Prng Z := {|
  get_doubleword n := (Key_of_longs (prng_step n) n, prng_step (prng_step n));
  get_bit n := (Z.odd n, prng_step n);
|}.

(** [mpz_get_si] as GMP computes it. *)
Definition get_si (x : Z) : Z :=
  if 0 <=? x then Z.land x (Z.ones 63) else -1 - Z.land (-1 - x) (Z.ones 63).

Lemma get_si_fits x : - 2 ^ 63 ≤ x < 2 ^ 63 → get_si x = x.
Proof.
  intros Hx. unfold get_si. rewrite !Z.land_ones by done. destruct (Z.leb_spec 0 x); rewrite Z.mod_small; lia.
Qed.

Lemma get_si_long x : - 2 ^ 63 ≤ get_si x < 2 ^ 63.
Proof.
  unfold get_si. rewrite !Z.land_ones by done.
  destruct (0 <=? x); [pose proof (Z.mod_pos_bound x (2 ^ 63) eq_refl)|pose proof (Z.mod_pos_bound (-1 - x) (2 ^ 63) eq_refl)]; lia.
Qed.

Lemma get_si_sign x : 0 ≤ x → 0 ≤ get_si x.
Proof. intros Hx. unfold get_si. destruct (Z.leb_spec 0 x); [|lia]. apply Z.land_nonneg. by left. Qed.

Lemma get_si_low x i : 0 ≤ i < 63 → Z.testbit (get_si x) i = Z.testbit x i.
Proof.
  intros Hi. assert (Z.testbit (Z.ones 63) i = true) as Ho by by apply Z.ones_spec_low.
  assert (∀ y, Z.testbit (-1 - y) i = negb (Z.testbit y i)) as E.
  { intros y. rewrite <-Z.lnot_spec by lia. f_equal. unfold Z.lnot. lia. }
  unfold get_si. destruct (0 <=? x); rewrite ?E, Z.land_spec, Ho, andb_true_r; [done|]. rewrite E. apply negb_involutive.
Qed.

#[export] Instance gmp : Gmp := {|
  mpz_get_si := get_si;
  mpz_get_si_fits := get_si_fits;
  mpz_get_si_long := get_si_long;
  mpz_get_si_sign := get_si_sign;
  mpz_get_si_low := get_si_low;
|}.

(** The rows of the sender are [0], [1], ... *)
Definition rows (bs : list bool) : list Key := seqZ 0 (Z.of_nat (length bs)).

Lemma rows_lookup (o : unit) delta (bs : list bool) (q t : list Key) (o' : unit) i b :
  (rows bs, zip_with (λ k b, Z.lxor k (key_if b delta)) (rows bs) bs, o) = (q, t, o') →
  bs !! i = Some b → ∃ k, q !! i = Some k ∧ t !! i = Some (Z.lxor k (key_if b delta)).
Proof.
  intros [= <- <- _] Hb. exists (Z.of_nat i). unfold rows.
  assert (seqZ 0 (Z.of_nat (length bs)) !! i = Some (Z.of_nat i)) as E.
  { apply lookup_seqZ. apply lookup_lt_Some in Hb. lia. }
  split; [done|]. by rewrite lookup_zip_with, E, Hb.
Qed.

#[export] Instance ot : CorrelatedOT unit := {|
  cot o delta bs := (rows bs, zip_with (λ k b, Z.lxor k (key_if b delta)) (rows bs) bs, o);
  cot_rows := rows_lookup;
|}.

Definition garbler : Garbler Z := mkGarbler 0x1234567890abcdef1234567890abcdef 42 [1; 2] 0 [] [] 0 8 1024.
Definition evaluator : Evaluator := mkEvaluator 0 [] [] 0 8 3.

(** The conjunction of two numbers is revealed, and when it is not zero, their
    sum modulo two bit by bit; then bits of both players in registers of their own, the
    first bit of one player times those of the other. *)
Definition program : list program_instr :=
  [Input (INPUTB [0; 5; 0; 0; 1; 5; 0; 1]);
   Local (Wire (ANDS [5; 2; 0; 1]));
   Local (Wire (REVEAL [5; 0; 2]));
   Local (Public (CONVCBIT 0 0));
   Local (Public (JMPEQZ 0 2));
   Local (Wire (XORS [5; 3; 0; 1]));
   Local (Wire (REVEAL [5; 1; 3]));
   Input (INPUTBVEC [5; 0; 1; 4; 5; 5; 0; 0; 6; 7]);
   Local (Wire (ANDRSVEC [7; 1; 8; 9; 4; 6; 7]));
   Local (Wire (BITCOMS 10 [8; 9]));
   Local (Wire (REVEAL [2; 2; 10]))].

Definition pub : Pub := mkPub [0; 0; 0] [] [0] [] 0.

Lemma program_is_ok : Forall program_ok program.
Proof.
  unfold program. repeat (apply Forall_cons_2 || apply Forall_nil_2); try exact I.
  - split; [by repeat constructor|]. by apply (bool_decide_unpack (NoDup [0; 1])).
  - split; [by repeat constructor|done].
  - done.
  - intros qs [= <-]. split; [by constructor; [right|constructor; [left|]]|]. by apply (bool_decide_unpack (NoDup [4; 5; 6; 7])).
Qed.

Lemma program_run :
  plain_run 100 program (fresh_mach 11 0 pub, [13; -1], [7; 1])
    = Ok (Some (mkMach [[true; false; true; true; false]; [true; true; true; false; false];
                        [true; false; true; false; false]; [false; true; false; true; false];
                        [true]; [false]; [true]; [true]; [true]; [true]; [true; true]] []
                  (mkPub [5; 10; 3] [] [5] [] 11), [], [])).
Proof. vm_compute. reflexivity. Qed.
End Example.
Import Example.

Lemma yao_session_correct_witness :
  ∃ bound s', gc_mode (s_g s') = GDone ∧ ec_mode (s_e s') = EDone ∧
    m_pub (gc_mach (s_g s')) = mkPub [5; 10; 3] [] [5] [] 11 ∧
    m_pub (ec_mach (s_e s')) = mkPub [5; 10; 3] [] [5] [] 11 ∧
    gc_in (s_g s') = [] ∧ ec_in (s_e s') = [] ∧
    ∀ j s, nsteps (step (P:=Z) (O:=unit) program 10) j
        (session_start (fresh_mach 11 0 pub) (fresh_mach 11 0 pub) [13; -1] [7; 1] garbler evaluator tt) s →
      (j ≤ bound)%nat ∧ nsteps (step program 10) (bound - j) s s'.
Proof.
  refine (yao_session_correct program 10 100 11 0 pub [13; -1] [7; 1] _ [] [] garbler evaluator tt _ _
    program_is_ok program_run); [constructor; by vm_compute|done].
Defined.

(** ** Batches of AND gates *)
Section batches.
Context {P : Type} `{Prng P} `{GateScheme} `{!GateLaws}.

(** C23. A batch of AND gates, with either operand shape, whose instructions have
    positive sizes and results apart from their operands and, from ten gates on, do not
    access the results of each other ([batch_ok]): the garbler succeeds when the
    plaintext instruction does, and an evaluator in step obtains the keys of the
    plaintext results from exactly what the garbler wrote; whatever number of workers
    from 1 to 1023 either party has, and whatever the schedules of their jobs, which end
    alike.  Delta is odd, and the garbler's threshold at least ten. *)
Theorem yao_ands_correct repeat args Sg Sp Se Sp' (g : Garbler P) :
  Z.odd (g_delta g) = true → 10 ≤ g_threshold g → 0 < g_workers g < 1024 →
  Mem (g_delta g) Sg Sp Se → batch_ok repeat args →
  and_ (Sp, tt) args repeat = Ok (Sp', tt) →
  ∃ Sg' g' gates masks, (∀ sched : Scheduler, garble_and_multithread repeat (Sg, g) args = Ok (Sg', g')) ∧
    g_gates g' = g_gates g ++ gates ∧ g_output_masks g' = g_output_masks g ++ masks ∧
    ∀ (e : Evaluator) gs ms, synced g e → e_gates e = gates ++ gs → e_output_masks e = masks ++ ms →
      ∃ Se' e', (∀ sched : Scheduler, eval_and_multithread repeat (Se, e) args = Ok (Se', e')) ∧
        e_gates e' = gs ∧ e_output_masks e' = ms ∧ synced g' e' ∧ Mem (g_delta g) Sg' Sp' Se'.
Proof.
  intros Hd Ht Hw HM Hq HE. unfold g_workers in Hw.
  destruct (ands_sim (P:=P) (g_delta g) Hd first_job first_job Sg Sp Se args repeat HM Hq Sp' tt HE g)
    as (Sg' & g' & gates & masks & E & Ha & He); [split_and!; [done|done|lia..]|].
  exists Sg', g', gates, masks. split_and!; [|by apply Ha|by apply Ha|].
  { intros sched. by apply (le_ands _ _ (garble_instrs_le (P:=P) first_job sched)) in E. }
  intros e gs ms Hs Hgs Hms. destruct (He e gs ms Hs Hgs Hms) as (Se' & Ee & HM').
  exists Se', (e_after e (length gates) gs ms). split_and!; [|done..|by eapply synced_after|done].
  intros sched. by apply (le_ands _ _ (eval_instrs_le first_job sched)) in Ee.
Qed.
End batches.

(** Registers of known bits, in the three machines. *)
Definition known_g (delta : Key) (S : Secrets bool) : Secrets Key :=
  (λ bs : list bool, (λ b, YaoHalfGate.garble_public_input b delta) <$> bs) <$> (S : list (list bool)).
Definition known_e (S : Secrets bool) : Secrets Key :=
  (λ bs : list bool, (λ _, 0) <$> bs) <$> (S : list (list bool)).

Lemma known_rel delta S : Mem delta (known_g delta S) S (known_e S).
Proof.
  induction S as [|bs S IH]; constructor; [|exact IH].
  clear IH. induction bs as [|b bs IH]; [constructor|].
  constructor; [exact (@rel_public HalfLaws.scheme HalfLaws.laws delta b)|exact IH].
Qed.

Lemma yao_ands_correct_witness :
  let mem := replicate 36 (replicate 64 true) ++ replicate 18 [] in
  let args := [600; 36; 0; 10; 500; 46; 20; 28] in
  ∃ Sp', and_ (P:=unit) (mem, tt) args false = Ok (Sp', tt) ∧
  ∃ Sg' g' gates masks,
    (∀ sched : Scheduler,
       garble_and_multithread false (known_g (g_delta garbler) mem, garbler) args = Ok (Sg', g')) ∧
    g_gates g' = g_gates garbler ++ gates ∧ g_output_masks g' = g_output_masks garbler ++ masks ∧
    ∀ (e : Evaluator) gs ms, synced garbler e → e_gates e = gates ++ gs →
      e_output_masks e = masks ++ ms →
      ∃ Se' e', (∀ sched : Scheduler, eval_and_multithread false (known_e mem, e) args = Ok (Se', e')) ∧
        e_gates e' = gs ∧ e_output_masks e' = ms ∧ synced g' e' ∧ Mem (g_delta garbler) Sg' Sp' Se'.
Proof.
  intros mem args.
  assert (∃ S, and_ (P:=unit) (mem, tt) args false = Ok (S, tt)) as [Sp' E]
    by (eexists; vm_compute; reflexivity).
  exists Sp'. split; [exact E|].
  apply (yao_ands_correct false args (known_g (g_delta garbler) mem) mem (known_e mem) Sp' garbler).
  - reflexivity.
  - clear E. done.
  - clear E. done.
  - apply known_rel.
  - clear E. split; [by repeat constructor|by vm_compute].
  - exact E.
Defined.

(** C36. The splits of a batch into jobs: there are at most as many jobs as workers,
    they cover the arguments of the instruction without a gap, and their numbers
    of gates add up to that of the batch. *)
Theorem get_splits_fits args threshold workers : 0 < workers → quads args ≠ [] →
  Forall (λ q, 0 < q.1.1.1) (quads args) →
  let splits := get_splits args threshold (sizes (quads args)) workers in
  Z.of_nat (length splits) ≤ workers ∧ covers 0 (quads args) splits ∧
  foldr Z.add 0 splits.*1 = sizes (quads args).
Proof.
  intros Hw Hn Hq splits. split; [by apply get_splits_length|].
  pose proof (get_splits_covers args threshold (sizes (quads args)) workers) as Hc.
  split; [exact Hc|]. change (get_splits _ _ _ _) with splits in Hc.
  revert Hc. generalize (quads args) as qs, 0 at 1 as z, splits as l. clear. intros qs z l.
  revert qs z. induction l as [|[i stop] l IH]; intros qs z Hc; cbn [covers] in Hc.
  { by rewrite Hc. }
  destruct Hc as (k & _ & _ & -> & Hc). cbn [fmap list_fmap foldr fst].
  rewrite (IH _ _ Hc). by rewrite <-sizes_app, take_drop.
Qed.

Lemma get_splits_fits_witness :
  let args := [600; 0; 10; 20; 500; 30; 40; 50; 700; 60; 70; 80] in
  let splits := get_splits args 1024 1800 4 in
  splits = [(600, 4); (1200, 12)] ∧
  Z.of_nat (length splits) ≤ 4 ∧ covers 0 (quads args) splits ∧ foldr Z.add 0 splits.*1 = 1800.
Proof.
  split; [by vm_compute|].
  by refine (get_splits_fits [600; 0; 10; 20; 500; 30; 40; 50; 700; 60; 70; 80] 1024 4 _ _ _); [..|repeat constructor].
Defined.

(** ** Single gates *)

(** The evaluator's key of the bit [b] on the wire [w]. *)
Definition half_key (delta w : Key) (b : bool) : Key := Z.lxor w (key_if b delta).
Definition full_key (delta w : Key) (b : bool) : Key :=
  Z.lxor (wire_key w) (key_if (xorb (mask w) b) delta).

(** C28. One AND gate, in the half-gate and in the four-row form, for any hash: from
    the keys of two bits the evaluator computes a key of the result wire whose
    external bit, with the garbler's mask, decodes to the conjunction. *)
Theorem yao_gates_decode (hash : Key → Key) delta T out left right bl br :
  Z.odd delta = true →
  (let hashes := hash <$> YaoHalfGate.E_inputs left right (doubling delta 1) (doubling delta 2) T in
   let '(gate, out) := YaoHalfGate.and_garble out hashes left right delta in
   let l := half_key delta left bl in
   let r := half_key delta right br in
   let key := YaoHalfGate.gate_eval gate (hash <$> YaoHalfGate.eval_inputs l r T) l r in
   key = half_key delta out (bl && br) ∧ xorb (external key) (mask out) = bl && br) ∧
  (let hashes := hash <$> YaoFullGate.E_inputs left right (doubling delta 1) (doubling delta 2) T in
   let '(gate, out) := YaoFullGate.and_garble out hashes left right delta in
   let l := full_key delta left bl in
   let r := full_key delta right br in
   let key := YaoFullGate.gate_eval gate (hash <$> YaoFullGate.eval_inputs l r T) l r in
   key = full_key delta out (bl && br) ∧ xorb (external key) (mask out) = bl && br).
Proof.
  intros Hd. split.
  - pose proof (@rel_and HalfLaws.scheme HalfLaws.laws hash delta T out left right bl br
      (half_key delta left bl) (half_key delta right br) Hd eq_refl eq_refl) as HR.
    cbv zeta in HR |- *. cbn [and_garble E_inputs HalfLaws.scheme] in HR.
    destruct (YaoHalfGate.and_garble _ _ _ _ _) as [gate out']. split; [exact HR|].
    exact (@rel_output HalfLaws.scheme HalfLaws.laws delta _ _ _ Hd HR).
  - pose proof (@rel_and FullLaws.scheme FullLaws.laws hash delta T out left right bl br
      (full_key delta left bl) (full_key delta right br) Hd eq_refl eq_refl) as HR.
    cbv zeta in HR |- *. cbn [and_garble E_inputs FullLaws.scheme] in HR.
    destruct (YaoFullGate.and_garble _ _ _ _ _) as [gate out']. split; [exact HR|].
    exact (@rel_output FullLaws.scheme FullLaws.laws delta _ _ _ Hd HR).
Qed.

Lemma yao_gates_decode_witness :
  let delta := 0x1234567890abcdef1234567890abcdef in
  let hashes := mmo_hash1 <$> YaoHalfGate.E_inputs 17 42 (doubling delta 1) (doubling delta 2) 5 in
  let '(gate, out) := YaoHalfGate.and_garble 0 hashes 17 42 delta in
  let l := half_key delta 17 true in
  let r := half_key delta 42 true in
  let key := YaoHalfGate.gate_eval gate (mmo_hash1 <$> YaoHalfGate.eval_inputs l r 5) l r in
  key = half_key delta out true ∧ xorb (external key) (mask out) = true.
Proof.
  exact (proj1 (yao_gates_decode mmo_hash1 0x1234567890abcdef1234567890abcdef 5 0 17 42 true true eq_refl)).
Defined.

(** ** Instructions on several threads *)

(** C12. XOR of registers with 0 to 1023 workers: from 1024 instructions on, provided that
    none of them accesses the result of another, every schedule of the jobs of the
    workers and the calling thread leaves the registers as one thread does; below, one
    thread does it all. *)
Theorem yao_xors_parallel {W P} `{WireOps W P} (sched : Scheduler) workers (S S' : Secrets W) args :
  0 ≤ workers < 1024 →
  (1024 ≤ Z.of_nat (length (quads args)) → independent gate_footprint (quads args) = true) →
  xors S args 0 (Z.of_nat (length args)) = Ok S' → yao_xors workers S args = Ok S'.
Proof. apply yao_xors_eq. Qed.

(** The result of register [i] goes to register [2 + i]. *)
Definition many_xors : list Z := mjoin ((λ i, [1; 2 + i; 0; 1]) <$> seqZ 0 1100).

Lemma yao_xors_parallel_witness :
  let S := [[true]; [false]] ++ replicate 1100 [] in
  yao_xors (P:=unit) (sched:=first_job) 3 S many_xors = Ok ([[true]; [false]] ++ replicate 1100 [true]).
Proof.
  refine (yao_xors_parallel first_job 3 ([[true]; [false]] ++ replicate 1100 []) _ many_xors _ _ _);
    [done|by vm_compute|by vm_compute].
Defined.

(** An input of more than 64 bits of [INPUTB] loses its bit 63: [mpz_get_si] gives the
    sign of a number that does not fit in its place.  Numbers that differ in that bit are
    read alike by every kind of party. *)
Theorem inputb_loses_bit63 {W P I} `{WireOps W P} `{!Inputter W P I} `{Gmp} (party : P) S (input : I) inp
    from n shift d x : in_mine (W:=W) (P:=P) (I:=I) from = true → 64 < n → 0 ≤ x < 2 ^ (n - 1) →
  inputb_read party (S, x :: inp, input) [from; n; shift; d]
    = inputb_read party (S, Z.lxor x (2 ^ 63) :: inp, input) [from; n; shift; d].
Proof.
  intros Hm Hn Hx. unfold inputb_read.
  change (input_args [from; n; shift; d]) with (Ok [(from, n, shift, d)]).
  rewrite !bind_ok. cbn [foldM]. unfold inputb_read_one. rewrite Hm.
  assert (0 ≤ Z.lxor x (2 ^ 63) < 2 ^ (n - 1)) as Hx'.
  { apply (is_word_lxor (n - 1) x (2 ^ 63)); [lia|done|]. split; [done|]. apply Z.pow_lt_mono_r; lia. }
  assert (∀ y, 0 ≤ y < 2 ^ (n - 1) → get_long_input (y :: inp) n = Ok (y, inp)) as Eg.
  { intros y Hy. unfold get_long_input, check_input. rewrite (proj2 (Z.ltb_ge n 1)), (proj2 (Z.eqb_neq n 1)) by lia.
    by rewrite Z.shiftr_div_pow2, Z.div_small by lia. }
  rewrite !Eg, !bind_ok by done. f_equal.
  erewrite foldM_ext_in; [reflexivity|]. intros st i [Hi _]%elem_of_seqZ. apply secret_my_input_ext. intros k [Hk1 Hk2].
  destruct (Z.eq_dec i 0) as [->|Hi0].
  - unfold default_length in *. rewrite !Z.shiftr_0_r. destruct (Z.eq_dec k 63) as [->|Hk].
    + pose proof (mpz_get_si_long x). pose proof (mpz_get_si_sign x ltac:(lia)).
      pose proof (mpz_get_si_long (Z.lxor x (2 ^ 63))). pose proof (mpz_get_si_sign (Z.lxor x (2 ^ 63)) ltac:(lia)).
      rewrite !(is_word_high 63); done || (unfold is_word; lia).
    + rewrite !mpz_get_si_low by lia. by rewrite Z.lxor_spec, Z.pow2_bits_false, xorb_false_r by lia.
  - f_equal. f_equal. apply Z.bits_inj'. intros j Hj. rewrite !Z.shiftr_spec by lia.
    rewrite Z.lxor_spec, Z.pow2_bits_false, xorb_false_r by (unfold default_length; lia). done.
Qed.

(** The tweaks of half gates ignore the highest bit of the gate number, which
    is part of the thread number: a thread hashes the same inputs as the thread
    half of the number range away, gate by gate; and a gate on its own is hashed
    with the counter alone, so two threads garble it alike. *)
Theorem half_gate_tweaks_repeat :
  (∀ left right ld rd log counter thread, 1 ≤ log ≤ 63 →
     YaoHalfGate.E_inputs left right ld rd (gate_id log counter (thread + 2 ^ (log - 1)))
       = YaoHalfGate.E_inputs left right ld rd (gate_id log counter thread)) ∧
  (∀ hash out left right delta func counter id id',
     YaoHalfGate.gate_op hash out left right delta func counter id
       = YaoHalfGate.gate_op hash out left right delta func counter id').
Proof.
  split; [|done]. intros left right ld rd log counter thread Hl.
  assert (gate_id log counter (thread + 2 ^ (log - 1)) = gate_id log counter thread + 2 ^ 63) as ->.
  { unfold gate_id. rewrite Z.mod_small by lia. rewrite !Z.shiftl_mul_pow2 by lia.
    replace 63 with ((log - 1) + (64 - log)) by lia. rewrite Z.pow_add_r by lia. lia. }
  set (T := gate_id log counter thread).
  assert (∀ i, Key_of_long (Z.shiftl (T + 2 ^ 63) 1 + i) = Key_of_long (Z.shiftl T 1 + i)) as E.
  { intros i. unfold Key_of_long, key_lanes, u64. f_equal.
    rewrite !Z.shiftl_mul_pow2 by lia.
    replace ((T + 2 ^ 63) * 2 ^ 1 + i) with ((T * 2 ^ 1 + i) + 1 * 2 ^ 64) by lia.
    by rewrite Z.mod_add. }
  unfold YaoHalfGate.E_inputs. pose proof (E 0) as E0. rewrite !Z.add_0_r in E0.
  by rewrite E0, E.
Qed.

Definition is_UB {A} (m : outcome A) : bool := match m with UB => true | _ => false end.

Lemma is_UB_spec {A} (m : outcome A) : is_UB m = true → m = UB.
Proof. by destruct m. Qed.

(** [ANDRS] on more than 64 bits: the evaluator, like the plaintext
    instruction, takes the repeated operand from its first register, the garbler
    from a new register for every 64 bits, and fails when there is none. *)
Theorem garbled_repeat_diverges :
  let mem := [[]; []; replicate 64 true; replicate 64 true; [true]] in
  let args := [70; 0; 2; 4] in
  (∃ S, and_ (P:=unit) (mem, tt) args true = Ok (S, tt)) ∧
  is_ok (eval_and_multithread (sched:=first_job) true
           (known_e mem, e_set_gates evaluator (replicate 70 (YaoHalfGate.mkHalfGate 0 0))) args) = true ∧
  garble_and_multithread (sched:=first_job) true (known_g (g_delta garbler) mem, garbler) args = UB.
Proof.
  split; [eexists; vm_compute; reflexivity|]. split; [vm_compute; reflexivity|].
  apply is_UB_spec. vm_compute. reflexivity.
Qed.

