(* ===== verification/YaoOneShot.v ===== *)
(** * The parties with garbling at once

    [YaoGarbler::run], [YaoGarbler::post_run], [YaoEvaluator::pre_run],
    [receive_to_store] and [run_from_store] without continuous mode (option [-O]), and
    the store of messages ([Tools/FlexBuffer.*]): the evaluator takes all gates before
    it runs the program.  The garbler, however, waits at the end of [run] for a message
    that the evaluator sends in continuous mode only. *)

From S2P Require Import Prelude Xor Block Aes Workers YaoKey YaoGate GcVm YaoWire YaoSim YaoProps YaoJobs YaoVm YaoInput YaoInputProps YaoMachine YaoSession YaoTheorems.

(** ** [ReceivedMsgStore]

    [N] messages in memory, the others in files. *)
Record Store (A : Type) := mkStore { st_mem : list A; st_files : list A }.
Arguments mkStore {A}.
Arguments st_mem {A}.
Arguments st_files {A}.

Definition store_N : nat := 1.
Definition store_new {A} : Store A := mkStore [] [].

Definition store_push {A} (s : Store A) (msg : A) : Store A :=
  if negb (length (st_mem s) =? store_N)%nat && match st_files s with [] => true | _ => false end
  then mkStore (st_mem s ++ [msg]) (st_files s)
  else mkStore (st_mem s) (st_files s ++ [msg]).

(** The message is left alone when there is none. *)
Definition store_pop {A} (s : Store A) (msg : A) : A * Store A :=
  match st_mem s, st_files s with
  | x :: mem, files => (x, mkStore mem files)
  | [], x :: files => (x, mkStore [] files)
  | [], [] => (msg, s)
  end.

(** A store is a queue. *)
Definition stored {A} (s : Store A) : list A := st_mem s ++ st_files s.
Definition store_wf {A} (s : Store A) : Prop := (length (st_mem s) ≤ store_N)%nat.

Lemma store_push_queue {A} (s : Store A) x : store_wf s → store_wf (store_push s x) ∧ stored (store_push s x) = stored s ++ [x].
Proof.
  unfold store_wf, stored, store_push, store_N. destruct s as [mem files]. cbn [st_mem st_files]. intros Hw.
  destruct (Nat.eqb_spec (length mem) 1); cbn [negb andb].
  - split; [done|]. apply app_assoc.
  - destruct files; cbn [st_mem st_files].
    + rewrite length_app. cbn [length]. split; [lia|]. by rewrite !app_nil_r.
    + split; [done|]. apply app_assoc.
Qed.

Lemma store_pop_queue {A} (s : Store A) x : store_wf s →
  store_wf (store_pop s x).2 ∧ (store_pop s x).1 :: stored (store_pop s x).2 = match stored s with [] => [x] | q => q end.
Proof.
  unfold store_wf, stored, store_pop, store_N. destruct s as [[|y mem] [|z files]]; cbn; intros Hw; (split; [lia|done]).
Qed.

(** ** The parties *)
Inductive og_mode := OExec | OSend (last : bool) | OWait | OPost | OInputs | OEnd.
Inductive oe_mode := OStore | OPop | ORun | OInput (i : input_instr) (ei : EvalInput) | OStop.

(** [send_long] and [receive_long]; [None]: the octets are not there yet. *)
Definition receive_long (l : list Z) : option (Z * list Z) :=
  if (length l <? 8)%nat then None else Some (s64 (le_val (take 8 l)), drop 8 l).

(** [receive_player] *)
Definition receive_message (l : list Z) : option (list Z * list Z) :=
  if (length l <? 4)%nat then None
  else
    let n := Z.to_nat (le_val (take 4 l)) in
    if (length (drop 4 l) <? n)%nat then None else Some (take n (drop 4 l), drop n (drop 4 l)).

Section oneshot.
Context {P O : Type} `{Prng P} `{GateScheme} `{Gmp} `{!CorrelatedOT O}.
Context (prog : list program_instr) (batch_size : Z).

(** What the garbler sends: [MORE] with gates and masks, or [DONE]. *)
Inductive omsg := More (gates : list gate) (masks : list bool) | Done.

Record OGConf := mkOG {
  og_state : og_mode;
  og_mach : Mach Key;
  og_in : list Z;
  og_party : Garbler P;
  og_complexity : Z;
  og_tainted : bool;
  og_keys : list (list Key);
}.

Record OEConf := mkOE {
  oe_state : oe_mode;
  oe_mach : Mach Key;
  oe_in : list Z;
  oe_party : Evaluator;
  oe_complexity : Z;
  oe_gates : Store (list gate);
  oe_masks : Store (list bool);
}.

(** The queues: from the garbler, octets from the evaluator, choice bits, keys of
    inputs with the rows of the receiver. *)
Record OSys := mkOSys {
  os_g : OGConf;
  os_e : OEConf;
  os_ot : O;
  os_msgs : list omsg;
  os_octets : list Z;
  os_bits : list (list bool);
  os_keys : list (list Key * list Key);
}.

Section party_steps.
Context {sched : Scheduler}.

(** ** The garbler

    A step gives the configuration, the queues that it reads, and what it sends. *)
Definition OGStep : Type := OGConf * O * list Z * list (list bool) * list omsg * list (list Key * list Key).

Definition og_next (i : program_instr) (m : Mach Key) (inp : list Z) (g : Garbler P) (complexity : Z) (tainted : bool)
    (keys : list (list Key)) : OGConf :=
  let complexity := complexity + cost i in
  mkOG (if complexity <? batch_size then OExec else OSend false) m inp g complexity tainted keys.

(** [YaoGarbleWire::get_output] taints; [YaoGarbleWire::convcbit] untaints, and there is
    no handler for [needs_cleaning]. *)
Definition og_exec (gc : OGConf) (o : O) (octets : list Z) (bits : list (list bool)) : outcome (option OGStep) :=
  match fetch prog (og_mach gc) with
  | None =>
      Ok (Some (mkOG (OSend true) (og_mach gc) (og_in gc) (og_party gc) (og_complexity gc) (og_tainted gc) (og_keys gc),
                o, octets, bits, [], []))
  | Some (Local (Public (CONVCBIT r0 r1)), m) =>
      let '(tainted, throws) := untaint (og_tainted gc) in
      if throws : bool then Throw "run-time branching impossible with garbling at once"
      else
        match receive_long octets with
        | None => Ok None
        | Some (x, octets) =>
            p ← put_I (m_pub m) r0 (Ok x);
            Ok (Some (og_next (Local (Public (CONVCBIT r0 r1))) (set_pub m p) (og_in gc) (og_party gc) (og_complexity gc)
                        tainted (og_keys gc), o, octets, bits, [], []))
        end
  | Some (Local i, m) =>
      '(m, g) ← mach_exec i m (og_party gc);
      let tainted := match i with Wire (REVEAL _) => true | _ => og_tainted gc end in
      Ok (Some (og_next (Local i) m (og_in gc) g (og_complexity gc) tainted (og_keys gc), o, octets, bits, [], []))
  | Some (Input i, m) =>
      '(mem, inp, input) ← input_read (og_party gc) (m_S m, og_in gc, @nil Key) i;
      '(mem, (g, keys)) ← input_finalize (mem, (og_party gc, input)) i;
      Ok (Some (og_next (Input i) (set_S m mem) inp g (og_complexity gc) (og_tainted gc) (og_keys gc ++ [keys]),
                o, octets, bits, [], []))
  end.

(** One iteration of [process_receiver_inputs] in [post_run]. *)
Definition og_inputs (gc : OGConf) (o : O) (octets : list Z) (bits : list (list bool)) : outcome (option OGStep) :=
  let go mode keys := mkOG mode (og_mach gc) (og_in gc) (og_party gc) (og_complexity gc) (og_tainted gc) keys in
  match og_keys gc with
  | [] => Ok (Some (go OEnd [], o, octets, bits, [], []))
  | [] :: keys => Ok (Some (go OInputs keys, o, octets, bits, [], [([], [])]))
  | inputs :: keys =>
      match bits with
      | [] => Ok None
      | bs :: bits =>
          if (length bs =? length inputs)%nat then
            let '(rows, t, o) := cot o (g_delta (og_party gc)) bs in
            os ← masked_keys inputs rows;
            Ok (Some (go OInputs keys, o, octets, bits, [], [(os, t)]))
          else Throw "wrong number of choice bits"
      end
  end.

Definition og_go (gc : OGConf) (mode : og_mode) : OGConf :=
  mkOG mode (og_mach gc) (og_in gc) (og_party gc) (og_complexity gc) (og_tainted gc) (og_keys gc).

Definition og_step (gc : OGConf) (o : O) (octets : list Z) (bits : list (list bool)) : outcome (option OGStep) :=
  match og_state gc with
  | OExec => og_exec gc o octets bits
  | OSend last =>
      Ok (Some (mkOG (if last : bool then OWait else OExec) (og_mach gc) (og_in gc) (g_clear (og_party gc)) 0 (og_tainted gc) (og_keys gc),
                o, octets, bits, [More (g_gates (og_party gc)) (g_output_masks (og_party gc))], []))
  | OWait =>
      match receive_message octets with
      | None => Ok None
      | Some (_, octets) => Ok (Some (og_go gc OPost, o, octets, bits, [], []))
      end
  | OPost => Ok (Some (og_go gc OInputs, o, octets, bits, [Done], []))
  | OInputs => og_inputs gc o octets bits
  | OEnd => Ok None
  end.

(** ** The evaluator *)
Definition OEStep : Type := OEConf * list omsg * list (list Key * list Key) * list Z * list (list bool).

Definition oe_next (i : program_instr) (m : Mach Key) (inp : list Z) (e : Evaluator) (ec : OEConf) : OEConf :=
  let complexity := oe_complexity ec + cost i in
  mkOE (if complexity <? batch_size then ORun else OPop) m inp e complexity (oe_gates ec) (oe_masks ec).

(** [YaoEvalWire::convcbit] throws [needs_cleaning], which [run_from_store] does not
    catch. *)
Definition oe_exec (ec : OEConf) (msgs : list omsg) (os : list (list Key * list Key)) : outcome (option OEStep) :=
  match fetch prog (oe_mach ec) with
  | None =>
      Ok (Some (mkOE OStop (oe_mach ec) (oe_in ec) (oe_party ec) (oe_complexity ec) (oe_gates ec) (oe_masks ec), msgs, os, [], []))
  | Some (Local (Public (CONVCBIT _ _)), _) => Throw "needs_cleaning"
  | Some (Local i, m) =>
      '(m, e) ← mach_exec i m (oe_party ec);
      Ok (Some (oe_next (Local i) m (oe_in ec) e ec, msgs, os, [], []))
  | Some (Input i, m) =>
      '(mem, inp, ei) ← input_read (oe_party ec) (m_S m, oe_in ec, ei_new) i;
      Ok (Some (mkOE (OInput i ei) (set_S m mem) inp (oe_party ec) (oe_complexity ec) (oe_gates ec) (oe_masks ec),
                msgs, os, [], match ei_inputs ei with [] => [] | bs => [bs] end))
  end.

(** [receive_to_store] in [pre_run], then [run_from_store]. *)
Definition oe_step (ec : OEConf) (msgs : list omsg) (os : list (list Key * list Key)) : outcome (option OEStep) :=
  match oe_state ec with
  | OStore =>
      match msgs with
      | [] => Ok None
      | More gates masks :: msgs =>
          Ok (Some (mkOE OStore (oe_mach ec) (oe_in ec) (oe_party ec) (oe_complexity ec)
                      (store_push (oe_gates ec) gates) (store_push (oe_masks ec) masks), msgs, os, [], []))
      | Done :: msgs =>
          Ok (Some (mkOE OPop (oe_mach ec) (oe_in ec) (oe_party ec) (oe_complexity ec) (oe_gates ec) (oe_masks ec), msgs, os, [], []))
      end
  | OPop =>
      let e := oe_party ec in
      let '(gates, gs) := store_pop (oe_gates ec) (e_gates e) in
      let '(masks, ms) := store_pop (oe_masks ec) (e_output_masks e) in
      Ok (Some (mkOE ORun (oe_mach ec) (oe_in ec) (e_set_masks (e_set_gates e gates) masks) 0 gs ms, msgs, os, [], []))
  | ORun => oe_exec ec msgs os
  | OInput i ei =>
      match os with
      | [] => Ok None
      | (keys, rows) :: os =>
          '(mem, (e, _)) ← input_finalize (m_S (oe_mach ec), (oe_party ec, ei_exchange ei rows keys)) i;
          Ok (Some (oe_next (Input i) (set_S (oe_mach ec) mem) (oe_in ec) e ec, msgs, os, [], []))
      end
  | OStop => Ok None
  end.
End party_steps.

(** ** The system: either party moves, its jobs in any order *)
Inductive ostep : OSys → OSys → Prop :=
  | ostep_g {sched : Scheduler} gc ec o msgs octets bits os gc' o' octets' bits' sent sent_os :
      og_step gc o octets bits = Ok (Some (gc', o', octets', bits', sent, sent_os)) →
      ostep (mkOSys gc ec o msgs octets bits os) (mkOSys gc' ec o' (msgs ++ sent) octets' bits' (os ++ sent_os))
  | ostep_e {sched : Scheduler} gc ec o msgs octets bits os ec' msgs' os' sent sent_bits :
      oe_step ec msgs os = Ok (Some (ec', msgs', os', sent, sent_bits)) →
      ostep (mkOSys gc ec o msgs octets bits os) (mkOSys gc ec' o msgs' (octets ++ sent) (bits ++ sent_bits) os').

Definition oneshot_start (mg me : Mach Key) (in0 in1 : list Z) (g : Garbler P) (e : Evaluator) (o : O) : OSys :=
  mkOSys (mkOG OExec mg in0 g 0 true []) (mkOE OStore me in1 e 0 store_new store_new) o [] [] [] [].

(** ** Nobody gets past the end of [run] *)
Definition more (x : omsg) : bool := match x with More _ _ => true | Done => false end.

Record Before (s : OSys) : Prop := {
  bf_g : match og_state (os_g s) with OExec | OSend _ | OWait => True | _ => False end;
  bf_e : oe_state (os_e s) = OStore;
  bf_msgs : Forall more (os_msgs s);
  bf_octets : os_octets s = [];
}.

Lemma og_exec_state {sched : Scheduler} gc o bits gc' o' octets' bits' sent so : og_exec gc o [] bits = Ok (Some (gc', o', octets', bits', sent, so)) →
  match og_state gc' with OExec | OSend _ => True | _ => False end ∧ octets' = [] ∧ sent = [].
Proof.
  assert (Hn : ∀ i m inp g cx t K, match og_state (og_next i m inp g cx t K) with OExec | OSend _ => True | _ => False end)
    by (intros; unfold og_next; cbn; by destruct (_ <? _)).
  unfold og_exec. destruct (fetch prog (og_mach gc)) as [[[i|args] m]|]; [| |by intros [= <- <- <- <- <- <-]].
  - assert (Hl : ∀ i t, ('(m, g) ← mach_exec i m (og_party gc);
        Ok (Some (og_next (Local i) m (og_in gc) g (og_complexity gc) t (og_keys gc), o, [], bits, [], [])))
          = Ok (Some (gc', o', octets', bits', sent, so)) →
        match og_state gc' with OExec | OSend _ => True | _ => False end ∧ octets' = [] ∧ sent = []).
    { intros i' t. destruct (mach_exec i' m (og_party gc)) as [[m' g]| |]; [|done..]. rewrite bind_ok. intros [= <- <- <- <- <- <-].
      split; [apply Hn|done]. }
    destruct i as [ |[]| | | | | ]; try (apply Hl). destruct (untaint (og_tainted gc)) as [t []]; done.
  - destruct (input_read _ _ _) as [[[mem inp] input]| |]; [|done..]. rewrite bind_ok.
    destruct (input_finalize _ _) as [[mem' [g keys]]| |]; [|done..]. rewrite bind_ok. intros [= <- <- <- <- <- <-].
    split; [apply Hn|done].
Qed.

Lemma ostep_before s s' : Before s → ostep s s' → Before s'.
Proof.
  intros [Hg He Hm Ho] Hst. destruct Hst as [sc gc ec o msgs octets bits os gc' o' octets' bits' sent so E|
    sc gc ec o msgs octets bits os ec' msgs' os' sent sb E]; cbn in *; subst octets.
  - unfold og_step in E. destruct (og_state gc) as [|last| | | |] eqn:Eg; try done.
    + apply og_exec_state in E as (Hs & -> & ->). rewrite app_nil_r. split; cbn; try done. by destruct (og_state gc').
    + injection E as <- <- <- <- <- <-. split; cbn; try done; [by destruct last|]. apply Forall_app. split; [done|by constructor].
  - unfold oe_step in E. rewrite He in E. destruct msgs as [|[gs ms|] msgs]; [done| |by apply Forall_cons in Hm as [? _]].
    injection E as <- <- <- <- <-. apply Forall_cons in Hm as [_ Hm]. by split.
Qed.

Lemma osteps_before s s' : rtc ostep s s' → Before s → Before s'.
Proof. induction 1; eauto using ostep_before. Qed.

Definition odone (s : OSys) : Prop := og_state (os_g s) = OEnd ∨ oe_state (os_e s) = OStop.

(** C22. With garbling at once neither party comes to its end: the garbler does not send
    [DONE] before it has a message of the evaluator, and the evaluator sends nothing
    before it has [DONE].  Once all gates are sent and stored nobody can move. *)
Theorem oneshot_deadlock mg me in0 in1 g e o s : rtc ostep (oneshot_start mg me in0 in1 g e o) s →
  ¬ odone s ∧ os_octets s = [] ∧ oe_state (os_e s) = OStore ∧
  (og_state (os_g s) = OWait → os_msgs s = [] → ∀ s', ¬ ostep s s').
Proof.
  intros Hr. assert (HB : Before s).
  { apply (osteps_before _ _ Hr). by split; cbn. }
  destruct HB as [Hg He Hm Ho]. split_and!; [|done|done|].
  - intros [Hd|Hd]; [by rewrite Hd in Hg|by rewrite Hd in He].
  - intros Hw Hq s' Hst. destruct Hst as [sc gc ec o' msgs octets bits os gc' o'' octets' bits' sent so E|
      sc gc ec o' msgs octets bits os ec' msgs' os' sent sb E]; cbn in *; subst.
    + unfold og_step in E. by rewrite Hw in E.
    + unfold oe_step in E. by rewrite He in E.
Qed.

(** A schedule: the garbler moves when it can. *)
Fixpoint orun {sched : Scheduler} (fuel : nat) (s : OSys) : OSys :=
  match fuel with
  | 0%nat => s
  | S fuel =>
      match og_step (os_g s) (os_ot s) (os_octets s) (os_bits s) with
      | Ok (Some (gc, o, octets, bits, sent, so)) =>
          orun fuel (mkOSys gc (os_e s) o (os_msgs s ++ sent) octets bits (os_keys s ++ so))
      | _ =>
          match oe_step (os_e s) (os_msgs s) (os_keys s) with
          | Ok (Some (ec, msgs, os, sent, sb)) => orun fuel (mkOSys (os_g s) ec (os_ot s) msgs (os_octets s ++ sent) (os_bits s ++ sb) os)
          | _ => s
          end
      end
  end.

Lemma orun_steps {sched : Scheduler} fuel s : rtc ostep s (orun fuel s).
Proof.
  revert s. induction fuel as [|fuel IH]; intros s; [done|]. destruct s as [gc ec o msgs octets bits os]. cbn.
  destruct (og_step gc o octets bits) as [[[[[[[gc' o'] octets'] bits'] sent] so]|]| |] eqn:E;
    [eapply rtc_l; [by apply (ostep_g (sched:=sched))|apply IH]|..];
    (destruct (oe_step ec msgs os) as [[[[[[ec' msgs'] os'] sent] sb]|]| |] eqn:E'; [eapply rtc_l; [by apply (ostep_e (sched:=sched))|apply IH]|..]; done).
Qed.
End oneshot.

(** ** An instance *)
Import Example.

Lemma oneshot_deadlock_witness : ∃ s,
  rtc (ostep (P:=Z) (O:=unit) (take 3 program) 10)
    (oneshot_start (fresh_mach 4 0 pub) (fresh_mach 4 0 pub) [13] [7] garbler evaluator tt) s ∧
  og_state (os_g s) = OWait ∧ length (stored (oe_gates (os_e s))) = 2%nat ∧
  (∀ s', ¬ ostep (take 3 program) 10 s s').
Proof.
  set (s0 := oneshot_start (fresh_mach 4 0 pub) (fresh_mach 4 0 pub) [13] [7] garbler evaluator tt).
  set (sched := first_job). pose proof (orun_steps (take 3 program) 10 100 s0) as Hr.
  assert (Hg : og_state (os_g (orun (take 3 program) 10 100 s0)) = OWait) by (vm_compute; reflexivity).
  assert (Hm : length (os_msgs (orun (take 3 program) 10 100 s0)) = 0%nat) by (vm_compute; reflexivity).
  assert (Hs : length (stored (oe_gates (os_e (orun (take 3 program) 10 100 s0)))) = 2%nat) by (vm_compute; reflexivity).
  destruct (orun (take 3 program) 10 100 s0) as [gc ec o msgs octets bits os].
  exists (mkOSys gc ec o msgs octets bits os). split; [exact Hr|]. split; [exact Hg|]. split; [exact Hs|].
  destruct (oneshot_deadlock (take 3 program) 10 _ _ _ _ _ _ _ _ Hr) as (_ & _ & _ & Hd). exact (Hd Hg (nil_length_inv _ Hm)).
Defined.
