(* ===== verification/Memory.v ===== *)
(** * Raw octet buffers

    Arrays of octets as C++ allocates, copies and overruns them: [new octet[n]]
    leaves its cells unspecified, [memcpy] outside of an array is undefined
    behaviour. *)

From S2P Require Import Prelude.

(** The cells of a fresh array. *)
Class Heap := {
  new_octets : nat → list Z;
  new_octets_length n : length (new_octets n) = n;
  new_octets_u8 n : Forall is_u8 (new_octets n);
}.

(** [new octet[l]] for a [size_t]: an array of more than [PTRDIFF_MAX] octets
    cannot be allocated. *)
Definition new_array `{Heap} (l : Z) : outcome (list Z) :=
  if l <? 2 ^ 63 then Ok (new_octets (Z.to_nat l)) else Throw "std::bad_array_new_length".

(** [memcpy] from offset [off] of a buffer, and to it. *)
Definition mem_read (buf : list Z) (off n : Z) : outcome (list Z) :=
  if (0 <=? off) && (0 <=? n) && (off + n <=? Z.of_nat (length buf))
  then Ok (take (Z.to_nat n) (drop (Z.to_nat off) buf)) else UB.

Definition mem_write (buf : list Z) (off : Z) (bytes : list Z) : outcome (list Z) :=
  if (0 <=? off) && (off + Z.of_nat (length bytes) <=? Z.of_nat (length buf))
  then Ok (take (Z.to_nat off) buf ++ bytes ++ drop (Z.to_nat off + length bytes) buf) else UB.

(** ** Properties *)
Section memory.
Context `{Heap}.

Lemma new_array_Ok l : l < 2 ^ 63 → new_array l = Ok (new_octets (Z.to_nat l)).
Proof. intros Hl. unfold new_array. by rewrite (proj2 (Z.ltb_lt _ _) Hl). Qed.

Lemma new_array_inv l buf : new_array l = Ok buf →
  l < 2 ^ 63 ∧ length buf = Z.to_nat l ∧ Forall is_u8 buf.
Proof.
  unfold new_array. destruct (Z.ltb_spec l (2 ^ 63)); [|done]. intros [= <-].
  split; [done|]. split; [apply new_octets_length|apply new_octets_u8].
Qed.
End memory.

Lemma mem_read_inv buf off n bytes : mem_read buf off n = Ok bytes →
  0 ≤ off ∧ 0 ≤ n ∧ off + n ≤ Z.of_nat (length buf) ∧
  bytes = take (Z.to_nat n) (drop (Z.to_nat off) buf) ∧ length bytes = Z.to_nat n.
Proof.
  unfold mem_read.
  destruct (Z.leb_spec 0 off), (Z.leb_spec 0 n), (Z.leb_spec (off + n) (Z.of_nat (length buf)));
    cbn; intros [= <-]; split_and!; [lia..|done|rewrite length_take, length_drop; lia].
Qed.

Lemma mem_read_Ok buf off n :
  0 ≤ off → 0 ≤ n → off + n ≤ Z.of_nat (length buf) →
  mem_read buf off n = Ok (take (Z.to_nat n) (drop (Z.to_nat off) buf)).
Proof.
  intros. unfold mem_read.
  by rewrite (proj2 (Z.leb_le 0 off)), (proj2 (Z.leb_le 0 n)), (proj2 (Z.leb_le (off + n) _)) by lia.
Qed.

Lemma mem_read_u8 buf off n bytes : Forall is_u8 buf → mem_read buf off n = Ok bytes →
  Forall is_u8 bytes.
Proof.
  intros Hb (_ & _ & _ & -> & _)%mem_read_inv. by apply Forall_take, Forall_drop.
Qed.

(** A read of a known slice. *)
Lemma mem_read_app pre bytes post :
  mem_read (pre ++ bytes ++ post) (Z.of_nat (length pre)) (Z.of_nat (length bytes)) = Ok bytes.
Proof.
  rewrite mem_read_Ok by (rewrite ?length_app; lia). rewrite !Nat2Z.id.
  by rewrite drop_app_length, take_app_length.
Qed.

Lemma mem_read_prefix pre bytes buf :
  pre ++ bytes `prefix_of` buf →
  mem_read buf (Z.of_nat (length pre)) (Z.of_nat (length bytes)) = Ok bytes.
Proof. intros [k ->]. rewrite <-app_assoc. apply mem_read_app. Qed.

Lemma mem_write_inv buf off bytes buf' : mem_write buf off bytes = Ok buf' →
  0 ≤ off ∧ off + Z.of_nat (length bytes) ≤ Z.of_nat (length buf) ∧
  buf' = take (Z.to_nat off) buf ++ bytes ++ drop (Z.to_nat off + length bytes) buf.
Proof.
  unfold mem_write.
  destruct (Z.leb_spec 0 off), (Z.leb_spec (off + Z.of_nat (length bytes)) (Z.of_nat (length buf)));
    cbn; intros [= <-]; split_and!; (lia || done).
Qed.

Lemma mem_write_Ok buf off bytes :
  0 ≤ off → off + Z.of_nat (length bytes) ≤ Z.of_nat (length buf) →
  mem_write buf off bytes = Ok (take (Z.to_nat off) buf ++ bytes ++ drop (Z.to_nat off + length bytes) buf).
Proof.
  intros. unfold mem_write.
  by rewrite (proj2 (Z.leb_le 0 off)), (proj2 (Z.leb_le (off + _) _)) by lia.
Qed.

Lemma mem_write_length buf off bytes buf' :
  mem_write buf off bytes = Ok buf' → length buf' = length buf.
Proof.
  intros (? & ? & ->)%mem_write_inv. rewrite !length_app, length_take, length_drop. lia.
Qed.

Lemma mem_write_u8 buf off bytes buf' : Forall is_u8 buf → Forall is_u8 bytes →
  mem_write buf off bytes = Ok buf' → Forall is_u8 buf'.
Proof.
  intros Hb Hs (_ & _ & ->)%mem_write_inv.
  rewrite !Forall_app. split_and!; [by apply Forall_take|done|by apply Forall_drop].
Qed.

(** The prefix up to the end of a write. *)
Lemma mem_write_take buf off bytes buf' : mem_write buf off bytes = Ok buf' →
  take (Z.to_nat off + length bytes) buf' = take (Z.to_nat off) buf ++ bytes.
Proof.
  intros (? & ? & ->)%mem_write_inv. rewrite app_assoc.
  apply take_app_length'. rewrite length_app, length_take. lia.
Qed.
