(* ===== verification/OctetStream.v ===== *)
(** * Network buffers

    [octetStream] of [Tools/octetStream.h] and [Tools/octetStream.cpp]: a buffer
    with a write head and a read head, bit packing on both, the length fields of
    [Networking/data.h], and what is put on a socket. *)

From S2P Require Import Prelude Memory.

(** ** Length fields *)
Definition short_memcpy (bytes : list Z) (n_bytes : Z) : outcome (list Z) :=
  if (1 <=? n_bytes) && (n_bytes <=? 8) then Ok (take (Z.to_nat n_bytes) bytes)
  else Throw "length outside range".

Definition encode_length (len n_bytes : Z) : outcome (list Z) :=
  if 8 <? n_bytes then Throw "length field cannot be more than 64 bits"
  else
    let upper := Z.shiftr (s64 len) (8 * n_bytes) in
    if (n_bytes <? 8) && (negb (upper =? 0) && negb (upper =? -1))
    then Throw "length too large for length field"
    else short_memcpy (le_bytes 8 len) n_bytes.

Definition decode_length (buff : list Z) (n_bytes : Z) : outcome Z :=
  if 8 <? n_bytes then Throw "length field cannot be more than 64 bits"
  else tmp ← short_memcpy buff n_bytes; Ok (le_val tmp).

(** ** The class *)
Record BitBuffer := mkBits { bb_n : Z; bb_buffer : Z }.
Definition bits0 : BitBuffer := mkBits 0 0.

(** [data] is the allocation, of [mxlen] octets. *)
Record octetStream := mkOs {
  os_len : Z;
  os_ptr : Z;
  os_data : list Z;
  os_out : BitBuffer;    (* bits[0] *)
  os_in : BitBuffer;     (* bits[1] *)
}.

Definition mxlen (os : octetStream) : Z := Z.of_nat (length (os_data os)).
Definition os_new : octetStream := mkOs 0 0 [] bits0 bits0.

Definition set_data (os : octetStream) (d : list Z) : octetStream :=
  mkOs (os_len os) (os_ptr os) d (os_out os) (os_in os).
Definition set_len (os : octetStream) (l : Z) : octetStream :=
  mkOs l (os_ptr os) (os_data os) (os_out os) (os_in os).
Definition set_ptr (os : octetStream) (p : Z) : octetStream :=
  mkOs (os_len os) p (os_data os) (os_out os) (os_in os).
Definition set_out (os : octetStream) (b : BitBuffer) : octetStream :=
  mkOs (os_len os) (os_ptr os) (os_data os) b (os_in os).
Definition set_in (os : octetStream) (b : BitBuffer) : octetStream :=
  mkOs (os_len os) (os_ptr os) (os_data os) (os_out os) b.

Definition os_left (os : octetStream) : Z := u64 (os_len os - os_ptr os).
Definition os_done (os : octetStream) : bool := os_ptr os =? os_len os.
Definition os_empty (os : octetStream) : bool := os_len os =? 0.
Definition reset_read_head (os : octetStream) : octetStream :=
  set_in (set_ptr os 0) (mkBits 0 (bb_buffer (os_in os))).
Definition reset_write_head (os : octetStream) : octetStream :=
  reset_read_head (set_out (set_len os 0) (mkBits 0 (bb_buffer (os_out os)))).
Definition rewind_write_head (os : octetStream) (num : Z) : octetStream :=
  set_len os (u64 (os_len os - num)).
Definition os_clear (os : octetStream) : octetStream := mkOs 0 0 [] (os_out os) (os_in os).

Section ops.
Context `{Heap}.

(** ** Allocation *)
Definition resize_precise (os : octetStream) (l : Z) : outcome octetStream :=
  if l =? mxlen os then Ok os
  else
    nd ← new_array l;
    old ← mem_read (os_data os) 0 (Z.min (os_len os) l);
    nd ← mem_write nd 0 old;
    Ok (set_data os nd).

Definition os_resize (os : octetStream) (l : Z) : outcome octetStream :=
  if l <? mxlen os then Ok os else resize_precise os (u64 (2 * l)).

Definition resize_min (os : octetStream) (l : Z) : outcome octetStream :=
  if mxlen os <? l then resize_precise os l else Ok os.

Definition reserve (os : octetStream) (l : Z) : outcome octetStream :=
  if mxlen os <? u64 (os_len os + l) then resize_precise os (u64 (os_len os + l)) else Ok os.

Definition assign (this os : octetStream) : outcome octetStream :=
  d ← (if mxlen this <=? os_len os then new_array (mxlen os) else Ok (os_data this));
  bytes ← mem_read (os_data os) 0 (os_len os);
  d ← mem_write d 0 bytes;
  Ok (mkOs (os_len os) (os_ptr os) d (os_out os) (os_in os)).

(** ** Writing

    [append(l)] returns the offset of the [l] new octets; bits that wait are
    written first. *)
Definition append_raw (os : octetStream) (l : Z) : outcome (octetStream * Z) :=
  os ← (if mxlen os <? u64 (os_len os + l) then os_resize os (u64 (os_len os + l)) else Ok os);
  Ok (set_len os (u64 (os_len os + l)), os_len os).

Definition poke (os : octetStream) (off : Z) (bytes : list Z) : outcome octetStream :=
  d ← mem_write (os_data os) off bytes; Ok (set_data os d).

Definition append_ptr (os : octetStream) (l : Z) : outcome (octetStream * Z) :=
  os ← (if bb_n (os_out os) =? 0 then Ok os
        else
          let buffer := bb_buffer (os_out os) in
          '(os, res) ← append_raw (set_out os (mkBits 0 buffer)) 1;
          os ← poke os res (le_bytes 1 buffer);
          Ok (set_out os (mkBits 0 0)));
  append_raw os l.

Definition os_append (os : octetStream) (x : list Z) : outcome octetStream :=
  '(os, res) ← append_ptr os (Z.of_nat (length x)); poke os res x.

Definition append_no_resize (os : octetStream) (x : list Z) : outcome octetStream :=
  os ← poke os (os_len os) x;
  Ok (set_len os (u64 (os_len os + Z.of_nat (length x)))).

Definition store_int (os : octetStream) (l n_bytes : Z) : outcome octetStream :=
  '(os, res) ← append_ptr os (u64 n_bytes);
  bytes ← encode_length l (u64 n_bytes);
  poke os res bytes.

(** [store_int<N_BYTES>], without the check of [encode_length]. *)
Definition store_int_t (N_BYTES : nat) (os : octetStream) (l : Z) : outcome octetStream :=
  if decide (N_BYTES ≤ 8)%nat then os_append os (le_bytes N_BYTES l) else Throw "assertion failed".

Definition store_bit (os : octetStream) (a : Z) : outcome octetStream :=
  os ← (if bb_n (os_out os) =? 8 then r ← append_ptr os 0; Ok r.1 else Ok os);
  let '(mkBits n buffer) := os_out os in
  Ok (set_out os (mkBits (u8 (n + 1)) (Z.lor buffer (u8 (Z.shiftl (Z.land a 1) n))))).
(** ** Reading *)
Definition consume_ptr (os : octetStream) (l : Z) : outcome (octetStream * Z) :=
  let os := set_in os (mkBits 0 (bb_buffer (os_in os))) in
  if os_len os <? u64 (os_ptr os + l) then Throw "insufficient data"
  else Ok (set_ptr os (u64 (os_ptr os + l)), os_ptr os).

Definition os_consume (os : octetStream) (l : Z) : outcome (list Z * octetStream) :=
  '(os, res) ← consume_ptr os l;
  x ← mem_read (os_data os) res l;
  Ok (x, os).

Definition get_int (os : octetStream) (n_bytes : Z) : outcome (Z * octetStream) :=
  '(os, res) ← consume_ptr os (u64 n_bytes);
  if 8 <? u64 n_bytes then Throw "length field cannot be more than 64 bits"
  else
    buff ← mem_read (os_data os) res (u64 n_bytes);
    v ← decode_length buff (u64 n_bytes);
    Ok (v, os).

Definition get_int_t (N_BYTES : nat) (os : octetStream) : outcome (Z * octetStream) :=
  if decide (N_BYTES ≤ 8)%nat then
    '(x, os) ← os_consume os (Z.of_nat N_BYTES); Ok (le_val x, os)
  else Throw "assertion failed".

Definition get_bit (os : octetStream) : outcome (Z * octetStream) :=
  os ← (if bb_n (os_in os) =? 0 then
          '(buffer, os) ← get_int_t 1 os; Ok (set_in os (mkBits 8 buffer))
        else Ok os);
  let '(mkBits n buffer) := os_in os in
  Ok (Z.land (Z.shiftr buffer (8 - n)) 1, set_in os (mkBits (n - 1) buffer)).

(** ** Typed data *)
Definition store_bytes (os : octetStream) (x : list Z) : outcome octetStream :=
  '(os, res) ← append_ptr os 4;
  bytes ← encode_length (Z.of_nat (length x)) 4;
  os ← poke os res bytes;
  os_append os x.

Definition get_bytes (os : octetStream) : outcome (list Z * octetStream) :=
  '(length, os) ← get_int os 4; os_consume os length.

Definition store_s32 (os : octetStream) (l : Z) : outcome octetStream :=
  '(os, res) ← append_ptr os 4;
  bytes ← encode_length (u64 l) 4;
  poke os res bytes.
Definition get_s32 (os : octetStream) : outcome (Z * octetStream) :=
  '(l, os) ← get_int os 4; Ok (s32 l, os).

Definition store_size (os : octetStream) (a : Z) : outcome octetStream := store_int os a 8.
Definition get_size (os : octetStream) : outcome (Z * octetStream) := get_int os 8.

(** [std::string]; a [size_t] above [max_size] cannot be assigned. *)
Definition store_string (os : octetStream) (str : list Z) : outcome octetStream :=
  os ← store_size os (Z.of_nat (length str)); os_append os str.
Definition get_string (os : octetStream) : outcome (list Z * octetStream) :=
  '(size, os) ← get_size os;
  '(os, res) ← consume_ptr os size;
  if 2 ^ 63 <=? size then Throw "basic_string::assign"
  else str ← mem_read (os_data os) res size; Ok (str, os).

Definition concat (this os : octetStream) : outcome octetStream :=
  '(this, res) ← append_ptr this (os_len os);
  bytes ← mem_read (os_data os) 0 (os_len os);
  poke this res bytes.

(** [memcmp] of the contents. *)
Definition equals (this a : octetStream) : outcome bool :=
  if negb (os_len this =? os_len a) then Ok false
  else
    x ← mem_read (os_data this) 0 (os_len this);
    y ← mem_read (os_data a) 0 (os_len this);
    Ok (bool_decide (x = y)).

(** [consume(s, l)]: [l] octets into another stream. *)
Definition consume_into (os s : octetStream) (l : Z) : outcome (octetStream * octetStream) :=
  s ← os_resize s l;
  '(x, os) ← os_consume os l;
  s ← poke s 0 x;
  Ok (set_len s l, os).

(** ** Sockets

    What [Send] puts on a socket and [Receive] takes from it; a socket that closes
    early is an exception. *)
Definition get_data (os : octetStream) : outcome (list Z) :=
  if bb_n (os_out os) =? 0 then Ok (os_data os) else Throw "assertion failed".

Definition LENGTH_SIZE : Z := 4.

Definition os_Send (os : octetStream) : outcome (list Z) :=
  blen ← encode_length (os_len os) LENGTH_SIZE;
  data ← get_data os;
  msg ← mem_read data 0 (os_len os);
  Ok (blen ++ msg).

Definition receive (socket : list Z) (n : Z) : outcome (list Z * list Z) :=
  if Z.of_nat (length socket) <? n then Throw "closed_connection"
  else Ok (take (Z.to_nat n) socket, drop (Z.to_nat n) socket).

Definition os_Receive (os : octetStream) (socket : list Z) : outcome (octetStream * list Z) :=
  '(blen, socket) ← receive socket LENGTH_SIZE;
  nlen ← decode_length blen LENGTH_SIZE;
  os ← resize_min (set_len os 0) nlen;
  '(msg, socket) ← receive socket nlen;
  os ← poke (set_len os nlen) 0 msg;
  Ok (reset_read_head os, socket).
End ops.

(** ** Values that a stream carries

    [store] and [get] of a type, as [pack] and [unpack] give them. *)
Class Serial (T : Type) := {
  s_store : octetStream → T → outcome octetStream;
  s_get : octetStream → outcome (T * octetStream);
}.

Section vectors.
Context `{Heap} {T : Type} `{Serial T}.

Definition store_vector (os : octetStream) (v : list T) : outcome octetStream :=
  os ← store_size os (Z.of_nat (length v)); foldM s_store os v.

Fixpoint get_n (n : nat) (os : octetStream) : outcome (list T * octetStream) :=
  match n with
  | O => Ok ([], os)
  | S n => '(x, os) ← s_get os; '(v, os) ← get_n n os; Ok (x :: v, os)
  end.

(** [vector::reserve] above [max_size] is an exception. *)
Definition get_vector (os : octetStream) : outcome (list T * octetStream) :=
  '(size, os) ← get_size os;
  if 2 ^ 63 <=? size then Throw "vector::reserve" else get_n (Z.to_nat size) os.

Definition get_no_resize (v : list T) (os : octetStream) : outcome (list T * octetStream) :=
  '(size, os) ← get_size os;
  if negb (size =? Z.of_nat (length v)) then Throw "wrong vector length"
  else get_n (length v) os.
End vectors.

(** ** Well-formed streams *)
Definition bits_wf (b : BitBuffer) : Prop := 0 ≤ bb_n b ≤ 8 ∧ is_u8 (bb_buffer b).
(** The bits that wait to be written and no others. *)
Definition bits_tight (b : BitBuffer) : Prop := 0 ≤ bb_n b ≤ 8 ∧ is_word (bb_n b) (bb_buffer b).

Record os_wf (os : octetStream) : Prop := {
  wf_heads : 0 ≤ os_ptr os ≤ os_len os;
  wf_len : os_len os ≤ mxlen os;
  wf_max : mxlen os < 2 ^ 63;
  wf_u8 : Forall is_u8 (os_data os);
  wf_out : bits_wf (os_out os);
  wf_in : bits_wf (os_in os);
}.

(** The octets before the write head, and with the bits that wait. *)
Definition content (os : octetStream) : list Z := take (Z.to_nat (os_len os)) (os_data os).
Definition flushed (os : octetStream) : list Z :=
  content os ++ (if bb_n (os_out os) =? 0 then [] else [bb_buffer (os_out os)]).

Lemma content_length os : os_wf os → Z.of_nat (length (content os)) = os_len os.
Proof.
  intros [[? ?] Hl _ _ _ _]. unfold content, mxlen in *. rewrite length_take. lia.
Qed.

Lemma content_u8 os : os_wf os → Forall is_u8 (content os).
Proof. intros Hw. apply Forall_take, (wf_u8 _ Hw). Qed.

Lemma os_new_wf : os_wf os_new.
Proof. by repeat split. Qed.

Lemma bits_tight_wf b : bits_tight b → bits_wf b.
Proof.
  intros [Hn Hb]. split; [done|]. unfold is_word in *. assert (2 ^ bb_n b ≤ 2 ^ 8) by (apply Z.pow_le_mono_r; lia).
  lia.
Qed.

Lemma bits_tight_0 b : bits_tight b → bb_n b = 0 → b = bits0.
Proof.
  destruct b as [n x]. intros [_ Hb] E; cbn in *; subst n. unfold is_word in Hb.
  change (2 ^ 0) with 1 in Hb. unfold bits0. f_equal. lia.
Qed.

Lemma u64_id x : 0 ≤ x < 2 ^ 64 → u64 x = x.
Proof. intros. by apply Z.mod_small. Qed.

(** ** What writing does *)
Section writing.
Context `{Heap}.

Lemma resize_precise_spec os l : os_wf os → os_len os ≤ l → l < 2 ^ 63 →
  ∃ d, resize_precise os l = Ok (set_data os d) ∧ Z.of_nat (length d) = l ∧
       os_wf (set_data os d) ∧ content (set_data os d) = content os.
Proof.
  intros Hw Hl Hmax. pose proof Hw as [[? ?] Hm Hm' Hu Ho Hi].
  unfold resize_precise. destruct (Z.eqb_spec l (mxlen os)) as [->|Hne].
  - exists (os_data os). split; [by destruct os|]. split; [done|]. split; [by destruct os|done].
  - rewrite new_array_Ok by done. cbn [mbind outcome_bind].
    rewrite Z.min_l by lia. rewrite mem_read_Ok by (unfold mxlen in *; lia).
    cbn [mbind outcome_bind]. rewrite drop_0.
    change (take (Z.to_nat (os_len os)) (os_data os)) with (content os).
    pose proof (content_length os Hw) as Hc.
    pose proof (new_octets_length (Z.to_nat l)) as Hn.
    destruct (mem_write (new_octets (Z.to_nat l)) 0 (content os)) as [d| |] eqn:E;
      [|exfalso; rewrite mem_write_Ok in E by lia; discriminate..].
    cbn [mbind outcome_bind]. exists d.
    assert (Hd : Z.of_nat (length d) = l) by (rewrite (mem_write_length _ _ _ _ E); lia).
    split; [done|]. split; [done|]. split.
    + split; cbn; try done; unfold mxlen; cbn; try lia.
      eapply mem_write_u8; [apply new_octets_u8|by apply content_u8|done].
    + unfold content at 1. cbn. apply mem_write_take in E. cbn in E.
      by replace (Z.to_nat (os_len os)) with (length (content os)) by lia.
Qed.

Lemma set_len_wf os l : os_wf os → os_len os ≤ l ≤ mxlen os → os_wf (set_len os l).
Proof. intros [? ? ? ? ? ?] ?. split; cbn; try done; unfold mxlen in *; cbn in *; lia. Qed.

Lemma set_data_id os : set_data os (os_data os) = os.
Proof. by destruct os. Qed.

Lemma set_len_id os : set_len os (os_len os) = os.
Proof. by destruct os. Qed.

Lemma append_raw_spec os l : os_wf os → 0 ≤ l → os_len os + l < 2 ^ 62 →
  ∃ d, append_raw os l = Ok (set_len (set_data os d) (os_len os + l), os_len os) ∧
       os_wf (set_len (set_data os d) (os_len os + l)) ∧
       take (Z.to_nat (os_len os)) d = content os.
Proof.
  intros Hw Hl Hr. pose proof Hw as [[? ?] Hm Hm' _ _ _].
  unfold append_raw. rewrite u64_id by lia.
  destruct (Z.ltb_spec (mxlen os) (os_len os + l)).
  - unfold os_resize. rewrite (proj2 (Z.ltb_ge _ _)) by lia. rewrite u64_id by lia.
    destruct (resize_precise_spec os (2 * (os_len os + l)) Hw ltac:(lia) ltac:(lia))
      as (d & -> & Hd & Hwd & Hc).
    cbn [mbind outcome_bind]. exists d. rewrite u64_id by (cbn; lia). split; [done|]. split.
    + apply set_len_wf; [done|]. unfold mxlen; cbn. lia.
    + exact Hc.
  - cbn [mbind outcome_bind]. exists (os_data os). rewrite set_data_id, u64_id by lia.
    split; [done|]. split; [apply set_len_wf; [done|lia]|done].
Qed.

Lemma set_out_wf os b : os_wf os → bits_wf b → os_wf (set_out os b).
Proof. by intros [? ? ? ? ? ?] ?; split. Qed.

Lemma set_out_id os : set_out os (os_out os) = os.
Proof. by destruct os. Qed.

(** A write of octets that were just appended. *)
Lemma poke_spec os d l x : Z.of_nat (length x) = l → 0 ≤ l → Forall is_u8 x →
  os_wf os → os_wf (set_len (set_data os d) (os_len os + l)) →
  take (Z.to_nat (os_len os)) d = content os →
  ∃ d', poke (set_len (set_data os d) (os_len os + l)) (os_len os) x =
          Ok (set_len (set_data os d') (os_len os + l)) ∧
        os_wf (set_len (set_data os d') (os_len os + l)) ∧
        content (set_len (set_data os d') (os_len os + l)) = content os ++ x.
Proof.
  intros Hx Hl Hu Hw Hwd Hc. pose proof Hw as [[? ?] _ _ _ _ _].
  pose proof Hwd as [_ Hm Hm' Hud Ho ?]. unfold mxlen in *; cbn in *.
  unfold poke; cbn.
  destruct (mem_write d (os_len os) x) as [d'| |] eqn:E;
    [|exfalso; rewrite mem_write_Ok in E by lia; discriminate..].
  cbn [mbind outcome_bind]. exists d'. split; [done|]. split.
  - split; cbn; try done; unfold mxlen; cbn; try lia; try (rewrite (mem_write_length _ _ _ _ E); lia).
    eapply mem_write_u8; [exact Hud|exact Hu|exact E].
  - unfold content at 1; cbn. apply mem_write_take in E. rewrite Hc in E.
    by replace (Z.to_nat (os_len os + l)) with (Z.to_nat (os_len os) + length x)%nat by lia.
Qed.

(** A write of [x] right after the octets that are there. *)
Lemma write_spec os x : os_wf os → Forall is_u8 x →
  os_len os + Z.of_nat (length x) < 2 ^ 62 →
  ∃ os', ('(os', res) ← append_raw os (Z.of_nat (length x)); poke os' res x) = Ok os' ∧
         os_wf os' ∧ content os' = content os ++ x ∧
         os_ptr os' = os_ptr os ∧ os_out os' = os_out os ∧ os_in os' = os_in os.
Proof.
  intros Hw Hu Hr.
  destruct (append_raw_spec os (Z.of_nat (length x)) Hw ltac:(lia) Hr) as (d & -> & Hwd & Hd).
  cbn [mbind outcome_bind].
  destruct (poke_spec os d _ x eq_refl ltac:(lia) Hu Hw Hwd Hd) as (d' & -> & Hw' & Hc).
  by eexists.
Qed.

(** The outcome of an operation that writes: the octets [x] after those that were
    there, no bits waiting, the read head untouched. *)
Record appended (os : octetStream) (x : list Z) (os' : octetStream) : Prop := {
  ap_wf : os_wf os';
  ap_content : content os' = flushed os ++ x;
  ap_out : os_out os' = bits0;
  ap_ptr : os_ptr os' = os_ptr os;
  ap_in : os_in os' = os_in os;
}.

Lemma flushed_length os : os_wf os →
  os_len os ≤ Z.of_nat (length (flushed os)) ≤ os_len os + 1.
Proof.
  intros Hw. unfold flushed. rewrite length_app, Nat2Z.inj_add, (content_length os Hw).
  destruct (_ =? 0); cbn; lia.
Qed.

(** Waiting bits are written before the new octets. *)
Lemma append_ptr_flush os : os_wf os → (bb_n (os_out os) = 0 → os_out os = bits0) →
  os_len os + 1 < 2 ^ 62 →
  ∃ os1, appended os [] os1 ∧ ∀ l, append_ptr os l = append_raw os1 l.
Proof.
  intros Hw Ht Hr. unfold append_ptr, flushed.
  destruct (Z.eqb_spec (bb_n (os_out os)) 0) as [E|E].
  - exists os. split; [|done]. split; try done; [|by apply Ht].
    unfold flushed. by rewrite (proj2 (Z.eqb_eq _ _) E), !app_nil_r.
  - set (b := bb_buffer (os_out os)).
    assert (Hb : is_u8 b) by apply (wf_out _ Hw).
    assert (Hw0 : os_wf (set_out os (mkBits 0 b))) by by apply set_out_wf.
    destruct (write_spec _ (le_bytes 1 b) Hw0 (le_bytes_u8 _ _) ltac:(cbn; lia))
      as (os1 & E1 & Hw1 & Hc & Hp & _ & Hi).
    change (Z.of_nat (length (le_bytes 1 b))) with 1 in E1.
    exists (set_out os1 bits0). split; [|intros l].
    + split; cbn; try done; [by apply set_out_wf|]. change (content os1 = flushed os ++ []).
      rewrite Hc, app_nil_r. unfold flushed. rewrite (proj2 (Z.eqb_neq _ _) E). cbn.
      by rewrite u8_id.
    + destruct (append_raw _ 1) as [[os2 res]| |]; cbn [mbind outcome_bind] in *; try done.
      by rewrite E1.
Qed.

Lemma appended_app os os1 x os2 : appended os [] os1 → os_wf os2 →
  content os2 = content os1 ++ x → os_ptr os2 = os_ptr os1 → os_out os2 = os_out os1 →
  os_in os2 = os_in os1 → appended os x os2.
Proof.
  intros [Hw Hc Ho Hp Hi] Hw2 Hc2 Hp2 Ho2 Hi2. split; [done| |congruence..].
  by rewrite Hc2, Hc, app_nil_r.
Qed.

Lemma os_append_spec os x : os_wf os → bits_tight (os_out os) → Forall is_u8 x →
  os_len os + Z.of_nat (length x) + 1 < 2 ^ 62 →
  ∃ os', os_append os x = Ok os' ∧ appended os x os'.
Proof.
  intros Hw Ht Hu Hr.
  destruct (append_ptr_flush os Hw (bits_tight_0 _ Ht) ltac:(lia)) as (os1 & Ha & E).
  unfold os_append. rewrite E.
  assert (Hl : os_len os1 ≤ os_len os + 1).
  { pose proof (flushed_length os Hw). rewrite <-(content_length os1 (ap_wf _ _ _ Ha)).
    rewrite (ap_content _ _ _ Ha), app_nil_r. lia. }
  destruct (write_spec os1 x (ap_wf _ _ _ Ha) Hu ltac:(lia)) as (os' & E' & Hw' & Hc & Hp & Ho & Hi).
  exists os'. split; [exact E'|]. by eapply appended_app.
Qed.
End writing.

(** ** A reader that follows a writer

    [fits w F]: [F] can be the final content of the stream that [w] writes.
    [sync w F r]: [r] reads [F] and is where [w] was. *)
Definition flen (w : octetStream) : Z := Z.of_nat (length (flushed w)).

Definition fits (w : octetStream) (F : list Z) : Prop :=
  content w `prefix_of` F ∧
  (0 < bb_n (os_out w) →
     ∃ b, F !! length (content w) = Some b ∧ b mod 2 ^ bb_n (os_out w) = bb_buffer (os_out w)).

Definition sync (w : octetStream) (F : list Z) (r : octetStream) : Prop :=
  os_wf r ∧ content r = F ∧ os_ptr r = flen w ∧
  if bb_n (os_out w) =? 0 then bb_n (os_in r) = 0
  else bb_n (os_in r) = 8 - bb_n (os_out w) ∧ F !! length (content w) = Some (bb_buffer (os_in r)).

(** [store] writes [x] in at most [size] octets so that [get] reads it. *)
Definition carries {T} (store : octetStream → outcome octetStream)
    (get : octetStream → outcome (T * octetStream)) (x : T) (size : Z) : Prop :=
  ∀ w, os_wf w → bits_tight (os_out w) → flen w + size + 1 < 2 ^ 62 →
  ∃ w', store w = Ok w' ∧ os_wf w' ∧ bits_tight (os_out w') ∧ flen w' ≤ flen w + size ∧
    ∀ F, fits w' F → fits w F ∧
      ∀ r, sync w F r → ∃ r', get r = Ok (x, r') ∧ sync w' F r'.

Lemma carries_ret {T} (x : T) : carries (λ w, Ok w) (λ r, Ok (x, r)) x 0.
Proof.
  intros w Hw Ht Hs. exists w. split_and!; [done..|lia|]. intros F Hf. split; [done|].
  intros r Hr. by exists r.
Qed.

Lemma carries_bind {T U} st1 (g1 : octetStream → outcome (T * octetStream)) x s1
    st2 (g2 : T → octetStream → outcome (U * octetStream)) y s2 :
  0 ≤ s1 → 0 ≤ s2 → carries st1 g1 x s1 → carries st2 (g2 x) y s2 →
  carries (λ w, w' ← st1 w; st2 w') (λ r, '(a, r) ← g1 r; g2 a r) y (s1 + s2).
Proof.
  intros H1 H2 C1 C2 w Hw Ht Hs.
  destruct (C1 w Hw Ht ltac:(lia)) as (w1 & E1 & Hw1 & Ht1 & Hl1 & Hr1).
  destruct (C2 w1 Hw1 Ht1 ltac:(lia)) as (w2 & E2 & Hw2 & Ht2 & Hl2 & Hr2).
  exists w2. rewrite E1. cbn. split_and!; [done..|lia|]. intros F HF.
  destruct (Hr2 F HF) as [HF1 Hg2]. destruct (Hr1 F HF1) as [HF0 Hg1]. split; [done|].
  intros r Hr. destruct (Hg1 r Hr) as (r1 & Er1 & Hsr1). destruct (Hg2 r1 Hsr1) as (r2 & Er2 & Hsr2).
  exists r2. rewrite Er1. done.
Qed.

(** Changing the functions, the value or the bound. *)
Lemma carries_ext {T} st st' (g g' : octetStream → outcome (T * octetStream)) x s s' :
  carries st g x s → (∀ w, st' w = st w) → (∀ r, g' r = g r) → s ≤ s' → carries st' g' x s'.
Proof.
  intros C Hst Hg Hs w Hw Ht Hl. destruct (C w Hw Ht ltac:(lia)) as (w' & E & ? & ? & ? & Hr).
  exists w'. rewrite Hst. split_and!; [done..|lia|]. intros F HF. destruct (Hr F HF) as [? Hg'].
  split; [done|]. intros r Hr'. rewrite Hg. auto.
Qed.

Lemma carries_map {T U} (f : T → U) st g x s : 0 ≤ s → carries st g x s →
  carries st (λ r, '(a, r) ← g r; Ok (f a, r)) (f x) s.
Proof.
  intros Hs C. eapply carries_ext.
  - apply (carries_bind st g x s (λ w, Ok w) (λ a r, Ok (f a, r)) (f x) 0 Hs ltac:(lia) C).
    apply carries_ret.
  - intros w. cbv beta. by destruct (st w).
  - done.
  - lia.
Qed.

(** ** Octets *)
Section carried.
Context `{Heap}.

Lemma fits_appended w x w' F : bits_tight (os_out w) → appended w x w' → fits w' F →
  fits w F ∧ flushed w ++ x `prefix_of` F.
Proof.
  intros Ht [_ Hc Ho _ _] [Hp _]. rewrite Hc in Hp. split; [|done].
  destruct Hp as [k ->]. unfold fits, flushed in *. split.
  - rewrite <-!app_assoc. apply prefix_app_r. done.
  - intros Hn. rewrite (proj2 (Z.eqb_neq _ 0)) by lia.
    exists (bb_buffer (os_out w)). split; [|apply Z.mod_small, Ht].
    rewrite <-!app_assoc. by apply list_lookup_middle.
Qed.

Lemma appended_flen w x w' : appended w x w' → flen w' = flen w + Z.of_nat (length x).
Proof.
  intros [_ Hc Ho _ _]. unfold flen, flushed at 1. rewrite Hc, Ho. cbn.
  rewrite app_nil_r, length_app. lia.
Qed.

Lemma os_consume_spec r x : os_wf r →
  x `prefix_of` drop (Z.to_nat (os_ptr r)) (content r) →
  os_consume r (Z.of_nat (length x)) =
    Ok (x, set_ptr (set_in r (mkBits 0 (bb_buffer (os_in r)))) (os_ptr r + Z.of_nat (length x))).
Proof.
  intros Hw [k Hx]. pose proof Hw as [[? ?] ? Hm _ _ _].
  assert (Hl : os_ptr r + Z.of_nat (length x) ≤ os_len r).
  { apply (f_equal length) in Hx. rewrite length_drop, length_app in Hx.
    pose proof (content_length r Hw). lia. }
  unfold os_consume, consume_ptr. cbn. rewrite u64_id by lia.
  rewrite (proj2 (Z.ltb_ge _ _)) by lia. cbn.
  rewrite mem_read_Ok by (unfold mxlen in *; lia). cbn. do 2 f_equal.
  rewrite Nat2Z.id. unfold content in Hx. rewrite skipn_firstn_comm in Hx.
  apply (f_equal (take (length x))) in Hx. rewrite take_take, take_app_length in Hx.
  rewrite <-Hx at 2. f_equal. lia.
Qed.

Lemma set_ptr_in_wf r n p : os_wf r → 0 ≤ n ≤ 8 → 0 ≤ p ≤ os_len r →
  os_wf (set_ptr (set_in r (mkBits n (bb_buffer (os_in r)))) p).
Proof. intros [? ? ? ? ? [? ?]] ? ?. by split. Qed.

Lemma sync_appended w x w' F r : os_wf w → bits_tight (os_out w) → appended w x w' →
  fits w' F → sync w F r →
  ∃ r', os_consume r (Z.of_nat (length x)) = Ok (x, r') ∧ sync w' F r'.
Proof.
  intros Hw Ht Ha Hf (Hwr & Hcr & Hp & _).
  destruct (fits_appended w x w' F Ht Ha Hf) as [_ [k Hk]].
  eexists. split.
  - apply os_consume_spec; [done|]. rewrite Hcr, Hp, Hk. unfold flen. rewrite Nat2Z.id.
    rewrite <-app_assoc, drop_app_length. by exists k.
  - unfold sync. rewrite (ap_out _ _ _ Ha), (appended_flen _ _ _ Ha). cbn.
    split_and!; [|done|by rewrite Hp|done].
    apply set_ptr_in_wf; [done|lia|]. rewrite Hp. split; [unfold flen; lia|].
    rewrite <-(content_length r Hwr), Hcr, Hk. unfold flen. rewrite !length_app. lia.
Qed.

Lemma carries_append x : Forall is_u8 x →
  carries (λ w, os_append w x) (λ r, os_consume r (Z.of_nat (length x))) x (Z.of_nat (length x)).
Proof.
  intros Hu w Hw Ht Hs. pose proof (flushed_length w Hw).
  destruct (os_append_spec w x Hw Ht Hu) as (w' & E & Ha); [unfold flen in *; lia|].
  exists w'. split_and!; [done|apply Ha|rewrite (ap_out _ _ _ Ha); done|rewrite (appended_flen _ _ _ Ha); lia|].
  intros F HF. split; [by eapply fits_appended|]. intros r Hr. by apply (sync_appended w).
Qed.

(** ** Bits *)
Lemma land_1 x : Z.land x 1 = x mod 2.
Proof. apply (Z.land_ones x 1). lia. Qed.

Lemma tight_add n buffer a : 0 ≤ n < 8 → is_word n buffer →
  Z.lor buffer (u8 (Z.shiftl (Z.land a 1) n)) = buffer + (a mod 2) * 2 ^ n.
Proof.
  intros Hn Hb. rewrite land_1.
  pose proof (Z.mod_pos_bound a 2 ltac:(lia)).
  assert (2 ^ n ≤ 2 ^ 7) by (apply Z.pow_le_mono_r; lia).
  rewrite Z.shiftl_mul_pow2 by lia. rewrite u8_id by (unfold is_word in *; nia).
  rewrite <-Z.lxor_lor; [rewrite Z.add_nocarry_lxor; [done|]|].
  all: apply Z.bits_inj'; intros i Hi; rewrite Z.land_spec, Z.bits_0.
  all: destruct (Z.lt_ge_cases i n);
    [rewrite Z.mul_pow2_bits_low by lia; apply andb_false_r|].
  all: rewrite (proj1 (is_word_bits n buffer ltac:(lia) ltac:(apply Hb)) Hb i) by lia; done.
Qed.

(** One more bit on a buffer with [n] bits. *)
Lemma store_bit_tight b a : bits_tight b → bb_n b < 8 →
  bits_tight (mkBits (u8 (bb_n b + 1))
    (Z.lor (bb_buffer b) (u8 (Z.shiftl (Z.land a 1) (bb_n b))))).
Proof.
  destruct b as [n x]. intros [Hn Hb] Hn'; cbn in *. rewrite tight_add by (done || lia).
  rewrite u8_id by (unfold is_word; lia). unfold bits_tight; cbn. split; [lia|].
  unfold is_word in *. rewrite Z.pow_add_r by lia. pose proof (Z.mod_pos_bound a 2 ltac:(lia)). nia.
Qed.

Lemma bit_of_byte b n x a : 0 ≤ n < 8 → is_word n x →
  b mod 2 ^ (n + 1) = x + (a mod 2) * 2 ^ n → Z.land (Z.shiftr b n) 1 = a mod 2 ∧ b mod 2 ^ n = x.
Proof.
  intros Hn Hx E. pose proof (Z.mod_pos_bound a 2 ltac:(lia)). unfold is_word in Hx.
  rewrite Z.pow_add_r in E by lia. change (2 ^ 1) with 2 in E.
  pose proof (Z.div_mod b (2 ^ n * 2) ltac:(lia)) as Hd. rewrite E in Hd.
  set (q := b / (2 ^ n * 2)) in *.
  assert (Hb : b = (2 * q + a mod 2) * 2 ^ n + x) by lia.
  split.
  - rewrite land_1, Z.shiftr_div_pow2, Hb by lia.
    rewrite Z.div_add_l, (Z.div_small x) by lia. rewrite Z.add_0_r.
    rewrite Z.add_comm, Z.mul_comm, Z.mod_add by lia. apply Z.mod_mod. lia.
  - rewrite Hb, Z.add_comm, Z.mod_add by lia. apply Z.mod_small; lia.
Qed.

(** Reading a bit whose octet was reached before, and the first of an octet. *)
Lemma get_bit_next r : bb_n (os_in r) ≠ 0 →
  get_bit r = Ok (Z.land (Z.shiftr (bb_buffer (os_in r)) (8 - bb_n (os_in r))) 1,
                  set_in r (mkBits (bb_n (os_in r) - 1) (bb_buffer (os_in r)))).
Proof.
  intros Hn. unfold get_bit. rewrite (proj2 (Z.eqb_neq _ _) Hn). cbn. by destruct (os_in r).
Qed.

Lemma get_bit_first r b : os_wf r → bb_n (os_in r) = 0 → content r !! Z.to_nat (os_ptr r) = Some b →
  get_bit r = Ok (Z.land b 1, set_ptr (set_in r (mkBits 7 b)) (os_ptr r + 1)).
Proof.
  intros Hw Hn Hb. unfold get_bit, get_int_t. rewrite Hn. cbn [Z.eqb].
  rewrite decide_True by lia. change (Z.of_nat 1) with (Z.of_nat (length [b])).
  rewrite (os_consume_spec r [b]); [|done|].
  - cbn. by rewrite Z.mul_0_r, Z.add_0_r, Z.shiftr_0_r.
  - apply drop_S in Hb. rewrite Hb. by eexists.
Qed.

Lemma carries_bit_room w a : os_wf w → bits_tight (os_out w) → bb_n (os_out w) < 8 →
  let b := os_out w in
  let w' := set_out w (mkBits (u8 (bb_n b + 1))
              (Z.lor (bb_buffer b) (u8 (Z.shiftl (Z.land a 1) (bb_n b))))) in
  os_wf w' ∧ bits_tight (os_out w') ∧ flen w' ≤ flen w + 1 ∧
  ∀ F, fits w' F → fits w F ∧
    ∀ r, sync w F r → ∃ r', get_bit r = Ok (a mod 2, r') ∧ sync w' F r'.
Proof.
  intros Hw Ht Hn b w'. pose proof (store_bit_tight b a Ht Hn) as Ht'.
  assert (Hw' : os_wf w') by by apply set_out_wf, bits_tight_wf.
  pose proof Ht as [Hn0 Hb]. fold b in Hn, Hn0, Hb |- *.
  assert (Hn1 : u8 (bb_n b + 1) = bb_n b + 1) by (apply u8_id; unfold is_word; lia).
  assert (Hf' : flen w' = os_len w + 1).
  { unfold flen, flushed. cbn. rewrite Hn1, (proj2 (Z.eqb_neq _ 0)) by lia.
    rewrite length_app, Nat2Z.inj_add. change (content w') with (content w).
    by rewrite (content_length w Hw). }
  assert (Hf : flen w = if bb_n b =? 0 then os_len w else os_len w + 1).
  { unfold flen, flushed. fold b. rewrite length_app, Nat2Z.inj_add, (content_length w Hw).
    destruct (bb_n b =? 0); cbn; lia. }
  split_and!; [done|done|rewrite Hf, Hf'; destruct (_ =? 0); lia|].
  intros F [Hp Hbit]. change (content w') with (content w) in *. cbn in Hbit.
  rewrite Hn1 in Hbit.
  destruct (Hbit ltac:(lia)) as (o & Ho & Hm). rewrite tight_add in Hm by (done || lia).
  destruct (bit_of_byte o (bb_n b) (bb_buffer b) a ltac:(lia) Hb Hm) as [Ha Hm0].
  split; [split; [done|]; intros _; by exists o|].
  intros r (Hwr & Hcr & Hpr & Hir). fold b in Hir. rewrite Hf in Hpr.
  pose proof (content_length w Hw) as Hcl.
  assert (Hlt : os_len w < os_len r).
  { apply lookup_lt_Some in Ho. rewrite <-(content_length r Hwr), Hcr. lia. }
  destruct (Z.eqb_spec (bb_n b) 0) as [E|E].
  - eexists. split.
    + rewrite (get_bit_first r o Hwr Hir); [by rewrite <-Ha, E, Z.shiftr_0_r|].
      rewrite Hcr, Hpr. by replace (Z.to_nat (os_len w)) with (length (content w)) by lia.
    + assert (is_u8 o).
      { apply (Forall_lookup_1 _ (content r) (length (content w))); [by apply content_u8|by rewrite Hcr]. }
      unfold sync. cbn. rewrite Hn1, Hf', Hpr, E. cbn. split_and!; [|done|done|done..].
      destruct Hwr; split; try done; cbn. lia.
  - destruct Hir as [Hin Hio]. rewrite Ho in Hio. injection Hio as ->. eexists. split.
    + rewrite get_bit_next by lia. rewrite Hin.
      replace (8 - (8 - bb_n b)) with (bb_n b) by lia.
      by rewrite Ha.
    + unfold sync. cbn. rewrite Hn1, Hf', (proj2 (Z.eqb_neq _ 0)) by lia.
      split_and!; [|done|done|lia|done].
      destruct Hwr as [? ? ? ? ? [? ?]]. split; try done; cbn. split; [cbn; lia|done].
Qed.

Lemma append_raw_0 os : os_wf os → append_raw os 0 = Ok (os, os_len os).
Proof.
  intros [[? ?] ? ? _ _ _]. unfold append_raw. rewrite Z.add_0_r, u64_id by lia.
  rewrite (proj2 (Z.ltb_ge _ _)) by lia. cbn. by rewrite Z.add_0_r, u64_id, set_len_id by lia.
Qed.

Lemma carries_bit a : carries (λ w, store_bit w a) get_bit (a mod 2) 1.
Proof.
  intros w Hw Ht Hs. unfold store_bit. destruct (Z.eqb_spec (bb_n (os_out w)) 8) as [E|E].
  - pose proof (flushed_length w Hw).
    destruct (append_ptr_flush w Hw (bits_tight_0 _ Ht)) as (w0 & Ha & Ep); [unfold flen in *; lia|].
    rewrite Ep, (append_raw_0 w0 (ap_wf _ _ _ Ha)). cbn [mbind outcome_bind fst].
    destruct (os_out w0) as [n0 b0] eqn:Eo. pose proof (ap_out _ _ _ Ha) as Ho.
    destruct (carries_bit_room w0 a (ap_wf _ _ _ Ha)) as (Hw1 & Ht1 & Hf1 & Hr1);
      [by rewrite Ho|by rewrite Ho|].
    rewrite Eo in *. cbn [bb_n bb_buffer] in *. eexists. split; [done|]. pose proof (appended_flen _ _ _ Ha) as Hfl. cbn in Hfl.
    split_and!; [done|done|lia|]. intros F HF. destruct (Hr1 F HF) as [HF0 Hg].
    split; [by eapply fits_appended|]. intros r (Hwr & Hcr & Hpr & Hir). apply Hg.
    unfold sync. rewrite Eo, Ho. cbn. rewrite E in Hir. cbn in Hir.
    split_and!; [done|done|lia|lia].
  - destruct Ht as [Hn Hb]. destruct (carries_bit_room w a Hw (conj Hn Hb) ltac:(lia)) as (? & ? & ? & ?).
    cbn [mbind outcome_bind]. destruct (os_out w) as [n b]. by eexists.
Qed.

(** ** Integers, octets and strings *)
Lemma take_le_bytes n m x : (n ≤ m)%nat → take n (le_bytes m x) = le_bytes n x.
Proof.
  revert m x. induction n as [|n IH]; intros [|m] x Hl; cbn; [done..|lia|].
  f_equal. apply IH. lia.
Qed.

(** [s64] of a word that fits in fewer bits. *)
Lemma encode_length_Ok (n : nat) l : (1 ≤ n ≤ 8)%nat → is_word (8 * Z.of_nat n) l →
  encode_length l (Z.of_nat n) = Ok (le_bytes n l).
Proof.
  intros Hn Hl. unfold encode_length. rewrite (proj2 (Z.ltb_ge _ _)) by lia.
  assert (E : (Z.of_nat n <? 8) && (negb (Z.shiftr (s64 l) (8 * Z.of_nat n) =? 0) &&
              negb (Z.shiftr (s64 l) (8 * Z.of_nat n) =? -1)) = false).
  { destruct (Z.ltb_spec (Z.of_nat n) 8); [|done]. unfold is_word in Hl.
    assert (2 ^ (8 * Z.of_nat n) ≤ 2 ^ 56) by (apply Z.pow_le_mono_r; lia).
    unfold s64. rewrite u64_id by lia. rewrite (proj2 (Z.ltb_lt _ _)) by lia.
    rewrite Z.shiftr_div_pow2, Z.div_small by lia. done. }
  rewrite E. unfold short_memcpy. rewrite (proj2 (Z.leb_le 1 _)), (proj2 (Z.leb_le _ 8)) by lia.
  cbn [andb]. rewrite Nat2Z.id, take_le_bytes by lia. done.
Qed.

Lemma store_int_append os l n : (1 ≤ n ≤ 8)%nat → is_word (8 * Z.of_nat n) l →
  store_int os l (Z.of_nat n) = os_append os (le_bytes n l).
Proof.
  intros Hn Hl. unfold store_int, os_append. rewrite u64_id, le_bytes_length by lia.
  destruct (append_ptr _ _) as [[os' res]| |]; [|done..]. cbn [mbind outcome_bind].
  by rewrite encode_length_Ok.
Qed.

Lemma decode_length_Ok (n : nat) buff : (1 ≤ n ≤ 8)%nat → length buff = n →
  decode_length buff (Z.of_nat n) = Ok (le_val buff).
Proof.
  intros Hn Hl. unfold decode_length, short_memcpy. rewrite (proj2 (Z.ltb_ge _ _)) by lia.
  rewrite (proj2 (Z.leb_le 1 _)), (proj2 (Z.leb_le _ 8)) by lia. cbn.
  by rewrite Nat2Z.id, <-Hl, firstn_all.
Qed.

Lemma get_int_consume r n : (1 ≤ n ≤ 8)%nat →
  get_int r (Z.of_nat n) = '(x, r) ← os_consume r (Z.of_nat n); Ok (le_val x, r).
Proof.
  intros Hn. unfold get_int, os_consume. rewrite u64_id by lia.
  destruct (consume_ptr _ _) as [[os res]| |]; [|done..]. cbn [mbind outcome_bind].
  rewrite (proj2 (Z.ltb_ge 8 _)) by lia.
  destruct (mem_read _ _ _) as [x| |] eqn:E; [|done..]. cbn [mbind outcome_bind].
  apply mem_read_inv in E as (_ & _ & _ & _ & E). rewrite Nat2Z.id in E.
  by rewrite decode_length_Ok.
Qed.

Lemma carries_int (n : nat) l : (1 ≤ n ≤ 8)%nat → is_word (8 * Z.of_nat n) l →
  carries (λ w, store_int w l (Z.of_nat n)) (λ r, get_int r (Z.of_nat n)) l (Z.of_nat n).
Proof.
  intros Hn Hl.
  pose proof (carries_append (le_bytes n l) (le_bytes_u8 n l)) as C. rewrite le_bytes_length in C.
  apply (carries_map le_val) in C; [|lia]. rewrite le_val_bytes in C by done.
  eapply carries_ext; [exact C| | |lia].
  - intros w. by apply store_int_append.
  - intros r. by apply get_int_consume.
Qed.

Lemma carries_size l : is_word 64 l → carries (λ w, store_size w l) get_size l 8.
Proof. intros Hl. apply (carries_int 8 l); [lia|done]. Qed.

Lemma carries_string x : Forall is_u8 x → Z.of_nat (length x) < 2 ^ 62 →
  carries (λ w, store_string w x) get_string x (8 + Z.of_nat (length x)).
Proof.
  intros Hu Hl.
  apply (carries_bind (λ w, store_size w (Z.of_nat (length x))) get_size (Z.of_nat (length x)) 8
    (λ w, os_append w x) (λ size r, '(os, res) ← consume_ptr r size;
         if 2 ^ 63 <=? size then Throw "basic_string::assign"
         else str ← mem_read (os_data os) res size; Ok (str, os)));
    [lia|lia|apply carries_size; unfold is_word; lia|].
  eapply carries_ext; [by apply carries_append|done| |lia].
  intros r. by rewrite (proj2 (Z.leb_gt _ _)) by lia.
Qed.

Lemma carries_bytes x : Forall is_u8 x → Z.of_nat (length x) < 2 ^ 32 →
  carries (λ w, store_bytes w x) get_bytes x (4 + Z.of_nat (length x)).
Proof.
  intros Hu Hl.
  eapply carries_ext;
    [apply (carries_bind (λ w, store_int w (Z.of_nat (length x)) 4) (λ r, get_int r 4)
       (Z.of_nat (length x)) 4 (λ w, os_append w x) (λ l r, os_consume r l) x (Z.of_nat (length x)));
     [lia|lia|apply (carries_int 4); [lia|unfold is_word; lia]|by apply carries_append]| |done|lia].
  intros w. unfold store_bytes, store_int. change (u64 4) with 4.
  destruct (append_ptr w 4) as [[os res]| |]; [|done..]. cbn [mbind outcome_bind].
  by destruct (encode_length _ _).
Qed.

Lemma encode_length_s32 l : - 2 ^ 31 ≤ l < 2 ^ 31 → encode_length (u64 l) 4 = Ok (le_bytes 4 l).
Proof.
  intros Hl. unfold encode_length. rewrite s64_u64, Z.shiftr_div_pow2 by lia.
  replace (negb _ && negb _) with false.
  - cbn [Z.ltb Z.compare Pos.compare Pos.compare_cont andb]. unfold short_memcpy. cbn [Z.leb Z.compare andb].
    rewrite take_le_bytes by lia. unfold u64. by rewrite le_bytes_mod_le by lia.
  - change (8 * 4) with 32. destruct (Z.lt_ge_cases l 0).
    + by replace (l / 2 ^ 32) with (-1) by (apply Z.div_unique with (l + 2 ^ 32); lia).
    + by rewrite Z.div_small by lia.
Qed.

Lemma carries_s32 l : - 2 ^ 31 ≤ l < 2 ^ 31 → carries (λ w, store_s32 w l) get_s32 l 4.
Proof.
  intros Hl. pose proof (carries_append (le_bytes 4 l) (le_bytes_u8 4 l)) as C.
  apply (carries_map (λ x, s32 (le_val x))) in C; [|lia].
  rewrite le_val_bytes_mod in C. change (l mod _) with (u32 l) in C. rewrite s32_u32 in C by done.
  eapply carries_ext; [exact C| | |done].
  - intros w. unfold store_s32, os_append. rewrite le_bytes_length.
    change (Z.of_nat 4) with 4. destruct (append_ptr w 4) as [[os res]| |]; [|done..].
    cbn [mbind outcome_bind]. by rewrite encode_length_s32.
  - intros r. unfold get_s32. change 4 with (Z.of_nat 4). rewrite get_int_consume by lia.
    rewrite le_bytes_length. by destruct (os_consume _ _) as [[]| |].
Qed.
End carried.
