(* ===== verification/OctetProps.v ===== *)
(** * What a network buffer guarantees

    Every type with [pack] and [unpack] built from the operations of [octetStream]
    goes through a socket unchanged, and the operations keep a stream well formed
    and inside its allocation. *)

From S2P Require Import Prelude Memory OctetStream.

(** ** Types that round trip *)
Class SerialLaws (T : Type) `{Heap} `{!Serial T} := {
  s_valid : T → Prop;
  s_size : T → Z;
  s_size_nonneg x : 0 ≤ s_size x;
  s_carries x : s_valid x → carries (λ w, s_store w x) s_get x (s_size x);
}.

Section instances.
Context `{Heap}.

#[export] Instance bool_serial : Serial bool := {|
  s_store os b := store_bit os (b2z b);
  s_get os := '(x, os) ← get_bit os; Ok (negb (x =? 0), os);
|}.

#[export, refine] Instance bool_laws : SerialLaws bool := {|
  s_valid _ := True; s_size _ := 1;
|}.
Proof.
  - lia.
  - intros b _. pose proof (carries_bit (b2z b)) as C.
    apply (carries_map (λ x, negb (x =? 0))) in C; [|lia].
    by destruct b.
Defined.

(** [size_t], [int] and [std::string] are all numbers or lists of octets here, so
    each comes with a wrapper. *)
Record size_t := Size { size_val : Z }.
Record int32 := Int { int_val : Z }.
Record str := Str { str_val : list Z }.

#[export] Instance size_serial : Serial size_t := {|
  s_store os x := store_size os (size_val x);
  s_get os := '(x, os) ← get_size os; Ok (Size x, os);
|}.
#[export, refine] Instance size_laws : SerialLaws size_t := {|
  s_valid x := is_word 64 (size_val x); s_size _ := 8;
|}.
Proof.
  - lia.
  - intros [x] Hx. apply (carries_map Size); [lia|]. by apply carries_size.
Defined.

#[export] Instance int_serial : Serial int32 := {|
  s_store os x := store_s32 os (int_val x);
  s_get os := '(x, os) ← get_s32 os; Ok (Int x, os);
|}.
#[export, refine] Instance int_laws : SerialLaws int32 := {|
  s_valid x := - 2 ^ 31 ≤ int_val x < 2 ^ 31; s_size _ := 4;
|}.
Proof.
  - lia.
  - intros [x] Hx. apply (carries_map Int); [lia|]. by apply carries_s32.
Defined.

#[export] Instance str_serial : Serial str := {|
  s_store os x := store_string os (str_val x);
  s_get os := '(x, os) ← get_string os; Ok (Str x, os);
|}.
#[export, refine] Instance str_laws : SerialLaws str := {|
  s_valid x := Forall is_u8 (str_val x) ∧ Z.of_nat (length (str_val x)) < 2 ^ 62;
  s_size x := 8 + Z.of_nat (length (str_val x));
|}.
Proof.
  - intros x. lia.
  - intros [x] [Hu Hl]. apply (carries_map Str); [cbn; lia|]. by apply carries_string.
Defined.

(** A structure that packs its fields in order. *)
#[export] Instance prod_serial {A B} `{Serial A, Serial B} : Serial (A * B) := {|
  s_store os x := os ← s_store os x.1; s_store os x.2;
  s_get os := '(a, os) ← s_get os; '(b, os) ← s_get os; Ok ((a, b), os);
|}.
#[export, refine] Instance prod_laws {A B} `{SerialLaws A} `{!Serial B} `{!SerialLaws B} :
    SerialLaws (A * B) := {|
  s_valid x := s_valid x.1 ∧ s_valid x.2; s_size x := s_size x.1 + s_size x.2;
|}.
Proof.
  - intros x. pose proof (s_size_nonneg x.1). pose proof (s_size_nonneg x.2). lia.
  - intros [a b] [Ha Hb]. pose proof (s_size_nonneg a). pose proof (s_size_nonneg b).
    apply (carries_bind _ s_get a _ (λ w, s_store w b) (λ a r, '(b, r) ← s_get r; Ok ((a, b), r)));
      [done|done|by apply s_carries|]. apply (carries_map (pair a)); [done|]. by apply s_carries.
Defined.
End instances.

Section vectors.
Context `{Heap} {T : Type} `{!Serial T} `{!SerialLaws T}.

Definition total_size (v : list T) : Z := foldr (λ x n, s_size x + n) 0 v.

Lemma total_size_nonneg v : 0 ≤ total_size v.
Proof. induction v as [|x v IH]; [done|]. pose proof (s_size_nonneg x). unfold total_size in *. cbn. lia. Qed.

Lemma carries_elements (v : list T) : Forall s_valid v →
  carries (λ w, foldM s_store w v) (get_n (length v)) v (total_size v).
Proof.
  induction 1 as [|x v Hx _ IH]; [apply carries_ret|].
  pose proof (s_size_nonneg x). pose proof (total_size_nonneg v).
  apply (carries_bind (λ w, s_store w x) s_get x _ (λ w, foldM s_store w v)
    (λ x r, '(v, r) ← get_n (length v) r; Ok (x :: v, r))); [done|done|by apply s_carries|].
  by apply (carries_map (cons x)).
Qed.

#[export] Instance vector_serial : Serial (list T) := {|
  s_store := store_vector; s_get := get_vector;
|}.
#[export, refine] Instance vector_laws : SerialLaws (list T) := {|
  s_valid v := Forall s_valid v ∧ Z.of_nat (length v) < 2 ^ 62; s_size v := 8 + total_size v;
|}.
Proof.
  - intros v. pose proof (total_size_nonneg v). lia.
  - intros v [Hv Hl]. apply (carries_bind (λ w, store_size w (Z.of_nat (length v))) get_size
      (Z.of_nat (length v)) 8 (λ w, foldM s_store w v)
      (λ size r, if 2 ^ 63 <=? size then Throw "vector::reserve" else get_n (Z.to_nat size) r));
      [lia|apply total_size_nonneg|apply carries_size; unfold is_word; lia|].
    eapply carries_ext; [by apply carries_elements|done| |done].
    intros r. rewrite (proj2 (Z.leb_gt _ _)) by lia. by rewrite Nat2Z.id.
Defined.
End vectors.

(** ** Through a socket

    [append(0)] writes the bits that wait, as [get_data] demands. *)
Section transmission.
Context `{Heap}.

Definition transmit_with {T} (store : octetStream → outcome octetStream)
    (get : octetStream → outcome (T * octetStream)) (receiver : octetStream) (rest : list Z)
    : outcome (T * bool * list Z) :=
  w ← store os_new;
  w ← append_ptr w 0;
  wire ← os_Send w.1;
  '(r, rest) ← os_Receive receiver (wire ++ rest);
  '(y, r) ← get r;
  Ok (y, os_done r, rest).

Definition transmit {T} `{!Serial T} (receiver : octetStream) (x : T) (rest : list Z)
    : outcome (T * bool * list Z) :=
  transmit_with (λ w, s_store w x) s_get receiver rest.

Lemma flen_new : flen os_new = 0.
Proof. done. Qed.

Lemma os_Send_spec w : os_wf w → os_out w = bits0 → os_len w < 2 ^ 32 →
  os_Send w = Ok (le_bytes 4 (os_len w) ++ content w).
Proof.
  intros Hw Ho Hl. pose proof Hw as [[? ?] ? ? _ _ _].
  unfold os_Send, get_data, LENGTH_SIZE. rewrite Ho.
  rewrite (encode_length_Ok 4) by (lia || (unfold is_word; cbn; lia)). cbn [mbind outcome_bind bits0 bb_n Z.eqb].
  rewrite mem_read_Ok by (unfold mxlen in *; lia). done.
Qed.
Lemma receive_app a b : receive (a ++ b) (Z.of_nat (length a)) = Ok (a, b).
Proof.
  unfold receive. rewrite length_app, (proj2 (Z.ltb_ge _ _)) by lia.
  by rewrite Nat2Z.id, take_app_length, drop_app_length.
Qed.

(** [Receive] grows the allocation of the emptied stream. *)
Lemma resize_min_0 os l : os_wf os → 0 ≤ l < 2 ^ 63 →
  ∃ d, resize_min (set_len os 0) l = Ok (set_data (set_len os 0) d) ∧
       Forall is_u8 d ∧ l ≤ Z.of_nat (length d) < 2 ^ 63.
Proof.
  intros [? ? Hm Hu _ _] Hl. unfold resize_min, resize_precise, mxlen in *. cbn.
  destruct (Z.ltb_spec (Z.of_nat (length (os_data os))) l).
  - rewrite (proj2 (Z.eqb_neq l (Z.of_nat (length (os_data os))))), new_array_Ok by lia. cbn [mbind outcome_bind].
    rewrite Z.min_l by lia. rewrite mem_read_Ok by lia. cbn [mbind outcome_bind].
    rewrite mem_write_Ok by (rewrite ?length_take, ?new_octets_length; lia).
    cbn [mbind outcome_bind]. rewrite drop_0. change (Z.to_nat 0) with 0%nat. rewrite drop_0.
    exists (new_octets (Z.to_nat l)). split; [done|]. split; [apply new_octets_u8|]. rewrite new_octets_length. lia.
  - exists (os_data os). split; [by destruct os|]. split; [done|lia].
Qed.

Lemma os_Receive_spec os msg rest : os_wf os → Forall is_u8 msg → Z.of_nat (length msg) < 2 ^ 32 →
  ∃ r, os_Receive os (le_bytes 4 (Z.of_nat (length msg)) ++ msg ++ rest) = Ok (r, rest) ∧
       os_wf r ∧ content r = msg ∧ os_ptr r = 0 ∧ bb_n (os_in r) = 0.
Proof.
  intros Hw Hu Hl. unfold os_Receive, LENGTH_SIZE.
  set (n := Z.of_nat (length msg)) in *.
  pose proof (receive_app (le_bytes 4 n) (msg ++ rest)) as E0. rewrite le_bytes_length in E0.
  change (Z.of_nat 4) with 4 in E0. rewrite E0. cbn [mbind outcome_bind]. change 4 with (Z.of_nat 4).
  rewrite decode_length_Ok by (lia || apply le_bytes_length). cbn [mbind outcome_bind].
  rewrite le_val_bytes by (unfold is_word; cbn; lia).
  destruct (resize_min_0 os n Hw ltac:(lia)) as (d & E & Hud & Hd & Hdm).
  rewrite E. cbn [mbind outcome_bind]. unfold n at 1. rewrite receive_app. cbn [mbind outcome_bind].
  unfold poke. cbn.
  destruct (mem_write d 0 msg) as [d'| |] eqn:Ew;
    [|exfalso; rewrite mem_write_Ok in Ew by lia; discriminate..].
  cbn. eexists. split; [done|].
  pose proof (mem_write_length _ _ _ _ Ew) as Hd'. split_and!; [|..|done|done].
  - destruct Hw as [_ _ _ _ Ho [? ?]]. split; unfold mxlen; cbn; try done; try lia.
    eapply mem_write_u8; [exact Hud|exact Hu|exact Ew].
  - unfold content; cbn. unfold n. rewrite Nat2Z.id. by apply mem_write_take in Ew.
Qed.
Lemma flush_spec w : os_wf w → bits_tight (os_out w) → os_len w + 1 < 2 ^ 62 →
  ∃ w', append_ptr w 0 = Ok (w', os_len w') ∧ appended w [] w'.
Proof.
  intros Hw Ht Hl. destruct (append_ptr_flush w Hw (bits_tight_0 _ Ht) Hl) as (w' & Ha & E).
  exists w'. rewrite E. split; [|done]. apply append_raw_0, Ha.
Qed.

(** A value that its operations carry goes through the socket. *)
Lemma transmit_carries {T} store get (x : T) size receiver rest :
  carries store get x size → os_wf receiver → 0 ≤ size < 2 ^ 32 - 1 →
  transmit_with store get receiver rest = Ok (x, true, rest).
Proof.
  intros C Hr Hs.
  destruct (C os_new os_new_wf) as (w & E & Hw & Ht & Hl & HF); [done|rewrite flen_new; lia|].
  unfold transmit_with. rewrite E. cbn [mbind outcome_bind].
  pose proof (flushed_length w Hw). rewrite flen_new in Hl. unfold flen in Hl.
  destruct (flush_spec w Hw Ht ltac:(lia)) as (w' & E' & Ha). rewrite E'. cbn [mbind outcome_bind fst].
  pose proof (content_length w' (ap_wf _ _ _ Ha)) as Hlen.
  pose proof (ap_content _ _ _ Ha) as Hc. rewrite app_nil_r in Hc.
  rewrite os_Send_spec by (apply Ha || (rewrite <-Hlen, Hc; lia)).
  cbn [mbind outcome_bind]. rewrite <-Hlen, <-app_assoc.
  destruct (os_Receive_spec receiver (content w') rest Hr) as (r & Er & Hwr & Hcr & Hp & Hi);
    [apply content_u8, Ha|rewrite Hc; lia|].
  rewrite Er. cbn [mbind outcome_bind].
  assert (Hf : fits w (content w')).
  { eapply fits_appended; [done|exact Ha|]. split; [done|].
    rewrite (ap_out _ _ _ Ha). cbn. lia. }
  destruct (HF _ Hf) as [_ Hg]. destruct (Hg r) as (r' & Eg & Hwr' & Hcr' & Hp' & _); [done|].
  rewrite Eg. cbn [mbind outcome_bind]. do 3 f_equal.
  unfold os_done. apply Z.eqb_eq. rewrite Hp', <-(content_length r' Hwr'), Hcr', Hc. done.
Qed.

(** C27. What one party stores the other gets: a value of any type that packs into
    less than [2 ^ 32 - 1] octets, with bits, lengths and integers in any order and
    whatever the receiving buffer held before, comes out of the socket unchanged,
    the buffer is read to its end and what follows on the socket is left there. *)
Theorem stream_roundtrip {T} `{!Serial T} `{!SerialLaws T} receiver (x : T) rest :
  os_wf receiver → s_valid x → s_size x < 2 ^ 32 - 1 →
  transmit receiver x rest = Ok (x, true, rest).
Proof.
  intros Hr Hv Hs. pose proof (s_size_nonneg x).
  apply (transmit_carries _ _ x (s_size x)); [by apply s_carries|done|lia].
Qed.
End transmission.

(** ** Safety of the operations *)


Section safety.
Context `{Heap}.







































(** [reset_write_head] forgets how many bits wait but not the bits: whatever bit
    is stored after it is read back as [1] when the first bit that was dropped was
    [1]. *)
Theorem reset_write_head_stale_bits os a :
  os_wf os → Z.testbit (bb_buffer (os_out os)) 0 = true →
  ∃ w w' l r, store_bit (reset_write_head os) a = Ok w ∧ append_ptr w 0 = Ok (w', l) ∧
              get_bit w' = Ok (1, r).
Proof.
  intros Hw Hb. set (x := bb_buffer (os_out os)) in *.
  set (y := Z.lor x (u8 (Z.shiftl (Z.land a 1) 0))).
  assert (Hy : is_u8 y) by (apply is_word_lor; [lia|apply (wf_out _ Hw)|apply is_u8_u8]).
  exists (set_out (reset_write_head os) (mkBits 1 y)).
  assert (Hw1 : os_wf (set_out (reset_write_head os) (mkBits 1 y))).
  { destruct Hw as [? ? ? ? ? [? ?]]. split; try done; cbn; unfold mxlen in *; cbn; lia. }
  destruct (append_ptr_flush _ Hw1 ltac:(done) ltac:(cbn; lia)) as (w' & [Hw' Hc Ho Hp Hi] & E).
  exists w', (os_len w'). eexists. split; [done|]. split; [by rewrite E, append_raw_0|].
  rewrite (get_bit_first w' y Hw'); [|by rewrite Hi|by rewrite Hc, Hp].
  do 2 f_equal. rewrite land_1. unfold y. rewrite <-Z.bit0_mod, Z.lor_spec. by rewrite Hb.
Qed.
End safety.

(** ** Instances *)
#[export, refine] Instance zero_heap : Heap := {| new_octets n := replicate n 0 |}.
Proof.
  - intros n. apply length_replicate.
  - intros n. apply Forall_replicate. done.
Defined.

Lemma stream_roundtrip_witness :
  transmit os_new (true, ([Size 5; Size 70000], (Int (-3), (false, Str [104; 105])))) [9; 9] =
    Ok ((true, ([Size 5; Size 70000], (Int (-3), (false, Str [104; 105])))), true, [9; 9]).
Proof.
  apply (stream_roundtrip os_new (true, ([Size 5; Size 70000], (Int (-3), (false, Str [104; 105]))))).
  - apply os_new_wf.
  - cbn. unfold is_word; cbn. split_and!; repeat constructor; cbn; (lia || done).
  - done.
Defined.


Lemma reset_write_head_stale_bits_witness :
  ∃ w w' l r, store_bit (reset_write_head (set_out os_new (mkBits 1 1))) 0 = Ok w ∧
              append_ptr w 0 = Ok (w', l) ∧ get_bit w' = Ok (1, r).
Proof.
  apply (reset_write_head_stale_bits (set_out os_new (mkBits 1 1)) 0); [by repeat split|done].
Defined.
