(* ===== verification/Random.v ===== *)
(** * The pseudo-random generator

    [class PRNG] of [Tools/random.h] and [Tools/random.cpp] on AES-NI: AES in
    counter mode, eight blocks at a time, with its buffered octets and bits. *)

From S2P Require Import Prelude Memory Xor Block Aes YaoKey YaoGate.

Definition PIPELINES : Z := 8.
Definition AES_BLK_SIZE : Z := 16.
Definition SEED_SIZE : Z := AES_BLK_SIZE.
Definition RAND_SIZE : Z := PIPELINES * AES_BLK_SIZE.

(** [state] as its blocks, [random] as its octets. *)
Record PRNG := mkPrng {
  g_seed : Block;
  g_state : list Block;
  g_random : list Z;
  g_KeySchedule : list Block;
  g_cnt : Z;
  g_n_cached_bits : Z;
  g_cached_bits : Z;
  g_initialized : bool;
}.

Definition set_cnt (g : PRNG) (cnt : Z) : PRNG :=
  mkPrng (g_seed g) (g_state g) (g_random g) (g_KeySchedule g) cnt
    (g_n_cached_bits g) (g_cached_bits g) (g_initialized g).
Definition set_cached (g : PRNG) (n bits : Z) : PRNG :=
  mkPrng (g_seed g) (g_state g) (g_random g) (g_KeySchedule g) (g_cnt g) n bits (g_initialized g).

Definition prng_hash (g : PRNG) : outcome PRNG :=
  if g_initialized g then
    Ok (mkPrng (g_seed g) (g_state g) (mjoin (ecb_aes_128_encrypt (g_KeySchedule g) (g_state g)))
          (g_KeySchedule g) 0 (g_n_cached_bits g) (g_cached_bits g) true)
  else Throw "assertion failed".

(** One block of [state] as two [int64_t]; an addition that overflows is undefined. *)
Definition next_state (blk : Block) : outcome Block :=
  s0 ← int64 (s64 (le_val (take 8 blk)) + PIPELINES);
  let s1 := s64 (le_val (drop 8 blk)) in
  s1 ← (if s0 =? 0 then int64 (s1 + 1) else Ok s1);
  Ok (le_bytes 8 (u64 s0) ++ le_bytes 8 (u64 s1)).

Definition prng_next (g : PRNG) : outcome PRNG :=
  state ← mapM_out next_state (g_state g);
  prng_hash (mkPrng (g_seed g) state (g_random g) (g_KeySchedule g) (g_cnt g)
    (g_n_cached_bits g) (g_cached_bits g) (g_initialized g)).

Definition first_state : list Block := (λ i, i :: replicate 15 0) <$> seqZ 0 PIPELINES.

Definition InitSeed (g : PRNG) : outcome PRNG :=
  prng_hash (mkPrng (g_seed g) first_state (g_random g) (aes_128_schedule (g_seed g)) (g_cnt g)
    (g_n_cached_bits g) (g_cached_bits g) true).

Definition SetSeed (g : PRNG) (inp : Block) : outcome PRNG :=
  InitSeed (mkPrng inp (g_state g) (g_random g) (g_KeySchedule g) (g_cnt g)
    (g_n_cached_bits g) (g_cached_bits g) (g_initialized g)).

(** [ReSeed], with what [randombytes_buf] yields. *)
Definition ReSeed (entropy : Block) (g : PRNG) : outcome PRNG := SetSeed g entropy.

(** The default constructor; the arrays hold what the memory held. *)
Definition prng_new `{Heap} : PRNG :=
  mkPrng (new_octets 16) (replicate 8 (new_octets 16)) (new_octets 128) (replicate 11 (new_octets 16))
    0 0 0 false.

(** [random[cnt]] and the following octets. *)
Definition prng_read (g : PRNG) (n : Z) : outcome (list Z * PRNG) :=
  x ← mem_read (g_random g) (g_cnt g) n; Ok (x, set_cnt g (g_cnt g + n)).

Definition get_uchar (g : PRNG) : outcome (Z * PRNG) :=
  g ← (if RAND_SIZE <=? g_cnt g then prng_next g else Ok g);
  '(x, g) ← prng_read g 1;
  Ok (le_val x, g).

Definition get_uint (g : PRNG) : outcome (Z * PRNG) :=
  g ← (if RAND_SIZE - 4 <? g_cnt g then prng_next g else Ok g);
  '(x, g) ← prng_read g 4;
  Ok (u32 (le_val x), g).

Definition prng_get_doubleword (g : PRNG) : outcome (Key * PRNG) :=
  g ← (if RAND_SIZE - 16 <? g_cnt g then prng_next g else Ok g);
  '(x, g) ← prng_read g 16;
  Ok (le_val x, g).

(** One turn of the loop of [get_octets], and the loop with a bound on the turns. *)
Definition octets_step (g : PRNG) (len : Z) : outcome (list Z * PRNG) :=
  let step := Z.min len (RAND_SIZE - g_cnt g) in
  '(x, g) ← prng_read g step;
  g ← (if g_cnt g =? RAND_SIZE then prng_next g else Ok g);
  Ok (x, g).

Fixpoint octets_loop (fuel : nat) (g : PRNG) (len : Z) : option (outcome (list Z * PRNG)) :=
  if len =? 0 then Some (Ok ([], g))
  else
    match fuel with
    | O => None
    | S fuel =>
        match octets_step g len with
        | Ok (x, g) =>
            match octets_loop fuel g (len - Z.of_nat (length x)) with
            | Some r => Some ('(y, g) ← r; Ok (x ++ y, g))
            | None => None
            end
        | Throw e => Some (Throw e)
        | UB => Some UB
        end
    end.

Definition get_octets (g : PRNG) (len : Z) : outcome (list Z * PRNG) :=
  match octets_loop (Z.to_nat len + 1) g len with Some r => r | None => Throw "no result" end.

(** [get_octets<L>] *)
Definition get_octets_t (L : Z) (g : PRNG) : outcome (list Z * PRNG) :=
  if L <? RAND_SIZE - g_cnt g then prng_read g L else get_octets g L.

Definition get_word (g : PRNG) : outcome (Z * PRNG) :=
  '(a, g) ← get_octets_t 8 g; Ok (le_val a, g).

Definition prng_get_bit (g : PRNG) : outcome (bool * PRNG) :=
  g ← (if g_n_cached_bits g =? 0 then '(w, g) ← get_word g; Ok (set_cached g 64 w) else Ok g);
  let n := g_n_cached_bits g - 1 in
  Ok (Z.testbit (g_cached_bits g) n, set_cached g n (g_cached_bits g)).

(** [SetSeed(PRNG&)] *)
Definition SetSeed_from (g G : PRNG) : outcome (PRNG * PRNG) :=
  '(tmp, G) ← get_octets G SEED_SIZE; g ← SetSeed g tmp; Ok (g, G).

(** ** Bounded integers

    [get_uint(upper)] tries until the draw is accepted. *)
Definition accepted (use_char : bool) (upper r : Z) : bool :=
  let reduced := r mod upper in
  s32 (u32 (r - reduced + (upper - 1))) <=? (if use_char then 256 else 0).

Fixpoint uint_loop (fuel : nat) (use_char : bool) (upper : Z) (g : PRNG) : option (outcome (Z * PRNG)) :=
  match fuel with
  | O => None
  | S fuel =>
      match (if use_char then get_uchar g else get_uint g) with
      | Ok (r, g) => if accepted use_char upper r then Some (Ok (r mod upper, g))
                     else uint_loop fuel use_char upper g
      | Throw e => Some (Throw e)
      | UB => Some UB
      end
  end.

Definition get_uint_upper (fuel : nat) (g : PRNG) (upper : Z) : option (outcome (Z * PRNG)) :=
  if upper <=? 0 then Some (Throw "Must be positive")
  else if Z.land upper (upper - 1) =? 0 then
    Some ('(r, g) ← (if upper <? 255 then get_uchar g else get_uint g); Ok (r mod upper, g))
  else uint_loop fuel (upper <=? 128) upper g.

(** ** The key stream

    AES in counter mode; positions count octets. *)
Definition block_at (key : list Block) (n : Z) : Block := Aesni.encrypt key (le_bytes 16 n).
Definition octet_at (key : list Block) (p : Z) : Z := block_at key (p / 16) !!! Z.to_nat (p mod 16).
Definition key_stream (key : list Block) (p n : Z) : list Z := octet_at key <$> seqZ p n.

(** [g] has buffered the blocks from [8 * b] on. *)
Record at_block (g : PRNG) (key : list Block) (b : Z) : Prop := {
  at_init : g_initialized g = true;
  at_key : g_KeySchedule g = key;
  at_wf : schedule_wf key;
  at_range : 0 ≤ b ∧ 8 * b + 8 ≤ 2 ^ 62;
  at_state : g_state g = le_bytes 16 <$> seqZ (8 * b) 8;
  at_random : g_random g = key_stream key (128 * b) 128;
  at_cnt : 0 ≤ g_cnt g ≤ 128;
}.

(** [g] is ready to read position [p]. *)
Definition at_pos (g : PRNG) (key : list Block) (p : Z) : Prop :=
  ∃ b, at_block g key b ∧ p = 128 * b + g_cnt g.

Lemma block_at_wf key n : schedule_wf key → block_wf (block_at key n).
Proof.
  intros Hk. unfold block_at. assert (Hb : block_wf (le_bytes 16 n)).
  { split; [apply le_bytes_length|apply le_bytes_u8]. }
  rewrite aesni_encrypt_eq by done. by apply encrypt_wf.
Qed.

Lemma octet_at_u8 key p : schedule_wf key → is_u8 (octet_at key p).
Proof.
  intros Hk. apply block_byte; [by apply block_at_wf|].
  pose proof (Z.mod_pos_bound p 16). lia.
Qed.

Lemma key_stream_app key p n m : 0 ≤ n → 0 ≤ m →
  key_stream key p (n + m) = key_stream key p n ++ key_stream key (p + n) m.
Proof. intros. unfold key_stream. by rewrite seqZ_app, fmap_app. Qed.

Lemma key_stream_length key p n : length (key_stream key p n) = Z.to_nat n.
Proof. unfold key_stream. by rewrite length_fmap, length_seqZ. Qed.

Lemma key_stream_u8 key p n : schedule_wf key → Forall is_u8 (key_stream key p n).
Proof. intros Hk. apply Forall_fmap, Forall_forall. intros q _. by apply octet_at_u8. Qed.

(** Sixteen octets from a multiple of sixteen are one block. *)
Lemma key_stream_block key n : schedule_wf key → key_stream key (16 * n) 16 = block_at key n.
Proof.
  intros Hk. destruct (block_at_wf key n Hk) as [Hl _].
  apply list_eq_same_length with 16%nat; [done|by rewrite key_stream_length|].
  intros i x y Hi. unfold key_stream. rewrite list_lookup_fmap, (lookup_seqZ_lt _ _ i) by lia.
  cbn [fmap option_fmap option_map]. intros [= <-] Hy. unfold octet_at.
  replace ((16 * n + Z.of_nat i) / 16) with n by (apply Z.div_unique with (Z.of_nat i); lia).
  replace ((16 * n + Z.of_nat i) mod 16) with (Z.of_nat i) by (apply Z.mod_unique with n; lia).
  rewrite Nat2Z.id. by apply list_lookup_total_correct.
Qed.

Lemma key_stream_blocks key b n : schedule_wf key → 0 ≤ n →
  mjoin (block_at key <$> seqZ b n) = key_stream key (16 * b) (16 * n).
Proof.
  intros Hk Hn. revert b. pattern n. apply natlike_ind; [intros b; reflexivity| |exact Hn]. clear n Hn.
  intros n Hn IH b. rewrite seqZ_cons by lia. cbn [fmap list_fmap mjoin list_join]. rewrite Z.pred_succ, IH.
  replace (16 * Z.succ n) with (16 + 16 * n) by lia. rewrite key_stream_app by lia.
  rewrite key_stream_block by done. f_equal. f_equal. lia.
Qed.

Lemma key_stream_slice key p c n : 0 ≤ c → 0 ≤ n → c + n ≤ 128 →
  mem_read (key_stream key p 128) c n = Ok (key_stream key (p + c) n).
Proof.
  intros. rewrite mem_read_Ok by (rewrite ?key_stream_length; lia). f_equal.
  replace 128 with (c + (n + (128 - c - n))) by lia.
  rewrite !key_stream_app by lia.
  rewrite drop_app_length' by by rewrite key_stream_length.
  by rewrite take_app_length' by by rewrite key_stream_length.
Qed.

(** ** Filling the buffer *)
Lemma take_drop_le n m x : take n (le_bytes (n + m) x) = le_bytes n x ∧
  drop n (le_bytes (n + m) x) = le_bytes m (Z.shiftr x (8 * Z.of_nat n)).
Proof.
  revert x. induction n as [|n IH]; intros x; [by rewrite Z.shiftr_0_r|].
  cbn [Nat.add le_bytes take drop firstn skipn]. destruct (IH (Z.shiftr x 8)) as [-> ->].
  split; [done|]. rewrite Z.shiftr_shiftr by lia. do 2 f_equal. lia.
Qed.

Lemma s64_small n : 0 ≤ n < 2 ^ 63 → s64 n = n.
Proof. intros Hn. apply (signed_id 64); lia. Qed.

Lemma next_state_le n : 0 ≤ n → n + 8 < 2 ^ 63 → next_state (le_bytes 16 n) = Ok (le_bytes 16 (n + 8)).
Proof.
  intros Hn Hm. unfold next_state.
  destruct (take_drop_le 8 8 n) as [E1 E2], (take_drop_le 8 8 (n + 8)) as [E3 E4].
  change (8 + 8)%nat with 16%nat in *. rewrite E1, E2.
  rewrite <-(take_drop 8 (le_bytes 16 (n + 8))), E3, E4.
  rewrite !Z.shiftr_div_pow2, !Z.div_small by (change (8 * Z.of_nat 8) with 64; lia).
  rewrite !le_val_bytes by (unfold is_word; cbn; lia). unfold PIPELINES.
  rewrite (s64_small n), (s64_small 0) by lia. rewrite (int64_Ok (n + 8)) by lia. cbn [mbind outcome_bind].
  rewrite (proj2 (Z.eqb_neq _ 0)) by lia. cbn [mbind outcome_bind]. unfold u64. by rewrite !Z.mod_small by lia.
Qed.

Lemma prng_hash_spec g key b : g_initialized g = true → g_KeySchedule g = key → schedule_wf key →
  0 ≤ b ∧ 8 * b + 8 ≤ 2 ^ 62 → g_state g = le_bytes 16 <$> seqZ (8 * b) 8 →
  ∃ g', prng_hash g = Ok g' ∧ at_block g' key b ∧ g_cnt g' = 0 ∧
        g_n_cached_bits g' = g_n_cached_bits g ∧ g_cached_bits g' = g_cached_bits g.
Proof.
  intros Hi Hk Hw Hb Hs. unfold prng_hash. rewrite Hi. eexists. split; [done|].
  split; [|done]. split; try done; cbn [g_random].
  rewrite ecb_aes_128_encrypt_map, Hs, Hk, <-list_fmap_compose.
  change (Aesni.encrypt key ∘ le_bytes 16) with (block_at key).
  rewrite key_stream_blocks by (done || lia). f_equal. lia.
Qed.

Lemma prng_next_spec g key b : at_block g key b → 8 * b + 16 ≤ 2 ^ 62 →
  ∃ g', prng_next g = Ok g' ∧ at_block g' key (b + 1) ∧ g_cnt g' = 0 ∧
        g_n_cached_bits g' = g_n_cached_bits g ∧ g_cached_bits g' = g_cached_bits g.
Proof.
  intros [Hi Hk Hw Hb Hs _ _] Hl. unfold prng_next. rewrite Hs, mapM_out_fmap.
  rewrite (mapM_out_Ok (λ n, le_bytes 16 (n + 8)))
    by (intros n [? ?]%elem_of_seqZ; apply next_state_le; lia).
  cbn [mbind outcome_bind].
  match goal with |- context [prng_hash ?g0] => destruct (prng_hash_spec g0 key (b + 1)) as (g' & -> & ?) end;
    [done|done|done|lia| |by exists g'].
  cbn [g_state].
  replace (8 * (b + 1)) with (8 + 8 * b) by lia. rewrite <-fmap_add_seqZ, <-list_fmap_compose.
  apply list_fmap_ext. intros i n _. unfold compose. f_equal. lia.
Qed.

Lemma SetSeed_spec g inp : block_wf inp →
  ∃ g', SetSeed g inp = Ok g' ∧ at_pos g' (aes_128_schedule inp) 0 ∧ g_n_cached_bits g' = g_n_cached_bits g.
Proof.
  intros Hw. unfold SetSeed, InitSeed.
  match goal with |- context [prng_hash ?g0] =>
    destruct (prng_hash_spec g0 (aes_128_schedule inp) 0) as (g' & -> & Hb & Hc & Hn & _) end; try done.
  - rewrite aes_128_schedule_eq by done. by apply FixedKeyAES_wf.
  - exists g'. split; [done|]. split; [|done]. exists 0. split; [done|lia].
Qed.

(** ** Reading *)
Definition prng_limit : Z := 2 ^ 66 - 256.

(** The bits that wait, which reading octets leaves alone. *)
Definition same_cache (g g' : PRNG) : Prop :=
  g_n_cached_bits g' = g_n_cached_bits g ∧ g_cached_bits g' = g_cached_bits g.

Lemma set_cnt_pos g key p n : at_pos g key p → 0 ≤ g_cnt g + n ≤ 128 →
  at_pos (set_cnt g (g_cnt g + n)) key (p + n).
Proof. intros (b & [? ? ? ? ? ? ?] & ->) Hn. exists b. split; [by split|cbn; lia]. Qed.

Lemma prng_read_spec g key p n : at_pos g key p → 0 ≤ n → g_cnt g + n ≤ 128 →
  prng_read g n = Ok (key_stream key p n, set_cnt g (g_cnt g + n)).
Proof.
  intros (b & [? ? ? ? ? Hr Hc] & ->) Hn Hl. unfold prng_read. rewrite Hr.
  by rewrite key_stream_slice by lia.
Qed.

(** A full buffer and the beginning of the next one are the same position. *)
Lemma prng_next_pos g key p : at_pos g key p → p < prng_limit →
  ∃ g', prng_next g = Ok g' ∧ at_pos g' key (p - g_cnt g + 128) ∧ g_cnt g' = 0 ∧ same_cache g g'.
Proof.
  unfold prng_limit. intros (b & Hb & ->) Hl. pose proof (at_cnt _ _ _ Hb).
  destruct (prng_next_spec g key b Hb) as (g' & E & Hb' & Hc & Hca); [lia|].
  exists g'. split; [done|]. split; [|done]. exists (b + 1). split; [done|lia].
Qed.

Lemma at_pos_cnt g key p : at_pos g key p → 0 ≤ g_cnt g ≤ 128.
Proof. intros (b & Hb & _). apply Hb. Qed.

Lemma octets_step_spec g key p len : at_pos g key p → 0 < len → p + len < prng_limit →
  ∃ n g', octets_step g len = Ok (key_stream key p n, g') ∧ at_pos g' key (p + n) ∧
          g_cnt g' < 128 ∧ 0 ≤ n ≤ len ∧ (g_cnt g < 128 → 0 < n) ∧ same_cache g g'.
Proof.
  intros Hp Hl Hm. pose proof (at_pos_cnt _ _ _ Hp). unfold octets_step.
  set (n := Z.min len (RAND_SIZE - g_cnt g)). change RAND_SIZE with 128 in *. exists n.
  rewrite (prng_read_spec g key p n) by (done || lia). cbn [mbind outcome_bind].
  pose proof (set_cnt_pos g key p n Hp ltac:(lia)) as Hp1.
  destruct (Z.eqb_spec (g_cnt (set_cnt g (g_cnt g + n))) 128) as [E|E]; cbn in E.
  - destruct (prng_next_pos _ key _ Hp1) as (g' & -> & Hp' & Hc' & Hca); [lia|].
    exists g'. cbn [mbind outcome_bind]. cbn in Hp'.
    replace (p + n - (g_cnt g + n) + 128) with (p + n) in Hp' by lia.
    split_and!; try done; lia.
  - eexists. split; [reflexivity|]. split_and!; try done; cbn; lia.
Qed.

Lemma octets_loop_spec fuel g key p len : at_pos g key p → 0 ≤ len → p + len < prng_limit →
  (Z.to_nat len + (if (g_cnt g =? 128)%Z then 1 else 0) ≤ fuel)%nat →
  ∃ g', octets_loop fuel g len = Some (Ok (key_stream key p len, g')) ∧ at_pos g' key (p + len) ∧
        same_cache g g'.
Proof.
  revert g p len. induction fuel as [|fuel IH]; intros g p len Hp Hl Hm Hf; cbn [octets_loop].
  - assert (len = 0) as -> by (destruct (g_cnt g =? 128); lia). cbn [Z.eqb].
    exists g. rewrite Z.add_0_r. done.
  - destruct (Z.eqb_spec len 0) as [->|Hne].
    + exists g. rewrite Z.add_0_r. done.
    + destruct (octets_step_spec g key p len Hp ltac:(lia) Hm)
        as (n & g1 & -> & Hp1 & Hc1 & Hn & Hpos & [Hca1 Hcb1]).
      rewrite key_stream_length, Z2Nat.id by lia.
      destruct (IH g1 (p + n) (len - n) Hp1) as (g' & -> & Hp' & [Hca Hcb]); [lia..| |].
      { rewrite (proj2 (Z.eqb_neq _ 128)) by lia. pose proof (at_pos_cnt _ _ _ Hp).
        destruct (Z.eqb_spec (g_cnt g) 128); lia. }
      exists g'. cbn [mbind outcome_bind]. rewrite <-key_stream_app by lia.
      replace (n + (len - n)) with len by lia. replace (p + n + (len - n)) with (p + len) in Hp' by lia.
      split; [done|]. split; [done|]. split; congruence.
Qed.

Lemma get_octets_spec g key p len : at_pos g key p → 0 ≤ len → p + len < prng_limit →
  ∃ g', get_octets g len = Ok (key_stream key p len, g') ∧ at_pos g' key (p + len) ∧ same_cache g g'.
Proof.
  intros Hp Hl Hm. destruct (octets_loop_spec (Z.to_nat len + 1) g key p len Hp Hl Hm)
    as (g' & E & H); [destruct (_ =? _); lia|].
  exists g'. unfold get_octets. rewrite E. done.
Qed.

Lemma get_octets_t_spec g key p L : at_pos g key p → 0 ≤ L → p + L < prng_limit →
  ∃ g', get_octets_t L g = Ok (key_stream key p L, g') ∧ at_pos g' key (p + L) ∧ same_cache g g'.
Proof.
  intros Hp Hl Hm. pose proof (at_pos_cnt _ _ _ Hp). unfold get_octets_t. change RAND_SIZE with 128.
  destruct (Z.ltb_spec L (128 - g_cnt g)); [|by apply get_octets_spec].
  rewrite (prng_read_spec g key p) by (done || lia). eexists. split; [done|].
  split; [|done]. apply set_cnt_pos; [done|lia].
Qed.

(** A double word is never split between two buffers. *)
Definition aligned (p n : Z) : Z := if 128 - n <? p mod 128 then p - p mod 128 + 128 else p.

Lemma prng_get_doubleword_spec g key p : at_pos g key p → p < prng_limit - 128 →
  ∃ g', prng_get_doubleword g = Ok (le_val (key_stream key (aligned p 16) 16), g') ∧
        at_pos g' key (aligned p 16 + 16) ∧ same_cache g g'.
Proof.
  intros Hp Hm. pose proof Hp as (b & Hb & Eb). pose proof (at_cnt _ _ _ Hb).
  unfold prng_get_doubleword, aligned. change RAND_SIZE with 128.
  change (128 - 16) with 112.
  destruct (Z.ltb_spec 112 (g_cnt g)) as [Hc|Hc].
  - destruct (prng_next_pos g key p Hp) as (g1 & -> & Hp1 & Hc1 & Hca); [lia|].
    cbn [mbind outcome_bind].
    assert (Ep : (if 112 <? p mod 128 then p - p mod 128 + 128 else p) = p - g_cnt g + 128).
    { destruct (Z.eq_dec (g_cnt g) 128) as [E|E].
      - assert (p mod 128 = 0) as -> by (symmetry; apply Z.mod_unique with (b + 1); lia). cbn. lia.
      - assert (p mod 128 = g_cnt g) as -> by (symmetry; apply Z.mod_unique with b; lia).
        by rewrite (proj2 (Z.ltb_lt _ _)) by lia. }
    rewrite Ep, (prng_read_spec g1 key (p - g_cnt g + 128)) by (done || lia).
    eexists. split; [done|]. split; [|done]. apply set_cnt_pos; [done|lia].
  - cbn [mbind outcome_bind].
    assert (p mod 128 = g_cnt g) as -> by (symmetry; apply Z.mod_unique with b; lia).
    rewrite (proj2 (Z.ltb_ge _ _)) by lia.
    rewrite (prng_read_spec g key p) by (done || lia).
    eexists. split; [done|]. split; [|done]. apply set_cnt_pos; [done|lia].
Qed.

(** ** Sequences of draws *)
Fixpoint draw_doublewords (n : nat) (g : PRNG) : outcome (list Key * PRNG) :=
  match n with
  | O => Ok ([], g)
  | S n => '(x, g) ← prng_get_doubleword g; '(xs, g) ← draw_doublewords n g; Ok (x :: xs, g)
  end.

Lemma draw_doublewords_spec n g key p : at_pos g key (16 * p) → 0 ≤ p →
  16 * (p + Z.of_nat n) < prng_limit - 256 →
  ∃ g', draw_doublewords n g = Ok ((λ i, le_val (block_at key i)) <$> seqZ p (Z.of_nat n), g') ∧
        at_pos g' key (16 * (p + Z.of_nat n)) ∧ same_cache g g'.
Proof.
  revert g p. induction n as [|n IH]; intros g p Hp H0 Hm; cbn [draw_doublewords].
  - exists g. rewrite Z.add_0_r. done.
  - destruct (prng_get_doubleword_spec g key (16 * p) Hp ltac:(lia)) as (g1 & -> & Hp1 & [Hc1 Hc1']).
    assert (E : aligned (16 * p) 16 = 16 * p).
    { unfold aligned. replace ((16 * p) mod 128) with (16 * (p mod 8)).
      - pose proof (Z.mod_pos_bound p 8). by rewrite (proj2 (Z.ltb_ge _ _)) by lia.
      - change 128 with (16 * 8). by rewrite Z.mul_mod_distr_l by lia. }
    rewrite E in *. cbn [mbind outcome_bind].
    replace (16 * p + 16) with (16 * (p + 1)) in Hp1 by lia.
    destruct (IH g1 (p + 1) Hp1) as (g' & -> & Hp' & [Hc Hc']); [lia..|].
    exists g'. cbn [mbind outcome_bind]. rewrite key_stream_block by apply (let '(ex_intro _ _ (conj H _)) := Hp in at_wf _ _ _ H).
    rewrite (seqZ_cons p) by lia. cbn [fmap list_fmap].
    replace (Z.pred (Z.of_nat (S n))) with (Z.of_nat n) by lia.
    change (Z.succ p) with (p + 1).
    replace (p + 1 + Z.of_nat n) with (p + Z.of_nat (S n)) in Hp' by lia.
    split; [done|]. split; [done|]. split; congruence.
Qed.

(** C34. A generator seeded with [seed] is AES in counter mode: whatever it held
    before, its [i]-th 128-bit draw is the AES encryption of [i] under [seed], for
    as many draws as the counter allows. *)
Theorem prng_is_counter_mode g seed (n : nat) : block_wf seed → Z.of_nat n < 2 ^ 61 →
  ∃ g0 g', SetSeed g seed = Ok g0 ∧
    draw_doublewords n g0 =
      Ok ((λ i, le_val (Portable.encrypt (Portable.FixedKeyAES seed) (le_bytes 16 i)))
            <$> seqZ 0 (Z.of_nat n), g').
Proof.
  intros Hs Hn. destruct (SetSeed_spec g seed Hs) as (g0 & E0 & Hp & _).
  destruct (draw_doublewords_spec n g0 _ 0 Hp ltac:(lia)) as (g' & E & _);
    [unfold prng_limit; lia|].
  exists g0, g'. split; [exact E0|]. rewrite E. do 2 f_equal.
  apply list_fmap_ext. intros i x _. f_equal. unfold block_at.
  rewrite aes_128_schedule_eq by done.
  apply aesni_encrypt_eq; [by apply FixedKeyAES_wf|].
  split; [apply le_bytes_length|apply le_bytes_u8].
Qed.

(** Draws of several lengths. *)
Fixpoint draw_octets (lens : list Z) (g : PRNG) : outcome (list (list Z) * PRNG) :=
  match lens with
  | [] => Ok ([], g)
  | len :: lens => '(x, g) ← get_octets g len; '(xs, g) ← draw_octets lens g; Ok (x :: xs, g)
  end.

Definition total (lens : list Z) : Z := foldr Z.add 0 lens.

(** C33. Reading octets always ends, within one turn of its loop more than there are
    octets to read, and never drops or repeats any: draws of any lengths put
    together are the octets of one draw of the total length, across every refill of
    the buffer. *)
Theorem get_octets_contiguous g key p lens :
  at_pos g key p → Forall (λ len, 0 ≤ len) lens → p + total lens < prng_limit →
  (∀ len, 0 ≤ len → p + len < prng_limit → octets_loop (Z.to_nat len + 1) g len ≠ None) ∧
  ∃ xs g' g'', draw_octets lens g = Ok (xs, g') ∧ get_octets g (total lens) = Ok (mjoin xs, g'') ∧
    at_pos g' key (p + total lens) ∧ at_pos g'' key (p + total lens).
Proof.
  intros Hp Hf Hm. split.
  { intros len Hl Hm'. destruct (octets_loop_spec (Z.to_nat len + 1) g key p len Hp Hl Hm')
      as (g' & -> & _); [destruct (_ =? _); lia|done]. }
  assert (H0 : ∀ l, Forall (λ len, 0 ≤ len) l → 0 ≤ total l).
  { induction 1; unfold total in *; cbn; lia. }
  destruct (get_octets_spec g key p (total lens) Hp (H0 _ Hf) Hm) as (g'' & E'' & Hp'' & _).
  enough (∃ xs g', draw_octets lens g = Ok (xs, g') ∧ mjoin xs = key_stream key p (total lens) ∧
    at_pos g' key (p + total lens)) as (xs & g' & E & Ej & Hp').
  { exists xs, g', g''. by rewrite Ej. }
  clear E'' Hp'' g''. revert g p Hp Hm. induction Hf as [|len lens Hlen Hf IH]; intros g p Hp Hm.
  - exists [], g. unfold total; cbn. rewrite Z.add_0_r. done.
  - pose proof (H0 _ Hf). change (total (len :: lens)) with (len + total lens) in *.
    destruct (get_octets_spec g key p len Hp Hlen ltac:(lia)) as (g1 & E1 & Hp1 & _).
    destruct (IH g1 (p + len) Hp1 ltac:(lia)) as (xs & g' & E & Ej & Hp').
    exists (key_stream key p len :: xs), g'. cbn [draw_octets]. rewrite E1. cbn [mbind outcome_bind].
    rewrite E. cbn [mbind outcome_bind].
    change (mjoin (key_stream key p len :: xs)) with (key_stream key p len ++ mjoin xs).
    rewrite Ej, key_stream_app by lia.
    replace (p + (len + total lens)) with (p + len + total lens) by lia. done.
Qed.

(** ** Bounded integers *)
Definition draw_range (use_char : bool) : Z := if use_char then 2 ^ 8 else 2 ^ 32.

(** Whether a draw is accepted depends on its block of [upper] values only. *)
Lemma accepted_block use_char upper r j : 0 ≤ j < upper →
  accepted use_char upper (r - r mod upper + j) = accepted use_char upper r.
Proof.
  intros Hj. unfold accepted.
  assert ((r - r mod upper + j) mod upper = j) as ->.
  { replace (r - r mod upper + j) with (j + (r / upper) * upper)
      by (pose proof (Z.div_mod r upper ltac:(lia)); lia).
    rewrite Z.mod_add by lia. apply Z.mod_small; lia. }
  f_equal. f_equal. f_equal. lia.
Qed.

(** An accepted draw whose block does not fit the range of the draws. *)
Lemma accepted_overhang (use_char : bool) upper r : 0 < upper →
  (if use_char then upper ≤ 128 else 128 < upper < 2 ^ 31) → 0 ≤ r < draw_range use_char →
  accepted use_char upper r = true → draw_range use_char ≤ r - r mod upper + (upper - 1) →
  r - r mod upper + upper = draw_range use_char + 1.
Proof.
  intros Hu Hc Hr Ha Hb. pose proof (Z.mod_pos_bound r upper Hu).
  assert (r mod upper ≤ r) by (apply Z.mod_le; lia).
  unfold accepted in Ha. apply Z.leb_le in Ha. set (v := r - r mod upper + (upper - 1)) in *.
  unfold s32, u32, draw_range in *. destruct use_char.
  - change (2 ^ 8) with 256 in *. rewrite !(Z.mod_small v) in Ha by lia.
    rewrite (proj2 (Z.ltb_lt _ _)) in Ha by lia. lia.
  - assert (E : v mod 2 ^ 32 = v - 2 ^ 32).
    { symmetry. apply Z.mod_unique with 1; lia. }
    rewrite Z.mod_mod, E in Ha by lia. rewrite (proj2 (Z.ltb_lt _ _)) in Ha by lia. lia.
Qed.

(** [get_uint(upper)] is uniform when the draws it accepts come in whole blocks
    of [upper] values. They do for every [upper] drawn from octets, and for one
    drawn from 32 bits exactly when [upper] does not divide [2 ^ 32 + 1]; with
    [upper = 641], say, the last block lacks its largest value. *)
Theorem get_uint_uniform_iff (use_char : bool) upper : 1 < upper →
  (if use_char then upper ≤ 128 else 128 < upper < 2 ^ 31) →
  (∀ r j, 0 ≤ r < draw_range use_char → accepted use_char upper r = true → 0 ≤ j < upper →
     r - r mod upper + j < draw_range use_char ∧ accepted use_char upper (r - r mod upper + j) = true)
  ↔ (use_char = true ∨ (2 ^ 32 + 1) mod upper ≠ 0).
Proof.
  intros Hu Hc. split.
  - intros Hall. destruct use_char; [by left|right]. intros Hd.
    set (r := 2 ^ 32 + 1 - upper).
    assert (Hm : r mod upper = 0).
    { unfold r. by rewrite Zminus_mod, Hd, Z_mod_same_full. }
    assert (Ha : accepted false upper r = true).
    { unfold accepted. rewrite Hm. replace (r - 0 + (upper - 1)) with (2 ^ 32) by (unfold r; lia). done. }
    destruct (Hall r (upper - 1)) as [Hlt _]; [unfold r, draw_range; lia|done|lia|].
    unfold draw_range, r in *. lia.
  - intros Hd r j Hr Ha Hj. rewrite accepted_block by lia. split; [|done].
    destruct (Z.lt_ge_cases (r - r mod upper + (upper - 1)) (draw_range use_char)); [lia|exfalso].
    pose proof (accepted_overhang use_char upper r ltac:(lia) Hc Hr Ha ltac:(lia)) as E.
    assert (Hdiv : (draw_range use_char + 1) mod upper = 0).
    { rewrite <-E. pose proof (Z.div_mod r upper ltac:(lia)).
      replace (r - r mod upper + upper) with ((r / upper + 1) * upper) by lia.
      apply Z.mod_mul. lia. }
    destruct use_char; [|by destruct Hd].
    change (draw_range true + 1) with 257 in Hdiv.
    assert (Hall : forallb (λ u, negb (257 mod u =? 0)) (seqZ 2 127) = true) by done.
    rewrite forallb_forall in Hall. specialize (Hall upper).
    rewrite Hdiv in Hall. discriminate Hall. apply list_elem_of_In, elem_of_seqZ. lia.
Qed.

(** The bound on an accepted result. *)
Lemma uint_loop_bound fuel use_char upper g r g' : 0 < upper →
  uint_loop fuel use_char upper g = Some (Ok (r, g')) → 0 ≤ r < upper.
Proof.
  intros Hu. revert g. induction fuel as [|fuel IH]; intros g; [done|]. cbn [uint_loop].
  destruct (if use_char then _ else _) as [[x g1]| |]; [|done..].
  destruct (accepted use_char upper x); [|apply IH]. intros [= <- _].
  by apply Z.mod_pos_bound.
Qed.

(** A generator that was never seeded hands out the memory it was built in: nothing
    checks [initialized] before the first refill. *)
Lemma uninitialised_prng_reads_memory `{Heap} n : 0 < n < 128 →
  get_octets prng_new n = Ok (take (Z.to_nat n) (new_octets 128), set_cnt prng_new n).
Proof.
  intros Hn. unfold get_octets. rewrite Nat.add_1_r. cbn [octets_loop].
  rewrite (proj2 (Z.eqb_neq n 0)) by lia. unfold octets_step, prng_read. cbn [prng_new g_cnt g_random].
  change (RAND_SIZE - 0) with 128. rewrite Z.min_l by lia.
  rewrite mem_read_Ok by (rewrite ?new_octets_length; lia). rewrite drop_0.
  cbn [mbind outcome_bind set_cnt g_cnt prng_new]. rewrite (proj2 (Z.eqb_neq _ RAND_SIZE)) by (unfold RAND_SIZE, PIPELINES, AES_BLK_SIZE; lia).
  cbn [mbind outcome_bind]. rewrite length_take, new_octets_length.
  replace (n - Z.of_nat (Z.to_nat n `min` 128)) with 0 by lia.
  destruct (Z.to_nat n); cbn [octets_loop Z.eqb mbind outcome_bind]; by rewrite app_nil_r.
Qed.

(** The counters are signed: the addition that follows 2^63 - 1 is undefined, for each of
    the eight blocks, and where a compiler wraps around, the upper half of a counter would
    be incremented only when its lower half is 0, which is so for the first block alone. *)
Lemma next_state_overflow s1 i : 0 ≤ i < 8 →
  next_state (le_bytes 8 (2 ^ 63 - 8 + i) ++ le_bytes 8 s1) = UB.
Proof.
  intros Hi. unfold next_state. rewrite take_app_length' by by rewrite le_bytes_length.
  rewrite le_val_bytes by (unfold is_word; cbn; lia). rewrite (s64_small (2 ^ 63 - 8 + i)) by lia.
  replace (2 ^ 63 - 8 + i + PIPELINES) with (2 ^ 63 + i) by (unfold PIPELINES; lia).
  unfold int64. rewrite (proj2 (Z.ltb_ge (2 ^ 63 + i) (2 ^ 63))) by lia. by rewrite andb_false_r.
Qed.

(** The generator of the parties of [Yao/]. *)
#[export] Instance yao_prng : Prng PRNG := {|
  get_doubleword g := from_ok (0, g) (prng_get_doubleword g);
  get_bit g := from_ok (false, g) (prng_get_bit g);
|}.

(** ** Instances *)
Definition zero_prng : PRNG := mkPrng (replicate 16 0) [] [] [] 0 0 0 false.

Lemma prng_is_counter_mode_witness : ∃ g0 g', SetSeed zero_prng (replicate 16 0) = Ok g0 ∧
  draw_doublewords 2 g0 =
    Ok ((λ i, le_val (Portable.encrypt (Portable.FixedKeyAES (replicate 16 0)) (le_bytes 16 i)))
          <$> seqZ 0 (Z.of_nat 2), g').
Proof. apply (prng_is_counter_mode zero_prng (replicate 16 0) 2); [split; [done|by apply Forall_replicate]|done]. Defined.

Lemma get_uint_uniform_iff_witness :
  ¬ (∀ r j, 0 ≤ r < draw_range false → accepted false 641 r = true → 0 ≤ j < 641 →
     r - r mod 641 + j < draw_range false ∧ accepted false 641 (r - r mod 641 + j) = true).
Proof. intros Hall. apply (get_uint_uniform_iff false 641) in Hall; [|done..]. by destruct Hall. Defined.

Lemma get_octets_contiguous_witness : ∃ g key,
  (∀ len, 0 ≤ len → 0 + len < prng_limit → octets_loop (Z.to_nat len + 1) g len ≠ None) ∧
  ∃ xs g' g'', draw_octets [3; 200; 0; 5] g = Ok (xs, g') ∧
    get_octets g (total [3; 200; 0; 5]) = Ok (mjoin xs, g'') ∧
    at_pos g' key (0 + total [3; 200; 0; 5]) ∧ at_pos g'' key (0 + total [3; 200; 0; 5]).
Proof.
  destruct (SetSeed_spec zero_prng (replicate 16 0)) as (g & _ & Hp & _);
    [split; [done|by apply Forall_replicate]|].
  exists g. eexists. apply (get_octets_contiguous g _ 0 [3; 200; 0; 5] Hp);
    [repeat constructor; lia|done].
Defined.
