(* ===== verification/BitVector.v ===== *)
(** * Vectors of bits

    [BitVector] of [Tools/BitVector.h] and [Tools/BitVector.cpp]: bits packed in
    octets, with the accesses by octet, word and block that the OT extension
    uses. *)

From S2P Require Import Prelude Memory OctetStream OctetProps Xor Block Aes YaoKey Random.

(** [bytes] as it was allocated; a vector that shrank keeps the allocation. *)
Record BitVector := mkBv {
  bv_bytes : list Z;
  bv_nbytes : Z;
  bv_nbits : Z;
}.

Definition set_bytes (v : BitVector) (b : list Z) : BitVector := mkBv b (bv_nbytes v) (bv_nbits v).

(** [memset(bytes, 0, nbytes)] *)
Definition assign_zero (v : BitVector) : outcome BitVector :=
  b ← mem_write (bv_bytes v) 0 (replicate (Z.to_nat (bv_nbytes v)) 0); Ok (set_bytes v b).

Section construction.
Context `{Heap}.

(** The number of octets passes through an [int]. *)
Definition bv_resize (v : BitVector) (new_nbits : Z) : outcome BitVector :=
  if bv_nbits v =? new_nbits then Ok v
  else
    let new_nbytes := u64 (s32 (DIV_CEIL (s64 new_nbits) 8)) in
    bytes ← (if bv_nbits v <? new_nbits then
               tmp ← new_array new_nbytes;
               old ← mem_read (bv_bytes v) 0 (bv_nbytes v);
               mem_write tmp 0 old
             else Ok (bv_bytes v));
    Ok (mkBv bytes new_nbytes new_nbits).

(** [BitVector(n)] *)
Definition bv_make (n : Z) : outcome BitVector :=
  let nbytes := u64 (DIV_CEIL (s64 n) 8) in
  bytes ← new_array nbytes;
  assign_zero (mkBv bytes nbytes n).

Definition bv_resize_zero (v : BitVector) (new_nbits : Z) : outcome BitVector :=
  let old_nbytes := bv_nbytes v in
  v ← bv_resize v new_nbits;
  if old_nbytes <? bv_nbytes v then
    b ← mem_write (bv_bytes v) old_nbytes (replicate (Z.to_nat (bv_nbytes v - old_nbytes)) 0);
    Ok (set_bytes v b)
  else Ok v.

Definition bv_assign (v K : BitVector) : outcome BitVector :=
  v ← (if negb (bv_nbits v =? bv_nbits K) then bv_resize v (bv_nbits K) else Ok v);
  src ← mem_read (bv_bytes K) 0 (bv_nbytes v);
  b ← mem_write (bv_bytes v) 0 src;
  Ok (set_bytes v b).

(** [BitVector(const BitVector&)] *)
Definition bv_copy (K : BitVector) : outcome BitVector :=
  bytes ← new_array (bv_nbytes K);
  bv_assign (mkBv bytes (bv_nbytes K) (bv_nbits K)) K.

Definition assign_bytes (v : BitVector) (new_bytes : list Z) (len : Z) : outcome BitVector :=
  v ← bv_resize v (u64 (s32 (len * 8)));
  src ← mem_read new_bytes 0 (u64 len);
  b ← mem_write (bv_bytes v) 0 src;
  Ok (set_bytes v b).

(** [BitVector(other, bitsize)] *)
Definition bv_of_memory (other : list Z) (bitsize : Z) : outcome BitVector :=
  v ← bv_make 0;
  v ← bv_resize v bitsize;
  src ← mem_read other 0 (bv_nbytes v);
  b ← mem_write (bv_bytes v) 0 src;
  Ok (set_bytes v b).

(** [operator=(octetStream)] *)
Definition bv_of_stream (v : BitVector) (other : octetStream) : outcome BitVector :=
  v ← bv_resize v (u64 (os_len other * 8));
  data ← get_data other;
  src ← mem_read data 0 (bv_nbytes v);
  b ← mem_write (bv_bytes v) 0 src;
  Ok (set_bytes v b).

Definition bv_append (v other : BitVector) (length : Z) : outcome BitVector :=
  if negb (bv_nbits v mod 8 =? 0) then Throw "assertion failed"
  else if negb (length mod 8 =? 0) then Throw "assertion failed"
  else if bv_nbits other <? length then Throw "assertion failed"
  else
    let old_nbytes := bv_nbytes v in
    v ← bv_resize v (u64 (bv_nbits v + length));
    src ← mem_read (bv_bytes other) 0 (length / 8);
    b ← mem_write (bv_bytes v) old_nbytes src;
    Ok (set_bytes v b).
End construction.

(** ** Accesses *)
Definition get_ptr_to_byte (v : BitVector) (i block_size : Z) : outcome Z :=
  if u64 (i + block_size) <=? bv_nbytes v then Ok (u64 (i * block_size)) else Throw "assertion failed".

Definition get_ptr_to_bit (v : BitVector) (i block_size : Z) : outcome Z :=
  if negb (u64 (i * block_size) mod 8 =? 0) then Throw "assertion failed"
  else if u64 (u64 (i + 1) * block_size) <=? bv_nbits v then Ok (u64 (block_size * i) / 8)
  else Throw "assertion failed".

Definition get_byte (v : BitVector) (i : Z) : outcome Z := vget (bv_bytes v) i.
Definition set_byte (v : BitVector) (i b : Z) : outcome BitVector :=
  bytes ← vset (bv_bytes v) i b; Ok (set_bytes v bytes).

Definition bv_get_word (v : BitVector) (i : Z) : outcome Z :=
  x ← mem_read (bv_bytes v) (i * 8) 8; Ok (le_val x).
Definition bv_set_word (v : BitVector) (i w : Z) : outcome BitVector :=
  bytes ← mem_write (bv_bytes v) (i * 8) (le_bytes 8 w); Ok (set_bytes v bytes).

Definition get_int128 (v : BitVector) (i : Z) : outcome Key :=
  x ← mem_read (bv_bytes v) (i * 16) 16; Ok (le_val x).
Definition set_int128 (v : BitVector) (i : Z) (a : Key) : outcome BitVector :=
  bytes ← mem_write (bv_bytes v) (i * 16) (le_bytes 16 a); Ok (set_bytes v bytes).

(** The index is an [int]; [i / 8] rounds to zero and [i % 8] may be negative, which
    is a shift by a negative count. *)
Definition bv_get_bit (v : BitVector) (i : Z) : outcome bool :=
  if i <? 0 then UB
  else b ← vget (bv_bytes v) (i / 8); Ok (negb (Z.land (Z.shiftr b (i mod 8)) 1 =? 0)).

Definition bv_set_bit (v : BitVector) (i a : Z) : outcome BitVector :=
  if bv_nbits v <=? u64 i then Throw "BitVector overflow"
  else
    let j := i / 8 in
    let k := Z.land i 7 in
    b ← vget (bv_bytes v) j;
    bytes ← vset (bv_bytes v) j
              (if a =? 1 then Z.lor b (u8 (Z.shiftl 1 k)) else Z.land b (u8 (Z.lnot (Z.shiftl 1 k))));
    Ok (set_bytes v bytes).

(** ** Arithmetic *)
Section arithmetic.
Context `{Heap}.

(** [add(A, B)] *)
Definition bv_add2 (v A B : BitVector) : outcome BitVector :=
  if negb (bv_nbits A =? bv_nbits B) then Throw "invalid_length"
  else
    v ← bv_resize v (bv_nbits A);
    foldM (λ v i, a ← vget (bv_bytes A) i; b ← vget (bv_bytes B) i; set_byte v i (Z.lxor a b))
      v (seqZ 0 (bv_nbytes v)).

(** [add(A)]: words first, then the remaining octets. *)
Definition bv_add (v A : BitVector) : outcome BitVector :=
  if negb (bv_nbits v =? bv_nbits A) then Throw "invalid_length"
  else
    let nwords := s32 (bv_nbytes v / 8) in
    v ← foldM (λ v i, x ← bv_get_word v i; a ← bv_get_word A i; bv_set_word v i (Z.lxor x a))
          v (seqZ 0 nwords);
    foldM (λ v i, x ← get_byte v i; a ← get_byte A i; set_byte v i (Z.lxor x a))
      v (seqZ (nwords * 8) (bv_nbytes v - nwords * 8)).

(** [operator&] *)
Definition bv_and (v other : BitVector) : outcome BitVector :=
  if negb (u32 (bv_nbits v) =? u32 (bv_nbits other)) then Throw "assertion failed"
  else
    res ← bv_make (u32 (bv_nbits v));
    foldM (λ res i, a ← vget (bv_bytes v) i; b ← vget (bv_bytes other) i; set_byte res i (Z.land a b))
      res (seqZ 0 (u32 (bv_nbytes v))).

Definition bv_equals (v K : BitVector) : outcome bool :=
  if negb (bv_nbits v =? bv_nbits K) then Throw "invalid_length"
  else
    a ← mem_read (bv_bytes v) 0 (bv_nbytes v);
    b ← mem_read (bv_bytes K) 0 (bv_nbytes v);
    Ok (bool_decide (a = b)).
End arithmetic.

(** The number of one bits, modulo two. *)
Definition popcnt_odd (n : nat) (x : Z) : bool :=
  foldl (λ res i, xorb res (Z.testbit x (Z.of_nat i))) false (seq 0 n).

(** [parity] with [popcnt] instructions, and the other branch. *)
Definition parity_popcnt (v : BitVector) : outcome bool :=
  let n := u32 (bv_nbytes v) in
  res ← foldM (λ res i, x ← bv_get_word v i; Ok (xorb res (popcnt_odd 64 x))) false (seqZ 0 (n / 8));
  foldM (λ res i, b ← vget (bv_bytes v) i; Ok (xorb res (popcnt_odd 32 b))) res
    (seqZ (n / 8 * 8) (n - n / 8 * 8)).

Definition parity_portable (v : BitVector) : outcome bool :=
  let n := u32 (bv_nbytes v) in
  res ← foldM (λ res i,
          x ← bv_get_word v i;
          let x := foldl (λ x i, Z.lxor x (Z.shiftr x (Z.shiftl 1 i))) x [5; 4; 3; 2; 1; 0] in
          Ok (xorb res (negb (Z.land x 1 =? 0)))) false (seqZ 0 (n / 8));
  foldM (λ res i, b ← bv_get_bit v i; Ok (xorb res b)) res (seqZ (n / 8 * 8) (n - n / 8 * 8)).

(** ** Randomness and streams *)
Definition bv_randomize (v : BitVector) (G : PRNG) : outcome (BitVector * PRNG) :=
  '(x, G) ← get_octets G (s32 (bv_nbytes v));
  b ← mem_write (bv_bytes v) 0 x; Ok (set_bytes v b, G).

Definition bv_randomize_at (v : BitVector) (a nb : Z) (G : PRNG) : outcome (BitVector * PRNG) :=
  if nb <? 1 then Throw "invalid_length"
  else '(x, G) ← get_octets G nb; b ← mem_write (bv_bytes v) a x; Ok (set_bytes v b, G).

Section streams.
Context `{Heap}.

Definition bv_pack (v : BitVector) (o : octetStream) : outcome octetStream :=
  o ← store_int o (bv_nbits v) 8;
  x ← mem_read (bv_bytes v) 0 (bv_nbytes v);
  os_append o x.

Definition bv_unpack (v : BitVector) (o : octetStream) : outcome (BitVector * octetStream) :=
  '(n, o) ← get_int o 8;
  v ← bv_resize v n;
  '(x, o) ← os_consume o (bv_nbytes v);
  b ← mem_write (bv_bytes v) 0 x;
  Ok (set_bytes v b, o).
End streams.

(** ** Well-formed vectors

    Sizes that the [int] of [resize] can hold. *)
Record bv_wf (v : BitVector) : Prop := {
  bv_bits : 0 ≤ bv_nbits v < 2 ^ 33;
  bv_size : bv_nbytes v = (bv_nbits v + 7) / 8;
  bv_alloc : bv_nbytes v ≤ Z.of_nat (length (bv_bytes v)) < 2 ^ 63;
  bv_u8 : Forall is_u8 (bv_bytes v);
}.

(** The octets of the vector, as a number whose bits they are. *)
Definition bv_val (v : BitVector) : list Z := take (Z.to_nat (bv_nbytes v)) (bv_bytes v).
Definition bv_num (v : BitVector) : Z := le_val (bv_val v).

Lemma bv_nbytes_range v : bv_wf v → 0 ≤ bv_nbytes v < 2 ^ 31 ∧ 8 * bv_nbytes v < bv_nbits v + 8 ∧
  bv_nbits v ≤ 8 * bv_nbytes v.
Proof. intros [? -> _ _]. Z.to_euclidean_division_equations. lia. Qed.

Lemma bv_val_length v : bv_wf v → Z.of_nat (length (bv_val v)) = bv_nbytes v.
Proof.
  intros Hw. pose proof (bv_nbytes_range v Hw). destruct Hw. unfold bv_val. rewrite length_take. lia.
Qed.

Lemma bv_val_u8 v : bv_wf v → Forall is_u8 (bv_val v).
Proof. intros [_ _ _ Hu]. by apply Forall_take. Qed.

Lemma set_bytes_wf v b : bv_wf v → length b = length (bv_bytes v) → Forall is_u8 b →
  bv_wf (set_bytes v b).
Proof. intros [? ? ? ?] Hl Hu. split; cbn; [done|done|by rewrite Hl|done]. Qed.

Lemma bv_read v i n : bv_wf v → 0 ≤ i → 0 ≤ n → i + n ≤ bv_nbytes v →
  mem_read (bv_bytes v) i n = Ok (take (Z.to_nat n) (drop (Z.to_nat i) (bv_val v))).
Proof.
  intros Hw Hi Hn Hl. pose proof (bv_alloc v Hw). rewrite mem_read_Ok by lia. f_equal.
  unfold bv_val. rewrite skipn_firstn_comm, take_take. f_equal. lia.
Qed.

Lemma bv_write v i x : bv_wf v → 0 ≤ i → i + Z.of_nat (length x) ≤ bv_nbytes v → Forall is_u8 x →
  ∃ b, mem_write (bv_bytes v) i x = Ok b ∧ bv_wf (set_bytes v b) ∧
       bv_val (set_bytes v b) =
         take (Z.to_nat i) (bv_val v) ++ x ++ drop (Z.to_nat i + length x) (bv_val v).
Proof.
  intros Hw Hi Hl Hx. pose proof (bv_alloc v Hw).
  destruct (mem_write (bv_bytes v) i x) as [b| |] eqn:E;
    [|exfalso; rewrite mem_write_Ok in E by lia; discriminate..].
  exists b. split; [done|]. split.
  - apply set_bytes_wf; [done|by eapply mem_write_length|].
    eapply mem_write_u8; [apply Hw|exact Hx|exact E].
  - apply mem_write_inv in E as (_ & _ & ->). pose proof (bv_val_length v Hw) as HA.
    unfold bv_val at 1. cbn [bv_bytes bv_nbytes set_bytes].
    rewrite <-(take_drop (Z.to_nat (bv_nbytes v)) (bv_bytes v)) at 1 2.
    change (take (Z.to_nat (bv_nbytes v)) (bv_bytes v)) with (bv_val v).
    rewrite (take_app_le (bv_val v)), (drop_app_le (bv_val v)) by lia. rewrite !app_assoc.
    apply take_app_length'. rewrite !length_app, length_take, length_drop. lia.
Qed.

Section construction_spec.
Context `{Heap}.

Lemma nbytes_of_int n : 0 ≤ n < 2 ^ 33 → u64 (s32 (DIV_CEIL (s64 n) 8)) = (n + 7) / 8.
Proof.
  intros Hn. unfold DIV_CEIL.
  assert (s64 n = n) as -> by (rewrite <-(u64_id n) at 1 by lia; apply s64_u64; lia).
  replace (n + 8 - 1) with (n + 7) by lia. rewrite Z.quot_div_nonneg by lia.
  assert (0 ≤ (n + 7) / 8 < 2 ^ 31).
  { split; [apply Z.div_pos; lia|apply Z.div_lt_upper_bound; lia]. }
  assert (s32 ((n + 7) / 8) = (n + 7) / 8) as ->.
  { rewrite <-(Z.mod_small ((n + 7) / 8) (2 ^ 32)) at 1 by lia. apply s32_u32. lia. }
  apply u64_id. lia.
Qed.

Lemma bv_resize_spec v n : bv_wf v → 0 ≤ n < 2 ^ 33 →
  ∃ v', bv_resize v n = Ok v' ∧ bv_wf v' ∧ bv_nbits v' = n ∧
        (bv_nbits v ≤ n → bv_val v `prefix_of` bv_val v') ∧
        (n ≤ bv_nbits v → bv_val v' `prefix_of` bv_val v).
Proof.
  intros Hw Hn. pose proof (bv_nbytes_range v Hw) as Hr. pose proof Hw as [Hb Hs Ha Hu].
  unfold bv_resize. destruct (Z.eqb_spec (bv_nbits v) n) as [E|E]; [by exists v|].
  rewrite nbytes_of_int by done.
  assert (Hm : 0 ≤ (n + 7) / 8 < 2 ^ 31).
  { split; [apply Z.div_pos; lia|apply Z.div_lt_upper_bound; lia]. }
  destruct (Z.ltb_spec (bv_nbits v) n).
  - assert (bv_nbytes v ≤ (n + 7) / 8) by (rewrite Hs; apply Z.div_le_mono; lia).
    rewrite new_array_Ok by lia. cbn [mbind outcome_bind].
    rewrite (bv_read v 0) by (done || lia). cbn [mbind outcome_bind]. rewrite drop_0.
    pose proof (bv_val_length v Hw). rewrite take_ge by lia.
    pose proof (new_octets_length (Z.to_nat ((n + 7) / 8))) as Hl.
    destruct (mem_write _ 0 (bv_val v)) as [b| |] eqn:Ew;
      [|exfalso; rewrite mem_write_Ok in Ew by lia; discriminate..].
    cbn [mbind outcome_bind]. eexists. split; [done|].
    pose proof (mem_write_length _ _ _ _ Ew) as Hl'. split_and!; [|done| |lia].
    + split; cbn; [lia|done|lia|]. eapply mem_write_u8; [apply new_octets_u8|by apply bv_val_u8|done].
    + intros _. unfold bv_val at 2. cbn. apply mem_write_take in Ew. change (Z.to_nat 0) with 0%nat in Ew.
      cbn [take app Nat.add firstn] in Ew. rewrite <-Ew at 1.
      exists (drop (length (bv_val v)) (take (Z.to_nat ((n + 7) / 8)) b)).
      rewrite <-(take_drop (length (bv_val v)) (take (Z.to_nat ((n + 7) / 8)) b)) at 1.
      f_equal. rewrite take_take. f_equal. lia.
  - cbn [mbind outcome_bind]. eexists. split; [done|].
    assert ((n + 7) / 8 ≤ bv_nbytes v) by (rewrite Hs; apply Z.div_le_mono; lia).
    split_and!; [|done|lia|].
    + split; cbn; [lia|done|lia|done].
    + intros _. unfold bv_val; cbn.
      exists (drop (Z.to_nat ((n + 7) / 8)) (take (Z.to_nat (bv_nbytes v)) (bv_bytes v))).
      rewrite <-(take_drop (Z.to_nat ((n + 7) / 8)) (take (Z.to_nat (bv_nbytes v)) (bv_bytes v))) at 1.
      f_equal. rewrite take_take. f_equal. lia.
Qed.

Lemma bv_make_spec n : 0 ≤ n < 2 ^ 33 →
  ∃ v, bv_make n = Ok v ∧ bv_wf v ∧ bv_nbits v = n ∧ bv_val v = replicate (Z.to_nat ((n + 7) / 8)) 0.
Proof.
  intros Hn. unfold bv_make, DIV_CEIL.
  assert (s64 n = n) as -> by (rewrite <-(u64_id n) at 1 by lia; apply s64_u64; lia).
  replace (n + 8 - 1) with (n + 7) by lia. rewrite Z.quot_div_nonneg by lia.
  assert (0 ≤ (n + 7) / 8 < 2 ^ 31).
  { split; [apply Z.div_pos; lia|apply Z.div_lt_upper_bound; lia]. }
  rewrite u64_id, new_array_Ok by lia. cbn [mbind outcome_bind]. unfold assign_zero. cbn [bv_nbytes bv_bytes].
  set (m := (n + 7) / 8) in *.
  assert (Hw : bv_wf (mkBv (new_octets (Z.to_nat m)) m n)).
  { split; cbn; [lia|done|rewrite new_octets_length; lia|apply new_octets_u8]. }
  destruct (bv_write _ 0 (replicate (Z.to_nat m) 0) Hw) as (b & Eb & Hwb & Hv);
    [lia|cbn; rewrite length_replicate; lia|by apply Forall_replicate|].
  cbn in Eb. rewrite Eb. cbn [mbind outcome_bind]. eexists. split; [done|]. split_and!; [done|done|].
  rewrite Hv. cbn [take app Z.to_nat Nat.add]. rewrite drop_ge, app_nil_r; [done|].
  pose proof (bv_val_length _ Hw) as Hl. cbn in Hl. rewrite length_replicate. lia.
Qed.

(** The new octets are zero; the bits above the old size in its last octet stay. *)
Lemma bv_resize_zero_spec v n : bv_wf v → bv_nbits v ≤ n < 2 ^ 33 →
  ∃ v', bv_resize_zero v n = Ok v' ∧ bv_wf v' ∧ bv_nbits v' = n ∧
        bv_val v' = bv_val v ++ replicate (Z.to_nat ((n + 7) / 8 - bv_nbytes v)) 0.
Proof.
  intros Hw Hn. pose proof (bv_nbytes_range v Hw). pose proof (bv_bits v Hw).
  destruct (bv_resize_spec v n Hw ltac:(lia)) as (v1 & E & Hw1 & Hn1 & Hp & _).
  unfold bv_resize_zero. rewrite E. cbn [mbind outcome_bind].
  pose proof (bv_size v1 Hw1) as Hs1. rewrite Hn1 in Hs1.
  destruct (Hp ltac:(lia)) as [k Hk]. pose proof (bv_val_length v Hw) as Hl.
  pose proof (bv_val_length v1 Hw1) as Hl1.
  destruct (Z.ltb_spec (bv_nbytes v) (bv_nbytes v1)).
  - destruct (bv_write v1 (bv_nbytes v) (replicate (Z.to_nat (bv_nbytes v1 - bv_nbytes v)) 0) Hw1)
      as (b & Eb & Hwb & Hv); [lia|rewrite length_replicate; lia|by apply Forall_replicate|].
    rewrite Eb. cbn [mbind outcome_bind]. eexists. split; [done|]. split_and!; [done|done|].
    rewrite Hv, drop_ge, app_nil_r by (rewrite length_replicate; lia). rewrite <-Hs1. f_equal.
    rewrite Hk. apply take_app_length'. lia.
  - exists v1. split; [done|]. split_and!; [done|done|].
    replace (Z.to_nat ((n + 7) / 8 - bv_nbytes v)) with 0%nat by lia. cbn. rewrite app_nil_r.
    rewrite Hk in *. rewrite length_app in Hl1. destruct k; [by rewrite app_nil_r|cbn in Hl1; lia].
Qed.

Lemma bv_copy_spec K : bv_wf K →
  ∃ v, bv_copy K = Ok v ∧ bv_wf v ∧ bv_nbits v = bv_nbits K ∧ bv_val v = bv_val K.
Proof.
  intros Hw. pose proof (bv_nbytes_range K Hw). unfold bv_copy. rewrite new_array_Ok by lia.
  cbn [mbind outcome_bind]. unfold bv_assign. cbn [bv_nbits bv_nbytes bv_bytes].
  rewrite Z.eqb_refl. cbn [negb mbind outcome_bind bv_nbytes bv_bytes].
  pose proof (bv_val_length K Hw). rewrite bv_read by (done || lia). rewrite drop_0, take_ge by lia.
  cbn [mbind outcome_bind].
  set (v0 := mkBv _ _ _). assert (Hw0 : bv_wf v0).
  { destruct Hw as [? ? ? ?]. split; cbn; [done|done|rewrite new_octets_length; lia|apply new_octets_u8]. }
  destruct (bv_write v0 0 (bv_val K) Hw0) as (b & Eb & Hwb & Hv); [lia|cbn; lia|by apply bv_val_u8|].
  cbn in Eb. rewrite Eb. cbn [mbind outcome_bind]. exists (set_bytes v0 b). split_and!; [done..|].
  rewrite Hv. cbn [take app Z.to_nat Nat.add]. rewrite drop_ge, app_nil_r; [done|].
  pose proof (bv_val_length v0 Hw0). unfold v0 in *. cbn in *. lia.
Qed.
End construction_spec.

(** ** Bits *)
Lemma le_val_testbit l i : Forall is_u8 l → 0 ≤ i →
  Z.testbit (le_val l) i = Z.testbit (default 0 (l !! Z.to_nat (i / 8))) (i mod 8).
Proof.
  intros Hu. revert i. induction Hu as [|b l Hb Hu IH]; intros i Hi; cbn [le_val].
  - by rewrite lookup_nil, !Z.bits_0.
  - destruct (Z.lt_ge_cases i 8) as [Hlt|Hge].
    + rewrite Z.div_small, (Z.mod_small i) by lia. cbn [Z.to_nat lookup list_lookup default].
      rewrite <-(Z.mod_pow2_bits_low (b + 256 * le_val l) 8) by lia.
      change (2 ^ 8) with 256. rewrite (Z.mul_comm 256), Z.mod_add by lia.
      unfold is_word in Hb. by rewrite Z.mod_small by lia.
    + replace i with ((i - 8) + 8) at 1 by lia. rewrite <-Z.div_pow2_bits by lia.
      change (2 ^ 8) with 256. unfold is_word in Hb.
      rewrite (Z.mul_comm 256), Z.div_add, Z.div_small, Z.add_0_l by lia. rewrite IH by lia.
      replace i with ((i - 8) + 1 * 8) at 3 4 by lia. rewrite Z.mod_add, Z.div_add by lia.
      assert (0 ≤ (i - 8) / 8) by (apply Z.div_pos; lia).
      by replace (Z.to_nat ((i - 8) / 8 + 1)) with (S (Z.to_nat ((i - 8) / 8))) by lia.
Qed.

Lemma bit_test b k : 0 ≤ k → negb (Z.land (Z.shiftr b k) 1 =? 0) = Z.testbit b k.
Proof.
  intros. rewrite land_1, <-Z.bit0_mod, Z.shiftr_spec, Z.add_0_l by lia.
  by destruct (Z.testbit b k).
Qed.

Lemma bv_lookup v j b : bv_val v !! j = Some b → bv_bytes v !! j = Some b.
Proof. apply lookup_take_Some. Qed.

Lemma bv_val_lookup v i : bv_wf v → 0 ≤ i < bv_nbits v →
  ∃ b, bv_val v !! Z.to_nat (i / 8) = Some b.
Proof.
  intros Hw Hi. pose proof (bv_nbytes_range v Hw). pose proof (bv_val_length v Hw).
  apply lookup_lt_is_Some. assert (i / 8 < bv_nbytes v) by (apply Z.div_lt_upper_bound; lia).
  assert (0 ≤ i / 8) by (apply Z.div_pos; lia). lia.
Qed.

Lemma bv_get_bit_spec v i : bv_wf v → 0 ≤ i < bv_nbits v →
  bv_get_bit v i = Ok (Z.testbit (bv_num v) i).
Proof.
  intros Hw Hi. destruct (bv_val_lookup v i Hw Hi) as [b Hb].
  unfold bv_get_bit. rewrite (proj2 (Z.ltb_ge _ _)) by lia.
  rewrite (vget_Ok _ _ b); [|apply Z.div_pos; lia|by apply bv_lookup].
  cbn [mbind outcome_bind]. pose proof (Z.mod_pos_bound i 8). rewrite bit_test by lia.
  unfold bv_num. rewrite le_val_testbit by (lia || by apply bv_val_u8). by rewrite Hb.
Qed.

(** Setting a bit changes that bit. *)
Definition with_bit (b k : Z) (a : bool) : Z :=
  if a then Z.lor b (u8 (Z.shiftl 1 k)) else Z.land b (u8 (Z.lnot (Z.shiftl 1 k))).

Lemma with_bit_spec b k a i : 0 ≤ k < 8 → 0 ≤ i < 8 →
  Z.testbit (with_bit b k a) i = if i =? k then a else Z.testbit b i.
Proof.
  intros Hk Hi. unfold with_bit.
  destruct a; rewrite ?Z.lor_spec, ?Z.land_spec, testbit_u8, ?Z.lnot_spec by lia;
    rewrite Z.shiftl_1_l, Z.pow2_bits_eqb, (Z.eqb_sym k) by lia;
    destruct (i =? k), (Z.testbit b i); done.
Qed.

Lemma with_bit_u8 b k a : is_u8 b → is_u8 (with_bit b k a).
Proof.
  intros Hb. unfold with_bit.
  destruct a; [apply is_word_lor|apply is_word_land_r]; try apply is_u8_u8; try done; try lia.
Qed.

Lemma bv_set_bit_spec v i a : bv_wf v → 0 ≤ i < bv_nbits v →
  ∃ v', bv_set_bit v i a = Ok v' ∧ bv_wf v' ∧ bv_nbits v' = bv_nbits v ∧
        ∀ j, 0 ≤ j → Z.testbit (bv_num v') j = if j =? i then a =? 1 else Z.testbit (bv_num v) j.
Proof.
  intros Hw Hi. destruct (bv_val_lookup v i Hw Hi) as [b Hb]. pose proof (bv_bits v Hw).
  pose proof (bv_lookup _ _ _ Hb) as Hb'. pose proof (bv_val_u8 v Hw) as Hu.
  assert (0 ≤ i / 8) by (apply Z.div_pos; lia). pose proof (Z.mod_pos_bound i 8 ltac:(lia)).
  unfold bv_set_bit. rewrite u64_id, (proj2 (Z.leb_gt _ _)) by lia.
  rewrite (vget_Ok _ _ b) by done. cbn [mbind outcome_bind].
  change (Z.land i 7) with (Z.land i (Z.ones 3)). rewrite Z.land_ones by lia. change (2 ^ 3) with 8.
  rewrite (vset_Ok) by (apply lookup_lt_Some in Hb'; lia). cbn [mbind outcome_bind].
  replace (if a =? 1 then _ else _) with (with_bit b (i mod 8) (a =? 1)) by done.
  set (b' := with_bit b (i mod 8) (a =? 1)).
  assert (Hb8 : is_u8 b) by by eapply Forall_lookup_1.
  eexists. split; [done|].
  assert (Hw' : bv_wf (set_bytes v (<[Z.to_nat (i / 8):=b']> (bv_bytes v)))).
  { apply set_bytes_wf; [done|apply length_insert|]. apply Forall_insert; [apply Hw|by apply with_bit_u8]. }
  split; [done|]. split; [done|]. intros j Hj. unfold bv_num.
  rewrite !le_val_testbit by (done || by apply bv_val_u8). unfold bv_val at 1. cbn [set_bytes bv_bytes bv_nbytes].
  rewrite take_insert_lt by (apply lookup_lt_Some in Hb; pose proof (bv_val_length v Hw); lia).
  change (take _ (bv_bytes v)) with (bv_val v). pose proof (Z.mod_pos_bound j 8 ltac:(lia)).
  assert (0 ≤ j / 8) by (apply Z.div_pos; lia).
  destruct (decide (i / 8 = j / 8)) as [E|E].
  - rewrite <-E, list_lookup_insert_eq, Hb by by eapply lookup_lt_Some. cbn [from_option id].
    unfold b'. rewrite with_bit_spec by lia.
    pose proof (Z.div_mod i 8 ltac:(lia)). pose proof (Z.div_mod j 8 ltac:(lia)).
    destruct (Z.eqb_spec (j mod 8) (i mod 8)), (Z.eqb_spec j i); (done || (exfalso; lia || congruence)).
  - rewrite list_lookup_insert_ne by lia. destruct (Z.eqb_spec j i); [congruence|done].
Qed.

(** ** Streams *)
Lemma carries_bv `{Heap} v v0 : bv_wf v → bv_wf v0 →
  carries (bv_pack v) (λ r, '(v', r) ← bv_unpack v0 r; Ok ((bv_nbits v', bv_val v'), r))
    (bv_nbits v, bv_val v) (8 + bv_nbytes v).
Proof.
  intros Hw Hw0. pose proof (bv_nbytes_range v Hw). pose proof (bv_val_length v Hw) as Hl.
  pose proof (bv_bits v Hw).
  eapply carries_ext;
    [apply (carries_bind (λ w, store_int w (bv_nbits v) 8) (λ r, get_int r 8) (bv_nbits v) 8
      (λ w, os_append w (bv_val v))
      (λ n r, '(v', r) ← (v1 ← bv_resize v0 n; '(x, r) ← os_consume r (bv_nbytes v1);
                 b ← mem_write (bv_bytes v1) 0 x; Ok (set_bytes v1 b, r));
              Ok ((bv_nbits v', bv_val v'), r)) (bv_nbits v, bv_val v) (bv_nbytes v));
      [lia|lia|apply (carries_int 8); [lia|unfold is_word; cbn; lia]|]
    | | |lia].
  - destruct (bv_resize_spec v0 (bv_nbits v) Hw0 ltac:(lia)) as (v1 & E1 & Hw1 & Hn1 & _).
    assert (Hb1 : bv_nbytes v1 = bv_nbytes v).
    { rewrite (bv_size v1 Hw1), (bv_size v Hw). by rewrite Hn1. }
    rewrite E1. cbn [mbind outcome_bind]. rewrite Hb1, <-Hl.
    pose proof (carries_append (bv_val v) (bv_val_u8 v Hw)) as C.
    destruct (bv_write v1 0 (bv_val v) Hw1) as (b & Eb & Hwb & Hv); [lia|lia|by apply bv_val_u8|].
    apply (carries_map (λ x, (bv_nbits v, x))) in C; [|lia].
    intros w Hww Hwt Hwl. destruct (C w Hww Hwt Hwl) as (w' & Ew & Hw' & Ht' & Hl' & HF).
    exists w'. split_and!; [done..|]. intros F Hf. destruct (HF F Hf) as [Hf0 Hg]. split; [done|].
    intros r Hr. destruct (Hg r Hr) as (r' & Er & Hs). exists r'. split; [|done].
    destruct (os_consume r _) as [[x r1]| |]; [|done..]. cbn [mbind outcome_bind] in *.
    injection Er as -> ->. rewrite Eb. cbn [mbind outcome_bind]. cbn [set_bytes bv_nbits].
    rewrite Hn1, Hv. cbn [take app Z.to_nat Nat.add].
    rewrite drop_ge, app_nil_r by (pose proof (bv_val_length v1 Hw1); lia). done.
  - intros w. unfold bv_pack. destruct (store_int w (bv_nbits v) 8); [|done..]. cbn [mbind outcome_bind].
    rewrite (bv_read v 0) by (done || lia). rewrite drop_0, take_ge by lia. done.
  - intros r. unfold bv_unpack. destruct (get_int r 8) as [[n r1]| |]; [|done..].
    done.
Qed.

(** A bit vector that is packed, sent and unpacked into any other vector is the
    same vector, and the message is read to its end. *)
Theorem bitvector_roundtrip `{Heap} v v0 receiver rest : bv_wf v → bv_wf v0 → os_wf receiver →
  transmit_with (bv_pack v) (λ r, '(v', r) ← bv_unpack v0 r; Ok ((bv_nbits v', bv_val v'), r))
    receiver rest = Ok ((bv_nbits v, bv_val v), true, rest).
Proof.
  intros Hw Hw0 Hr. pose proof (bv_nbytes_range v Hw).
  apply (transmit_carries _ _ _ (8 + bv_nbytes v)); [by apply carries_bv|done|lia].
Qed.

(** ** Parity *)
Lemma popcnt_odd_S n x : popcnt_odd (S n) x = xorb (popcnt_odd n x) (Z.testbit x (Z.of_nat n)).
Proof. unfold popcnt_odd. rewrite seq_S, foldl_app. done. Qed.

Lemma popcnt_odd_add n m x :
  popcnt_odd (n + m) x = xorb (popcnt_odd n x) (popcnt_odd m (Z.shiftr x (Z.of_nat n))).
Proof.
  induction m as [|m IH]; [by rewrite Nat.add_0_r, xorb_false_r|].
  rewrite Nat.add_succ_r, !popcnt_odd_S, IH, Z.shiftr_spec, xorb_assoc by lia.
  do 3 f_equal. lia.
Qed.

Lemma popcnt_odd_lxor n x y : popcnt_odd n (Z.lxor x y) = xorb (popcnt_odd n x) (popcnt_odd n y).
Proof.
  induction n as [|n IH]; [done|]. rewrite !popcnt_odd_S, IH, Z.lxor_spec.
  by destruct (popcnt_odd n x), (popcnt_odd n y), (Z.testbit x _), (Z.testbit y _).
Qed.

Lemma popcnt_odd_ext n x y : (∀ i, 0 ≤ i < Z.of_nat n → Z.testbit x i = Z.testbit y i) →
  popcnt_odd n x = popcnt_odd n y.
Proof.
  induction n as [|n IH]; intros Hxy; [done|]. rewrite !popcnt_odd_S.
  f_equal; [apply IH; intros; apply Hxy; lia|apply Hxy; lia].
Qed.

(** Folding a word onto its half keeps its parity. *)
Lemma popcnt_odd_fold n x : popcnt_odd (n + n) x = popcnt_odd n (Z.lxor x (Z.shiftr x (Z.of_nat n))).
Proof. by rewrite popcnt_odd_add, popcnt_odd_lxor. Qed.

Lemma fold_word x :
  negb (Z.land (foldl (λ x i, Z.lxor x (Z.shiftr x (Z.shiftl 1 i))) x [5; 4; 3; 2; 1; 0]) 1 =? 0)
    = popcnt_odd 64 x.
Proof.
  change 64%nat with (32 + 32)%nat. rewrite popcnt_odd_fold. cbn [foldl].
  change 32%nat with (16 + 16)%nat. rewrite popcnt_odd_fold.
  change 16%nat with (8 + 8)%nat. rewrite popcnt_odd_fold.
  change 8%nat with (4 + 4)%nat. rewrite popcnt_odd_fold.
  change 4%nat with (2 + 2)%nat. rewrite popcnt_odd_fold.
  change 2%nat with (1 + 1)%nat. rewrite popcnt_odd_fold.
  match goal with |- negb (Z.land ?a 1 =? 0) = popcnt_odd 1 ?b =>
    change b with a; generalize a as y end.
  intros y. rewrite popcnt_odd_S. change (popcnt_odd 0 y) with false. rewrite xorb_false_l.
  change (Z.of_nat 0) with 0. rewrite <-(bit_test y 0) by done. by rewrite Z.shiftr_0_r.
Qed.

(** One word, one octet of a vector. *)
Lemma bv_get_word_bits v i : bv_wf v → 0 ≤ i → 8 * i + 8 ≤ bv_nbytes v →
  ∃ x, bv_get_word v i = Ok x ∧ popcnt_odd 64 x = popcnt_odd 64 (Z.shiftr (bv_num v) (64 * i)).
Proof.
  intros Hw Hi Hl. unfold bv_get_word. rewrite bv_read by (done || lia). cbn [mbind outcome_bind].
  eexists. split; [done|]. apply popcnt_odd_ext. intros k Hk.
  pose proof (bv_val_u8 v Hw) as Hu. pose proof (bv_val_length v Hw).
  assert (0 ≤ k / 8 < 8) by (split; [apply Z.div_pos; lia|apply Z.div_lt_upper_bound; lia]).
  rewrite Z.shiftr_spec by lia. unfold bv_num. rewrite !le_val_testbit by (lia || (done || by apply Forall_take, Forall_drop)).
  replace (k + 64 * i) with (k + (8 * i) * 8) by lia. rewrite Z.mod_add, Z.div_add by lia.
  f_equal. f_equal. rewrite lookup_take_lt, lookup_drop by lia. f_equal. lia.
Qed.

Lemma bv_octet_bits v i : bv_wf v → 0 ≤ i < bv_nbytes v →
  ∃ b, vget (bv_bytes v) i = Ok b ∧ popcnt_odd 32 b = popcnt_odd 8 (Z.shiftr (bv_num v) (8 * i)).
Proof.
  intros Hw Hi. pose proof (bv_val_u8 v Hw) as Hu. pose proof (bv_val_length v Hw).
  destruct (lookup_lt_is_Some_2 (bv_val v) (Z.to_nat i)) as [b Hb]; [lia|].
  exists b. split; [apply vget_Ok; [lia|by apply bv_lookup]|].
  assert (Hb8 : is_u8 b) by by eapply Forall_lookup_1.
  change 32%nat with (8 + 24)%nat. rewrite popcnt_odd_add.
  assert (Z.shiftr b (Z.of_nat 8) = 0) as ->.
  { rewrite Z.shiftr_div_pow2 by lia. apply Z.div_small. done. }
  rewrite xorb_false_r. apply popcnt_odd_ext. intros k Hk.
  rewrite Z.shiftr_spec by lia. unfold bv_num. rewrite le_val_testbit by (done || lia).
  replace (k + 8 * i) with (k + i * 8) by lia. rewrite Z.mod_add, Z.div_add by lia.
  rewrite Z.div_small, Z.mod_small, Z.add_0_l, Hb by lia. done.
Qed.

(** A loop that accumulates parities. *)
Lemma parity_loop (f : Z → outcome bool) num w a n :
  0 < w → 0 ≤ a → 0 ≤ n →
  (∀ i, a ≤ i < a + n → f i = Ok (popcnt_odd (Z.to_nat w) (Z.shiftr num (w * i)))) →
  foldM (λ res i, b ← f i; Ok (xorb res b)) (popcnt_odd (Z.to_nat (w * a)) num) (seqZ a n)
    = Ok (popcnt_odd (Z.to_nat (w * (a + n))) num).
Proof.
  intros Hw Ha Hn. revert a Ha. pattern n. apply natlike_ind; [|clear n Hn|exact Hn].
  - intros a Ha _. by rewrite Z.add_0_r.
  - intros n Hn IH a Ha Hf. rewrite seqZ_cons by lia. cbn [foldM]. rewrite Hf by lia.
    cbn [mbind outcome_bind]. rewrite Z.pred_succ.
    replace (xorb _ _) with (popcnt_odd (Z.to_nat (w * Z.succ a)) num).
    + rewrite IH by (lia || (intros; apply Hf; lia)). do 3 f_equal. lia.
    + replace (Z.to_nat (w * Z.succ a)) with (Z.to_nat (w * a) + Z.to_nat w)%nat by lia.
      rewrite popcnt_odd_add. do 3 f_equal. lia.
Qed.

(** The loop over words of both branches. *)
Lemma parity_words (f : Z → bool) v : bv_wf v → (∀ x, f x = popcnt_odd 64 x) →
  foldM (λ res i, x ← bv_get_word v i; Ok (xorb res (f x))) false (seqZ 0 (bv_nbytes v / 8))
    = Ok (popcnt_odd (Z.to_nat (64 * (bv_nbytes v / 8))) (bv_num v)).
Proof.
  intros Hw Hf. pose proof (bv_nbytes_range v Hw).
  pose proof (Z.div_mod (bv_nbytes v) 8 ltac:(lia)). pose proof (Z.mod_pos_bound (bv_nbytes v) 8 ltac:(lia)).
  rewrite (foldM_ext _ (λ res i, b ← (x ← bv_get_word v i; Ok (f x)); Ok (xorb res b)))
    by (intros ? i; by destruct (bv_get_word v i)).
  pose proof (parity_loop (λ i, x ← bv_get_word v i; Ok (f x)) (bv_num v) 64 0 (bv_nbytes v / 8)) as E.
  change (popcnt_odd (Z.to_nat (64 * 0)) (bv_num v)) with false in E. rewrite Z.add_0_l in E.
  apply E; [lia|lia|apply Z.div_pos; lia|].
  intros i Hi. destruct (bv_get_word_bits v i Hw ltac:(lia) ltac:(lia)) as (x & -> & Ex).
  cbn. by rewrite Hf, Ex.
Qed.

(** Both branches of [parity] are the parity of the bits of the vector's octets
    when these fill whole words; with [popcnt] instructions that is so for every
    size. *)
Theorem parity_correct v : bv_wf v →
  let p := popcnt_odd (Z.to_nat (8 * bv_nbytes v)) (bv_num v) in
  parity_popcnt v = Ok p ∧ (bv_nbytes v mod 8 = 0 → parity_portable v = Ok p).
Proof.
  intros Hw p. pose proof (bv_nbytes_range v Hw). set (n := bv_nbytes v) in *.
  pose proof (Z.div_mod n 8 ltac:(lia)). pose proof (Z.mod_pos_bound n 8 ltac:(lia)).
  assert (0 ≤ n / 8) by (apply Z.div_pos; lia).
  assert (Hu : u32 (bv_nbytes v) = n) by (apply Z.mod_small; lia).
  split; [unfold parity_popcnt|intros Hm; unfold parity_portable]; rewrite Hu.
  - rewrite (parity_words (popcnt_odd 64)) by done. cbn [mbind outcome_bind].
    rewrite (foldM_ext _ (λ res i, b ← (b ← vget (bv_bytes v) i; Ok (popcnt_odd 32 b)); Ok (xorb res b)))
      by (intros ? i; by destruct (vget (bv_bytes v) i)).
    fold n. replace (64 * (n / 8)) with (8 * (n / 8 * 8)) by lia.
    rewrite (parity_loop (λ i, b ← vget (bv_bytes v) i; Ok (popcnt_odd 32 b)) (bv_num v) 8
      (n / 8 * 8) (n - n / 8 * 8)); [|lia..|].
    2: { intros i Hi. destruct (bv_octet_bits v i Hw ltac:(fold n; lia)) as (b & -> & E). cbn [mbind outcome_bind]. by rewrite E. }
    unfold p. do 3 f_equal. lia.
  - rewrite (parity_words (λ x, negb (Z.land (foldl (λ x i, Z.lxor x (Z.shiftr x (Z.shiftl 1 i))) x
      [5; 4; 3; 2; 1; 0]) 1 =? 0))) by (done || apply fold_word).
    cbn [mbind outcome_bind]. fold n. replace (n - n / 8 * 8) with 0 by lia. rewrite (seqZ_nil _ 0) by lia. cbn [foldM].
    unfold p. do 3 f_equal. lia.
Qed.

(** The other branch takes the octets after the last word for bit numbers. *)
Lemma parity_portable_wrong :
  let v := mkBv [2] 1 8 in parity_popcnt v = Ok true ∧ parity_portable v = Ok false.
Proof. done. Qed.

(** ** Instances *)
Definition sample_bv : BitVector := mkBv [5; 3] 2 12.

Lemma sample_bv_wf : bv_wf sample_bv.
Proof. split; cbn; [lia|done|lia|]. repeat constructor; unfold is_word; cbn; lia. Qed.

Lemma bitvector_roundtrip_witness :
  transmit_with (bv_pack sample_bv)
    (λ r, '(v', r) ← bv_unpack sample_bv r; Ok ((bv_nbits v', bv_val v'), r)) os_new [7]
    = Ok ((12, [5; 3]), true, [7]).
Proof. apply (bitvector_roundtrip sample_bv sample_bv os_new [7]); [apply sample_bv_wf..|apply os_new_wf]. Defined.

Lemma parity_correct_witness : parity_popcnt sample_bv = Ok false.
Proof. apply (parity_correct sample_bv sample_bv_wf). Defined.
