(* ===== verification/Square128.v ===== *)
(** * Squares of 128 by 128 bits

    [square128] of [OT/BitMatrix.h] and [Math/square128.cpp]: the transposition with
    byte shuffles and sign masks, for SSE and for AVX2, and the operations on
    rows. *)

From S2P Require Import Prelude Memory OctetStream OctetProps Xor Block Aes YaoKey Random BitVector.

(** ** Shuffles of bytes

    They do not look at the bytes, so they are written for cells of any type; a
    register is the list of its cells, the first one the least significant. *)
Fixpoint chunks {A} (n : nat) (k : nat) (l : list A) : list (list A) :=
  match n with
  | O => []
  | S n => take k l :: chunks n k (drop k l)
  end.

Section shuffles.
Context {A : Type}.
Implicit Types (a b : list A) (rows : list (list A)).

(** [_mm_unpacklo_epi##I], [_mm_unpackhi_epi##I] *)
Definition unpacklo (I : nat) a b : list A :=
  mjoin (zip_with (++) (chunks (64 / I) (I / 8) (take 8 a)) (chunks (64 / I) (I / 8) (take 8 b))).
Definition unpackhi (I : nat) a b : list A :=
  mjoin (zip_with (++) (chunks (64 / I) (I / 8) (drop 8 a)) (chunks (64 / I) (I / 8) (drop 8 b))).

(** [_mm256_unpacklo_epi##I], on both halves of the register. *)
Definition unpacklo256 (I : nat) a b : list A :=
  unpacklo I (take 16 a) (take 16 b) ++ unpacklo I (drop 16 a) (drop 16 b).
Definition unpackhi256 (I : nat) a b : list A :=
  unpackhi I (take 16 a) (take 16 b) ++ unpackhi I (drop 16 a) (drop 16 b).

(** [X(I)] *)
Definition X (I base : nat) rows : list (list A) :=
  let J := (I / 4)%nat in
  foldl (λ rows i,
    foldl (λ rows j,
        let a := (base + J * i + j)%nat in
        let b := (a + J / 2)%nat in
        let tmp := unpacklo I (rows !!! a) (rows !!! b) in
        let rows := <[b := unpackhi I (rows !!! a) (rows !!! b)]> rows in
        <[a := tmp]> rows)
      rows (seq 0 (J / 2)))
    rows (seq 0 (16 / J)).

(** [doublerows], the other view of the union. *)
Definition doublerow rows (d : nat) : list A := rows !!! (2 * d)%nat ++ rows !!! (2 * d + 1)%nat.
Definition set_doublerow rows (d : nat) (x : list A) : list (list A) :=
  <[(2 * d + 1)%nat := drop 16 x]> (<[(2 * d)%nat := take 16 x]> rows).

(** [Z(I)] *)
Definition Zd (I base : nat) rows : list (list A) :=
  let J := (I / 8)%nat in
  foldl (λ rows i,
    foldl (λ rows j,
        let a := (base + J * i + j)%nat in
        let b := (a + J / 2)%nat in
        let tmp := unpacklo256 I (doublerow rows a) (doublerow rows b) in
        let rows := set_doublerow rows b (unpackhi256 I (doublerow rows a) (doublerow rows b)) in
        set_doublerow rows a tmp)
      rows (seq 0 (J / 2)))
    rows (seq 0 (16 / J)).

Definition perm : list nat := [0; 8; 4; 12; 2; 10; 6; 14; 1; 9; 5; 13; 3; 11; 7; 15]%nat.
Definition perm2 : list nat := [0; 4; 2; 6; 1; 5; 3; 7; 8; 12; 10; 14; 9; 13; 11; 15]%nat.

(** The first loop of [square128::transpose] without AVX2: the shuffled rows and
    [tmp], which starts unspecified. *)
Definition shuffle_sse (rows tmp : list (list A)) : list (list A) * list (list A) :=
  foldl (λ '(rows, tmp) k,
      let base := (k * 16)%nat in
      let rows := X 64 base (X 32 base (X 16 base (X 8 base rows))) in
      (rows, foldl (λ tmp i, <[(base + i)%nat := rows !!! (base + perm !!! i)%nat]> tmp) tmp (seq 0 16)))
    (rows, tmp) (seq 0 8).

(** ... and with AVX2. *)
Definition shuffle_avx (rows tmp : list (list A)) : list (list A) * list (list A) :=
  foldl (λ '(rows, tmp) k,
      let base := (k * 16 * 2)%nat in
      let rows := X 8 (base + 16) (X 8 base rows) in
      let base := (k * 16)%nat in
      let rows := Zd 64 base (Zd 32 base (Zd 16 base rows)) in
      let rows := foldl (λ rows i,
          let a := (base + i)%nat in
          let b := (a + 8)%nat in
          let tmp := rows !!! (2 * b)%nat in
          let rows := <[(2 * b)%nat := rows !!! (2 * a + 1)%nat]> rows in
          <[(2 * a + 1)%nat := tmp]> rows) rows (seq 0 8) in
      (rows, foldl (λ tmp i, set_doublerow tmp (base + i) (doublerow rows (base + perm2 !!! i))) tmp
               (seq 0 16)))
    (rows, tmp) (seq 0 4).

(** The second loop writes the cell [val x y j] to row [8 * x + 7 - j], column [y]. *)
Definition write_masks (n : nat) (val : nat → nat → nat → A) (out : list (list A)) : list (list A) :=
  foldl (λ out i,
    foldl (λ out k,
      foldl (λ out j,
          let r := (8 * i + 7 - j)%nat in
          <[r := <[k := val i k j]> (out !!! r)]> out) out (seq 0 8))
      out (seq 0 n))
    out (seq 0 16).
End shuffles.

(** ** Bits *)

(** [_mm_movemask_epi8] and [_mm256_movemask_epi8]: the top bits of the bytes. *)
Fixpoint movemask (l : list Z) : Z :=
  match l with [] => 0 | b :: l => b2z (Z.testbit b 7) + 2 * movemask l end.

(** [_mm_slli_epi64(whole, 1)] and its 256-bit form. *)
Definition slli1 (l : list Z) : list Z :=
  mjoin ((λ lane, le_bytes 8 (Z.shiftl (le_val lane) 1)) <$> chunks (length l / 8) 8 l).

(** The masks of [matrix16x8::transpose] and [matrix32x8::transpose]. *)
Definition masks (whole : list Z) (j : nat) : Z := movemask (Nat.iter j slli1 whole).

(** ** The class

    The rows as 128-bit words; [bytes], [doublebytes] and [words] are views of them. *)
Abbreviation square128 := (list Key).

Definition sq_bytes (s : square128) : list (list Z) := le_bytes 16 <$> s.
Definition cells (w n : nat) (s : square128) : list (list Z) :=
  (λ row, (λ c, (Z.shiftr row (Z.of_nat (w * c))) mod (2 ^ Z.of_nat w)) <$> seq 0 n) <$> s.
Definition of_cells (w : nat) (m : list (list Z)) : square128 :=
  (λ row, foldr (λ x acc, x + 2 ^ Z.of_nat w * acc) 0 row) <$> m.

Definition get_bit (s : square128) (x y : nat) : bool :=
  Z.testbit ((sq_bytes s !!! x) !!! (y / 8)%nat) (Z.of_nat (y mod 8)).

(** [transpose]; [junk] is what [tmp] holds at first. *)
Definition transpose_sse (junk : list (list Z)) (s : square128) : square128 :=
  let '(rows, tmp) := shuffle_sse (sq_bytes s) junk in
  of_cells 16 (write_masks 8 (λ x y j, masks (tmp !!! (y * 16 + x)%nat) j) (cells 16 8 (le_val <$> rows))).

Definition transpose_avx (junk : list (list Z)) (s : square128) : square128 :=
  let '(rows, tmp) := shuffle_avx (sq_bytes s) junk in
  of_cells 32 (write_masks 4 (λ x y j, masks (doublerow tmp (y * 16 + x)) j)
                 (cells 32 4 (le_val <$> rows))).

(** ** Rows *)
Definition set_zero (s : square128) : square128 := replicate 128 0.
Definition xor_square (s other : square128) : square128 := zip_with Z.lxor s other.
Definition xor_value (s : square128) (value : Key) : square128 := (λ r, Z.lxor r value) <$> s.
Definition sq_eq (s other : square128) : bool := forallb (λ '(a, b), a =? b) (zip s other).

(** [add], [sub] and [rsub] are all [^=]. *)
Definition sq_add := xor_square.
Definition sq_sub := xor_square.
Definition sq_rsub := xor_square.

Definition conditional_add (s : square128) (conditions : BitVector) (other : square128) (offset : Z)
    : outcome square128 :=
  foldM (λ s i,
      b ← bv_get_bit conditions (128 * offset + i);
      if b : bool then
        r ← vget s i; o ← vget other i; vset s i (Z.lxor r o)
      else Ok s) s (seqZ 0 128).

Definition randomize_row (s : square128) (row : Z) (G : PRNG) : outcome (square128 * PRNG) :=
  '(x, G) ← prng_get_doubleword G; s ← vset s row x; Ok (s, G).

Definition sq_pack `{Heap} (s : square128) (o : octetStream) : outcome octetStream :=
  os_append o (mjoin (sq_bytes s)).
Definition sq_unpack (s : square128) (o : octetStream) : outcome (square128 * octetStream) :=
  '(x, o) ← os_consume o (128 * 16);
  Ok (le_val <$> chunks 128 16 x, o).

(** ** Shuffles act on positions

    A shuffle of renamed cells is the renamed shuffle, so that one computation on
    positions describes it on every content. *)
Definition rows_map {A B} (f : A → B) (m : list (list A)) : list (list B) :=
  fmap (M:=list) (fmap (M:=list) f) m.

Section naturality.
Context {A B : Type} (f : A → B).

Lemma foldl_natural {S T I} (h : S → T) (g : S → I → S) (g' : T → I → T) s l :
  (∀ s i, g' (h s) i = h (g s i)) → foldl g' (h s) l = h (foldl g s l).
Proof. intros Hg. revert s. induction l as [|i l IH]; intros s; cbn; [done|]. by rewrite Hg, IH. Qed.

Lemma chunks_fmap n k (l : list A) : chunks n k (f <$> l) = rows_map f (chunks n k l).
Proof.
  revert l. induction n as [|n IH]; intros l; [done|]. cbn [chunks].
  rewrite <-fmap_take, <-fmap_drop, IH. done.
Qed.

Lemma zip_app_fmap (l1 l2 : list (list A)) :
  zip_with (++) (rows_map f l1) (rows_map f l2) = rows_map f (zip_with (++) l1 l2).
Proof.
  revert l2. induction l1 as [|a l1 IH]; intros [|b l2]; [done..|].
  unfold rows_map in *. cbn. rewrite IH. f_equal. symmetry. apply fmap_app.
Qed.

Lemma join_rows_map (m : list (list A)) : mjoin (rows_map f m) = f <$> mjoin m.
Proof. induction m as [|r m IH]; [done|]. change (mjoin (rows_map f (r :: m))) with ((f <$> r) ++ mjoin (rows_map f m)).
  change (mjoin (r :: m)) with (r ++ mjoin m). by rewrite fmap_app, IH.
Qed.

Lemma unpacklo_fmap I (a b : list A) : unpacklo I (f <$> a) (f <$> b) = f <$> unpacklo I a b.
Proof. unfold unpacklo. by rewrite <-!fmap_take, !chunks_fmap, zip_app_fmap, join_rows_map. Qed.

Lemma unpackhi_fmap I (a b : list A) : unpackhi I (f <$> a) (f <$> b) = f <$> unpackhi I a b.
Proof. unfold unpackhi. by rewrite <-!fmap_drop, !chunks_fmap, zip_app_fmap, join_rows_map. Qed.

Lemma row_fmap (rows : list (list A)) i : (rows_map f rows) !!! i = f <$> rows !!! i.
Proof.
  unfold rows_map. rewrite !list_lookup_total_alt, list_lookup_fmap. by destruct (rows !! i).
Qed.

Lemma set_row_fmap (rows : list (list A)) i x :
  <[i := f <$> x]> (rows_map f rows) = rows_map f (<[i := x]> rows).
Proof. unfold rows_map. by rewrite list_fmap_insert. Qed.

Lemma X_fmap I base (rows : list (list A)) : X I base (rows_map f rows) = rows_map f (X I base rows).
Proof.
  unfold X. apply foldl_natural. intros s i. apply foldl_natural. intros s' j. cbv zeta.
  by rewrite !row_fmap, unpacklo_fmap, unpackhi_fmap, !set_row_fmap.
Qed.

Lemma doublerow_fmap (rows : list (list A)) d : doublerow (rows_map f rows) d = f <$> doublerow rows d.
Proof. unfold doublerow. by rewrite !row_fmap, fmap_app. Qed.

Lemma set_doublerow_fmap (rows : list (list A)) d x :
  set_doublerow (rows_map f rows) d (f <$> x) = rows_map f (set_doublerow rows d x).
Proof. unfold set_doublerow. by rewrite <-fmap_take, <-fmap_drop, !set_row_fmap. Qed.

Lemma unpack256_fmap I (a b : list A) :
  unpacklo256 I (f <$> a) (f <$> b) = f <$> unpacklo256 I a b ∧
  unpackhi256 I (f <$> a) (f <$> b) = f <$> unpackhi256 I a b.
Proof.
  unfold unpacklo256, unpackhi256.
  by rewrite <-!fmap_take, <-!fmap_drop, !unpacklo_fmap, !unpackhi_fmap, !fmap_app.
Qed.

Lemma Zd_fmap I base (rows : list (list A)) : Zd I base (rows_map f rows) = rows_map f (Zd I base rows).
Proof.
  unfold Zd. apply foldl_natural. intros s i. apply foldl_natural. intros s' j. cbv zeta.
  rewrite !doublerow_fmap, (proj1 (unpack256_fmap _ _ _)), (proj2 (unpack256_fmap _ _ _)).
  by rewrite !set_doublerow_fmap.
Qed.

Definition both (p : list (list A) * list (list A)) := (rows_map f p.1, rows_map f p.2).

Lemma shuffle_sse_fmap (rows tmp : list (list A)) :
  shuffle_sse (rows_map f rows) (rows_map f tmp) = both (shuffle_sse rows tmp).
Proof.
  unfold shuffle_sse. apply (foldl_natural both _ _ (rows, tmp)). intros [s t] k. cbv zeta. unfold both; cbn [fst snd].
  rewrite !X_fmap. f_equal. apply foldl_natural. intros t' i. by rewrite row_fmap, set_row_fmap.
Qed.

Lemma shuffle_avx_fmap (rows tmp : list (list A)) :
  shuffle_avx (rows_map f rows) (rows_map f tmp) = both (shuffle_avx rows tmp).
Proof.
  unfold shuffle_avx. apply (foldl_natural both _ _ (rows, tmp)). intros [s t] k. cbv zeta. unfold both; cbn [fst snd].
  rewrite !X_fmap, !Zd_fmap.
  match goal with |- (foldl ?g (rows_map f ?s) ?l, _) = (rows_map f (foldl ?g' ?s' ?l'), _) =>
    rewrite (foldl_natural (rows_map f) g' g s' l)
      by (intros s'' i; cbv zeta; by rewrite !row_fmap, !set_row_fmap) end.
  f_equal. apply foldl_natural. intros t' i. by rewrite doublerow_fmap, set_doublerow_fmap.
Qed.

Lemma write_masks_fmap n val (out : list (list A)) :
  write_masks n (λ x y j, f (val x y j)) (rows_map f out) = rows_map f (write_masks n val out).
Proof.
  unfold write_masks. apply foldl_natural. intros s i. apply foldl_natural. intros s' k.
  apply foldl_natural. intros s'' j. cbv zeta.
  by rewrite row_fmap, <-list_fmap_insert, set_row_fmap.
Qed.
End naturality.

(** ** Where every byte goes *)
Definition index (b : bool) (r c : nat) : list (list (bool * nat * nat)) :=
  (λ i, (λ j, (b, i, j)) <$> seq 0 c) <$> seq 0 r.

Definition shape {A} (r c : nat) (m : list (list A)) : Prop :=
  length m = r ∧ Forall (λ row, length row = c) m.

(** The cell at a position of one of two matrices. *)
Definition cell_at {A} `{Inhabited A} (m m' : list (list A)) (p : bool * nat * nat) : A :=
  let '(b, i, j) := p in ((if b then m else m') !!! i) !!! j.

Lemma rows_index {A} `{Inhabited A} (m m' : list (list A)) (b : bool) r c :
  shape r c (if b then m else m') → (if b then m else m') = rows_map (cell_at m m') (index b r c).
Proof.
  set (l := if b then m else m'). intros [Hr Hc]. apply (list_eq_same_length _ _ r); [|done|].
  { unfold rows_map, index. by rewrite !length_fmap, length_seq. }
  intros i x y Hi Hx. unfold rows_map, index. rewrite !list_lookup_fmap, lookup_seq_lt by done.
  cbn [fmap option_fmap option_map]. intros [= <-].
  pose proof (Forall_lookup_1 _ _ _ _ Hc Hx) as Hl. cbn in Hl.
  apply (list_eq_same_length _ _ c); [by rewrite !length_fmap, length_seq|done|].
  intros j u v Hj Hu. rewrite !list_lookup_fmap, lookup_seq_lt by done.
  cbn [fmap option_fmap option_map]. intros [= <-]. unfold cell_at. fold l.
  rewrite (list_lookup_total_correct l i x) by done. by rewrite (list_lookup_total_correct x j u).
Qed.

(** Row [16 * k + i] of [tmp] collects byte [i] of the rows [16 * k] to
    [16 * k + 15]. *)
Lemma shuffle_sse_index : (shuffle_sse (index true 128 16) (index false 128 16)).2
  = (λ r : nat, (λ l : nat, (true, (16 * (r / 16) + l)%nat, (r mod 16)%nat)) <$> seq 0 16) <$> seq 0 128.
Proof. by vm_compute. Qed.

(** Double row [16 * k + i] collects byte [i] of the rows [32 * k] to [32 * k + 31]. *)
Lemma shuffle_avx_index :
  doublerow (shuffle_avx (index true 128 16) (index false 128 16)).2 <$> seq 0 64
  = (λ d : nat, (λ l : nat, (true, (32 * (d / 16) + l)%nat, (d mod 16)%nat)) <$> seq 0 32) <$> seq 0 64.
Proof. by vm_compute. Qed.

(** The masks that end up in the output, by their arguments. *)
Lemma write_masks_index n : (n = 8 ∨ n = 4)%nat →
  write_masks n (λ x y j, inr (x, y, j)) (rows_map inl (index false 128 n))
  = (λ r : nat, (λ y : nat, inr ((r / 8)%nat, y, (7 - r mod 8)%nat)) <$> seq 0 n) <$> seq 0 128.
Proof. intros [-> | ->]; by vm_compute. Qed.

Lemma write_masks_spec {A} `{Inhabited A} n (val : nat → nat → nat → A) out :
  (n = 8 ∨ n = 4)%nat → shape 128 n out →
  write_masks n val out
  = (λ r : nat, (λ y : nat, val (r / 8)%nat y (7 - r mod 8)%nat) <$> seq 0 n) <$> seq 0 128.
Proof.
  intros Hn Ho. set (f := λ c : bool * nat * nat + nat * nat * nat,
    match c with inl p => cell_at out out p | inr (x, y, j) => val x y j end).
  rewrite (rows_index out out false 128 n Ho).
  change (cell_at out out) with (λ p, f (inl p)).
  transitivity (rows_map f (write_masks n (λ x y j, inr (x, y, j)) (rows_map inl (index false 128 n)))).
  - rewrite <-write_masks_fmap. f_equal. unfold rows_map. rewrite <-list_fmap_compose.
    apply list_fmap_ext. intros i row _. unfold compose. by rewrite <-list_fmap_compose.
  - rewrite write_masks_index by done. unfold rows_map. rewrite <-list_fmap_compose.
    apply list_fmap_ext. intros i r _. unfold compose. by rewrite <-list_fmap_compose.
Qed.

(** ** The bits of bytes, masks and cells *)
Lemma le_bytes_testbit n x i k : (i < n)%nat → 0 ≤ k < 8 →
  Z.testbit (le_bytes n x !!! i) k = Z.testbit x (8 * Z.of_nat i + k).
Proof.
  revert x i. induction n as [|n IH]; intros x i Hi Hk; [lia|]. destruct i as [|i]; cbn [le_bytes].
  - change ((u8 x :: _) !!! 0%nat) with (u8 x). rewrite testbit_u8 by lia. done.
  - change ((u8 x :: le_bytes n (Z.shiftr x 8)) !!! S i) with (le_bytes n (Z.shiftr x 8) !!! i).
    rewrite IH, Z.shiftr_spec by lia. f_equal. lia.
Qed.

Lemma movemask_testbit l (i : nat) : (i < length l)%nat →
  Z.testbit (movemask l) (Z.of_nat i) = Z.testbit (l !!! i) 7.
Proof.
  revert i. induction l as [|b l IH]; intros i Hi; cbn in Hi; [lia|]. cbn [movemask].
  destruct i as [|i].
  - change ((b :: l) !!! 0%nat) with b. rewrite Z.add_comm. change (Z.of_nat 0) with 0.
    destruct (Z.testbit b 7); cbn [b2z]; [apply Z.testbit_odd_0|rewrite Z.add_0_r; apply Z.testbit_even_0].
  - change ((b :: l) !!! S i) with (l !!! i). rewrite <-IH by lia. rewrite Z.add_comm, Nat2Z.inj_succ.
    destruct (Z.testbit b 7); cbn [b2z]; [|rewrite Z.add_0_r];
      [apply Z.testbit_odd_succ|apply Z.testbit_even_succ]; lia.
Qed.

Lemma movemask_word l : is_word (Z.of_nat (length l)) (movemask l).
Proof.
  unfold is_word. induction l as [|b l IH]; cbn [movemask length]; [done|].
  rewrite Nat2Z.inj_succ, Z.pow_succ_r by lia. destruct (Z.testbit b 7); cbn [b2z]; lia.
Qed.

(** Cells of [w] bits next to each other. *)
Lemma of_cells_testbit (w : nat) row (y : nat) l : Forall (is_word (Z.of_nat w)) row →
  (y < length row)%nat → 0 ≤ l < Z.of_nat w →
  Z.testbit (foldr (λ x acc, x + 2 ^ Z.of_nat w * acc) 0 row) (Z.of_nat w * Z.of_nat y + l)
    = Z.testbit (row !!! y) l.
Proof.
  intros Hr. revert y. induction Hr as [|x row Hx Hr IH]; intros y Hy Hl; cbn in Hy; [lia|].
  cbn [foldr]. unfold is_word in Hx. set (acc := foldr _ 0 row) in *. destruct y as [|y].
  - change ((x :: row) !!! 0%nat) with x. rewrite Z.mul_0_r, Z.add_0_l.
    rewrite <-(Z.mod_pow2_bits_low (x + 2 ^ Z.of_nat w * acc) (Z.of_nat w)) by lia.
    rewrite (Z.mul_comm (2 ^ _)), Z.mod_add, Z.mod_small by lia. done.
  - change ((x :: row) !!! S y) with (row !!! y). rewrite <-IH by lia.
    replace (Z.of_nat w * Z.of_nat (S y) + l) with (Z.of_nat w * Z.of_nat y + l + Z.of_nat w) by lia.
    rewrite <-Z.div_pow2_bits by lia.
    by rewrite (Z.mul_comm (2 ^ _)), Z.div_add, Z.div_small, Z.add_0_l by lia.
Qed.

Lemma of_cells_word (w : nat) row : Forall (is_word (Z.of_nat w)) row →
  is_word (Z.of_nat w * Z.of_nat (length row)) (foldr (λ x acc, x + 2 ^ Z.of_nat w * acc) 0 row).
Proof.
  unfold is_word. induction 1 as [|x row Hx _ IH]; cbn [foldr length].
  - rewrite Z.mul_0_r. done.
  - replace (Z.of_nat w * Z.of_nat (S (length row))) with (Z.of_nat w + Z.of_nat w * Z.of_nat (length row)) by lia.
    rewrite Z.pow_add_r by lia. set (acc := foldr _ 0 row) in *. nia.
Qed.

(** ** Shifts of the sign bits *)
Definition lanes (m : nat) (l : list Z) : Prop := length l = (8 * m)%nat ∧ Forall is_u8 l.

Lemma le_val_lookup_bit l i k : Forall is_u8 l → (i < length l)%nat → 0 ≤ k < 8 →
  Z.testbit (le_val l) (8 * Z.of_nat i + k) = Z.testbit (l !!! i) k.
Proof.
  intros Hu Hi Hk. rewrite le_val_testbit by (done || lia).
  replace ((8 * Z.of_nat i + k) / 8) with (Z.of_nat i) by (apply Z.div_unique with k; lia).
  replace ((8 * Z.of_nat i + k) mod 8) with k by (apply Z.mod_unique with (Z.of_nat i); lia).
  rewrite Nat2Z.id. destruct (lookup_lt_is_Some_2 l i Hi) as [b Hb].
  by rewrite Hb, (list_lookup_total_correct _ _ _ Hb).
Qed.

Lemma lane_shift lane i k : length lane = 8%nat → Forall is_u8 lane → (i < 8)%nat → 1 ≤ k < 8 →
  Z.testbit (le_bytes 8 (Z.shiftl (le_val lane) 1) !!! i) k = Z.testbit (lane !!! i) (k - 1).
Proof.
  intros Hl Hu Hi Hk. rewrite le_bytes_testbit, Z.shiftl_spec by lia.
  rewrite <-le_val_lookup_bit by (done || lia). f_equal. lia.
Qed.

Lemma slli1_cons lane l m : length lane = 8%nat → length l = (8 * m)%nat →
  slli1 (lane ++ l) = le_bytes 8 (Z.shiftl (le_val lane) 1) ++ slli1 l.
Proof.
  intros Hl Hm. unfold slli1. rewrite length_app, Hl, Hm.
  replace ((8 + 8 * m) / 8)%nat with (S m) by (apply Nat.div_unique with 0%nat; lia).
  replace ((8 * m) / 8)%nat with m by (apply Nat.div_unique with 0%nat; lia).
  cbn [chunks fmap list_fmap]. by rewrite take_app_length', drop_app_length' by done.
Qed.

Lemma slli1_spec m l : lanes m l → lanes m (slli1 l) ∧
  ∀ i k, (i < 8 * m)%nat → 1 ≤ k < 8 → Z.testbit (slli1 l !!! i) k = Z.testbit (l !!! i) (k - 1).
Proof.
  revert l. induction m as [|m IH]; intros l [Hl Hu].
  - destruct l; [|done]. split; [by split|]. lia.
  - rewrite <-(take_drop 8 l). set (lane := take 8 l). set (r := drop 8 l).
    assert (Hlane : length lane = 8%nat) by (unfold lane; rewrite length_take; lia).
    assert (Hr : lanes m r).
    { split; [unfold r; rewrite length_drop; lia|]. by apply Forall_drop. }
    rewrite (slli1_cons lane r m Hlane) by apply Hr. destruct (IH r Hr) as [[Hl' Hu'] Hb].
    assert (Hul : Forall is_u8 lane) by by apply Forall_take.
    split.
    + split; [rewrite length_app, le_bytes_length; lia|]. apply Forall_app. split; [apply le_bytes_u8|done].
    + intros i k Hi Hk. destruct (decide (i < 8)%nat).
      * rewrite !lookup_total_app_l by (rewrite ?le_bytes_length; lia). by apply lane_shift.
      * rewrite !lookup_total_app_r by (rewrite ?le_bytes_length; lia).
        rewrite le_bytes_length, Hlane. apply Hb; lia.
Qed.

Lemma masks_testbit m whole j i : lanes m whole → (j < 8)%nat → (i < 8 * m)%nat →
  Z.testbit (masks whole j) (Z.of_nat i) = Z.testbit (whole !!! i) (7 - Z.of_nat j).
Proof.
  intros Hw Hj Hi. unfold masks.
  assert (H : lanes m (Nat.iter j slli1 whole) ∧ ∀ k, Z.of_nat j ≤ k < 8 →
    Z.testbit (Nat.iter j slli1 whole !!! i) k = Z.testbit (whole !!! i) (k - Z.of_nat j)).
  { clear Hj. induction j as [|j [IHl IHb]]; [split; [done|]; intros k _; f_equal; cbn; lia|].
    change (Nat.iter (S j) slli1 whole) with (slli1 (Nat.iter j slli1 whole)).
    destruct (slli1_spec m _ IHl) as [Hl Hb]. split; [done|]. intros k Hk.
    rewrite Hb, IHb by lia. f_equal. lia. }
  destruct H as [[Hl _] Hb]. rewrite movemask_testbit by lia. apply Hb. lia.
Qed.

Lemma masks_word m whole j : lanes m whole → is_word (Z.of_nat (8 * m)) (masks whole j).
Proof.
  intros Hw. unfold masks.
  assert (H : lanes m (Nat.iter j slli1 whole)).
  { induction j as [|j IH]; [done|]. apply (slli1_spec m _ IH). }
  rewrite <-(proj1 H). apply movemask_word.
Qed.

(** ** Squares *)
Definition sq_wf (s : square128) : Prop := length s = 128%nat ∧ Forall (is_word 128) s.

Lemma sq_bytes_shape s : length s = 128%nat → shape 128 16 (sq_bytes s).
Proof.
  intros Hl. split; [by unfold sq_bytes; rewrite length_fmap|].
  apply Forall_fmap, Forall_forall. intros x _. apply le_bytes_length.
Qed.

Lemma sq_bytes_row s r : (r < length s)%nat → sq_bytes s !!! r = le_bytes 16 (s !!! r).
Proof. intros Hr. apply (list_lookup_total_fmap (le_bytes 16) s r Hr). Qed.

Lemma lookup_map_seq {B} `{Inhabited B} (f : nat → B) n i : (i < n)%nat → (f <$> seq 0 n) !!! i = f i.
Proof.
  intros Hi. rewrite (list_lookup_total_fmap f (seq 0 n) i) by by rewrite length_seq.
  by rewrite lookup_total_seq_lt.
Qed.

Lemma sq_bytes_bit s r c : length s = 128%nat → (r < 128)%nat → (c < 128)%nat →
  Z.testbit ((sq_bytes s !!! r) !!! (c / 8)%nat) (Z.of_nat (c mod 8)) = Z.testbit (s !!! r) (Z.of_nat c).
Proof.
  intros Hl Hr Hc. pose proof (Nat.mod_upper_bound c 8 ltac:(lia)).
  rewrite sq_bytes_row by lia.
  rewrite le_bytes_testbit; [|apply Nat.Div0.div_lt_upper_bound; lia|lia].
  f_equal. pose proof (Nat.div_mod c 8 ltac:(lia)). lia.
Qed.

(** A square that holds the masks of rows that collect columns of bytes. *)
Lemma masks_transpose s (w n : nat) col : (n * w = 128)%nat → (w = 8 * (w / 8))%nat → length s = 128%nat →
  (∀ x y, (x < 16)%nat → (y < n)%nat →
     col x y = (λ l : nat, (sq_bytes s !!! (w * y + l)%nat) !!! x) <$> seq 0 w) →
  let t := of_cells w ((λ r : nat, (λ y : nat, masks (col (r / 8)%nat y) (7 - r mod 8)%nat) <$> seq 0 n)
                         <$> seq 0 128) in
  sq_wf t ∧ ∀ r c, (r < 128)%nat → (c < 128)%nat →
    Z.testbit (t !!! r) (Z.of_nat c) = Z.testbit (s !!! c) (Z.of_nat r).
Proof.
  intros Hn Hw Hl Hcol t.
  assert (Hsh : ∀ x y, (x < 16)%nat → (y < n)%nat → lanes (w / 8) (col x y)).
  { intros x y Hx Hy. rewrite Hcol by done. split; [rewrite length_fmap, length_seq; lia|].
    apply Forall_fmap, Forall_seq. intros l Hl'. cbn.
    rewrite sq_bytes_row by nia.
    eapply Forall_lookup_1; [apply (le_bytes_u8 16)|].
    apply list_lookup_lookup_total_lt. rewrite le_bytes_length. lia. }
  assert (H8 : ∀ r, (r < 128)%nat → (r / 8 < 16)%nat) by (intros; apply Nat.Div0.div_lt_upper_bound; lia).
  assert (Hrow : ∀ r, (r < 128)%nat →
    Forall (is_word (Z.of_nat w)) ((λ y, masks (col (r / 8)%nat y) (7 - r mod 8)%nat) <$> seq 0 n)).
  { intros r Hr. apply Forall_fmap, Forall_seq. intros y Hy. cbn.
    rewrite Hw. apply masks_word, Hsh; [by apply H8|lia]. }
  split.
  - split; [unfold t, of_cells; by rewrite !length_fmap, length_seq|].
    unfold t, of_cells. rewrite <-list_fmap_compose. apply Forall_fmap, Forall_seq. intros r Hr. cbn.
    replace 128 with (Z.of_nat w * Z.of_nat n) by lia.
    pose proof (of_cells_word w _ (Hrow r ltac:(lia))) as Hword.
    by rewrite length_fmap, length_seq in Hword.
  - intros r c Hr Hc. unfold t, of_cells. rewrite <-list_fmap_compose.
    rewrite lookup_map_seq by lia. unfold compose.
    assert (Hw0 : (0 < w)%nat) by lia. pose proof (Nat.div_mod c w ltac:(lia)) as Hdm.
    pose proof (Nat.mod_upper_bound c w ltac:(lia)) as Hml.
    assert (Hcn : (c / w < n)%nat) by (apply Nat.Div0.div_lt_upper_bound; lia).
    replace (Z.of_nat c) with (Z.of_nat w * Z.of_nat (c / w) + Z.of_nat (c mod w)) by lia.
    rewrite of_cells_testbit by (rewrite ?length_fmap, ?length_seq; (lia || by apply Hrow)).
    rewrite lookup_map_seq by lia.
    pose proof (Nat.mod_upper_bound r 8 ltac:(lia)) as Hr8.
    rewrite (masks_testbit (w / 8)) by ((apply Hsh; [by apply H8|lia]) || lia).
    rewrite Hcol by (by apply H8 || lia).
    rewrite lookup_map_seq by lia.
    cbn [Nat.add]. rewrite <-Hdm.
    replace (7 - Z.of_nat (7 - r mod 8)) with (Z.of_nat (r mod 8)) by lia.
    by apply sq_bytes_bit.
Qed.

(** Two squares with the same bits are the same. *)
Lemma sq_ext s t : sq_wf s → sq_wf t →
  (∀ r c, (r < 128)%nat → (c < 128)%nat →
    Z.testbit (s !!! r) (Z.of_nat c) = Z.testbit (t !!! r) (Z.of_nat c)) → s = t.
Proof.
  intros [Hs Hws] [Ht Hwt] Hb. apply (list_eq_same_length _ _ 128); [done|done|].
  intros r x y Hr Hx Hy. apply Z.bits_inj'. intros c Hc.
  pose proof (Forall_lookup_1 _ _ _ _ Hws Hx) as Hwx. pose proof (Forall_lookup_1 _ _ _ _ Hwt Hy) as Hwy.
  destruct (Z.lt_ge_cases c 128).
  - specialize (Hb r (Z.to_nat c) Hr ltac:(lia)). rewrite Z2Nat.id in Hb by lia.
    by rewrite (list_lookup_total_correct _ _ _ Hx), (list_lookup_total_correct _ _ _ Hy) in Hb.
  - rewrite (proj1 (is_word_bits 128 x ltac:(lia) ltac:(apply Hwx)) Hwx c) by done.
    by rewrite (proj1 (is_word_bits 128 y ltac:(lia) ltac:(apply Hwy)) Hwy c) by done.
Qed.

Lemma cells_shape w n (s : square128) : length s = 128%nat → shape 128 n (cells w n s).
Proof.
  intros Hl. split; [unfold cells; by rewrite length_fmap|].
  apply Forall_fmap, Forall_forall. intros x _. cbn. by rewrite length_fmap, length_seq.
Qed.

(** A shuffle does not change the number of rows. *)
Lemma shuffle_sse_rows {A} (rows tmp : list (list A)) `{Inhabited A} :
  shape 128 16 rows → shape 128 16 tmp →
  length (shuffle_sse rows tmp).1 = 128%nat ∧
  ∀ x y, (x < 16)%nat → (y < 8)%nat →
    (shuffle_sse rows tmp).2 !!! (y * 16 + x)%nat = (λ l : nat, (rows !!! (16 * y + l)%nat) !!! x) <$> seq 0 16.
Proof.
  intros Hr Ht.
  assert (E0 : shuffle_sse rows tmp
    = both (cell_at rows tmp) (shuffle_sse (index true 128 16) (index false 128 16))).
  { rewrite <-shuffle_sse_fmap.
    by rewrite <-(rows_index rows tmp true 128 16 Hr), <-(rows_index rows tmp false 128 16 Ht). }
  rewrite E0. unfold both; cbn [fst snd]. split.
  - unfold rows_map. rewrite length_fmap. by vm_compute.
  - intros x y Hx Hy. rewrite shuffle_sse_index. unfold rows_map. rewrite <-list_fmap_compose.
    rewrite lookup_map_seq by lia. unfold compose. rewrite <-list_fmap_compose.
    apply list_fmap_ext. intros l l' Hl. unfold compose, cell_at.
    replace ((y * 16 + x) / 16)%nat with y by (apply Nat.div_unique with x; lia).
    by replace ((y * 16 + x) mod 16)%nat with x by (apply Nat.mod_unique with y; lia).
Qed.

Lemma shuffle_avx_rows {A} (rows tmp : list (list A)) `{Inhabited A} :
  shape 128 16 rows → shape 128 16 tmp →
  length (shuffle_avx rows tmp).1 = 128%nat ∧
  ∀ x y, (x < 16)%nat → (y < 4)%nat →
    doublerow (shuffle_avx rows tmp).2 (y * 16 + x)
      = (λ l : nat, (rows !!! (32 * y + l)%nat) !!! x) <$> seq 0 32.
Proof.
  intros Hr Ht.
  assert (E0 : shuffle_avx rows tmp
    = both (cell_at rows tmp) (shuffle_avx (index true 128 16) (index false 128 16))).
  { rewrite <-shuffle_avx_fmap.
    by rewrite <-(rows_index rows tmp true 128 16 Hr), <-(rows_index rows tmp false 128 16 Ht). }
  rewrite E0. unfold both; cbn [fst snd]. split.
  - unfold rows_map. rewrite length_fmap. by vm_compute.
  - intros x y Hx Hy. rewrite doublerow_fmap.
    assert (E : doublerow (shuffle_avx (index true 128 16) (index false 128 16)).2 (y * 16 + x)
      = (λ l : nat, (true, (32 * y + l)%nat, x)) <$> seq 0 32).
    { pose proof (f_equal (λ m, m !!! (y * 16 + x)%nat) shuffle_avx_index) as E. cbv beta in E.
      rewrite !lookup_map_seq in E by lia. rewrite E.
      apply list_fmap_ext. intros l l' _.
      replace ((y * 16 + x) / 16)%nat with y by (apply Nat.div_unique with x; lia).
      by replace ((y * 16 + x) mod 16)%nat with x by (apply Nat.mod_unique with y; lia). }
    rewrite E, <-list_fmap_compose. done.
Qed.

Lemma transpose_sse_bits s junk : sq_wf s → shape 128 16 junk →
  sq_wf (transpose_sse junk s) ∧ ∀ r c, (r < 128)%nat → (c < 128)%nat →
    Z.testbit (transpose_sse junk s !!! r) (Z.of_nat c) = Z.testbit (s !!! c) (Z.of_nat r).
Proof.
  intros [Hl _] Hj.
  destruct (shuffle_sse_rows (sq_bytes s) junk (sq_bytes_shape s Hl) Hj) as [L C]. unfold transpose_sse.
  destruct (shuffle_sse (sq_bytes s) junk) as [rows tmp]. cbn [fst snd] in *.
  rewrite write_masks_spec by (auto || (apply cells_shape; by rewrite length_fmap)).
  apply (masks_transpose s 16 8 (λ x y, tmp !!! (y * 16 + x)%nat) eq_refl eq_refl Hl C).
Qed.

Lemma transpose_avx_bits s junk : sq_wf s → shape 128 16 junk →
  sq_wf (transpose_avx junk s) ∧ ∀ r c, (r < 128)%nat → (c < 128)%nat →
    Z.testbit (transpose_avx junk s !!! r) (Z.of_nat c) = Z.testbit (s !!! c) (Z.of_nat r).
Proof.
  intros [Hl _] Hj.
  destruct (shuffle_avx_rows (sq_bytes s) junk (sq_bytes_shape s Hl) Hj) as [L C]. unfold transpose_avx.
  destruct (shuffle_avx (sq_bytes s) junk) as [rows tmp]. cbn [fst snd] in *.
  rewrite write_masks_spec by (auto || (apply cells_shape; by rewrite length_fmap)).
  apply (masks_transpose s 32 4 (λ x y, doublerow tmp (y * 16 + x)) eq_refl eq_refl Hl C).
Qed.

(** C24. [square128::transpose] transposes: in the SSE build and in the AVX2 build,
    whatever the scratch square holds, bit [c] of row [r] of the result is bit [r]
    of row [c], and the two builds agree. *)
Theorem transpose_correct s junk : sq_wf s → shape 128 16 junk →
  sq_wf (transpose_sse junk s) ∧ transpose_avx junk s = transpose_sse junk s ∧
  ∀ r c, (r < 128)%nat → (c < 128)%nat →
    Z.testbit (transpose_sse junk s !!! r) (Z.of_nat c) = Z.testbit (s !!! c) (Z.of_nat r).
Proof.
  intros Hs Hj. destruct (transpose_sse_bits s junk Hs Hj) as [W1 B1].
  destruct (transpose_avx_bits s junk Hs Hj) as [W2 B2].
  split; [exact W1|]. split; [|exact B1].
  apply sq_ext; [exact W2|exact W1|]. intros r c Hr Hc. rewrite B1, B2 by done. done.
Qed.

(** ** Instances *)
Definition sample_square : square128 := (λ i, Z.of_nat (i * i)) <$> seq 0 128.

Lemma sample_square_wf : sq_wf sample_square.
Proof.
  split; [done|]. unfold sample_square. apply Forall_fmap, Forall_seq. intros i Hi.
  unfold is_word, compose. split; [lia|]. assert (Z.of_nat (i * i) < 2 ^ 15) by (change (2 ^ 15) with 32768; nia). lia.
Qed.

Definition blank : list (list Z) := replicate 128 (replicate 16 0).

Lemma blank_shape : shape 128 16 blank.
Proof. split; [done|]. by apply Forall_replicate. Qed.

Lemma transpose_correct_witness :
  Z.testbit (transpose_sse blank sample_square !!! 3%nat) (Z.of_nat 7)
    = Z.testbit (sample_square !!! 7%nat) (Z.of_nat 3).
Proof.
  destruct (transpose_correct sample_square blank sample_square_wf blank_shape) as (_ & _ & H).
  apply H; apply Nat.ltb_lt; reflexivity.
Defined.
