(* ===== verification/Gf2n.v ===== *)
(** * Binary polynomials

    The carry-less products of [Math/gf2n.cpp] and [Math/gf2nlong.h], in software and
    with the [clmul] instruction, and the field GF(2^128) of [gf2n_long]. *)

From S2P Require Import Prelude Xor Block Aes YaoKey.

(** ** Tables and products in software *)

(** The [while] loop of [init_tables] on the words [ii] and [jj]; eight turns empty
    an octet. *)
Fixpoint table_loop (fuel : nat) (ii jj acc : Z) : Z :=
  match fuel with
  | O => acc
  | S fuel =>
      if ii =? 0 then acc
      else table_loop fuel (Z.shiftr ii 1) (u64 (Z.shiftl jj 1))
             (if Z.land ii 1 =? 1 then Z.lxor acc jj else acc)
  end.

Definition gf2n_short_table (i j : Z) : Z := table_loop 8 i j 0.

(** [mul16] with two results, and with one. *)
Definition mul16_pair (x y : Z) : Z * Z :=
  let a1 := Z.land x 0xFF in let b1 := Z.land y 0xFF in
  let a2 := Z.shiftr x 8 in let b2 := Z.shiftr y 8 in
  let c0 := gf2n_short_table a1 b1 in
  let c1 := gf2n_short_table a2 b2 in
  let te := Z.lxor (gf2n_short_table a1 b2) (gf2n_short_table a2 b1) in
  (Z.lxor c0 (Z.shiftl (Z.land te 0xFF) 8), Z.lxor c1 (Z.shiftr te 8)).

Definition mul16 (x y : Z) : Z :=
  let a1 := Z.land x 0xFF in let b1 := Z.land y 0xFF in
  let a2 := Z.shiftr x 8 in let b2 := Z.shiftr y 8 in
  let ans := u64 (Z.shiftl (gf2n_short_table a2 b2) 8) in
  let ans := Z.lxor ans (Z.lxor (gf2n_short_table a1 b2) (gf2n_short_table a2 b1)) in
  let ans := u64 (Z.shiftl ans 8) in
  Z.lxor ans (gf2n_short_table a1 b1).

Definition mul32 (x y : Z) : Z :=
  let a1 := Z.land x 0xFFFF in let b1 := Z.land y 0xFFFF in
  let a2 := Z.shiftr x 16 in let b2 := Z.shiftr y 16 in
  let ans := mul16 a1 b1 in
  let upp := mul16 a2 b2 in
  let '(c0, c1) := mul16_pair a1 b2 in
  let ans := Z.lxor ans (u64 (Z.shiftl c0 16)) in let upp := Z.lxor upp c1 in
  let '(c0, c1) := mul16_pair a2 b1 in
  let ans := Z.lxor ans (u64 (Z.shiftl c0 16)) in let upp := Z.lxor upp c1 in
  Z.lxor ans (u64 (Z.shiftl upp 32)).

(** [mul] of two words, by Karatsuba: the lower and the upper word. *)
Definition mul_word (x y : Z) : Z * Z :=
  let xl := Z.land x 0xFFFFFFFF in let yl := Z.land y 0xFFFFFFFF in
  let xh := Z.shiftr x 32 in let yh := Z.shiftr y 32 in
  let c := mul32 xl yl in
  let d := mul32 xh yh in
  let e := mul32 (Z.lxor xl xh) (Z.lxor yl yh) in
  let t := Z.lxor (Z.lxor c e) d in
  (Z.lxor c (u64 (Z.shiftl t 32)), Z.lxor d (Z.shiftr t 32)).

(** ** [class int128] *)
Definition get_half (a : Key) (upper : bool) : Z := if upper then lane_hi a else lane_lo a.

Definition software_clmul (a b : Key) (choice : Z) : Key :=
  let '(lo, hi) := mul_word (get_half a (negb (Z.land choice 1 =? 0)))
                            (get_half b (negb (Z.shiftr (Z.land choice 0x10) 4 =? 0))) in
  key_lanes hi lo.

(** [operator<<] and [operator>>]: lanes shifted on their own and what crosses over;
    a shift by 64 or more empties a lane. *)
Definition slli_epi64 (a : Key) (n : Z) : Key :=
  if (n <? 0) || (63 <? n) then 0 else key_lanes (Z.shiftl (lane_hi a) n) (Z.shiftl (lane_lo a) n).
Definition srli_epi64 (a : Key) (n : Z) : Key :=
  if (n <? 0) || (63 <? n) then 0 else key_lanes (Z.shiftr (lane_hi a) n) (Z.shiftr (lane_lo a) n).

Definition int128_shl (a : Key) (other : Z) : Key :=
  let mask := if other <? 64 then srli_epi64 a (64 - other) else slli_epi64 a (other - 64) in
  Z.lxor (slli_epi64 a other) (key_lanes (lane_lo mask) 0).
Definition int128_shr (a : Key) (other : Z) : Key :=
  let mask := if other <? 64 then slli_epi64 a (64 - other) else srli_epi64 a (other - 64) in
  Z.lxor (srli_epi64 a other) (key_lanes 0 (lane_hi mask)).

Definition int128_get_bit (a : Key) (i : Z) : Z :=
  if i <? 64 then Z.land (Z.shiftr (lane_lo a) i) 1 else Z.land (Z.shiftr (lane_hi a) (i - 64)) 1.

(** [mul128], over either form of [clmul]: [_mm_slli_si128] and [_mm_srli_si128] by
    eight octets move a lane. *)
Definition mul128 (clmul : Z → Key → Key → Key) (a b : Key) : Key * Key :=
  let tmp3 := clmul 0x00 a b in
  let tmp4 := clmul 0x10 a b in
  let tmp5 := clmul 0x01 a b in
  let tmp6 := clmul 0x11 a b in
  let tmp4 := Z.lxor tmp4 tmp5 in
  let tmp5 := key_lanes (lane_lo tmp4) 0 in
  let tmp4 := key_lanes 0 (lane_hi tmp4) in
  (Z.lxor tmp3 tmp5, Z.lxor tmp6 tmp4).

(** ** GF(2^128)

    [init_field(128)]: the polynomial [x^128 + x^7 + x^2 + x + 1]. *)
Definition n_field : Z := 128.
Definition field_t : list Z := [0; 7; 2; 1].
Definition field_l : list Z := (λ t, 128 + t - n_field) <$> field_t.
Definition uppermask : Key := int128_shl (2 ^ 128 - 1) (128 - field_t !!! 1%nat).
Definition lowermask : Key := Z.lxor (2 ^ 128 - 1) uppermask.

(** [reduce], the branch of [2 * (n - 1) - MAX_N_BITS + t[1] >= MAX_N_BITS]. *)
Definition gf2n_reduce (xh xl : Key) : Key :=
  let l1 := field_l !!! 1%nat in
  let a := xl in
  let upper := Z.land xh uppermask in
  let lower := Z.land xh lowermask in
  let tmp := foldl (λ tmp l, Z.lxor tmp (int128_shr upper (n_field - field_t !!! 1%nat - l))) 0 field_l in
  let lower := Z.lxor lower (int128_shr tmp l1) in
  let a := Z.lxor a (int128_shl tmp (n_field - l1)) in
  foldl (λ a l, Z.lxor a (int128_shl lower l)) a field_l.

(** [gf2n_<int128>::mul] *)
Definition gf2n_mul (clmul : Z → Key → Key → Key) (x y : Key) : Key :=
  let '(lo, hi) := mul128 clmul x y in gf2n_reduce hi lo.

(** ** The product of polynomials

    [clm n a b] multiplies [b] with the [n] low coefficients of [a]. *)
Fixpoint clm (n : nat) (a b : Z) : Z :=
  match n with
  | O => 0
  | S n => Z.lxor (clm n a b) (if Z.testbit a (Z.of_nat n) then Z.shiftl b (Z.of_nat n) else 0)
  end.

(** Equations between XORs of the same terms. *)
Ltac xor_ac :=
  apply Z.bits_inj'; let i := fresh "i" in intros i _; rewrite ?Z.lxor_spec, ?Z.bits_0;
  repeat match goal with |- context [Z.testbit ?t i] => generalize (Z.testbit t i); intros [] end;
  reflexivity.

Lemma clm_0_r n a : clm n a 0 = 0.
Proof. induction n as [|n IH]; [done|]. cbn [clm]. rewrite IH, Z.shiftl_0_l. by destruct (Z.testbit _ _). Qed.

Lemma clm_lxor_l n a a' b : clm n (Z.lxor a a') b = Z.lxor (clm n a b) (clm n a' b).
Proof.
  induction n as [|n IH]; [done|]. cbn [clm]. rewrite IH, Z.lxor_spec.
  destruct (Z.testbit a _), (Z.testbit a' _); cbn [xorb]; xor_ac.
Qed.

Lemma clm_lxor_r n a b b' : clm n a (Z.lxor b b') = Z.lxor (clm n a b) (clm n a b').
Proof.
  induction n as [|n IH]; [done|]. cbn [clm]. rewrite IH.
  destruct (Z.testbit a _); [rewrite Z.shiftl_lxor|]; xor_ac.
Qed.

Lemma clm_shiftl_r n a b k : 0 ≤ k → clm n a (Z.shiftl b k) = Z.shiftl (clm n a b) k.
Proof.
  intros Hk. induction n as [|n IH]; [by rewrite Z.shiftl_0_l|]. cbn [clm].
  rewrite IH, Z.shiftl_lxor. f_equal. destruct (Z.testbit a _); [|by rewrite Z.shiftl_0_l].
  rewrite !Z.shiftl_shiftl by lia. f_equal. lia.
Qed.

Lemma clm_add n m a b :
  clm (n + m) a b = Z.lxor (clm n a b) (Z.shiftl (clm m (Z.shiftr a (Z.of_nat n)) b) (Z.of_nat n)).
Proof.
  induction m as [|m IH]; [by rewrite Nat.add_0_r, Z.shiftl_0_l, Z.lxor_0_r|].
  rewrite Nat.add_succ_r. cbn [clm]. rewrite IH, Z.shiftl_lxor, Z.shiftr_spec by lia.
  replace (Z.of_nat m + Z.of_nat n) with (Z.of_nat (n + m)) by lia.
  rewrite <-Z.lxor_assoc. f_equal. destruct (Z.testbit a _); [|by rewrite Z.shiftl_0_l].
  rewrite Z.shiftl_shiftl by lia. f_equal. lia.
Qed.

Lemma clm_ext n a a' b : (∀ i, 0 ≤ i < Z.of_nat n → Z.testbit a i = Z.testbit a' i) →
  clm n a b = clm n a' b.
Proof.
  induction n as [|n IH]; intros Ha; [done|]. cbn [clm]. rewrite Ha by lia. f_equal.
  apply IH. intros. apply Ha. lia.
Qed.

Lemma clm_nonneg n a b : 0 ≤ b → 0 ≤ clm n a b.
Proof.
  intros Hb. induction n as [|n IH]; [done|]. cbn [clm]. apply Z.lxor_nonneg.
  assert (0 ≤ if Z.testbit a (Z.of_nat n) then Z.shiftl b (Z.of_nat n) else 0).
  { destruct (Z.testbit a _); [by apply Z.shiftl_nonneg|done]. }
  tauto.
Qed.

Lemma is_word_shiftl n k x : 0 ≤ n → 0 ≤ k → is_word n x → is_word (k + n) (Z.shiftl x k).
Proof.
  unfold is_word. intros Hn Hk Hx. rewrite Z.shiftl_mul_pow2, Z.pow_add_r by lia.
  assert (0 < 2 ^ k) by (apply Z.pow_pos_nonneg; lia). nia.
Qed.

Lemma is_word_le n m x : n ≤ m → is_word n x → is_word m x.
Proof.
  unfold is_word. intros Hn Hx. destruct (Z.lt_ge_cases n 0).
  - rewrite Z.pow_neg_r in Hx by lia. lia.
  - assert (2 ^ n ≤ 2 ^ m) by (apply Z.pow_le_mono_r; lia). lia.
Qed.

(** The degree of a product. *)
Lemma clm_word n m a b : 0 ≤ m → is_word m b → is_word (Z.max 0 (Z.of_nat n - 1 + m)) (clm n a b).
Proof.
  intros Hm Hb. induction n as [|n IH]; [cbn [clm]; unfold is_word; pose proof (Z.pow_pos_nonneg 2 (Z.max 0 (Z.of_nat 0 - 1 + m))); lia|].
  cbn [clm]. apply is_word_lxor; [lia|eapply is_word_le; [|exact IH]; lia|].
  destruct (Z.testbit a _).
  - eapply is_word_le; [|apply (is_word_shiftl m (Z.of_nat n)); [lia|lia|done]]. lia.
  - unfold is_word. pose proof (Z.pow_pos_nonneg 2 (Z.max 0 (Z.of_nat (S n) - 1 + m))). lia.
Qed.

(** Cutting a number at bit [n]. *)
Definition low (n : nat) (x : Z) : Z := Z.land x (Z.ones (Z.of_nat n)).

Lemma low_bits n x i : 0 ≤ i → Z.testbit (low n x) i = (i <? Z.of_nat n) && Z.testbit x i.
Proof.
  intros Hi. unfold low. rewrite Z.land_spec, Z.testbit_ones_nonneg by lia. apply andb_comm.
Qed.

Lemma cut n x : x = Z.lxor (low n x) (Z.shiftl (Z.shiftr x (Z.of_nat n)) (Z.of_nat n)).
Proof.
  apply Z.bits_inj'. intros i Hi. rewrite Z.lxor_spec, low_bits, Z.shiftl_spec by lia.
  destruct (Z.ltb_spec i (Z.of_nat n)).
  - rewrite (Z.testbit_neg_r (Z.shiftr x _)) by lia. by rewrite xorb_false_r.
  - rewrite Z.shiftr_spec by lia. cbn [andb xorb]. f_equal. lia.
Qed.

Lemma low_word n x : is_word (Z.of_nat n) (low n x).
Proof. unfold low. rewrite Z.land_ones by lia. apply is_word_mod. lia. Qed.

Lemma shiftr_word n m x : 0 ≤ n → 0 ≤ m → is_word (n + m) x → is_word m (Z.shiftr x n).
Proof.
  unfold is_word. intros Hn Hm Hx. rewrite Z.shiftr_div_pow2 by lia. rewrite Z.pow_add_r in Hx by lia.
  assert (0 < 2 ^ n) by (apply Z.pow_pos_nonneg; lia).
  split; [apply Z.div_pos; lia|apply Z.div_lt_upper_bound; lia].
Qed.

Lemma u64_low x : u64 x = low 64 x.
Proof. unfold u64, low. by rewrite Z.land_ones. Qed.

(** The schoolbook product of halves. *)
Lemma clm_halves n a b : clm (n + n) a b =
  Z.lxor (Z.lxor (clm n (low n a) (low n b))
    (Z.shiftl (Z.lxor (clm n (low n a) (Z.shiftr b (Z.of_nat n)))
                      (clm n (Z.shiftr a (Z.of_nat n)) (low n b))) (Z.of_nat n)))
    (Z.shiftl (clm n (Z.shiftr a (Z.of_nat n)) (Z.shiftr b (Z.of_nat n))) (Z.of_nat n + Z.of_nat n)).
Proof.
  rewrite clm_add. rewrite (clm_ext n a (low n a)).
  2: { intros i Hi. rewrite low_bits, (proj2 (Z.ltb_lt _ _)) by lia. done. }
  rewrite (cut n b) at 1 2. rewrite !clm_lxor_r, !clm_shiftl_r, !Z.shiftl_lxor by lia.
  rewrite Z.shiftl_shiftl by lia. xor_ac.
Qed.

(** ** The products in software *)
Lemma table_loop_clm fuel ii jj acc : 0 ≤ ii → 0 ≤ jj → jj * 2 ^ Z.of_nat fuel < 2 ^ 64 →
  table_loop fuel ii jj acc = Z.lxor acc (clm fuel ii jj).
Proof.
  revert ii jj acc. induction fuel as [|fuel IH]; intros ii jj acc Hi Hj Hm;
    [by rewrite Z.lxor_0_r|]. cbn [table_loop].
  rewrite Nat2Z.inj_succ, Z.pow_succ_r in Hm by lia.
  assert (1 ≤ 2 ^ Z.of_nat fuel) by (pose proof (Z.pow_pos_nonneg 2 (Z.of_nat fuel)); lia).
  destruct (Z.eqb_spec ii 0) as [->|Hne].
  - assert (E : ∀ n, clm n 0 jj = 0).
    { intros n. induction n as [|n IHn]; [done|]. cbn [clm]. by rewrite IHn, Z.bits_0. }
    by rewrite E, Z.lxor_0_r.
  - rewrite (Z.shiftl_mul_pow2 jj 1) by lia. change (2 ^ 1) with 2.
    rewrite u64_low, <-u64_low. unfold u64. rewrite Z.mod_small by nia.
    rewrite IH by (try apply Z.shiftr_nonneg; nia).
    change (S fuel) with (1 + fuel)%nat. rewrite clm_add. cbn [clm]. rewrite Z.lxor_0_l, Z.shiftl_0_r.
    change (Z.of_nat 1) with 1. change (Z.of_nat 0) with 0.
    replace (jj * 2) with (Z.shiftl jj 1) by (by rewrite Z.shiftl_mul_pow2 by lia).
    rewrite clm_shiftl_r by lia. rewrite Z.bit0_odd.
    assert (E1 : (Z.land ii 1 =? 1) = Z.odd ii).
    { change 1 with (Z.ones 1) at 1. rewrite Z.land_ones, Zmod_odd by lia. by destruct (Z.odd ii). }
    rewrite E1. destruct (Z.odd ii); xor_ac.
Qed.

Lemma table_clm i j : is_u8 i → is_u8 j → gf2n_short_table i j = clm 8 i j.
Proof.
  intros Hi Hj. unfold is_word in *. unfold gf2n_short_table. change (2 ^ 8) with 256 in *.
  rewrite table_loop_clm; [apply Z.lxor_0_l|lia|lia|]. change (2 ^ Z.of_nat 8) with 256. lia.
Qed.

Lemma u64_word x : is_word 64 x → u64 x = x.
Proof. intros. by apply Z.mod_small. Qed.

(** Words of various sizes. *)
Ltac word_tac :=
  match goal with
  | |- is_word _ (Z.lxor _ _) => apply is_word_lxor; [lia|word_tac|word_tac]
  | |- is_word ?n (Z.shiftl ?x ?k) =>
      apply (is_word_le (k + (n - k)) n); [lia|apply is_word_shiftl; [lia|lia|word_tac]]
  | |- is_word ?n (clm ?k ?a ?b) =>
      apply (is_word_le (Z.max 0 (Z.of_nat k - 1 + Z.of_nat k)) n); [lia|apply clm_word; [lia|word_tac]]
  | |- is_word ?n (low ?k ?x) => apply (is_word_le (Z.of_nat k) n); [lia|apply low_word]
  | |- is_word ?n (Z.shiftr ?x (Z.of_nat ?k)) =>
      eapply is_word_le; [|apply (shiftr_word (Z.of_nat k) (Z.of_nat k)); [lia|lia|eassumption]]; lia
  | H : is_word ?m ?x |- is_word ?n ?x => apply (is_word_le m n); [lia|exact H]
  end.

Section products.
Variables x y : Z.

Lemma mul16_clm : is_word 16 x → is_word 16 y → mul16 x y = clm 16 x y.
Proof.
  intros Hx Hy. unfold mul16. change 0xFF with (Z.ones (Z.of_nat 8)).
  change (Z.land x _) with (low 8 x). change (Z.land y _) with (low 8 y).
  change (Z.shiftr x 8) with (Z.shiftr x (Z.of_nat 8)). change (Z.shiftr y 8) with (Z.shiftr y (Z.of_nat 8)).
  change 16 with (Z.of_nat 8 + Z.of_nat 8) in Hx, Hy.
  rewrite !table_clm by word_tac. cbv zeta.
  rewrite (u64_word (Z.shiftl (clm 8 _ _) 8)) by word_tac.
  rewrite u64_word by word_tac.
  change 16%nat with (8 + 8)%nat. rewrite clm_halves.
  rewrite !Z.shiftl_lxor, !Z.shiftl_shiftl by lia.
  change (Z.of_nat 8 + Z.of_nat 8) with (8 + 8). change (Z.of_nat 8) with 8. xor_ac.
Qed.

Lemma mul16_pair_clm : is_word 16 x → is_word 16 y →
  let '(c0, c1) := mul16_pair x y in
  is_word 16 c0 ∧ is_word 16 c1 ∧ Z.lxor c0 (Z.shiftl c1 16) = clm 16 x y.
Proof.
  intros Hx Hy. unfold mul16_pair. change 0xFF with (Z.ones (Z.of_nat 8)).
  change (Z.land x _) with (low 8 x). change (Z.land y _) with (low 8 y).
  change (Z.shiftr x 8) with (Z.shiftr x (Z.of_nat 8)). change (Z.shiftr y 8) with (Z.shiftr y (Z.of_nat 8)).
  change 16 with (Z.of_nat 8 + Z.of_nat 8) in Hx, Hy.
  rewrite !table_clm by word_tac. cbv zeta.
  set (te := Z.lxor (clm 8 (low 8 x) (Z.shiftr y _)) _).
  assert (Hte : is_word (Z.of_nat 8 + Z.of_nat 8) te) by (unfold te; word_tac).
  change (Z.land te (Z.ones (Z.of_nat 8))) with (low 8 te).
  change (Z.shiftr te 8) with (Z.shiftr te (Z.of_nat 8)).
  split; [word_tac|]. split; [word_tac|].
  change 16%nat with (8 + 8)%nat. rewrite clm_halves. fold te.
  rewrite (cut 8 te) at 3. rewrite !Z.shiftl_lxor, !Z.shiftl_shiftl by lia.
  change (Z.of_nat 8 + Z.of_nat 8) with 16. change (Z.of_nat 8) with 8. xor_ac.
Qed.
End products.

Lemma mul32_clm x y : is_word 32 x → is_word 32 y → mul32 x y = clm 32 x y.
Proof.
  intros Hx Hy. unfold mul32. change 0xFFFF with (Z.ones (Z.of_nat 16)).
  change (Z.land x _) with (low 16 x). change (Z.land y _) with (low 16 y).
  change (Z.shiftr x 16) with (Z.shiftr x (Z.of_nat 16)). change (Z.shiftr y 16) with (Z.shiftr y (Z.of_nat 16)).
  change 32 with (Z.of_nat 16 + Z.of_nat 16) in Hx, Hy.
  rewrite !mul16_clm by word_tac. cbv zeta.
  pose proof (mul16_pair_clm (low 16 x) (Z.shiftr y (Z.of_nat 16)) ltac:(word_tac) ltac:(word_tac)) as H1.
  pose proof (mul16_pair_clm (Z.shiftr x (Z.of_nat 16)) (low 16 y) ltac:(word_tac) ltac:(word_tac)) as H2.
  destruct (mul16_pair _ _) as [c0 c1], (mul16_pair _ _) as [d0 d1].
  destruct H1 as (Hc0 & Hc1 & E1), H2 as (Hd0 & Hd1 & E2).
  rewrite (u64_word (Z.shiftl c0 16)), (u64_word (Z.shiftl d0 16)) by word_tac.
  rewrite u64_word by word_tac.
  change 32%nat with (16 + 16)%nat. rewrite clm_halves, <-E1, <-E2.
  rewrite !Z.shiftl_lxor, !Z.shiftl_shiftl by lia.
  change (Z.of_nat 16 + Z.of_nat 16) with 32. change (Z.of_nat 16) with 16. change (16 + 16) with 32. xor_ac.
Qed.

(** A shifted word that is cut at 64 bits. *)
Lemma shiftl_cut t k : 0 ≤ k ≤ 64 →
  Z.shiftl t k = Z.lxor (u64 (Z.shiftl t k)) (Z.shiftl (Z.shiftr t (64 - k)) 64).
Proof.
  intros Hk. rewrite (cut 64 (Z.shiftl t k)) at 1. rewrite u64_low. f_equal. f_equal.
  apply Z.bits_inj'. intros i Hi. rewrite !Z.shiftr_spec, Z.shiftl_spec by lia. f_equal. lia.
Qed.

Lemma mul_word_clm x y : is_word 64 x → is_word 64 y →
  let '(lo, hi) := mul_word x y in
  is_word 64 lo ∧ is_word 64 hi ∧ Z.lxor lo (Z.shiftl hi 64) = clm 64 x y.
Proof.
  intros Hx Hy. unfold mul_word. change 0xFFFFFFFF with (Z.ones (Z.of_nat 32)).
  change (Z.land x _) with (low 32 x). change (Z.land y _) with (low 32 y).
  change (Z.shiftr x 32) with (Z.shiftr x (Z.of_nat 32)). change (Z.shiftr y 32) with (Z.shiftr y (Z.of_nat 32)).
  change 64 with (Z.of_nat 32 + Z.of_nat 32) in Hx, Hy.
  rewrite !mul32_clm by word_tac. cbv zeta. rewrite clm_lxor_l, !clm_lxor_r.
  change 64%nat with (32 + 32)%nat. rewrite clm_halves.
  set (p := clm 32 (low 32 x) (low 32 y)). set (q := clm 32 (Z.shiftr x _) (Z.shiftr y _)).
  set (r := clm 32 (low 32 x) (Z.shiftr y _)). set (s := clm 32 (Z.shiftr x _) (low 32 y)).
  assert (Ht : Z.lxor (Z.lxor p (Z.lxor (Z.lxor p r) (Z.lxor s q))) q = Z.lxor r s) by xor_ac.
  rewrite Ht. set (t := Z.lxor r s).
  assert (Htw : is_word 63 t) by (unfold t, r, s; word_tac).
  split; [apply is_word_lxor; [lia|unfold p; word_tac|apply is_word_mod; lia]|].
  split.
  { apply is_word_lxor; [lia|unfold q; word_tac|].
    eapply is_word_le; [|apply (shiftr_word 32 31); [lia|lia|exact Htw]]. lia. }
  change (Z.of_nat 32) with 32. pose proof (shiftl_cut t 32 ltac:(lia)) as E.
  change (64 - 32) with 32 in E. rewrite E at 2.
  rewrite Z.shiftl_lxor. change (32 + 32) with 64. xor_ac.
Qed.

(** ** Lanes *)
Lemma key_lanes_lxor hi lo : is_word 64 hi → is_word 64 lo →
  key_lanes hi lo = Z.lxor lo (Z.shiftl hi 64).
Proof.
  intros Hh Hl. apply Z.bits_inj'. intros i Hi. rewrite key_lanes_bits, Z.lxor_spec, Z.shiftl_spec by lia.
  destruct (Z.ltb_spec i 64).
  - rewrite (Z.testbit_neg_r hi) by lia. by rewrite xorb_false_r.
  - rewrite (proj1 (is_word_bits 64 lo ltac:(lia) ltac:(apply Hl)) Hl i) by lia. rewrite xorb_false_l.
    destruct (Z.ltb_spec i 128); [done|].
    by rewrite (proj1 (is_word_bits 64 hi ltac:(lia) ltac:(apply Hh)) Hh (i - 64)) by lia.
Qed.

Lemma lane_lo_word k : is_word 64 (lane_lo k).
Proof. apply is_word_mod. lia. Qed.
Lemma lane_hi_word k : is_word 64 (lane_hi k).
Proof. apply is_word_mod. lia. Qed.

Lemma lane_lo_low k : lane_lo k = low 64 k.
Proof. apply u64_low. Qed.
Lemma lane_hi_shiftr k : is_word 128 k → lane_hi k = Z.shiftr k 64.
Proof. intros Hk. unfold lane_hi. apply u64_word. by apply (shiftr_word 64 64). Qed.

(** The product of two halves, as the [clmul] instruction defines it. *)
Definition clmul_spec (clmul : Z → Key → Key → Key) : Prop :=
  ∀ a b (i j : bool), clmul (b2z i + 16 * b2z j) a b = clm 64 (get_half a i) (get_half b j).

Lemma software_clmul_spec : clmul_spec (λ choice a b, software_clmul a b choice).
Proof.
  intros a b i j. unfold software_clmul.
  replace (negb (Z.land (b2z i + 16 * b2z j) 1 =? 0)) with i by (by destruct i, j).
  replace (negb (Z.shiftr (Z.land (b2z i + 16 * b2z j) 0x10) 4 =? 0)) with j by (by destruct i, j).
  assert (H : ∀ k (h : bool), is_word 64 (get_half k h)).
  { intros k [|]; [apply lane_hi_word|apply lane_lo_word]. }
  pose proof (mul_word_clm (get_half a i) (get_half b j) (H _ _) (H _ _)) as Hm.
  destruct (mul_word _ _) as [lo hi]. destruct Hm as (Hl & Hh & E).
  by rewrite key_lanes_lxor, E.
Qed.

(** The lanes of a product of halves, put together at the offset 64. *)
Lemma mul128_lanes p q t : is_word 128 t →
  Z.lxor (Z.lxor p (key_lanes (lane_lo t) 0)) (Z.shiftl (Z.lxor q (key_lanes 0 (lane_hi t))) 128) =
  Z.lxor (Z.lxor p (Z.shiftl t 64)) (Z.shiftl q 128).
Proof.
  intros Ht. rewrite !key_lanes_lxor by (apply lane_lo_word || apply lane_hi_word || done).
  rewrite lane_lo_low, (lane_hi_shiftr t), Z.shiftl_0_l, Z.lxor_0_l, Z.lxor_0_r by done.
  rewrite (cut 64 t) at 3. change (Z.of_nat 64) with 64.
  rewrite !Z.shiftl_lxor, !Z.shiftl_shiftl by lia. change (64 + 64) with 128. xor_ac.
Qed.

Lemma mul128_clm clmul a b : clmul_spec clmul → is_word 128 a → is_word 128 b →
  let '(lo, hi) := mul128 clmul a b in
  is_word 128 lo ∧ is_word 127 hi ∧ Z.lxor lo (Z.shiftl hi 128) = clm 128 a b.
Proof.
  intros Hc Ha Hb. unfold mul128.
  rewrite (Hc a b false false : clmul 0x00 a b = _), (Hc a b false true : clmul 0x10 a b = _),
    (Hc a b true false : clmul 0x01 a b = _), (Hc a b true true : clmul 0x11 a b = _).
  unfold get_half. cbv zeta. rewrite (lane_hi_shiftr a), (lane_hi_shiftr b), (lane_lo_low a), (lane_lo_low b) by done.
  replace (clm 128 a b) with (clm (64 + 64) a b) by (f_equal; reflexivity). rewrite clm_halves.
  assert (Hp : ∀ c d, is_word 64 c → is_word 64 d → is_word 127 (clm 64 c d)).
  { intros c d _ Hd. by apply (clm_word 64 64). }
  assert (Hla : ∀ c, is_word 64 (low 64 c)) by (intros; apply (low_word 64)).
  assert (Hsa : ∀ c, is_word 128 c → is_word 64 (Z.shiftr c (Z.of_nat 64))) by (intros c; by apply (shiftr_word 64 64)).
  set (t := Z.lxor (clm 64 (low 64 a) (Z.shiftr b _)) _).
  assert (Ht : is_word 127 t) by (apply is_word_lxor; [lia|apply Hp; auto..]).
  assert (Ht128 : is_word 128 t) by (eapply is_word_le; [|exact Ht]; lia).
  rewrite (mul128_lanes _ _ t Ht128). split; [|split; [|done]].
  - apply is_word_lxor; [lia|eapply is_word_le; [|apply Hp; auto]; lia|].
    rewrite key_lanes_lxor, Z.lxor_0_l by (apply lane_lo_word || done).
    apply (is_word_shiftl 64 64); [lia..|apply lane_lo_word].
  - apply is_word_lxor; [lia|apply Hp; auto|].
    rewrite key_lanes_lxor by (apply lane_hi_word || done). rewrite Z.shiftl_0_l, Z.lxor_0_r.
    eapply is_word_le; [|apply lane_hi_word]. lia.
Qed.

(** ** No zero divisors *)
Lemma clm_top n a b : 0 < a → 0 < b → is_word (Z.of_nat n) a →
  Z.testbit (clm n a b) (Z.log2 a + Z.log2 b) = true.
Proof.
  intros Ha Hb. pose proof (Z.log2_nonneg a). pose proof (Z.log2_nonneg b).
  induction n as [|n IH]; [unfold is_word; change (2 ^ Z.of_nat 0) with 1; lia|]. intros Hw. cbn [clm].
  rewrite Z.lxor_spec. destruct (Z.testbit a (Z.of_nat n)) eqn:Hbit.
  - assert (Z.log2 a = Z.of_nat n) as ->.
    { apply Z.log2_unique; [lia|]. split; [|rewrite <-Nat2Z.inj_succ; apply Hw].
      destruct (Z.le_gt_cases (2 ^ Z.of_nat n) a) as [|Hlt]; [done|].
      by rewrite (is_word_high (Z.of_nat n) a) in Hbit by (unfold is_word; lia). }
    assert (Hbw : is_word (Z.log2 b + 1) b).
    { unfold is_word. pose proof (Z.log2_spec b Hb). split; [lia|]. rewrite Z.add_1_r. tauto. }
    pose proof (clm_word n (Z.log2 b + 1) a b ltac:(lia) Hbw) as Hc.
    rewrite (is_word_high _ _ _ Hc) by lia.
    rewrite Z.shiftl_spec by lia. replace (Z.of_nat n + Z.log2 b - Z.of_nat n) with (Z.log2 b) by lia.
    by rewrite Z.bit_log2.
  - rewrite Z.bits_0, xorb_false_r. apply IH. apply is_word_bits; [lia..|]. intros i Hi.
    destruct (Z.eq_dec i (Z.of_nat n)) as [->|]; [done|].
    apply (is_word_high _ _ _ Hw); lia.
Qed.

Lemma clm_integral n a b : is_word (Z.of_nat n) a → 0 ≤ b → clm n a b = 0 → a = 0 ∨ b = 0.
Proof.
  intros Ha Hb E. destruct (Z.eq_dec a 0) as [|]; [by left|]. destruct (Z.eq_dec b 0) as [|]; [by right|].
  pose proof (clm_top n a b ltac:(destruct Ha; lia) ltac:(lia) Ha) as Ht. by rewrite E, Z.bits_0 in Ht.
Qed.

(** ** The reduction *)
Definition field_poly : Z := 2 ^ 128 + 2 ^ 7 + 2 ^ 2 + 2 + 1.

(** The product with the lower part [x^7 + x^2 + x + 1] of the polynomial. *)
Definition times_t (u : Z) : Z := foldl (λ t l, Z.lxor t (Z.shiftl u l)) 0 field_t.

Lemma times_t_eq u : times_t u =
  Z.lxor (Z.lxor (Z.lxor u (Z.shiftl u 7)) (Z.shiftl u 2)) (Z.shiftl u 1).
Proof. unfold times_t. cbn [foldl field_t]. by rewrite Z.lxor_0_l, Z.shiftl_0_r. Qed.

Lemma times_t_lxor u v : times_t (Z.lxor u v) = Z.lxor (times_t u) (times_t v).
Proof. rewrite !times_t_eq, !Z.shiftl_lxor. xor_ac. Qed.

Lemma times_t_shiftl u k : 0 ≤ k → times_t (Z.shiftl u k) = Z.shiftl (times_t u) k.
Proof.
  intros Hk. rewrite !times_t_eq, !Z.shiftl_lxor, !Z.shiftl_shiftl by lia.
  by rewrite !(Z.add_comm k).
Qed.

Lemma clm_pow2 n q k : 0 ≤ k → clm n q (2 ^ k) = Z.shiftl (low n q) k.
Proof.
  intros Hk. apply Z.bits_inj'. intros i Hi. rewrite Z.shiftl_spec by lia.
  induction n as [|n IH].
  - cbn [clm]. unfold low. by rewrite Z.ones_equiv, Z.land_0_r, !Z.bits_0.
  - cbn [clm]. rewrite Z.lxor_spec, IH. destruct (Z.lt_ge_cases (i - k) 0).
    + rewrite !(Z.testbit_neg_r _ (i - k)) by lia. destruct (Z.testbit q _); [|by rewrite Z.bits_0].
      rewrite Z.shiftl_spec by lia. rewrite Z.pow2_bits_false by lia. done.
    + rewrite !low_bits by lia. destruct (Z.testbit q (Z.of_nat n)) eqn:Hq.
      * rewrite Z.shiftl_spec by lia. destruct (Z.eq_dec (i - k) (Z.of_nat n)) as [E|].
        -- rewrite E, Hq. replace (i - Z.of_nat n) with k by lia. rewrite Z.pow2_bits_true by lia.
           rewrite (proj2 (Z.ltb_ge _ _)), (proj2 (Z.ltb_lt _ _)) by lia. done.
        -- rewrite Z.pow2_bits_false, xorb_false_r by lia.
           by destruct (Z.ltb_spec (i - k) (Z.of_nat n)), (Z.ltb_spec (i - k) (Z.of_nat (S n))); (done || lia).
      * rewrite Z.bits_0, xorb_false_r. destruct (Z.eq_dec (i - k) (Z.of_nat n)) as [E|].
        -- rewrite E, Hq. by rewrite !andb_false_r.
        -- by destruct (Z.ltb_spec (i - k) (Z.of_nat n)), (Z.ltb_spec (i - k) (Z.of_nat (S n))); (done || lia).
Qed.

Lemma low_id n x : is_word (Z.of_nat n) x → low n x = x.
Proof. unfold low, is_word. intros Hx. rewrite Z.land_ones by lia. by apply Z.mod_small. Qed.

(** Products of words commute. *)
Lemma low_S m b : low (S m) b = Z.lxor (low m b) (if Z.testbit b (Z.of_nat m) then 2 ^ Z.of_nat m else 0).
Proof.
  apply Z.bits_inj'. intros i Hi. rewrite Z.lxor_spec, !low_bits by lia.
  destruct (Z.eq_dec i (Z.of_nat m)) as [->|Hne].
  - rewrite (proj2 (Z.ltb_lt _ _)), (proj2 (Z.ltb_ge _ _)) by lia. cbn [andb xorb].
    destruct (Z.testbit b _); [by rewrite Z.pow2_bits_true by lia|by rewrite Z.bits_0].
  - assert (Z.testbit (if Z.testbit b (Z.of_nat m) then 2 ^ Z.of_nat m else 0) i = false) as ->.
    { destruct (Z.testbit b _); [by rewrite Z.pow2_bits_false by lia|apply Z.bits_0]. }
    rewrite xorb_false_r. f_equal. destruct (Z.ltb_spec i (Z.of_nat m)), (Z.ltb_spec i (Z.of_nat (S m))); (done || lia).
Qed.

Lemma clm_swap n m a b : clm n a (low m b) = clm m b (low n a).
Proof.
  induction m as [|m IH].
  - unfold low at 1. cbn [clm]. rewrite Z.ones_equiv, Z.land_0_r. apply clm_0_r.
  - rewrite low_S, clm_lxor_r, IH. cbn [clm]. f_equal.
    destruct (Z.testbit b _); [apply clm_pow2; lia|apply clm_0_r].
Qed.

Lemma clm_comm n a b : is_word (Z.of_nat n) a → is_word (Z.of_nat n) b → clm n a b = clm n b a.
Proof. intros Ha Hb. rewrite <-(low_id n b) at 1 by done. by rewrite clm_swap, low_id. Qed.

Lemma clm_0_l n b : clm n 0 b = 0.
Proof. induction n as [|n IH]; [done|]. cbn [clm]. by rewrite IH, Z.bits_0. Qed.

(** A product determines its lanes. *)
Lemma lanes_inj lo hi lo' hi' : is_word 128 lo → is_word 128 lo' →
  Z.lxor lo (Z.shiftl hi 128) = Z.lxor lo' (Z.shiftl hi' 128) → lo = lo' ∧ hi = hi'.
Proof.
  intros Hl Hl' E. split; apply Z.bits_inj'; intros i Hi.
  - destruct (Z.lt_ge_cases i 128) as [Hlt|]; [|by rewrite !(is_word_high 128) by (done || lia)].
    pose proof (f_equal (λ z, Z.testbit z i) E) as Eb. cbv beta in Eb.
    rewrite !Z.lxor_spec, !Z.shiftl_spec, !(Z.testbit_neg_r _ (i - 128)), !xorb_false_r in Eb by lia. done.
  - pose proof (f_equal (λ z, Z.testbit z (i + 128)) E) as Eb. cbv beta in Eb.
    rewrite !Z.lxor_spec, !Z.shiftl_spec, !(is_word_high 128 _ (i + 128)) in Eb by (done || lia).
    replace (i + 128 - 128) with i in Eb by lia. by rewrite !xorb_false_l in Eb.
Qed.

(** A multiple of the polynomial. *)
Lemma clm_field_poly q : is_word 128 q → clm 128 q field_poly = Z.lxor (Z.shiftl q 128) (times_t q).
Proof.
  intros Hq. change field_poly with
    (Z.lxor (2 ^ 128) (Z.lxor (Z.lxor (Z.lxor (2 ^ 0) (2 ^ 7)) (2 ^ 2)) (2 ^ 1))).
  rewrite !clm_lxor_r, !clm_pow2 by lia. rewrite low_id by done. by rewrite times_t_eq, Z.shiftl_0_r.
Qed.

(** The shifts of [int128]. *)
Lemma key_lanes_0_r h i : 0 ≤ i → Z.testbit (key_lanes h 0) i =
  (64 <=? i) && (i <? 128) && Z.testbit h (i - 64).
Proof.
  intros Hi. rewrite key_lanes_bits by done.
  destruct (Z.ltb_spec i 64); [rewrite (proj2 (Z.leb_gt _ _)), Z.bits_0 by lia; done|].
  by rewrite (proj2 (Z.leb_le _ _)) by lia.
Qed.

(** Bits of lanes that have been shifted: every test on the position is decided. *)
Ltac lanes :=
  repeat first
  [ match goal with
    | |- context [?x <? ?y] => destruct (Z.ltb_spec x y); try lia
    | |- context [Z.testbit (Z.lxor ?x ?y) ?i] => rewrite (Z.lxor_spec x y i)
    | |- context [Z.testbit 0 ?i] => rewrite (Z.bits_0 i)
    | |- context [Z.testbit (key_lanes ?h ?l) ?i] => rewrite (key_lanes_bits h l i) by lia
    | |- context [Z.testbit (lane_lo ?k) ?i] =>
        first [rewrite (Z.testbit_neg_r (lane_lo k) i) by lia|rewrite (lane_lo_bits k i) by lia]
    | |- context [Z.testbit (lane_hi ?k) ?i] =>
        first [rewrite (Z.testbit_neg_r (lane_hi k) i) by lia|rewrite (lane_hi_bits k i) by lia]
    | |- context [Z.testbit (Z.shiftr ?k ?n) ?i] => rewrite (Z.shiftr_spec k n i) by lia
    | |- context [Z.testbit (Z.shiftl ?k ?n) ?i] => rewrite (Z.shiftl_spec k n i) by lia
    end
  | progress cbn [andb orb] ];
  rewrite ?xorb_false_r, ?xorb_false_l.

Lemma int128_shr_spec a n : is_word 128 a → 0 ≤ n < 128 → int128_shr a n = Z.shiftr a n.
Proof.
  intros Ha Hn. apply Z.bits_inj'. intros i Hi. unfold int128_shr, srli_epi64, slli_epi64.
  pose proof (is_word_high _ _ (i + n) Ha ltac:(lia)) as Hh.
  lanes; try done; try (by rewrite Hh by lia); f_equal; lia.
Qed.

Lemma int128_shl_spec a n : is_word 128 a → 0 ≤ n < 128 → int128_shl a n = low 128 (Z.shiftl a n).
Proof.
  intros Ha Hn. apply Z.bits_inj'. intros i Hi. unfold int128_shl, srli_epi64, slli_epi64.
  rewrite low_bits, Z.shiftl_spec by lia. change (Z.of_nat 128) with 128.
  destruct (Z.lt_ge_cases (i - n) 0); [rewrite (Z.testbit_neg_r a (i - n)) by lia|];
    lanes; try done; f_equal; lia.
Qed.

Lemma field_masks : uppermask = Z.shiftl (Z.ones 7) 121 ∧ lowermask = Z.ones 121.
Proof. by vm_compute. Qed.

Lemma upper_bits hi : is_word 127 hi → Z.land hi uppermask = Z.shiftl (Z.shiftr hi 121) 121.
Proof.
  intros Hh. rewrite (proj1 field_masks). apply Z.bits_inj'. intros i Hi.
  rewrite Z.land_spec, !Z.shiftl_spec by lia. destruct (Z.lt_ge_cases i 121).
  - rewrite !(Z.testbit_neg_r _ (i - 121)) by lia. apply andb_false_r.
  - rewrite Z.shiftr_spec, Z.testbit_ones_nonneg by lia. replace (i - 121 + 121) with i by lia.
    destruct (Z.ltb_spec (i - 121) 7); [apply andb_true_r|]. by rewrite (is_word_high 127 hi) by (done || lia).
Qed.

Lemma gf2n_reduce_spec hi lo : is_word 128 lo → is_word 127 hi →
  is_word 128 (gf2n_reduce hi lo) ∧
  ∃ q, is_word 128 q ∧
    Z.lxor lo (Z.shiftl hi 128) = Z.lxor (gf2n_reduce hi lo) (clm 128 q field_poly).
Proof.
  intros Hl Hh. set (u := Z.shiftr hi 121). assert (Hu : is_word 6 u) by (by apply (shiftr_word 121 6)).
  set (low0 := low 121 hi). set (tmp := times_t u). set (lower := Z.lxor low0 (Z.shiftr tmp 7)).
  assert (Htmp : is_word 13 tmp).
  { unfold tmp. rewrite times_t_eq.
    repeat apply is_word_lxor; try lia; [|apply (is_word_shiftl 6 7)|..]; try lia; try done.
    - by apply (is_word_le 6).
    - apply (is_word_le (2 + 6)); [lia|]. by apply is_word_shiftl.
    - apply (is_word_le (1 + 6)); [lia|]. by apply is_word_shiftl. }
  assert (Hlower : is_word 121 lower).
  { apply is_word_lxor; [lia|apply (low_word 121)|]. apply (is_word_le 6); [lia|]. by apply (shiftr_word 7 6). }
  assert (Hw : ∀ v, is_word 6 v → is_word 128 (Z.shiftl v 121)).
  { intros v Hv. apply (is_word_le (121 + 6)); [lia|]. by apply is_word_shiftl. }
  assert (Hs : ∀ k, 0 ≤ k ≤ 7 → is_word 128 (Z.shiftl lower k)).
  { intros k Hk. apply (is_word_le (k + 121)); [lia|]. apply is_word_shiftl; lia || done. }
  assert (E : gf2n_reduce hi lo =
    Z.lxor (Z.lxor lo (low 128 (Z.shiftl tmp 121))) (times_t lower)).
  { unfold gf2n_reduce. change field_l with field_t. change (field_t !!! 1%nat) with 7. cbv zeta.
    rewrite (upper_bits hi Hh). fold u. rewrite (proj2 field_masks). change (Z.land hi (Z.ones 121)) with low0.
    cbn [foldl field_t]. change (n_field - 7 - 0) with 121. change (n_field - 7 - 7) with 114.
    change (n_field - 7 - 2) with 119. change (n_field - 7 - 1) with 120. change (n_field - 7) with 121.
    rewrite !(int128_shr_spec (Z.shiftl u 121)) by (lia || by apply Hw).
    rewrite !Z.shiftr_shiftl_l by lia. rewrite Z.lxor_0_l. rewrite Z.shiftl_0_r.
    change (121 - 114) with 7. change (121 - 119) with 2. change (121 - 120) with 1.
    rewrite <-times_t_eq. fold tmp.
    rewrite int128_shr_spec, int128_shl_spec by (lia || by apply (is_word_le 13)). fold lower.
    rewrite !int128_shl_spec by (lia || by apply (is_word_le 121)).
    rewrite times_t_eq, !(low_id 128 (Z.shiftl lower _)) by (apply Hs; lia). rewrite Z.shiftl_0_r. xor_ac. }
  split.
  - rewrite E. apply is_word_lxor; [lia|apply is_word_lxor; [lia|done|apply (low_word 128)]|].
    rewrite times_t_eq. rewrite <-(Z.shiftl_0_r lower) at 1.
    do 3 (apply is_word_lxor; [lia| |apply Hs; lia]). apply Hs. lia.
  - exists (Z.lxor (Z.shiftl u 121) lower). split; [apply is_word_lxor; [lia|by apply Hw|by apply (is_word_le 121)]|].
    rewrite clm_field_poly by (apply is_word_lxor; [lia|by apply Hw|by apply (is_word_le 121)]).
    rewrite E, times_t_lxor, times_t_shiftl, !Z.shiftl_lxor, Z.shiftl_shiftl by lia. fold tmp.
    rewrite (cut 121 hi) at 1. change (Z.of_nat 121) with 121. fold low0. fold u.
    rewrite (cut 128 (Z.shiftl tmp 121)) at 2. change (Z.of_nat 128) with 128.
    rewrite (Z.shiftr_shiftl_r tmp 121 128) by lia. change (128 - 121) with 7.
    rewrite Z.shiftl_lxor, Z.shiftl_shiftl by lia. unfold lower. rewrite Z.shiftl_lxor. change (121 + 128) with 249. xor_ac.
Qed.

(** C25. [gf2n_long::mul] multiplies in GF(2^128): whichever [clmul] is compiled in,
    the value is a 128-bit word that differs from the product of the polynomials by
    a multiple of [x^128 + x^7 + x^2 + x + 1]. *)
Theorem gf2n_mul_correct clmul x y : clmul_spec clmul → is_word 128 x → is_word 128 y →
  is_word 128 (gf2n_mul clmul x y) ∧
  ∃ q, is_word 128 q ∧ clm 128 x y = Z.lxor (gf2n_mul clmul x y) (clm 128 q field_poly).
Proof.
  intros Hc Hx Hy. unfold gf2n_mul. pose proof (mul128_clm clmul x y Hc Hx Hy) as Hm.
  destruct (mul128 clmul x y) as [lo hi]. destruct Hm as (Hl & Hh & <-).
  by apply gf2n_reduce_spec.
Qed.

Lemma gf2n_mul_correct_witness : is_word 128 (gf2n_mul (λ choice a b, software_clmul a b choice) 3 5).
Proof.
  destruct (gf2n_mul_correct (λ choice a b, software_clmul a b choice) 3 5 software_clmul_spec) as [H _];
    [split; [discriminate|reflexivity]..|exact H].
Defined.
