(* ===== verification/OtMatrix.v ===== *)
(** * Matrices of the OT extension

    [Matrix], [BitMatrix] and [Slice] of [OT/BitMatrix.h], [OT/BitMatrix.hpp] and
    [Math/square128.cpp]: a column of 128 by 128 squares and the operations on a
    range of them. *)

From S2P Require Import Prelude Memory OctetStream OctetProps Xor Block Aes YaoKey Random BitVector Square128.

Abbreviation Matrix := (list square128).

Definition zero_square : square128 := replicate 128 0.

(** [std::vector::resize] with value-initialised new elements. *)
Definition vector_resize {A} (d : A) (l : list A) (n : Z) : outcome (list A) :=
  if n <? 0 then Throw "length_error"
  else Ok (take (Z.to_nat n) l ++ replicate (Z.to_nat n - length l) d).

Definition vertical_size (m : Matrix) : Z := Z.of_nat (length m) * 128.
Definition resize_vertical (m : Matrix) (len : Z) : outcome Matrix :=
  vector_resize zero_square m (DIV_CEIL len 128).

(** [BitMatrix::resize] *)
Definition bitmatrix_resize (m : Matrix) (len : Z) : outcome Matrix :=
  if negb (Z.rem len 128 =? 0) then Throw "not divisible by 128"
  else vector_resize zero_square m (Z.quot len 128).

Definition mat_eq (m other : Matrix) : outcome bool :=
  if negb (Nat.eqb (length m) (length other)) then Throw "invalid_length"
  else Ok (forallb (λ '(a, b), sq_eq a b) (zip m other)).

(** A loop over the squares [from, ..., to - 1]. *)
Definition range (from to : Z) : list Z := seqZ from (to - from).

Definition sq_randomize (s : square128) (G : PRNG) : outcome (square128 * PRNG) :=
  '(x, G) ← get_octets G (128 * 16); Ok (le_val <$> chunks 128 16 x, G).

Definition mat_randomize (m : Matrix) (G : PRNG) : outcome (Matrix * PRNG) :=
  foldM (λ '(m, G) i,
      s ← vget m i; '(s, G) ← sq_randomize s G; m ← vset m i s; Ok (m, G))
    (m, G) (range 0 (Z.of_nat (length m))).

Definition randomize_rows (m : Matrix) (from to row : Z) (G : PRNG) : outcome (Matrix * PRNG) :=
  foldM (λ '(m, G) i,
      s ← vget m i; '(s, G) ← randomize_row s row G; m ← vset m i s; Ok (m, G))
    (m, G) (range from to).

Definition mat_randomize_row (m : Matrix) (row : Z) (G : PRNG) : outcome (Matrix * PRNG) :=
  randomize_rows m 0 (Z.of_nat (length m)) row G.

(** [BitMatrix::transpose] and [Slice<BitMatrix>::transpose], in the SSE build;
    [junk] is what the local [tmp] holds in the call for square [i]. *)
Definition transpose_squares (junk : Z → list (list Z)) (m : Matrix) (from to : Z) : outcome Matrix :=
  foldM (λ m i, s ← vget m i; vset m i (transpose_sse (junk i) s)) m (range from to).

Definition bitmatrix_transpose (junk : Z → list (list Z)) (m : Matrix) : outcome Matrix :=
  transpose_squares junk m 0 (Z.of_nat (length m)).

Section streams.
Context `{Heap}.

Definition pack_squares (m : Matrix) (from to : Z) (o : octetStream) : outcome octetStream :=
  foldM (λ o i, s ← vget m i; sq_pack s o) o (range from to).
Definition unpack_squares (m : Matrix) (from to : Z) (o : octetStream) : outcome (Matrix * octetStream) :=
  foldM (λ '(m, o) i, s ← vget m i; '(s, o) ← sq_unpack s o; m ← vset m i s; Ok (m, o))
    (m, o) (range from to).

Definition mat_pack (m : Matrix) (o : octetStream) : outcome octetStream :=
  pack_squares m 0 (Z.of_nat (length m)) o.
Definition mat_unpack (m : Matrix) (o : octetStream) : outcome (Matrix * octetStream) :=
  unpack_squares m 0 (Z.of_nat (length m)) o.

(** [BitMatrix::vertical_to] *)
Definition vertical_to (m : Matrix) (output : list BitVector) : outcome (list BitVector) :=
  let n := s32 (128 * Z.of_nat (length m)) in
  empty ← bv_make 0;
  output ← vector_resize empty output n;
  foldM (λ output i,
      v ← vget output i; v ← bv_resize v 128;
      s ← vget m (i / 128); r ← vget s (i mod 128);
      v ← set_int128 v 0 r; vset output i v)
    output (range 0 n).
End streams.

(** ** [class Slice]

    Slices are views; an operation takes the matrix and gives the changed one. *)
Record Slice := mkSlice { sl_start : Z; sl_end : Z }.

Definition slice_new (bm : Matrix) (start size : Z) : outcome Slice :=
  let stop := u64 (u64 start + u64 size) in
  if Z.of_nat (length bm) <? stop then Throw "Matrix slice larger than matrix"
  else Ok (mkSlice (u64 start) stop).

Definition slice_rsub (bm : Matrix) (sl : Slice) (other_bm : Matrix) (other : Slice) : outcome Matrix :=
  if Z.of_nat (length bm) <? sl_end other then Throw "rsub"
  else foldM (λ bm i, s ← vget bm i; o ← vget other_bm i; vset bm i (sq_rsub s o))
         bm (range (sl_start other) (sl_end other)).

Definition slice_sub (bm : Matrix) (sl : Slice) (other : BitVector) (repeat : Z) : outcome Matrix :=
  if u32 (u32 (bv_nbits other) * u32 repeat) <? u64 (sl_end sl * 128) then Throw "invalid_length"
  else
    foldM (λ bm i,
        if 0 <? repeat then
          p ← get_ptr_to_byte other (i / repeat) 16;
          s ← vget bm i;
          value ← mem_read (bv_bytes other) p 16;
          vset bm i (xor_value s (le_val value))
        else Throw "not_implemented")
      bm (range (sl_start sl) (sl_end sl)).

Definition slice_randomize (bm : Matrix) (sl : Slice) (row : Z) (G : PRNG) : outcome (Matrix * PRNG) :=
  randomize_rows bm (sl_start sl) (sl_end sl) row G.

Definition slice_conditional_add (bm : Matrix) (sl : Slice) (conditions : BitVector) (other : Matrix)
    (useOffset : bool) : outcome Matrix :=
  foldM (λ bm i,
      s ← vget bm i; o ← vget other i;
      s ← conditional_add s conditions o (s32 (b2z useOffset * i));
      vset bm i s)
    bm (range (sl_start sl) (sl_end sl)).

Definition slice_pack `{Heap} (bm : Matrix) (sl : Slice) (os : octetStream) : outcome octetStream :=
  os ← reserve os (2048 * (sl_end sl - sl_start sl));
  pack_squares bm (sl_start sl) (sl_end sl) os.
Definition slice_unpack `{Heap} (bm : Matrix) (sl : Slice) (os : octetStream) : outcome (Matrix * octetStream) :=
  unpack_squares bm (sl_start sl) (sl_end sl) os.

Definition slice_transpose (junk : Z → list (list Z)) (bm : Matrix) (sl : Slice) : outcome Matrix :=
  transpose_squares junk bm (sl_start sl) (sl_end sl).

(** ** Tables

    Squares and matrices given by their entries. *)
Definition sq (f : nat → Key) : square128 := f <$> seq 0 128.
Definition mat (n : nat) (F : nat → nat → Key) : Matrix := (λ i, sq (F i)) <$> seq 0 n.

Lemma sq_ext_fn f g : (∀ r, (r < 128)%nat → f r = g r) → sq f = sq g.
Proof. intros H. apply list_fmap_ext. intros i r Hr. apply lookup_seq in Hr as [-> Hr]. apply H. lia. Qed.

Lemma mat_ext n F G : (∀ i r, (i < n)%nat → (r < 128)%nat → F i r = G i r) → mat n F = mat n G.
Proof.
  intros H. apply list_fmap_ext. intros j i Hi. apply lookup_seq in Hi as [-> Hi].
  apply sq_ext_fn. intros r Hr. apply H; [lia|done].
Qed.

Lemma sq_length f : length (sq f) = 128%nat.
Proof. unfold sq. by rewrite length_fmap, length_seq. Qed.
Lemma mat_length n F : length (mat n F) = n.
Proof. unfold mat. by rewrite length_fmap, length_seq. Qed.

Lemma sq_lookup f r : (r < 128)%nat → sq f !! r = Some (f r).
Proof. intros Hr. unfold sq. by rewrite list_lookup_fmap, lookup_seq_lt. Qed.
Lemma mat_lookup n F i : (i < n)%nat → mat n F !! i = Some (sq (F i)).
Proof. intros Hi. unfold mat. by rewrite list_lookup_fmap, lookup_seq_lt. Qed.

Lemma sq_total f r : (r < 128)%nat → sq f !!! r = f r.
Proof. intros. by apply list_lookup_total_correct, sq_lookup. Qed.

Lemma sq_wf_fn f : (∀ r, (r < 128)%nat → is_word 128 (f r)) → sq_wf (sq f).
Proof. intros H. split; [apply sq_length|]. apply Forall_fmap, Forall_seq. intros r Hr. apply H. lia. Qed.

(** A square is the table of its rows. *)
Lemma sq_of_rows s : length s = 128%nat → s = sq (λ r, s !!! r).
Proof.
  intros Hl. apply (list_eq_same_length _ _ 128); [apply sq_length|done|].
  intros r x y Hr Hx. rewrite sq_lookup by done. intros [= <-]. symmetry. by apply list_lookup_total_correct.
Qed.

Lemma vget_mid {A} (pre post : list A) x i : length pre = i → vget (pre ++ x :: post) (Z.of_nat i) = Ok x.
Proof. intros <-. apply vget_nat. by apply list_lookup_middle. Qed.
Lemma vset_mid {A} (pre post : list A) x y i : length pre = i →
  vset (pre ++ x :: post) (Z.of_nat i) y = Ok (pre ++ y :: post).
Proof.
  intros <-. rewrite vset_Ok by (rewrite length_app; cbn; lia). rewrite Nat2Z.id.
  by rewrite insert_app_r_alt, Nat.sub_diag by lia.
Qed.

(** A loop that rewrites the elements of a list one by one, with a state. *)
Lemma foldM_tabulate {A B} (wrap : list A → nat → B) (f g : nat → A) (step : B → Z → outcome B) n :
  (∀ i pre post, (i < n)%nat → length pre = i →
     step (wrap (pre ++ f i :: post) i) (Z.of_nat i) = Ok (wrap (pre ++ g i :: post) (S i))) →
  foldM step (wrap (f <$> seq 0 n) 0%nat) (seqZ 0 (Z.of_nat n)) = Ok (wrap (g <$> seq 0 n) n).
Proof.
  intros H.
  assert (G : ∀ k j, (j + k = n)%nat →
    foldM step (wrap ((g <$> seq 0 j) ++ (f <$> seq j k)) j) (seqZ (Z.of_nat j) (Z.of_nat k))
      = Ok (wrap (g <$> seq 0 n) n)).
  { induction k as [|k IH]; intros j Hj.
    - rewrite Nat.add_0_r in Hj. subst j. cbn [seq fmap list_fmap Z.of_nat]. rewrite app_nil_r.
      by rewrite seqZ_nil.
    - rewrite seqZ_cons by lia. cbn [seq fmap list_fmap foldM].
      rewrite H by (lia || by rewrite length_fmap, length_seq). cbn [mbind outcome_bind].
      replace (Z.pred (Z.of_nat (S k))) with (Z.of_nat k) by lia.
      replace (Z.succ (Z.of_nat j)) with (Z.of_nat (S j)) by lia.
      rewrite <-(IH (S j)) by lia. f_equal. f_equal. rewrite seq_S, fmap_app, <-app_assoc. done. }
  apply (G n 0%nat). done.
Qed.

Lemma range_0 n : range 0 n = seqZ 0 n.
Proof. unfold range. by rewrite Z.sub_0_r. Qed.

(** ... of a square and of a matrix. *)
Lemma foldM_mat {B} (wrap : Matrix → nat → B) (F G : nat → nat → Key) (step : B → Z → outcome B) n :
  (∀ i pre post, (i < n)%nat → length pre = i →
     step (wrap (pre ++ sq (F i) :: post) i) (Z.of_nat i) = Ok (wrap (pre ++ sq (G i) :: post) (S i))) →
  foldM step (wrap (mat n F) 0%nat) (range 0 (Z.of_nat n)) = Ok (wrap (mat n G) n).
Proof. rewrite range_0. intros H. apply (foldM_tabulate wrap (λ i, sq (F i)) (λ i, sq (G i))). done. Qed.

Lemma sq_zip (h : Key → Key → Key) f g : zip_with h (sq f) (sq g) = sq (λ r, h (f r) (g r)).
Proof.
  unfold sq. generalize (seq 0 128). intros l. induction l as [|x l IH]; [done|]. cbn. by f_equal.
Qed.

Lemma xor_square_sq f g : xor_square (sq f) (sq g) = sq (λ r, Z.lxor (f r) (g r)).
Proof. apply sq_zip. Qed.
Lemma xor_value_sq f v : xor_value (sq f) v = sq (λ r, Z.lxor (f r) v).
Proof. unfold xor_value, sq. by rewrite <-list_fmap_compose. Qed.

Lemma sq_insert f r x : (r < 128)%nat → <[r := x]> (sq f) = sq (λ i, if Nat.eqb i r then x else f i).
Proof.
  intros Hr. apply (list_eq_same_length _ _ 128); [apply sq_length|by rewrite length_insert, sq_length|].
  intros i a b Hi Ha. rewrite sq_lookup by done. intros [= <-].
  destruct (Nat.eqb_spec i r) as [->|Hne].
  - rewrite list_lookup_insert_eq in Ha by (by rewrite sq_length). congruence.
  - rewrite list_lookup_insert_ne, sq_lookup in Ha by done. congruence.
Qed.

(** ** Operations on whole matrices *)
Definition whole (n : nat) : Slice := mkSlice 0 (Z.of_nat n).

Lemma slice_new_whole (bm : Matrix) : Z.of_nat (length bm) < 2 ^ 63 →
  slice_new bm 0 (Z.of_nat (length bm)) = Ok (whole (length bm)).
Proof.
  intros Hl. unfold slice_new. rewrite !u64_id by (rewrite ?u64_id; lia).
  rewrite (proj2 (Z.ltb_ge _ _)) by lia. done.
Qed.

Lemma slice_rsub_mat n F G :
  slice_rsub (mat n F) (whole n) (mat n G) (whole n) = Ok (mat n (λ i r, Z.lxor (F i r) (G i r))).
Proof.
  unfold slice_rsub, whole. cbn [sl_end sl_start]. rewrite mat_length, Z.ltb_irrefl.
  apply (foldM_mat (λ m _, m)). intros i pre post Hi Hl. rewrite (vget_mid pre post) by done.
  rewrite (vget_nat _ _ (sq (G i))) by by apply mat_lookup. cbn [mbind outcome_bind].
  rewrite vset_mid by done. by rewrite <-xor_square_sq.
Qed.

(** The bits [128 * i] to [128 * i + 127] of a vector. *)
Definition bv_block (v : BitVector) (i : nat) : Key := le_val (take 16 (drop (16 * i) (bv_val v))).

Lemma slice_sub_mat n F v : bv_wf v → bv_nbits v = 128 * Z.of_nat n → bv_nbits v < 2 ^ 32 →
  slice_sub (mat n F) (whole n) v 1 = Ok (mat n (λ i r, Z.lxor (F i r) (bv_block v i))).
Proof.
  intros Hw Hn Hm. pose proof (bv_bits v Hw). pose proof (bv_nbytes_range v Hw) as (? & ? & ?).
  assert (H32 : ∀ x, 0 ≤ x < 2 ^ 32 → u32 x = x) by (intros; by apply Z.mod_small).
  unfold slice_sub, whole. cbn [sl_end sl_start]. rewrite (H32 1), (H32 (bv_nbits v)), Z.mul_1_r, H32, u64_id by lia.
  rewrite (proj2 (Z.ltb_ge _ _)) by lia.
  apply (foldM_mat (λ m _, m)). intros i pre post Hi Hl. change (0 <? 1) with true. cbn iota.
  rewrite Z.div_1_r. unfold get_ptr_to_byte. rewrite (u64_id (Z.of_nat i + 16)), (proj2 (Z.leb_le _ _)) by lia.
  cbn [mbind outcome_bind]. rewrite (vget_mid pre post) by done. cbn [mbind outcome_bind].
  rewrite u64_id by lia. rewrite bv_read by (done || lia). cbn [mbind outcome_bind].
  rewrite vset_mid by done. rewrite xor_value_sq. unfold bv_block.
  by replace (Z.to_nat (Z.of_nat i * 16)) with (16 * i)%nat by lia.
Qed.

(** A generator that gives [ds], step by step. *)
Lemma draws_steps n g ds g' : draw_doublewords n g = Ok (ds, g') →
  ∃ σ : nat → PRNG, σ 0%nat = g ∧ σ n = g' ∧
    ∀ i, (i < n)%nat → prng_get_doubleword (σ i) = Ok (ds !!! i, σ (S i)).
Proof.
  revert g ds. induction n as [|n IH]; intros g ds E; cbn [draw_doublewords] in E.
  - injection E as <- <-. exists (λ _, g). split_and!; [done..|lia].
  - destruct (prng_get_doubleword g) as [[x g1]| |] eqn:E1; [|done..]. cbn [mbind outcome_bind] in E.
    destruct (draw_doublewords n g1) as [[xs g2]| |] eqn:E2; [|done..]. injection E as <- <-.
    destruct (IH g1 xs E2) as (σ & H0 & Hn & H).
    exists (λ i, match i with O => g | S i => σ i end). split_and!; [done..|].
    intros [|i] Hi; [by rewrite H0|]. apply H. lia.
Qed.

Lemma slice_randomize_mat n F row G ds G' : (row < 128)%nat → draw_doublewords n G = Ok (ds, G') →
  slice_randomize (mat n F) (whole n) (Z.of_nat row) G
    = Ok (mat n (λ i r, if Nat.eqb r row then ds !!! i else F i r), G').
Proof.
  intros Hr E. destruct (draws_steps _ _ _ _ E) as (σ & <- & <- & H).
  unfold slice_randomize, randomize_rows, whole. cbn [sl_end sl_start].
  apply (foldM_mat (λ m i, (m, σ i))). intros i pre post Hi Hl. cbn beta iota.
  rewrite (vget_mid pre post) by done. cbn [mbind outcome_bind]. unfold randomize_row.
  rewrite H by done. cbn [mbind outcome_bind].
  rewrite vset_Ok by (rewrite sq_length; lia). cbn [mbind outcome_bind]. rewrite Nat2Z.id.
  rewrite vset_mid by done. cbn [mbind outcome_bind]. by rewrite sq_insert.
Qed.

Lemma conditional_add_sq f conditions g : bv_wf conditions → bv_nbits conditions = 128 →
  conditional_add (sq f) conditions (sq g) 0 =
    Ok (sq (λ r, if Z.testbit (bv_num conditions) (Z.of_nat r) then Z.lxor (f r) (g r) else f r)).
Proof.
  intros Hw Hn. unfold conditional_add.
  apply (foldM_tabulate (λ m _, m) f _ _ 128). intros r pre post Hr Hl.
  change (128 * 0 + Z.of_nat r) with (Z.of_nat r). rewrite bv_get_bit_spec by (done || lia).
  cbn [mbind outcome_bind]. destruct (Z.testbit _ _); [|done].
  rewrite (vget_mid pre post) by done. cbn [mbind outcome_bind].
  rewrite (vget_nat _ _ (g r)) by by apply sq_lookup. cbn [mbind outcome_bind]. by apply vset_mid.
Qed.

Lemma slice_conditional_add_mat n F conditions G : bv_wf conditions → bv_nbits conditions = 128 →
  slice_conditional_add (mat n F) (whole n) conditions (mat n G) false =
    Ok (mat n (λ i r, if Z.testbit (bv_num conditions) (Z.of_nat r) then Z.lxor (F i r) (G i r) else F i r)).
Proof.
  intros Hw Hn. apply (foldM_mat (λ m _, m)). intros i pre post Hi Hl.
  rewrite (vget_mid pre post) by done. cbn [mbind outcome_bind].
  rewrite (vget_nat _ _ (sq (G i))) by by apply mat_lookup. cbn [mbind outcome_bind].
  change (s32 (b2z false * Z.of_nat i)) with 0. rewrite conditional_add_sq by done. cbn [mbind outcome_bind].
  by apply vset_mid.
Qed.

(** ** Transposition *)

(** The number with the bits [b 0, ..., b (n - 1)]. *)
Definition num_of (b : nat → bool) (n : nat) : Z := foldr (λ c acc, b2z (b c) + 2 * acc) 0 (seq 0 n).

Lemma num_of_spec b k n :
  let v := foldr (λ c acc, b2z (b c) + 2 * acc) 0 (seq k n) in
  is_word (Z.of_nat n) v ∧ ∀ c, (c < n)%nat → Z.testbit v (Z.of_nat c) = b (k + c)%nat.
Proof.
  revert k. induction n as [|n IH]; intros k; [split; [done|lia]|]. cbn [seq foldr].
  destruct (IH (S k)) as [Hw Hb]. set (v := foldr _ _ _) in *. cbv zeta. unfold is_word in *. split.
  - rewrite Nat2Z.inj_succ, Z.pow_succ_r by lia. unfold b2z. destruct (b k); lia.
  - intros [|c] Hc.
    + rewrite Nat.add_0_r. change (Z.of_nat 0) with 0. unfold b2z. rewrite Z.add_comm.
      destruct (b k); [apply Z.testbit_odd_0|]. rewrite Z.add_0_r. apply Z.testbit_even_0.
    + rewrite Nat2Z.inj_succ, Z.add_comm. unfold b2z.
      replace (k + S c)%nat with (S k + c)%nat by lia. rewrite <-(Hb c) by lia.
      destruct (b k); [apply Z.testbit_odd_succ; lia|]. rewrite Z.add_0_r. apply Z.testbit_even_succ. lia.
Qed.

(** Column [r] of a square. *)
Definition col (f : nat → Key) (r : nat) : Key := num_of (λ c, Z.testbit (f c) (Z.of_nat r)) 128.

Lemma col_word f r : is_word 128 (col f r).
Proof. apply (num_of_spec _ 0 128). Qed.
Lemma col_testbit f r c : (c < 128)%nat → Z.testbit (col f r) (Z.of_nat c) = Z.testbit (f c) (Z.of_nat r).
Proof. intros Hc. apply (num_of_spec (λ c, Z.testbit (f c) (Z.of_nat r)) 0 128). done. Qed.

Lemma transpose_sq junk f : (∀ r, (r < 128)%nat → is_word 128 (f r)) → shape 128 16 junk →
  transpose_sse junk (sq f) = sq (col f).
Proof.
  intros Hf Hj. destruct (transpose_sse_bits (sq f) junk) as [Hw Hb]; [by apply sq_wf_fn|done|].
  apply sq_ext; [done|apply sq_wf_fn; intros; apply col_word|]. intros r c Hr Hc.
  rewrite Hb, !sq_total by done. by rewrite col_testbit.
Qed.

Lemma slice_transpose_mat junk n F : (∀ i r, (i < n)%nat → (r < 128)%nat → is_word 128 (F i r)) →
  (∀ i, shape 128 16 (junk i)) →
  slice_transpose junk (mat n F) (whole n) = Ok (mat n (λ i, col (F i))).
Proof.
  intros HF Hj. apply (foldM_mat (λ m _, m)). intros i pre post Hi Hl.
  rewrite (vget_mid pre post) by done. cbn [mbind outcome_bind]. rewrite vset_mid by done.
  rewrite transpose_sq; [done|intros; by apply HF|done].
Qed.

(** ** Through streams *)
Section stream_laws.
Context `{Heap}.

Lemma reserve_spec w l : os_wf w → 0 ≤ l → os_len w + l < 2 ^ 62 →
  ∃ w', reserve w l = Ok w' ∧ os_wf w' ∧ content w' = content w ∧ os_out w' = os_out w ∧
        os_len w' = os_len w.
Proof.
  intros Hw Hl Hm. unfold reserve. pose proof (wf_heads _ Hw). rewrite u64_id by lia.
  destruct (Z.ltb_spec (mxlen w) (os_len w + l)); [|by exists w].
  destruct (resize_precise_spec w (os_len w + l) Hw ltac:(lia) ltac:(lia)) as (d & -> & Hd & Hwd & Hc).
  exists (set_data w d). split_and!; done.
Qed.

(** Room that is made beforehand does not change what is carried. *)
Lemma carries_reserve {T} st (g : octetStream → outcome (T * octetStream)) x s l :
  0 ≤ l ≤ s → carries st g x s → carries (λ w, w' ← reserve w l; st w') g x s.
Proof.
  intros Hl C w Hw Ht Hs. pose proof (flushed_length w Hw). unfold flen in Hs.
  destruct (reserve_spec w l Hw) as (w1 & E1 & Hw1 & Hc1 & Ho1 & Hl1); [lia|lia|].
  assert (Hf : flushed w1 = flushed w) by (unfold flushed; by rewrite Hc1, Ho1).
  assert (Hfl : flen w1 = flen w) by (unfold flen; by rewrite Hf).
  destruct (C w1 Hw1) as (w' & E & Hw' & Ht' & Hl' & HF); [by rewrite Ho1|rewrite Hfl; exact Hs|].
  exists w'. rewrite E1. cbn [mbind outcome_bind]. split_and!; [done..|lia|].
  intros F HF'. destruct (HF F HF') as [Hf1 Hg]. unfold fits, sync in *.
  rewrite Hc1, Ho1 in Hf1. rewrite Hfl, Hc1, Ho1 in Hg. split; [done|exact Hg].
Qed.

Lemma chunks_join (s : list (list Z)) k : Forall (λ r, length r = k) s →
  chunks (length s) k (mjoin s) = s.
Proof.
  induction 1 as [|r s Hr _ IH]; [done|]. change (mjoin (r :: s)) with (r ++ mjoin s).
  cbn [length chunks]. rewrite take_app_length', drop_app_length' by done. by rewrite IH.
Qed.

Lemma sq_bytes_val f : (∀ r, (r < 128)%nat → is_word 128 (f r)) →
  le_val <$> chunks 128 16 (mjoin (sq_bytes (sq f))) = sq f.
Proof.
  intros Hf. destruct (sq_bytes_shape (sq f) (sq_length f)) as [Hl Hs].
  rewrite <-Hl, chunks_join by done. unfold sq_bytes, sq. rewrite <-!list_fmap_compose.
  apply list_fmap_ext. intros i r Hr. apply lookup_seq in Hr as [-> Hr]. apply le_val_bytes, Hf. lia.
Qed.

Lemma carries_square f s0 : (∀ r, (r < 128)%nat → is_word 128 (f r)) →
  carries (sq_pack (sq f)) (sq_unpack s0) (sq f) 2048.
Proof.
  intros Hf. set (x := mjoin (sq_bytes (sq f))).
  assert (Hx : length x = 2048%nat).
  { unfold x. generalize (sq_bytes_shape (sq f) (sq_length f)). generalize (sq_bytes (sq f)).
    intros m [Hl Hs]. rewrite length_join, (sum_list_fmap_same 16) by exact Hs. by rewrite Hl. }
  assert (Hu : Forall is_u8 x).
  { unfold x, sq_bytes. generalize (sq f). intros l. induction l as [|r l IH]; [constructor|].
    change (mjoin (le_bytes 16 <$> r :: l)) with (le_bytes 16 r ++ mjoin (le_bytes 16 <$> l)).
    apply Forall_app. split; [apply le_bytes_u8|exact IH]. }
  pose proof (carries_map (λ x, le_val <$> chunks 128 16 x) _ _ _ _ (Nat2Z.is_nonneg _) (carries_append x Hu)) as C.
  rewrite Hx in C. unfold x in C. rewrite sq_bytes_val in C by done.
  eapply carries_ext; [exact C|done|done|done].
Qed.

Lemma carries_squares n F G : (∀ i r, (i < n)%nat → (r < 128)%nat → is_word 128 (F i r)) →
  carries (pack_squares (mat n F) 0 (Z.of_nat n)) (unpack_squares (mat n G) 0 (Z.of_nat n))
    (mat n F) (2048 * Z.of_nat n).
Proof.
  intros HF. unfold pack_squares, unpack_squares. rewrite range_0.
  assert (L : ∀ k j, (j + k = n)%nat →
    carries (λ o, foldM (λ o i, s ← vget (mat n F) i; sq_pack s o) o (seqZ (Z.of_nat j) (Z.of_nat k)))
      (λ r, foldM (λ '(m, o) i, s ← vget m i; '(s, o) ← sq_unpack s o; m ← vset m i s; Ok (m, o))
         (((λ i, sq (F i)) <$> seq 0 j) ++ ((λ i, sq (G i)) <$> seq j k), r) (seqZ (Z.of_nat j) (Z.of_nat k)))
      (mat n F) (2048 * Z.of_nat k)).
  { induction k as [|k IH]; intros j Hj.
    - rewrite Nat.add_0_r in Hj. subst j. rewrite !seqZ_nil by lia. cbn [seq fmap list_fmap foldM].
      rewrite app_nil_r. apply carries_ret.
    - rewrite seqZ_cons by lia. cbn [seq fmap list_fmap foldM].
      replace (Z.pred (Z.of_nat (S k))) with (Z.of_nat k) by lia.
      replace (Z.succ (Z.of_nat j)) with (Z.of_nat (S j)) by lia.
      replace (2048 * Z.of_nat (S k)) with (2048 + 2048 * Z.of_nat k) by lia.
      eapply carries_ext; [apply (carries_bind (sq_pack (sq (F j))) (sq_unpack (sq (G j))) (sq (F j)) 2048
        (λ o, foldM (λ o i, s ← vget (mat n F) i; sq_pack s o) o (seqZ (Z.of_nat (S j)) (Z.of_nat k)))
        (λ s r, foldM (λ '(m, o) i, s ← vget m i; '(s, o) ← sq_unpack s o; m ← vset m i s; Ok (m, o))
         ((((λ i, sq (F i)) <$> seq 0 j) ++ [s]) ++ ((λ i, sq (G i)) <$> seq (S j) k), r)
           (seqZ (Z.of_nat (S j)) (Z.of_nat k))) (mat n F) (2048 * Z.of_nat k)); [lia|lia|apply carries_square; intros; apply HF; lia|]
        | | |done].
      + specialize (IH (S j) ltac:(lia)). rewrite seq_S, fmap_app in IH. exact IH.
      + intros w. cbv beta. rewrite (vget_nat _ _ (sq (F j))) by (apply mat_lookup; lia). done.
      + intros r. cbv beta. rewrite (vget_mid _ _ (sq (G j))) by (by rewrite length_fmap, length_seq).
        cbn [mbind outcome_bind]. destruct (sq_unpack (sq (G j)) r) as [[s r']| |]; [|done..].
        cbn [mbind outcome_bind]. rewrite vset_mid by (by rewrite length_fmap, length_seq).
        cbn [mbind outcome_bind]. by rewrite <-app_assoc. }
  apply (L n 0%nat). done.
Qed.

Lemma carries_slice n F G : (∀ i r, (i < n)%nat → (r < 128)%nat → is_word 128 (F i r)) →
  carries (slice_pack (mat n F) (whole n)) (slice_unpack (mat n G) (whole n)) (mat n F) (2048 * Z.of_nat n).
Proof.
  intros HF. unfold slice_pack, slice_unpack, whole. cbn [sl_end sl_start].
  apply carries_reserve; [lia|]. by apply carries_squares.
Qed.
End stream_laws.
