(* ===== verification/OtExtension.v ===== *)
(** * The OT extension

    [OTExtension] ([OT/OTExtension.h], [OT/OTExtension.cpp]), [OTCorrelator]
    ([OT/OTCorrelator.hpp]) and [OTExtensionWithMatrix]
    ([OT/OTExtensionWithMatrix.cpp]) over bit matrices, with the roles of
    [OT/BaseOT.cpp]: from 128 base OTs to correlated OTs and to random ones.

    A party is its state; the sockets of [TwoPartyPlayer] are the octets sent so far
    and the octets to be received. *)

From S2P Require Import Prelude Memory OctetStream OctetProps Xor Block Aes YaoKey Random BitVector Square128 Gf2n OtMatrix.

(** ** Roles and messages *)
Definition RECEIVER : Z := 0x01.
Definition SENDER : Z := 0x10.
Definition BOTH : Z := 0x11.

Definition INV_ROLE (role : Z) : Z :=
  if role =? RECEIVER then SENDER else if role =? SENDER then RECEIVER else BOTH.

Definition has_role (role r : Z) : bool := negb (Z.land role r =? 0).

Record Link := mkLink { l_out : list Z; l_in : list Z }.

Definition link_send (l : Link) (o : octetStream) : outcome Link :=
  x ← os_Send o; Ok (mkLink (l_out l ++ x) (l_in l)).

(** [receive_player_no_stats] *)
Definition link_receive `{Heap} (l : Link) (o : octetStream) : outcome (octetStream * Link) :=
  '(o, rest) ← os_Receive (reset_write_head o) (l_in l); Ok (o, mkLink (l_out l) rest).

Definition send_if_ot_receiver `{Heap} (P : Link) (os0 os1 : octetStream) (role : Z)
    : outcome (Link * octetStream) :=
  if role =? RECEIVER then P ← link_send P os0; Ok (P, os1)
  else if role =? SENDER then '(os1, P) ← link_receive P os1; Ok (P, os1)
  else P ← link_send P os0; '(os1, P) ← link_receive P os1; Ok (P, os1).

(** ** The state

    [senderOutputMatrices] has two elements, [ot_s0] and [ot_s1];
    [receiverOutputMatrix] is [ot_r]. *)
Record OTExt := mkOt {
  ot_role : Z;
  passive_only : bool;
  nbaseOTs : Z;
  nsubloops : Z;
  baseReceiverInput : BitVector;
  G_sender : list (PRNG * PRNG);
  G_receiver : list PRNG;
  ot_G : PRNG;
  ot_s0 : Matrix;
  ot_s1 : Matrix;
  ot_r : Matrix;
  ot_t1 : Matrix;
  ot_u : Matrix;
}.

Definition with_prngs (o : OTExt) (gs : list (PRNG * PRNG)) (gr : list PRNG) : OTExt :=
  mkOt (ot_role o) (passive_only o) (nbaseOTs o) (nsubloops o) (baseReceiverInput o) gs gr (ot_G o)
    (ot_s0 o) (ot_s1 o) (ot_r o) (ot_t1 o) (ot_u o).
Definition with_G (o : OTExt) (G : PRNG) : OTExt :=
  mkOt (ot_role o) (passive_only o) (nbaseOTs o) (nsubloops o) (baseReceiverInput o) (G_sender o)
    (G_receiver o) G (ot_s0 o) (ot_s1 o) (ot_r o) (ot_t1 o) (ot_u o).
Definition with_matrices (o : OTExt) (s0 s1 r t1 u : Matrix) : OTExt :=
  mkOt (ot_role o) (passive_only o) (nbaseOTs o) (nsubloops o) (baseReceiverInput o) (G_sender o)
    (G_receiver o) (ot_G o) s0 s1 r t1 u.

Section extension.
Context `{Heap}.

(** [OTExtension(baseOT, player, passive)] and [init]. *)
Definition init_base (role : Z) (receiver_outputs : list BitVector)
    (sender_inputs : list (BitVector * BitVector)) (st : list (PRNG * PRNG) * list PRNG) (i : Z)
    : outcome (list (PRNG * PRNG) * list PRNG) :=
  let '(gs, gr) := st in
  '(in0, in1) ← vget sender_inputs i;
  out ← vget receiver_outputs i;
  if (u32 (bv_nbytes in0) <? 16) || (u32 (bv_nbytes in1) <? 16) || (u32 (bv_nbytes out) <? 16)
  then Throw "assertion failed"
  else
    gs ← (if has_role role RECEIVER then
            x0 ← get_int128 in0 0; x1 ← get_int128 in1 0;
            if x0 =? x1 then Throw "base sender outputs are the same"
            else
              '(g0, g1) ← vget gs i;
              seed0 ← mem_read (bv_bytes in0) 0 SEED_SIZE; g0 ← SetSeed g0 seed0;
              seed1 ← mem_read (bv_bytes in1) 0 SEED_SIZE; g1 ← SetSeed g1 seed1;
              vset gs i (g0, g1)
          else Ok gs);
    gr ← (if has_role role SENDER then
            g ← vget gr i; seed ← mem_read (bv_bytes out) 0 SEED_SIZE; g ← SetSeed g seed; vset gr i g
          else Ok gr);
    Ok (gs, gr).

Definition ot_new (base_role : Z) (passive : bool) (receiver_inputs : BitVector)
    (sender_inputs : list (BitVector * BitVector)) (receiver_outputs : list BitVector) (G : PRNG)
    : outcome OTExt :=
  let role := INV_ROLE base_role in
  let n := s32 (u32 (bv_nbits receiver_inputs)) in
  if negb (Nat.eqb (length sender_inputs) (length receiver_outputs))
  then Throw "mismatch in number of base OTs"
  else if negb (u32 (bv_nbits receiver_inputs) =? Z.of_nat (length sender_inputs))
  then Throw "assertion failed"
  else
    gs ← vector_resize (prng_new, prng_new) [] n;
    gr ← vector_resize prng_new [] n;
    '(gs, gr) ← foldM (init_base role receiver_outputs sender_inputs) (gs, gr) (seqZ 0 n);
    Ok (mkOt role passive n 1 receiver_inputs gs gr G [] [] [] [] []).

(** ** Correlation *)

(** [OTCorrelator::resize] *)
Definition ot_resize (o : OTExt) (nOTs : Z) : outcome OTExt :=
  t1 ← resize_vertical (ot_t1 o) nOTs;
  u ← resize_vertical (ot_u o) nOTs;
  s0 ← resize_vertical (ot_s0 o) nOTs;
  s1 ← resize_vertical (ot_s1 o) nOTs;
  r ← resize_vertical (ot_r o) nOTs;
  Ok (with_matrices o s0 s1 r t1 u).

Definition expand (o : OTExt) (start slice : Z) : outcome OTExt :=
  rsl ← slice_new (ot_r o) start slice;
  ssl ← slice_new (ot_s0 o) start slice;
  _ ← slice_new (ot_s1 o) start slice;
  tsl ← slice_new (ot_t1 o) start slice;
  '(r, t1, gs) ← (if has_role (ot_role o) RECEIVER then
      foldM (λ '(r, t1, gs) i,
          '(g0, g1) ← vget gs i;
          '(r, g0) ← slice_randomize r rsl i g0;
          '(t1, g1) ← slice_randomize t1 tsl i g1;
          gs ← vset gs i (g0, g1);
          Ok (r, t1, gs)) (ot_r o, ot_t1 o, G_sender o) (seqZ 0 (nbaseOTs o))
    else Ok (ot_r o, ot_t1 o, G_sender o));
  '(s0, gr) ← (if has_role (ot_role o) SENDER then
      foldM (λ '(s0, gr) i,
          g ← vget gr i;
          '(s0, g) ← slice_randomize s0 ssl i g;
          gr ← vset gr i g;
          Ok (s0, gr)) (ot_s0 o, G_receiver o) (seqZ 0 (nbaseOTs o))
    else Ok (ot_s0 o, G_receiver o));
  Ok (with_matrices (with_prngs o gs gr) s0 (ot_s1 o) r t1 (ot_u o)).

Definition correlate (o : OTExt) (P : Link) (start slice : Z) (newReceiverInput : BitVector)
    (useConstantBase : bool) (repeat : Z) : outcome (OTExt * Link) :=
  rsl ← slice_new (ot_r o) start slice;
  ssl ← slice_new (ot_s0 o) start slice;
  tsl ← slice_new (ot_t1 o) start slice;
  usl ← slice_new (ot_u o) start slice;
  '(t1, os0) ← (if has_role (ot_role o) RECEIVER then
      t1 ← slice_rsub (ot_t1 o) tsl (ot_r o) rsl;
      t1 ← slice_sub t1 tsl newReceiverInput repeat;
      os0 ← slice_pack t1 tsl os_new;
      Ok (t1, os0)
    else Ok (ot_t1 o, os_new));
  '(P, os1) ← send_if_ot_receiver P os0 os_new (ot_role o);
  '(s0, u) ← (if has_role (ot_role o) SENDER then
      '(u, _) ← slice_unpack (ot_u o) usl os1;
      s0 ← slice_conditional_add (ot_s0 o) ssl (baseReceiverInput o) u (negb useConstantBase);
      Ok (s0, u)
    else Ok (ot_s0 o, ot_u o));
  Ok (with_matrices o s0 (ot_s1 o) (ot_r o) t1 u, P).

(** [OTExtensionWithMatrix::transpose] *)
Definition ot_transpose (junk : Z → list (list Z)) (o : OTExt) (start slice : Z) : outcome OTExt :=
  let slice := if slice <? 0 then s32 (Z.of_nat (length (ot_r o))) else slice in
  rsl ← slice_new (ot_r o) start slice;
  ssl ← slice_new (ot_s0 o) start slice;
  _ ← slice_new (ot_s1 o) start slice;
  r ← (if has_role (ot_role o) RECEIVER then slice_transpose junk (ot_r o) rsl else Ok (ot_r o));
  s0 ← (if has_role (ot_role o) SENDER then slice_transpose junk (ot_s0 o) ssl else Ok (ot_s0 o));
  Ok (with_matrices o s0 (ot_s1 o) r (ot_t1 o) (ot_u o)).

(** Row [i] of a matrix: [get_receiver_output], [get_sender_output]. *)
Definition output_row (m : Matrix) (i : Z) : outcome Key :=
  s ← vget m (Z.quot i 128); vget s (Z.rem i 128).

(** ** The check of KOS15 *)
Section check.
Context (clmul : Z → Key → Key → Key).

Definition check_iteration (o : OTExt) (P : Link) (delta q q2 t t2 x : Key) : outcome Link :=
  os0 ← (if has_role (ot_role o) RECEIVER then
      os ← os_append os_new (le_bytes 16 x);
      os ← os_append os (le_bytes 16 t);
      os_append os (le_bytes 16 t2)
    else Ok os_new);
  '(P, os1) ← send_if_ot_receiver P os0 os_new (ot_role o);
  if has_role (ot_role o) SENDER then
    '(received_x, os1) ← os_consume os1 16;
    '(received_t, os1) ← os_consume os1 16;
    '(received_t2, os1) ← os_consume os1 16;
    let '(tmp1, tmp2) := mul128 clmul (le_val received_x) delta in
    let tmp1 := Z.lxor tmp1 q in
    let tmp2 := Z.lxor tmp2 q2 in
    if (tmp1 =? le_val received_t) && (tmp2 =? le_val received_t2) then Ok P
    else Throw "correlation check"
  else Ok P.

(** One turn of the loop of [check_correlation]. *)
Definition check_row (o : OTExt) (receiverInput : BitVector) (st : PRNG * Key * (Key * Key) * (Key * Key))
    (i : Z) : outcome (PRNG * Key * (Key * Key) * (Key * Key)) :=
  let '(G, x, (t, t2), (q, q2)) := st in
  '(chi, G) ← prng_get_doubleword G;
  '(x, t, t2) ← (if has_role (ot_role o) RECEIVER then
      b ← bv_get_bit receiverInput i;
      ti ← output_row (ot_r o) i;
      let '(ti, ti2) := mul128 clmul ti chi in
      Ok (if b : bool then Z.lxor x chi else x, Z.lxor t ti, Z.lxor t2 ti2)
    else Ok (x, t, t2));
  '(q, q2) ← (if has_role (ot_role o) SENDER then
      qi ← output_row (ot_s0 o) i;
      let '(qi, qi2) := mul128 clmul qi chi in
      Ok (Z.lxor q qi, Z.lxor q2 qi2)
    else Ok (q, q2));
  Ok (G, x, (t, t2), (q, q2)).

(** The constructor of [GlobalPRNG], which seeds a generator together with the other
    party, is an argument; [Commit] has it. *)
Definition check_correlation (o : OTExt) (P : Link) (GlobalPRNG : Link → outcome (PRNG * Link)) (nOTs : Z)
    (receiverInput : BitVector) : outcome Link :=
  if negb (nbaseOTs o =? 128) then Throw "not_implemented"
  else
    '(G, P) ← GlobalPRNG P;
    delta ← mem_read (bv_bytes (baseReceiverInput o)) 0 16;
    '(_, x, (t, t2), (q, q2)) ← foldM (check_row o receiverInput) (G, 0, (0, 0), (0, 0)) (seqZ 0 nOTs);
    check_iteration o P (le_val delta) q q2 t t2 x.

(** ** [extend_correlated]

    [junk start] is what the scratch squares of [transpose] hold; a product or a sum
    that an [int] cannot hold is undefined. *)
Definition randomize_tail (nOTs : Z) (st : BitVector * PRNG) (i : Z) : outcome (BitVector * PRNG) :=
  let '(v, G) := st in
  '(w, G) ← get_word G;
  v ← bv_set_word v (Z.quot nOTs 64 - i - 1) w;
  Ok (v, G).

Definition correlated_slice (junk : Z → list (list Z)) (slice : Z) (input : BitVector)
    (st : OTExt * Link) (start : Z) : outcome (OTExt * Link) :=
  let '(o, P) := st in
  o ← expand o start slice;
  '(o, P) ← correlate o P start slice input true 1;
  o ← ot_transpose junk o start slice;
  Ok (o, P).

Definition extend_correlated (junk : Z → list (list Z)) (o : OTExt) (P : Link)
    (GlobalPRNG : Link → outcome (PRNG * Link)) (nOTs_requested : Z) (newReceiverBits : BitVector) : outcome (OTExt * Link) :=
  if nOTs_requested =? 0 then Ok (o, P)
  else
    input ← bv_copy newReceiverBits;
    if has_role (ot_role o) RECEIVER && negb (u64 nOTs_requested =? u32 (bv_nbits input))
    then Throw "wrong number of choice bits"
    else
      let rounded := Z.quot (nOTs_requested + 127) 128 * 128 in
      let nOTs := rounded + 2 * 128 in
      if (nsubloops o <? 1) || (2 ^ 31 <=? nOTs) then UB
      else
        let slice := Z.quot (Z.quot nOTs (nsubloops o)) 128 in
        let nOTs := slice * nsubloops o * 128 in
        let starts := (λ j, j * slice) <$> seqZ 0 (if slice <? 1 then 0 else nsubloops o) in
        o ← ot_resize o nOTs;
        input ← bv_resize_zero input (u64 nOTs);
        '(input, oG) ← foldM (randomize_tail nOTs) (input, ot_G o) (seqZ 0 4);
        let o := with_G o oG in
        '(o, P) ← foldM (correlated_slice junk slice input) (o, P) starts;
        P ← (if passive_only o then Ok P else check_correlation o P GlobalPRNG nOTs input);
        r ← bitmatrix_resize (ot_r o) rounded;
        s0 ← bitmatrix_resize (ot_s0 o) rounded;
        s1 ← bitmatrix_resize (ot_s1 o) rounded;
        Ok (with_matrices o s0 s1 r (ot_t1 o) (ot_u o), P).
End check.

(** [expand_correlate_unchecked] *)
Definition expand_correlate_unchecked (o : OTExt) (P : Link) (delta : BitVector) (n_bits : Z)
    : outcome (OTExt * Link) :=
  let n_bits := if n_bits <? 0 then s32 (u32 (bv_nbits delta)) else n_bits in
  o ← ot_resize o n_bits;
  let slice := s32 (Z.of_nat (length (ot_r o))) in
  o ← expand o 0 slice;
  tmp ← bv_copy delta;
  tmp ← bv_resize_zero tmp (vertical_size (ot_r o));
  correlate o P 0 slice tmp true 1.

(** [expand_transposed] *)
Definition expand_transposed (o : OTExt) : outcome OTExt :=
  let randomize_at (m : Matrix) (i : Z) (g : PRNG) : outcome (Matrix * PRNG) :=
    s ← vget m (i / 128); '(s, g) ← randomize_row s (i mod 128) g; m ← vset m (i / 128) s; Ok (m, g) in
  '(r, t1, gs, s0, gr) ← foldM (λ '(r, t1, gs, s0, gr) i,
      '(r, t1, gs) ← (if has_role (ot_role o) RECEIVER then
          '(g0, g1) ← vget gs i;
          '(r, g0) ← randomize_at r i g0;
          '(t1, g1) ← randomize_at t1 i g1;
          gs ← vset gs i (g0, g1);
          Ok (r, t1, gs)
        else Ok (r, t1, gs));
      '(s0, gr) ← (if has_role (ot_role o) SENDER then
          g ← vget gr i;
          '(s0, g) ← randomize_at s0 i g;
          gr ← vset gr i g;
          Ok (s0, gr)
        else Ok (s0, gr));
      Ok (r, t1, gs, s0, gr))
    (ot_r o, ot_t1 o, G_sender o, ot_s0 o, G_receiver o) (seqZ 0 (nbaseOTs o));
  Ok (with_matrices (with_prngs o gs gr) s0 (ot_s1 o) r t1 (ot_u o)).

(** ** Random OTs

    [hash_outputs(nOTs)], into the matrices themselves; eight rows at a time. *)
Definition get_rows8 (m : Matrix) (i : Z) : outcome (list Key) :=
  s ← vget m (i / 128); mapM_out (λ j, vget s (i mod 128 + j)) (seqZ 0 8).
Definition set_rows8 (m : Matrix) (i : Z) (x : list Key) : outcome Matrix :=
  s ← vget m (i / 128);
  s ← foldM (λ s j, v ← vget x j; vset s (i mod 128 + j) v) s (seqZ 0 8);
  vset m (i / 128) s.

Definition hash_eight (o : OTExt) (correlated : bool) (i : Z) : outcome OTExt :=
  '(s0, s1) ← (if has_role (ot_role o) SENDER then
      tmp0 ← get_rows8 (ot_s0 o) i;
      tmp1 ← (if correlated then
                delta ← get_int128 (baseReceiverInput o) 0; Ok ((λ t, Z.lxor t delta) <$> tmp0)
              else get_rows8 (ot_s1 o) i);
      s0 ← set_rows8 (ot_s0 o) i (mmo_hashes tmp0);
      s1 ← set_rows8 (ot_s1 o) i (mmo_hashes tmp1);
      Ok (s0, s1)
    else Ok (ot_s0 o, ot_s1 o));
  r ← (if has_role (ot_role o) RECEIVER then
      tmp ← get_rows8 (ot_r o) i; set_rows8 (ot_r o) i (mmo_hashes tmp)
    else Ok (ot_r o));
  Ok (with_matrices o s0 s1 r (ot_t1 o) (ot_u o)).

Definition hash_outputs (o : OTExt) (nOTs : Z) (correlated : bool) : outcome OTExt :=
  let n := Z.quot (nOTs + 127) 128 * 128 in
  s0 ← resize_vertical (ot_s0 o) n;
  s1 ← resize_vertical (ot_s1 o) n;
  r ← resize_vertical (ot_r o) n;
  let o := with_matrices o s0 s1 r (ot_t1 o) (ot_u o) in
  if negb (Z.rem nOTs 8 =? 0) then Throw "number of OTs must be divisible by 8"
  else foldM (λ o k, hash_eight o correlated (8 * k)) o (seqZ 0 (nOTs / 8)).

(** [OTExtensionWithMatrix::transfer], the copy of the choice bits. *)
Definition transfer_input (nOTs : Z) (receiverInput : BitVector) : outcome BitVector :=
  v ← bv_make (u64 nOTs);
  foldM (λ v i, b ← get_byte receiverInput i; set_byte v i b) v (seqZ 0 (u32 (bv_nbytes receiverInput))).
End extension.
