(* ===== verification/OtProps.v ===== *)
(** * Correctness of the OT extension

    Two paired parties expand, correlate, transpose and check: the rows of the sender
    and of the receiver differ by [delta] where the choice bit is one. *)

From S2P Require Import Prelude Memory OctetStream OctetProps Xor Block Aes YaoKey YaoGate Random BitVector Square128 Gf2n OtMatrix OtExtension.

(** ** Messages of octets *)
Section messages.
Context `{Heap}.

Lemma resize_precise_out os l os' : resize_precise os l = Ok os' → os_out os' = os_out os.
Proof.
  unfold resize_precise. destruct (_ =? _); intros E; [congruence|].
  bind_inv E. bind_inv E. bind_inv E. by injection E as <-.
Qed.

Lemma append_raw_out os l os' p : append_raw os l = Ok (os', p) → os_out os' = os_out os.
Proof.
  unfold append_raw, os_resize. intros E. bind_inv E. injection E as <- <-. cbn.
  destruct (_ <? _); [|congruence]. destruct (_ <? _); [congruence|]. by apply resize_precise_out in E0.
Qed.

Lemma os_append_out os x os' : os_out os = bits0 → os_append os x = Ok os' → os_out os' = bits0.
Proof.
  intros Ho E. unfold os_append, append_ptr in E. rewrite Ho in E. cbn [bits0 bb_n Z.eqb] in E.
  bind_inv E. destruct a as [os1 p]. bind_inv E0. injection E1 as <-. apply append_raw_out in E0.
  unfold poke in E. bind_inv E. injection E as <-. cbn. congruence.
Qed.

Lemma store_int_out w l n w' : os_out w = bits0 → store_int w l n = Ok w' → os_out w' = bits0.
Proof.
  intros Hw E. unfold store_int, append_ptr in E. rewrite Hw in E. cbn [bits0 bb_n Z.eqb] in E.
  bind_inv E. destruct a as [w1 p]. bind_inv E. apply append_raw_out in E0.
  unfold poke in E. bind_inv E. injection E as <-. cbn. congruence.
Qed.

Lemma store_bytes_out os x os' : os_out os = bits0 → store_bytes os x = Ok os' → os_out os' = bits0.
Proof.
  intros Ho E. unfold store_bytes in E. bind_inv E. destruct a as [os1 p].
  unfold append_ptr in E0. rewrite Ho in E0. cbn [bits0 bb_n Z.eqb] in E0. bind_inv E0. injection E1 as <-.
  apply append_raw_out in E0. bind_inv E. bind_inv E. eapply os_append_out; [|exact E].
  unfold poke in E2. bind_inv E2. injection E2 as <-. cbn. congruence.
Qed.

Lemma slice_pack_out bm sl os os' : os_out os = bits0 → slice_pack bm sl os = Ok os' → os_out os' = bits0.
Proof.
  intros Ho E. unfold slice_pack, pack_squares in E. bind_inv E.
  assert (Ha : os_out a = bits0).
  { unfold reserve in E0. destruct (_ <? _); [|congruence]. apply resize_precise_out in E0. congruence. }
  clear E0. revert E. apply (foldM_preserves (λ o, os_out o = bits0)); [|done].
  intros o i o' Hp E. bind_inv E. by apply os_append_out in E.
Qed.

(** What is sent is received and read. *)
Lemma message {T} st (get : octetStream → outcome (T * octetStream)) x size :
  carries st get x size → (∀ w', st os_new = Ok w' → os_out w' = bits0) →
  0 ≤ size < 2 ^ 32 - 1 →
  ∃ w wire, st os_new = Ok w ∧ os_Send w = Ok wire ∧
    ∀ r0 rest, os_wf r0 → ∃ o r', os_Receive r0 (wire ++ rest) = Ok (o, rest) ∧ get o = Ok (x, r').
Proof.
  intros C Ho Hs.
  destruct (C os_new os_new_wf) as (w & E & Hw & Ht & Hl & HF); [done|rewrite flen_new; lia|].
  pose proof (flushed_length w Hw). rewrite flen_new in Hl. unfold flen in Hl.
  pose proof (Ho w E) as Hout. pose proof (content_length w Hw) as Hlen.
  exists w, (le_bytes 4 (os_len w) ++ content w). split; [done|].
  split; [apply os_Send_spec; (done || lia)|]. intros r0 rest Hr.
  rewrite <-Hlen, <-app_assoc.
  destruct (os_Receive_spec r0 (content w) rest Hr) as (r & Er & Hwr & Hcr & Hp & Hi);
    [by apply content_u8|lia|].
  exists r. destruct (HF (content w)) as [_ Hg]; [split; [done|rewrite Hout; cbn; lia]|].
  destruct (Hg r) as (r' & Eg & _).
  - unfold sync. rewrite flen_new. split_and!; done.
  - by exists r'.
Qed.
End messages.

(** ** Matrices of any content *)
Definition mat_shape (n : nat) (m : Matrix) : Prop :=
  length m = n ∧ Forall (λ s : square128, length s = 128%nat) m.

Lemma mat_of_shape n m : mat_shape n m → m = mat n (λ i r, (m !!! i) !!! r).
Proof.
  intros [Hl Hs]. apply (list_eq_same_length _ _ n); [apply mat_length|done|].
  intros i s s' Hi Hx. rewrite mat_lookup by done. intros [= <-].
  rewrite (list_lookup_total_correct _ _ _ Hx). apply sq_of_rows. by eapply Forall_lookup_1 in Hs.
Qed.

Lemma mat_shape_mat n F : mat_shape n (mat n F).
Proof.
  split; [apply mat_length|]. apply Forall_fmap, Forall_seq. intros i Hi. apply sq_length.
Qed.

Lemma vector_resize_shape k m n : mat_shape k m →
  ∃ m', vector_resize zero_square m (Z.of_nat n) = Ok m' ∧ mat_shape n m'.
Proof.
  intros [Hl Hs]. unfold vector_resize. rewrite (proj2 (Z.ltb_ge _ _)), Nat2Z.id by lia.
  eexists. split; [done|]. split.
  - rewrite length_app, length_take, length_replicate. lia.
  - apply Forall_app. split; [by apply Forall_take|by apply Forall_replicate].
Qed.

Lemma resize_vertical_shape k m n : mat_shape k m →
  ∃ m', resize_vertical m (Z.of_nat n * 128) = Ok m' ∧ mat_shape n m'.
Proof.
  intros Hm. unfold resize_vertical, DIV_CEIL. rewrite Z.quot_div_nonneg by lia.
  replace ((Z.of_nat n * 128 + 128 - 1) / 128) with (Z.of_nat n).
  - by apply (vector_resize_shape k).
  - apply Z.div_unique with 127; lia.
Qed.

Lemma bitmatrix_resize_shape k m n : mat_shape k m →
  ∃ m', bitmatrix_resize m (Z.of_nat n * 128) = Ok m' ∧ mat_shape n m'.
Proof.
  intros Hm. unfold bitmatrix_resize. rewrite Z.rem_mul, Z.quot_mul by lia. by apply (vector_resize_shape k).
Qed.

(** Shrinking keeps the first squares. *)
Lemma bitmatrix_resize_mat N n F : (n ≤ N)%nat →
  bitmatrix_resize (mat N F) (Z.of_nat n * 128) = Ok (mat n F).
Proof.
  intros Hn. unfold bitmatrix_resize. rewrite Z.rem_mul, Z.quot_mul by lia.
  unfold vector_resize. rewrite (proj2 (Z.ltb_ge _ _)), Nat2Z.id, mat_length by lia.
  cbn [negb]. replace (n - N)%nat with 0%nat by lia. cbn [replicate]. rewrite app_nil_r. f_equal.
  unfold mat. rewrite <-fmap_take, take_seq. by rewrite Nat.min_l by lia.
Qed.

(** ** Expansion *)
Definition draws (key : list Block) (p : Z) (i : nat) : Key := le_val (block_at key (p + Z.of_nat i)).

Lemma draws_word key p i : schedule_wf key → is_word 128 (draws key p i).
Proof.
  intros Hk. destruct (block_at_wf key (p + Z.of_nat i) Hk) as [Hl Hu].
  pose proof (le_val_word _ Hu) as Hw. by rewrite Hl in Hw.
Qed.

Definition room (p : Z) (n : nat) : Prop := 0 ≤ p ∧ 16 * (p + Z.of_nat n) < prng_limit - 256.

(** A row of a whole matrix from a generator. *)
Lemma randomize_draws n F row g key p : (row < 128)%nat → at_pos g key (16 * p) → room p n →
  ∃ g', slice_randomize (mat n F) (whole n) (Z.of_nat row) g
          = Ok (mat n (λ i r, if Nat.eqb r row then draws key p i else F i r), g') ∧
        at_pos g' key (16 * (p + Z.of_nat n)).
Proof.
  intros Hr Hp [H0 Hm]. destruct (draw_doublewords_spec n g key p Hp H0 Hm) as (g' & E & Hp' & _).
  exists g'. split; [|done]. rewrite (slice_randomize_mat _ _ _ _ _ _ Hr E). do 2 f_equal.
  apply mat_ext. intros i r Hi _. destruct (Nat.eqb r row); [|done].
  apply list_lookup_total_correct. rewrite list_lookup_fmap.
  rewrite lookup_seqZ_lt by lia. done.
Qed.

(** What a row loop has done after [k] rows. *)
Definition rows_done (k : nat) (D F : nat → nat → Key) (i r : nat) : Key :=
  if (r <? k)%nat then D i r else F i r.

Lemma rows_done_step k D F i r :
  (if Nat.eqb r k then D i k else rows_done k D F i r) = rows_done (S k) D F i r.
Proof.
  unfold rows_done. destruct (Nat.eqb_spec r k) as [->|Hne].
  - by rewrite (proj2 (Nat.ltb_lt _ _)) by lia.
  - destruct (Nat.ltb_spec r k), (Nat.ltb_spec r (S k)); (done || lia).
Qed.

Lemma rows_done_all n D F : mat n (rows_done 128 D F) = mat n D.
Proof. apply mat_ext. intros i r _ Hr. unfold rows_done. by rewrite (proj2 (Nat.ltb_lt _ _) Hr). Qed.

(** The generators of all rows at position [p]. *)
Definition gens (key : nat → list Block) (p : Z) (gr : list PRNG) : Prop :=
  length gr = 128%nat ∧ ∀ i g, gr !! i = Some g → at_pos g (key i) (16 * p).
Definition gens2 (key : nat → bool → list Block) (p : Z) (gs : list (PRNG * PRNG)) : Prop :=
  length gs = 128%nat ∧ ∀ i g0 g1, gs !! i = Some (g0, g1) →
    at_pos g0 (key i false) (16 * p) ∧ at_pos g1 (key i true) (16 * p).

(** In the middle of a loop over the rows. *)
Definition at_row (k i : nat) (p q : Z) : Z := if (i <? k)%nat then q else p.

Lemma at_row_S k i p q : i ≠ k → at_row (S k) i p q = at_row k i p q.
Proof. intros Hi. unfold at_row. destruct (Nat.ltb_spec i k), (Nat.ltb_spec i (S k)); (done || lia). Qed.

Lemma sender_loop n F key p gr : gens key p gr → room p n →
  ∃ gr', foldM (λ '(s0, gr) i,
            g ← vget gr i; '(s0, g) ← slice_randomize s0 (whole n) i g; gr ← vset gr i g; Ok (s0, gr))
           (mat n F, gr) (seqZ 0 128) = Ok (mat n (λ i r, draws (key r) p i), gr') ∧
         gens key (p + Z.of_nat n) gr'.
Proof.
  intros [Hl Hg] Hroom. set (D := λ i r, draws (key r) p i).
  destruct (foldM_inv (λ k '(s0, gr), s0 = mat n (rows_done k D F) ∧ length gr = 128%nat ∧
      ∀ i g, gr !! i = Some g → at_pos g (key i) (16 * at_row k i p (p + Z.of_nat n)))
    (λ '(s0, gr) i, g ← vget gr i; '(s0, g) ← slice_randomize s0 (whole n) i g; gr ← vset gr i g; Ok (s0, gr))
    (seqZ 0 128) (mat n F, gr)) as ([s0 gr'] & E & -> & Hl' & Hg').
  - split; [by apply mat_ext|]. done.
  - intros k x [s0 gr1] Hx (-> & Hl1 & Hg1). apply lookup_seqZ in Hx as [-> Hk]. rewrite Z.add_0_l.
    destruct (lookup_lt_is_Some_2 gr1 k) as [g Hgk]; [lia|].
    rewrite (vget_nat _ _ g) by done. cbn [mbind outcome_bind].
    pose proof (Hg1 k g Hgk) as Hp. unfold at_row in Hp. rewrite (proj2 (Nat.ltb_ge _ _)) in Hp by lia.
    destruct (randomize_draws n (rows_done k D F) k g _ _ ltac:(lia) Hp Hroom) as (g' & -> & Hp').
    cbn [mbind outcome_bind]. rewrite vset_Ok by lia. rewrite Nat2Z.id. cbn [mbind outcome_bind].
    eexists (_, _). split; [done|]. split; [|split].
    + apply mat_ext. intros i r _ _. apply (rows_done_step k D F i r).
    + by rewrite length_insert.
    + intros i g0 Hi. apply list_lookup_insert_Some in Hi as [(-> & <- & _)|[Hne Hi]].
      * unfold at_row. by rewrite (proj2 (Nat.ltb_lt _ _)) by lia.
      * rewrite at_row_S by done. by apply Hg1.
  - rewrite length_seqZ in *. change (Z.to_nat 128) with 128%nat in *. exists gr'. rewrite E, rows_done_all. split; [done|].
    split; [done|]. intros i g Hi. specialize (Hg' i g Hi). unfold at_row in Hg'.
    apply lookup_lt_Some in Hi. by rewrite (proj2 (Nat.ltb_lt i 128)) in Hg' by lia.
Qed.

Lemma receiver_loop n F F' key p gs : gens2 key p gs → room p n →
  ∃ gs', foldM (λ '(r, t1, gs) i,
            '(g0, g1) ← vget gs i;
            '(r, g0) ← slice_randomize r (whole n) i g0;
            '(t1, g1) ← slice_randomize t1 (whole n) i g1;
            gs ← vset gs i (g0, g1);
            Ok (r, t1, gs))
           (mat n F, mat n F', gs) (seqZ 0 128)
         = Ok (mat n (λ i r, draws (key r false) p i), mat n (λ i r, draws (key r true) p i), gs') ∧
         gens2 key (p + Z.of_nat n) gs'.
Proof.
  intros [Hl Hg] Hroom. set (D := λ b i r, draws (key r b) p i).
  match goal with |- ∃ _, foldM ?step _ _ = _ ∧ _ =>
  destruct (foldM_inv (λ k '(m, t1, gs), m = mat n (rows_done k (D false) F) ∧
      t1 = mat n (rows_done k (D true) F') ∧ length gs = 128%nat ∧
      ∀ i g0 g1, gs !! i = Some (g0, g1) →
        at_pos g0 (key i false) (16 * at_row k i p (p + Z.of_nat n)) ∧
        at_pos g1 (key i true) (16 * at_row k i p (p + Z.of_nat n)))
    step (seqZ 0 128) (mat n F, mat n F', gs)) as ([[m t1] gs'] & E & -> & -> & Hl' & Hg')
  end.
  - split; [by apply mat_ext|]. split; [by apply mat_ext|]. done.
  - intros k x [[m t1] gs1] Hx (-> & -> & Hl1 & Hg1). apply lookup_seqZ in Hx as [-> Hk]. rewrite Z.add_0_l.
    destruct (lookup_lt_is_Some_2 gs1 k) as [[g0 g1] Hgk]; [lia|].
    rewrite (vget_nat _ _ (g0, g1)) by done. cbn [mbind outcome_bind].
    destruct (Hg1 k g0 g1 Hgk) as [Hp0 Hp1]. unfold at_row in Hp0, Hp1.
    rewrite (proj2 (Nat.ltb_ge k k)) in Hp0, Hp1 by lia.
    destruct (randomize_draws n (rows_done k (D false) F) k g0 _ _ ltac:(lia) Hp0 Hroom) as (g0' & -> & Hp0').
    cbn [mbind outcome_bind].
    destruct (randomize_draws n (rows_done k (D true) F') k g1 _ _ ltac:(lia) Hp1 Hroom) as (g1' & -> & Hp1').
    cbn [mbind outcome_bind]. rewrite vset_Ok by lia. rewrite Nat2Z.id. cbn [mbind outcome_bind].
    eexists (_, _, _). split; [done|]. split_and!.
    + apply mat_ext. intros i r _ _. apply (rows_done_step k (D false) F i r).
    + apply mat_ext. intros i r _ _. apply (rows_done_step k (D true) F' i r).
    + by rewrite length_insert.
    + intros i h0 h1 Hi. apply list_lookup_insert_Some in Hi as [(-> & [= <- <-] & _)|[Hne Hi]].
      * unfold at_row. by rewrite (proj2 (Nat.ltb_lt _ _)) by lia.
      * rewrite at_row_S by done. by apply Hg1.
  - rewrite length_seqZ in *. change (Z.to_nat 128) with 128%nat in *. exists gs'. rewrite E, !rows_done_all. split; [done|].
    split; [done|]. intros i g0 g1 Hi. specialize (Hg' i g0 g1 Hi). unfold at_row in Hg'.
    apply lookup_lt_Some in Hi. by rewrite (proj2 (Nat.ltb_lt i 128)) in Hg' by lia.
Qed.

(** ** Bits of vectors *)
Lemma le_val_drop l n : Forall is_u8 l → le_val (drop n l) = Z.shiftr (le_val l) (8 * Z.of_nat n).
Proof.
  revert n. induction l as [|b l IH]; intros [|n] Hu; try done.
  - by rewrite drop_nil, Z.shiftr_0_l.
  - apply Forall_cons in Hu as [Hb Hl]. cbn [drop le_val]. rewrite IH by done.
    replace (8 * Z.of_nat (S n)) with (8 + 8 * Z.of_nat n) by lia.
    rewrite <-Z.shiftr_shiftr by lia. f_equal. rewrite Z.shiftr_div_pow2 by lia.
    unfold is_word in Hb. rewrite Z.mul_comm, Z.div_add by lia. by rewrite Z.div_small by lia.
Qed.

Lemma le_val_take l n i : Forall is_u8 l → 0 ≤ i < 8 * Z.of_nat n →
  Z.testbit (le_val (take n l)) i = Z.testbit (le_val l) i.
Proof.
  intros Hu Hi. rewrite !le_val_testbit by (lia || done || by apply Forall_take).
  rewrite lookup_take_lt; [done|]. assert (i / 8 < Z.of_nat n) by (apply Z.div_lt_upper_bound; lia).
  pose proof (Z.div_pos i 8). lia.
Qed.

Lemma bv_block_testbit v i k : bv_wf v → (k < 128)%nat →
  Z.testbit (bv_block v i) (Z.of_nat k) = Z.testbit (bv_num v) (128 * Z.of_nat i + Z.of_nat k).
Proof.
  intros Hw Hk. unfold bv_block, bv_num. pose proof (bv_val_u8 v Hw) as Hu.
  rewrite le_val_take by (lia || by apply Forall_drop). rewrite le_val_drop by done.
  rewrite Z.shiftr_spec by lia. f_equal. lia.
Qed.

Lemma bv_block_word v i : bv_wf v → is_word 128 (bv_block v i).
Proof.
  intros Hw. unfold bv_block.
  pose proof (le_val_word (take 16 (drop (16 * i) (bv_val v)))) as H.
  eapply is_word_le; [|apply H, Forall_take, Forall_drop, bv_val_u8, Hw]. rewrite length_take. lia.
Qed.

(** Adding the same row to the rows that [delta] selects is adding [delta] to the
    columns that the row selects. *)
Lemma col_select f x delta r : is_word 128 delta → (r < 128)%nat →
  col (λ k, if Z.testbit delta (Z.of_nat k) then Z.lxor (f k) x else f k) r
    = Z.lxor (col f r) (key_if (Z.testbit x (Z.of_nat r)) delta).
Proof.
  intros Hd Hr. apply Z.bits_inj'. intros i Hi.
  assert (Hw : is_word 128 (Z.lxor (col f r) (key_if (Z.testbit x (Z.of_nat r)) delta))).
  { apply is_word_lxor; [lia|apply col_word|]. unfold key_if. by destruct (Z.testbit _ _). }
  destruct (Z.lt_ge_cases i 128) as [Hlt|];
    [|rewrite (is_word_high _ _ _ (col_word _ r)), (is_word_high _ _ _ Hw) by lia; done].
  replace i with (Z.of_nat (Z.to_nat i)) by lia.
  rewrite Z.lxor_spec, !col_testbit by lia. unfold key_if.
  destruct (Z.testbit delta (Z.of_nat (Z.to_nat i))) eqn:Ed.
  - rewrite Z.lxor_spec. destruct (Z.testbit x (Z.of_nat r)); by rewrite ?Ed, ?Z.bits_0.
  - destruct (Z.testbit x (Z.of_nat r)); rewrite ?Ed, ?Z.bits_0; by rewrite xorb_false_r.
Qed.

Lemma bv_num_bytes v : bv_wf v → bv_nbits v = 128 →
  mem_read (bv_bytes v) 0 16 = Ok (bv_val v) ∧ is_word 128 (bv_num v).
Proof.
  intros Hw Hn. pose proof (bv_val_length v Hw) as Hl. rewrite (bv_size v Hw), Hn in Hl. change ((128 + 7) / 8) with 16 in Hl.
  split.
  - rewrite bv_read by (rewrite ?(bv_size v Hw), ?Hn; done). by rewrite drop_0, take_ge by lia.
  - pose proof (le_val_word _ (bv_val_u8 v Hw)) as H'. by rewrite Hl in H'.
Qed.

(** ** One slice *)
Section slice.
Context `{Heap}.

(** What no operation changes. *)
Record same_setup (o o' : OTExt) : Prop := {
  same_role : ot_role o' = ot_role o;
  same_passive : passive_only o' = passive_only o;
  same_bases : nbaseOTs o' = nbaseOTs o;
  same_loops : nsubloops o' = nsubloops o;
  same_input : baseReceiverInput o' = baseReceiverInput o;
  same_G : ot_G o' = ot_G o;
}.

(** All matrices have [n] squares. *)
Record shapes (n : nat) (o : OTExt) : Prop := {
  shape_s0 : mat_shape n (ot_s0 o);
  shape_s1 : mat_shape n (ot_s1 o);
  shape_r : mat_shape n (ot_r o);
  shape_t1 : mat_shape n (ot_t1 o);
  shape_u : mat_shape n (ot_u o);
}.

Lemma whole_slice n m : mat_shape n m → Z.of_nat n < 2 ^ 63 → slice_new m 0 (Z.of_nat n) = Ok (whole n).
Proof. intros [<- _] Hn. by apply slice_new_whole. Qed.

(** The message of the receiver and what the sender adds. *)
Definition row_mask (key : nat → bool → list Block) (p : Z) (x : BitVector) (i r : nat) : Key :=
  Z.lxor (Z.lxor (draws (key r true) p i) (draws (key r false) p i)) (bv_block x i).

Definition reads_as (n : nat) (wire : list Z) (U : nat → nat → Key) : Prop :=
  ∀ r0 rest sG, os_wf r0 → ∃ o r', os_Receive r0 (wire ++ rest) = Ok (o, rest) ∧
    slice_unpack (mat n sG) (whole n) o = Ok (mat n U, r').

Context (junk : Z → list (list Z)) (Hjunk : ∀ i, shape 128 16 (junk i)).
Context (n : nat) (Hn : 0 < Z.of_nat n < 2 ^ 20).
Context (key : nat → bool → list Block) (Hkey : ∀ r b, (r < 128)%nat → schedule_wf (key r b)).
Context (p : Z) (Hroom : room p n).

Lemma receiver_slice o x : ot_role o = RECEIVER → nbaseOTs o = 128 → shapes n o →
  gens2 key p (G_sender o) → bv_wf x → bv_nbits x = 128 * Z.of_nat n →
  ∃ o' wire, (∀ P, correlated_slice junk (Z.of_nat n) x (o, P) 0 = Ok (o', mkLink (l_out P ++ wire) (l_in P))) ∧
    same_setup o o' ∧ shapes n o' ∧ gens2 key (p + Z.of_nat n) (G_sender o') ∧
    ot_r o' = mat n (λ i, col (λ r, draws (key r false) p i)) ∧
    reads_as n wire (row_mask key p x).
Proof.
  intros Hrole Hb [S0 S1 Sr St Su] Hg Hx Hxn.
  assert (HU : ∀ i r, (i < n)%nat → (r < 128)%nat → is_word 128 (row_mask key p x i r)).
  { intros i r Hi Hr. unfold row_mask. apply is_word_lxor; [lia| |by apply bv_block_word].
    apply is_word_lxor; [lia|apply draws_word; auto..]. }
  pose proof (λ sG, carries_slice n (row_mask key p x) sG HU) as C.
  destruct (message _ _ _ _ (C (λ _ _, 0)) (λ w', slice_pack_out _ _ os_new w' eq_refl) ltac:(lia))
    as (w & wire & Ew & Ewire & _).
  assert (HR : reads_as n wire (row_mask key p x)).
  { intros r0 rest sG Hr0.
    destruct (message _ _ _ _ (C sG) (λ w', slice_pack_out _ _ os_new w' eq_refl) ltac:(lia))
      as (w1 & wire1 & Ew1 & Ewire1 & Hrd). rewrite Ew1 in Ew. injection Ew as ->.
    rewrite Ewire1 in Ewire. injection Ewire as ->. by apply Hrd. }
  destruct (receiver_loop n (λ i r, (ot_r o !!! i) !!! r) (λ i r, (ot_t1 o !!! i) !!! r) key p _ Hg Hroom)
    as (gs' & Eloop & Hgs').
  exists (with_matrices (with_prngs o gs' (G_receiver o)) (ot_s0 o) (ot_s1 o)
    (mat n (λ i, col (λ r, draws (key r false) p i))) (mat n (row_mask key p x)) (ot_u o)), wire. split; [intros P|].
  2: { split_and!; [by split|split; try done; apply mat_shape_mat|done..]. }
  unfold correlated_slice, expand.
  rewrite (whole_slice n (ot_r o)), (whole_slice n (ot_s0 o)), (whole_slice n (ot_s1 o)),
    (whole_slice n (ot_t1 o)) by (done || lia). cbn [mbind outcome_bind]. rewrite Hrole, Hb.
  change (has_role RECEIVER RECEIVER) with true. change (has_role RECEIVER SENDER) with false. cbn iota.
  rewrite (mat_of_shape n _ Sr), (mat_of_shape n _ St).
  rewrite Eloop.
  cbn [mbind outcome_bind]. unfold correlate.
  cbn [with_matrices with_prngs ot_r ot_s0 ot_t1 ot_u ot_role baseReceiverInput nbaseOTs ot_s1 G_sender G_receiver ot_G].
  rewrite (whole_slice n _ (mat_shape_mat _ _)), (whole_slice n (ot_s0 o)), (whole_slice n _ (mat_shape_mat _ _)),
    (whole_slice n (ot_u o)) by (done || lia). cbn [mbind outcome_bind]. rewrite Hrole.
  change (has_role RECEIVER RECEIVER) with true. change (has_role RECEIVER SENDER) with false. cbn iota.
  rewrite slice_rsub_mat. cbn [mbind outcome_bind]. rewrite slice_sub_mat by (done || lia).
  cbn [mbind outcome_bind]. change (mat n (λ i r, Z.lxor _ (bv_block x i))) with (mat n (row_mask key p x)).
  rewrite Ew. cbn [mbind outcome_bind]. unfold send_if_ot_receiver, link_send. rewrite Z.eqb_refl, Ewire.
  cbn [mbind outcome_bind]. unfold ot_transpose.
  cbn [with_matrices with_prngs ot_r ot_s0 ot_t1 ot_u ot_role baseReceiverInput nbaseOTs ot_s1 G_sender G_receiver ot_G].
  rewrite (proj2 (Z.ltb_ge _ _)) by lia.
  rewrite (whole_slice n _ (mat_shape_mat _ _)), (whole_slice n (ot_s0 o)), (whole_slice n (ot_s1 o))
    by (done || lia). cbn [mbind outcome_bind]. rewrite Hrole.
  change (has_role RECEIVER RECEIVER) with true. change (has_role RECEIVER SENDER) with false. cbn iota.
  rewrite slice_transpose_mat by (intros; auto using draws_word). cbn [mbind outcome_bind].
  reflexivity.
Qed.

(** The generators of the sender: those that the bits of [delta] choose. *)
Definition chosen (key : nat → bool → list Block) (delta : BitVector) (r : nat) : list Block :=
  key r (Z.testbit (bv_num delta) (Z.of_nat r)).

Lemma sender_slice o x : ot_role o = SENDER → nbaseOTs o = 128 → shapes n o →
  bv_wf (baseReceiverInput o) → bv_nbits (baseReceiverInput o) = 128 →
  gens (chosen key (baseReceiverInput o)) p (G_receiver o) → bv_wf x →
  ∃ o', (∀ y out wire rest, reads_as n wire (row_mask key p x) →
      correlated_slice junk (Z.of_nat n) y (o, mkLink out (wire ++ rest)) 0 = Ok (o', mkLink out rest)) ∧
    same_setup o o' ∧ shapes n o' ∧ gens (chosen key (baseReceiverInput o)) (p + Z.of_nat n) (G_receiver o') ∧
    ot_s0 o' = mat n (λ i r, Z.lxor (col (λ r, draws (key r false) p i) r)
        (key_if (Z.testbit (bv_block x i) (Z.of_nat r)) (bv_num (baseReceiverInput o)))).
Proof.
  intros Hrole Hb [S0 S1 Sr St Su] Hd Hdn Hg Hx. set (delta := baseReceiverInput o) in *.
  destruct (sender_loop n (λ i r, (ot_s0 o !!! i) !!! r) (chosen key delta) p _ Hg Hroom) as (gr' & Eloop & Hgr').
  destruct (bv_num_bytes delta Hd Hdn) as [_ Hdw].
  exists (with_matrices (with_prngs o (G_sender o) gr') (mat n (λ i r, Z.lxor (col (λ r, draws (key r false) p i) r)
        (key_if (Z.testbit (bv_block x i) (Z.of_nat r)) (bv_num delta)))) (ot_s1 o) (ot_r o) (ot_t1 o)
        (mat n (row_mask key p x))).
  split; [intros y out wire rest HR|].
  2: { split_and!; [by split|split; try done; apply mat_shape_mat|done..]. }
  unfold correlated_slice, expand.
  rewrite (whole_slice n (ot_r o)), (whole_slice n (ot_s0 o)), (whole_slice n (ot_s1 o)),
    (whole_slice n (ot_t1 o)) by (done || lia). cbn [mbind outcome_bind]. rewrite Hrole, Hb.
  change (has_role SENDER RECEIVER) with false. change (has_role SENDER SENDER) with true. cbn iota.
  cbn [mbind outcome_bind]. rewrite (mat_of_shape n _ S0).
  rewrite Eloop.
  cbn [mbind outcome_bind]. unfold correlate.
  cbn [with_matrices with_prngs ot_r ot_s0 ot_t1 ot_u ot_role baseReceiverInput nbaseOTs ot_s1 G_sender G_receiver ot_G].
  rewrite (whole_slice n (ot_r o)), (whole_slice n _ (mat_shape_mat _ _)), (whole_slice n (ot_t1 o)),
    (whole_slice n (ot_u o)) by (done || lia). cbn [mbind outcome_bind]. rewrite Hrole.
  change (has_role SENDER RECEIVER) with false. change (has_role SENDER SENDER) with true. cbn iota.
  cbn [mbind outcome_bind]. unfold send_if_ot_receiver, link_receive.
  change (SENDER =? RECEIVER) with false. rewrite Z.eqb_refl. cbn iota. cbn [l_in l_out].
  destruct (HR os_new rest (λ i r, (ot_u o !!! i) !!! r) os_new_wf) as (os & os' & Eos & Eu).
  change (reset_write_head os_new) with os_new. rewrite Eos. cbn [mbind outcome_bind].
  rewrite (mat_of_shape n _ Su), Eu. cbn [mbind outcome_bind negb]. fold delta.
  rewrite slice_conditional_add_mat by done. cbn [mbind outcome_bind].
  assert (HE : mat n (λ i r, if Z.testbit (bv_num delta) (Z.of_nat r)
      then Z.lxor (draws (chosen key delta r) p i) (row_mask key p x i r) else draws (chosen key delta r) p i)
    = mat n (λ i r, if Z.testbit (bv_num delta) (Z.of_nat r)
      then Z.lxor (draws (key r false) p i) (bv_block x i) else draws (key r false) p i)).
  { apply mat_ext. intros i r _ _. unfold chosen, row_mask. destruct (Z.testbit _ _); [xor_ac|done]. }
  rewrite HE. clear HE. unfold ot_transpose.
  cbn [with_matrices with_prngs ot_r ot_s0 ot_t1 ot_u ot_role baseReceiverInput nbaseOTs ot_s1 G_sender G_receiver ot_G].
  rewrite (proj2 (Z.ltb_ge _ _)) by lia.
  rewrite (whole_slice n (ot_r o)), (whole_slice n _ (mat_shape_mat _ _)), (whole_slice n (ot_s1 o))
    by (done || lia). cbn [mbind outcome_bind]. rewrite Hrole.
  change (has_role SENDER RECEIVER) with false. change (has_role SENDER SENDER) with true. cbn iota.
  cbn [mbind outcome_bind]. rewrite slice_transpose_mat; [|intros i r Hi Hr|done].
  2: { destruct (Z.testbit _ _); [apply is_word_lxor; [lia| |by apply bv_block_word]|];
         apply draws_word; auto. }
  cbn [mbind outcome_bind].
  do 3 f_equal. apply mat_ext. intros i r Hi Hr. by apply col_select.
Qed.
End slice.

(** ** The choice bits *)
Lemma bv_set_word_low v i w : bv_wf v → 0 ≤ i → 8 * i + 8 ≤ bv_nbytes v →
  ∃ v', bv_set_word v i w = Ok v' ∧ bv_wf v' ∧ bv_nbits v' = bv_nbits v ∧
    ∀ j, 0 ≤ j < 64 * i → Z.testbit (bv_num v') j = Z.testbit (bv_num v) j.
Proof.
  intros Hw Hi Hb. unfold bv_set_word.
  destruct (bv_write v (i * 8) (le_bytes 8 w) Hw) as (b & -> & Hwb & Hv);
    [lia|rewrite le_bytes_length; lia|apply le_bytes_u8|].
  cbn [mbind outcome_bind]. exists (set_bytes v b). split_and!; [done..|]. intros j Hj.
  unfold bv_num. pose proof (bv_val_length v Hw) as Hl.
  rewrite <-(le_val_take (bv_val (set_bytes v b)) (Z.to_nat (i * 8))) by (lia || by apply bv_val_u8).
  rewrite <-(le_val_take (bv_val v) (Z.to_nat (i * 8))) by (lia || by apply bv_val_u8).
  do 2 f_equal. rewrite Hv. rewrite take_app_le by (rewrite length_take; lia).
  rewrite take_take. f_equal. lia.
Qed.

Lemma get_word_spec g key q : at_pos g key q → q + 8 < prng_limit →
  ∃ w g', get_word g = Ok (w, g') ∧ at_pos g' key (q + 8).
Proof.
  intros Hp Hq. destruct (get_octets_t_spec g key q 8 Hp ltac:(lia) Hq) as (g' & E & Hp' & _).
  unfold get_word. rewrite E. by eexists _, g'.
Qed.

Section input.
Context `{Heap}.

Lemma tail_spec N v G key q : (2 ≤ N)%nat → Z.of_nat N < 2 ^ 20 → bv_wf v → bv_nbits v = Z.of_nat N * 128 →
  at_pos G key q → q + 32 < prng_limit →
  ∃ v' G', foldM (randomize_tail (Z.of_nat N * 128)) (v, G) (seqZ 0 4) = Ok (v', G') ∧
    bv_wf v' ∧ bv_nbits v' = Z.of_nat N * 128 ∧ at_pos G' key (q + 32) ∧
    ∀ j, 0 ≤ j < Z.of_nat N * 128 - 256 → Z.testbit (bv_num v') j = Z.testbit (bv_num v) j.
Proof.
  intros HN HN' Hw Hn Hp Hq.
  destruct (foldM_inv (λ k '(v', G'), bv_wf v' ∧ bv_nbits v' = Z.of_nat N * 128 ∧
      at_pos G' key (q + 8 * Z.of_nat k) ∧
      ∀ j, 0 ≤ j < Z.of_nat N * 128 - 256 → Z.testbit (bv_num v') j = Z.testbit (bv_num v) j)
    (randomize_tail (Z.of_nat N * 128)) (seqZ 0 4) (v, G)) as ([v' G'] & E & Hw' & Hn' & Hp' & Hb').
  - rewrite Z.add_0_r. done.
  - intros k i [v1 G1] Hi (Hw1 & Hn1 & Hp1 & Hb1). apply lookup_seqZ in Hi as [-> Hk]. rewrite Z.add_0_l.
    unfold randomize_tail. destruct (get_word_spec G1 key _ Hp1 ltac:(lia)) as (w & G2 & -> & Hp2).
    cbn [mbind outcome_bind]. rewrite Z.quot_div_nonneg by lia.
    replace (Z.of_nat N * 128 / 64) with (2 * Z.of_nat N) by (apply Z.div_unique with 0; lia).
    pose proof (bv_nbytes_range v1 Hw1).
    destruct (bv_set_word_low v1 (2 * Z.of_nat N - Z.of_nat k - 1) w Hw1) as (v2 & -> & Hw2 & Hn2 & Hb2);
      [lia|lia|]. cbn [mbind outcome_bind].
    eexists (_, _). split; [done|]. split_and!; [done|congruence| |].
    + by replace (q + 8 * Z.of_nat (S k)) with (q + 8 * Z.of_nat k + 8) by lia.
    + intros j Hj. rewrite Hb2 by lia. by apply Hb1.
  - exists v', G'. by split_and!.
Qed.

Lemma prepare_input N x G key q : (2 ≤ N)%nat → Z.of_nat N < 2 ^ 20 → bv_wf x →
  bv_nbits x ≤ Z.of_nat N * 128 - 256 → at_pos G key q → q + 32 < prng_limit →
  ∃ x1 x2 x3 G', bv_copy x = Ok x1 ∧ bv_nbits x1 = bv_nbits x ∧
    bv_resize_zero x1 (Z.of_nat N * 128) = Ok x2 ∧
    foldM (randomize_tail (Z.of_nat N * 128)) (x2, G) (seqZ 0 4) = Ok (x3, G') ∧
    bv_wf x3 ∧ bv_nbits x3 = Z.of_nat N * 128 ∧ at_pos G' key (q + 32) ∧
    ∀ j, 0 ≤ j < bv_nbits x → Z.testbit (bv_num x3) j = Z.testbit (bv_num x) j.
Proof.
  intros HN HN' Hw Hx Hp Hq.
  destruct (bv_copy_spec x Hw) as (x1 & E1 & Hw1 & Hn1 & Hv1).
  destruct (bv_resize_zero_spec x1 (Z.of_nat N * 128) Hw1) as (x2 & E2 & Hw2 & Hn2 & Hv2); [lia|].
  destruct (tail_spec N x2 G key q HN HN' Hw2 Hn2 Hp Hq) as (x3 & G' & E3 & Hw3 & Hn3 & Hp3 & Hb3).
  exists x1, x2, x3, G'. split_and!; [done..|]. intros j Hj. rewrite Hb3 by lia.
  pose proof (bv_nbytes_range x Hw). pose proof (bv_val_length x Hw).
  unfold bv_num. rewrite Hv2, Hv1.
  rewrite <-(le_val_take (_ ++ _) (length (bv_val x))).
  - by rewrite take_app_length.
  - apply Forall_app. split; [by apply bv_val_u8|by apply Forall_replicate].
  - lia.
Qed.
End input.

(** ** The correlation check *)

(** Two loops in step. *)
Lemma foldM_inv2 {A B C} (P : nat → B → C → Prop) (f : B → A → outcome B) (g : C → A → outcome C) l b c :
  P 0%nat b c →
  (∀ i a b c, l !! i = Some a → P i b c → ∃ b' c', f b a = Ok b' ∧ g c a = Ok c' ∧ P (S i) b' c') →
  ∃ b' c', foldM f b l = Ok b' ∧ foldM g c l = Ok c' ∧ P (length l) b' c'.
Proof.
  revert P b c. induction l as [|a l IH]; intros P b c H0 HS; cbn [foldM]; [by eauto|].
  destruct (HS 0%nat a b c eq_refl H0) as (b1 & c1 & -> & -> & H1).
  apply (IH (λ i, P (S i))); [done|]. intros i a' b' c' Hi. by apply (HS (S i) a' b' c').
Qed.

Lemma doubleword_at g key q : at_pos g key (16 * q) → room q 1 →
  ∃ g', prng_get_doubleword g = Ok (draws key q 0, g') ∧ at_pos g' key (16 * (q + 1)).
Proof.
  intros Hp [H0 Hm]. destruct (draw_doublewords_spec 1 g key q Hp H0 Hm) as (g' & E & Hp' & _).
  cbn [draw_doublewords] in E. destruct (prng_get_doubleword g) as [[d g1]| |]; [|done..].
  cbn [mbind outcome_bind] in E. injection E as Ed Eg. exists g'. split; [|done].
  rewrite Eg. do 2 f_equal. unfold draws. by rewrite Z.add_0_r.
Qed.

Lemma output_row_mat N F j : (j < N * 128)%nat →
  output_row (mat N F) (Z.of_nat j) = Ok (F (j / 128)%nat (j mod 128)%nat).
Proof.
  intros Hj. unfold output_row. rewrite Z.quot_div_nonneg, Z.rem_mod_nonneg by lia.
  replace (Z.of_nat j / 128) with (Z.of_nat (j / 128)) by (by rewrite Nat2Z.inj_div).
  replace (Z.of_nat j mod 128) with (Z.of_nat (j mod 128)) by (by rewrite Nat2Z.inj_mod).
  pose proof (Nat.mod_upper_bound j 128 ltac:(lia)).
  assert ((j / 128 < N)%nat) by (apply Nat.Div0.div_lt_upper_bound; lia).
  rewrite (vget_nat _ _ (sq (F (j / 128)%nat))) by by apply mat_lookup. cbn [mbind outcome_bind].
  apply vget_nat. by apply sq_lookup.
Qed.

Section check.
Context `{Heap} (clmul : Z → Key → Key → Key) (Hclmul : clmul_spec clmul).

(** The sums of the two parties. *)
Record check_sums (delta : Key) (X T T2 Q Q2 : Key) : Prop := {
  sum_X : is_word 128 X;
  sum_T : is_word 128 T;
  sum_T2 : is_word 128 T2;
  sum_Q : is_word 128 Q;
  sum_Q2 : is_word 128 Q2;
  sum_eq : Z.lxor Q (Z.shiftl Q2 128) = Z.lxor (Z.lxor T (Z.shiftl T2 128)) (clm 128 X delta);
}.

(** A row adds its products, and the coefficient where the choice bit is set. *)
Lemma check_sums_row delta X T T2 Q Q2 chi ti (bit : bool) :
  check_sums delta X T T2 Q Q2 → is_word 128 delta → is_word 128 chi → is_word 128 ti →
  let '(lt, ht) := mul128 clmul ti chi in
  let '(lq, hq) := mul128 clmul (Z.lxor ti (key_if bit delta)) chi in
  check_sums delta (if bit then Z.lxor X chi else X) (Z.lxor T lt) (Z.lxor T2 ht) (Z.lxor Q lq) (Z.lxor Q2 hq).
Proof.
  intros [HX HT HT2 HQ HQ2 Heq] Hd Hchi Hti. set (qi := Z.lxor ti (key_if bit delta)).
  assert (Hqi : is_word 128 qi) by (apply is_word_lxor; [lia|done|by destruct bit]).
  pose proof (mul128_clm clmul ti chi Hclmul Hti Hchi) as Mt.
  pose proof (mul128_clm clmul qi chi Hclmul Hqi Hchi) as Mq.
  destruct (mul128 clmul ti chi) as [lt ht], (mul128 clmul qi chi) as [lq hq].
  destruct Mt as (Wlt & Wht & Et), Mq as (Wlq & Whq & Eq). apply (is_word_le _ 128) in Wht, Whq; [|lia..].
  split; [destruct bit; [|done]| | | | |]; try (apply is_word_lxor; (lia || done)).
  assert (E : Z.lxor lq (Z.shiftl hq 128) = Z.lxor (Z.lxor lt (Z.shiftl ht 128))
                (if bit then clm 128 chi delta else 0)).
  { rewrite Eq, Et. unfold qi. rewrite clm_lxor_l. f_equal. destruct bit; cbn [key_if]; [|apply clm_0_l].
    by apply (clm_comm 128). }
  rewrite !Z.shiftl_lxor. transitivity (Z.lxor (Z.lxor Q (Z.shiftl Q2 128)) (Z.lxor lq (Z.shiftl hq 128))); [xor_ac|].
  rewrite Heq, E. destruct bit; rewrite ?clm_lxor_l; xor_ac.
Qed.

Lemma check_rows N R rcv snd x y G1 G2 key q delta : ot_role rcv = RECEIVER → ot_role snd = SENDER →
  is_word 128 delta → bv_wf x → bv_nbits x = Z.of_nat N * 128 → schedule_wf key →
  (∀ i r, (i < N)%nat → (r < 128)%nat → is_word 128 (R i r)) →
  ot_r rcv = mat N R →
  ot_s0 snd = mat N (λ i r, Z.lxor (R i r) (key_if (Z.testbit (bv_block x i) (Z.of_nat r)) delta)) →
  at_pos G1 key (16 * q) → at_pos G2 key (16 * q) → room q (N * 128) →
  ∃ Gr Gs X T T2 Q Q2,
    foldM (check_row clmul rcv x) (G1, 0, (0, 0), (0, 0)) (seqZ 0 (Z.of_nat N * 128)) = Ok (Gr, X, (T, T2), (0, 0)) ∧
    foldM (check_row clmul snd y) (G2, 0, (0, 0), (0, 0)) (seqZ 0 (Z.of_nat N * 128)) = Ok (Gs, 0, (0, 0), (Q, Q2)) ∧
    check_sums delta X T T2 Q Q2.
Proof.
  intros Hr Hs Hd Hx Hxn Hk HR Er Es Hp1 Hp2 [H0 Hm].
  destruct (foldM_inv2 (λ k b c, ∃ Gr Gs X T T2 Q Q2,
      b = (Gr, X, (T, T2), (0, 0)) ∧ c = (Gs, 0, (0, 0), (Q, Q2)) ∧
      at_pos Gr key (16 * (q + Z.of_nat k)) ∧ at_pos Gs key (16 * (q + Z.of_nat k)) ∧
      check_sums delta X T T2 Q Q2)
    (check_row clmul rcv x) (check_row clmul snd y) (seqZ 0 (Z.of_nat N * 128))
    (G1, 0, (0, 0), (0, 0)) (G2, 0, (0, 0), (0, 0)))
    as (b & c & Eb & Ec & Gr & Gs & X & T & T2 & Q & Q2 & -> & -> & _ & _ & HS).
  - exists G1, G2, 0, 0, 0, 0, 0. rewrite Z.add_0_r. split_and!; [done..|]. by split.
  - intros k a b c Ha (Gr & Gs & X & T & T2 & Q & Q2 & -> & -> & Hpr & Hps & HS).
    apply lookup_seqZ in Ha as [-> Hk']. rewrite Z.add_0_l. assert (Hkn : (k < N * 128)%nat) by lia.
    assert (Hro : room (q + Z.of_nat k) 1) by (split; lia).
    destruct (doubleword_at Gr key _ Hpr Hro) as (Gr' & Edr & Hpr').
    destruct (doubleword_at Gs key _ Hps Hro) as (Gs' & Eds & Hps').
    set (chi := draws key (q + Z.of_nat k) 0) in *. assert (Hchi : is_word 128 chi) by by apply draws_word.
    pose proof (Nat.mod_upper_bound k 128 ltac:(lia)) as Hkm.
    assert (Hkd : (k / 128 < N)%nat) by (apply Nat.Div0.div_lt_upper_bound; lia).
    set (ti := R (k / 128)%nat (k mod 128)%nat).
    assert (Hti : is_word 128 ti) by by apply HR.
    set (bit := Z.testbit (bv_num x) (Z.of_nat k)).
    assert (Hbit : Z.testbit (bv_block x (k / 128)) (Z.of_nat (k mod 128)) = bit).
    { rewrite bv_block_testbit by done. unfold bit. f_equal. pose proof (Nat.div_mod k 128 ltac:(lia)). lia. }
    pose proof (check_sums_row _ _ _ _ _ _ chi ti bit HS Hd Hchi Hti) as HS'.
    unfold check_row. rewrite Edr, Eds, Hr, Hs. cbn [mbind outcome_bind].
    change (has_role RECEIVER RECEIVER) with true. change (has_role RECEIVER SENDER) with false.
    change (has_role SENDER RECEIVER) with false. change (has_role SENDER SENDER) with true. cbn iota.
    rewrite bv_get_bit_spec by (done || lia). cbn [mbind outcome_bind].
    rewrite Er, Es, !output_row_mat by done. cbn [mbind outcome_bind]. rewrite Hbit. fold bit ti.
    destruct (mul128 clmul ti chi) as [lt ht], (mul128 clmul (Z.lxor ti (key_if bit delta)) chi) as [lq hq].
    cbn [mbind outcome_bind]. eexists _, _. split; [done|]. split; [done|].
    eexists Gr', Gs', _, _, _, _, _. split; [done|]. split; [done|].
    replace (q + Z.of_nat (S k)) with (q + Z.of_nat k + 1) by lia. split_and!; done.
  - by exists Gr, Gs, X, T, T2, Q, Q2.
Qed.

Lemma carries_three a b c : Forall is_u8 a → Forall is_u8 b → Forall is_u8 c →
  length a = 16%nat → length b = 16%nat → length c = 16%nat →
  carries (λ w, w ← os_append w a; w ← os_append w b; os_append w c)
    (λ r, '(x, r) ← os_consume r 16; '(y, r) ← os_consume r 16; '(z, r) ← os_consume r 16; Ok (x, y, z, r))
    (a, b, c) 48.
Proof.
  intros Ua Ub Uc La Lb Lc.
  assert (C : ∀ x, Forall is_u8 x → length x = 16%nat →
    carries (λ w, os_append w x) (λ r, os_consume r 16) x 16).
  { intros x Hu Hl. pose proof (carries_append x Hu) as C. by rewrite Hl in C. }
  apply (carries_bind (λ w, os_append w a) (λ r, os_consume r 16) a 16
    (λ w, w ← os_append w b; os_append w c)
    (λ x r, '(y, r) ← os_consume r 16; '(z, r) ← os_consume r 16; Ok (x, y, z, r)) (a, b, c) 32); [lia|lia|by apply C|].
  apply (carries_bind (λ w, os_append w b) (λ r, os_consume r 16) b 16 (λ w, os_append w c)
    (λ y r, '(z, r) ← os_consume r 16; Ok (a, y, z, r)) (a, b, c) 16); [lia|lia|by apply C|].
  by apply (carries_map (λ z, (a, b, z))), C.
Qed.

(** Both parties set up a generator at the same position: the receiver sends [wr] and
    the sender [ws]. *)
Record alike (fr fs : Link → outcome (PRNG * Link)) (key : list Block) (q : Z) (wr ws : list Z) : Prop := {
  alike_r : ∃ G, at_pos G key (16 * q) ∧ ∀ out rest, fr (mkLink out (ws ++ rest)) = Ok (G, mkLink (out ++ wr) rest);
  alike_s : ∃ G, at_pos G key (16 * q) ∧ ∀ out rest, fs (mkLink out (wr ++ rest)) = Ok (G, mkLink (out ++ ws) rest);
}.

Lemma alike_given G key q : at_pos G key (16 * q) → alike (λ P, Ok (G, P)) (λ P, Ok (G, P)) key q [] [].
Proof. intros Hp. by split; exists G; (split; [done|]); intros; rewrite app_nil_r. Qed.

Lemma check_passes N R rcv snd x y fr fs wr ws key q : ot_role rcv = RECEIVER → ot_role snd = SENDER →
  nbaseOTs rcv = 128 → nbaseOTs snd = 128 →
  bv_wf (baseReceiverInput rcv) → bv_nbits (baseReceiverInput rcv) = 128 →
  bv_wf (baseReceiverInput snd) → bv_nbits (baseReceiverInput snd) = 128 →
  bv_wf x → bv_nbits x = Z.of_nat N * 128 → schedule_wf key →
  (∀ i r, (i < N)%nat → (r < 128)%nat → is_word 128 (R i r)) →
  ot_r rcv = mat N R →
  ot_s0 snd = mat N (λ i r, Z.lxor (R i r) (key_if (Z.testbit (bv_block x i) (Z.of_nat r))
                                                   (bv_num (baseReceiverInput snd)))) →
  alike fr fs key q wr ws → room q (N * 128) →
  ∃ wire, (∀ out rest, check_correlation clmul rcv (mkLink out (ws ++ rest)) fr (Z.of_nat N * 128) x
                         = Ok (mkLink (out ++ wr ++ wire) rest)) ∧
    ∀ out rest, check_correlation clmul snd (mkLink out (wr ++ wire ++ rest)) fs (Z.of_nat N * 128) y
                  = Ok (mkLink (out ++ ws) rest).
Proof.
  intros Hr Hs Hbr Hbs Hwr Hnr Hws Hns Hx Hxn Hk HR Er Es [(G1 & Hp1 & Ef1) (G2 & Hp2 & Ef2)] Hm.
  destruct (bv_num_bytes _ Hwr Hnr) as [Erd _], (bv_num_bytes _ Hws Hns) as [Esd Hdw].
  destruct (check_rows N R rcv snd x y G1 G2 key q _ Hr Hs Hdw Hx Hxn Hk HR Er Es Hp1 Hp2 Hm)
    as (Gr & Gs & X & T & T2 & Q & Q2 & Er' & Es' & [HX HT HT2 HQ HQ2 Heq]).
  destruct (message _ _ _ _ (carries_three (le_bytes 16 X) (le_bytes 16 T) (le_bytes 16 T2)
    (le_bytes_u8 _ _) (le_bytes_u8 _ _) (le_bytes_u8 _ _) (le_bytes_length _ _) (le_bytes_length _ _) (le_bytes_length _ _)))
    as (w & wire & Ew & Ewire & Hrd); [|lia|].
  { intros w' E. bind_inv E. bind_inv E. eapply os_append_out; [|exact E].
    eapply os_append_out; [|exact E1]. by eapply os_append_out; [|exact E0]. }
  exists wire. split.
  - intros out rest. unfold check_correlation. rewrite Hbr, Ef1. cbn [negb Z.eqb Pos.eqb mbind outcome_bind].
    rewrite Erd. cbn [mbind outcome_bind].
    rewrite Er'. cbn [mbind outcome_bind]. unfold check_iteration. rewrite Hr.
    change (has_role RECEIVER RECEIVER) with true. change (has_role RECEIVER SENDER) with false. cbn iota.
    rewrite Ew. cbn [mbind outcome_bind]. unfold send_if_ot_receiver, link_send. rewrite Z.eqb_refl, Ewire.
    cbn [mbind outcome_bind l_out l_in]. by rewrite <-app_assoc.
  - intros out rest. unfold check_correlation. rewrite Hbs, Ef2. cbn [negb Z.eqb Pos.eqb mbind outcome_bind].
    rewrite Esd. cbn [mbind outcome_bind].
    rewrite Es'. cbn [mbind outcome_bind]. unfold check_iteration. rewrite Hs.
    change (has_role SENDER RECEIVER) with false. change (has_role SENDER SENDER) with true. cbn iota.
    cbn [mbind outcome_bind]. unfold send_if_ot_receiver, link_receive.
    change (SENDER =? RECEIVER) with false. rewrite Z.eqb_refl. cbn iota. cbn [l_in l_out].
    destruct (Hrd os_new rest os_new_wf) as (o & r' & Eo & Eg).
    change (reset_write_head os_new) with os_new. rewrite Eo. cbn [mbind outcome_bind].
    destruct (os_consume o 16) as [[a o1]| |]; [|done..]. cbn [mbind outcome_bind] in *.
    destruct (os_consume o1 16) as [[b o2]| |]; [|done..]. cbn [mbind outcome_bind] in *.
    destruct (os_consume o2 16) as [[c o3]| |]; [|done..]. cbn [mbind outcome_bind] in *.
    assert (a = le_bytes 16 X ∧ b = le_bytes 16 T ∧ c = le_bytes 16 T2) as (-> & -> & ->) by (split_and!; congruence).
    rewrite !le_val_bytes by done. fold (bv_num (baseReceiverInput snd)).
    pose proof (mul128_clm clmul X _ Hclmul HX Hdw) as M. destruct (mul128 clmul X _) as [lo hi].
    destruct M as (Wl & Wh & EM).
    destruct (lanes_inj (Z.lxor lo Q) (Z.lxor hi Q2) T T2) as [-> ->]; [by apply is_word_lxor|done| |].
    + rewrite Z.shiftl_lxor.
      transitivity (Z.lxor (Z.lxor lo (Z.shiftl hi 128)) (Z.lxor Q (Z.shiftl Q2 128))); [xor_ac|].
      rewrite EM, Heq. xor_ac.
    + by rewrite !Z.eqb_refl.
Qed.
End check.
