(* ===== verification/OtTheorems.v ===== *)
(** * The OT extension as a functionality

    [extend_correlated] of two paired parties gives what the interface
    [CorrelatedOT] of [YaoInput] promises, and the parties stay paired; what
    [hash_outputs] makes of it; what passing the check means. *)

From S2P Require Import Prelude Memory OctetStream OctetProps Xor Block Aes YaoKey YaoGate Random BitVector Square128 Gf2n OtMatrix OtExtension OtProps.

(** ** Paired parties *)
Definition squares_ok (m : Matrix) : Prop := Forall (λ s : square128, length s = 128%nat) m.

Record ot_wf (o : OTExt) : Prop := {
  ow_bases : nbaseOTs o = 128;
  ow_loops : nsubloops o = 1;
  ow_delta : bv_wf (baseReceiverInput o);
  ow_delta_bits : bv_nbits (baseReceiverInput o) = 128;
  ow_s0 : squares_ok (ot_s0 o);
  ow_s1 : squares_ok (ot_s1 o);
  ow_r : squares_ok (ot_r o);
  ow_t1 : squares_ok (ot_t1 o);
  ow_u : squares_ok (ot_u o);
}.

(** The local generator has [m] octets left. *)
Definition g_room (o : OTExt) (m : Z) : Prop := ∃ k q, at_pos (ot_G o) k q ∧ q + m < prng_limit.

(** The generators of the base OTs are at block [p]; those of the sender are the ones
    that its bits choose from the pairs of the receiver. *)
Record paired (key : nat → bool → list Block) (p m : Z) (snd rcv : OTExt) : Prop := {
  pr_snd : ot_role snd = SENDER;
  pr_rcv : ot_role rcv = RECEIVER;
  pr_snd_wf : ot_wf snd;
  pr_rcv_wf : ot_wf rcv;
  pr_passive : passive_only snd = passive_only rcv;
  pr_key : ∀ r b, (r < 128)%nat → schedule_wf (key r b);
  pr_snd_gens : gens (chosen key (baseReceiverInput snd)) p (G_receiver snd);
  pr_rcv_gens : gens2 key p (G_sender rcv);
  pr_snd_G : g_room snd m;
  pr_rcv_G : g_room rcv m;
}.

Lemma squares_shape m : squares_ok m → mat_shape (length m) m.
Proof. done. Qed.
Lemma shape_squares n m : mat_shape n m → squares_ok m.
Proof. by intros [_ ?]. Qed.

Lemma ot_resize_shapes o N : ot_wf o →
  ∃ o', ot_resize o (Z.of_nat N * 128) = Ok o' ∧ same_setup o o' ∧ shapes N o' ∧
        G_sender o' = G_sender o ∧ G_receiver o' = G_receiver o.
Proof.
  intros [_ _ _ _ S0 S1 Sr St Su]. unfold ot_resize.
  destruct (resize_vertical_shape _ (ot_t1 o) N (squares_shape _ St)) as (t1 & -> & Ht).
  destruct (resize_vertical_shape _ (ot_u o) N (squares_shape _ Su)) as (u & -> & Hu).
  destruct (resize_vertical_shape _ (ot_s0 o) N (squares_shape _ S0)) as (s0 & -> & H0).
  destruct (resize_vertical_shape _ (ot_s1 o) N (squares_shape _ S1)) as (s1 & -> & H1).
  destruct (resize_vertical_shape _ (ot_r o) N (squares_shape _ Sr)) as (r & -> & Hr).
  cbn [mbind outcome_bind]. eexists. split; [done|]. by split_and!.
Qed.

(** [extend_correlated] with one slice, its sizes computed. *)
Lemma extend_correlated_eq `{Heap} clmul junk o P fg n x x1 N : ot_wf o → (2 ≤ N)%nat → Z.of_nat N < 2 ^ 20 → 0 ≤ n →
  (Z.of_nat N - 3) * 128 < n ≤ (Z.of_nat N - 2) * 128 →
  bv_copy x = Ok x1 → (has_role (ot_role o) RECEIVER = true → bv_nbits x1 = n) →
  extend_correlated clmul junk o P fg n x =
    (if n =? 0 then Ok (o, P)
     else
       o ← ot_resize o (Z.of_nat N * 128);
       input ← bv_resize_zero x1 (Z.of_nat N * 128);
       '(input, oG) ← foldM (randomize_tail (Z.of_nat N * 128)) (input, ot_G o) (seqZ 0 4);
       let o := with_G o oG in
       '(o, P) ← correlated_slice junk (Z.of_nat N) input (o, P) 0;
       P ← (if passive_only o then Ok P else check_correlation clmul o P fg (Z.of_nat N * 128) input);
       r ← bitmatrix_resize (ot_r o) (Z.of_nat (N - 2) * 128);
       s0 ← bitmatrix_resize (ot_s0 o) (Z.of_nat (N - 2) * 128);
       s1 ← bitmatrix_resize (ot_s1 o) (Z.of_nat (N - 2) * 128);
       Ok (with_matrices o s0 s1 r (ot_t1 o) (ot_u o), P)).
Proof.
  intros [_ Hl _ _ _ _ _ _ _] HN HN' Hpos Hn Hx1 Hrole. unfold extend_correlated.
  destruct (Z.eqb_spec n 0) as [|Hn0]; [done|]. rewrite Hx1. cbn [mbind outcome_bind].
  assert (E : has_role (ot_role o) RECEIVER && negb (u64 n =? u32 (bv_nbits x1)) = false).
  { destruct (has_role _ _); [|done]. rewrite Hrole by done.
    unfold u32. rewrite u64_id, (Z.mod_small n), Z.eqb_refl by lia. done. }
  rewrite E, Hl. clear E.
  assert (Eq : Z.quot (n + 127) 128 = Z.of_nat N - 2).
  { rewrite Z.quot_div_nonneg by lia. symmetry. apply Z.div_unique with (n + 127 - 128 * (Z.of_nat N - 2)); lia. }
  rewrite Eq. change (1 <? 1) with false. cbn [orb]. rewrite (proj2 (Z.leb_gt _ _)) by lia. cbv zeta.
  rewrite Z.quot_1_r.
  replace (Z.quot ((Z.of_nat N - 2) * 128 + 2 * 128) 128) with (Z.of_nat N)
    by (replace ((Z.of_nat N - 2) * 128 + 2 * 128) with (Z.of_nat N * 128) by lia; by rewrite Z.quot_mul by lia).
  rewrite Z.mul_1_r. replace (Z.of_nat N - 2) with (Z.of_nat (N - 2)) by lia.
  rewrite (proj2 (Z.ltb_ge _ _)) by lia. rewrite (u64_id (Z.of_nat N * 128)) by lia.
  destruct (ot_resize o _) as [o1| |]; [|done..]. cbn [mbind outcome_bind].
  destruct (bv_resize_zero x1 _) as [x2| |]; [|done..]. cbn [mbind outcome_bind].
  destruct (foldM (randomize_tail _) _ _) as [[x3 oG]| |]; [|done..]. cbn [mbind outcome_bind].
  change (seqZ 0 1) with [0]. cbn [fmap list_fmap foldM]. change (0 * Z.of_nat N) with 0.
  destruct (correlated_slice junk _ x3 _ 0) as [[o2 P2]| |]; done.
Qed.

(** The number of squares for [n] OTs. *)
Definition n_squares (n : Z) : nat := Z.to_nat ((n + 127) / 128 + 2).

Lemma n_squares_bounds n : 0 < n < 2 ^ 26 →
  (2 ≤ n_squares n)%nat ∧ Z.of_nat (n_squares n) < 2 ^ 20 ∧
  (Z.of_nat (n_squares n) - 3) * 128 < n ≤ (Z.of_nat (n_squares n) - 2) * 128.
Proof.
  intros Hn. unfold n_squares. pose proof (Z.div_mod (n + 127) 128 ltac:(lia)).
  pose proof (Z.mod_pos_bound (n + 127) 128 ltac:(lia)). lia.
Qed.

Lemma final_wf o s0 s1 r : ot_wf o → squares_ok s0 → squares_ok s1 → squares_ok r →
  ot_wf (with_matrices o s0 s1 r (ot_t1 o) (ot_u o)).
Proof. intros [? ? ? ? ? ? ? ? ?] ? ? ?. by split. Qed.

Lemma same_wf o o' n : ot_wf o → same_setup o o' → shapes n o' → ot_wf o'.
Proof.
  intros [Hb Hl Hd Hn _ _ _ _ _] [_ _ Sb Sl Si _] [H0 H1 Hr Ht Hu].
  split; try congruence; by eapply shape_squares.
Qed.

Section runs.
Context `{Heap} (clmul : Z → Key → Key → Key) (Hclmul : clmul_spec clmul).
Context (junk : Z → list (list Z)) (Hjunk : ∀ i, shape 128 16 (junk i)).
Context (n : Z) (Hn : 0 < n < 2 ^ 26).
Context (key : nat → bool → list Block) (Hkey : ∀ r b, (r < 128)%nat → schedule_wf (key r b)).
Context (p m : Z) (Hroom : room p (n_squares n)) (Hm : 32 ≤ m).

(** The rows of the receiver. *)
Definition t_rows (i r : nat) : Key := col (λ r, draws (key r false) p i) r.

(** Up to the check: the receiver's half. *)
Lemma receiver_run rcv x : ot_role rcv = RECEIVER → ot_wf rcv → gens2 key p (G_sender rcv) →
  g_room rcv m → bv_wf x → bv_nbits x = n →
  ∃ o x' wire, (∀ P fg, extend_correlated clmul junk rcv P fg n x =
      (P ← (if passive_only rcv then Ok (mkLink (l_out P ++ wire) (l_in P))
            else check_correlation clmul o (mkLink (l_out P ++ wire) (l_in P)) fg (Z.of_nat (n_squares n) * 128) x');
       r ← bitmatrix_resize (ot_r o) (Z.of_nat (n_squares n - 2) * 128);
       s0 ← bitmatrix_resize (ot_s0 o) (Z.of_nat (n_squares n - 2) * 128);
       s1 ← bitmatrix_resize (ot_s1 o) (Z.of_nat (n_squares n - 2) * 128);
       Ok (with_matrices o s0 s1 r (ot_t1 o) (ot_u o), P))) ∧
    ot_role o = RECEIVER ∧ passive_only o = passive_only rcv ∧ ot_wf o ∧ shapes (n_squares n) o ∧
    baseReceiverInput o = baseReceiverInput rcv ∧
    gens2 key (p + Z.of_nat (n_squares n)) (G_sender o) ∧ g_room o (m - 32) ∧
    ot_r o = mat (n_squares n) t_rows ∧ reads_as (n_squares n) wire (row_mask key p x') ∧
    bv_wf x' ∧ bv_nbits x' = Z.of_nat (n_squares n) * 128 ∧
    ∀ j, 0 ≤ j < n → Z.testbit (bv_num x') j = Z.testbit (bv_num x) j.
Proof.
  intros Hrole Hw Hg (gk & gq & Hgp & Hgq) Hx Hxn. set (N := n_squares n) in *.
  destruct (n_squares_bounds n Hn) as (HN & HN' & Hnn). fold N in HN, HN', Hnn.
  destruct (prepare_input N x (ot_G rcv) gk gq HN HN' Hx ltac:(lia) Hgp ltac:(lia))
    as (x1 & x2 & x3 & G' & E1 & Hx1 & E2 & E3 & Hw3 & Hn3 & Hp3 & Hb3).
  destruct (ot_resize_shapes rcv N Hw) as (o1 & Eo1 & S1 & Sh1 & Gs1 & Gr1).
  set (o2 := with_G o1 G').
  assert (R2 : ot_role o2 = RECEIVER) by (unfold o2; cbn; rewrite (same_role _ _ S1); done).
  assert (B2 : nbaseOTs o2 = 128) by (unfold o2; cbn; rewrite (same_bases _ _ S1); apply Hw).
  assert (Sh2 : shapes N o2) by (destruct Sh1; by split).
  assert (Hg2 : gens2 key p (G_sender o2)) by (unfold o2; cbn; by rewrite Gs1).
  destruct (receiver_slice junk Hjunk N ltac:(lia) key Hkey p Hroom o2 x3 R2 B2 Sh2 Hg2 Hw3 ltac:(lia))
    as (o3 & wire & Es & S3 & Sh3 & Hg3 & Er3 & HR).
  exists o3, x3, wire.
  assert (Ep : passive_only o3 = passive_only rcv).
  { rewrite (same_passive _ _ S3). unfold o2; cbn. apply (same_passive _ _ S1). }
  split_and!; try done.
  - intros P fg. rewrite (extend_correlated_eq clmul junk rcv P fg n x x1 N Hw HN HN' ltac:(lia) Hnn E1); [|congruence].
    rewrite (proj2 (Z.eqb_neq n 0)), Eo1 by lia. cbn [mbind outcome_bind]. rewrite E2. cbn [mbind outcome_bind].
    rewrite <-(same_G _ _ S1) in E3. rewrite E3. cbn [mbind outcome_bind]. cbv zeta. fold o2.
    rewrite Es. cbn [mbind outcome_bind]. by rewrite Ep.
  - by rewrite (same_role _ _ S3).
  - apply (same_wf o2 o3 N); [|done..]. apply (same_wf rcv o1 N) in S1 as [? ? ? ? ? ? ? ? ?]; [|done..]. by split.
  - rewrite (same_input _ _ S3). unfold o2; cbn. apply (same_input _ _ S1).
  - exists gk, (gq + 32). rewrite (same_G _ _ S3). split; [done|lia].
  - intros j Hj. apply Hb3. lia.
Qed.

(** ... and the sender's. *)
Lemma sender_run snd x y : ot_role snd = SENDER → ot_wf snd →
  gens (chosen key (baseReceiverInput snd)) p (G_receiver snd) → g_room snd m →
  bv_wf y → bv_nbits y ≤ n → bv_wf x →
  ∃ o y', (∀ out wire rest fg, reads_as (n_squares n) wire (row_mask key p x) → extend_correlated clmul junk snd (mkLink out (wire ++ rest)) fg n y =
      (P ← (if passive_only snd then Ok (mkLink out rest)
            else check_correlation clmul o (mkLink out rest) fg (Z.of_nat (n_squares n) * 128) y');
       r ← bitmatrix_resize (ot_r o) (Z.of_nat (n_squares n - 2) * 128);
       s0 ← bitmatrix_resize (ot_s0 o) (Z.of_nat (n_squares n - 2) * 128);
       s1 ← bitmatrix_resize (ot_s1 o) (Z.of_nat (n_squares n - 2) * 128);
       Ok (with_matrices o s0 s1 r (ot_t1 o) (ot_u o), P))) ∧
    ot_role o = SENDER ∧ passive_only o = passive_only snd ∧ ot_wf o ∧ shapes (n_squares n) o ∧
    baseReceiverInput o = baseReceiverInput snd ∧
    gens (chosen key (baseReceiverInput snd)) (p + Z.of_nat (n_squares n)) (G_receiver o) ∧ g_room o (m - 32) ∧
    ot_s0 o = mat (n_squares n) (λ i r, Z.lxor (t_rows i r)
      (key_if (Z.testbit (bv_block x i) (Z.of_nat r)) (bv_num (baseReceiverInput snd)))).
Proof.
  intros Hrole Hw Hg (gk & gq & Hgp & Hgq) Hy Hyn Hx. set (N := n_squares n) in *.
  destruct (n_squares_bounds n Hn) as (HN & HN' & Hnn). fold N in HN, HN', Hnn.
  destruct (prepare_input N y (ot_G snd) gk gq HN HN' Hy ltac:(lia) Hgp ltac:(lia))
    as (y1 & y2 & y3 & G' & E1 & Hy1 & E2 & E3 & Hw3 & Hn3 & Hp3 & _).
  destruct (ot_resize_shapes snd N Hw) as (o1 & Eo1 & S1 & Sh1 & Gs1 & Gr1).
  set (o2 := with_G o1 G').
  assert (R2 : ot_role o2 = SENDER) by (unfold o2; cbn; rewrite (same_role _ _ S1); done).
  assert (B2 : nbaseOTs o2 = 128) by (unfold o2; cbn; rewrite (same_bases _ _ S1); apply Hw).
  assert (Sh2 : shapes N o2) by (destruct Sh1; by split).
  assert (D2 : baseReceiverInput o2 = baseReceiverInput snd) by (unfold o2; cbn; apply (same_input _ _ S1)).
  destruct (sender_slice junk Hjunk N ltac:(lia) key Hkey p Hroom o2 x R2 B2 Sh2)
    as (o3 & Es & S3 & Sh3 & Hg3 & Er3);
    [rewrite D2; apply Hw|rewrite D2; apply Hw|rewrite D2; unfold o2; cbn; by rewrite Gr1|done|].
  rewrite D2 in Hg3, Er3. exists o3, y3.
  assert (Ep : passive_only o3 = passive_only snd).
  { rewrite (same_passive _ _ S3). unfold o2; cbn. apply (same_passive _ _ S1). }
  split_and!; try done.
  - intros out wire rest fg HR. rewrite (extend_correlated_eq clmul junk snd _ fg n y y1 N Hw HN HN' ltac:(lia) Hnn E1); [|by rewrite Hrole].
    rewrite (proj2 (Z.eqb_neq n 0)), Eo1 by lia. cbn [mbind outcome_bind]. rewrite E2. cbn [mbind outcome_bind].
    rewrite <-(same_G _ _ S1) in E3. rewrite E3. cbn [mbind outcome_bind]. cbv zeta. fold o2.
    rewrite Es by done. cbn [mbind outcome_bind]. by rewrite Ep.
  - by rewrite (same_role _ _ S3).
  - apply (same_wf o2 o3 N); [|done..]. apply (same_wf snd o1 N) in S1 as [? ? ? ? ? ? ? ? ?]; [|done..]. by split.
  - by rewrite (same_input _ _ S3).
  - exists gk, (gq + 32). rewrite (same_G _ _ S3). split; [done|lia].
Qed.

Definition out_shapes (k : nat) (o : OTExt) : Prop :=
  mat_shape k (ot_r o) ∧ mat_shape k (ot_s0 o) ∧ mat_shape k (ot_s1 o).

(** The end of [extend_correlated]. *)
Lemma shrink_outputs o : ot_wf o → shapes (n_squares n) o →
  ∃ o', (∀ P : Link, (r ← bitmatrix_resize (ot_r o) (Z.of_nat (n_squares n - 2) * 128);
         s0 ← bitmatrix_resize (ot_s0 o) (Z.of_nat (n_squares n - 2) * 128);
         s1 ← bitmatrix_resize (ot_s1 o) (Z.of_nat (n_squares n - 2) * 128);
         Ok (with_matrices o s0 s1 r (ot_t1 o) (ot_u o), P)) = Ok (o', P)) ∧ ot_wf o' ∧
    ot_role o' = ot_role o ∧ passive_only o' = passive_only o ∧ G_sender o' = G_sender o ∧
    G_receiver o' = G_receiver o ∧ ot_G o' = ot_G o ∧ baseReceiverInput o' = baseReceiverInput o ∧
    out_shapes (n_squares n - 2) o' ∧
    (∀ F, ot_r o = mat (n_squares n) F → ot_r o' = mat (n_squares n - 2) F) ∧
    (∀ F, ot_s0 o = mat (n_squares n) F → ot_s0 o' = mat (n_squares n - 2) F).
Proof.
  intros Hw [H0 H1 Hr _ _].
  destruct (bitmatrix_resize_shape _ _ (n_squares n - 2) Hr) as (r & Er & Sr).
  destruct (bitmatrix_resize_shape _ _ (n_squares n - 2) H0) as (s0 & E0 & S0).
  destruct (bitmatrix_resize_shape _ _ (n_squares n - 2) H1) as (s1 & E1 & S1).
  eexists. split; [intros P; by rewrite Er, E0, E1|].
  split; [apply final_wf; [done|by eapply shape_squares..]|]. split_and!; try done; cbn; intros F EF.
  - rewrite EF, bitmatrix_resize_mat in Er by lia. congruence.
  - rewrite EF, bitmatrix_resize_mat in E0 by lia. congruence.
Qed.
End runs.

(** Both runs: the outputs are the columns of the expanded matrices. *)
Lemma extend_correlated_spec `{Heap} clmul junk key p m snd rcv n x y fr fs gkey q wr ws :
  clmul_spec clmul → (∀ i, shape 128 16 (junk i)) → paired key p m snd rcv →
  0 < n < 2 ^ 26 → bv_wf x → bv_nbits x = n → bv_wf y → bv_nbits y ≤ n →
  room p (n_squares n) → 32 ≤ m →
  alike fr fs gkey q wr ws → schedule_wf gkey → room q (n_squares n * 128) →
  ∃ rcv' snd' wire_r wire_s x',
    (∀ out rest, extend_correlated clmul junk rcv (mkLink out (wire_s ++ rest)) fr n x = Ok (rcv', mkLink (out ++ wire_r) rest)) ∧
    (∀ out rest, extend_correlated clmul junk snd (mkLink out (wire_r ++ rest)) fs n y = Ok (snd', mkLink (out ++ wire_s) rest)) ∧
    paired key (p + Z.of_nat (n_squares n)) (m - 32) snd' rcv' ∧
    baseReceiverInput snd' = baseReceiverInput snd ∧
    out_shapes (n_squares n - 2) rcv' ∧ out_shapes (n_squares n - 2) snd' ∧
    bv_wf x' ∧ (∀ j, 0 ≤ j < n → Z.testbit (bv_num x') j = Z.testbit (bv_num x) j) ∧
    ot_r rcv' = mat (n_squares n - 2) (t_rows key p) ∧
    ot_s0 snd' = mat (n_squares n - 2) (λ i r, Z.lxor (t_rows key p i r)
      (key_if (Z.testbit (bv_block x' i) (Z.of_nat r)) (bv_num (baseReceiverInput snd)))).
Proof.
  intros Hc Hj [Rs Rr Ws Wr Hpas Hkey Gs Gr Ls Lr] Hn Hx Hxn Hy Hyn Hroom Hm HG Hgk Hq.
  destruct (receiver_run clmul junk Hj n Hn key Hkey p m Hroom Hm rcv x Rr Wr Gr Lr Hx Hxn)
    as (ro & x' & wire1 & Er & Rr1 & Pr1 & Wr1 & Sr1 & Dr1 & Gr1 & Lr1 & Hrr & HR & Hx' & Hxn' & Hbits).
  destruct (sender_run clmul junk Hj n Hn key Hkey p m Hroom Hm snd x' y Rs Ws Gs Ls Hy Hyn Hx')
    as (so & y' & Es & Rs1 & Ps1 & Ws1 & Ss1 & Ds1 & Gs1 & Ls1 & Hss).
  assert (Hcheck : ∃ wire2 wire_s,
    (∀ out rest, (if passive_only rcv then Ok (mkLink out (wire_s ++ rest))
       else check_correlation clmul ro (mkLink out (wire_s ++ rest)) fr (Z.of_nat (n_squares n) * 128) x')
         = Ok (mkLink (out ++ wire2) rest)) ∧
    (∀ out rest, (if passive_only snd then Ok (mkLink out (wire2 ++ rest))
       else check_correlation clmul so (mkLink out (wire2 ++ rest)) fs (Z.of_nat (n_squares n) * 128) y')
         = Ok (mkLink (out ++ wire_s) rest))).
  { rewrite Hpas. destruct (passive_only rcv); [exists [], []; split; intros; by rewrite app_nil_r|].
    destruct (check_passes clmul Hc (n_squares n) (t_rows key p) ro so x' y' fr fs wr ws gkey q)
      as (wire2 & C1 & C2); try done; [apply Wr1|apply Ws1|apply Wr1|apply Wr1|apply Ws1|apply Ws1| | |].
    - intros i r _ _. apply col_word.
    - by rewrite Ds1.
    - exists (wr ++ wire2), ws. split; intros out rest; [apply C1|rewrite <-app_assoc; apply C2]. }
  destruct Hcheck as (wire2 & wire_s & C1 & C2).
  destruct (shrink_outputs n ro Wr1 Sr1) as (rcv' & Er' & Wr' & Rr' & Pr' & Gsr' & Grr' & GG' & Dr' & Or' & Hr' & _).
  destruct (shrink_outputs n so Ws1 Ss1) as (snd' & Es' & Ws' & Rs' & Ps' & Gss' & Grs' & GGs' & Ds' & Os' & _ & Hs').
  exists rcv', snd', (wire1 ++ wire2), wire_s, x'.
  split; [intros out rest; rewrite Er; cbn [l_out l_in]; rewrite C1, bind_ok, Er'; by rewrite <-app_assoc|].
  split; [intros out rest; rewrite <-app_assoc, Es by done; rewrite C2, bind_ok; apply Es'|]. split.
  { split; try done; [congruence..| | | |].
    - rewrite Ds', Ds1, Grs'. exact Gs1.
    - rewrite Gsr'. exact Gr1.
    - unfold g_room. rewrite GGs'. exact Ls1.
    - unfold g_room. rewrite GG'. exact Lr1. }
  split_and!; [congruence|done|done|done|done|by apply Hr'|by apply Hs'].
Qed.

(** The number of a row as a square and a row of it. *)
Lemma row_bit x j : bv_wf x →
  Z.testbit (bv_block x (j / 128)) (Z.of_nat (j mod 128)) = Z.testbit (bv_num x) (Z.of_nat j).
Proof.
  intros Hx. pose proof (Nat.mod_upper_bound j 128 ltac:(lia)). rewrite bv_block_testbit by done. f_equal.
  pose proof (Nat.div_mod j 128 ltac:(lia)). lia.
Qed.

(** What the matrices of [extend_correlated_spec] say about the rows. *)
Lemma rows_correlated n key p x x' delta r s0 : 0 < n < 2 ^ 26 → bv_wf x' →
  (∀ j, 0 ≤ j < n → Z.testbit (bv_num x') j = Z.testbit (bv_num x) j) →
  r = mat (n_squares n - 2) (t_rows key p) →
  s0 = mat (n_squares n - 2) (λ i r, Z.lxor (t_rows key p i r) (key_if (Z.testbit (bv_block x' i) (Z.of_nat r)) delta)) →
  ∀ j, 0 ≤ j < n → ∃ k, output_row s0 j = Ok k ∧
    output_row r j = Ok (Z.lxor k (key_if (Z.testbit (bv_num x) j) delta)).
Proof.
  intros Hn Hx' Hb -> -> j Hjn.
  destruct (n_squares_bounds n Hn) as (HN & HN' & Hnn).
  replace j with (Z.of_nat (Z.to_nat j)) by lia.
  rewrite !output_row_mat by lia. eexists. split; [done|]. f_equal.
  rewrite row_bit, Hb by (done || lia). by rewrite Z.lxor_assoc, Z.lxor_nilpotent, Z.lxor_0_r.
Qed.

(** C4. The OT extension implements the correlated OT that the protocol relies on.
    From paired parties, with any choice bits of the receiver and whichever party
    checks, both runs of [extend_correlated] succeed on the messages of each other (the
    honest parties pass the correlation check), they are paired again, and for
    every choice bit the row of the receiver is the row of the sender, plus [delta]
    if the bit is one. *)
Theorem extend_correlated_refines `{Heap} clmul junk key p m snd rcv n x y fr fs gkey q wr ws :
  clmul_spec clmul → (∀ i, shape 128 16 (junk i)) → paired key p m snd rcv →
  0 < n < 2 ^ 26 → bv_wf x → bv_nbits x = n → bv_wf y → bv_nbits y ≤ n →
  room p (n_squares n) → 32 ≤ m →
  alike fr fs gkey q wr ws → schedule_wf gkey → room q (n_squares n * 128) →
  ∃ rcv' snd' wire_r wire_s,
    (∀ out rest, extend_correlated clmul junk rcv (mkLink out (wire_s ++ rest)) fr n x = Ok (rcv', mkLink (out ++ wire_r) rest)) ∧
    (∀ out rest, extend_correlated clmul junk snd (mkLink out (wire_r ++ rest)) fs n y = Ok (snd', mkLink (out ++ wire_s) rest)) ∧
    paired key (p + Z.of_nat (n_squares n)) (m - 32) snd' rcv' ∧
    ∀ j, 0 ≤ j < n → ∃ k, output_row (ot_s0 snd') j = Ok k ∧
      output_row (ot_r rcv') j
        = Ok (Z.lxor k (key_if (Z.testbit (bv_num x) j) (bv_num (baseReceiverInput snd)))).
Proof.
  intros Hc Hj Hp Hn Hx Hxn Hy Hyn Hroom Hm HG Hgk Hq.
  destruct (extend_correlated_spec clmul junk key p m snd rcv n x y fr fs gkey q wr ws)
    as (rcv' & snd' & wire_r & wire_s & x' & Er & Es & Hp' & _ & _ & _ & Hx' & Hb & Hr & Hs); [done..|].
  exists rcv', snd', wire_r, wire_s. split_and!; [done..|].
  by apply (rows_correlated n key p x x').
Qed.

(** ** An instance *)
Definition sample_delta : BitVector := mkBv (replicate 16 0xA5) 16 128.
Definition sample_choice : BitVector := mkBv [0x96; 1] 2 9.

Lemma sample_delta_wf : bv_wf sample_delta.
Proof. split; [cbn; lia|done|cbn; lia|]. unfold sample_delta. cbn [bv_bytes]. by apply Forall_replicate. Qed.
Lemma sample_choice_wf : bv_wf sample_choice.
Proof. split; [cbn; lia|done|cbn; lia|]. repeat constructor; done. Qed.

(** Parties after base OTs in which all seeds of a kind are the same. *)
Lemma sample_pair (passive : bool) : ∃ key snd rcv G, paired key 0 64 snd rcv ∧ passive_only snd = passive ∧
  baseReceiverInput snd = sample_delta ∧ at_pos G (key 0%nat false) (16 * 0).
Proof.
  assert (W : ∀ b, is_u8 b → block_wf (replicate 16 b)) by (intros b Hb; split; [done|by apply Forall_replicate]).
  destruct (SetSeed_spec zero_prng (replicate 16 0) (W 0 ltac:(done))) as (g0 & _ & H0 & _).
  destruct (SetSeed_spec zero_prng (replicate 16 1) (W 1 ltac:(done))) as (g1 & _ & H1 & _).
  set (key := λ (_ : nat) (b : bool), aes_128_schedule (replicate 16 (b2z b))).
  set (party := λ role gs gr, mkOt role passive 128 1 sample_delta gs gr g0 [] [] [] [] []).
  assert (Hwf : ∀ role gs gr, ot_wf (party role gs gr)) by (intros; split; [done|done|apply sample_delta_wf|done|constructor..]).
  exists key, (party SENDER [] ((λ r, if Z.testbit (bv_num sample_delta) (Z.of_nat r) then g1 else g0) <$> seq 0 128)),
    (party RECEIVER (replicate 128 (g0, g1)) []), g0.
  split; [|done]. split; try done.
  - intros r b _. unfold key. destruct b; [destruct H1 as (? & [_ _ Hw _ _ _ _] & _)|destruct H0 as (? & [_ _ Hw _ _ _ _] & _)]; exact Hw.
  - unfold party. cbn [G_receiver baseReceiverInput].
    split; [by rewrite length_fmap, length_seq|]. intros i g Hi.
    apply list_lookup_fmap_Some in Hi as (r & -> & Hr). apply lookup_seq in Hr as [-> Hr]. unfold chosen, key.
    rewrite Nat.add_0_l. by destruct (Z.testbit _ _).
  - split; [done|]. intros i h0 h1 Hi. apply lookup_replicate in Hi as [[= -> ->] _]. done.
  - eexists _, 0. split; [exact H0|done].
  - eexists _, 0. split; [exact H0|done].
Qed.

Lemma extend_correlated_refines_witness : ∃ (snd rcv rcv' snd' : OTExt) (G : PRNG) (wire_r wire_s : list Z),
  extend_correlated (λ c a b, software_clmul a b c) (λ _, blank) rcv (mkLink [] (wire_s ++ [6])) (λ P, Ok (G, P)) 9 sample_choice
    = Ok (rcv', mkLink wire_r [6]) ∧
  extend_correlated (λ c a b, software_clmul a b c) (λ _, blank) snd (mkLink [] (wire_r ++ [7])) (λ P, Ok (G, P)) 9 sample_choice
    = Ok (snd', mkLink wire_s [7]) ∧ passive_only snd = false.
Proof.
  destruct (sample_pair false) as (key & snd & rcv & G & Hp & Hpas & _ & HG).
  destruct (extend_correlated_refines (λ c a b, software_clmul a b c) (λ _, blank) key 0 64 snd rcv 9
    sample_choice sample_choice (λ P, Ok (G, P)) (λ P, Ok (G, P)) (key 0%nat false) 0 [] [])
    as (rcv' & snd' & wire_r & wire_s & E1 & E2 & _);
    [exact software_clmul_spec|intros; exact blank_shape|exact Hp|by split|exact sample_choice_wf|done
    |exact sample_choice_wf|done|by split|done|by apply alike_given|apply (pr_key _ _ _ _ _ Hp); apply Nat.ltb_lt; reflexivity|by split|].
  exists snd, rcv, rcv', snd', G, wire_r, wire_s. split; [exact (E1 [] [6])|]. split; [exact (E2 [] [7])|exact Hpas].
Defined.
