(* ===== verification/Exchange.v ===== *)
(** * Exchanging two messages

    [Exchanger] of [Networking/Exchanger.h] and [octetStream::exchange]: two parties send
    and receive at the same time over non-blocking sockets, possibly into the buffer
    that is being sent.  A socket accepts and delivers as many octets of a call as the
    environment chooses. *)

From S2P Require Import Prelude Memory OctetStream OctetProps.

(** ** The state

    [data] points into a stream that nothing changes, or into the array of
    [receive_stream], which [resize] can replace ([live] is then false). *)
Inductive Source :=
  | Other (data : list Z)
  | Same (live : bool).

Record Exchanger := mkEx {
  ex_data : Source;
  ex_len : Z;
  ex_sent : Z;
  ex_received : Z;
  ex_length_received : bool;
  ex_new_len : Z;
  receive_stream : octetStream;
}.

Section exchange.
Context `{Heap}.

(** The constructor, with what it puts on the socket; no [send_stream] means that it is
    [receive_stream]. *)
Definition exchanger_new (send_stream : option octetStream) (receive_stream : octetStream)
    : outcome (Exchanger * list Z) :=
  let s := default receive_stream send_stream in
  d ← get_data s;
  blen ← encode_length (os_len s) LENGTH_SIZE;
  Ok (mkEx (match send_stream with Some _ => Other d | None => Same true end) (os_len s) 0 0 false 0 receive_stream, blen).

Definition source_read (e : Exchanger) (off n : Z) : outcome (list Z) :=
  match ex_data e with
  | Other d => mem_read d off n
  | Same true => mem_read (os_data (receive_stream e)) off n
  | Same false => UB
  end.

(** The first half of [round]; [ns] octets fit into the socket. *)
Definition send_part (ns : Z) (e : Exchanger) : outcome (Exchanger * list Z) :=
  if ex_sent e <? ex_len e then
    let to_send := ex_len e - ex_sent e in
    let newly_sent := Z.max 0 (Z.min ns to_send) in
    x ← source_read e (ex_sent e) newly_sent;
    Ok (mkEx (ex_data e) (ex_len e) (ex_sent e + newly_sent) (ex_received e) (ex_length_received e)
          (ex_new_len e) (receive_stream e), x)
  else Ok (e, []).

Definition to_receive (e : Exchanger) : Z :=
  let same := match ex_data e with Same _ => true | Other _ => false end in
  if (ex_sent e =? ex_len e) || negb same then ex_new_len e - ex_received e
  else if ex_received e <? ex_sent e then ex_sent e - ex_received e else 0.

(** [recv] into [receive_stream.data + received] *)
Definition take_octets (e : Exchanger) (n : Z) (q : list Z) : outcome (Exchanger * list Z) :=
  r ← poke (receive_stream e) (ex_received e) (take (Z.to_nat n) q);
  Ok (mkEx (ex_data e) (ex_len e) (ex_sent e) (ex_received e + n) (ex_length_received e) (ex_new_len e) r,
      drop (Z.to_nat n) q).

(** [resize] replaces the array. *)
Definition reallocates (os : octetStream) (l : Z) : bool :=
  negb (l <? mxlen os) && negb (u64 (2 * l) =? mxlen os).

Definition take_length (e : Exchanger) (q : list Z) : outcome (Exchanger * list Z) :=
  '(blen, q) ← receive q LENGTH_SIZE;
  new_len ← decode_length blen LENGTH_SIZE;
  let l := Z.max new_len (ex_len e) in
  let src := match ex_data e with Same live => Same (live && negb (reallocates (receive_stream e) l)) | d => d end in
  r ← os_resize (receive_stream e) l;
  Ok (mkEx src (ex_len e) (ex_sent e) (ex_received e) true new_len r, q).

(** The second half; [q] is what the socket holds and [nr] how much of it a call gets.
    Nothing if the call blocks. *)
Definition receive_part (block : bool) (nr : Z) (e : Exchanger) (q : list Z)
    : option (outcome (Exchanger * list Z)) :=
  let waits := block && negb (ex_sent e <? ex_len e) in
  let avail := Z.of_nat (length q) in
  if ex_received e <? ex_new_len e then
    let n := to_receive e in
    if 0 <? n then
      if waits then (if avail <? n then None else Some (take_octets e n q))
      else Some (take_octets e (Z.max 0 (Z.min nr (Z.min n avail))) q)
    else Some (Ok (e, q))
  else if negb (ex_length_received e) then
    if waits then (if avail <? LENGTH_SIZE then None else Some (take_length e q))
    else if (avail <? LENGTH_SIZE) || (nr <? LENGTH_SIZE) then Some (Ok (e, q)) else Some (take_length e q)
  else Some (Ok (e, q)).

(** The value of [round]. *)
Definition unfinished (e : Exchanger) : bool :=
  (ex_received e <? ex_new_len e) || (ex_sent e <? ex_len e) || negb (ex_length_received e).

Definition round (block : bool) (ns nr : Z) (e : Exchanger) (q : list Z)
    : option (outcome (bool * Exchanger * list Z * list Z)) :=
  match send_part ns e with
  | Ok (e, x) =>
      match receive_part block nr e q with
      | Some r => Some ('(e, q) ← r; Ok (unfinished e, e, x, q))
      | None => None
      end
  | Throw m => Some (Throw m)
  | UB => Some UB
  end.

(** The destructor. *)
Definition exchanger_end (e : Exchanger) : octetStream :=
  reset_read_head (set_len (receive_stream e) (ex_new_len e)).

(** ** Two parties

    A round is a send followed by a receive, which may block; [sa] and [sb] say that a
    party is about to send.  [ab] is what [pa] has sent and [pb] not received. *)
Record Pair := mkPair { pa : Exchanger; sa : bool; pb : Exchanger; sb : bool; ab : list Z; ba : list Z }.

Definition swap (s : Pair) : Pair := mkPair (pb s) (sb s) (pa s) (sa s) (ba s) (ab s).

Definition send_a (ns : Z) (s : Pair) : outcome Pair :=
  '(e, x) ← send_part ns (pa s); Ok (mkPair e false (pb s) (sb s) (ab s ++ x) (ba s)).

Definition receive_a (block : bool) (nr : Z) (s : Pair) : option (outcome Pair) :=
  match receive_part block nr (pa s) (ba s) with
  | Some r => Some ('(e, q) ← r; Ok (mkPair e true (pb s) (sb s) (ab s) q))
  | None => None
  end.

(** The first party starts a round only if the last one was not its last. *)
Inductive step_a (block : bool) : Pair → outcome Pair → Prop :=
  | step_send ns s : sa s = true → unfinished (pa s) = true → step_a block s (send_a ns s)
  | step_receive nr s r : sa s = false → receive_a block nr s = Some r → step_a block s r.

(** Steps of either party; steps that end in an exception, and steps with undefined
    behaviour, such as a read of an array that has been freed. *)
Definition exchange_step (block : bool) (s s' : Pair) : Prop :=
  step_a block s (Ok s') ∨ step_a block (swap s) (Ok (swap s')).
Definition exchange_throws (block : bool) (s : Pair) : Prop :=
  ∃ m, step_a block s (Throw m) ∨ step_a block (swap s) (Throw m).
Definition exchange_undefined (block : bool) (s : Pair) : Prop :=
  step_a block s UB ∨ step_a block (swap s) UB.
Definition exchange_error (block : bool) (s : Pair) : Prop :=
  exchange_throws block s ∨ exchange_undefined block s.

Definition finished (s : Pair) : Prop :=
  sa s = true ∧ unfinished (pa s) = false ∧ sb s = true ∧ unfinished (pb s) = false.

Definition exchange_new (sa : option octetStream) (ra : octetStream) (sb : option octetStream)
    (rb : octetStream) : outcome Pair :=
  '(a, xa) ← exchanger_new sa ra;
  '(b, xb) ← exchanger_new sb rb;
  Ok (mkPair a true b true xa xb).
End exchange.
