(* ===== verification/ExchangeProps.v ===== *)
(** * Properties of the exchange

    Whatever the sockets accept and deliver, two parties swap their messages; into a
    buffer that is being sent only if its allocation has room. *)

From S2P Require Import Prelude Memory OctetStream OctetProps Exchange.

(** What goes over the socket. *)
Definition framed (x : list Z) : list Z := le_bytes 4 (Z.of_nat (length x)) ++ x.

Lemma framed_length x : length (framed x) = (4 + length x)%nat.
Proof. unfold framed. by rewrite length_app, le_bytes_length. Qed.

Lemma framed_drop x a : drop (4 + a) (framed x) = drop a x.
Proof.
  by rewrite <-(drop_drop _ a 4).
Qed.

Lemma framed_slice x a p : drop (4 + a) (take (4 + p) (framed x)) = drop a (take p x).
Proof. rewrite skipn_firstn_comm, framed_drop, skipn_firstn_comm. done. Qed.

(** Octets written and read by position. *)
Lemma mem_write_lookup buf off x buf' i : mem_write buf off x = Ok buf' →
  buf' !! i = if (Z.to_nat off <=? i)%nat && (i <? Z.to_nat off + length x)%nat then x !! (i - Z.to_nat off)%nat else buf !! i.
Proof.
  intros (H0 & Hl & ->)%mem_write_inv. destruct (Nat.leb_spec (Z.to_nat off) i).
  - rewrite lookup_app_r by (rewrite length_take; lia). rewrite length_take, Nat.min_l by lia.
    destruct (Nat.ltb_spec i (Z.to_nat off + length x)); cbn [andb].
    + by rewrite lookup_app_l by lia.
    + rewrite lookup_app_r by lia. rewrite lookup_drop. f_equal. lia.
  - cbn [andb]. rewrite lookup_app_l by (rewrite length_take; lia). by rewrite lookup_take_lt by lia.
Qed.

Lemma take_eq_lookup {A} (k : nat) (l1 l2 : list A) : (∀ i, (i < k)%nat → l1 !! i = l2 !! i) → take k l1 = take k l2.
Proof.
  intros Hl. apply list_eq. intros i. destruct (decide (i < k)%nat).
  - rewrite !lookup_take_lt by done. by apply Hl.
  - by rewrite !lookup_take_ge by lia.
Qed.

Section party.
Context `{Heap}.

Lemma os_resize_room os l : 0 ≤ os_len os ≤ mxlen os → mxlen os < 2 ^ 63 → 0 ≤ l < 2 ^ 32 →
  ∃ d, os_resize os l = Ok (set_data os d) ∧ l ≤ Z.of_nat (length d) ∧ os_len os ≤ Z.of_nat (length d) < 2 ^ 63 ∧
       (l < mxlen os → d = os_data os).
Proof.
  intros Ho Hm Hl. unfold os_resize. destruct (Z.ltb_spec l (mxlen os)) as [|Hge].
  { exists (os_data os). unfold mxlen in *. split; [by destruct os|]. split_and!; [lia..|done]. }
  rewrite u64_id by (cbn; lia). unfold resize_precise. destruct (Z.eqb_spec (2 * l) (mxlen os)) as [E|E].
  { exists (os_data os). unfold mxlen in *. split; [by destruct os|]. split_and!; [lia..|done]. }
  rewrite new_array_Ok by lia. cbn [mbind outcome_bind]. rewrite Z.min_l by lia. unfold mxlen in *.
  rewrite mem_read_Ok by lia. cbn [mbind outcome_bind].
  rewrite mem_write_Ok by (rewrite ?length_take, ?new_octets_length, ?length_drop; lia). cbn [mbind outcome_bind].
  eexists. split; [done|]. rewrite !length_app, !length_take, !length_drop, new_octets_length. split_and!; lia.
Qed.

(** ** One party

    with message [x], that is to receive [y]. *)
Section one.
Context (x y : list Z) (Hx : Z.of_nat (length x) < 2 ^ 31) (Hy : Z.of_nat (length y) < 2 ^ 31).

Definition array (e : Exchanger) : list Z := os_data (receive_stream e).

(** The octets to be sent are still there. *)
Definition source_ok (e : Exchanger) : Prop :=
  match ex_data e with
  | Other d => x `prefix_of` d
  | Same live => live = true ∧ Z.of_nat (length x) < mxlen (receive_stream e) ∧ Z.of_nat (length y) < mxlen (receive_stream e) ∧
      (ex_sent e < ex_len e → ex_received e ≤ ex_sent e) ∧
      ∀ i, (Z.to_nat (ex_received e) ≤ i < length x)%nat → array e !! i = x !! i
  end.

Record party (e : Exchanger) : Prop := {
  p_len : ex_len e = Z.of_nat (length x);
  p_sent : 0 ≤ ex_sent e ≤ Z.of_nat (length x);
  p_received : 0 ≤ ex_received e ≤ ex_new_len e;
  p_new : ex_new_len e = if ex_length_received e then Z.of_nat (length y) else 0;
  p_os : 0 ≤ os_len (receive_stream e) ≤ mxlen (receive_stream e) ∧ mxlen (receive_stream e) < 2 ^ 63;
  p_room : ex_new_len e ≤ mxlen (receive_stream e);
  p_got : ∀ i, (i < Z.to_nat (ex_received e))%nat → array e !! i = y !! i;
  p_source : source_ok e;
}.

(** Octets of each message that the party has dealt with. *)
Definition produced (e : Exchanger) : nat := 4 + Z.to_nat (ex_sent e).
Definition consumed (e : Exchanger) : nat := if ex_length_received e then 4 + Z.to_nat (ex_received e) else 0.

Lemma source_read_ok e n : party e → 0 ≤ n → ex_sent e + n ≤ ex_len e → ex_sent e < ex_len e →
  source_read e (ex_sent e) n = Ok (take (Z.to_nat n) (drop (Z.to_nat (ex_sent e)) x)).
Proof.
  intros [Hl Hs Hr Hn Ho Hm Hg Hsrc] Hn0 Hle Hlt. unfold source_read, source_ok in *.
  destruct (ex_data e) as [d|live].
  - destruct Hsrc as [k ->]. rewrite mem_read_Ok by (rewrite ?length_app; lia). f_equal.
    rewrite drop_app_le by lia. by rewrite take_app_le by (rewrite length_drop; lia).
  - destruct Hsrc as (-> & Hcap & _ & Hord & Hown). fold (array e). unfold mxlen in Hcap. fold (array e) in Hcap.
    rewrite mem_read_Ok by lia. f_equal. apply take_eq_lookup. intros i Hi. rewrite !lookup_drop.
    apply Hown. lia.
Qed.

Lemma send_ok ns e : party e →
  ∃ e' z, send_part ns e = Ok (e', z) ∧ party e' ∧
    take (produced e') (framed x) = take (produced e) (framed x) ++ z ∧
    ex_sent e' = ex_sent e + Z.max 0 (Z.min ns (ex_len e - ex_sent e)) ∧ consumed e' = consumed e ∧ ex_len e' = ex_len e.
Proof.
  intros Hp. pose proof Hp as [Hl Hs Hr Hn Ho Hm Hg Hsrc]. unfold send_part.
  destruct (Z.ltb_spec (ex_sent e) (ex_len e)) as [Hlt|Hge].
  - set (n := Z.max 0 (Z.min ns (ex_len e - ex_sent e))). rewrite source_read_ok by (done || lia).
    cbn [mbind outcome_bind]. eexists _, _. split; [done|]. split; [|split; [|done]].
    + split; cbn; try done; [lia|]. unfold source_ok in *. cbn. destruct (ex_data e); [done|].
      destruct Hsrc as (? & ? & ? & ? & ?). split_and!; try done. cbn. lia.
    + unfold produced. cbn [ex_sent].
      replace (4 + Z.to_nat (ex_sent e + n))%nat with (4 + Z.to_nat (ex_sent e) + Z.to_nat n)%nat by lia.
      by rewrite <-take_take_drop, framed_drop.
  - exists e, []. split; [done|]. split; [done|]. split; [by rewrite app_nil_r|]. split; [lia|done].
Qed.

(** What the socket holds: the octets of [framed y] from [consumed e] to [p]. *)
Definition holds (e : Exchanger) (p : nat) (q : list Z) : Prop :=
  (consumed e ≤ p ≤ 4 + length y)%nat ∧ q = drop (consumed e) (take p (framed y)).

Lemma holds_length e p q : holds e p q → length q = (p - consumed e)%nat.
Proof. intros [Hp ->]. rewrite length_drop, length_take, framed_length. lia. Qed.

Lemma take_octets_ok e n p q : party e → holds e p q → ex_received e < ex_new_len e →
  0 ≤ n ≤ Z.of_nat (length q) →
  (∀ live, ex_data e = Same live → ex_sent e < ex_len e → ex_received e + n ≤ ex_sent e) →
  ∃ e' q', take_octets e n q = Ok (e', q') ∧ party e' ∧ holds e' p q' ∧ ex_sent e' = ex_sent e ∧ ex_len e' = ex_len e ∧
    consumed e' = (consumed e + Z.to_nat n)%nat.
Proof.
  intros Hp Hq Hlt Hn0 Hord. pose proof Hp as [Hl Hs Hr Hn Ho Hm Hg Hsrc]. pose proof (holds_length _ _ _ Hq) as Hlq.
  destruct (ex_length_received e) eqn:Elr; [|lia].
  assert (Hcons : consumed e = (4 + Z.to_nat (ex_received e))%nat) by (unfold consumed; by rewrite Elr).
  destruct Hq as [Hpq Hq]. set (r := Z.to_nat (ex_received e)) in *. assert (Hrz : Z.of_nat r = ex_received e) by (unfold r; lia).
  assert (Hqy : ∀ i, (i < length q)%nat → q !! i = y !! (r + i)%nat).
  { intros i Hi. rewrite Hq, Hcons. replace p with (4 + (p - 4))%nat by lia. rewrite framed_slice, lookup_drop.
    by rewrite lookup_take_lt by lia. }
  unfold take_octets, poke. fold (array e).
  destruct (mem_write (array e) (ex_received e) (take (Z.to_nat n) q)) as [d'| |] eqn:Ew;
    [|exfalso; rewrite mem_write_Ok in Ew; unfold mxlen in Hm; fold (array e) in Hm; rewrite ?length_take; (lia || discriminate)..].
  cbn [mbind outcome_bind]. pose proof (mem_write_length _ _ _ _ Ew) as Hld.
  pose proof (λ i, mem_write_lookup _ _ _ _ i Ew) as Hlook. fold r in Hlook. rewrite length_take, Nat.min_l in Hlook by lia.
  eexists _, _. split; [done|]. split; [|split; [|split; [done|split; [done|]]]].
  - split; cbn; rewrite ?Elr; try done; try lia.
    + unfold mxlen in *. cbn [os_data set_data] in *. fold (array e) in *. lia.
    + unfold mxlen in *. cbn [os_data set_data] in *. fold (array e) in *. lia.
    + intros i Hi. unfold array; cbn. rewrite Hlook. destruct (Nat.leb_spec r i), (Nat.ltb_spec i (r + Z.to_nat n)); cbn [andb];
        try lia; [|apply Hg; lia..].
      rewrite lookup_take_lt, Hqy by lia. f_equal. lia.
    + unfold source_ok in *. cbn. destruct (ex_data e) as [|live]; [done|].
      destruct Hsrc as (? & ? & ? & ? & Hown). unfold mxlen in *; cbn [os_data set_data] in *. fold (array e) in *. rewrite Hld.
      split_and!; try done. { intros ?. by apply (Hord live). }
      intros i Hi. unfold array; cbn. rewrite Hlook.
      destruct (Nat.leb_spec r i), (Nat.ltb_spec i (r + Z.to_nat n)); cbn [andb]; try lia; apply Hown; lia.
  - unfold holds, consumed. cbn. rewrite Elr. split; [lia|]. rewrite Hq, drop_drop, Hcons. f_equal. lia.
  - unfold consumed. cbn. rewrite Elr. lia.
Qed.

Lemma take_length_ok e p q : party e → holds e p q → ex_length_received e = false → 4 ≤ Z.of_nat (length q) →
  ∃ e' q', take_length e q = Ok (e', q') ∧ party e' ∧ holds e' p q' ∧ ex_sent e' = ex_sent e ∧ ex_len e' = ex_len e ∧
    consumed e = 0%nat ∧ consumed e' = 4%nat.
Proof.
  intros Hp Hq Elr Hlq. pose proof Hp as [Hl Hs Hr Hn [Ho Hmx] Hm Hg Hsrc]. rewrite Elr in Hn.
  pose proof (holds_length _ _ _ Hq) as Hlen.
  assert (Hc0 : consumed e = 0%nat) by (unfold consumed; by rewrite Elr). rewrite Hc0 in Hlen. destruct Hq as [Hpq Hq]. rewrite Hc0, drop_0 in Hq.
  assert (Hq4 : take 4 q = le_bytes 4 (Z.of_nat (length y))).
  { rewrite Hq, take_take, Nat.min_l by lia. unfold framed. apply take_app_length'. by rewrite le_bytes_length. }
  unfold take_length, receive, LENGTH_SIZE. rewrite (proj2 (Z.ltb_ge _ _)) by lia. cbn [mbind outcome_bind].
  change (Z.to_nat 4) with 4%nat. rewrite Hq4. change 4 with (Z.of_nat 4).
  rewrite decode_length_Ok by (lia || apply le_bytes_length). cbn [mbind outcome_bind].
  rewrite le_val_bytes by (unfold is_word; cbn; lia).
  destruct (os_resize_room (receive_stream e) (Z.max (Z.of_nat (length y)) (ex_len e)) Ho Hmx ltac:(lia))
    as (d & -> & Hd & Hd' & Hsame). cbn [mbind outcome_bind].
  eexists _, _. split; [done|]. split; [|split; [|split; [done|split; [done|split; [done|]]]]].
  - assert (Hr0 : ex_received e = 0) by lia.
    split; cbn; rewrite ?Hr0; try done; try (unfold mxlen; cbn; lia).
    unfold source_ok in *. cbn. destruct (ex_data e) as [|live]; [done|].
      destruct Hsrc as (-> & Hcx & Hcy & Hord & Hown).
      specialize (Hsame ltac:(lia)). unfold reallocates, mxlen, array in *. cbn. subst d.
      rewrite (proj2 (Z.ltb_lt _ _)) by lia. rewrite Hr0 in *. split_and!; try done.
  - unfold holds, consumed. cbn [ex_length_received ex_received].
    replace (Z.to_nat (ex_received e)) with 0%nat by lia. split; [lia|]. by rewrite Hq.
  - unfold consumed. cbn [ex_length_received ex_received]. lia.
Qed.

(** A receive that does not block. *)
Definition received_some (e : Exchanger) (p : nat) (r : option (outcome (Exchanger * list Z))) : Prop :=
  ∃ e' q', r = Some (Ok (e', q')) ∧ party e' ∧ holds e' p q' ∧ ex_sent e' = ex_sent e ∧ ex_len e' = ex_len e ∧
    (consumed e ≤ consumed e')%nat.

Lemma received_none e p q : party e → holds e p q → received_some e p (Some (Ok (e, q))).
Proof. intros Hp Hq. by exists e, q. Qed.

Lemma to_receive_range e : party e → ex_received e < ex_new_len e → 0 < to_receive e →
  (∀ live, ex_data e = Same live → ex_sent e < ex_len e → ex_received e + to_receive e ≤ ex_sent e) ∧
  (ex_sent e = ex_len e → to_receive e = ex_new_len e - ex_received e).
Proof.
  intros Hp Hlt. unfold to_receive. destruct (ex_data e) as [|live]; cbn [negb orb]; rewrite ?orb_true_r, ?orb_false_r.
  - intros _. split; [intros ? [=]|done].
  - destruct (Z.eqb_spec (ex_sent e) (ex_len e)); [intros _; split; [lia|done]|].
    destruct (Z.ltb_spec (ex_received e) (ex_sent e)); [|lia]. intros _. split; [intros; lia|done].
Qed.

Lemma receive_ok block nr e p q : party e → holds e p q →
  (receive_part block nr e q = None ∧ ex_sent e = ex_len e ∧ (p < 4 + length y)%nat) ∨
  received_some e p (receive_part block nr e q).
Proof.
  intros Hp Hq. pose proof Hp as [Hl Hs Hr Hn _ _ _ _]. pose proof (holds_length _ _ _ Hq) as Hlq.
  pose proof (proj1 Hq) as Hpq. unfold receive_part.
  destruct (Z.ltb_spec (ex_received e) (ex_new_len e)) as [Hlt|Hge].
  - destruct (ex_length_received e) eqn:Elr; [|lia].
    assert (Hc : consumed e = (4 + Z.to_nat (ex_received e))%nat) by (unfold consumed; by rewrite Elr).
    destruct (Z.ltb_spec 0 (to_receive e)) as [Hn0|]; [|right; by apply received_none].
    destruct (to_receive_range e Hp Hlt Hn0) as [Hord Hall].
    assert (Htake : ∀ n, 0 ≤ n ≤ Z.of_nat (length q) → n ≤ to_receive e → received_some e p (Some (take_octets e n q))).
    { intros n Hn' Hle. destruct (take_octets_ok e n p q Hp Hq Hlt Hn') as (e' & q' & -> & ? & ? & ? & ? & ?).
      - intros live E Hsl. specialize (Hord live E Hsl). lia.
      - exists e', q'. split_and!; (done || lia). }
    destruct (block && negb (ex_sent e <? ex_len e)) eqn:Ew; [|right; apply Htake; lia].
    apply andb_true_iff in Ew as [_ Ew]. apply negb_true_iff, Z.ltb_ge in Ew. specialize (Hall ltac:(lia)).
    destruct (Z.ltb_spec (Z.of_nat (length q)) (to_receive e)); [left; split_and!; (done || lia)|right; apply Htake; lia].
  - destruct (ex_length_received e) eqn:Elr; cbn [negb]; [right; by apply received_none|].
    assert (Htake : 4 ≤ Z.of_nat (length q) → received_some e p (Some (take_length e q))).
    { intros H4. destruct (take_length_ok e p q Hp Hq Elr H4) as (e' & q' & -> & ? & ? & ? & ? & ? & ?).
      exists e', q'. split_and!; (done || lia). }
    unfold LENGTH_SIZE. destruct (block && negb (ex_sent e <? ex_len e)) eqn:Ew.
    + apply andb_true_iff in Ew as [_ Ew]. apply negb_true_iff, Z.ltb_ge in Ew.
      assert (consumed e = 0%nat) by (unfold consumed; by rewrite Elr).
      destruct (Z.ltb_spec (Z.of_nat (length q)) 4); [left; split_and!; (done || lia)|right; by apply Htake].
    + right. destruct (Z.ltb_spec (Z.of_nat (length q)) 4); cbn [orb]; [by apply received_none|].
      destruct (nr <? 4); [by apply received_none|by apply Htake].
Qed.

(** With its own message sent and all of the other's in the socket, a party goes on. *)
Lemma receive_progress block e q : party e → holds e (4 + length y) q → ex_sent e = ex_len e →
  (consumed e < 4 + length y)%nat →
  ∃ e' q', receive_part block (2 ^ 32) e q = Some (Ok (e', q')) ∧ (consumed e < consumed e')%nat ∧ ex_sent e' = ex_sent e.
Proof.
  intros Hp Hq Hsent Hlt. pose proof Hp as [Hl Hs Hr Hn _ _ _ _]. pose proof (holds_length _ _ _ Hq) as Hlq.
  unfold receive_part. destruct (ex_length_received e) eqn:Elr.
  - assert (Hc : consumed e = (4 + Z.to_nat (ex_received e))%nat) by (unfold consumed; by rewrite Elr).
    assert (Hrn : ex_received e < ex_new_len e) by lia. rewrite (proj2 (Z.ltb_lt _ _) Hrn).
    assert (Ht : to_receive e = ex_new_len e - ex_received e).
    { unfold to_receive. by rewrite (proj2 (Z.eqb_eq _ _) Hsent). }
    rewrite (proj2 (Z.ltb_lt 0 _)) by lia.
    assert (Htake : ∀ n, n = to_receive e → ∃ e' q', Some (take_octets e n q) = Some (Ok (e', q')) ∧
      (consumed e < consumed e')%nat ∧ ex_sent e' = ex_sent e).
    { intros n ->. destruct (take_octets_ok e (to_receive e) (4 + length y) q Hp Hq Hrn) as (e' & q' & -> & _ & _ & ? & _ & ?); [lia|intros; lia|].
      exists e', q'. split_and!; (done || lia). }
    destruct (block && negb (ex_sent e <? ex_len e)); [rewrite (proj2 (Z.ltb_ge (Z.of_nat (length q)) _)) by lia|]; apply Htake; lia.
  - rewrite (proj2 (Z.ltb_ge (ex_received e) _)) by lia. cbn [negb].
    assert (Hc : consumed e = 0%nat) by (unfold consumed; by rewrite Elr).
    destruct (take_length_ok e _ q Hp Hq Elr ltac:(lia)) as (e' & q' & Et & _ & _ & Hs' & _ & _ & Hc').
    unfold LENGTH_SIZE. rewrite (proj2 (Z.ltb_ge (Z.of_nat (length q)) 4)) by lia. change (2 ^ 32 <? 4) with false. cbn [orb].
    exists e', q'. rewrite Et. split; [by destruct (_ && _)|]. split; [lia|done].
Qed.

Lemma unfinished_spec e : party e →
  unfinished e = false ↔ ex_sent e = ex_len e ∧ consumed e = (4 + length y)%nat.
Proof.
  intros [Hl Hs Hr Hn _ _ _ _]. unfold unfinished, consumed. rewrite !orb_false_iff, !Z.ltb_ge, negb_false_iff.
  destruct (ex_length_received e); split; intros; (split_and!; (done || lia)) || lia.
Qed.
End one.

(** ** Two parties *)
Record Inv (x y : list Z) (s : Pair) : Prop := {
  inv_x : Z.of_nat (length x) < 2 ^ 31;
  inv_y : Z.of_nat (length y) < 2 ^ 31;
  inv_a : party x y (pa s);
  inv_b : party y x (pb s);
  inv_ab : holds x (pb s) (produced (pa s)) (ab s);
  inv_ba : holds y (pa s) (produced (pb s)) (ba s);
}.

Lemma inv_swap x y s : Inv x y s → Inv y x (swap s).
Proof. intros []. by split. Qed.

Lemma swap_swap s : swap (swap s) = s.
Proof. by destruct s. Qed.

Lemma holds_app x e p p' z q : holds x e p q → (p ≤ p' ≤ 4 + length x)%nat →
  take p' (framed x) = take p (framed x) ++ z → holds x e p' (q ++ z).
Proof.
  intros [Hp ->] Hp' E. split; [lia|]. rewrite E, drop_app_le; [done|]. rewrite length_take, framed_length. lia.
Qed.

(** What a step of the first party changes. *)
Definition moved (s s' : Pair) : Prop :=
  pb s' = pb s ∧ sb s' = sb s ∧ ex_sent (pa s) ≤ ex_sent (pa s') ∧ (consumed (pa s) ≤ consumed (pa s'))%nat.

Lemma send_a_ok x y s ns : Inv x y s →
  ∃ s', send_a ns s = Ok s' ∧ Inv x y s' ∧ moved s s' ∧ sa s' = false ∧
    ex_sent (pa s') = ex_sent (pa s) + Z.max 0 (Z.min ns (ex_len (pa s) - ex_sent (pa s))) ∧ consumed (pa s') = consumed (pa s).
Proof.
  intros [Hx Hy Ha Hb Hab Hba]. destruct (send_ok x y ns (pa s) Ha) as (e' & z & E & He' & Htake & Hs & Hc & _).
  unfold send_a. rewrite E. cbn [mbind outcome_bind]. eexists. split; [done|]. pose proof (p_sent _ _ _ Ha). pose proof (p_sent _ _ _ He').
  pose proof (p_len _ _ _ Ha). unfold produced in *.
  split; [split; cbn; try done|split; [split_and!; cbn; (done || lia)|by split_and!]].
  - eapply holds_app; [done| |exact Htake]. lia.
  - unfold holds in *. by rewrite Hc.
Qed.

Lemma receive_a_ok x y s block nr : Inv x y s →
  (receive_a block nr s = None ∧ ex_sent (pa s) = ex_len (pa s) ∧ ex_sent (pb s) < Z.of_nat (length y)) ∨
  ∃ s', receive_a block nr s = Some (Ok s') ∧ Inv x y s' ∧ moved s s' ∧ sa s' = true ∧ ex_sent (pa s') = ex_sent (pa s).
Proof.
  intros [Hx Hy Ha Hb Hab Hba]. pose proof (p_sent _ _ _ Hb). unfold receive_a.
  destruct (receive_ok x y Hx Hy block nr (pa s) _ _ Ha Hba) as [(-> & Hs & Hp)|(e' & q' & -> & He' & Hq' & Hs & Hl & Hc)].
  - left. unfold produced in Hp. split_and!; (done || lia).
  - right. cbn [mbind outcome_bind]. eexists. split; [done|].
    split; [split; cbn; try done; unfold produced in *; by rewrite Hs|]. split; [|done]. split_and!; cbn; (done || lia).
Qed.

Lemma step_a_ok x y block s r : Inv x y s → step_a block s r → ∃ s', r = Ok s' ∧ Inv x y s'.
Proof.
  intros Hi Hs. destruct Hs as [ns s _ _|nr s r _ E].
  - destruct (send_a_ok x y s ns Hi) as (s' & -> & Hi' & _). by exists s'.
  - destruct (receive_a_ok x y s block nr Hi) as [(E' & _)|(s' & E' & Hi' & _)]; rewrite E' in E; [discriminate|].
    injection E as <-. by exists s'.
Qed.

Lemma exchange_step_inv x y block s s' : Inv x y s → exchange_step block s s' → Inv x y s'.
Proof.
  intros Hi [Hs|Hs].
  - destruct (step_a_ok x y block s _ Hi Hs) as (? & [= <-] & ?). done.
  - destruct (step_a_ok y x block _ _ (inv_swap _ _ _ Hi) Hs) as (? & [= <-] & Hi').
    apply inv_swap in Hi'. by rewrite swap_swap in Hi'.
Qed.

Lemma exchange_no_error x y block s : Inv x y s → ¬ exchange_error block s.
Proof.
  intros Hi [(m & [Hs|Hs])|[Hs|Hs]]; first [by destruct (step_a_ok x y block s _ Hi Hs) as (? & ? & _)
    |by destruct (step_a_ok y x block _ _ (inv_swap _ _ _ Hi) Hs) as (? & ? & _)].
Qed.

Lemma exchange_steps_inv x y block s s' : Inv x y s → rtc (exchange_step block) s s' → Inv x y s'.
Proof. intros Hi Hs. induction Hs as [|s1 s2 s3 H1 _ IH]; [done|]. apply IH. by eapply exchange_step_inv. Qed.

Lemma steps_swap block s s' : rtc (exchange_step block) (swap s) s' → rtc (exchange_step block) s (swap s').
Proof.
  intros Hs. rewrite <-(swap_swap s). induction Hs as [s1|s1 s2 s3 H1 _ IH]; [done|].
  eapply rtc_l; [|exact IH]. destruct H1 as [H1|H1]; [right|left]; by rewrite ?swap_swap in *.
Qed.

(** ** Completion

    The octets that are still to be sent and to be received. *)
Definition left_of (x y : list Z) (e : Exchanger) : nat :=
  (length x - Z.to_nat (ex_sent e)) + (4 + length y - consumed e).
Definition remaining (x y : list Z) (s : Pair) : nat := left_of x y (pa s) + left_of y x (pb s).

Lemma left_sent x y e e' : ex_sent e < ex_sent e' → 0 ≤ ex_sent e' ≤ Z.of_nat (length x) → 0 ≤ ex_sent e ≤ Z.of_nat (length x) →
  consumed e' = consumed e → (left_of x y e' < left_of x y e)%nat.
Proof. intros Hlt He' He Hc. unfold left_of. rewrite Hc. lia. Qed.

Lemma left_received x y e e' p : ex_sent e' = ex_sent e → (consumed e < consumed e')%nat →
  (consumed e' ≤ p ≤ 4 + length y)%nat → (left_of x y e' < left_of x y e)%nat.
Proof. intros Hs Hc Hp. unfold left_of. rewrite Hs. lia. Qed.

Lemma remaining_swap x y s : remaining y x (swap s) = remaining x y s.
Proof. unfold remaining. cbn. lia. Qed.

Lemma moved_remaining x y s s' : Inv x y s → moved s s' → (remaining x y s' ≤ remaining x y s)%nat.
Proof. intros Hi (Hb & _ & Hs & Hc). unfold remaining, left_of. rewrite Hb. lia. Qed.

(** [s'] is reached with less to do, or with no more. *)
Definition advances (x y : list Z) (block : bool) (s s' : Pair) : Prop :=
  rtc (exchange_step block) s s' ∧ Inv x y s' ∧ (remaining x y s' < remaining x y s)%nat.

Lemma step_receive_a x y block nr s s' : Inv x y s → sa s = false → receive_a block nr s = Some (Ok s') →
  rtc (exchange_step block) s s'.
Proof. intros Hi Hs E. apply rtc_once. left. by eapply step_receive. Qed.

Lemma step_send_a block ns s s' : sa s = true → unfinished (pa s) = true → send_a ns s = Ok s' →
  rtc (exchange_step block) s s'.
Proof. intros Hs Hu E. apply rtc_once. left. rewrite <-E. by apply step_send. Qed.

(** A party that does not wait ends its round. *)
Lemma end_round x y block s : Inv x y s → ex_sent (pa s) < ex_len (pa s) ∨ ex_sent (pb s) = ex_len (pb s) →
  ∃ s', rtc (exchange_step block) s s' ∧ Inv x y s' ∧ moved s s' ∧ sa s' = true ∧ ex_sent (pa s') = ex_sent (pa s).
Proof.
  intros Hi Hns. destruct (sa s) eqn:Es.
  - exists s. split; [done|]. split; [done|]. split; [|done]. unfold moved. split_and!; (done || lia).
  - destruct (receive_a_ok x y s block 0 Hi) as [(_ & Hs & Hb)|(s' & E & Hi' & Hm & Hsa & Hsent)].
    + pose proof (p_len _ _ _ (inv_b _ _ _ Hi)). lia.
    + exists s'. split; [by eapply step_receive_a|]. by split_and!.
Qed.

Lemma progress_send x y block s : Inv x y s → ex_sent (pa s) < ex_len (pa s) → ∃ s', advances x y block s s'.
Proof.
  intros Hi Hlt. destruct (end_round x y block s Hi (or_introl Hlt)) as (s1 & Hr & Hi1 & Hm1 & Hs1 & Hsent).
  pose proof (inv_a _ _ _ Hi) as Ha. pose proof (inv_a _ _ _ Hi1) as Ha1.
  pose proof (p_len _ _ _ Ha). pose proof (p_len _ _ _ Ha1). pose proof (p_sent _ _ _ Ha).
  destruct (send_a_ok x y s1 (ex_len (pa s1)) Hi1) as (s2 & E & Hi2 & Hm2 & _ & Hsent2 & Hc).
  exists s2. split; [|split; [done|]].
  - etransitivity; [exact Hr|]. eapply step_send_a; [done| |exact E].
    unfold unfinished. rewrite (proj2 (Z.ltb_lt _ (ex_len (pa s1)))) by lia. by rewrite orb_true_r.
  - pose proof (moved_remaining _ _ _ _ Hi Hm1) as Hle. destruct Hm2 as (Hb2 & _ & _ & _).
    assert (Hlt2 : ex_sent (pa s1) < ex_sent (pa s2)) by lia.
    pose proof (left_sent x y (pa s1) (pa s2) Hlt2 (p_sent _ _ _ (inv_a _ _ _ Hi2)) (p_sent _ _ _ Ha1) Hc) as Hless.
    unfold remaining in *. rewrite Hb2. clear -Hless Hle. lia.
Qed.

Lemma progress_receive x y block s : Inv x y s → ex_sent (pa s) = ex_len (pa s) → ex_sent (pb s) = ex_len (pb s) →
  (consumed (pa s) < 4 + length y)%nat → ∃ s', advances x y block s s'.
Proof.
  intros Hi Hsa Hsb Hc.
  assert (Hphase : ∃ s1, rtc (exchange_step block) s s1 ∧ Inv x y s1 ∧ moved s s1 ∧ sa s1 = false ∧
    ex_sent (pa s1) = ex_len (pa s1) ∧ consumed (pa s1) = consumed (pa s)).
  { destruct (sa s) eqn:Es.
    - destruct (send_a_ok x y s 0 Hi) as (s1 & E & Hi1 & Hm & Hs1 & Hsent & Hc1). exists s1.
      pose proof (p_len _ _ _ (inv_a _ _ _ Hi)). pose proof (p_len _ _ _ (inv_a _ _ _ Hi1)).
      split; [|split_and!; (done || lia)]. eapply step_send_a; [done| |exact E].
      destruct (unfinished (pa s)) eqn:Eu; [done|].
      apply (unfinished_spec x y) in Eu; [|apply Hi]. lia.
    - exists s. split; [done|]. split; [done|]. split; [|by split_and!]. unfold moved. split_and!; (done || lia). }
  destruct Hphase as (s1 & Hr & Hi1 & Hm & Hs1 & Hsent1 & Hc1). pose proof Hm as (Hb & _ & _ & _).
  pose proof (inv_ba _ _ _ Hi1) as Hba. pose proof (p_len _ _ _ (inv_b _ _ _ Hi)) as Hlb.
  assert (Hp : produced (pb s1) = (4 + length y)%nat) by (unfold produced; rewrite Hb; lia). rewrite Hp in Hba.
  destruct (receive_progress x y (inv_x _ _ _ Hi) (inv_y _ _ _ Hi) block (pa s1) _ (inv_a _ _ _ Hi1) Hba Hsent1)
    as (e' & q' & E & Hlt & _); [lia|].
  destruct (receive_a_ok x y s1 block (2 ^ 32) Hi1) as [(E' & _)|(s2 & E' & Hi2 & Hm2 & _ & Hsent2)];
    unfold receive_a in E'; rewrite E in E'; [discriminate|]. cbn [mbind outcome_bind] in E'.
  exists s2. split; [|split; [done|]].
  - etransitivity; [exact Hr|]. eapply (step_receive_a x y block (2 ^ 32)); [done..|]. unfold receive_a. by rewrite E.
  - pose proof (moved_remaining _ _ _ _ Hi Hm) as Hle. destruct Hm2 as (Hb2 & _). injection E' as <-. cbn in *.
    pose proof (left_received x y (pa s1) e' _ Hsent2 Hlt (proj1 (inv_ba _ _ _ Hi2))) as Hless.
    unfold remaining in *. cbn in *. clear -Hless Hle. lia.
Qed.

Lemma advances_swap x y block s s' : advances y x block (swap s) s' → advances x y block s (swap s').
Proof.
  intros (Hr & Hi & Hm). split; [by apply steps_swap|]. split; [by apply inv_swap|].
  rewrite <-(remaining_swap x y (swap s')), <-(remaining_swap x y s), swap_swap. done.
Qed.

Lemma progress x y block s : Inv x y s → remaining x y s ≠ 0%nat → ∃ s', advances x y block s s'.
Proof.
  intros Hi Hn. pose proof (inv_swap _ _ _ Hi) as Hi'.
  pose proof (inv_a _ _ _ Hi) as Ha. pose proof (inv_b _ _ _ Hi) as Hb.
  pose proof (p_len _ _ _ Ha). pose proof (p_len _ _ _ Hb). pose proof (p_sent _ _ _ Ha). pose proof (p_sent _ _ _ Hb).
  destruct (Z.lt_ge_cases (ex_sent (pa s)) (ex_len (pa s))); [by apply progress_send|].
  destruct (Z.lt_ge_cases (ex_sent (pb s)) (ex_len (pb s))).
  { destruct (progress_send y x block (swap s) Hi') as (s' & Hs'); [done|]. exists (swap s'). by apply advances_swap. }
  destruct (decide (consumed (pa s) < 4 + length y)%nat); [apply progress_receive; (done || lia)|].
  destruct (decide (consumed (pb s) < 4 + length x)%nat).
  { destruct (progress_receive y x block (swap s) Hi') as (s' & Hs'); [cbn; lia..|]. exists (swap s'). by apply advances_swap. }
  unfold remaining, left_of in Hn. lia.
Qed.

Lemma nothing_left x y s : Inv x y s → remaining x y s = 0%nat →
  (ex_sent (pa s) = ex_len (pa s) ∧ consumed (pa s) = (4 + length y)%nat) ∧
  (ex_sent (pb s) = ex_len (pb s) ∧ consumed (pb s) = (4 + length x)%nat).
Proof.
  intros [_ _ Ha Hb [Hab _] [Hba _]] E. pose proof (p_len _ _ _ Ha). pose proof (p_len _ _ _ Hb).
  pose proof (p_sent _ _ _ Ha). pose proof (p_sent _ _ _ Hb). clear Ha Hb. unfold remaining, left_of, produced in *.
  split; split; lia.
Qed.

(** A party that has nothing left stays done. *)
Lemma unfinished_moved x y s s' : Inv x y s → Inv x y s' → ex_sent (pa s) = ex_len (pa s) →
  consumed (pa s) = (4 + length y)%nat → ex_sent (pa s') = ex_sent (pa s) → (consumed (pa s) ≤ consumed (pa s'))%nat →
  unfinished (pa s') = false.
Proof.
  intros Hi Hi' Hs Hc Hs' Hc'. apply (unfinished_spec x y); [apply Hi'|].
  pose proof (p_len _ _ _ (inv_a _ _ _ Hi)). pose proof (p_len _ _ _ (inv_a _ _ _ Hi')).
  pose proof (proj1 (inv_ba _ _ _ Hi')). clear Hi Hi'. split; lia.
Qed.

Lemma completes x y block s : Inv x y s → ∃ s', rtc (exchange_step block) s s' ∧ finished s'.
Proof.
  remember (remaining x y s) as n eqn:Hn. revert s Hn. induction (lt_wf n) as [n _ IH]. intros s -> Hi.
  destruct (decide (remaining x y s = 0%nat)) as [E|E].
  - destruct (nothing_left x y s Hi E) as [[Sa Ca] [Sb Cb]].
    destruct (end_round x y block s Hi (or_intror Sb)) as (s1 & Hr1 & Hi1 & (Hb1 & _ & _ & Hc1) & Hs1 & Hsent1).
    pose proof (unfinished_moved x y s s1 Hi Hi1 Sa Ca Hsent1 Hc1) as Hu1.
    destruct (end_round y x block (swap s1) (inv_swap _ _ _ Hi1)) as (s2 & Hr2 & Hi2 & (Hb2 & Hsb2 & _ & Hc2) & Hs2 & Hsent2).
    { right. by apply (unfinished_spec x y) in Hu1 as [? _]; [|apply Hi1]. }
    exists (swap s2). split; [etransitivity; [exact Hr1|by apply steps_swap]|].
    cbn in Hsb2, Hb2, Hc2, Hsent2. rewrite Hb1 in *.
    split_and!; cbn; [congruence|congruence|done|].
    apply (unfinished_moved y x (swap s) s2); (done || by apply inv_swap).
  - destruct (progress x y block s Hi E) as (s1 & Hr & Hi1 & Hm).
    destruct (IH _ Hm s1 eq_refl Hi1) as (s' & Hr' & Hf). exists s'. split; [by etransitivity|done].
Qed.

(** ** The exchange

    A party that sends [x] and will receive [y]: from another stream, or from the stream
    that it receives into, whose allocation is larger than both messages. *)
Definition sends_from (send : option octetStream) (recv : octetStream) (x y : list Z) : Prop :=
  os_wf recv ∧
  match send with
  | Some s => os_wf s ∧ bb_n (os_out s) = 0 ∧ content s = x
  | None => bb_n (os_out recv) = 0 ∧ content recv = x ∧
      Z.of_nat (length x) < mxlen recv ∧ Z.of_nat (length y) < mxlen recv
  end.

Lemma content_lookup os i : os_wf os → (i < length (content os))%nat → os_data os !! i = content os !! i.
Proof. intros Hw Hi. unfold content in *. rewrite length_take in Hi. by rewrite lookup_take_lt by lia. Qed.

Lemma exchanger_new_ok send recv x y : sends_from send recv x y → Z.of_nat (length x) < 2 ^ 31 →
  ∃ e, exchanger_new send recv = Ok (e, le_bytes 4 (Z.of_nat (length x))) ∧ party x y e ∧
       ex_sent e = 0 ∧ consumed e = 0%nat.
Proof.
  intros [Hw Hs] Hx. unfold exchanger_new, get_data.
  set (s := default recv send). assert (Hsw : os_wf s ∧ bb_n (os_out s) = 0 ∧ content s = x)
    by (unfold s; destruct send; cbn; by destruct_and?).
  destruct Hsw as (Hsw & Hb & Hc). pose proof (content_length s Hsw) as Hl. rewrite Hc in Hl.
  rewrite Hb. cbn [Z.eqb mbind outcome_bind]. rewrite <-Hl. unfold LENGTH_SIZE. change 4 with (Z.of_nat 4) at 1.
  rewrite encode_length_Ok by (lia || (unfold is_word; cbn; lia)). cbn [mbind outcome_bind].
  eexists. split; [done|]. split; [|done]. pose proof Hw as [[? ?] Hlm Hm _ _ _].
  split; cbn; try done; try lia. unfold source_ok. cbn. destruct send as [s'|].
  - exists (drop (length x) (os_data s')). rewrite <-Hc. cbn in *. unfold content.
    rewrite length_take. destruct Hsw as [_ Hsm _ _ _ _]. unfold mxlen in *. rewrite Nat.min_l by lia. by rewrite take_drop.
  - destruct Hs as (_ & Hc' & Hcx & Hcy). split_and!; try done. intros j Hj. unfold array; cbn. rewrite <-Hc'.
    apply content_lookup; [done|]. rewrite Hc'. lia.
Qed.

Lemma exchange_new_inv sa ra sb rb x y : sends_from sa ra x y → sends_from sb rb y x →
  Z.of_nat (length x) < 2 ^ 31 → Z.of_nat (length y) < 2 ^ 31 →
  ∃ s, exchange_new sa ra sb rb = Ok s ∧ Inv x y s.
Proof.
  intros Ha Hb Hx Hy.
  destruct (exchanger_new_ok sa ra x y Ha Hx) as (a & Ea & Pa & Sa & Ca).
  destruct (exchanger_new_ok sb rb y x Hb Hy) as (b & Eb & Pb & Sb & Cb).
  unfold exchange_new. rewrite Ea. cbn [mbind outcome_bind]. rewrite Eb. cbn [mbind outcome_bind].
  eexists. split; [done|]. split; cbn; try done; (split; [unfold produced; rewrite ?Ca, ?Cb, ?Sa, ?Sb; cbn; lia|]).
  - unfold produced. rewrite Cb, Sa, drop_0. unfold framed. done.
  - unfold produced. rewrite Ca, Sb, drop_0. unfold framed. done.
Qed.

Lemma party_result x y e : party x y e → consumed e = (4 + length y)%nat → content (exchanger_end e) = y.
Proof.
  intros [Hl Hs Hr Hn Ho Hm Hg _] Hc. unfold consumed in Hc. destruct (ex_length_received e); [|lia].
  unfold content, exchanger_end. cbn. rewrite Hn, Nat2Z.id.
  transitivity (take (length y) y); [|by rewrite take_ge]. apply take_eq_lookup. intros i Hi. apply Hg. lia.
Qed.

(** C11. Two parties that exchange messages swap them. However little of each call the
    sockets accept or deliver and in whatever order the parties run, with blocking
    sockets or without, no step fails and the end stays reachable; at the end each party
    has the message of the other, also in the buffer that it was sending from if the
    allocation of that buffer has room, and nothing is left on the sockets. *)
Theorem exchange_swaps block sa ra sb rb x y : sends_from sa ra x y → sends_from sb rb y x →
  Z.of_nat (length x) < 2 ^ 31 → Z.of_nat (length y) < 2 ^ 31 →
  ∃ s0, exchange_new sa ra sb rb = Ok s0 ∧ ∀ s, rtc (exchange_step block) s0 s →
    ¬ exchange_error block s ∧
    (∃ s', rtc (exchange_step block) s s' ∧ finished s') ∧
    (finished s → content (exchanger_end (pa s)) = y ∧ content (exchanger_end (pb s)) = x ∧ ab s = [] ∧ ba s = []).
Proof.
  intros Ha Hb Hx Hy. destruct (exchange_new_inv sa ra sb rb x y Ha Hb Hx Hy) as (s0 & E & Hi0). exists s0. split; [done|].
  intros s Hr. pose proof (exchange_steps_inv x y block s0 s Hi0 Hr) as Hi.
  split; [by eapply exchange_no_error|]. split; [by eapply completes|]. intros (_ & Fa & _ & Fb).
  apply (unfinished_spec x y) in Fa as [Sa Ca]; [|apply Hi]. apply (unfinished_spec y x) in Fb as [Sb Cb]; [|apply Hi].
  split; [eapply party_result; [apply Hi|done]|]. split; [eapply party_result; [apply Hi|done]|].
  split; apply length_zero_iff_nil.
  - rewrite (holds_length y x _ _ _ (inv_ab _ _ _ Hi)). pose proof (p_len _ _ _ (inv_a _ _ _ Hi)). unfold produced. lia.
  - rewrite (holds_length x y _ _ _ (inv_ba _ _ _ Hi)). pose proof (p_len _ _ _ (inv_b _ _ _ Hi)). unfold produced. lia.
Qed.

(** ** In place *)

(** A party that sends from the buffer that it receives into, at the start, and after the
    length of the other's message has arrived. *)
Definition in_place (ra : octetStream) : Exchanger := mkEx (Same true) (os_len ra) 0 0 false 0 ra.
Definition replaced (ra : octetStream) (n : Z) (d : list Z) : Exchanger :=
  mkEx (Same false) (os_len ra) 0 0 true n (set_data ra d).

Lemma in_place_new ra (x : list Z) : bb_n (os_out ra) = 0 → os_len ra = Z.of_nat (length x) → Z.of_nat (length x) < 2 ^ 31 →
  exchanger_new None ra = Ok (in_place ra, le_bytes 4 (Z.of_nat (length x))).
Proof.
  intros Hb Hl Hx. unfold exchanger_new, get_data, LENGTH_SIZE. cbn [default from_option id]. rewrite Hb, Hl.
  cbn [Z.eqb mbind outcome_bind]. change 4 with (Z.of_nat 4) at 1.
  rewrite encode_length_Ok by (lia || (unfold is_word; cbn; lia)). cbn [mbind outcome_bind]. unfold in_place. by rewrite Hl.
Qed.

Lemma in_place_send_nothing ra : 0 < os_len ra → send_part 0 (in_place ra) = Ok (in_place ra, []).
Proof.
  intros Hpos. unfold send_part. cbn [in_place ex_sent ex_len]. rewrite (proj2 (Z.ltb_lt 0 _)) by lia.
  rewrite Z.min_l, Z.max_id by lia. unfold source_read. cbn [in_place ex_data receive_stream].
  rewrite mem_read_Ok by lia. done.
Qed.

Lemma in_place_receive_length block ra n : os_wf ra → 0 < os_len ra < 2 ^ 31 → 0 ≤ n < 2 ^ 31 → mxlen ra ≤ Z.max n (os_len ra) →
  ∃ d, receive_part block 4 (in_place ra) (le_bytes 4 n) = Some (Ok (replaced ra n d, [])).
Proof.
  intros Hw Hpos Hn Hm. pose proof Hw as [[? ?] ? ? _ _ _].
  destruct (os_resize_room ra (Z.max n (os_len ra))) as (d & Ed & _); [lia..|]. exists d.
  unfold receive_part. cbn [in_place ex_sent ex_len ex_received ex_new_len ex_length_received negb].
  rewrite (proj2 (Z.ltb_lt 0 (os_len ra))) by lia. rewrite andb_false_r. unfold LENGTH_SIZE. rewrite le_bytes_length.
  change ((0 <? 0)) with false. change ((Z.of_nat 4 <? 4) || (4 <? 4)) with false. cbn iota.
  unfold take_length, receive, LENGTH_SIZE. rewrite le_bytes_length. change (Z.of_nat 4 <? 4) with false. cbn iota.
  rewrite take_ge, drop_ge by (rewrite le_bytes_length; lia). cbn [mbind outcome_bind]. change 4 with (Z.of_nat 4).
  rewrite decode_length_Ok by (lia || apply le_bytes_length). cbn [mbind outcome_bind].
  rewrite le_val_bytes by (unfold is_word; cbn; lia). cbn [in_place ex_data ex_len ex_sent ex_received receive_stream].
  rewrite Ed. cbn [mbind outcome_bind]. unfold reallocates. rewrite (proj2 (Z.ltb_ge _ (mxlen ra))) by lia.
  rewrite u64_id by (cbn; lia). rewrite (proj2 (Z.eqb_neq _ _)) by lia. done.
Qed.

(** C40. Without that room the exchange in place reads freed memory. The party that sends
    from the buffer it receives into keeps a pointer to the octets it sends; if the
    length of the other's message arrives before its own message is out, and one of the
    two messages fills the allocation, [resize] frees the array and allocates another:
    there is a run to a state in which the pointer is to the freed array and octets are
    left to send, and however many octets the socket takes, the send of the party's next
    round is a step with undefined behaviour, not an exception. *)
Theorem exchange_in_place_dangling block ra sb rb x y : os_wf ra → bb_n (os_out ra) = 0 → content ra = x → x ≠ [] →
  mxlen ra ≤ Z.max (Z.of_nat (length x)) (Z.of_nat (length y)) → sends_from sb rb y x →
  Z.of_nat (length x) < 2 ^ 31 → Z.of_nat (length y) < 2 ^ 31 →
  ∃ s0 s, exchange_new None ra sb rb = Ok s0 ∧ rtc (exchange_step block) s0 s ∧
    ex_data (pa s) = Same false ∧ ex_sent (pa s) < ex_len (pa s) ∧
    ∀ ns, step_a block s (send_a ns s) ∧ send_a ns s = UB.
Proof.
  intros Hw Hb Hc Hne Hm Hsb Hx Hy. pose proof (content_length ra Hw) as Hl. rewrite Hc in Hl.
  assert (Hpos : 0 < os_len ra) by (destruct x; [done|cbn in Hl; lia]).
  destruct (exchanger_new_ok sb rb y x Hsb Hy) as (b & Eb & _).
  destruct (in_place_receive_length block ra (Z.of_nat (length y)) Hw) as (d & Hrecv); [lia..|].
  set (ha := le_bytes 4 (Z.of_nat (length x))). set (hb := le_bytes 4 (Z.of_nat (length y))) in *.
  set (e0 := in_place ra) in *. set (e1 := replaced ra (Z.of_nat (length y)) d) in *.
  exists (mkPair e0 true b true ha hb), (mkPair e1 true b true ha []). split; [|split; [|split; [done|split; [cbn; lia|]]]].
  - unfold exchange_new. rewrite (in_place_new ra x) by done. cbn [mbind outcome_bind]. by rewrite Eb.
  - eapply rtc_l; [left|apply rtc_once; left].
    + assert (E : Ok (mkPair e0 false b true (ha ++ []) hb) = send_a 0 (mkPair e0 true b true ha hb))
        by (unfold send_a; cbn [pa]; unfold e0; by rewrite in_place_send_nothing).
      rewrite E. apply step_send; [done|]. unfold unfinished. apply orb_true_r.
    + apply (step_receive _ 4); [done|]. unfold receive_a. cbn [pa ba]. rewrite Hrecv. cbn [mbind outcome_bind]. by rewrite app_nil_r.
  - intros ns. split.
    + apply step_send; [done|]. unfold unfinished. cbn [pa e1 replaced ex_sent ex_len].
      rewrite (proj2 (Z.ltb_lt 0 (os_len ra))) by lia. by rewrite orb_true_r.
    + unfold send_a, send_part. cbn [pa e1 replaced ex_sent ex_len]. by rewrite (proj2 (Z.ltb_lt 0 _)) by lia.
Qed.
End party.

(** ** Instances *)
Definition buffer (data : list Z) (len : Z) : octetStream := mkOs len 0 data bits0 bits0.

(** [pass_around] in place: with more octets sent than the other's message has, a party
    takes octets of the message after it. *)
Lemma pass_around_overreads : ∃ e0 e1 e2 out,
  exchanger_new None (buffer [1; 2; 3; 4; 5; 6; 0; 0] 6) = Ok (e0, out) ∧
  round false 4 100 e0 (framed [9] ++ framed [8]) = Some (Ok (true, e1, [1; 2; 3; 4], [9] ++ framed [8])) ∧
  round false 0 100 e1 ([9] ++ framed [8]) = Some (Ok (true, e2, [], drop 3 (framed [8]))).
Proof. do 4 eexists. split; [reflexivity|]. split; reflexivity. Qed.

Lemma buffer_wf data len : 0 ≤ len ≤ Z.of_nat (length data) → Z.of_nat (length data) < 2 ^ 63 → Forall is_u8 data →
  os_wf (buffer data len).
Proof. intros. split; try done; unfold mxlen; cbn; try lia; by split. Qed.

Lemma exchange_swaps_witness : ∃ s0 s,
  exchange_new None (buffer [1; 2; 0; 0] 2) None (buffer [3; 0; 0; 0; 0] 1) = Ok s0 ∧
  rtc (exchange_step true) s0 s ∧ finished s ∧ content (exchanger_end (pa s)) = [3] ∧ content (exchanger_end (pb s)) = [1; 2].
Proof.
  assert (Ha : sends_from None (buffer [1; 2; 0; 0] 2) [1; 2] [3])
    by (split; [apply buffer_wf; [cbn; lia|done|by repeat constructor]|done]).
  assert (Hb : sends_from None (buffer [3; 0; 0; 0; 0] 1) [3] [1; 2])
    by (split; [apply buffer_wf; [cbn; lia|done|by repeat constructor]|done]).
  destruct (exchange_swaps true None _ None _ _ _ Ha Hb ltac:(cbn; lia) ltac:(cbn; lia)) as (s0 & E & Hs).
  destruct (Hs s0 (rtc_refl _ _)) as (_ & (s & Hr & Hf) & _). destruct (Hs s Hr) as (_ & _ & Hc).
  destruct (Hc Hf) as (Ca & Cb & _). exists s0, s. split; [exact E|]. split; [exact Hr|]. split; [exact Hf|]. split; [exact Ca|exact Cb].
Defined.

Lemma exchange_in_place_dangling_witness : ∃ s0 s,
  exchange_new None (buffer [1; 2] 2) (Some (buffer [3] 1)) (buffer [] 0) = Ok s0 ∧
  rtc (exchange_step true) s0 s ∧ ex_data (pa s) = Same false ∧ ex_sent (pa s) < ex_len (pa s) ∧
  ∀ ns, step_a true s (send_a ns s) ∧ send_a ns s = UB.
Proof.
  assert (Hb : sends_from (Some (buffer [3] 1)) (buffer [] 0) [3] [1; 2]).
  { split; [apply buffer_wf; [cbn; lia|done|done]|]. split; [apply buffer_wf; [cbn; lia|done|by repeat constructor]|done]. }
  apply (exchange_in_place_dangling true (buffer [1; 2] 2) (Some (buffer [3] 1)) (buffer [] 0) [1; 2] [3]);
    [apply buffer_wf; [cbn; lia|done|by repeat constructor]|done|done|done|done|exact Hb|done|done].
Defined.
