(* ===== verification/Commit.v ===== *)
(** * Commitments and common randomness

    [Tools/Commit.*], [Create_Random_Seed] of [Tools/Subroutines.cpp] and
    [PRNG::SeedGlobally], the hashes of [octetStream] and [Tools/Hash.*], and broadcast
    between the parties ([Networking/Player.*]).  The parties are behind the interface
    [PlayerBase], which [TwoPartyPlayer] and the players of several parties implement.
    [crypto_generichash] and [randombytes_buf] are parameters. *)

From S2P Require Import Prelude Memory OctetStream OctetProps Xor Block Aes YaoKey Random BitVector Square128 Gf2n OtMatrix OtExtension.

(** ** Hashes

    [crypto_generichash]: the length that it is started with, the data, and the length
    of the output. *)
Class GenericHash := generic_hash : Z → list Z → Z → list Z.
Class GenericHashLaws `{GenericHash} := {
  generic_hash_length k l n : 16 ≤ n ≤ 64 → length (generic_hash k l n) = Z.to_nat n;
  generic_hash_u8 k l n : Forall is_u8 (generic_hash k l n);
}.

Definition crypto_generichash_BYTES : Z := 32.
Definition crypto_generichash_BYTES_MIN : Z := 16.

Section commit.
Context `{Heap} `{GenericHash}.

Definition os_hash (os : octetStream) : outcome octetStream :=
  d ← new_array crypto_generichash_BYTES_MIN;
  data ← mem_read (os_data os) 0 (os_len os);
  d ← mem_write d 0 (generic_hash crypto_generichash_BYTES_MIN data crypto_generichash_BYTES_MIN);
  Ok (mkOs crypto_generichash_BYTES_MIN 0 d bits0 bits0).

(** [Hash]: the data of the updates; [size] is an [unsigned]. *)
Record Hash := mkHash { hash_data : list Z; hash_size : Z }.
Definition hash_reset : Hash := mkHash [] 0.
Definition hash_update (h : Hash) (x : list Z) : Hash :=
  mkHash (hash_data h ++ x) (u32 (hash_size h + Z.of_nat (length x))).
Definition hash_update_stream (h : Hash) (os : octetStream) : outcome Hash :=
  d ← get_data os; x ← mem_read d 0 (os_len os); Ok (hash_update h x).
Definition hash_final (h : Hash) (os : octetStream) : outcome octetStream :=
  os ← resize_precise os crypto_generichash_BYTES;
  os_append (reset_write_head os) (generic_hash crypto_generichash_BYTES (hash_data h) crypto_generichash_BYTES).

(** ** Commitments in one stream *)
Definition BYTES_TO_INT (b : list Z) : outcome Z :=
  match b with
  | [b0; b1; b2; b3] => if 128 <=? b3 then UB else Ok (b0 + 256 * b1 + 65536 * b2 + 16777216 * b3)
  | _ => UB
  end.

(** [append_random]; [rnd] is what [randombytes_buf] gives. *)
Definition append_random (rnd : list Z) (os : octetStream) : outcome octetStream := os_append os rnd.

(** [append] of the octets of another stream. *)
Definition append_from (os : octetStream) (src : list Z) (off l : Z) : outcome octetStream :=
  '(os, res) ← append_ptr os l; x ← mem_read src off l; poke os res x.

(** [comm] and [open] *)
Definition Commit (rnd : list Z) (open message : octetStream) (send_player : Z) : outcome (octetStream * octetStream) :=
  open ← store_s32 open send_player;
  d ← get_data message;
  open ← append_from open d 0 (os_len message);
  open ← append_random rnd open;
  comm ← os_hash open;
  Ok (comm, open).

Definition Open (message comm open : octetStream) (send_player : Z) : outcome (bool * octetStream) :=
  h ← os_hash open;
  d ← get_data open;
  b ← mem_read d 0 4;
  open_player ← BYTES_TO_INT b;
  eq ← equals h comm;
  if negb (eq && (open_player =? send_player)) then Ok (false, message)
  else
    message ← append_from (reset_write_head message) d 4 (u64 (os_len open - SEED_SIZE - 4));
    Ok (true, message).

(** ** [Commitment] *)
Record Commitment := mkCommitment { send_player : Z; c_comm : octetStream; c_open : octetStream }.
Definition commitment_new (send_player : Z) : Commitment := mkCommitment send_player os_new os_new.

Definition commit_with (c : Commitment) (message open : octetStream) : outcome Commitment :=
  let h := hash_update hash_reset (le_bytes 4 (send_player c)) in
  h ← hash_update_stream h message;
  h ← hash_update_stream h open;
  comm ← hash_final h (c_comm c);
  Ok (mkCommitment (send_player c) comm (c_open c)).

Definition commit (rnd : list Z) (c : Commitment) (message : octetStream) : outcome Commitment :=
  open ← append_random rnd (reset_write_head (c_open c));
  commit_with (mkCommitment (send_player c) (c_comm c) open) message open.

Definition commitment_check (c : Commitment) (message comm open : octetStream) : outcome Commitment :=
  c ← commit_with c message open;
  eq ← equals comm (c_comm c);
  if eq : bool then Ok c else Throw "invalid_commitment".

(** ** Parties *)
Class PlayerBase (T : Type) := {
  my_num : T → Z;
  num_players : T → Z;
  Broadcast_Receive : T → list octetStream → outcome (list octetStream * T);
}.

Definition vupdate {A} (v : list A) (i : Z) (f : A → outcome A) : outcome (list A) :=
  x ← vget v i; x ← f x; vset v i x.

(** [octetStream::exchange] as one step; [round] of [Exchange] is how it runs. *)
Definition receive_exchange (q : list Z) (own_len : Z) (r : octetStream) : outcome (octetStream * list Z) :=
  '(blen, q) ← receive q LENGTH_SIZE;
  new_len ← decode_length blen LENGTH_SIZE;
  r ← os_resize r (Z.max new_len own_len);
  '(x, q) ← receive q new_len;
  r ← poke r 0 x;
  Ok (reset_read_head (set_len r new_len), q).

Definition link_exchange (P : Link) (s r : octetStream) : outcome (octetStream * Link) :=
  x ← os_Send s;
  '(r, q) ← receive_exchange (l_in P) (os_len s) r;
  Ok (r, mkLink (l_out P ++ x) q).

(** [operator=] *)
Definition os_copy (os : octetStream) : outcome octetStream := assign os_new os.

Record TwoPartyPlayer := mkTwo { two_num : Z; two_link : Link }.

#[export] Instance two_party_player : PlayerBase TwoPartyPlayer := {
  my_num := two_num;
  num_players _ := 2;
  Broadcast_Receive P o :=
    mine ← vget o (two_num P);
    os0 ← os_copy mine;
    '(os1, l) ← link_exchange (two_link P) os0 os_new;
    o ← vupdate o (1 - two_num P) (λ x, assign x os1);
    Ok (o, mkTwo (two_num P) l);
}.

(** A player of several parties: a link to each of them, and the hash of all that has
    been broadcast. *)
Record MultiPlayer := mkMulti { multi_num : Z; multi_links : list Link; multi_ctx : Hash }.

Definition multi_players (P : MultiPlayer) : Z := Z.of_nat (length (multi_links P)).

(** What all exchanges send, and what they receive. *)
Definition broadcast_send (my n : Z) (x : list Z) (links : list Link) (i : Z) : outcome (list Link) :=
  vupdate links ((my + i) mod n) (λ l, Ok (mkLink (l_out l ++ x) (l_in l))).

Definition broadcast_receive (my n len : Z) (st : list octetStream * list Link) (i : Z)
    : outcome (list octetStream * list Link) :=
  let '(o, links) := st in
  let j := (my + n - i) mod n in
  l ← vget links j;
  r ← vget o j;
  '(r, q) ← receive_exchange (l_in l) len r;
  o ← vset o j r;
  links ← vset links j (mkLink (l_out l) q);
  Ok (o, links).

Definition unchecked_broadcast (P : MultiPlayer) (o : list octetStream) : outcome (list octetStream * MultiPlayer) :=
  let n := multi_players P in
  if negb (Z.of_nat (length o) =? n) then Throw "player numbers don't match"
  else
    mine ← vget o (multi_num P);
    x ← os_Send mine;
    links ← foldM (broadcast_send (multi_num P) n x) (multi_links P) (seqZ 1 (n - 1));
    '(o, links) ← foldM (broadcast_receive (multi_num P) n (os_len mine)) (o, links) (seqZ 1 (n - 1));
    Ok (o, mkMulti (multi_num P) links (multi_ctx P)).

#[export] Instance multi_player : PlayerBase MultiPlayer := {
  my_num := multi_num;
  num_players := multi_players;
  Broadcast_Receive P o :=
    '(o, P) ← unchecked_broadcast P o;
    ctx ← foldM (λ ctx i, x ← vget o i; hash_update_stream ctx x) (multi_ctx P) (seqZ 0 (multi_players P));
    Ok (o, mkMulti (multi_num P) (multi_links P) ctx);
}.

(** The parties compare the hashes of what they have broadcast. *)
Definition compare_step (my : Z) (h : list octetStream) (_ : unit) (i : Z) : outcome unit :=
  if i =? my then Ok tt
  else
    x ← vget h i; m ← vget h my; eq ← equals x m;
    if eq : bool then Ok tt else Throw "broadcast_invalid".

Definition Check_Broadcast (P : MultiPlayer) : outcome MultiPlayer :=
  if hash_size (multi_ctx P) =? 0 then Ok P
  else
    let n := multi_players P in
    f ← hash_final (multi_ctx P) os_new;
    mine ← concat os_new f;
    h ← vset (replicate (Z.to_nat n) os_new) (multi_num P) mine;
    '(h, P) ← unchecked_broadcast P h;
    _ ← foldM (compare_step (multi_num P) h) tt (seqZ 0 n);
    Ok (mkMulti (multi_num P) (multi_links P) hash_reset).

(** ** The protocols *)
Section protocols.
Context {T : Type} `{!PlayerBase T}.

Record AllCommitments := mkAll { all_comms : list octetStream; all_opens : list octetStream; all_messages : list octetStream }.

Definition all_new (P : T) : AllCommitments :=
  let v := replicate (Z.to_nat (num_players P)) os_new in mkAll v v [].

Definition all_commit (rnd : list Z) (P : T) (a : AllCommitments) (message : octetStream) : outcome (AllCommitments * T) :=
  mine ← commit rnd (commitment_new (my_num P)) message;
  comms ← vupdate (all_comms a) (my_num P) (λ x, assign x (c_comm mine));
  opens ← vupdate (all_opens a) (my_num P) (λ x, assign x (c_open mine));
  '(comms, P) ← Broadcast_Receive P comms;
  Ok (mkAll comms opens (all_messages a), P).

Definition all_open (P : T) (a : AllCommitments) : outcome (AllCommitments * T) :=
  '(opens, P) ← Broadcast_Receive P (all_opens a);
  Ok (mkAll (all_comms a) opens (all_messages a), P).

Definition all_commit_and_open (rnd : list Z) (P : T) (a : AllCommitments) (message : octetStream)
    : outcome (AllCommitments * T) :=
  '(a, P) ← all_commit rnd P a message; all_open P a.

Definition all_check (a : AllCommitments) (player : Z) (message : octetStream) : outcome unit :=
  comm ← vget (all_comms a) player;
  open ← vget (all_opens a) player;
  _ ← commitment_check (commitment_new player) message comm open;
  Ok tt.

(** [open(message)]: the loop ends at the own number. *)
Definition all_open_message (P : T) (a : AllCommitments) (message : octetStream) : outcome (AllCommitments * T) :=
  let v := take (Z.to_nat (num_players P)) (all_messages a) ++
           replicate (Z.to_nat (num_players P) - length (all_messages a)) os_new in
  messages ← vupdate v (my_num P) (λ x, assign x message);
  '(messages, P) ← Broadcast_Receive P messages;
  '(a, P) ← all_open P (mkAll (all_comms a) (all_opens a) messages);
  _ ← foldM (λ _ i, m ← vget (all_messages a) i; all_check a i m) tt (seqZ 0 (my_num P));
  Ok (a, P).

Definition all_check_relative (P : T) (a : AllCommitments) (diff : Z) (message : octetStream) : outcome unit :=
  all_check a ((my_num P + num_players P - diff) mod num_players P) message.

(** [PRNG::get_octetStream] *)
Definition get_octetStream (g : PRNG) (ans : octetStream) (len : Z) : outcome (octetStream * PRNG) :=
  ans ← os_resize ans len;
  '(ans, g) ← foldM (λ '(ans, g) i, '(x, g) ← get_uchar g; ans ← poke ans i [x]; Ok (ans, g)) (ans, g) (seqZ 0 len);
  Ok (set_ptr (set_len ans len) 0, g).

(** [seed[j] ^= e[i].get_data()[j]] *)
Definition xor_into (seed data : list Z) (len : Z) : outcome (list Z) :=
  foldM (λ seed j, s ← vget seed j; x ← vget data j; vset seed j (Z.lxor s x)) seed (seqZ 0 len).

(** One turn of the loop over the players. *)
Definition seed_step (my : Z) (Comm_e Open_e : list octetStream) (len : Z) (st : list Z * list octetStream) (i : Z)
    : outcome (list Z * list octetStream) :=
  let '(seed, e) := st in
  e ← (if i =? my then Ok e
       else
         m ← vget e i; c ← vget Comm_e i; o ← vget Open_e i;
         '(ok, m) ← Open m c o i;
         if ok : bool then vset e i m else Throw "invalid_commitment");
  x ← vget e i;
  d ← get_data x;
  seed ← xor_into seed d len;
  Ok (seed, e).

(** [G] is the generator after [ReSeed]. *)
Definition Create_Random_Seed (G : PRNG) (rnd : list Z) (P : T) (len : Z) : outcome (list Z * T) :=
  let v := replicate (Z.to_nat (num_players P)) os_new in
  '(mine, _) ← get_octetStream G os_new len;
  e ← vset v (my_num P) mine;
  '(comm, open) ← Commit rnd os_new mine (my_num P);
  Comm_e ← vupdate v (my_num P) (λ x, assign x comm);
  Open_e ← vset v (my_num P) open;
  '(Comm_e, P) ← Broadcast_Receive P Comm_e;
  '(Open_e, P) ← Broadcast_Receive P Open_e;
  '(seed, _) ← foldM (seed_step (my_num P) Comm_e Open_e len) (replicate (Z.to_nat len) 0, e) (seqZ 0 (num_players P));
  Ok (seed, P).

Definition SeedGlobally (g G : PRNG) (rnd : list Z) (P : T) : outcome (PRNG * T) :=
  '(seed, P) ← Create_Random_Seed G rnd P SEED_SIZE;
  g ← SetSeed g seed;
  Ok (g, P).
End protocols.
End commit.
