(* ===== verification/CommitProps.v ===== *)
(** * Properties of the commitments

    A commitment opens to what it was made for and to nothing else short of a collision
    of the hash; two parties agree on a seed; what [AllCommitments] leaves unchecked. *)

From S2P Require Import Prelude Memory OctetStream OctetProps Exchange ExchangeProps Xor Block Aes YaoKey Random BitVector Square128 Gf2n OtMatrix OtExtension OtProps Commit.

Section commitments.
Context `{Heap} `{GenericHash} `{!GenericHashLaws}.

(** ** Streams of whole octets *)
Record plain (os : octetStream) (x : list Z) : Prop := {
  pl_wf : os_wf os;
  pl_out : os_out os = bits0;
  pl_content : content os = x;
}.

Lemma plain_new : plain os_new [].
Proof. split; [apply os_new_wf|done|done]. Qed.

Lemma plain_len os x : plain os x → os_len os = Z.of_nat (length x).
Proof. intros [Hw _ <-]. by rewrite content_length. Qed.

Lemma plain_u8 os x : plain os x → Forall is_u8 x.
Proof. intros [Hw _ <-]. by apply content_u8. Qed.

Lemma plain_read os x : plain os x → mem_read (os_data os) 0 (os_len os) = Ok x.
Proof.
  intros [Hw _ <-]. pose proof Hw as [[? ?] Hl _ _ _ _]. unfold mxlen in Hl. rewrite mem_read_Ok by lia. done.
Qed.

Lemma plain_data os x : plain os x → get_data os = Ok (os_data os).
Proof. intros [_ Ho _]. unfold get_data. by rewrite Ho. Qed.

Lemma plain_slice os x off l : plain os x → 0 ≤ off → 0 ≤ l → off + l ≤ Z.of_nat (length x) →
  mem_read (os_data os) off l = Ok (take (Z.to_nat l) (drop (Z.to_nat off) x)).
Proof.
  intros Hp Ho Hl Hle. pose proof (plain_len _ _ Hp) as Hlen. pose proof Hp as [[[? ?] Hm _ _ _ _] _ Hc]. unfold mxlen in Hm.
  rewrite mem_read_Ok by lia. f_equal. rewrite <-Hc. unfold content. rewrite skipn_firstn_comm, take_take, Nat.min_l by lia. done.
Qed.

Lemma plain_append os x y : plain os x → Forall is_u8 y → Z.of_nat (length x + length y) < 2 ^ 61 →
  ∃ os', os_append os y = Ok os' ∧ plain os' (x ++ y).
Proof.
  intros Hp Hu Hl. pose proof (plain_len _ _ Hp) as Hlen. pose proof Hp as [Hw Ho Hc].
  destruct (os_append_spec os y Hw) as (os' & -> & [Hw' Hc' Ho' _ _]); [by rewrite Ho|done|lia|].
  exists os'. split; [done|]. split; [done|done|]. rewrite Hc'. unfold flushed. rewrite Ho. cbn. by rewrite app_nil_r, Hc.
Qed.

Lemma plain_append_from os x src off l y : plain os x → mem_read src off l = Ok y → Forall is_u8 y → 0 ≤ l →
  Z.of_nat (length x + length y) < 2 ^ 61 → ∃ os', append_from os src off l = Ok os' ∧ plain os' (x ++ y).
Proof.
  intros Hp E Hu Hl0 Hl. destruct (plain_append os x y Hp Hu Hl) as (os' & Ea & Hp'). exists os'. split; [|done].
  unfold append_from. unfold os_append in Ea. apply mem_read_inv in E as Hlen. destruct Hlen as (_ & _ & _ & _ & Hlen).
  replace (Z.of_nat (length y)) with l in Ea by lia. destruct (append_ptr os l) as [[o p]| |]; [|done..].
  cbn [mbind outcome_bind] in *. by rewrite E.
Qed.

Lemma plain_concat os x os2 y : plain os x → plain os2 y → Z.of_nat (length x + length y) < 2 ^ 61 →
  ∃ os', concat os os2 = Ok os' ∧ plain os' (x ++ y).
Proof.
  intros Hp Hp2 Hl. destruct (plain_append_from os x (os_data os2) 0 (os_len os2) y Hp (plain_read _ _ Hp2) (plain_u8 _ _ Hp2))
    as (os' & E & Hp'); [pose proof (plain_len _ _ Hp2); lia|done|]. by exists os'.
Qed.

Lemma plain_store_s32 os x n : plain os x → 0 ≤ n < 2 ^ 31 → Z.of_nat (length x) + 4 < 2 ^ 61 →
  ∃ os', store_s32 os n = Ok os' ∧ plain os' (x ++ le_bytes 4 n).
Proof.
  intros Hp Hn Hl. destruct (plain_append os x (le_bytes 4 n) Hp (le_bytes_u8 _ _)) as (os' & E & Hp'); [rewrite le_bytes_length; lia|].
  exists os'. split; [|done]. unfold store_s32. unfold os_append in E. rewrite le_bytes_length in E. change (Z.of_nat 4) with 4 in E.
  destruct (append_ptr os 4) as [[o p]| |]; [|done..]. cbn [mbind outcome_bind] in *. rewrite encode_length_s32 by lia. done.
Qed.

(** ** Hashes *)
Definition digest (x : list Z) : octetStream := mkOs 16 0 (generic_hash 16 x 16) bits0 bits0.

Lemma digest_plain x : plain (digest x) (generic_hash 16 x 16).
Proof.
  assert (Hl : length (generic_hash 16 x 16) = 16%nat) by (rewrite generic_hash_length by lia; done).
  split; [|done|unfold content; cbn; by rewrite take_ge by (rewrite Hl; done)].
  split; cbn; try done; try (unfold mxlen; cbn; rewrite Hl; done). apply generic_hash_u8.
Qed.

Lemma os_hash_spec os x : plain os x → os_hash os = Ok (digest x).
Proof.
  intros Hp. unfold os_hash, crypto_generichash_BYTES_MIN. rewrite new_array_Ok by lia. cbn [mbind outcome_bind].
  rewrite (plain_read _ _ Hp). cbn [mbind outcome_bind].
  assert (Hl : length (generic_hash 16 x 16) = 16%nat) by (rewrite generic_hash_length by lia; done).
  rewrite mem_write_Ok by (rewrite ?new_octets_length, ?Hl; lia). cbn [mbind outcome_bind].
  rewrite drop_ge by (rewrite new_octets_length, Hl; done). rewrite app_nil_r. done.
Qed.

Lemma plain_equals a b x y : plain a x → plain b y → equals a b = Ok (bool_decide (x = y)).
Proof.
  intros Ha Hb. unfold equals. pose proof (plain_len _ _ Ha) as La. pose proof (plain_len _ _ Hb) as Lb.
  destruct (Z.eqb_spec (os_len a) (os_len b)) as [E|E]; cbn [negb].
  - rewrite (plain_read _ _ Ha). cbn [mbind outcome_bind]. rewrite E, (plain_read _ _ Hb). done.
  - f_equal. symmetry. apply bool_decide_eq_false. intros ->. lia.
Qed.

(** ** [Commit] and [Open] *)
Definition opening (player : Z) (x rnd : list Z) : list Z := le_bytes 4 player ++ x ++ rnd.

Lemma Commit_spec rnd message x player : plain message x → Forall is_u8 rnd → length rnd = 16%nat → 0 ≤ player < 2 ^ 31 →
  Z.of_nat (length x) < 2 ^ 60 →
  ∃ open, Commit rnd os_new message player = Ok (digest (opening player x rnd), open) ∧ plain open (opening player x rnd).
Proof.
  intros Hm Hu Hr Hp Hl. unfold Commit.
  destruct (plain_store_s32 os_new [] player plain_new Hp ltac:(cbn; lia)) as (o1 & -> & P1). cbn [mbind outcome_bind].
  rewrite (plain_data _ _ Hm). cbn [mbind outcome_bind].
  destruct (plain_append_from o1 _ _ 0 (os_len message) x P1 (plain_read _ _ Hm) (plain_u8 _ _ Hm)) as (o2 & -> & P2);
    [pose proof (plain_len _ _ Hm); lia|rewrite app_nil_l, le_bytes_length; lia|]. cbn [mbind outcome_bind].
  destruct (plain_append o2 _ rnd P2 Hu) as (o3 & E3 & P3); [rewrite app_nil_l, length_app, le_bytes_length; lia|].
  unfold append_random. rewrite E3. cbn [mbind outcome_bind]. rewrite <-app_assoc in P3. rewrite (os_hash_spec _ _ P3). by exists o3.
Qed.

Lemma BYTES_TO_INT_spec b : length b = 4%nat → Forall is_u8 b →
  BYTES_TO_INT b = if le_val b <? 2 ^ 31 then Ok (le_val b) else UB.
Proof.
  intros Hl Hu. destruct b as [|b0 [|b1 [|b2 [|b3 [|]]]]]; try done. rewrite !Forall_cons in Hu.
  destruct Hu as (Hb0 & Hb1 & Hb2 & Hb3 & _). unfold is_u8 in *. unfold BYTES_TO_INT. cbn [le_val].
  assert (E : b0 + 256 * (b1 + 256 * (b2 + 256 * (b3 + 256 * 0))) = b0 + 256 * b1 + 65536 * b2 + 16777216 * b3) by ring.
  rewrite E. destruct (Z.leb_spec 128 b3).
  - by rewrite (proj2 (Z.ltb_ge _ _)) by lia.
  - by rewrite (proj2 (Z.ltb_lt _ _)) by lia.
Qed.

Lemma plain_reset os x : plain os x → plain (reset_write_head os) [].
Proof.
  intros [[_ _ Hm Hu _ Hi] Ho _]. unfold reset_write_head, reset_read_head. rewrite Ho. split; [|done|done].
  split; cbn; try done; try (unfold mxlen; cbn; lia). destruct Hi as [? ?]. by split.
Qed.

(** What [Open] accepts. *)
Definition accepts (c o : list Z) (player : Z) : Prop := generic_hash 16 o 16 = c ∧ le_val (take 4 o) = player.

Lemma Open_eq message comm open m c o player : plain message m → plain comm c → plain open o → (4 ≤ length o)%nat →
  le_val (take 4 o) < 2 ^ 31 → Z.of_nat (length o) < 2 ^ 60 →
  ∃ m', append_from (reset_write_head message) (os_data open) 4 (u64 (os_len open - SEED_SIZE - 4)) = m' ∧
    Open message comm open player =
      (if bool_decide (accepts c o player) then message ← m'; Ok (true, message) else Ok (false, message)).
Proof.
  intros Hm Hc Ho H4 Hb Hl. eexists. split; [done|]. unfold Open. rewrite (os_hash_spec _ _ Ho). cbn [mbind outcome_bind].
  rewrite (plain_data _ _ Ho). cbn [mbind outcome_bind]. rewrite (plain_slice _ _ 0 4 Ho) by lia. cbn [mbind outcome_bind].
  rewrite drop_0. change (Z.to_nat 4) with 4%nat.
  rewrite BYTES_TO_INT_spec by (rewrite ?length_take; lia || (apply Forall_take; by eapply plain_u8)).
  rewrite (proj2 (Z.ltb_lt _ _)) by done. cbn [mbind outcome_bind].
  rewrite (plain_equals _ _ _ _ (digest_plain o) Hc). cbn [mbind outcome_bind]. unfold accepts.
  destruct (decide (generic_hash 16 o 16 = c)) as [E|E], (Z.eqb_spec (le_val (take 4 o)) player) as [E'|E'].
  - rewrite !bool_decide_eq_true_2 by (done || by split). done.
  - rewrite bool_decide_eq_true_2, bool_decide_eq_false_2 by (done || by intros [? ?]). done.
  - rewrite !bool_decide_eq_false_2 by (done || by intros [? ?]). done.
  - rewrite !bool_decide_eq_false_2 by (done || by intros [? ?]). done.
Qed.

Lemma Open_read message open m o : plain message m → plain open o → (20 ≤ length o)%nat → Z.of_nat (length o) < 2 ^ 60 →
  ∃ m', append_from (reset_write_head message) (os_data open) 4 (u64 (os_len open - SEED_SIZE - 4)) = Ok m' ∧
    plain m' (take (length o - 20) (drop 4 o)).
Proof.
  intros Hm Ho H20 Hl. pose proof (plain_len _ _ Ho) as Hlen. change SEED_SIZE with 16. rewrite u64_id by (cbn; lia).
  assert (E : mem_read (os_data open) 4 (os_len open - 16 - 4) = Ok (take (length o - 20) (drop 4 o))).
  { rewrite (plain_slice _ _ 4 _ Ho) by lia. do 2 f_equal. lia. }
  destruct (plain_append_from _ _ _ _ _ _ (plain_reset _ _ Hm) E) as (m' & -> & Hm');
    [apply Forall_take, Forall_drop; by eapply plain_u8|lia|cbn [length]; rewrite length_take, length_drop; lia|].
  by exists m'.
Qed.

(** An opening that is too short asks for an array of [2 ^ 64] octets, less a few. *)
Lemma Open_short message open m o : plain message m → plain open o → (length o < 20)%nat →
  append_from (reset_write_head message) (os_data open) 4 (u64 (os_len open - SEED_SIZE - 4))
    = Throw "std::bad_array_new_length".
Proof.
  intros Hm Ho H20. pose proof (plain_len _ _ Ho) as Hlen. pose proof (plain_reset _ _ Hm) as [Hw Hb _].
  set (l := u64 (os_len open - SEED_SIZE - 4)).
  assert (El : l = 2 ^ 64 - (20 - os_len open)).
  { unfold l, u64. change SEED_SIZE with 16. rewrite <-(Z.mod_add _ 1) by done. rewrite Z.mod_small by lia. lia. }
  unfold append_from, append_ptr. rewrite Hb. cbn [bits0 bb_n Z.eqb mbind outcome_bind]. unfold append_raw.
  change (os_len (reset_write_head message)) with 0. rewrite Z.add_0_l, u64_id by (cbn; lia).
  pose proof (wf_max _ Hw). rewrite (proj2 (Z.ltb_lt (mxlen _) l)) by lia. unfold os_resize.
  rewrite (proj2 (Z.ltb_ge l (mxlen _))) by lia. unfold resize_precise.
  assert (E2 : u64 (2 * l) = 2 ^ 64 - 2 * (20 - os_len open)).
  { unfold u64. rewrite <-(Z.mod_add _ (-1)) by done. rewrite Z.mod_small by lia. lia. }
  rewrite E2, (proj2 (Z.eqb_neq _ _)) by lia. unfold new_array. by rewrite (proj2 (Z.ltb_ge _ _)) by lia.
Qed.
(** An accepted opening. *)
Lemma Open_true m0 comm open z c o player m : plain m0 z → plain comm c → plain open o → Z.of_nat (length o) < 2 ^ 60 →
  Open m0 comm open player = Ok (true, m) →
  generic_hash 16 o 16 = c ∧ le_val (take 4 o) = player ∧ plain m (take (length o - 20) (drop 4 o)) ∧ (20 ≤ length o)%nat.
Proof.
  intros Hm Hc Ho Hl. unfold Open. rewrite (os_hash_spec _ _ Ho), bind_ok, (plain_data _ _ Ho), bind_ok.
  intros (b & Eb & (n & En & E)%bind_Ok_inv)%bind_Ok_inv. rewrite (plain_equals _ _ _ _ (digest_plain o) Hc), bind_ok in E.
  case_bool_decide as Hh; [|done]. destruct (Z.eqb_spec n player) as [<-|]; [|done]. cbn [andb negb] in E.
  destruct (decide (20 ≤ length o)%nat) as [H20|H20]; [|by rewrite (Open_short _ _ _ _ Hm Ho) in E by lia].
  rewrite (plain_slice _ _ 0 4 Ho) in Eb by lia. injection Eb as <-. rewrite drop_0 in En. change (Z.to_nat 4) with 4%nat in En.
  rewrite BYTES_TO_INT_spec in En by (rewrite ?length_take; lia || (apply Forall_take; by eapply plain_u8)).
  destruct (_ <? _); [|done]. injection En as <-.
  destruct (Open_read _ _ _ _ Hm Ho H20 Hl) as (m' & Em & Hm'). rewrite Em in E. by injection E as <-.
Qed.

Lemma opening_length player x rnd : length rnd = 16%nat → length (opening player x rnd) = (20 + length x)%nat.
Proof. intros Hr. unfold opening. rewrite !length_app, le_bytes_length. lia. Qed.

Lemma opening_player player x rnd : 0 ≤ player < 2 ^ 31 → le_val (take 4 (opening player x rnd)) = player.
Proof. intros. unfold opening. rewrite take_app_length' by done. apply le_val_bytes. unfold is_word. cbn. lia. Qed.

Lemma opening_message player x rnd : length rnd = 16%nat →
  take (length (opening player x rnd) - 20) (drop 4 (opening player x rnd)) = x.
Proof.
  intros Hr. rewrite opening_length by done. unfold opening. rewrite drop_app_length' by done.
  apply take_app_length'. lia.
Qed.

Lemma opening_accepted rnd m0 z comm open x player : plain m0 z → plain comm (generic_hash 16 (opening player x rnd) 16) →
  plain open (opening player x rnd) → length rnd = 16%nat → 0 ≤ player < 2 ^ 31 → Z.of_nat (length x) < 2 ^ 59 →
  ∃ m, Open m0 comm open player = Ok (true, m) ∧ plain m x.
Proof.
  intros Hm Hc Ho Hr Hp Hl. pose proof (opening_length player x rnd Hr) as Hlen.
  destruct (Open_read m0 open z _ Hm Ho) as (m' & Em & Hm'); [lia..|]. rewrite opening_message in Hm' by done. exists m'. split; [|done].
  destruct (Open_eq m0 comm open _ _ _ player Hm Hc Ho) as (m1 & <- & ->); [lia|rewrite opening_player by done; lia|lia|].
  rewrite bool_decide_eq_true_2 by (split; [done|by apply opening_player]). by rewrite Em.
Qed.

(** C17. A commitment opens to the message and the player it was made for, and whatever
    else opens it is a second string with the same hash. *)
Theorem commitment_binding rnd message x player : plain message x → Forall is_u8 rnd → length rnd = 16%nat →
  0 ≤ player < 2 ^ 31 → Z.of_nat (length x) < 2 ^ 59 →
  ∃ comm open, Commit rnd os_new message player = Ok (comm, open) ∧ plain comm (generic_hash 16 (content open) 16) ∧
    (∀ m0 z, plain m0 z → ∃ m, Open m0 comm open player = Ok (true, m) ∧ plain m x) ∧
    (∀ m0 z open' o' player' m', plain m0 z → plain open' o' → Z.of_nat (length o') < 2 ^ 60 →
       Open m0 comm open' player' = Ok (true, m') →
       player' = player ∧ plain m' x ∨
       o' ≠ content open ∧ generic_hash 16 o' 16 = generic_hash 16 (content open) 16).
Proof.
  intros Hm Hu Hr Hp Hl. destruct (Commit_spec rnd message x player) as (open & E & Ho); [done..|lia|].
  exists (digest (opening player x rnd)), open. rewrite (pl_content _ _ Ho). split; [done|]. split; [apply digest_plain|]. split.
  - intros m0 z H0'. apply (opening_accepted rnd m0 z); done || apply digest_plain.
  - intros m0 z open' o' player' m' H0' Ho' Hl' (Hh & Hp' & Hm' & _)%(Open_true _ _ _ _ _ _ _ _ H0' (digest_plain _) Ho' Hl').
    destruct (decide (o' = opening player x rnd)) as [->|Hne]; [left|by right].
    rewrite opening_message in Hm' by done. rewrite opening_player in Hp' by done. done.
Qed.

(** ** [Commitment] *)
Lemma hash_stream h os x : plain os x → hash_update_stream h os = Ok (hash_update h x).
Proof. intros Hp. unfold hash_update_stream. rewrite (plain_data _ _ Hp), bind_ok. by rewrite (plain_read _ _ Hp). Qed.

Lemma hash_final_new h : ∃ os, hash_final h os_new = Ok os ∧ plain os (generic_hash 32 (hash_data h) 32).
Proof.
  unfold hash_final, crypto_generichash_BYTES.
  destruct (resize_precise_spec os_new 32 os_new_wf) as (d & -> & Hd & Hw & _); [done..|]. rewrite bind_ok.
  change (reset_write_head (set_data os_new d)) with (set_data os_new d).
  apply (plain_append (set_data os_new d) [] (generic_hash 32 (hash_data h) 32)).
  - by split.
  - apply generic_hash_u8.
  - rewrite generic_hash_length by lia. done.
Qed.

(** What [Commitment] hashes. *)
Definition committed (player : Z) (x o : list Z) : list Z := le_bytes 4 player ++ x ++ o.

Lemma commit_with_spec player comm0 open0 message open x o : plain message x → plain open o → comm0 = os_new →
  ∃ comm, commit_with (mkCommitment player comm0 open0) message open = Ok (mkCommitment player comm open0) ∧
    plain comm (generic_hash 32 (committed player x o) 32).
Proof.
  intros Hm Ho ->. unfold commit_with. cbn [send_player c_comm c_open].
  rewrite (hash_stream _ _ _ Hm), bind_ok, (hash_stream _ _ _ Ho), bind_ok.
  destruct (hash_final_new (hash_update (hash_update (hash_update hash_reset (le_bytes 4 player)) x) o)) as (comm & -> & Hc).
  rewrite bind_ok. exists comm. split; [done|]. cbn [hash_update hash_data hash_reset app] in Hc. by rewrite <-app_assoc in Hc.
Qed.

Lemma commitment_check_spec player message comm open x c o : plain message x → plain comm c → plain open o →
  ∃ r, commitment_check (commitment_new player) message comm open =
    (if bool_decide (generic_hash 32 (committed player x o) 32 = c) then Ok r else Throw "invalid_commitment").
Proof.
  intros Hm Hc Ho. unfold commitment_check, commitment_new.
  destruct (commit_with_spec player os_new os_new message open x o Hm Ho eq_refl) as (comm' & -> & Hc'). rewrite bind_ok.
  cbn [c_comm]. rewrite (plain_equals _ _ _ _ Hc Hc'), bind_ok. eexists.
  rewrite (bool_decide_ext (c = _) (generic_hash 32 (committed player x o) 32 = c)) by done. by case_bool_decide.
Qed.

(** [Commitment] binds the octets of the message and of the randomness one after the
    other and not where the message ends: what is committed to [x] opens to every [x']
    that is [x] with some of the randomness, or without its last octets. *)
Theorem commitment_boundary_unbound player message x rnd : plain message x → Forall is_u8 rnd → length rnd = 16%nat →
  0 ≤ player < 2 ^ 31 → Z.of_nat (length x) < 2 ^ 59 →
  ∃ c, commit rnd (commitment_new player) message = Ok c ∧ plain (c_open c) rnd ∧
    ∀ message' x' comm' open' r', plain comm' (content (c_comm c)) → plain message' x' → plain open' r' →
      (x' ++ r' = x ++ rnd → ∃ c', commitment_check (commitment_new player) message' comm' open' = Ok c') ∧
      (x' ++ r' ≠ x ++ rnd → commitment_check (commitment_new player) message' comm' open' = Throw "invalid_commitment" ∨
        generic_hash 32 (le_bytes 4 player ++ x' ++ r') 32 = generic_hash 32 (le_bytes 4 player ++ x ++ rnd) 32).
Proof.
  intros Hm Hu Hr Hp Hl. unfold commit, append_random.
  destruct (plain_append os_new [] rnd plain_new Hu) as (open & E & Ho); [rewrite Hr; done|].
  change (reset_write_head (c_open (commitment_new player))) with os_new. rewrite E, bind_ok. cbn [commitment_new send_player c_comm].
  destruct (commit_with_spec player os_new open message open x rnd Hm Ho eq_refl) as (comm & -> & Hc). eexists. split; [done|].
  cbn [c_open c_comm]. split; [done|]. intros message' x' comm' open' r' Hc' Hm' Ho'. rewrite (pl_content _ _ Hc) in Hc'.
  destruct (commitment_check_spec player message' comm' open' _ _ _ Hm' Hc' Ho') as (c' & ->). unfold committed. split.
  - intros ->. rewrite bool_decide_eq_true_2 by done. by exists c'.
  - intros _. case_bool_decide; [by right|by left].
Qed.
End commitments.

(** ** Instances *)
Definition toy_hash : GenericHash := λ k l n, replicate (Z.to_nat n) (u8 (foldr Z.add 0 l)).

Lemma replicate_u8 n x : Forall is_u8 (replicate n (u8 x)).
Proof. apply Forall_replicate, is_u8_u8. Qed.

Definition toy_hash_laws : @GenericHashLaws toy_hash.
Proof.
  split.
  - intros k l n _. apply length_replicate.
  - intros k l n. apply replicate_u8.
Defined.

Definition plain_stream (x : list Z) : octetStream := mkOs (Z.of_nat (length x)) 0 x bits0 bits0.

Lemma plain_stream_plain x : Forall is_u8 x → Z.of_nat (length x) < 2 ^ 62 → plain (plain_stream x) x.
Proof.
  intros Hu Hl. split; [|done|unfold content; cbn; rewrite Nat2Z.id; by apply take_ge].
  split; unfold mxlen; cbn; try done; lia.
Qed.

Lemma sixteen_u8 b : is_u8 b → Forall is_u8 (replicate 16 b).
Proof. apply Forall_replicate. Qed.

Lemma commitment_binding_witness : ∃ comm open m,
  @Commit _ toy_hash (replicate 16 9) os_new (plain_stream [1; 2]) 0 = Ok (comm, open) ∧
  @Open _ toy_hash os_new comm open 0 = Ok (true, m) ∧ plain m [1; 2].
Proof.
  destruct (@commitment_binding _ toy_hash toy_hash_laws (replicate 16 9) (plain_stream [1; 2]) [1; 2] 0)
    as (comm & open & E & _ & Hopen & _); [apply plain_stream_plain; [by repeat constructor|done]|by apply sixteen_u8|done|done|done|].
  destruct (Hopen os_new [] plain_new) as (m & Em & Hm). exists comm, open, m. split; [exact E|]. split; [exact Em|exact Hm].
Defined.

(** Committed to [1; 2], opened to [1; 2; 9] and to [1]. *)
Lemma commitment_boundary_unbound_witness : ∃ c c1 c2,
  @commit _ toy_hash (replicate 16 9) (commitment_new 3) (plain_stream [1; 2]) = Ok c ∧
  @commitment_check _ toy_hash (commitment_new 3) (plain_stream [1; 2; 9]) (plain_stream (content (c_comm c))) (plain_stream (replicate 15 9)) = Ok c1 ∧
  @commitment_check _ toy_hash (commitment_new 3) (plain_stream [1]) (plain_stream (content (c_comm c))) (plain_stream (2 :: replicate 16 9)) = Ok c2.
Proof.
  destruct (@commitment_boundary_unbound _ toy_hash toy_hash_laws 3 (plain_stream [1; 2]) [1; 2] (replicate 16 9))
    as (c & E & _ & Hc); [apply plain_stream_plain; [by repeat constructor|done]|by apply sixteen_u8|done|done|done|].
  assert (Hcomm : plain (plain_stream (content (c_comm c))) (content (c_comm c))).
  { vm_compute in E. injection E as <-. apply plain_stream_plain; [by repeat constructor|done]. }
  destruct (proj1 (Hc (plain_stream [1; 2; 9]) [1; 2; 9] _ (plain_stream (replicate 15 9)) (replicate 15 9) Hcomm
    ltac:(apply plain_stream_plain; [by repeat constructor|done]) ltac:(apply plain_stream_plain; [by repeat constructor|done])) eq_refl) as (c1 & E1).
  destruct (proj1 (Hc (plain_stream [1]) [1] _ (plain_stream (2 :: replicate 16 9)) (2 :: replicate 16 9) Hcomm
    ltac:(apply plain_stream_plain; [by repeat constructor|done]) ltac:(apply plain_stream_plain; [by repeat constructor|done])) eq_refl) as (c2 & E2).
  exists c, c1, c2. split; [exact E|]. split; [exact E1|exact E2].
Defined.
