(* ===== verification/SeedProps.v ===== *)
(** * Common randomness and openings

    Two parties run [Create_Random_Seed] and [PRNG::SeedGlobally] over a link and get
    the same seed; a short opening is read past its end; [AllCommitments::open] checks
    only the parties below its own. *)

From S2P Require Import Prelude Memory OctetStream OctetProps Exchange ExchangeProps Xor Block Aes YaoKey Random BitVector Square128 Gf2n OtMatrix OtExtension OtProps Commit CommitProps.

Section seeds.
Context `{Heap} `{GenericHash} `{!GenericHashLaws}.

(** ** Streams *)
(** Octets put over those at the start of an array with room. *)
Lemma plain_poke d n x : Forall is_u8 d → Forall is_u8 x → Z.of_nat (length x) ≤ Z.of_nat (length d) < 2 ^ 63 →
  ∃ os, poke (mkOs n 0 d bits0 bits0) 0 x = Ok os ∧ plain (set_ptr (set_len os (Z.of_nat (length x))) 0) x.
Proof.
  intros Hd Hx Hl. unfold poke. cbn [os_data].
  destruct (mem_write d 0 x) as [d'| |] eqn:E; [|exfalso; rewrite mem_write_Ok in E by lia; discriminate..].
  rewrite bind_ok. eexists. split; [done|]. pose proof (mem_write_length _ _ _ _ E) as Hd'. split; [|done|].
  - split; unfold mxlen; cbn; try done; try lia. eapply mem_write_u8; [exact Hd|exact Hx|exact E].
  - unfold content. cbn. rewrite Nat2Z.id. by apply mem_write_take in E.
Qed.

Lemma new_resize l : 0 ≤ l < 2 ^ 32 →
  ∃ d, os_resize os_new l = Ok (mkOs 0 0 d bits0 bits0) ∧ Forall is_u8 d ∧ l ≤ Z.of_nat (length d) < 2 ^ 63.
Proof.
  intros Hl. unfold os_resize. change (mxlen os_new) with 0. rewrite (proj2 (Z.ltb_ge l 0)) by lia. rewrite u64_id by lia.
  destruct (resize_precise_spec os_new (2 * l) os_new_wf) as (d & -> & Hd & Hw & _); [cbn; lia|lia|].
  exists d. split; [done|]. split; [apply (wf_u8 _ Hw)|lia].
Qed.

Lemma plain_assign this os x : os_wf this → plain os x → ∃ r, assign this os = Ok r ∧ plain r x.
Proof.
  intros Hw Hp. pose proof (plain_len _ _ Hp) as Hlen. pose proof (plain_u8 _ _ Hp) as Hu. pose proof Hp as [Ho Hb Hc].
  pose proof Ho as [? Hl Hm _ _ Hi]. unfold assign.
  assert (E : ∃ d, (if mxlen this <=? os_len os then new_array (mxlen os) else Ok (os_data this)) = Ok d ∧ Forall is_u8 d ∧
    os_len os ≤ Z.of_nat (length d) < 2 ^ 63).
  { destruct (Z.leb_spec (mxlen this) (os_len os)).
    - rewrite new_array_Ok by done. eexists. split; [done|]. split; [apply new_octets_u8|]. rewrite new_octets_length.
      unfold mxlen in *. lia.
    - exists (os_data this). split; [done|]. split; [apply Hw|]. pose proof (wf_max _ Hw). unfold mxlen in *. lia. }
  destruct E as (d & -> & Hd & Hdl). rewrite bind_ok, (plain_read _ _ Hp), bind_ok.
  destruct (mem_write d 0 x) as [d'| |] eqn:E; [|exfalso; rewrite mem_write_Ok in E by lia; discriminate..].
  rewrite bind_ok. eexists. split; [done|]. pose proof (mem_write_length _ _ _ _ E) as Hd'. split; [|done|].
  - split; unfold mxlen; cbn; try done; try lia. eapply mem_write_u8; [exact Hd|exact Hu|exact E]. by rewrite Hb.
  - unfold content. cbn. rewrite Hlen, Nat2Z.id. by apply mem_write_take in E.
Qed.

Lemma os_copy_plain os x : plain os x → ∃ r, os_copy os = Ok r ∧ plain r x.
Proof. apply plain_assign, os_new_wf. Qed.

Lemma os_Send_plain os x : plain os x → Z.of_nat (length x) < 2 ^ 32 → os_Send os = Ok (framed x).
Proof.
  intros Hp Hl. pose proof (plain_len _ _ Hp) as Hlen. destruct Hp as [Hw Ho Hc].
  rewrite os_Send_spec by (done || lia). by rewrite Hc, Hlen.
Qed.

Lemma receive_exchange_spec x rest own : Forall is_u8 x → Z.of_nat (length x) < 2 ^ 32 → 0 ≤ own < 2 ^ 32 →
  ∃ r, receive_exchange (framed x ++ rest) own os_new = Ok (r, rest) ∧ plain r x.
Proof.
  intros Hu Hl Ho. unfold receive_exchange, LENGTH_SIZE, framed. set (n := Z.of_nat (length x)) in *. rewrite <-app_assoc.
  pose proof (receive_app (le_bytes 4 n) (x ++ rest)) as E0. rewrite le_bytes_length in E0.
  change (Z.of_nat 4) with 4 in E0. rewrite E0, bind_ok. clear E0. change 4 with (Z.of_nat 4).
  rewrite decode_length_Ok by (lia || apply le_bytes_length). rewrite bind_ok.
  rewrite le_val_bytes by (unfold is_word; cbn; lia).
  destruct (new_resize (Z.max n own)) as (d & -> & Hd & Hdl); [lia|]. rewrite bind_ok.
  unfold n at 1. rewrite receive_app, bind_ok. destruct (plain_poke d 0 x Hd Hu ltac:(lia)) as (os & -> & Hp).
  rewrite bind_ok. eexists. split; [done|]. destruct Hp as [[? ? ? ? ? [_ Hi]] ? ?].
  split; [split|..]; try done; by split.
Qed.

(** ** Two parties *)
(** A vector with the own element first in line. *)
Definition pair_at {A} (my : Z) (a b : A) : list A := if my =? 0 then [a; b] else [b; a].

Lemma vget_pair {A} my (a b : A) : my = 0 ∨ my = 1 → vget (pair_at my a b) my = Ok a ∧ vget (pair_at my a b) (1 - my) = Ok b.
Proof. by intros [-> | ->]. Qed.

Lemma vset_pair {A} my (a b a' : A) : my = 0 ∨ my = 1 →
  vset (pair_at my a b) my a' = Ok (pair_at my a' b) ∧ vset (pair_at my a b) (1 - my) a' = Ok (pair_at my a a').
Proof. by intros [-> | ->]. Qed.

Lemma broadcast_two my out x y rest a b : my = 0 ∨ my = 1 → plain a x → os_wf b → Z.of_nat (length x) < 2 ^ 32 →
  Forall is_u8 y → Z.of_nat (length y) < 2 ^ 32 →
  ∃ b', Broadcast_Receive (mkTwo my (mkLink out (framed y ++ rest))) (pair_at my a b)
      = Ok (pair_at my a b', mkTwo my (mkLink (out ++ framed x) rest)) ∧ plain b' y.
Proof.
  intros Hmy Ha Hb Hx Hu Hy. cbn [Broadcast_Receive two_party_player two_num two_link].
  rewrite (proj1 (vget_pair my a b Hmy)), bind_ok. destruct (os_copy_plain _ _ Ha) as (a' & -> & Ha'). rewrite bind_ok.
  unfold link_exchange. rewrite (os_Send_plain _ _ Ha') by done. rewrite bind_ok. cbn [l_in l_out].
  destruct (receive_exchange_spec y rest (os_len a') Hu Hy) as (r & -> & Hr).
  { pose proof (plain_len _ _ Ha'). lia. }
  rewrite !bind_ok. unfold vupdate. rewrite (proj2 (vget_pair my a b Hmy)), bind_ok.
  destruct (plain_assign b _ _ Hb Hr) as (b' & -> & Hb'). rewrite bind_ok, (proj2 (vset_pair my a b b' Hmy)), bind_ok. by exists b'.
Qed.
(** ** The octets of a generator *)
Lemma get_uchar_spec g key p : at_pos g key p → schedule_wf key → p + 256 < prng_limit →
  ∃ g', get_uchar g = Ok (octet_at key p, g') ∧ at_pos g' key (p + 1).
Proof.
  intros Hp Hk Hl. pose proof (at_pos_cnt _ _ _ Hp) as Hc. unfold get_uchar. change RAND_SIZE with 128.
  assert (E : ∃ g1, (if 128 <=? g_cnt g then prng_next g else Ok g) = Ok g1 ∧ at_pos g1 key p ∧ g_cnt g1 < 128).
  { destruct (Z.leb_spec 128 (g_cnt g)); [|by exists g].
    destruct (prng_next_pos g key p Hp) as (g1 & -> & Hg1 & Hc1 & _); [lia|]. exists g1. split; [done|].
    replace (p - g_cnt g + 128) with p in Hg1 by lia. split; [done|lia]. }
  destruct E as (g1 & -> & Hg1 & Hc1). rewrite bind_ok. pose proof (at_pos_cnt _ _ _ Hg1).
  rewrite (prng_read_spec g1 key p 1 Hg1) by lia. rewrite bind_ok. eexists. split; [|apply set_cnt_pos; [done|lia]].
  do 2 f_equal. change (key_stream key p 1) with [octet_at key p]. cbn [le_val]. lia.
Qed.

Lemma mem_write_next d n x y : take n d = x → (n < length d)%nat → ∃ d', mem_write d (Z.of_nat n) [y] = Ok d' ∧
  take (S n) d' = x ++ [y] ∧ length d' = length d.
Proof.
  intros Hx Hn. destruct (mem_write d (Z.of_nat n) [y]) as [d'| |] eqn:E;
    [|exfalso; rewrite mem_write_Ok in E by (cbn [length]; lia); discriminate..].
  exists d'. split; [done|]. split; [|by apply mem_write_length in E]. apply mem_write_take in E. rewrite Nat2Z.id, Hx in E.
  cbn [length] in E. by rewrite Nat.add_1_r in E.
Qed.

Lemma get_octetStream_spec g key p len : at_pos g key p → schedule_wf key → 0 ≤ len < 2 ^ 31 → p + len + 256 < prng_limit →
  ∃ ans g', get_octetStream g os_new len = Ok (ans, g') ∧ plain ans (key_stream key p len).
Proof.
  intros Hp Hk Hlen Hl. unfold get_octetStream. destruct (new_resize len) as (d & -> & Hd & Hdl); [lia|]. rewrite bind_ok.
  destruct (foldM_inv (λ n '(ans, g), ∃ d', ans = mkOs 0 0 d' bits0 bits0 ∧ take n d' = key_stream key p (Z.of_nat n) ∧
      length d' = length d ∧ Forall is_u8 d' ∧ at_pos g key (p + Z.of_nat n))
    (λ '(ans, g) i, '(x, g) ← get_uchar g; ans ← poke ans i [x]; Ok (ans, g)) (seqZ 0 len) (mkOs 0 0 d bits0 bits0, g))
    as ([ans g'] & -> & d' & -> & Ht & Hd' & Hu & _).
  - exists d. rewrite Z.add_0_r. by split_and!.
  - intros i a [ans g'] Ha (d' & -> & Ht & Hd' & Hu & Hp'). apply lookup_seqZ in Ha as [-> Hi].
    destruct (get_uchar_spec g' key _ Hp' Hk) as (g'' & -> & Hp''); [lia|]. rewrite bind_ok, Z.add_0_l. unfold poke. cbn [os_data].
    destruct (mem_write_next d' i _ (octet_at key (p + Z.of_nat i)) Ht) as (d'' & E & Ht' & Hl'); [lia|]. rewrite E, !bind_ok.
    eexists. split; [done|]. exists d''. split; [done|]. split; [|split; [lia|split]].
    + rewrite Ht'. rewrite Nat2Z.inj_succ, <-Z.add_1_r, key_stream_app by lia. done.
    + eapply mem_write_u8; [exact Hu| |exact E]. constructor; [by apply octet_at_u8|done].
    + by replace (p + Z.of_nat (S i)) with (p + Z.of_nat i + 1) by lia.
  - rewrite length_seqZ in *. rewrite bind_ok. eexists _, _. split; [done|]. rewrite Z2Nat.id in Ht by lia.
    split; [|done|by unfold content].
    split; unfold mxlen; cbn; try done; lia.
Qed.

Lemma lookup_zip_xor (seed x : list Z) i : (zip_with Z.lxor seed x) !! i = (s ← seed !! i; y ← x !! i; Some (Z.lxor s y)).
Proof. rewrite lookup_zip_with. by destruct (seed !! i), (x !! i). Qed.

Lemma xor_into_spec seed data x len : length seed = Z.to_nat len → take (Z.to_nat len) data = x → length x = Z.to_nat len →
  xor_into seed data len = Ok (zip_with Z.lxor seed x).
Proof.
  intros Hs Hx Hlx. unfold xor_into.
  assert (Hd : ∀ i, (i < Z.to_nat len)%nat → data !! i = x !! i).
  { intros i Hi. by rewrite <-Hx, lookup_take_lt by done. }
  destruct (foldM_inv (λ n s, s = zip_with Z.lxor (take n seed) (take n x) ++ drop n seed)
    (λ seed j, s ← vget seed j; x ← vget data j; vset seed j (Z.lxor s x)) (seqZ 0 len) seed) as (s & -> & ->).
  - done.
  - intros i a s Ha ->. apply lookup_seqZ in Ha as [-> Hi]. rewrite Z.add_0_l.
    destruct (lookup_lt_is_Some_2 seed i) as [y Ey]; [lia|]. destruct (lookup_lt_is_Some_2 x i) as [z Ez]; [lia|].
    assert (Hlz : length (zip_with Z.lxor (take i seed) (take i x)) = i) by (rewrite length_zip_with, !length_take; lia).
    rewrite (vget_nat (_ ++ drop i seed) i y) by (rewrite lookup_app_r by lia; by rewrite Hlz, Nat.sub_diag, lookup_drop, Nat.add_0_r).
    rewrite bind_ok. rewrite (vget_nat data i z) by (rewrite Hd by lia; done). rewrite bind_ok.
    rewrite vset_Ok by (rewrite length_app, Hlz, length_drop; lia). eexists. split; [done|].
    rewrite Nat2Z.id, insert_app_r_alt, Hlz, Nat.sub_diag by lia. rewrite (drop_S _ _ _ Ey). cbn.
    rewrite (take_S_r _ _ _ Ey), (take_S_r _ _ _ Ez), zip_with_app by (rewrite !length_take; lia). cbn. by rewrite <-app_assoc.
  - rewrite length_seqZ, !take_ge, drop_ge by lia. by rewrite app_nil_r.
Qed.

Lemma plain_front os x len : plain os x → length x = Z.to_nat len → take (Z.to_nat len) (os_data os) = x.
Proof.
  intros Hp Hl. pose proof (plain_len _ _ Hp) as E. destruct Hp as [_ _ Hc]. unfold content in Hc.
  by replace (Z.to_nat len) with (Z.to_nat (os_len os)) by lia.
Qed.
Lemma xor_into_plain seed os x len : length seed = Z.to_nat len → plain os x → length x = Z.to_nat len →
  xor_into seed (os_data os) len = Ok (zip_with Z.lxor seed x).
Proof. intros Hs Hp Hl. apply xor_into_spec; [done|by apply plain_front|done]. Qed.

(** One turn of the loop over the players. *)
Lemma seed_own my Comm_e Open_e len seed e mine : vget e my = Ok mine → get_data mine = Ok (os_data mine) →
  seed_step my Comm_e Open_e len (seed, e) my = (seed ← xor_into seed (os_data mine) len; Ok (seed, e)).
Proof. intros E Ed. unfold seed_step. by rewrite Z.eqb_refl, bind_ok, E, bind_ok, Ed, bind_ok. Qed.

Lemma seed_other my Comm_e Open_e len seed e i m0 c o ok m e' : i ≠ my → vget e i = Ok m0 → vget Comm_e i = Ok c →
  vget Open_e i = Ok o → Open m0 c o i = Ok (ok, m) → vset e i m = Ok e' → vget e' i = Ok m →
  (ok = true → get_data m = Ok (os_data m)) →
  seed_step my Comm_e Open_e len (seed, e) i =
    (if ok then seed ← xor_into seed (os_data m) len; Ok (seed, e') else Throw "invalid_commitment").
Proof.
  intros Hi Em Ec Eo E Es Eg Ed. unfold seed_step. rewrite (proj2 (Z.eqb_neq i my)) by done. rewrite Em, bind_ok, Ec, bind_ok, Eo, bind_ok.
  rewrite E, bind_ok. destruct ok; [|done]. by rewrite Es, bind_ok, Eg, bind_ok, Ed, bind_ok.
Qed.

(** ** One party

    with number [my], whatever octets the other one sends as its commitment [c] and its
    opening [o]. *)
Section party.
Context (my : Z) (G : PRNG) (key : list Block) (p : Z) (rnd : list Z) (len : Z) (out c o rest : list Z).
Context (Hmy : my = 0 ∨ my = 1) (Hp : at_pos G key p) (Hk : schedule_wf key) (Hlen : 0 ≤ len < 2 ^ 31).
Context (Hroom : p + len + 256 < prng_limit) (Hu : Forall is_u8 rnd) (Hr : length rnd = 16%nat).
Context (Huc : Forall is_u8 c) (Hlc : Z.of_nat (length c) < 2 ^ 32) (Huo : Forall is_u8 o) (Hlo : Z.of_nat (length o) < 2 ^ 32).

Let x := key_stream key p len.
Let own := opening my x rnd.
Let zeros : list Z := replicate (Z.to_nat len) 0.
Let start := mkTwo my (mkLink out (framed c ++ framed o ++ rest)).
Let end_ := mkTwo my (mkLink (out ++ framed (generic_hash 16 own 16) ++ framed own) rest).

Lemma own_length : length x = Z.to_nat len.
Proof. apply key_stream_length. Qed.

(** What the party makes of an opening. *)
Definition opened (mine m : octetStream) : outcome (list Z * TwoPartyPlayer) :=
  seed ← xor_into zeros (os_data (if my =? 0 then mine else m)) len;
  seed ← xor_into seed (os_data (if my =? 0 then m else mine)) len;
  Ok (seed, end_).

Lemma party_seed : ∃ mine comm open, plain mine x ∧ plain comm c ∧ plain open o ∧
  (∀ m, Open os_new comm open (1 - my) = Ok (true, m) → get_data m = Ok (os_data m) →
     Create_Random_Seed G rnd start len = opened mine m) ∧
  (∀ m, Open os_new comm open (1 - my) = Ok (false, m) → Create_Random_Seed G rnd start len = Throw "invalid_commitment").
Proof.
  assert (Hown : Z.of_nat (length own) < 2 ^ 32) by (unfold own; rewrite opening_length by done; rewrite own_length; lia).
  unfold Create_Random_Seed. change (num_players start) with 2. change (my_num start) with my.
  change (replicate (Z.to_nat 2) os_new) with [os_new; os_new].
  assert (Epair : [os_new; os_new] = pair_at my os_new os_new) by (unfold pair_at; by destruct (my =? 0)). rewrite Epair. clear Epair.
  destruct (get_octetStream_spec G key p len Hp Hk Hlen Hroom) as (mine & g' & -> & Hmine). rewrite bind_ok.
  rewrite (proj1 (vset_pair my _ _ _ Hmy)), bind_ok.
  destruct (Commit_spec rnd mine x my Hmine Hu Hr) as (open0 & -> & Hopen0); [destruct Hmy; lia|rewrite own_length; lia|].
  rewrite bind_ok. fold own in Hopen0 |- *. unfold vupdate. rewrite (proj1 (vget_pair my _ _ Hmy)), bind_ok.
  destruct (plain_assign os_new _ _ os_new_wf (digest_plain own)) as (comm0 & -> & Hcomm0). rewrite bind_ok.
  rewrite !(proj1 (vset_pair my _ _ _ Hmy)), !bind_ok.
  destruct (broadcast_two my out _ c (framed o ++ rest) _ os_new Hmy Hcomm0 os_new_wf) as (comm & E & Hcomm);
    [rewrite generic_hash_length by lia; lia|done..|].
  unfold start. rewrite E, bind_ok. clear E.
  destruct (broadcast_two my (out ++ framed (generic_hash 16 own 16)) _ o rest _ os_new Hmy Hopen0 os_new_wf Hown Huo Hlo) as (open & E & Hopen).
  rewrite E, bind_ok. clear E. rewrite <-app_assoc. fold end_. change (num_players end_) with 2. change (my_num end_) with my.
  exists mine, comm, open. split_and!; [done..| |]; intros m Em; [intros Hgm|]; change (seqZ 0 2) with [0; 1]; fold zeros;
    pose proof (plain_data _ _ Hmine) as Hgd; unfold opened; destruct Hmy as [-> | ->]; unfold pair_at; cbn [Z.eqb foldM].
  - rewrite (seed_own 0 _ _ _ _ _ mine) by done. destruct (xor_into zeros (os_data mine) len) as [s| |]; [|done..]. rewrite !bind_ok.
    rewrite (seed_other 0 _ _ _ _ _ 1 os_new comm open true m [mine; m]) by done. by destruct (xor_into s (os_data m) len).
  - rewrite (seed_other 1 _ _ _ _ _ 0 os_new comm open true m [m; mine]) by done.
    destruct (xor_into zeros (os_data m) len) as [s| |]; [|done..]. rewrite !bind_ok.
    rewrite (seed_own 1 _ _ _ _ _ mine) by done. by destruct (xor_into s (os_data mine) len).
  - rewrite (seed_own 0 _ _ _ _ _ mine) by done.
    rewrite (xor_into_plain zeros mine x len (length_replicate _ _) Hmine own_length).
    rewrite !bind_ok. by rewrite (seed_other 0 _ _ _ _ _ 1 os_new comm open false m [mine; m]).
  - by rewrite (seed_other 1 _ _ _ _ _ 0 os_new comm open false m [m; mine]).
Qed.
End party.

Lemma xor_zeros n x : length x = n → zip_with Z.lxor (replicate n 0) x = x.
Proof.
  intros Hl. revert n Hl. induction x as [|a x IH]; intros n <-; [done|]. cbn [length replicate zip_with]. rewrite IH by done.
  by rewrite Z.lxor_0_l.
Qed.

Lemma xor_octets_wf x y : block_wf x → block_wf y → block_wf (zip_with Z.lxor x y).
Proof. apply xor_block_wf. Qed.

(** ** A party and what the other one opens *)
Record seeder (G : PRNG) (key : list Block) (p : Z) (rnd : list Z) (len : Z) : Prop := {
  dr_pos : at_pos G key p;
  dr_key : schedule_wf key;
  dr_room : p + len + 256 < prng_limit;
  dr_len : 0 ≤ len < 2 ^ 31;
  dr_u8 : Forall is_u8 rnd;
  dr_length : length rnd = 16%nat;
}.

Definition wire (my : Z) (x rnd : list Z) : list Z :=
  framed (generic_hash 16 (opening my x rnd) 16) ++ framed (opening my x rnd).

Definition in_order (my : Z) (x y : list Z) : list Z := if my =? 0 then zip_with Z.lxor x y else zip_with Z.lxor y x.

Lemma opened_eq my key p rnd len out rest mine m y : plain mine (key_stream key p len) → plain m y → length y = Z.to_nat len →
  opened my key p rnd len out rest mine m
    = Ok (in_order my (key_stream key p len) y, mkTwo my (mkLink (out ++ wire my (key_stream key p len) rnd) rest)).
Proof.
  intros Hx Hy Hl. pose proof (key_stream_length key p len) as Hlx. unfold opened, in_order.
  destruct (my =? 0).
  - rewrite (xor_into_plain _ _ _ _ (length_replicate _ _) Hx Hlx), bind_ok, xor_zeros by done. by rewrite (xor_into_plain _ _ _ _ Hlx Hy Hl).
  - rewrite (xor_into_plain _ _ _ _ (length_replicate _ _) Hy Hl), bind_ok, xor_zeros by done. by rewrite (xor_into_plain _ _ _ _ Hl Hx Hlx).
Qed.

Lemma honest_party my G key p rnd len out y rnd' rest : my = 0 ∨ my = 1 → seeder G key p rnd len →
  Forall is_u8 y → length y = Z.to_nat len → Forall is_u8 rnd' → length rnd' = 16%nat →
  Create_Random_Seed G rnd (mkTwo my (mkLink out (wire (1 - my) y rnd' ++ rest))) len
    = Ok (in_order my (key_stream key p len) y, mkTwo my (mkLink (out ++ wire my (key_stream key p len) rnd) rest)).
Proof.
  intros Hmy [Hp Hk Hroom Hlen Hu Hr] Huy Hly Hu' Hr'. set (o := opening (1 - my) y rnd').
  assert (Hlo : length o = (20 + length y)%nat) by by apply opening_length.
  assert (Huo : Forall is_u8 o) by (unfold o, opening; rewrite !Forall_app; split_and!; [apply le_bytes_u8|done..]).
  destruct (party_seed my G key p rnd len out (generic_hash 16 o 16) o rest Hmy Hp Hk Hlen Hroom Hu Hr)
    as (mine & comm & open & Hmine & Hcomm & Hopen & Hrun & _);
    [apply generic_hash_u8|rewrite generic_hash_length by lia; lia|done|lia|].
  destruct (opening_accepted rnd' os_new [] comm open y (1 - my) plain_new Hcomm Hopen Hr') as (m & Em & Hm); [destruct Hmy; lia|lia|].
  unfold wire at 1. fold o. rewrite <-app_assoc. rewrite (Hrun m Em (plain_data _ _ Hm)). by apply opened_eq.
Qed.

(** C10. Two parties that run [PRNG::SeedGlobally] accept each other's openings and leave
    their generators at the start of the same stream, keyed with the sum of the seeds
    that they drew. *)
Theorem seed_globally_agrees g0 g1 G0 G1 key0 key1 p0 p1 rnd0 rnd1 :
  seeder G0 key0 p0 rnd0 SEED_SIZE → seeder G1 key1 p1 rnd1 SEED_SIZE →
  ∃ wire0 wire1 g0' g1', (∀ out0 out1 rest0 rest1,
      SeedGlobally g0 G0 rnd0 (mkTwo 0 (mkLink out0 (wire1 ++ rest0))) = Ok (g0', mkTwo 0 (mkLink (out0 ++ wire0) rest0)) ∧
      SeedGlobally g1 G1 rnd1 (mkTwo 1 (mkLink out1 (wire0 ++ rest1))) = Ok (g1', mkTwo 1 (mkLink (out1 ++ wire1) rest1))) ∧
    let key := aes_128_schedule (zip_with Z.lxor (key_stream key0 p0 16) (key_stream key1 p1 16)) in
    at_pos g0' key 0 ∧ at_pos g1' key 0.
Proof.
  intros D0 D1. change SEED_SIZE with 16 in *. set (x0 := key_stream key0 p0 16). set (x1 := key_stream key1 p1 16).
  assert (W0 : block_wf x0) by (split; [apply key_stream_length|apply key_stream_u8, D0]).
  assert (W1 : block_wf x1) by (split; [apply key_stream_length|apply key_stream_u8, D1]).
  destruct (SetSeed_spec g0 _ (xor_octets_wf _ _ W0 W1)) as (g0' & E0 & P0 & _).
  destruct (SetSeed_spec g1 _ (xor_octets_wf _ _ W0 W1)) as (g1' & E1 & P1 & _).
  exists (wire 0 x0 rnd0), (wire 1 x1 rnd1), g0', g1'. split; [|done]. intros out0 out1 rest0 rest1. unfold SeedGlobally.
  change SEED_SIZE with 16. split.
  - change (wire 1 x1 rnd1) with (wire (1 - 0) x1 rnd1). rewrite (honest_party 0 G0 key0 p0 rnd0 16 out0 x1 rnd1 rest0 (or_introl eq_refl) D0) by first [apply W1|apply D1].
    rewrite bind_ok. unfold in_order. cbn [Z.eqb]. fold x0. by rewrite E0, bind_ok.
  - change (wire 0 x0 rnd0) with (wire (1 - 1) x0 rnd0). rewrite (honest_party 1 G1 key1 p1 rnd1 16 out1 x0 rnd0 rest1 (or_intror eq_refl) D1) by first [apply W0|apply D0].
    rewrite bind_ok. unfold in_order. cbn [Z.eqb]. fold x1. by rewrite E1, bind_ok.
Qed.
(** A loop that never throws and that some element always takes out of range. *)
Lemma foldM_UB {A B} (f : B → A → outcome B) l b a : a ∈ l → (∀ b a e, f b a ≠ Throw e) → (∀ b, f b a = UB) → foldM f b l = UB.
Proof.
  intros Ha Hn Hf. revert b. induction l as [|a' l IH]; [by apply not_elem_of_nil in Ha|]. intros b. cbn [foldM].
  apply elem_of_cons in Ha as [<-|Ha]; [by rewrite Hf|].
  destruct (f b a') as [b'|e|] eqn:E; [by apply IH|by apply Hn in E|done].
Qed.

Lemma xor_into_short seed data len : Z.of_nat (length data) < len → xor_into seed data len = UB.
Proof.
  intros Hl. apply (foldM_UB _ _ _ (Z.of_nat (length data))).
  - apply elem_of_seqZ. lia.
  - intros s j e. unfold vget, vset. destruct (j <? 0); [done|]. destruct (s !! _); [|done]. rewrite bind_ok.
    destruct (data !! _); [|done]. rewrite bind_ok. by destruct (_ <=? _).
  - intros s. unfold vget. rewrite (proj2 (Z.ltb_ge _ 0)), Nat2Z.id by lia. destruct (s !! _); [|done]. rewrite bind_ok.
    by rewrite lookup_ge_None_2.
Qed.

(** The array of a stream that was empty. *)
Lemma append_new_size src off l m : append_from os_new src off l = Ok m → 0 ≤ l < 2 ^ 62 → Z.of_nat (length (os_data m)) = 2 * l.
Proof.
  intros E Hl. unfold append_from in E. change (append_ptr os_new l) with (append_raw os_new l) in E. unfold append_raw in E.
  change (os_len os_new) with 0 in E. change (mxlen os_new) with 0 in E. rewrite Z.add_0_l, u64_id in E by lia.
  destruct (Z.ltb_spec 0 l) as [H0l|]; [|assert (l = 0) as -> by lia].
  - unfold os_resize in E. change (mxlen os_new) with 0 in E. rewrite (proj2 (Z.ltb_ge l 0)), u64_id in E by lia.
    destruct (resize_precise_spec os_new (2 * l) os_new_wf) as (d & Er & Hd & _ & _); [cbn; lia|lia|].
    rewrite Er, !bind_ok in E.
    apply bind_Ok_inv in E as (x & _ & E). unfold poke in E. apply bind_Ok_inv in E as (d' & Ew & [= <-]).
    cbn. apply mem_write_length in Ew. cbn in Ew. lia.
  - rewrite !bind_ok in E. apply bind_Ok_inv in E as (x & _ & E). unfold poke in E. apply bind_Ok_inv in E as (d' & Ew & [= <-]).
    cbn. apply mem_write_length in Ew. cbn in Ew. lia.
Qed.

(** What a party makes of any opening: one that does not match the commitment is
    refused; one of the right length gives the sum; the length is not checked, and the
    array of one that is shorter than half of it is read past its end. *)
Theorem create_random_seed_any_opening my G key p rnd len out c o rest : my = 0 ∨ my = 1 → seeder G key p rnd len →
  Forall is_u8 c → Z.of_nat (length c) < 2 ^ 32 → Forall is_u8 o → 20 ≤ Z.of_nat (length o) < 2 ^ 32 → le_val (take 4 o) < 2 ^ 31 →
  let x := key_stream key p len in
  let y := take (length o - 20) (drop 4 o) in
  let result := Create_Random_Seed G rnd (mkTwo my (mkLink out (framed c ++ framed o ++ rest))) len in
  (¬ accepts c o (1 - my) → result = Throw "invalid_commitment") ∧
  (accepts c o (1 - my) → length y = Z.to_nat len →
     result = Ok (in_order my x y, mkTwo my (mkLink (out ++ wire my x rnd) rest))) ∧
  (accepts c o (1 - my) → 2 * Z.of_nat (length y) < len → result = UB).
Proof.
  intros Hmy [Hp Hk Hroom Hlen Hu Hr] Huc Hlc Huo Hlo Hv x y result.
  assert (Hy : length y = (length o - 20)%nat) by (unfold y; rewrite length_take, length_drop; lia).
  destruct (party_seed my G key p rnd len out c o rest Hmy Hp Hk Hlen Hroom Hu Hr Huc Hlc Huo ltac:(lia))
    as (mine & comm & open & Hmine & Hcomm & Hopen & Hrun & Hbad). fold x in Hmine.
  destruct (Open_eq os_new comm open [] c o (1 - my) plain_new Hcomm Hopen) as (m' & Em' & E); [lia|done|lia|].
  destruct (Open_read os_new open [] o plain_new Hopen) as (m & Em & Hm); [lia..|]. fold y in Hm.
  rewrite Em in Em'. subst m'. rewrite bind_ok in E.
  split; [|split]; intros Ha; [rewrite bool_decide_eq_false_2 in E by done|rewrite bool_decide_eq_true_2 in E by done..].
  - by apply (Hbad os_new).
  - intros Hl. unfold result. rewrite (Hrun m E (plain_data _ _ Hm)). by apply opened_eq.
  - intros Hl. unfold result. rewrite (Hrun m E (plain_data _ _ Hm)). unfold opened.
    change (reset_write_head os_new) with os_new in Em. pose proof (plain_len _ _ Hopen) as Hol. change SEED_SIZE with 16 in Em.
    rewrite u64_id in Em by (cbn; lia). apply append_new_size in Em; [|lia]. destruct (my =? 0).
    + rewrite (xor_into_plain _ _ _ _ (length_replicate _ _) Hmine (key_stream_length _ _ _)), bind_ok. by rewrite xor_into_short by lia.
    + by rewrite xor_into_short by lia.
Qed.
(** ** [AllCommitments] of two parties *)
Lemma all_check_spec comms opens player message x comm c open o msgs : plain message x → vget comms player = Ok comm →
  plain comm c → vget opens player = Ok open → plain open o →
  all_check (mkAll comms opens msgs) player message =
    (if bool_decide (generic_hash 32 (committed player x o) 32 = c) then Ok tt else Throw "invalid_commitment").
Proof.
  intros Hm Ec Hc Eo Ho. unfold all_check. cbn [all_comms all_opens]. rewrite Ec, bind_ok, Eo, bind_ok.
  destruct (commitment_check_spec player message comm open x c o Hm Hc Ho) as (r & ->). by case_bool_decide.
Qed.

(** [AllCommitments::open] of the two parties: the second one checks what the first
    one opens; the first one takes any message with any randomness. *)
Theorem all_open_checks_below my message x own_comm comm c own_open open0 opn out m o rest :
  my = 0 ∨ my = 1 → plain message x → Z.of_nat (length x) < 2 ^ 32 → plain comm c → plain own_open opn →
  Z.of_nat (length opn) < 2 ^ 32 → os_wf open0 → Forall is_u8 m → Z.of_nat (length m) < 2 ^ 32 → Forall is_u8 o →
  Z.of_nat (length o) < 2 ^ 32 →
  let a := mkAll (pair_at my own_comm comm) (pair_at my own_open open0) [] in
  ∃ mine theirs open, plain mine x ∧ plain theirs m ∧ plain open o ∧
    all_open_message (mkTwo my (mkLink out (framed m ++ framed o ++ rest))) a message =
      (if decide (my = 0 ∨ generic_hash 32 (le_bytes 4 0 ++ m ++ o) 32 = c)
       then Ok (mkAll (pair_at my own_comm comm) (pair_at my own_open open) (pair_at my mine theirs),
                mkTwo my (mkLink (out ++ framed x ++ framed opn) rest))
       else Throw "invalid_commitment").
Proof.
  intros Hmy Hx Hlx Hc Hop Hlop Hw Hum Hlm Huo Hlo a. unfold all_open_message. set (P := mkTwo my _).
  change (num_players P) with 2. change (my_num P) with my. cbn [a all_messages all_comms all_opens].
  assert (Epair : take (Z.to_nat 2) ([] : list octetStream) ++ replicate (Z.to_nat 2 - length ([] : list octetStream)) os_new = pair_at my os_new os_new)
    by (unfold pair_at; by destruct (my =? 0)). rewrite Epair. clear Epair.
  unfold vupdate. rewrite (proj1 (vget_pair my _ _ Hmy)), bind_ok.
  destruct (plain_assign os_new _ _ os_new_wf Hx) as (mine & -> & Hmine). rewrite bind_ok, (proj1 (vset_pair my _ _ _ Hmy)), bind_ok.
  destruct (broadcast_two my out _ m (framed o ++ rest) _ os_new Hmy Hmine os_new_wf Hlx Hum Hlm) as (theirs & E & Ht).
  unfold P. rewrite E, bind_ok. clear E. unfold all_open. cbn [all_messages all_comms all_opens].
  destruct (broadcast_two my (out ++ framed x) _ o rest _ open0 Hmy Hop Hw Hlop Huo Hlo) as (open & E & Ho).
  rewrite E, !bind_ok. clear E. rewrite <-app_assoc. exists mine, theirs, open. split_and!; [done..|]. cbn [all_messages].
  destruct Hmy as [-> | ->].
  - by rewrite decide_True by by left.
  - match goal with |- context [seqZ 0 ?n] => change (seqZ 0 n) with [0] end. cbn [foldM]. change (vget (pair_at 1 mine theirs) 0) with (Ok theirs). rewrite bind_ok.
    rewrite (all_check_spec (pair_at 1 own_comm comm) (pair_at 1 own_open open) 0 _ _ comm c open o _ Ht eq_refl Hc eq_refl Ho). unfold committed.
    case_bool_decide as E; [by rewrite decide_True by by right|]. by rewrite decide_False by (intros [?|?]; done).
Qed.
End seeds.

(** ** Instances *)
#[local] Existing Instances toy_hash toy_hash_laws.

Lemma zero_draws len : 0 ≤ len < 2 ^ 31 → ∃ G key, seeder G key 0 (replicate 16 9) len.
Proof.
  intros Hl. destruct (SetSeed_spec zero_prng (replicate 16 0)) as (G & _ & HG & _); [split; [done|by repeat constructor]|].
  exists G, (aes_128_schedule (replicate 16 0)). split; [done|by destruct HG as (b & [] & _)|unfold prng_limit; lia|done|by apply sixteen_u8|done].
Qed.

Lemma seed_globally_agrees_witness : ∃ G wire0 wire1 g key,
  SeedGlobally zero_prng G (replicate 16 9) (mkTwo 0 (mkLink [] (wire1 ++ []))) = Ok (g, mkTwo 0 (mkLink wire0 [])) ∧ at_pos g key 0.
Proof.
  destruct (zero_draws SEED_SIZE) as (G & key & D); [done|]. exists G.
  destruct (seed_globally_agrees zero_prng zero_prng G G key key 0 0 (replicate 16 9) (replicate 16 9) D D)
    as (wire0 & wire1 & g & g' & E & Hg & _).
  exists wire0, wire1, g. eexists. split; [exact (proj1 (E [] [] [] []))|exact Hg].
Defined.

(** An opening of one octet for a seed of sixteen. *)
Lemma create_random_seed_any_opening_witness : ∃ G,
  Create_Random_Seed G (replicate 16 9) (mkTwo 0 (mkLink []
    (framed (generic_hash 16 (opening 1 [5] (replicate 16 9)) 16) ++ framed (opening 1 [5] (replicate 16 9)) ++ []))) 16 = UB.
Proof.
  destruct (zero_draws 16) as (G & key & D); [done|]. exists G.
  destruct (create_random_seed_any_opening 0 G key 0 (replicate 16 9) 16 [] (generic_hash 16 (opening 1 [5] (replicate 16 9)) 16)
    (opening 1 [5] (replicate 16 9)) [] (or_introl eq_refl) D) as (_ & _ & Hub);
    [apply generic_hash_u8|vm_compute; reflexivity|by repeat constructor|vm_compute; split; [discriminate|reflexivity]|vm_compute; reflexivity|].
  apply Hub; [split; reflexivity|vm_compute; reflexivity].
Defined.

(** The first party takes [5] for a commitment to something else; the second one does not. *)
Lemma all_open_checks_below_witness : ∃ a0 P0,
  all_open_message (mkTwo 0 (mkLink [] (framed [5] ++ framed [6] ++ []))) (mkAll [os_new; plain_stream [1]] [os_new; os_new] []) os_new = Ok (a0, P0) ∧
  all_open_message (mkTwo 1 (mkLink [] (framed [5] ++ framed [6] ++ []))) (mkAll [plain_stream [1]; os_new] [os_new; os_new] []) os_new
    = Throw "invalid_commitment".
Proof.
  assert (Hc : plain (plain_stream [1]) [1]) by (apply plain_stream_plain; [by repeat constructor|done]).
  assert (U : ∀ b, is_u8 b → Forall is_u8 [b]) by (intros b Hb; by apply (Forall_replicate is_u8 1 b)).
  destruct (all_open_checks_below 0 os_new [] os_new (plain_stream [1]) [1] os_new os_new [] [] [5] [6] []
    (or_introl eq_refl) plain_new eq_refl Hc plain_new eq_refl os_new_wf (U 5 ltac:(done)) eq_refl (U 6 ltac:(done)) eq_refl)
    as (m0 & t0 & o0 & _ & _ & _ & E0).
  destruct (all_open_checks_below 1 os_new [] os_new (plain_stream [1]) [1] os_new os_new [] [] [5] [6] []
    (or_intror eq_refl) plain_new eq_refl Hc plain_new eq_refl os_new_wf (U 5 ltac:(done)) eq_refl (U 6 ltac:(done)) eq_refl)
    as (m1 & t1 & o1 & _ & _ & _ & E1).
  rewrite decide_True in E0 by (left; reflexivity).
  rewrite decide_False in E1 by (intros [E|E]; vm_compute in E; discriminate).
  eexists _, _. split; [exact E0|exact E1].
Defined.
