(* ===== verification/BroadcastProps.v ===== *)
(** * Properties of the broadcast

    The exchanges of [MultiPlayer::Broadcast_Receive] give every party the message of
    each other one, and [Check_Broadcast] accepts exactly when all hashes agree. *)

From S2P Require Import Prelude Memory OctetStream OctetProps Exchange ExchangeProps Xor Block Aes YaoKey Random BitVector Square128 Gf2n OtMatrix OtExtension OtProps Commit CommitProps SeedProps.

(** ** Vectors by index *)
Lemma vget_vset {A} (l l' : list A) i x j : vset l i x = Ok l' → vget l' j = if j =? i then Ok x else vget l j.
Proof.
  unfold vset. destruct (Z.ltb_spec i 0); [done|]. destruct (Z.leb_spec (Z.of_nat (length l)) i); [done|]. intros [= <-].
  unfold vget. destruct (Z.eqb_spec j i) as [->|Hne].
  - rewrite (proj2 (Z.ltb_ge i 0)) by done. by rewrite list_lookup_insert_eq by lia.
  - destruct (Z.ltb_spec j 0); [done|]. by rewrite list_lookup_insert_ne by lia.
Qed.

Lemma vget_range {A} (l : list A) i : 0 ≤ i < Z.of_nat (length l) → ∃ x, vget l i = Ok x.
Proof. intros Hi. destruct (lookup_in_range l i Hi) as [x E]. exists x. apply vget_Ok; [lia|done]. Qed.

Lemma vset_range {A} (l : list A) i x : 0 ≤ i < Z.of_nat (length l) → ∃ l', vset l i x = Ok l' ∧ length l' = length l.
Proof. intros Hi. rewrite vset_Ok by done. eexists. split; [done|apply length_insert]. Qed.

(** The rounds visit every other party once. *)
Lemma round_to my n i j : 0 ≤ my < n → 0 ≤ j < n → 1 ≤ i < n → (my + i) mod n = j ↔ (j - my) mod n = i.
Proof.
  intros Hm Hj Hi. split; intros <-.
  - rewrite Zminus_mod_idemp_l. replace (my + i - my) with i by lia. by apply Z.mod_small; lia.
  - rewrite Zplus_mod_idemp_r. replace (my + (j - my)) with j by lia. apply Z.mod_small. lia.
Qed.

Lemma round_from my n i j : 0 ≤ my < n → 0 ≤ j < n → 1 ≤ i < n → (my + n - i) mod n = j ↔ (my - j) mod n = i.
Proof.
  intros Hm Hj Hi. replace (my + n - i) with (my - i + 1 * n) by lia. rewrite Z.mod_add by lia. split; intros <-.
  - rewrite Zminus_mod_idemp_r. replace (my - (my - i)) with i by lia. by apply Z.mod_small; lia.
  - rewrite Zminus_mod_idemp_r. replace (my - (my - j)) with j by lia. apply Z.mod_small. lia.
Qed.

Lemma other_round my n j d : 0 ≤ my < n → 0 ≤ j < n → d = (j - my) mod n ∨ d = (my - j) mod n →
  (1 <=? d) && (d <=? n - 1) = negb (j =? my).
Proof.
  intros Hm Hj Hd. assert (0 ≤ d < n) by (destruct Hd as [-> | ->]; apply Z.mod_pos_bound; lia).
  rewrite (proj2 (Z.leb_le d (n - 1))), andb_true_r by lia. destruct (Z.eqb_spec j my) as [->|Hne].
  - apply Z.leb_gt. destruct Hd as [-> | ->]; rewrite Z.sub_diag, Zmod_0_l; lia.
  - apply Z.leb_le. assert (d ≠ 0); [|lia]. intros ->.
    destruct Hd as [Hd|Hd]; symmetry in Hd; (apply Z.mod_divide in Hd as [k Hk]; [|lia]); assert (k = 0) as -> by nia; lia.
Qed.

Section broadcast.
Context `{Heap} `{GenericHash} `{!GenericHashLaws}.
Context (my n : Z) (Hmy : 0 ≤ my < n).

(** What round [i] of [k] has left. *)
Definition passed (d : Z) (k : nat) : bool := (1 <=? d) && (d <=? Z.of_nat k).

Lemma passed_S d k : passed d (S k) = passed d k || (d =? Z.of_nat k + 1).
Proof. unfold passed. destruct (Z.leb_spec 1 d), (Z.leb_spec d (Z.of_nat (S k))), (Z.leb_spec d (Z.of_nat k)), (Z.eqb_spec d (Z.of_nat k + 1)); cbn; (done || lia). Qed.

Definition sent_on (x : list Z) (l : Link) : Link := mkLink (l_out l ++ x) (l_in l).

Lemma broadcast_send_spec x links : Z.of_nat (length links) = n →
  ∃ links', foldM (broadcast_send my n x) links (seqZ 1 (n - 1)) = Ok links' ∧ Z.of_nat (length links') = n ∧
    ∀ j l, 0 ≤ j < n → vget links j = Ok l → vget links' j = Ok (if j =? my then l else sent_on x l).
Proof.
  intros Hn. destruct (foldM_inv (λ k ls, Z.of_nat (length ls) = n ∧ ∀ j l, 0 ≤ j < n → vget links j = Ok l →
      vget ls j = Ok (if passed ((j - my) mod n) k then sent_on x l else l))
    (broadcast_send my n x) (seqZ 1 (n - 1)) links) as (links' & E & Hl & Hv).
  - split; [done|]. intros j l _ E. unfold passed. destruct (Z.leb_spec 1 ((j - my) mod n)); [|done].
    by rewrite (proj2 (Z.leb_gt _ 0)) by lia.
  - intros k i ls [-> Hk]%lookup_seqZ [Hl Hv]. unfold broadcast_send, vupdate.
    assert (Hj : 0 ≤ (my + (1 + Z.of_nat k)) mod n < n) by (apply Z.mod_pos_bound; lia).
    destruct (vget_range links _ ltac:(rewrite Hn; exact Hj)) as (l0 & E0). rewrite (Hv _ _ Hj E0), bind_ok.
    pose proof (proj1 (round_to my n (1 + Z.of_nat k) _ Hmy Hj ltac:(lia)) eq_refl) as Er. rewrite Er.
    assert (Hp : passed (1 + Z.of_nat k) k = false) by (unfold passed; rewrite (proj2 (Z.leb_gt _ (Z.of_nat k))) by lia; apply andb_false_r).
    rewrite Hp, bind_ok. destruct (vset_range ls _ (sent_on x l0) ltac:(rewrite Hl; exact Hj)) as (ls' & E' & Hl'). exists ls'.
    split; [exact E'|]. split; [lia|]. intros j l Hjr Ej. rewrite (vget_vset _ _ _ _ _ E'), passed_S.
    destruct (Z.eqb_spec j ((my + (1 + Z.of_nat k)) mod n)) as [->|Hne].
    + rewrite Er, (proj2 (Z.eqb_eq _ _)), orb_true_r by lia. rewrite E0 in Ej. by injection Ej as <-.
    + rewrite (proj2 (Z.eqb_neq _ _)), orb_false_r; [by apply Hv|]. intros E1. apply Hne. symmetry. apply round_to; [done..|lia|lia].
  - exists links'. split; [done|]. split; [done|]. intros j l Hj Ej. rewrite (Hv j l Hj Ej). rewrite length_seqZ. unfold passed.
    rewrite Z2Nat.id by lia. rewrite (other_round my n j) by (done || by left). by destruct (j =? my).
Qed.
(** What the other parties send. *)
Context (m out rest : Z → list Z) (Hu : ∀ j, Forall is_u8 (m j)) (Hm : ∀ j, Z.of_nat (length (m j)) < 2 ^ 32).

Definition waiting (links : list Link) : Prop := Z.of_nat (length links) = n ∧
  ∀ j, 0 ≤ j < n → j ≠ my → vget links j = Ok (mkLink (out j) (framed (m j) ++ rest j)).

Definition arrived (o : list octetStream) (links : list Link) (j : Z) : Prop :=
  ∃ r, vget o j = Ok r ∧ plain r (m j) ∧ vget links j = Ok (mkLink (out j) (rest j)).

Lemma broadcast_receive_spec len o links : Z.of_nat (length o) = n → waiting links → 0 ≤ len < 2 ^ 32 →
  (∀ j, 0 ≤ j < n → j ≠ my → vget o j = Ok os_new) →
  ∃ o' links', foldM (broadcast_receive my n len) (o, links) (seqZ 1 (n - 1)) = Ok (o', links') ∧
    vget o' my = vget o my ∧ Z.of_nat (length o') = n ∧ (∀ j, 0 ≤ j < n → j ≠ my → arrived o' links' j).
Proof.
  intros Ho [Hn Hl] Hlen Hnew. destruct (foldM_inv (λ k '(os, ls), Z.of_nat (length os) = n ∧ Z.of_nat (length ls) = n ∧
      vget os my = vget o my ∧ ∀ j, 0 ≤ j < n → j ≠ my →
        if passed ((my - j) mod n) k then arrived os ls j else vget os j = vget o j ∧ vget ls j = vget links j)
    (broadcast_receive my n len) (seqZ 1 (n - 1)) (o, links)) as ([o' links'] & E & Ho' & Hl' & Hmine & Hv).
  - split; [done|]. split; [done|]. split; [done|]. intros j _ _. unfold passed. destruct (Z.leb_spec 1 ((my - j) mod n)); [|done].
    by rewrite (proj2 (Z.leb_gt _ 0)) by lia.
  - intros k i [os ls] [-> Hk]%lookup_seqZ (Ho' & Hl' & Hmine & Hv). unfold broadcast_receive.
    set (j0 := (my + n - (1 + Z.of_nat k)) mod n).
    assert (Hj : 0 ≤ j0 < n) by (apply Z.mod_pos_bound; lia).
    pose proof (proj1 (round_from my n (1 + Z.of_nat k) j0 Hmy Hj ltac:(lia)) eq_refl) as Er.
    assert (Hne0 : j0 ≠ my) by (intros E0; rewrite E0, Z.sub_diag, Zmod_0_l in Er; lia).
    pose proof (Hv j0 Hj Hne0) as Hv0. rewrite Er in Hv0.
    assert (Hp : passed (1 + Z.of_nat k) k = false) by (unfold passed; rewrite (proj2 (Z.leb_gt _ (Z.of_nat k))) by lia; apply andb_false_r).
    rewrite Hp in Hv0. destruct Hv0 as [-> ->]. rewrite Hl, Hnew by done. rewrite !bind_ok. cbn [l_in l_out].
    destruct (receive_exchange_spec (m j0) (rest j0) len (Hu j0) (Hm j0) Hlen) as (r & -> & Hr). rewrite bind_ok.
    destruct (vset_range os j0 r ltac:(rewrite Ho'; exact Hj)) as (os' & Eo & Hlo). rewrite Eo, bind_ok.
    destruct (vset_range ls j0 (mkLink (out j0) (rest j0)) ltac:(rewrite Hl'; exact Hj)) as (ls' & El & Hll). rewrite El, bind_ok.
    eexists. split; [done|]. split; [lia|]. split; [lia|]. split.
    { rewrite (vget_vset _ _ _ _ _ Eo), (proj2 (Z.eqb_neq _ _)) by done. done. }
    intros j Hjr Hne. rewrite passed_S. unfold arrived. rewrite (vget_vset _ _ _ _ j Eo), (vget_vset _ _ _ _ j El).
    destruct (Z.eqb_spec j j0) as [->|Hj0].
    + rewrite Er, (proj2 (Z.eqb_eq _ _)), orb_true_r by lia. by exists r.
    + rewrite (proj2 (Z.eqb_neq _ _)), orb_false_r; [by apply Hv|]. intros E1. apply Hj0. symmetry. apply round_from; [done..|lia|lia].
  - exists o', links'. split; [done|]. split; [done|]. split; [done|]. intros j Hj Hne. specialize (Hv j Hj Hne).
    rewrite length_seqZ in Hv. unfold passed in Hv. rewrite Z2Nat.id in Hv by lia. rewrite (other_round my n j) in Hv by (done || by right).
    by rewrite (proj2 (Z.eqb_neq _ _)) in Hv by done.
Qed.

End broadcast.

Section check.
Context `{Heap} `{GenericHash} `{!GenericHashLaws}.
Context (my n : Z) (Hmy : 0 ≤ my < n) (m out rest : Z → list Z).
Context (Hu : ∀ j, Forall is_u8 (m j)) (Hm : ∀ j, Z.of_nat (length (m j)) < 2 ^ 32).

(** All exchanges of a broadcast. *)
Lemma unchecked_broadcast_spec ctx o links mine x : Z.of_nat (length o) = n → waiting my n m out rest links →
  (∀ j, 0 ≤ j < n → j ≠ my → vget o j = Ok os_new) → vget o my = Ok mine → plain mine x → Z.of_nat (length x) < 2 ^ 32 →
  ∃ o' links', unchecked_broadcast (mkMulti my links ctx) o = Ok (o', mkMulti my links' ctx) ∧ vget o' my = Ok mine ∧
    Z.of_nat (length o') = n ∧ (∀ j, 0 ≤ j < n → j ≠ my → arrived m (λ j, out j ++ framed x) rest o' links' j).
Proof.
  intros Ho [Hn Hl] Hnew Emine Hx Hlx. unfold unchecked_broadcast, multi_players. cbn [multi_links multi_num multi_ctx].
  rewrite Hn, Ho, Z.eqb_refl. cbn [negb]. rewrite Emine, bind_ok, (os_Send_plain _ _ Hx Hlx), bind_ok.
  destruct (broadcast_send_spec my n Hmy (framed x) links Hn) as (links1 & -> & Hn1 & Hv1). rewrite bind_ok.
  pose proof (plain_len _ _ Hx) as Hlen.
  destruct (broadcast_receive_spec my n Hmy m (λ j, out j ++ framed x) rest Hu Hm (os_len mine) o links1 Ho) as (o' & links' & -> & E & Ho' & Ha);
    [|lia|done|].
  - split; [done|]. intros j Hj Hne. rewrite (Hv1 j _ Hj (Hl j Hj Hne)), (proj2 (Z.eqb_neq _ _)) by done. done.
  - rewrite bind_ok. exists o', links'. split; [done|]. split; [by rewrite E|]. by split.
Qed.

(** Whether all hashes are the own one. *)
Definition all_agree (d : list Z) : bool := forallb (λ j, (j =? my) || bool_decide (m j = d)) (seqZ 0 n).

(** The loop that compares. *)
Lemma compare_all h l d mine : (∀ j, j ∈ l → 0 ≤ j < n) → vget h my = Ok mine → plain mine d →
  (∀ j, 0 ≤ j < n → j ≠ my → ∃ r, vget h j = Ok r ∧ plain r (m j)) →
  foldM (compare_step my h) tt l
    = if forallb (λ j, (j =? my) || bool_decide (m j = d)) l then Ok tt else Throw "broadcast_invalid".
Proof.
  intros Hl Eh Hd Hr.
  assert (Es : ∀ j, 0 ≤ j < n → compare_step my h tt j = if (j =? my) || bool_decide (m j = d) then Ok tt else Throw "broadcast_invalid").
  { intros j Hj. unfold compare_step. destruct (Z.eqb_spec j my) as [->|Hne]; [done|]. destruct (Hr j Hj Hne) as (r & -> & Hp).
    rewrite bind_ok, Eh, bind_ok, (plain_equals _ _ _ _ Hp Hd), bind_ok. done. }
  induction l as [|j l IH]; [done|]. cbn [foldM forallb]. rewrite Es by (apply Hl; by left).
  destruct (_ || _); [|done]. rewrite bind_ok. apply IH. intros j' Hj. apply Hl. by right.
Qed.

(** C18. [Check_Broadcast] sends the hash of all broadcasts to every other party and
    accepts exactly when it receives that hash from each of them; with a counter of zero
    it accepts without asking anybody. *)
Theorem check_broadcast_compares ctx links : waiting my n m out rest links →
  (hash_size ctx = 0 → Check_Broadcast (mkMulti my links ctx) = Ok (mkMulti my links ctx)) ∧
  (hash_size ctx ≠ 0 →
     let d := generic_hash 32 (hash_data ctx) 32 in
     ∃ links', (∀ j, 0 ≤ j < n → j ≠ my → vget links' j = Ok (mkLink (out j ++ framed d) (rest j))) ∧
       Check_Broadcast (mkMulti my links ctx) =
         (if all_agree d then Ok (mkMulti my links' hash_reset) else Throw "broadcast_invalid")).
Proof.
  intros Hw. pose proof Hw as [Hn _]. unfold Check_Broadcast. cbn [multi_ctx multi_num]. split; intros Hs.
  - by rewrite Hs.
  - rewrite (proj2 (Z.eqb_neq _ _)) by done. unfold multi_players. cbn [multi_links]. rewrite Hn. set (d := generic_hash 32 _ 32).
    destruct (hash_final_new ctx) as (f & -> & Hf). rewrite bind_ok. fold d in Hf.
    destruct (plain_concat os_new [] f d plain_new Hf) as (mine & -> & Hmine); [unfold d; rewrite generic_hash_length by lia; done|].
    rewrite bind_ok. cbn [app] in Hmine. destruct (vset_range (replicate (Z.to_nat n) os_new) my mine) as (h & Eh & Hlh);
      [rewrite length_replicate; lia|]. rewrite Eh, bind_ok. rewrite length_replicate in Hlh.
    destruct (unchecked_broadcast_spec ctx h links mine d) as (h' & links' & -> & Emine & _ & Ha); [lia|done| | |done|
      unfold d; rewrite generic_hash_length by lia; done|].
    { intros j Hj Hne. rewrite (vget_vset _ _ _ _ _ Eh), (proj2 (Z.eqb_neq _ _)) by done.
      apply vget_Ok; [lia|]. apply lookup_replicate_2. lia. }
    { by rewrite (vget_vset _ _ _ _ _ Eh), Z.eqb_refl. }
    rewrite bind_ok. exists links'. split; [intros j Hj Hne; by destruct (Ha j Hj Hne) as (r & _ & _ & E)|].
    cbn [multi_num]. rewrite (compare_all h' (seqZ 0 n) d mine); [|..].
    + unfold all_agree. by destruct (forallb _ _).
    + intros j Hj. apply elem_of_seqZ in Hj. lia.
    + done.
    + done.
    + intros j Hj Hne. destruct (Ha j Hj Hne) as (r & E & Hr & _). by exists r.
Qed.

(** The counter is an [unsigned]: after [2 ^ 32] octets nothing is compared. *)
Lemma hash_size_wraps x links : Z.of_nat (length x) = 2 ^ 32 →
  Check_Broadcast (mkMulti my links (hash_update hash_reset x)) = Ok (mkMulti my links (hash_update hash_reset x)).
Proof.
  intros Hl. unfold Check_Broadcast. cbn [multi_ctx hash_update hash_size hash_reset]. rewrite Hl. done.
Qed.
End check.

(** ** Instances *)
#[local] Existing Instances toy_hash toy_hash_laws.

(** Three parties that have broadcast the same. *)
Lemma check_broadcast_compares_witness : ∃ links',
  let d := generic_hash 32 [1; 2] 32 in
  Check_Broadcast (mkMulti 0 [mkLink [] []; mkLink [7] (framed d ++ []); mkLink [7] (framed d ++ [])] (mkHash [1; 2] 2))
    = Ok (mkMulti 0 links' hash_reset).
Proof.
  set (d := generic_hash 32 [1; 2] 32).
  assert (Hu : Forall is_u8 d) by apply generic_hash_u8.
  destruct (check_broadcast_compares 0 3 ltac:(split; [discriminate|reflexivity]) (λ _, d) (λ _, [7]) (λ _, [])
    (λ _, Hu) (λ _, eq_refl) (mkHash [1; 2] 2) [mkLink [] []; mkLink [7] (framed d ++ []); mkLink [7] (framed d ++ [])])
    as (_ & Hc).
  - split; [reflexivity|]. intros j Hj Hne. assert (Hj' : j = 1 ∨ j = 2) by lia. destruct Hj' as [-> | ->]; reflexivity.
  - destruct (Hc ltac:(discriminate)) as (links' & _ & E). exists links'. exact E.
Defined.
