(* ===== verification/OtAgree.v ===== *)
(** * A whole run of the OT extension

    [OTExtensionWithMatrix::extend] with [protocol_agreement] before it and the common
    generator of the check within it: [Bundle] of [Tools/Bundle.h] and [GlobalPRNG] of
    [Tools/random.h], between two parties. *)

From S2P Require Import Prelude Memory OctetStream OctetProps Exchange ExchangeProps Xor Block Aes YaoKey Random BitVector Square128 Gf2n OtMatrix OtExtension OtProps Commit CommitProps SeedProps.

(** ** The code *)
Section code.
Context `{Heap} `{GenericHash}.

(** [octetStream(const string&)] *)
Definition os_of_string (x : list Z) : outcome octetStream :=
  d ← new_array (Z.of_nat (length x)); os_append (mkOs 0 0 d bits0 bits0) x.

(** [Bundle::compare]; the parties broadcast once more. *)
Definition bundle_compare {T} `{!PlayerBase T} (P : T) (b : list octetStream) : outcome T :=
  '(b, P) ← Broadcast_Receive P b;
  _ ← foldM (λ _ i,
      os ← vget b i; mine ← vget b (my_num P); eq ← equals os mine;
      if eq : bool then Ok tt else Throw "mismatch among parties") tt (seqZ 0 (Z.of_nat (length b)));
  Ok P.

(** "KOS15" *)
Definition KOS15 : list Z := [75; 79; 83; 49; 53].

(** [protocol_agreement] of a party that was compiled for [protocol]; nothing sets
    [agreed]. *)
Definition protocol_agreement {T} `{!PlayerBase T} (protocol : list Z) (agreed : bool) (P : T) : outcome T :=
  if agreed then Ok P
  else
    let v := replicate (Z.to_nat (num_players P)) os_new in
    s ← os_of_string protocol;
    b ← vupdate v (my_num P) (λ x, assign x s);
    '(b, P) ← Broadcast_Receive P b;
    match bundle_compare P b with
    | Throw "mismatch among parties" => Throw "exit"
    | r => r
    end.

(** [GlobalPRNG(P)]; [G] and [rnd] are what the operating system gives. *)
Definition GlobalPRNG (my : Z) (G : PRNG) (rnd : list Z) (l : Link) : outcome (PRNG * Link) :=
  '(g, P) ← SeedGlobally prng_new G rnd (mkTwo my l); Ok (g, two_link P).

(** [extend] when KOS15 is compiled in. *)
Definition extend (clmul : Z → Key → Key → Key) (junk : Z → list (list Z)) (o : OTExt) (P : TwoPartyPlayer)
    (G : PRNG) (rnd : list Z) (nOTs_requested : Z) (newReceiverInput : BitVector) : outcome (OTExt * TwoPartyPlayer) :=
  P ← protocol_agreement KOS15 false P;
  '(o, l) ← extend_correlated clmul junk o (two_link P) (GlobalPRNG (two_num P) G rnd) nOTs_requested newReceiverInput;
  o ← hash_outputs o nOTs_requested true;
  Ok (o, mkTwo (two_num P) l).
End code.

(** ** Two parties *)
Section two.
Context `{Heap} `{GenericHash} `{!GenericHashLaws}.

Lemma os_of_string_plain x : Forall is_u8 x → Z.of_nat (length x) < 2 ^ 61 → ∃ os, os_of_string x = Ok os ∧ plain os x.
Proof.
  intros Hu Hl. unfold os_of_string. rewrite new_array_Ok by lia. rewrite bind_ok.
  apply (plain_append (mkOs 0 0 (new_octets (Z.to_nat (Z.of_nat (length x)))) bits0 bits0) []); [|done|cbn [length]; lia].
  split; [|done|done]. split; unfold mxlen; cbn; try done; try (rewrite new_octets_length; lia). apply new_octets_u8.
Qed.

(** What a party sends for the agreement. *)
Definition agreement (protocol : list Z) : list Z := framed protocol ++ framed protocol.

Lemma compare_two my a b x y : my = 0 ∨ my = 1 → plain a x → plain b y →
  foldM (λ _ i,
      os ← vget (pair_at my a b) i; mine ← vget (pair_at my a b) my; eq ← equals os mine;
      if eq : bool then Ok tt else Throw "mismatch among parties") tt (seqZ 0 2)
    = if bool_decide (y = x) then Ok tt else Throw "mismatch among parties".
Proof.
  intros Hmy Ha Hb. change (seqZ 0 2) with [0; 1]. cbn [foldM].
  destruct Hmy as [-> | ->]; unfold pair_at; cbn [Z.eqb].
  - change (vget [a; b] 0) with (Ok a). change (vget [a; b] 1) with (Ok b). rewrite !bind_ok.
    rewrite (plain_equals _ _ _ _ Ha Ha), bind_ok, bool_decide_eq_true_2, bind_ok by done.
    rewrite (plain_equals _ _ _ _ Hb Ha), bind_ok. by case_bool_decide.
  - change (vget [b; a] 0) with (Ok b). change (vget [b; a] 1) with (Ok a). rewrite !bind_ok.
    rewrite (plain_equals _ _ _ _ Hb Ha), bind_ok. case_bool_decide; [|done].
    by rewrite bind_ok, (plain_equals _ _ _ _ Ha Ha), bind_ok, bool_decide_eq_true_2, bind_ok by done.
Qed.

(** The parties find out whether they were compiled for the same protocol. *)
Lemma protocol_agreement_two my mine theirs out rest : my = 0 ∨ my = 1 → Forall is_u8 mine → Forall is_u8 theirs →
  Z.of_nat (length mine) < 2 ^ 32 → Z.of_nat (length theirs) < 2 ^ 32 →
  protocol_agreement mine false (mkTwo my (mkLink out (agreement theirs ++ rest))) =
    (if bool_decide (theirs = mine) then Ok (mkTwo my (mkLink (out ++ agreement mine) rest)) else Throw "exit").
Proof.
  intros Hmy Hu Hu' Hl Hl'. unfold protocol_agreement. set (P := mkTwo my _). change (num_players P) with 2. change (my_num P) with my.
  change (replicate (Z.to_nat 2) os_new) with [os_new; os_new].
  assert (Epair : [os_new; os_new] = pair_at my os_new os_new) by (unfold pair_at; by destruct (my =? 0)). rewrite Epair. clear Epair.
  destruct (os_of_string_plain mine Hu) as (s & -> & Hs); [lia|]. rewrite bind_ok. unfold vupdate.
  rewrite (proj1 (vget_pair my _ _ Hmy)), bind_ok. destruct (plain_assign os_new _ _ os_new_wf Hs) as (a & -> & Ha).
  rewrite bind_ok, (proj1 (vset_pair my _ _ _ Hmy)), bind_ok. unfold P, agreement. rewrite <-app_assoc.
  destruct (broadcast_two my out mine theirs (framed theirs ++ rest) a os_new Hmy Ha os_new_wf Hl Hu' Hl') as (b & E & Hb).
  rewrite E, bind_ok. clear E. unfold bundle_compare.
  destruct (broadcast_two my (out ++ framed mine) mine theirs rest a b Hmy Ha (pl_wf _ _ Hb) Hl Hu' Hl') as (b' & E & Hb').
  rewrite E, bind_ok. clear E. set (P' := mkTwo my (mkLink ((out ++ framed mine) ++ framed mine) rest)). change (my_num P') with my.
  assert (Elen : Z.of_nat (length (pair_at my a b')) = 2) by (unfold pair_at; by destruct (my =? 0)). rewrite Elen.
  rewrite (compare_two my a b' mine theirs Hmy Ha Hb'). unfold P'. rewrite <-app_assoc. by case_bool_decide.
Qed.

Lemma protocol_agreement_KOS my out rest : my = 0 ∨ my = 1 →
  protocol_agreement KOS15 false (mkTwo my (mkLink out (agreement KOS15 ++ rest)))
    = Ok (mkTwo my (mkLink (out ++ agreement KOS15) rest)).
Proof.
  intros Hmy. assert (Hu : Forall is_u8 KOS15) by by repeat constructor.
  rewrite (protocol_agreement_two my KOS15 KOS15 out rest Hmy Hu Hu) by done. by rewrite bool_decide_eq_true_2.
Qed.

Lemma schedule_of_block seed : block_wf seed → schedule_wf (aes_128_schedule seed).
Proof. intros Hw. destruct (SetSeed_spec prng_new seed Hw) as (g & _ & (b & [] & _) & _). done. Qed.

(** The common generators of two parties that draw their seeds. *)
Lemma GlobalPRNG_alike my Gr Gs key_r key_s p_r p_s rnd_r rnd_s : my = 0 ∨ my = 1 →
  seeder Gr key_r p_r rnd_r SEED_SIZE → seeder Gs key_s p_s rnd_s SEED_SIZE →
  ∃ seed wr ws, block_wf seed ∧
    alike (GlobalPRNG my Gr rnd_r) (GlobalPRNG (1 - my) Gs rnd_s) (aes_128_schedule seed) 0 wr ws.
Proof.
  intros Hmy Dr Ds. change SEED_SIZE with 16 in *. set (x := key_stream key_r p_r 16). set (y := key_stream key_s p_s 16).
  assert (Wx : block_wf x) by (split; [apply key_stream_length|apply key_stream_u8, Dr]).
  assert (Wy : block_wf y) by (split; [apply key_stream_length|apply key_stream_u8, Ds]).
  assert (Hmy' : 1 - my = 0 ∨ 1 - my = 1) by (destruct Hmy as [-> | ->]; auto).
  assert (Wi : block_wf (in_order my x y)) by (unfold in_order; destruct (my =? 0); by apply xor_octets_wf).
  assert (Ei : in_order (1 - my) y x = in_order my x y) by (by destruct Hmy as [-> | ->]).
  destruct (SetSeed_spec prng_new _ Wi) as (g & Eg & Pg & _).
  exists (in_order my x y), (SeedProps.wire my x rnd_r), (SeedProps.wire (1 - my) y rnd_s). split; [done|].
  split; exists g; (split; [by rewrite Z.mul_0_r|]); intros out rest; unfold GlobalPRNG, SeedGlobally; change SEED_SIZE with 16.
  - rewrite (honest_party my Gr key_r p_r rnd_r 16 out y rnd_s rest Hmy Dr) by first [apply Wy|apply Ds].
    rewrite bind_ok. fold x. by rewrite Eg, !bind_ok.
  - pose proof (honest_party (1 - my) Gs key_s p_s rnd_s 16 out x rnd_r rest Hmy' Ds) as E.
    replace (1 - (1 - my)) with my in E by lia. rewrite E by first [apply Wx|apply Dr].
    rewrite bind_ok. fold y. by rewrite Ei, Eg, !bind_ok.
Qed.
End two.
