(* ===== verification/OtRandom.v ===== *)
(** * Random OTs and the correlation check

    [hash_outputs] turns correlated OTs into random ones; two messages that pass
    [check_iteration] reveal [delta] unless they are the same. *)

From S2P Require Import Prelude Memory OctetStream OctetProps Xor Block Aes YaoKey YaoGate Random BitVector Square128 Gf2n OtMatrix OtExtension OtProps OtTheorems Commit CommitProps SeedProps OtAgree.

(** ** Rows of a matrix by their number *)
Lemma div_mod_128 (k : nat) : ∃ i r, k = (128 * i + r)%nat ∧ (r < 128)%nat ∧ i = (k / 128)%nat ∧ r = (k mod 128)%nat.
Proof.
  exists (k / 128)%nat, (k mod 128)%nat. split_and!; [apply Nat.div_mod; lia|apply Nat.mod_upper_bound; lia|done..].
Qed.

(** A matrix whose row [128 * i + r] is [f (128 * i + r)]. *)
Definition rows_of (n : nat) (f : nat → Key) : Matrix := mat n (λ i r, f (128 * i + r)%nat).

Lemma rows_of_ext n f g : (∀ j, (j < 128 * n)%nat → f j = g j) → rows_of n f = rows_of n g.
Proof. intros H. apply mat_ext. intros i r Hi Hr. apply H. lia. Qed.

Lemma output_row_rows n f j : (j < 128 * n)%nat → output_row (rows_of n f) (Z.of_nat j) = Ok (f j).
Proof.
  intros Hj. unfold rows_of. rewrite output_row_mat by lia. f_equal. f_equal. symmetry. apply Nat.div_mod. lia.
Qed.

(** A matrix that is known by its rows. *)
Lemma rows_of_mat n F : mat n F = rows_of n (λ j, F (j / 128)%nat (j mod 128)%nat).
Proof.
  apply mat_ext. intros i r _ Hr. f_equal.
  - apply Nat.div_unique with r; lia.
  - apply Nat.mod_unique with i; lia.
Qed.

(** Eight rows from [8 * k] on are in one square. *)
Lemma eight_rows k : ∃ i r, (8 * k = 128 * i + r)%nat ∧ (r + 8 ≤ 128)%nat ∧
  Z.of_nat (8 * k) / 128 = Z.of_nat i ∧ Z.of_nat (8 * k) mod 128 = Z.of_nat r.
Proof.
  exists (k / 16)%nat, (8 * (k mod 16))%nat.
  pose proof (Nat.div_mod k 16 ltac:(lia)). pose proof (Nat.mod_upper_bound k 16 ltac:(lia)).
  split_and!; [lia|lia| |].
  - symmetry. apply Z.div_unique with (Z.of_nat (8 * (k mod 16))); lia.
  - symmetry. apply Z.mod_unique with (Z.of_nat (k / 16)); lia.
Qed.

Lemma get_rows8_rows n f k : (8 * k + 8 ≤ 128 * n)%nat →
  get_rows8 (rows_of n f) (8 * Z.of_nat k) = Ok ((λ t, f (8 * k + t)%nat) <$> seq 0 8).
Proof.
  intros Hk. destruct (eight_rows k) as (i & r & E & Hr & Ed & Em).
  unfold get_rows8. replace (8 * Z.of_nat k) with (Z.of_nat (8 * k)) by lia. rewrite Ed, Em.
  rewrite (vget_nat _ _ (sq (λ r, f (128 * i + r)%nat))) by (unfold rows_of; rewrite mat_lookup by lia; done).
  cbn [mbind outcome_bind].
  rewrite (mapM_out_Ok (λ z, f (8 * k + Z.to_nat z)%nat)).
  - done.
  - intros z Hz%elem_of_seqZ. replace (Z.of_nat r + z) with (Z.of_nat (r + Z.to_nat z)) by lia.
    apply vget_nat. rewrite sq_lookup by lia. do 2 f_equal. lia.
Qed.

Lemma set_rows8_rows n f g k : (8 * k + 8 ≤ 128 * n)%nat →
  set_rows8 (rows_of n f) (8 * Z.of_nat k) (g <$> seq 0 8)
    = Ok (rows_of n (λ j, if Nat.eqb (j / 8) k then g (j - 8 * k)%nat else f j)).
Proof.
  intros Hk. destruct (eight_rows k) as (i & r & E & Hr & Ed & Em).
  unfold set_rows8. replace (8 * Z.of_nat k) with (Z.of_nat (8 * k)) by lia. rewrite Ed, Em.
  rewrite (vget_nat _ _ (sq (λ r, f (128 * i + r)%nat))) by (unfold rows_of; rewrite mat_lookup by lia; done).
  cbn [mbind outcome_bind].
  destruct (foldM_inv (λ c s, s = sq (λ x, if (r <=? x)%nat && (x <? r + c)%nat then g (x - r)%nat
                                           else f (128 * i + x)%nat))
    (λ s j, v ← vget (g <$> seq 0 8) j; vset s (Z.of_nat r + j) v) (seqZ 0 8)
    (sq (λ r, f (128 * i + r)%nat))) as (s & Es & ->).
  - apply sq_ext_fn. intros x _. rewrite Nat.add_0_r.
    destruct (Nat.leb_spec r x), (Nat.ltb_spec x r); (done || lia).
  - intros c z s Hz ->. apply lookup_seqZ in Hz as [-> Hc]. rewrite Z.add_0_l.
    rewrite (vget_nat _ _ (g c)) by (rewrite list_lookup_fmap, lookup_seq_lt by lia; done).
    cbn [mbind outcome_bind]. rewrite vset_Ok by (rewrite sq_length; lia).
    replace (Z.to_nat (Z.of_nat r + Z.of_nat c)) with (r + c)%nat by lia.
    eexists. split; [done|]. rewrite sq_insert by lia. apply sq_ext_fn. intros x _.
    destruct (Nat.eqb_spec x (r + c)) as [->|].
    + rewrite (proj2 (Nat.leb_le _ _)), (proj2 (Nat.ltb_lt _ _)) by lia. cbn [andb]. f_equal. lia.
    + destruct (Nat.leb_spec r x), (Nat.ltb_spec x (r + c)), (Nat.ltb_spec x (r + S c)); (done || lia).
  - rewrite Es. cbn [mbind outcome_bind]. unfold rows_of.
    rewrite vset_Ok by (rewrite mat_length; lia). rewrite Nat2Z.id. f_equal.
    apply (list_eq_same_length _ _ n); [by rewrite mat_length|by rewrite length_insert, mat_length|].
    intros i' a b Hi' Ha Hb. rewrite mat_lookup in Hb by done. apply (inj Some) in Hb. subst b.
    destruct (decide (i' = i)) as [->|Hne].
    + rewrite list_lookup_insert_eq in Ha by (rewrite mat_length; lia). apply (inj Some) in Ha. subst a.
      apply sq_ext_fn. intros x Hx.
      destruct (Nat.eqb_spec ((128 * i + x) / 8) k) as [Ek|Ek].
      * pose proof (Nat.div_mod (128 * i + x) 8 ltac:(lia)). pose proof (Nat.mod_upper_bound (128 * i + x) 8 ltac:(lia)).
        rewrite (proj2 (Nat.leb_le _ _)), (proj2 (Nat.ltb_lt _ _)) by (rewrite ?length_seqZ; lia). cbn [andb].
        by replace (128 * i + x - 8 * k)%nat with (x - r)%nat by lia.
      * destruct (Nat.leb_spec r x), (Nat.ltb_spec x (r + length (seqZ 0 8))) as [Hlt|]; try done.
        rewrite length_seqZ in Hlt. exfalso. apply Ek. symmetry.
        apply Nat.div_unique with (x - r)%nat; lia.
    + rewrite list_lookup_insert_ne, mat_lookup in Ha by done. apply (inj Some) in Ha. subst a.
      apply sq_ext_fn. intros x Hx. destruct (Nat.eqb_spec ((128 * i' + x) / 8) k) as [Ek|]; [|done].
      pose proof (Nat.div_mod (128 * i' + x) 8 ltac:(lia)). pose proof (Nat.mod_upper_bound (128 * i' + x) 8 ltac:(lia)).
      exfalso. apply Hne. nia.
Qed.

(** ** Hashing *)
Definition hashed (k : nat) (f h : nat → Key) (j : nat) : Key := if (j <? 8 * k)%nat then h j else f j.

Lemma hashed_step k f h n :
  rows_of n (λ j, if Nat.eqb (j / 8) k then mmo_hash1 (h (8 * k + (j - 8 * k))%nat) else hashed k f (λ j, mmo_hash1 (h j)) j)
  = rows_of n (hashed (S k) f (λ j, mmo_hash1 (h j))).
Proof.
  generalize mmo_hash1. intros mh. apply rows_of_ext. intros j _. unfold hashed.
  pose proof (Nat.div_mod j 8 ltac:(lia)). pose proof (Nat.mod_upper_bound j 8 ltac:(lia)).
  destruct (Nat.eqb_spec (j / 8) k), (Nat.ltb_spec j (8 * S k)), (Nat.ltb_spec j (8 * k)); try lia; try reflexivity.
  by replace (8 * k + (j - 8 * k))%nat with j by lia.
Qed.

Lemma hashed_rows8 k f h : (λ t, hashed k f h (8 * k + t)%nat) <$> seq 0 8 = (λ t, f (8 * k + t)%nat) <$> seq 0 8.
Proof.
  apply list_fmap_ext. intros i t Ht. apply lookup_seq in Ht as [-> Ht]. unfold hashed.
  by rewrite (proj2 (Nat.ltb_ge _ _)) by lia.
Qed.

Lemma hash_rows8 k f h n : (8 * k + 8 ≤ 128 * n)%nat →
  set_rows8 (rows_of n (hashed k f (λ j, mmo_hash1 (h j)))) (8 * Z.of_nat k)
    (mmo_hashes ((λ t, h (8 * k + t)%nat) <$> seq 0 8))
  = Ok (rows_of n (hashed (S k) f (λ j, mmo_hash1 (h j)))).
Proof.
  intros Hk. rewrite mmo_hashes_map, <-list_fmap_compose.
  pose proof (set_rows8_rows n (hashed k f (λ j, mmo_hash1 (h j))) (λ t, mmo_hash1 (h (8 * k + t)%nat)) k Hk) as E.
  etransitivity; [exact E|]. by rewrite <-hashed_step.
Qed.

Lemma resize_vertical_same n m len : mat_shape n m → 0 ≤ len → Z.of_nat n = (len + 127) / 128 →
  resize_vertical m (Z.quot (len + 127) 128 * 128) = Ok m.
Proof.
  intros [Hl _] Hlen Hn. unfold resize_vertical, DIV_CEIL.
  rewrite (Z.quot_div_nonneg (len + 127)), <-Hn by lia. rewrite Z.quot_div_nonneg by lia.
  replace ((Z.of_nat n * 128 + 128 - 1) / 128) with (Z.of_nat n) by (apply Z.div_unique with 127; lia).
  unfold vector_resize. rewrite (proj2 (Z.ltb_ge _ _)), Nat2Z.id by lia.
  rewrite take_ge by lia. replace (n - length m)%nat with 0%nat by lia. cbn [replicate]. by rewrite app_nil_r.
Qed.

Lemma rows_of_shape n f : mat_shape n (rows_of n f).
Proof. apply mat_shape_mat. Qed.

Section hash.
Context `{Heap} (n : nat) (len : Z) (Hlen : 0 ≤ len) (Hsq : Z.of_nat n = (len + 127) / 128) (H8 : len mod 8 = 0).

Lemma len_rows k : (k < Z.to_nat (len / 8))%nat → (8 * k + 8 ≤ 128 * n)%nat.
Proof.
  intros Hk. pose proof (Z.div_mod len 8 ltac:(lia)). pose proof (Z.div_mod (len + 127) 128 ltac:(lia)).
  pose proof (Z.mod_pos_bound (len + 127) 128 ltac:(lia)). lia.
Qed.

Lemma receiver_hash o f : ot_role o = RECEIVER → mat_shape n (ot_s0 o) → mat_shape n (ot_s1 o) →
  ot_r o = rows_of n f →
  ∃ o', hash_outputs o len true = Ok o' ∧
    ot_r o' = rows_of n (hashed (Z.to_nat (len / 8)) f (λ j, mmo_hash1 (f j))).
Proof.
  intros Hr S0 S1 Er. unfold hash_outputs.
  rewrite (resize_vertical_same n _ len S0 Hlen Hsq), (resize_vertical_same n _ len S1 Hlen Hsq).
  rewrite Er, (resize_vertical_same n _ len (rows_of_shape n f) Hlen Hsq). cbn [mbind outcome_bind].
  rewrite Z.rem_mod_nonneg, H8 by lia. cbn [negb Z.eqb].
  set (o1 := with_matrices o _ _ _ _ _).
  destruct (foldM_inv (λ k o', ot_role o' = RECEIVER ∧ ot_r o' = rows_of n (hashed k f (λ j, mmo_hash1 (f j))))
    (λ o k, hash_eight o true (8 * k)) (seqZ 0 (len / 8)) o1) as (o' & E & _ & E').
  - split; [done|]. unfold o1. cbn [with_matrices ot_r]. apply rows_of_ext. intros j _. done.
  - intros k z o' Hz [Hr' Er']. apply lookup_seqZ in Hz as [-> Hk]. rewrite Z.add_0_l.
    pose proof (len_rows k ltac:(lia)) as Hb. unfold hash_eight. rewrite Hr'.
    change (has_role RECEIVER SENDER) with false. change (has_role RECEIVER RECEIVER) with true. cbn iota.
    cbn [mbind outcome_bind]. rewrite Er', get_rows8_rows, hashed_rows8 by done. cbn [mbind outcome_bind].
    rewrite hash_rows8 by done. cbn [mbind outcome_bind]. eexists. split; [done|]. done.
  - rewrite length_seqZ in E'. by exists o'.
Qed.

Lemma sender_hash o f : ot_role o = SENDER → mat_shape n (ot_r o) → mat_shape n (ot_s1 o) →
  bv_wf (baseReceiverInput o) → bv_nbits (baseReceiverInput o) = 128 → ot_s0 o = rows_of n f →
  ∃ o' g, hash_outputs o len true = Ok o' ∧
    ot_s0 o' = rows_of n (hashed (Z.to_nat (len / 8)) f (λ j, mmo_hash1 (f j))) ∧
    ot_s1 o' = rows_of n (hashed (Z.to_nat (len / 8)) g
                 (λ j, mmo_hash1 (Z.lxor (f j) (bv_num (baseReceiverInput o))))).
Proof.
  intros Hr Sr S1 Hd Hdn Es. set (delta := bv_num (baseReceiverInput o)). unfold hash_outputs.
  rewrite Es, (resize_vertical_same n _ len (rows_of_shape n f) Hlen Hsq).
  rewrite (resize_vertical_same n _ len S1 Hlen Hsq), (resize_vertical_same n _ len Sr Hlen Hsq). cbn [mbind outcome_bind].
  rewrite Z.rem_mod_nonneg, H8 by lia. cbn [negb Z.eqb].
  rewrite (mat_of_shape n _ S1), rows_of_mat. set (g := λ j : nat, _).
  set (o1 := with_matrices o _ _ _ _ _). exists (from_ok o1 (foldM (λ o k, hash_eight o true (8 * k)) o1 (seqZ 0 (len / 8)))), g.
  destruct (foldM_inv (λ k o', ot_role o' = SENDER ∧ baseReceiverInput o' = baseReceiverInput o ∧
      ot_s0 o' = rows_of n (hashed k f (λ j, mmo_hash1 (f j))) ∧
      ot_s1 o' = rows_of n (hashed k g (λ j, mmo_hash1 (Z.lxor (f j) delta))))
    (λ o k, hash_eight o true (8 * k)) (seqZ 0 (len / 8)) o1) as (o' & E & _ & _ & E0 & E1).
  - split_and!; [done|done|unfold o1; cbn [with_matrices ot_s0 ot_s1]; by apply rows_of_ext..].
  - intros k z o' Hz (Hr' & Ed & Es0 & Es1). apply lookup_seqZ in Hz as [-> Hk]. rewrite Z.add_0_l.
    pose proof (len_rows k ltac:(lia)) as Hb. unfold hash_eight. rewrite Hr'.
    change (has_role SENDER SENDER) with true. change (has_role SENDER RECEIVER) with false. cbn iota.
    rewrite Es0, get_rows8_rows, hashed_rows8 by done. cbn [mbind outcome_bind].
    unfold get_int128. rewrite Ed. change (0 * 16) with 0. rewrite (proj1 (bv_num_bytes _ Hd Hdn)). cbn [mbind outcome_bind].
    rewrite hash_rows8 by done. cbn [mbind outcome_bind]. rewrite <-list_fmap_compose. fold (bv_num (baseReceiverInput o)).
    rewrite Es1. change (compose _ _) with (λ t, Z.lxor (f (8 * k + t)%nat) delta).
    rewrite (hash_rows8 k g (λ j, Z.lxor (f j) delta) n Hb). cbn [mbind outcome_bind].
    eexists. split; [done|]. done.
  - rewrite length_seqZ in E0, E1. by rewrite E.
Qed.
End hash.

Lemma seeded_room n : 0 < n < 2 ^ 26 → room 0 (n_squares n * 128).
Proof. intros Hn. destruct (n_squares_bounds n Hn) as (_ & HN & _). unfold room, prng_limit. rewrite Nat2Z.inj_mul. lia. Qed.

(** C5. A whole run of [extend] between two parties, in either order of their numbers:
    they agree on the protocol, extend the correlated OTs, seed a common generator from
    what each of them drew, pass the check, and hash. Both runs succeed on the messages
    of each other; the sender holds two keys for each OT, the hashes of a row and of the
    row plus [delta], and the receiver holds the one of its choice bit. *)
Theorem extend_gives_random_ot `{Heap} `{GenericHash} `{!GenericHashLaws} clmul junk key p m snd rcv n x y
    my Gr Gs key_r key_s p_r p_s rnd_r rnd_s :
  clmul_spec clmul → (∀ i, shape 128 16 (junk i)) → paired key p m snd rcv →
  0 < n < 2 ^ 26 → n mod 8 = 0 → bv_wf x → bv_nbits x = n → bv_wf y → bv_nbits y ≤ n →
  room p (n_squares n) → 32 ≤ m → my = 0 ∨ my = 1 →
  seeder Gr key_r p_r rnd_r SEED_SIZE → seeder Gs key_s p_s rnd_s SEED_SIZE →
  ∃ rcv' snd' wire_r wire_s,
    (∀ out rest, extend clmul junk rcv (mkTwo my (mkLink out (wire_s ++ rest))) Gr rnd_r n x
                   = Ok (rcv', mkTwo my (mkLink (out ++ wire_r) rest))) ∧
    (∀ out rest, extend clmul junk snd (mkTwo (1 - my) (mkLink out (wire_r ++ rest))) Gs rnd_s n y
                   = Ok (snd', mkTwo (1 - my) (mkLink (out ++ wire_s) rest))) ∧
    ∀ j, 0 ≤ j < n → ∃ k,
      let m0 := mmo_hash1 k in
      let m1 := mmo_hash1 (Z.lxor k (bv_num (baseReceiverInput snd))) in
      output_row (ot_s0 snd') j = Ok m0 ∧ output_row (ot_s1 snd') j = Ok m1 ∧
      output_row (ot_r rcv') j = Ok (if Z.testbit (bv_num x) j then m1 else m0).
Proof.
  intros Hc Hj Hp Hn H8 Hx Hxn Hy Hyn Hroom Hm Hmy Dr Ds.
  destruct (GlobalPRNG_alike my Gr Gs key_r key_s p_r p_s rnd_r rnd_s Hmy Dr Ds) as (seed & wr & ws & Hseed & Halike).
  destruct (extend_correlated_spec clmul junk key p m snd rcv n x y _ _ _ 0 wr ws Hc Hj Hp Hn Hx Hxn Hy Hyn Hroom Hm Halike)
    as (rcv1 & snd1 & wire_r & wire_s & x' & Er & Es & Hp' & Hd & (Rr & R0 & R1) & (Sr & S0 & S1) & Hx' & Hb & Hr & Hs);
    [by apply schedule_of_block|by apply seeded_room|].
  destruct (n_squares_bounds n Hn) as (HN & _ & Hnn).
  set (N := (n_squares n - 2)%nat) in *.
  assert (Hsq : Z.of_nat N = (n + 127) / 128).
  { apply Z.div_unique with (n + 127 - 128 * Z.of_nat N); lia. }
  rewrite rows_of_mat in Hr, Hs. cbv beta in Hs.
  destruct (receiver_hash N n ltac:(lia) Hsq H8 rcv1 _ (pr_rcv _ _ _ _ _ Hp') R0 R1 Hr) as (rcv' & Ehr & Er').
  pose proof (pr_snd_wf _ _ _ _ _ Hp') as Ws.
  destruct (sender_hash N n ltac:(lia) Hsq H8 snd1 _ (pr_snd _ _ _ _ _ Hp') Sr S1 (ow_delta _ Ws)
    (ow_delta_bits _ Ws) Hs) as (snd' & g & Ehs & Es0 & Es1). rewrite Hd in Es1.
  exists rcv', snd', (agreement KOS15 ++ wire_r), (agreement KOS15 ++ wire_s).
  split; [|split]; [intros out rest; unfold extend; rewrite <-app_assoc, protocol_agreement_KOS by lia; rewrite bind_ok; cbn [two_link two_num]..|].
  - by rewrite Er, bind_ok, Ehr, bind_ok, <-app_assoc.
  - by rewrite Es, bind_ok, Ehs, bind_ok, <-app_assoc.
  - intros j Hjn. set (jj := Z.to_nat j). assert (Ej : j = Z.of_nat jj) by lia. rewrite Ej.
    assert (Hjj : (jj < 128 * N)%nat) by lia.
    assert (Hlt : (jj <? 8 * Z.to_nat (n / 8))%nat = true).
    { apply Nat.ltb_lt. pose proof (Z.div_mod n 8 ltac:(lia)). lia. }
    rewrite Er', Es0, Es1, !output_row_rows by done. unfold hashed. rewrite Hlt.
    rewrite row_bit, Hb by (done || lia).
    eexists. split; [done|]. split; [done|]. do 2 f_equal.
    set (delta := bv_num _). unfold key_if. destruct (Z.testbit _ _).
    + by rewrite Z.lxor_assoc, Z.lxor_nilpotent, Z.lxor_0_r.
    + by rewrite Z.lxor_0_r.
Qed.

(** ** What passing the check means *)
Section soundness.
Context `{Heap} (clmul : Z → Key → Key → Key) (Hclmul : clmul_spec clmul).

(** The sender's side of [check_iteration] on the message of any receiver. *)
Lemma check_iteration_accepts rcv snd delta d a b q q2 x t t2 w l : ot_role rcv = RECEIVER → ot_role snd = SENDER →
  is_word 128 delta → is_word 128 x → is_word 128 t → is_word 128 t2 → is_word 128 q → is_word 128 q2 →
  check_iteration clmul rcv (mkLink [] []) d a b t t2 x = Ok (mkLink w []) →
  check_iteration clmul snd (mkLink [] w) delta q q2 0 0 0 = Ok l →
  Z.lxor t (Z.shiftl t2 128) = Z.lxor (clm 128 x delta) (Z.lxor q (Z.shiftl q2 128)).
Proof.
  intros Hr Hs Hd Hx Ht Ht2 Hq Hq2 Er Es.
  destruct (message _ _ _ _ (carries_three (le_bytes 16 x) (le_bytes 16 t) (le_bytes 16 t2)
    (le_bytes_u8 _ _) (le_bytes_u8 _ _) (le_bytes_u8 _ _) (le_bytes_length _ _) (le_bytes_length _ _) (le_bytes_length _ _)))
    as (w0 & wire & Ew & Ewire & Hrd); [|lia|].
  { intros w' E. bind_inv E. bind_inv E. eapply os_append_out; [|exact E].
    eapply os_append_out; [|exact E1]. by eapply os_append_out; [|exact E0]. }
  unfold check_iteration in Er. rewrite Hr in Er.
  change (has_role RECEIVER RECEIVER) with true in Er. change (has_role RECEIVER SENDER) with false in Er. cbn iota in Er.
  rewrite Ew in Er. cbn [mbind outcome_bind] in Er. unfold send_if_ot_receiver, link_send in Er.
  rewrite Z.eqb_refl, Ewire in Er. cbn [mbind outcome_bind l_out app] in Er. injection Er as <-.
  unfold check_iteration in Es. rewrite Hs in Es.
  change (has_role SENDER RECEIVER) with false in Es. change (has_role SENDER SENDER) with true in Es. cbn iota in Es.
  cbn [mbind outcome_bind] in Es. unfold send_if_ot_receiver, link_receive in Es.
  change (SENDER =? RECEIVER) with false in Es. rewrite Z.eqb_refl in Es. cbn iota in Es. cbn [l_in l_out] in Es.
  destruct (Hrd os_new [] os_new_wf) as (o & r' & Eo & Eg). rewrite app_nil_r in Eo.
  change (reset_write_head os_new) with os_new in Es. rewrite Eo in Es. cbn [mbind outcome_bind] in Es.
  destruct (os_consume o 16) as [[a1 o1]| |]; [|done..]. cbn [mbind outcome_bind] in *.
  destruct (os_consume o1 16) as [[b1 o2]| |]; [|done..]. cbn [mbind outcome_bind] in *.
  destruct (os_consume o2 16) as [[c1 o3]| |]; [|done..]. cbn [mbind outcome_bind] in *.
  assert (a1 = le_bytes 16 x ∧ b1 = le_bytes 16 t ∧ c1 = le_bytes 16 t2) as (-> & -> & ->) by (split_and!; congruence).
  rewrite !le_val_bytes in Es by done.
  pose proof (mul128_clm clmul x delta Hclmul Hx Hd) as M. destruct (mul128 clmul x delta) as [lo hi].
  destruct M as (Wl & Wh & <-).
  destruct (Z.eqb_spec (Z.lxor lo q) t) as [<-|]; [|done].
  destruct (Z.eqb_spec (Z.lxor hi q2) t2) as [<-|]; [|done].
  rewrite Z.shiftl_lxor. xor_ac.
Qed.

(** C6. The check of KOS15 binds the receiver to its sum of choice bits unless it knows
    [delta]: when a sender with the same sums accepts two messages, either the sums of
    the choice bits are the same and so are the messages, or [delta] is the one
    128-bit word that solves an equation in the two messages. *)
Theorem check_extracts_delta rcv snd delta q q2 x t t2 x' t' t2' d a b d' a' b' w w' l l' :
  ot_role rcv = RECEIVER → ot_role snd = SENDER →
  Forall (is_word 128) [delta; q; q2; x; t; t2; x'; t'; t2'] →
  check_iteration clmul rcv (mkLink [] []) d a b t t2 x = Ok (mkLink w []) →
  check_iteration clmul rcv (mkLink [] []) d' a' b' t' t2' x' = Ok (mkLink w' []) →
  check_iteration clmul snd (mkLink [] w) delta q q2 0 0 0 = Ok l →
  check_iteration clmul snd (mkLink [] w') delta q q2 0 0 0 = Ok l' →
  (x = x' → t = t' ∧ t2 = t2') ∧
  (x ≠ x' → ∀ delta', is_word 128 delta' →
     clm 128 (Z.lxor x x') delta' = Z.lxor (Z.lxor t t') (Z.shiftl (Z.lxor t2 t2') 128) ↔ delta' = delta).
Proof.
  intros Hr Hs HW E1 E2 A1 A2. rewrite !Forall_cons in HW.
  destruct HW as (Hd & Hq & Hq2 & Hx & Ht & Ht2 & Hx' & Ht' & Ht2' & _).
  pose proof (check_iteration_accepts _ _ _ _ _ _ _ _ _ _ _ _ _ Hr Hs Hd Hx Ht Ht2 Hq Hq2 E1 A1) as C1.
  pose proof (check_iteration_accepts _ _ _ _ _ _ _ _ _ _ _ _ _ Hr Hs Hd Hx' Ht' Ht2' Hq Hq2 E2 A2) as C2.
  split.
  - intros ->. apply lanes_inj; [done..|]. congruence.
  - intros Hne delta' Hd'.
    assert (E : Z.lxor (Z.lxor t t') (Z.shiftl (Z.lxor t2 t2') 128) = clm 128 (Z.lxor x x') delta).
    { rewrite Z.shiftl_lxor, clm_lxor_l.
      transitivity (Z.lxor (Z.lxor t (Z.shiftl t2 128)) (Z.lxor t' (Z.shiftl t2' 128))); [xor_ac|].
      rewrite C1, C2. xor_ac. }
    rewrite E. split; [|by intros ->]. intros Eq.
    assert (Hz : clm 128 (Z.lxor x x') (Z.lxor delta' delta) = 0)
      by (rewrite clm_lxor_r, Eq; apply Z.lxor_nilpotent).
    apply clm_integral in Hz; [|by apply is_word_lxor|by apply (is_word_lxor 128)].
    destruct Hz as [Hz|Hz]; [exfalso; apply Hne|]; by apply Z.lxor_eq.
Qed.
End soundness.

(** ** Instances *)
#[local] Existing Instances toy_hash toy_hash_laws.

Definition sample_bits : BitVector := mkBv [0x96] 1 8.

Lemma sample_bits_wf : bv_wf sample_bits.
Proof. split; [cbn; lia|done|cbn; lia|]. repeat constructor; done. Qed.

Lemma extend_gives_random_ot_witness : ∃ (snd rcv rcv' snd' : OTExt) (G : PRNG) (wire_r wire_s : list Z),
  extend (λ c a b, software_clmul a b c) (λ _, blank) rcv (mkTwo 1 (mkLink [] (wire_s ++ []))) G (replicate 16 9) 8 sample_bits
    = Ok (rcv', mkTwo 1 (mkLink wire_r [])) ∧
  extend (λ c a b, software_clmul a b c) (λ _, blank) snd (mkTwo 0 (mkLink [] (wire_r ++ []))) G (replicate 16 9) 8 sample_bits
    = Ok (snd', mkTwo 0 (mkLink wire_s [])) ∧ passive_only snd = false.
Proof.
  destruct (sample_pair false) as (key & snd & rcv & _ & Hp & Hpas & _ & _). destruct (zero_draws SEED_SIZE) as (G & gkey & D); [done|].
  destruct (extend_gives_random_ot (λ c a b, software_clmul a b c) (λ _, blank) key 0 64 snd rcv 8
    sample_bits sample_bits 1 G G gkey gkey 0 0 (replicate 16 9) (replicate 16 9))
    as (rcv' & snd' & wire_r & wire_s & E1 & E2 & _);
    [exact software_clmul_spec|intros; exact blank_shape|exact Hp|by split|done|exact sample_bits_wf|done
    |exact sample_bits_wf|done|by split|done|by right|exact D|exact D|].
  exists snd, rcv, rcv', snd', G, wire_r, wire_s. split; [exact (E1 [] [])|]. split; [exact (E2 [] [])|exact Hpas].
Defined.

Definition sample_party (role : Z) : OTExt :=
  mkOt role false 128 1 sample_delta [] [] zero_prng [] [] [] [] [].
Definition sample_wire (x t : Key) : list Z :=
  l_out (from_ok (mkLink [] []) (check_iteration (λ c a b, software_clmul a b c) (sample_party RECEIVER)
                                   (mkLink [] []) 0 0 0 t 0 x)).

Lemma check_extracts_delta_witness :
  clm 128 (Z.lxor 1 2) 3 = Z.lxor (Z.lxor 3 6) (Z.shiftl (Z.lxor 0 0) 128).
Proof.
  destruct (check_extracts_delta (λ c a b, software_clmul a b c) software_clmul_spec
    (sample_party RECEIVER) (sample_party SENDER) 3 0 0 1 3 0 2 6 0 0 0 0 0 0 0
    (sample_wire 1 3) (sample_wire 2 6) (mkLink [] []) (mkLink [] [])) as [_ H];
    [reflexivity|reflexivity|repeat constructor; discriminate|vm_compute; reflexivity..|].
  apply H; [discriminate|split; [discriminate|reflexivity]|reflexivity].
Defined.
