(* ===== verification/Ppss.v ===== *)
(** * Password-protected secret sharing

    What the repository adds to the runs of the Yao parties: [run] of
    [Yao/YaoEvaluator.cpp] ([YaoEvaluator.init.cpp]) shares a secret among [n] servers,
    masks the shares and sends them with a commitment; [run] of
    [YaoEvaluator.reconstruct.cpp] reconstructs.  The session of [YaoSession] runs in
    between and touches none of these variables. *)

From S2P Require Import Prelude Memory OctetStream Xor Block Aes Circuit GcMmo YaoKey Random BitVector OtExtension.

(** ** Arithmetic on [__m128i]

    The operators of C++ on [__m128i] work on two [long long] lanes; an [int] operand is
    copied to both.  Lanes wrap around, as the compiled instructions do. *)
Definition vec_zip (f : Z → Z → Z) (a b : Key) : Key :=
  key_lanes (f (lane_hi a) (lane_hi b)) (f (lane_lo a) (lane_lo b)).
Definition vec_add : Key → Key → Key := vec_zip Z.add.
Definition vec_mul : Key → Key → Key := vec_zip Z.mul.
Definition vec_of_int (n : Z) : Key := key_lanes n n.

(** ** Sharing *)
Definition share_points (n : Z) : list Z := 0 :: ((λ j, j + 1) <$> seqZ 0 n).

(** [secret] and [coef], [coef[0] = secret]. *)
Definition pick_coefs (t : Z) (G : PRNG) : outcome (list Key * PRNG) :=
  '(secret, G) ← prng_get_doubleword G;
  '(ks, G) ← draw_doublewords (Z.to_nat t) G;
  Ok (secret :: ks, G).

(** [shares[j] += coef[i] * (points[j]^i)] *)
Definition add_term (coef : list Key) (points : list Z) (j : Z) (shares : list Key) (i : Z)
    : outcome (list Key) :=
  s ← vget shares j;
  c ← vget coef i;
  p ← vget points j;
  vset shares j (vec_add s (vec_mul c (vec_of_int (Z.lxor p i)))).

Definition share_secret (t n : Z) (points : list Z) (coef : list Key) : outcome (list Key) :=
  secret ← vget coef 0;
  shares ← vset (replicate (Z.to_nat (n + 1)) 0) 0 secret;
  foldM (λ shares j, foldM (add_term coef points j) shares (seqZ 0 (t + 1))) shares (seqZ 1 n).

(** ** Masking *)
Section ppss.
Context `{Sha256}.

(** [GCout], [pw] and [GCin]. *)
Definition gc_values (n : Z) (G : PRNG) : outcome (list Key * list Key * Key * PRNG) :=
  '(outs, G) ← draw_doublewords (Z.to_nat n) G;
  '(pw, G) ← prng_get_doubleword G;
  Ok (0 :: outs, 0 :: replicate (Z.to_nat n) pw, pw, G).

Definition oprf_mask (GCin GCout : Key) : Key :=
  le_val (take 16 (sha256_bytes (le_bytes 16 GCin ++ le_bytes 16 GCout))).

(** One turn of the loop over the servers: [oprf_128[j + 1]] and [e[j + 1]]. *)
Definition mask_share (shares GCin GCout : list Key) (st : list Key * list Key) (j : Z)
    : outcome (list Key * list Key) :=
  let '(oprf, e) := st in
  gin ← vget GCin (j + 1);
  gout ← vget GCout (j + 1);
  oprf ← vset oprf (j + 1) (oprf_mask gin gout);
  s ← vget shares (j + 1);
  o ← vget oprf (j + 1);
  e ← vset e (j + 1) (Z.lxor s o);
  Ok (oprf, e).

(** Every element of the arrays is written. *)
Definition mask_shares (n : Z) (shares GCin GCout : list Key) : outcome (list Key * list Key) :=
  let a := replicate (Z.to_nat (n + 1)) 0 in
  foldM (mask_share shares GCin GCout) (a, a) (seqZ 0 n).

(** [H'(s)] as [r] and [K]. *)
Definition parse_hash (secret : Key) : list Z * list Z :=
  let H_s := sha256_bytes (le_bytes 16 secret) in (take 16 H_s, drop 16 H_s).

(** The octets of elements [1] to [n] of an array. *)
Definition copy_elements (n : Z) (a : list Key) : outcome (list Z) :=
  xs ← mapM_out (λ j, vget a (j + 1)) (seqZ 0 n); Ok (mjoin (le_bytes 16 <$> xs)).

(** [C := COM((pw, e, s); r)] *)
Definition ppss_commit (n : Z) (pw : Key) (e shares : list Key) (r : list Z) : outcome (list Z) :=
  es ← copy_elements n e;
  ss ← copy_elements n shares;
  Ok (sha256_bytes (le_bytes 16 pw ++ es ++ ss ++ r)).

(** ** The client of the initialisation *)
Definition client_init `{Heap} (t n : Z) (G : PRNG) : outcome (octetStream * PRNG) :=
  '(coef, G) ← pick_coefs t G;
  shares ← share_secret t n (share_points n) coef;
  '(GCout, GCin, pw, G) ← gc_values n G;
  '(oprf, e) ← mask_shares n shares GCin GCout;
  secret ← vget coef 0;
  let '(r, K) := parse_hash secret in
  comout ← ppss_commit n pw e shares r;
  es ← copy_elements n e;
  os ← store_bytes os_new (es ++ comout);
  Ok (os, G).

(** ** Reconstruction *)

(** [res[i][target] *= (points[j] - target) / (points[j] - points[i])], a division of
    integers; [res] is the table of [__m128i] that starts as [_mm_setr_epi32(1, 0, 0, 0)]. *)
Definition lagrange_factor (points : list Z) (target i : Z) (res : list (list Key)) (j : Z)
    : outcome (list (list Key)) :=
  if j =? i then Ok res
  else
    pj ← vget points j;
    pi ← vget points i;
    if pj - pi =? 0 then UB
    else
      row ← vget res i;
      x ← vget row target;
      row ← vset row target (vec_mul x (vec_of_int (Z.quot (pj - target) (pj - pi))));
      vset res i row.

(** The targets that are computed. *)
Definition is_target (t target : Z) : bool := (target =? 0) || (t + 1 <? target).

Definition lagrange (t n : Z) (points : list Z) : outcome (list (list Key)) :=
  let res := replicate (Z.to_nat (t + 2)) (replicate (Z.to_nat (n + 1)) 1) in
  foldM (λ res target,
      foldM (λ res i,
          if is_target t target
          then foldM (lagrange_factor points target i) res (seqZ 1 (t + 1)) else Ok res)
        res (seqZ 1 (t + 1)))
    res (seqZ 0 (n + 1)).

Definition clear_targets (t n : Z) (shares : list Key) : outcome (list Key) :=
  foldM (λ shares target, if is_target t target then vset shares target 0 else Ok shares)
    shares (seqZ 0 (n + 1)).

(** [shares[target] += shares[i] * res[i][target]] *)
Definition interpolate (t n : Z) (res : list (list Key)) (shares : list Key) : outcome (list Key) :=
  foldM (λ shares target,
      if is_target t target then
        foldM (λ shares i,
            x ← vget shares target;
            s ← vget shares i;
            row ← vget res i;
            l ← vget row target;
            vset shares target (vec_add x (vec_mul s l)))
          shares (seqZ 1 (t + 1))
      else Ok shares)
    shares (seqZ 0 (n + 1)).

(** [s_i = e_i XOR rou_i] *)
Definition unmask_share (oprf e shares : list Key) (j : Z) : outcome (list Key) :=
  x ← vget e (j + 1); o ← vget oprf (j + 1); vset shares (j + 1) (Z.lxor x o).

Definition reconstruct (t n : Z) (shares : list Key) : outcome (list Key) :=
  res ← lagrange t n (share_points n);
  shares ← clear_targets t n shares;
  interpolate t n res shares.

(** [run]: the client shares a secret again, waits for a message of the server, which it
    does not read, and computes the secret and the commitment. *)
Definition client_reconstruct `{Heap} (t n : Z) (G : PRNG) (P : Link)
    : outcome (Key * list Z * PRNG * Link) :=
  '(coef, G) ← pick_coefs t G;
  shares ← share_secret t n (share_points n) coef;
  '(GCout, GCin, pw, G) ← gc_values n G;
  let a := replicate (Z.to_nat (n + 1)) 0 in
  '(oprf, e, shares) ← foldM (λ '(oprf, e, shares) j,
      '(oprf, e) ← mask_share shares GCin GCout (oprf, e) j;
      shares ← unmask_share oprf e shares j;
      Ok (oprf, e, shares)) (a, a, shares) (seqZ 0 n);
  '(_, P) ← link_receive P os_new;
  shares ← reconstruct t n shares;
  secret ← vget shares 0;
  let '(r, K) := parse_hash secret in
  comout ← ppss_commit n pw e shares r;
  Ok (secret, comout, G, P).

(** ** The server *)

(** [run] of [YaoGarbler.reconstruct.cpp] after the session. *)
Definition server_reconstruct `{Heap} (n : Z) (G : PRNG) (P : Link) : outcome (PRNG * Link) :=
  '(init_128, G) ← draw_doublewords (Z.to_nat (n + 2)) G;
  pack ← mapM_out (λ j, vget init_128 (j + 1)) (seqZ 0 (n + 2));
  os ← store_bytes os_new (mjoin (le_bytes 16 <$> pack));
  P ← link_send P os;
  Ok (G, P).
End ppss.
