(* ===== verification/PpssProps.v ===== *)
(** * Properties of the password-protected secret sharing

    What the shares of the client are, what reaches the server, and what the
    reconstruction computes. *)

From S2P Require Import Prelude Memory OctetStream OctetProps Xor Block Aes Circuit GcMmo Concrete YaoKey YaoGate Random BitVector Square128 Gf2n OtMatrix OtExtension OtProps Ppss.

(** ** Lanes *)
Definition lane (hi : bool) (k : Key) : Z := if hi then lane_hi k else lane_lo k.

Lemma key_lanes_word hi lo : is_word 128 (key_lanes hi lo).
Proof.
  unfold key_lanes. apply is_word_lor; [lia| |].
  - rewrite Z.shiftl_mul_pow2 by lia. pose proof (Z.mod_pos_bound hi (2 ^ 64)). unfold is_word, u64. lia.
  - pose proof (Z.mod_pos_bound lo (2 ^ 64)). unfold is_word, u64. lia.
Qed.

Lemma lane_key_lanes b hi lo : lane b (key_lanes hi lo) = u64 (if b then hi else lo).
Proof.
  apply Z.bits_inj'. intros i Hi. unfold lane, u64. rewrite <-Z.land_ones, Z.land_spec by lia.
  assert (Z.testbit (Z.ones 64) i = (i <? 64)) as -> by (apply Z.testbit_ones_nonneg; lia).
  destruct b; [rewrite lane_hi_bits, key_lanes_bits by lia|rewrite lane_lo_bits, key_lanes_bits by lia].
  - destruct (Z.ltb_spec i 64); [|by rewrite andb_false_r].
    destruct (Z.ltb_spec (i + 64) 64); [lia|]. destruct (Z.ltb_spec (i + 64) 128); [|lia].
    rewrite andb_true_r. cbn [andb]. f_equal. lia.
  - destruct (Z.ltb_spec i 64); [by rewrite andb_true_r|by rewrite andb_false_r].
Qed.

Lemma lane_zip b f x y : lane b (vec_zip f x y) = u64 (f (lane b x) (lane b y)).
Proof. unfold vec_zip. rewrite lane_key_lanes. by destruct b. Qed.

Lemma lane_of_int b n : lane b (vec_of_int n) = u64 n.
Proof. unfold vec_of_int. rewrite lane_key_lanes. by destruct b. Qed.

Lemma vec_add_word x y : is_word 128 (vec_add x y).
Proof. apply key_lanes_word. Qed.

(** Two words with the same lanes are equal. *)
Lemma lanes_ext x y : is_word 128 x → is_word 128 y → (∀ b, lane b x = lane b y) → x = y.
Proof.
  intros Hx Hy E. apply Z.bits_inj'. intros i Hi.
  destruct (Z.ltb_spec i 128); [|by rewrite !(is_word_high 128) by (done || lia)].
  destruct (Z.ltb_spec i 64) as [H1|H1].
  - pose proof (f_equal (λ z, Z.testbit z i) (E false)) as E'. cbn in E'.
    rewrite !lane_lo_bits in E' by lia. by rewrite (proj2 (Z.ltb_lt i 64)) in E' by lia.
  - pose proof (f_equal (λ z, Z.testbit z (i - 64)) (E true)) as E'. cbn in E'.
    rewrite !lane_hi_bits in E' by lia. rewrite (proj2 (Z.ltb_lt (i - 64) 64)) in E' by lia.
    cbn [andb] in E'. by rewrite Z.sub_add in E'.
Qed.

(** ** The shares *)
Definition share_at (coef : list Key) (p : Z) : Key :=
  foldl (λ s '(i, c), vec_add s (vec_mul c (vec_of_int (Z.lxor p i)))) 0
    (zip (seqZ 0 (Z.of_nat (length coef))) coef).

Lemma share_points_lookup n j : 0 ≤ j ≤ n → vget (share_points n) j = Ok j.
Proof.
  intros Hj. destruct (Z.eq_dec j 0) as [->|Hne]; [done|].
  apply vget_Ok; [lia|]. unfold share_points.
  rewrite lookup_cons_ne_0, list_lookup_fmap, lookup_seqZ_lt by lia.
  cbv [fmap option_fmap option_map]. f_equal. lia.
Qed.

(** Adding to one cell. *)
Lemma add_terms coef points j p l shares s : shares !! Z.to_nat j = Some s → 0 ≤ j →
  vget points j = Ok p → Forall (λ i, 0 ≤ i < Z.of_nat (length coef)) l →
  foldM (add_term coef points j) shares l
    = Ok (<[Z.to_nat j := foldl (λ s i, vec_add s (vec_mul (coef !!! Z.to_nat i) (vec_of_int (Z.lxor p i)))) s l]> shares).
Proof.
  intros Hs Hj Hp Hl. revert shares s Hs. induction Hl as [|i l Hi Hl IH]; intros shares s Hs.
  - cbn [foldM foldl]. by rewrite list_insert_id.
  - cbn [foldM foldl]. apply lookup_lt_Some in Hs as Hlt.
    assert (add_term coef points j shares i = Ok (<[Z.to_nat j := vec_add s (vec_mul (coef !!! Z.to_nat i)
              (vec_of_int (Z.lxor p i)))]> shares)) as ->.
    { unfold add_term. rewrite (vget_Ok shares j s), (vget_lt coef i), Hp by (exact Hi || done).
      cbn [mbind outcome_bind]. by rewrite vset_Ok by lia. }
    cbn [mbind outcome_bind]. erewrite IH by by apply list_lookup_insert_eq. by rewrite list_insert_insert_eq.
Qed.

Lemma share_at_indices coef p :
  share_at coef p = foldl (λ s i, vec_add s (vec_mul (coef !!! Z.to_nat i) (vec_of_int (Z.lxor p i)))) 0
                      (seqZ 0 (Z.of_nat (length coef))).
Proof.
  unfold share_at.
  enough (∀ pre cs s,
    foldl (λ s '(i, c), vec_add s (vec_mul c (vec_of_int (Z.lxor p i)))) s
      (zip (seqZ (Z.of_nat (length pre)) (Z.of_nat (length cs))) cs)
    = foldl (λ s i, vec_add s (vec_mul ((pre ++ cs) !!! Z.to_nat i) (vec_of_int (Z.lxor p i)))) s
      (seqZ (Z.of_nat (length pre)) (Z.of_nat (length cs)))) as H by apply (H []).
  intros pre cs. revert pre. induction cs as [|c cs IH]; intros pre s; [done|].
  rewrite seqZ_cons by (cbn [length]; lia).
  replace (Z.pred (Z.of_nat (length (c :: cs)))) with (Z.of_nat (length cs)) by (cbn [length]; lia).
  cbn [zip zip_with foldl]. rewrite Nat2Z.id, list_lookup_total_middle by done.
  specialize (IH (pre ++ [c])). rewrite length_app, <-app_assoc in IH. cbn [length app] in IH.
  replace (Z.of_nat (length pre + 1)) with (Z.succ (Z.of_nat (length pre))) in IH by lia. apply IH.
Qed.

Lemma share_secret_spec t n secret ks : 0 ≤ n → Z.of_nat (length ks) = t →
  share_secret t n (share_points n) (secret :: ks)
    = Ok (secret :: (share_at (secret :: ks) <$> seqZ 1 n)).
Proof.
  intros Hn Ht. unfold share_secret. change (vget (secret :: ks) 0) with (Ok secret).
  replace (Z.to_nat (n + 1)) with (S (Z.to_nat n)) by lia.
  change (replicate (S (Z.to_nat n)) 0) with (0 :: replicate (Z.to_nat n) 0).
  cbn [mbind outcome_bind]. rewrite vset_Ok by (cbn [length]; lia). cbn [mbind outcome_bind].
  change (<[Z.to_nat 0:=secret]> (0 :: replicate (Z.to_nat n) 0)) with (secret :: replicate (Z.to_nat n) 0).
  destruct (foldM_inv (λ k shares, shares = (secret :: (share_at (secret :: ks) <$> seqZ 1 (Z.of_nat k)))
                                     ++ replicate (Z.to_nat n - k) 0)
    (λ shares j, foldM (add_term (secret :: ks) (share_points n) j) shares (seqZ 0 (t + 1)))
    (seqZ 1 n) (secret :: replicate (Z.to_nat n) 0)) as (r & -> & ->).
  - by rewrite Nat.sub_0_r.
  - intros k j shares Hk ->. apply lookup_seqZ in Hk as [-> Hk].
    erewrite (add_terms _ _ (1 + Z.of_nat k) (1 + Z.of_nat k) _ _ 0).
    + eexists. split; [done|]. replace (Z.to_nat n - k)%nat with (S (Z.to_nat n - S k)) by lia.
      cbn [replicate]. rewrite insert_app_r_alt.
      * replace (Z.to_nat (1 + Z.of_nat k) - length (secret :: (share_at (secret :: ks) <$> seqZ 1 (Z.of_nat k))))%nat
          with 0%nat by (cbn [length]; rewrite length_fmap, length_seqZ; lia).
        replace (Z.of_nat (S k)) with (Z.of_nat k + 1) by lia. rewrite (seqZ_app 1 (Z.of_nat k) 1), fmap_app by lia.
        change (seqZ (1 + Z.of_nat k) 1) with [1 + Z.of_nat k]. cbn [fmap list_fmap].
        rewrite app_comm_cons, <-app_assoc. cbn [app]. f_equal.
        cbv [insert list_insert]. f_equal. rewrite share_at_indices. cbn [length].
        replace (Z.of_nat (S (length ks))) with (t + 1) by lia. done.
      * cbn [length]. rewrite length_fmap, length_seqZ. lia.
    + rewrite lookup_app_r by (cbn [length]; rewrite length_fmap, length_seqZ; lia).
      apply lookup_replicate_2. cbn [length]. rewrite length_fmap, length_seqZ. lia.
    + lia.
    + apply share_points_lookup. lia.
    + apply Forall_seqZ. cbn [length]. lia.
  - rewrite length_seqZ, Nat.sub_diag, app_nil_r, Z2Nat.id by lia. done.
Qed.

(** ** Arithmetic modulo [2 ^ 64] *)
Lemma u64_congr x y k : x = y + k * 2 ^ 64 → u64 x = u64 y.
Proof. intros ->. apply Z.mod_add. lia. Qed.

Lemma u64_quot x : ∃ k, u64 x = x + k * 2 ^ 64.
Proof. exists (- (x / 2 ^ 64)). unfold u64. rewrite Z.mod_eq by lia. lia. Qed.

(** Replaces every wrapped value by the value and a multiple of [2 ^ 64]. *)
Ltac unwrap :=
  repeat match goal with
  | |- context [u64 ?x] =>
      let k := fresh "k" in let E := fresh "E" in
      lazymatch goal with
      | |- u64 x = _ => fail
      | |- _ = u64 x => fail
      | _ => destruct (u64_quot x) as [k E]; rewrite E; clear E
      end
  end.

Lemma lane_term b s c m : lane b (vec_add s (vec_mul c (vec_of_int m))) = u64 (lane b s + lane b c * m).
Proof.
  unfold vec_add, vec_mul. rewrite !lane_zip, lane_of_int.
  destruct (u64_quot m) as [k ->].
  destruct (u64_quot (lane b c * (m + k * 2 ^ 64))) as [k' ->].
  apply u64_congr with (lane b c * k + k'). ring.
Qed.

(** A share of degree three, lane by lane. *)
Lemma lane_share b c0 c1 c2 c3 p :
  lane b (share_at [c0; c1; c2; c3] p)
    = u64 (lane b c0 * Z.lxor p 0 + lane b c1 * Z.lxor p 1 + lane b c2 * Z.lxor p 2 + lane b c3 * Z.lxor p 3).
Proof.
  change (share_at [c0; c1; c2; c3] p) with
    (foldl (λ s '(i, c), vec_add s (vec_mul c (vec_of_int (Z.lxor p i)))) 0 [(0, c0); (1, c1); (2, c2); (3, c3)]).
  cbn [foldl]. rewrite !lane_term.
  assert (lane b 0 = 0) as -> by by destruct b.
  match goal with |- u64 (u64 (u64 (u64 ?x + ?y) + ?z) + ?w) = _ =>
    destruct (u64_quot x) as [k1 ->];
    destruct (u64_quot (x + k1 * 2 ^ 64 + y)) as [k2 ->];
    destruct (u64_quot (x + k1 * 2 ^ 64 + y + k2 * 2 ^ 64 + z)) as [k3 ->] end.
  apply u64_congr with (k1 + k2 + k3). ring.
Qed.

Lemma share_at_word coef p : is_word 128 (share_at coef p).
Proof.
  rewrite share_at_indices. destruct (seqZ 0 _) as [|i l] using rev_ind; [by split|].
  rewrite foldl_app. cbn [foldl]. apply vec_add_word.
Qed.

(** [points[j]^i] for the four coefficients. *)
Lemma xor_low p i : 0 ≤ p → 0 ≤ i < 4 → Z.lxor p i = 4 * (p / 4) + Z.lxor (p mod 4) i.
Proof.
  intros Hp Hi. pose proof (Z.mod_pos_bound p 4 ltac:(lia)) as Hm.
  assert (D : ∀ x, 0 ≤ x < 4 → Z.land (4 * (p / 4)) x = 0).
  { intros x Hx. apply Z.bits_inj'. intros j Hj. rewrite Z.land_spec, Z.bits_0.
    change 4 with (2 ^ 2). rewrite Z.mul_comm. destruct (Z.ltb_spec j 2).
    - by rewrite Z.mul_pow2_bits_low.
    - rewrite (is_word_high 2 x) by (done || lia). apply andb_false_r. }
  rewrite (Z.div_mod p 4) at 1 by lia. rewrite Z.add_nocarry_lxor by auto.
  rewrite Z.lxor_assoc, <-Z.add_nocarry_lxor; [done|]. apply D.
  apply (is_word_lxor 2); [lia|exact Hm|exact Hi].
Qed.

Lemma xor_sum p : 0 ≤ p → Z.lxor p 0 + Z.lxor p 3 = Z.lxor p 1 + Z.lxor p 2.
Proof.
  intros Hp. rewrite !(xor_low p) by lia. pose proof (Z.mod_pos_bound p 4 ltac:(lia)).
  generalize (4 * (p / 4)); intros q.
  assert (p mod 4 = 0 ∨ p mod 4 = 1 ∨ p mod 4 = 2 ∨ p mod 4 = 3) as [->|[->|[->| ->]]] by lia;
    repeat match goal with |- context [Z.lxor ?a ?b] =>
      let v := eval vm_compute in (Z.lxor a b) in change (Z.lxor a b) with v end; lia.
Qed.

(** ** The shares do not hold the secret *)

(** The coefficients that give the same shares to another secret. *)
Definition shifted (secret secret' c1 c2 c3 : Key) : list Key :=
  let k := vec_zip Z.sub secret' secret in
  [secret'; vec_zip Z.sub c1 k; vec_zip Z.sub c2 k; vec_add c3 k].

Lemma shifted_shares secret secret' c1 c2 c3 p : 0 ≤ p →
  share_at (shifted secret secret' c1 c2 c3) p = share_at [secret; c1; c2; c3] p.
Proof.
  intros Hp. apply lanes_ext; [apply share_at_word..|]. intros b. unfold shifted, vec_add.
  rewrite !lane_share, !lane_zip. pose proof (xor_sum p Hp) as E.
  destruct (u64_quot (lane b secret' - lane b secret)) as [k ->].
  set (d := lane b secret' - lane b secret + k * 2 ^ 64).
  destruct (u64_quot (lane b c1 - d)) as [k1 ->]. destruct (u64_quot (lane b c2 - d)) as [k2 ->].
  destruct (u64_quot (lane b c3 + d)) as [k3 ->].
  apply u64_congr with (k1 * Z.lxor p 1 + k2 * Z.lxor p 2 + (k + k3) * Z.lxor p 3
                        - k * (Z.lxor p 1 + Z.lxor p 2)).
  replace (Z.lxor p 0) with (Z.lxor p 1 + Z.lxor p 2 - Z.lxor p 3) by lia. unfold d. ring.
Qed.

(** C14. With four coefficients, as the code has, the shares say nothing about the secret:
    whatever the number of servers, for every secret there are coefficients that give
    all the servers the same shares.  The code multiplies with [points[j]^i], an
    exclusive or, where the power is meant; no reconstruction can succeed. *)
Theorem shares_lose_secret n secret secret' ks : 0 ≤ n → length ks = 3%nat →
  ∃ ks' shares, length ks' = 3%nat ∧ Forall (is_word 128) ks' ∧
    share_secret 3 n (share_points n) (secret :: ks) = Ok (secret :: shares) ∧
    share_secret 3 n (share_points n) (secret' :: ks') = Ok (secret' :: shares).
Proof.
  intros Hn Hl. destruct ks as [|c1 [|c2 [|c3 [|]]]]; try done.
  exists (tail (shifted secret secret' c1 c2 c3)), (share_at [secret; c1; c2; c3] <$> seqZ 1 n).
  split; [done|]. split; [repeat constructor; apply key_lanes_word|].
  rewrite !share_secret_spec by done. split; [done|]. f_equal. f_equal.
  apply list_fmap_ext. intros i p (-> & _)%lookup_seqZ. apply shifted_shares. lia.
Qed.

(** ** Masking *)

(** An array whose elements [1] to [k] are written. *)
Definition filled (n k : nat) (l : list Key) : list Key := 0 :: take k l ++ replicate (n - k) 0.

Lemma filled_0 n l : filled n 0 l = replicate (S n) 0.
Proof. unfold filled. by rewrite Nat.sub_0_r. Qed.

Lemma filled_all l : filled (length l) (length l) l = 0 :: l.
Proof. unfold filled. by rewrite Nat.sub_diag, app_nil_r, firstn_all. Qed.

Lemma vset_filled n l k x : l !! k = Some x → (k < n)%nat →
  vset (filled n k l) (Z.of_nat k + 1) x = Ok (filled n (S k) l).
Proof.
  intros Hx Hk. apply lookup_lt_Some in Hx as Hl. unfold filled.
  replace (n - k)%nat with (S (n - S k)) by lia. rewrite (take_S_r _ _ x) by done.
  replace (Z.of_nat k + 1) with (Z.of_nat (length (0 :: take k l))) by (cbn [length]; rewrite length_take; lia).
  rewrite !app_comm_cons. apply vset_front.
Qed.

Lemma vget_tail {A} (x0 : A) l k x : l !! k = Some x → vget (x0 :: l) (Z.of_nat k + 1) = Ok x.
Proof. intros Hx. apply vget_Ok; [lia|]. by replace (Z.to_nat (Z.of_nat k + 1)) with (S k) by lia. Qed.

Lemma vget_filled n l k x : l !! k = Some x → vget (filled n (S k) l) (Z.of_nat k + 1) = Ok x.
Proof.
  intros Hx. apply vget_tail. apply lookup_lt_Some in Hx as Hl.
  rewrite lookup_app_l by (rewrite length_take; lia). rewrite lookup_take_lt by lia. done.
Qed.

Section masks.
Context `{Sha256} (s0 pw : Key) (ss outs : list Key) (n : nat) (Hs : length ss = n) (Ho : length outs = n).

Definition masks_of : list Key := oprf_mask pw <$> outs.
Definition masked_of : list Key := zip_with (λ s o, Z.lxor s (oprf_mask pw o)) ss outs.

Lemma masked_lookup k : (k < n)%nat → ∃ s o, ss !! k = Some s ∧ outs !! k = Some o ∧
  masks_of !! k = Some (oprf_mask pw o) ∧ masked_of !! k = Some (Z.lxor s (oprf_mask pw o)).
Proof.
  intros Hk. destruct (lookup_lt_is_Some_2 ss k ltac:(lia)) as [s Es].
  destruct (lookup_lt_is_Some_2 outs k ltac:(lia)) as [o Eo]. exists s, o. split_and!; try done.
  - unfold masks_of. by rewrite list_lookup_fmap, Eo.
  - unfold masked_of. by rewrite lookup_zip_with, Es, Eo.
Qed.

Lemma mask_step k : (k < n)%nat →
  mask_share (s0 :: ss) (0 :: replicate n pw) (0 :: outs) (filled n k masks_of, filled n k masked_of) (Z.of_nat k)
    = Ok (filled n (S k) masks_of, filled n (S k) masked_of).
Proof.
  intros Hk. destruct (masked_lookup k Hk) as (s & o & Es & Eo & Em & Ed). unfold mask_share.
  rewrite (vget_tail 0 (replicate n pw) k pw), (vget_tail 0 outs k o) by (done || by apply lookup_replicate_2).
  cbn [mbind outcome_bind]. rewrite vset_filled by done. cbn [mbind outcome_bind].
  rewrite (vget_tail s0 ss k s), (vget_filled n masks_of k (oprf_mask pw o)) by done. cbn [mbind outcome_bind].
  by rewrite vset_filled by done.
Qed.

Lemma mask_shares_spec :
  mask_shares (Z.of_nat n) (s0 :: ss) (0 :: replicate n pw) (0 :: outs) = Ok (0 :: masks_of, 0 :: masked_of).
Proof.
  unfold mask_shares. replace (Z.to_nat (Z.of_nat n + 1)) with (S n) by lia.
  rewrite <-(filled_0 n masks_of) at 1. rewrite <-(filled_0 n masked_of).
  destruct (foldM_inv (λ k st, st = (filled n k masks_of, filled n k masked_of))
    (mask_share (s0 :: ss) (0 :: replicate n pw) (0 :: outs)) (seqZ 0 (Z.of_nat n))
    (filled n 0 masks_of, filled n 0 masked_of)) as (st & -> & ->); [done| |].
  - intros k j st [-> Hk]%lookup_seqZ ->. eexists. split; [apply mask_step; lia|done].
  - rewrite length_seqZ, Nat2Z.id. do 2 f_equal.
    + rewrite <-filled_all. unfold masks_of. by rewrite length_fmap, Ho.
    + rewrite <-filled_all. unfold masked_of. rewrite length_zip_with. by rewrite Hs, Ho, Nat.min_id.
Qed.

(** Undoing the masks leaves the shares. *)
Lemma mask_unmask_spec :
  foldM (λ '(oprf, e, shares) j,
      '(oprf, e) ← mask_share shares (0 :: replicate n pw) (0 :: outs) (oprf, e) j;
      shares ← unmask_share oprf e shares j;
      Ok (oprf, e, shares)) (replicate (S n) 0, replicate (S n) 0, s0 :: ss) (seqZ 0 (Z.of_nat n))
    = Ok (0 :: masks_of, 0 :: masked_of, s0 :: ss).
Proof.
  rewrite <-(filled_0 n masks_of) at 1. rewrite <-(filled_0 n masked_of).
  match goal with |- foldM ?f ?a ?l = _ =>
    destruct (foldM_inv (λ k st, st = (filled n k masks_of, filled n k masked_of, s0 :: ss)) f l a) as (st & -> & ->) end;
    [done| |].
  - intros k j st [-> Hk]%lookup_seqZ ->. eexists. split; [|done]. rewrite Z.add_0_l, mask_step by lia.
    cbn [mbind outcome_bind]. destruct (masked_lookup k) as (s & o & Es & Eo & Em & Ed); [lia|].
    unfold unmask_share. rewrite (vget_filled _ _ _ _ Em), (vget_filled _ _ _ _ Ed). cbn [mbind outcome_bind].
    rewrite Z.lxor_assoc, Z.lxor_nilpotent, Z.lxor_0_r, vset_Ok by (cbn [length]; lia).
    cbn [mbind outcome_bind]. rewrite list_insert_id; [done|].
    by replace (Z.to_nat (Z.of_nat k + 1)) with (S k) by lia.
  - rewrite length_seqZ, Nat2Z.id. do 3 f_equal.
    + rewrite <-filled_all. unfold masks_of. by rewrite length_fmap, Ho.
    + rewrite <-filled_all. unfold masked_of. rewrite length_zip_with. by rewrite Hs, Ho, Nat.min_id.
Qed.

Lemma masked_length : length masked_of = n.
Proof. unfold masked_of. rewrite length_zip_with. lia. Qed.

Lemma unmasked : zip_with (λ e o, Z.lxor e (oprf_mask pw o)) masked_of outs = ss.
Proof.
  apply (list_eq_same_length _ _ n); [done|rewrite length_zip_with, masked_length; lia|].
  intros k x y Hk. rewrite lookup_zip_with.
  destruct (masked_lookup k Hk) as (s & o & -> & -> & _ & ->). cbn.
  rewrite Z.lxor_assoc, Z.lxor_nilpotent, Z.lxor_0_r. by intros [= <-] [= <-].
Qed.
End masks.

Lemma copy_elements_spec x l : copy_elements (Z.of_nat (length l)) (x :: l) = Ok (mjoin (le_bytes 16 <$> l)).
Proof.
  unfold copy_elements. rewrite (mapM_out_Ok (λ j, l !!! Z.to_nat j)).
  - cbn [mbind outcome_bind]. do 3 f_equal. apply (list_eq_same_length _ _ (length l));
      [rewrite ?length_fmap, ?length_seqZ; lia..|].
    intros k a b Hk. rewrite list_lookup_fmap, lookup_seqZ_lt by lia. cbv [fmap option_fmap option_map].
    rewrite Z.add_0_l, Nat2Z.id. intros [= <-] Hb.
    by apply list_lookup_total_correct.
  - intros j Hj. apply elem_of_seqZ in Hj. replace j with (Z.of_nat (Z.to_nat j)) at 1 by lia.
    apply vget_tail. apply list_lookup_lookup_total_lt. lia.
Qed.

(** ** The draws of the client *)
Definition draw (key : list Block) (i : Z) : Key := le_val (block_at key i).
Definition room_for (p n : Z) : Prop := 0 ≤ p ∧ 0 ≤ n ∧ 16 * (p + n) < prng_limit - 256.

Lemma draw_one G key p : at_pos G key (16 * p) → room_for p 1 →
  ∃ G', prng_get_doubleword G = Ok (draw key p, G') ∧ at_pos G' key (16 * (p + 1)).
Proof.
  intros HG [Hp Hm]. destruct (draw_doublewords_spec 1 G key p HG) as (G' & E & HG' & _); [lia..|].
  exists G'. cbn [draw_doublewords] in E. destruct (prng_get_doubleword G) as [[x g]| |]; [|done..].
  cbn [mbind outcome_bind] in E. change (seqZ p (Z.of_nat 1)) with [p] in E. injection E as -> ->. done.
Qed.

Lemma draw_many G key p n : at_pos G key (16 * p) → room_for p n →
  ∃ G', draw_doublewords (Z.to_nat n) G = Ok (draw key <$> seqZ p n, G') ∧ at_pos G' key (16 * (p + n)).
Proof.
  intros HG (Hp & Hn & Hm). destruct (draw_doublewords_spec (Z.to_nat n) G key p HG) as (G' & E & HG' & _); [lia..|].
  rewrite Z2Nat.id in E, HG' by lia. by exists G'.
Qed.

Lemma pick_coefs_spec t G key p : at_pos G key (16 * p) → room_for p (t + 1) → 0 ≤ t →
  ∃ G', pick_coefs t G = Ok (draw key p :: (draw key <$> seqZ (p + 1) t), G') ∧
        at_pos G' key (16 * (p + 1 + t)).
Proof.
  intros HG (? & ? & ?) Ht. unfold pick_coefs.
  destruct (draw_one G key p HG) as (G1 & -> & Hg1); [unfold room_for; lia|]. cbn [mbind outcome_bind].
  destruct (draw_many G1 key (p + 1) t Hg1) as (G2 & -> & Hg2); [unfold room_for; lia|]. by exists G2.
Qed.

Lemma gc_values_spec n G key p : at_pos G key (16 * p) → room_for p (n + 1) → 0 ≤ n →
  ∃ G', gc_values n G = Ok (0 :: (draw key <$> seqZ p n), 0 :: replicate (Z.to_nat n) (draw key (p + n)),
                            draw key (p + n), G') ∧ at_pos G' key (16 * (p + n + 1)).
Proof.
  intros HG (? & ? & ?) Hn. unfold gc_values.
  destruct (draw_many G key p n HG) as (G1 & -> & Hg1); [unfold room_for; lia|]. cbn [mbind outcome_bind].
  destruct (draw_one G1 key (p + n) Hg1) as (G2 & -> & Hg2); [unfold room_for; lia|]. by exists G2.
Qed.

(** ** The message of the client *)
Section init.
Context `{Sha256}.

(** What an honest client has after the loops, in terms of its draws. *)
Definition client_shares (key : list Block) (p t n : Z) : list Key :=
  share_at (draw key <$> seqZ p (t + 1)) <$> seqZ 1 n.
Definition client_outs (key : list Block) (p t n : Z) : list Key := draw key <$> seqZ (p + t + 1) n.
Definition client_pw (key : list Block) (p t n : Z) : Key := draw key (p + t + 1 + n).
Definition octets_of (l : list Key) : list Z := mjoin (le_bytes 16 <$> l).
Definition commitment_of (pw : Key) (es shares : list Key) (secret : Key) : list Z :=
  sha256_bytes (le_bytes 16 pw ++ octets_of es ++ octets_of shares ++ take 16 (sha256_bytes (le_bytes 16 secret))).

Lemma octets_of_length l : length (octets_of l) = (16 * length l)%nat.
Proof.
  unfold octets_of. induction l as [|x l IH]; [done|].
  cbn [fmap list_fmap mjoin list_join]. rewrite length_app, le_bytes_length.
  etransitivity; [apply (f_equal (Nat.add 16)), IH|cbn [length]; lia].
Qed.

Lemma octets_of_u8 l : Forall is_u8 (octets_of l).
Proof. apply Forall_join, Forall_fmap, Forall_true. intros x. apply le_bytes_u8. Qed.

Lemma commit_spec pw e0 es x0 shares secret : length es = length shares →
  ppss_commit (Z.of_nat (length es)) pw (e0 :: es) (x0 :: shares) (parse_hash secret).1
    = Ok (commitment_of pw es shares secret).
Proof.
  intros Hl. unfold ppss_commit. rewrite copy_elements_spec, Hl, copy_elements_spec.
  reflexivity.
Qed.

Context `{!Sha256Laws} `{Heap}.

Lemma client_shares_eq key p t n : 0 ≤ t →
  share_at (draw key p :: (draw key <$> seqZ (p + 1) t)) <$> seqZ 1 n = client_shares key p t n.
Proof.
  intros Ht. unfold client_shares. rewrite (seqZ_cons p) by lia. by replace (Z.pred (t + 1)) with t by lia.
Qed.

Lemma client_init_spec t n G key p : 0 ≤ t → 0 ≤ n → at_pos G key (16 * p) → room_for p (t + n + 2) →
  let pw := client_pw key p t n in
  let shares := client_shares key p t n in
  let es := masked_of pw shares (client_outs key p t n) in
  ∃ G', client_init t n G = (os ← store_bytes os_new (octets_of es ++ commitment_of pw es shares (draw key p)); Ok (os, G')).
Proof.
  intros Ht Hn HG (? & ? & ?) pw shares es. unfold client_init.
  destruct (pick_coefs_spec t G key p HG) as (G1 & -> & Hg1); [unfold room_for; lia|done|].
  cbn [mbind outcome_bind].
  rewrite share_secret_spec by (rewrite ?length_fmap, ?length_seqZ; lia). cbn [mbind outcome_bind].
  replace (p + 1 + t) with (p + t + 1) in Hg1 by lia.
  destruct (gc_values_spec n G1 key _ Hg1) as (G2 & -> & Hg2); [unfold room_for; lia|done|]. cbn [mbind outcome_bind].
  rewrite (client_shares_eq key p t n) by done. fold (client_outs key p t n) (client_pw key p t n). fold pw shares.
  assert (Hs : length shares = Z.to_nat n) by (unfold shares, client_shares; by rewrite length_fmap, length_seqZ).
  assert (Ho : length (client_outs key p t n) = Z.to_nat n) by (unfold client_outs; by rewrite length_fmap, length_seqZ).
  pose proof (mask_shares_spec (draw key p) pw shares (client_outs key p t n) _ Hs Ho) as E.
  pose proof (masked_length pw shares (client_outs key p t n) _ Hs Ho) as Hm. fold es in E, Hm.
  rewrite Z2Nat.id in E by lia. rewrite E. cbn [mbind outcome_bind].
  change (vget (draw key p :: (draw key <$> seqZ (p + 1) t)) 0) with (Ok (draw key p)). cbn [mbind outcome_bind].
  pose proof (commit_spec pw 0 es (draw key p) shares (draw key p) ltac:(congruence)) as C.
  pose proof (copy_elements_spec 0 es) as C'. rewrite Hm, Z2Nat.id in C, C' by lia.
  unfold parse_hash in *. cbn [fst] in C. rewrite C, C'. cbn [mbind outcome_bind]. by exists G2.
Qed.
End init.

Lemma reset_write_head_wf os : os_wf os → os_wf (reset_write_head os).
Proof.
  intros [_ _ Hm Hu [_ Ho] [_ Hi]]. split; [by split|apply Nat2Z.is_nonneg|exact Hm|exact Hu|..]; by split.
Qed.

(** C13. What the client sends in the initialisation, for any threshold and number of
    servers: the server receives one string, the [n] masked shares and the commitment,
    and nothing is left of the message.  Whoever knows the password and the outputs of
    the garbled circuits takes the masks off and has the shares, and the commitment is
    the hash of the password, the masked shares, the shares and the first half of the
    hash of the secret. *)
Theorem client_init_message `{Sha256} `{!Sha256Laws} `{Heap} t n G key p P receiver wire_in :
  0 ≤ t → 0 ≤ n < 2 ^ 26 → at_pos G key (16 * p) → room_for p (t + n + 2) → os_wf receiver →
  let shares := client_shares key p t n in
  let outs := client_outs key p t n in
  let pw := client_pw key p t n in
  ∃ es C os G' wire o o',
    client_init t n G = Ok (os, G') ∧ length es = Z.to_nat n ∧
    link_send P os = Ok (mkLink (l_out P ++ wire) (l_in P)) ∧
    (∀ out, link_receive (mkLink out (wire ++ wire_in)) receiver = Ok (o, mkLink out wire_in)) ∧
    get_bytes o = Ok (octets_of es ++ C, o') ∧
    zip_with (λ e out, Z.lxor e (oprf_mask pw out)) es outs = shares ∧
    C = commitment_of pw es shares (draw key p).
Proof.
  intros Ht Hn HG Hr Hw shares outs pw.
  destruct (client_init_spec t n G key p Ht ltac:(lia) HG Hr) as (G' & E). cbn zeta in E.
  fold shares outs pw in E. set (es := masked_of pw shares outs) in E.
  set (C := commitment_of pw es shares (draw key p)) in E.
  assert (Hs : length shares = Z.to_nat n) by (unfold shares, client_shares; by rewrite length_fmap, length_seqZ).
  assert (Ho : length outs = Z.to_nat n) by (unfold outs, client_outs; by rewrite length_fmap, length_seqZ).
  pose proof (masked_length pw shares outs _ Hs Ho) as Hm.
  assert (Hu : Forall is_u8 (octets_of es ++ C)) by (apply Forall_app; split; [apply octets_of_u8|apply sha256_u8]).
  assert (Hl : length (octets_of es ++ C) = (16 * Z.to_nat n + 32)%nat).
  { unfold C, commitment_of. rewrite length_app, octets_of_length, sha256_length. unfold es. lia. }
  destruct (message (λ w, store_bytes w (octets_of es ++ C)) get_bytes _ _ (carries_bytes _ Hu ltac:(lia))
    (λ w', store_bytes_out os_new _ w' eq_refl) ltac:(lia)) as (w & wire & Ew & Es & Hrd).
  destruct (Hrd (reset_write_head receiver) wire_in (reset_write_head_wf _ Hw)) as (o & o' & Er & Eg).
  exists es, C, w, G', wire, o, o'. rewrite E, Ew.
  split; [done|]. split; [done|]. split; [unfold link_send; by rewrite Es|]. split; [|split; [done|split; [|done]]].
  - intros out. unfold link_receive. cbn [l_in l_out]. by rewrite Er.
  - by apply unmasked with (n := Z.to_nat n).
Qed.

(** ** Reconstruction

    The table [res] for [t = 3] and [n = 5]: quotients are truncated, and only the lower
    lane starts at one. *)
Lemma lagrange_3_5 : lagrange 3 5 (share_points 5) =
  Ok [[1; 1; 1; 1; 1; 1]; [2; 1; 1; 1; 1; 0]; [18446744073709551610; 1; 1; 1; 1; 0];
      [0; 1; 1; 1; 1; 18446744073709551610]; [0; 1; 1; 1; 1; 2]].
Proof. vm_compute. reflexivity. Qed.

Lemma reconstruct_3_5 s0 s1 s2 s3 s4 s5 :
  let x := vec_add (vec_add (vec_add (vec_add 0 (vec_mul s1 2)) (vec_mul s2 18446744073709551610))
             (vec_mul s3 0)) (vec_mul s4 0) in
  ∃ y, reconstruct 3 5 [s0; s1; s2; s3; s4; s5] = Ok [x; s1; s2; s3; s4; y].
Proof.
  intros x. unfold reconstruct. rewrite lagrange_3_5. cbn [mbind outcome_bind].
  eexists. cbv -[vec_add vec_mul x]. unfold x. reflexivity.
Qed.

Lemma lane_vec_add b x y : lane b (vec_add x y) = u64 (lane b x + lane b y).
Proof. apply lane_zip. Qed.
Lemma lane_vec_mul b x y : lane b (vec_mul x y) = u64 (lane b x * lane b y).
Proof. apply lane_zip. Qed.

Lemma lane_u64 b v : lane b (u64 v) = if b then 0 else u64 v.
Proof.
  destruct b; unfold lane, lane_hi, lane_lo, u64.
  - rewrite Z.shiftr_div_pow2, Z.div_small by (lia || apply Z.mod_pos_bound; lia). done.
  - by rewrite Z.mod_mod by lia.
Qed.

Lemma u64_word128 v : is_word 128 (u64 v).
Proof. unfold is_word, u64. pose proof (Z.mod_pos_bound v (2 ^ 64)). lia. Qed.

(** The value at zero that the code computes from the shares of [c0], ..., [c3]. *)
Lemma interpolated c0 c1 c2 c3 :
  let s := share_at [c0; c1; c2; c3] in
  vec_add (vec_add (vec_add (vec_add 0 (vec_mul (s 1) 2)) (vec_mul (s 2) 18446744073709551610))
    (vec_mul (s 3) 0)) (vec_mul (s 4) 0)
  = u64 (6 * lane_lo c2 - 10 * lane_lo c0 - 18 * lane_lo c1 - 2 * lane_lo c3).
Proof.
  intros s. apply lanes_ext; [apply vec_add_word|apply u64_word128|]. intros b. rewrite lane_u64.
  rewrite !lane_vec_add, !lane_vec_mul. unfold s. rewrite !lane_share. destruct b.
  - change (lane true 2) with 0. change (lane true 18446744073709551610) with 0. change (lane true 0) with 0.
    by rewrite !Z.mul_0_r.
  - change (lane false 2) with 2. change (lane false 18446744073709551610) with 18446744073709551610.
    change (lane false 0) with 0. rewrite !Z.mul_0_r, !Z.add_0_l. change (u64 0) with 0. rewrite !Z.add_0_r.
    unfold lane. generalize (lane_lo c0) (lane_lo c1) (lane_lo c2) (lane_lo c3). clear. intros a0 a1 a2 a3.
    repeat match goal with |- context [Z.lxor ?a ?b] =>
      let v := eval vm_compute in (Z.lxor a b) in change (Z.lxor a b) with v end.
    match goal with |- context [u64 (?x + a3 * 2) * 2] => destruct (u64_quot (x + a3 * 2)) as [k1 ->] end.
    match goal with |- context [u64 (?x + a3 * 1)] => destruct (u64_quot (x + a3 * 1)) as [k2 ->] end.
    unfold u64. rewrite !Z.mod_mod by lia. rewrite <-Z.add_mod by lia.
    match goal with |- ?x mod _ = ?y mod _ =>
      apply (u64_congr x y (2 * k1 + 18446744073709551610 * k2 + (2 * a0 + 3 * a1 + a3))) end.
    ring.
Qed.

Lemma client_reconstruct_spec `{Sha256} `{Heap} t n G key p P o P' :
  0 ≤ t → 0 ≤ n → at_pos G key (16 * p) → room_for p (t + n + 2) → link_receive P os_new = Ok (o, P') →
  let pw := client_pw key p t n in
  let shares := client_shares key p t n in
  let es := masked_of pw shares (client_outs key p t n) in
  ∃ G', length es = Z.to_nat n ∧ client_reconstruct t n G P =
    (shares ← reconstruct t n (draw key p :: shares);
     secret ← vget shares 0;
     comout ← ppss_commit n pw (0 :: es) shares (parse_hash secret).1;
     Ok (secret, comout, G', P')).
Proof.
  intros Ht Hn HG (? & ? & ?) HP pw shares es. unfold client_reconstruct.
  destruct (pick_coefs_spec t G key p HG) as (G1 & -> & Hg1); [unfold room_for; lia|done|].
  cbn [mbind outcome_bind].
  rewrite share_secret_spec by (rewrite ?length_fmap, ?length_seqZ; lia). cbn [mbind outcome_bind].
  replace (p + 1 + t) with (p + t + 1) in Hg1 by lia.
  destruct (gc_values_spec n G1 key _ Hg1) as (G2 & -> & Hg2); [unfold room_for; lia|done|]. cbn [mbind outcome_bind].
  rewrite (client_shares_eq key p t n) by done.
  fold (client_outs key p t n) (client_pw key p t n). fold pw shares.
  assert (Hs : length shares = Z.to_nat n) by (unfold shares, client_shares; by rewrite length_fmap, length_seqZ).
  assert (Ho : length (client_outs key p t n) = Z.to_nat n) by (unfold client_outs; by rewrite length_fmap, length_seqZ).
  pose proof (mask_unmask_spec (draw key p) pw shares (client_outs key p t n) _ Hs Ho) as E.
  pose proof (masked_length pw shares (client_outs key p t n) _ Hs Ho) as Hm. fold es in E, Hm.
  rewrite Z2Nat.id in E by lia. replace (Z.to_nat (n + 1)) with (S (Z.to_nat n)) by lia.
  rewrite E. cbn [mbind outcome_bind]. rewrite HP. cbn [mbind outcome_bind]. exists G2. split; [done|].
  destruct (reconstruct t n _); [|done..]. cbn [mbind outcome_bind].
  destruct (vget _ 0); [|done..]. cbn [mbind outcome_bind]. unfold parse_hash. done.
Qed.

Lemma client_shares_3_5 key p :
  let s := share_at [draw key p; draw key (p + 1); draw key (p + 2); draw key (p + 3)] in
  client_shares key p 3 5 = [s 1; s 2; s 3; s 4; s 5].
Proof.
  intros s. unfold client_shares. change (seqZ p (3 + 1)) with [p; 1 + p; 2 + p; 3 + p].
  change (seqZ 1 5) with [1; 2; 3; 4; 5]. cbn [fmap list_fmap].
  by rewrite (Z.add_comm 1), (Z.add_comm 2), (Z.add_comm 3).
Qed.

(** C15. What the reconstruction computes for the threshold and the number of servers of
    the code: it fails nowhere and reads nothing of the message it waits for, and the
    value is a fixed combination of the lower halves of the first four draws [c 0] to
    [c 3], of which [c 0] is the secret and the others are the coefficients drawn after
    it: the secret enters with the factor -10 where it should enter alone, because the
    quotients of the Lagrange basis are truncated and the powers are exclusive ors.  Its upper half is zero, so it is never a secret whose upper half
    is not. *)
Theorem reconstruction_misses_secret `{Sha256} `{Heap} G key p P o P' :
  at_pos G key (16 * p) → room_for p 10 → link_receive P os_new = Ok (o, P') →
  let c i := draw key (p + i) in
  ∃ s C G', client_reconstruct 3 5 G P = Ok (s, C, G', P') ∧
    s = u64 (6 * lane_lo (c 2) - 10 * lane_lo (c 0) - 18 * lane_lo (c 1) - 2 * lane_lo (c 3)) ∧
    (2 ^ 64 ≤ c 0 → s ≠ c 0).
Proof.
  intros HG Hr HP c.
  destruct (client_reconstruct_spec 3 5 G key p P o P') as (G' & Hl & E); [done..|].
  rewrite client_shares_3_5 in E, Hl. unfold c. rewrite Z.add_0_r.
  set (es := masked_of _ _ _) in E, Hl. set (pw := client_pw key p 3 5) in E.
  match type of E with context [reconstruct 3 5 [?x0; ?x1; ?x2; ?x3; ?x4; ?x5]] =>
    destruct (reconstruct_3_5 x0 x1 x2 x3 x4 x5) as (y & Er) end.
  rewrite interpolated in Er. rewrite Er in E. cbn [mbind outcome_bind] in E.
  set (s := u64 _) in E |- *.
  match type of E with context [vget (s :: ?l) 0] => change (vget (s :: l) 0) with (Ok s) in E end.
  cbn [mbind outcome_bind] in E.
  match type of E with context [ppss_commit 5 pw (0 :: es) (s :: ?l) _] =>
    pose proof (commit_spec pw 0 es s l s Hl) as C end.
  rewrite Hl in C. change (Z.of_nat (Z.to_nat 5)) with 5 in C. rewrite C in E. cbn [mbind outcome_bind] in E.
  eexists s, _, G'. split; [exact E|]. split; [done|]. intros Hc E'. rewrite <-E' in Hc.
  unfold s, u64 in Hc. pose proof (Z.mod_pos_bound (6 * lane_lo (draw key (p + 2)) - 10 * lane_lo (draw key p)
    - 18 * lane_lo (draw key (p + 1)) - 2 * lane_lo (draw key (p + 3))) (2 ^ 64) ltac:(lia)). lia.
Qed.

(** ** The server *)

(** The server of the reconstruction fills [n + 2] double words and packs elements
    [1] to [n + 2], the last of which is past the end: its run is undefined behaviour
    whatever the number of servers. *)
Theorem server_reconstruct_overruns `{Heap} n G key p P : 0 ≤ n → at_pos G key (16 * p) →
  room_for p (n + 2) → server_reconstruct n G P = UB.
Proof.
  intros Hn HG Hr. unfold server_reconstruct.
  destruct (draw_many G key p (n + 2) HG Hr) as (G' & -> & _). cbn [mbind outcome_bind].
  set (l := draw key <$> seqZ p (n + 2)). assert (Hl : length l = Z.to_nat (n + 2)) by (unfold l; by rewrite length_fmap, length_seqZ).
  enough (mapM_out (λ j, vget l (j + 1)) (seqZ 0 (n + 2)) = UB) as -> by done.
  replace (n + 2) with (n + 1 + 1) by lia. rewrite seqZ_app, mapM_out_app by lia.
  rewrite (mapM_out_Ok (λ j, l !!! Z.to_nat (j + 1)) _ (seqZ 0 (n + 1))).
  - cbn [mbind outcome_bind]. change (seqZ (0 + (n + 1)) 1) with [0 + (n + 1)]. cbn [mapM_out].
    unfold vget. destruct (Z.ltb_spec (0 + (n + 1) + 1) 0); [done|].
    by rewrite lookup_ge_None_2 by lia.
  - intros j Hj%elem_of_seqZ. apply vget_lt. lia.
Qed.

(** ** Witnesses *)
Lemma seeded_prng : ∃ G key, at_pos G key (16 * 0).
Proof.
  destruct (SetSeed_spec zero_prng (replicate 16 7)) as (G & _ & H & _).
  - split; [done|]. by apply Forall_replicate.
  - by exists G, (aes_128_schedule (replicate 16 7)).
Qed.

Lemma shares_lose_secret_witness : ∃ ks' shares,
  share_secret 3 10 (share_points 10) [5; 1; 2; 3] = Ok (5 :: shares) ∧
  share_secret 3 10 (share_points 10) (2 ^ 100 :: ks') = Ok (2 ^ 100 :: shares).
Proof.
  destruct (shares_lose_secret 10 5 (2 ^ 100) [1; 2; 3]) as (ks' & shares & _ & _ & E1 & E2); [lia|done|].
  exists ks', shares. split; [exact E1|exact E2].
Defined.

Lemma client_init_message_witness : ∃ G os G' wire o es C o',
  @client_init toy_sha256 zero_heap 3 10 G = Ok (os, G') ∧ link_send (mkLink [] []) os = Ok (mkLink wire []) ∧
  link_receive (mkLink [] (wire ++ [9])) os_new = Ok (o, mkLink [] [9]) ∧
  get_bytes o = Ok (octets_of es ++ C, o') ∧ length es = 10%nat.
Proof.
  destruct seeded_prng as (G & key & HG).
  destruct (@client_init_message toy_sha256 toy_sha256_laws zero_heap 3 10 G key 0 (mkLink [] []) os_new [9])
    as (es & C & os & G' & wire & o & o' & E1 & E2 & E3 & E4 & E5 & _);
    [lia|lia|exact HG|by split|exact os_new_wf|].
  exists G, os, G', wire, o, es, C, o'. split; [exact E1|]. split; [exact E3|]. split; [exact (E4 [])|].
  split; [exact E5|exact E2].
Defined.

Lemma reconstruction_misses_secret_witness : ∃ G s C G',
  @client_reconstruct toy_sha256 zero_heap 3 5 G (mkLink [] [0; 0; 0; 0]) = Ok (s, C, G', mkLink [] []) ∧ s < 2 ^ 64.
Proof.
  destruct seeded_prng as (G & key & HG).
  destruct (@reconstruction_misses_secret toy_sha256 zero_heap G key 0 (mkLink [] [0; 0; 0; 0]) os_new (mkLink [] []))
    as (s & C & G' & E & Es & _); [exact HG|by split|reflexivity|].
  exists G, s, C, G'. split; [exact E|]. rewrite Es. apply Z.mod_pos_bound. reflexivity.
Defined.

Lemma server_reconstruct_overruns_witness : ∃ G, @server_reconstruct zero_heap 5 G (mkLink [] []) = UB.
Proof.
  destruct seeded_prng as (G & key & HG). exists G.
  apply (@server_reconstruct_overruns zero_heap 5 G key 0); [lia|exact HG|by split].
Defined.
