(* ===== verification/BaseOt.v ===== *)
(** * Base OTs

    [BaseOT] and [FakeOT] of [OT/BaseOT.h] and [OT/BaseOT.cpp], and
    [OTExtensionWithMatrix::setup]: the 128 OTs that seed the OT extension.  Kyber
    ([deps/KyberOT]) and the hash of libsodium are interfaces. *)

From S2P Require Import Prelude Memory OctetStream Xor Block Aes YaoKey Random BitVector Square128 Gf2n OtMatrix OtExtension Commit.

(** The two messages and the strings of the OT from Kyber ([KyberOT.h]); [R] is the
    state of [randombytes]. *)
Class Kyber (R : Type) := {
  PKlength : nat;
  CTlength : nat;
  randombytes : nat → R → list Z * R;
  KyberReceiverMessage : bool → R → (list Z * (list Z * list Z)) * R;
  KyberSenderMessage : list Z * list Z → list Z * list Z → R → (list Z * list Z) * R;
  KyberReceiverStrings : bool → list Z → list Z * list Z → list Z;
}.

(** The lengths of the arrays, and that the receiver learns the string it chose. *)
Class KyberLaws (R : Type) `{Kyber R} := {
  randombytes_length n r : length (randombytes n r).1 = n;
  randombytes_u8 n r : Forall is_u8 (randombytes n r).1;
  kyber_keys_length b r : length (KyberReceiverMessage b r).1.2.1 = PKlength ∧
    length (KyberReceiverMessage b r).1.2.2 = PKlength;
  kyber_keys_u8 b r : Forall is_u8 (KyberReceiverMessage b r).1.2.1 ∧
    Forall is_u8 (KyberReceiverMessage b r).1.2.2;
  kyber_ctxt_length m pks r : length (KyberSenderMessage m pks r).1.1 = CTlength ∧
    length (KyberSenderMessage m pks r).1.2 = CTlength;
  kyber_ctxt_u8 m pks r : Forall is_u8 (KyberSenderMessage m pks r).1.1 ∧
    Forall is_u8 (KyberSenderMessage m pks r).1.2;
  kyber_strings_length b sk c : length (KyberReceiverStrings b sk c) = 32%nat;
  kyber_strings_u8 b sk c : Forall is_u8 (KyberReceiverStrings b sk c);
}.

(** ** The state *)
Record BaseOT := mkBase {
  b_nOT : Z;
  b_role : Z;
  b_receiver_inputs : BitVector;
  b_sender_inputs : list (BitVector * BitVector);
  b_receiver_outputs : list BitVector;
  b_G_sender : list (PRNG * PRNG);
  b_G_receiver : list PRNG;
}.

Definition with_receiver_inputs (o : BaseOT) (v : BitVector) : BaseOT :=
  mkBase (b_nOT o) (b_role o) v (b_sender_inputs o) (b_receiver_outputs o) (b_G_sender o) (b_G_receiver o).
Definition with_strings (o : BaseOT) (si : list (BitVector * BitVector)) (ro : list BitVector) : BaseOT :=
  mkBase (b_nOT o) (b_role o) (b_receiver_inputs o) si ro (b_G_sender o) (b_G_receiver o).
Definition with_generators (o : BaseOT) (gs : list (PRNG * PRNG)) (gr : list PRNG) : BaseOT :=
  mkBase (b_nOT o) (b_role o) (b_receiver_inputs o) (b_sender_inputs o) (b_receiver_outputs o) gs gr.

Section base.
Context `{Heap}.

Definition base_new (nOT role : Z) : outcome BaseOT :=
  v0 ← bv_make 0;
  v ← bv_resize v0 (u64 nOT);
  si ← vector_resize (v0, v0) [] nOT;
  ro ← vector_resize v0 [] nOT;
  gs ← vector_resize (prng_new, prng_new) [] nOT;
  gr ← vector_resize prng_new [] nOT;
  '(si, ro) ← foldM (λ '(si, ro) i,
      z ← bv_make (8 * AES_BLK_SIZE);
      si ← vset si i (z, z);
      ro ← vset ro i z;
      Ok (si, ro)) (si, ro) (seqZ 0 nOT);
  Ok (mkBase nOT role v si ro gs gr).

Definition set_receiver_inputs (o : BaseOT) (new_inputs : BitVector) : outcome BaseOT :=
  if negb (s32 (u32 (bv_nbits new_inputs)) =? b_nOT o) then Throw "invalid_length"
  else v ← bv_assign (b_receiver_inputs o) new_inputs; Ok (with_receiver_inputs o v).

(** [set_receiver_inputs(int128)] *)
Definition choice_bits (inputs : Key) : outcome BitVector :=
  v ← bv_make 128;
  foldM (λ v i, bv_set_bit v i (Z.land (lane_lo (int128_shr inputs i)) 1)) v (seqZ 0 128).

Definition set_receiver_inputs128 (o : BaseOT) (inputs : Key) : outcome BaseOT :=
  v ← choice_bits inputs; set_receiver_inputs o v.

(** ** Seeds *)
Definition extend_length (o : BaseOT) : outcome BaseOT :=
  foldM (λ o i,
      o ← (if has_role (b_role o) SENDER then
          '(x0, x1) ← vget (b_sender_inputs o) i;
          '(g0, g1) ← vget (b_G_sender o) i;
          '(x0, g0) ← bv_randomize x0 g0;
          '(x1, g1) ← bv_randomize x1 g1;
          si ← vset (b_sender_inputs o) i (x0, x1);
          gs ← vset (b_G_sender o) i (g0, g1);
          Ok (with_generators (with_strings o si (b_receiver_outputs o)) gs (b_G_receiver o))
        else Ok o);
      if has_role (b_role o) RECEIVER then
        x ← vget (b_receiver_outputs o) i;
        g ← vget (b_G_receiver o) i;
        '(x, g) ← bv_randomize x g;
        ro ← vset (b_receiver_outputs o) i x;
        gr ← vset (b_G_receiver o) i g;
        Ok (with_generators (with_strings o (b_sender_inputs o) ro) (b_G_sender o) gr)
      else Ok o) o (seqZ 0 (b_nOT o)).

(** [G.SetSeed(bits.get_ptr())] *)
Definition seed_from (g : PRNG) (bits : BitVector) : outcome PRNG :=
  seed ← mem_read (bv_bytes bits) 0 SEED_SIZE; SetSeed g seed.

Definition set_seeds (o : BaseOT) : outcome BaseOT :=
  o ← foldM (λ o i,
      gs ← (if has_role (b_role o) SENDER then
          '(x0, x1) ← vget (b_sender_inputs o) i;
          '(g0, g1) ← vget (b_G_sender o) i;
          g0 ← seed_from g0 x0;
          g1 ← seed_from g1 x1;
          vset (b_G_sender o) i (g0, g1)
        else Ok (b_G_sender o));
      gr ← (if has_role (b_role o) RECEIVER then
          x ← vget (b_receiver_outputs o) i;
          g ← vget (b_G_receiver o) i;
          g ← seed_from g x;
          vset (b_G_receiver o) i g
        else Ok (b_G_receiver o));
      Ok (with_generators o gs gr)) o (seqZ 0 (b_nOT o));
  extend_length o.

Definition send_if_ot_sender (P : Link) (os0 os1 : octetStream) (role : Z) : outcome (Link * octetStream) :=
  if role =? SENDER then P ← link_send P os0; Ok (P, os1)
  else if role =? RECEIVER then '(os1, P) ← link_receive P os1; Ok (P, os1)
  else P ← link_send P os0; '(os1, P) ← link_receive P os1; Ok (P, os1).

(** ** Base OTs from Kyber *)
Section kyber.
Context {R : Type} `{!Kyber R} `{GenericHash}.

Definition hash_with_id (bits : BitVector) (id : Z) : outcome BitVector :=
  if u32 (bv_nbytes bits) <? AES_BLK_SIZE then Throw "assertion failed"
  else
    x ← mem_read (bv_bytes bits) 0 (u32 (bv_nbytes bits));
    b ← mem_write (bv_bytes bits) 0 (generic_hash crypto_generichash_BYTES (x ++ le_bytes 8 id) (u32 (bv_nbytes bits)));
    Ok (set_bytes bits b).

(** [get_bytes] into an array of [size] octets, followed by the test of the length. *)
Definition get_pack (size : nat) (os : octetStream) : outcome (list Z * octetStream) :=
  '(x, os) ← get_bytes os;
  if (size <? length x)%nat then UB
  else if negb (length x =? size)%nat then Throw "exit" else Ok (x, os).

(** Sixteen octets of a string into a vector. *)
Definition set_bytes16 (v : BitVector) (x : list Z) : outcome BitVector :=
  foldM (λ v k, b ← vget x k; set_byte v k b) v (seqZ 0 AES_BLK_SIZE).

(** [recver] is one variable for all OTs: its secret key and its choice bit. *)
Definition receiver_keys (new_receiver_inputs : bool)
    (st : BitVector * (list Z * bool) * octetStream * PRNG * R) (i : Z)
    : outcome (BitVector * (list Z * bool) * octetStream * PRNG * R) :=
  let '(v, _, os0, G, r) := st in
  '(v, G) ← (if new_receiver_inputs then
      '(x, G) ← get_uchar G; v ← bv_set_bit v i (Z.land x 1); Ok (v, G)
    else Ok (v, G));
  cs ← bv_get_bit v i;
  let '((sk, (k0, k1)), r) := KyberReceiverMessage cs r in
  os0 ← store_bytes os0 (k0 ++ k1);
  Ok (v, (sk, cs), os0, G, r).

(** [Sr0] is [Sr_pack[0]]. *)
Definition sender_strings (st : list (BitVector * BitVector) * list (list Z) * octetStream * R) (i : Z)
    : outcome (list (BitVector * BitVector) * list (list Z) * octetStream * R) :=
  let '(si, Sr0, os1, r) := st in
  '(Rs, os1) ← get_pack (2 * PKlength) os1;
  let '(m0, r) := randombytes 32 r in
  let '(m1, r) := randombytes 32 r in
  '(x0, x1) ← vget si i;
  x0 ← set_bytes16 x0 m0;
  x1 ← set_bytes16 x1 m1;
  si ← vset si i (x0, x1);
  let '((c0, c1), r) := KyberSenderMessage (m0, m1) (take PKlength Rs, drop PKlength Rs) r in
  Sr0 ← vset Sr0 i (c0 ++ c1);
  Ok (si, Sr0, os1, r).

(** What arrives is put into [Sr_pack[1]], what is decrypted is [Sr_pack[0]]. *)
Definition receiver_strings (recver : list Z * bool) (Sr0 : list (list Z))
    (st : list BitVector * octetStream) (i : Z) : outcome (list BitVector * octetStream) :=
  let '(ro, os1) := st in
  '(_, os1) ← get_pack (2 * CTlength) os1;
  c ← vget Sr0 i;
  let rot := KyberReceiverStrings recver.2 recver.1 (take CTlength c, drop CTlength c) in
  x ← vget ro i;
  x ← set_bytes16 x rot;
  ro ← vset ro i x;
  Ok (ro, os1).

Definition hash_strings (role : Z) (st : list (BitVector * BitVector) * list BitVector) (i : Z)
    : outcome (list (BitVector * BitVector) * list BitVector) :=
  let '(si, ro) := st in
  ro ← (if has_role role RECEIVER then x ← vget ro i; x ← hash_with_id x i; vset ro i x else Ok ro);
  si ← (if has_role role SENDER then
      '(x0, x1) ← vget si i; x0 ← hash_with_id x0 i; x1 ← hash_with_id x1 i; vset si i (x0, x1)
    else Ok si);
  Ok (si, ro).

(** [exec_base]; [stack] is what the array [Sr_pack[0]] holds at the start, [recver0]
    the same of [recver]. *)
Definition exec_base (stack : list (list Z)) (recver0 : list Z * bool) (o : BaseOT) (P : Link) (G : PRNG) (r : R)
    (new_receiver_inputs : bool) : outcome (BaseOT * Link * R) :=
  let role := b_role o in
  let ids := seqZ 0 (b_nOT o) in
  '(v, recver, os0, G, r) ← (if has_role role RECEIVER
    then foldM (receiver_keys new_receiver_inputs) (b_receiver_inputs o, recver0, os_new, G, r) ids
    else Ok (b_receiver_inputs o, recver0, os_new, G, r));
  '(P, os1) ← send_if_ot_receiver P os0 os_new role;
  '(si, Sr0, os1, r) ← (if has_role role SENDER
    then foldM sender_strings (b_sender_inputs o, stack, os1, r) ids
    else Ok (b_sender_inputs o, stack, os1, r));
  let os0 := reset_write_head os0 in
  os0 ← (if has_role role SENDER then foldM (λ os0 i, c ← vget Sr0 i; store_bytes os0 c) os0 ids else Ok os0);
  '(P, os1) ← send_if_ot_sender P os0 os1 role;
  '(ro, _) ← (if has_role role RECEIVER
    then foldM (receiver_strings recver Sr0) (b_receiver_outputs o, os1) ids
    else Ok (b_receiver_outputs o, os1));
  '(si, ro) ← foldM (hash_strings role) (si, ro) ids;
  o ← set_seeds (with_strings (with_receiver_inputs o v) si ro);
  Ok (o, P, r).

(** ** [OTExtensionWithMatrix::setup]

    The base OTs run with the roles exchanged and the bits of [delta] as choices; [Gb] is
    the generator of [exec_base] and [G] that of the extension. *)
Definition ot_setup (stack : list (list Z)) (recver0 : list Z * bool) (P : Link) (delta : Key) (role : Z)
    (passive : bool) (Gb : PRNG) (r : R) (G : PRNG) : outcome (OTExt * Link * R) :=
  o ← base_new 128 (INV_ROLE role);
  o ← set_receiver_inputs128 o delta;
  '(o, P, r) ← exec_base stack recver0 o P Gb r false;
  ext ← ot_new (b_role o) passive (b_receiver_inputs o) (b_sender_inputs o) (b_receiver_outputs o) G;
  Ok (ext, P, r).
End kyber.

(** ** Base OTs without security *)
Definition fake_send (st : list (BitVector * BitVector) * octetStream * PRNG) (i : Z)
    : outcome (list (BitVector * BitVector) * octetStream * PRNG) :=
  let '(si, os0, G) := st in
  '(x0, x1) ← vget si i;
  '(x0, G) ← bv_randomize x0 G;
  os0 ← bv_pack x0 os0;
  '(x1, G) ← bv_randomize x1 G;
  os0 ← bv_pack x1 os0;
  si ← vset si i (x0, x1);
  Ok (si, os0, G).

Definition fake_receive (v : BitVector) (st : list BitVector * (BitVector * BitVector) * octetStream) (i : Z)
    : outcome (list BitVector * (BitVector * BitVector) * octetStream) :=
  let '(ro, (bv0, bv1), os1) := st in
  '(bv0, os1) ← bv_unpack bv0 os1;
  '(bv1, os1) ← bv_unpack bv1 os1;
  b ← bv_get_bit v i;
  x ← vget ro i;
  x ← bv_assign x (if b : bool then bv1 else bv0);
  ro ← vset ro i x;
  Ok (ro, (bv0, bv1), os1).

(** [FakeOT::exec_base] *)
Definition fake_exec_base (o : BaseOT) (P : Link) (G : PRNG) (new_receiver_inputs : bool)
    : outcome (BaseOT * Link) :=
  let role := b_role o in
  let ids := seqZ 0 (b_nOT o) in
  bv ← bv_make 128;
  '(v, G) ← (if has_role role RECEIVER && new_receiver_inputs then
      foldM (λ '(v, G) i, '(x, G) ← get_uchar G; v ← bv_set_bit v i (Z.land x 1); Ok (v, G))
        (b_receiver_inputs o, G) ids
    else Ok (b_receiver_inputs o, G));
  '(si, os0, G) ← (if has_role role SENDER then foldM fake_send (b_sender_inputs o, os_new, G) ids
                   else Ok (b_sender_inputs o, os_new, G));
  '(P, os1) ← send_if_ot_sender P os0 os_new role;
  ro ← (if has_role role RECEIVER then
      '(ro, _, _) ← foldM (fake_receive v) (b_receiver_outputs o, (bv, bv), os1) ids; Ok ro
    else Ok (b_receiver_outputs o));
  o ← set_seeds (with_strings (with_receiver_inputs o v) si ro);
  Ok (o, P).

(** ** [check]: the strings of the sender, sent one pair at a time. *)
Definition check_pair (o : BaseOT) (st : octetStream * octetStream * BitVector * Link) (i : Z)
    : outcome (octetStream * octetStream * BitVector * Link) :=
  let '(os0, os1, tmp, P) := st in
  os0 ← (if b_role o =? RECEIVER then Ok os0
         else '(x0, x1) ← vget (b_sender_inputs o) i; os0 ← bv_pack x0 os0; bv_pack x1 os0);
  '(P, os1) ← send_if_ot_sender P os0 os1 (b_role o);
  '(os1, tmp) ← (if has_role (b_role o) RECEIVER then
      '(tmp, os1) ← bv_unpack tmp os1;
      b ← bv_get_bit (b_receiver_inputs o) i;
      '(tmp, os1) ← (if b : bool then bv_unpack tmp os1 else Ok (tmp, os1));
      x ← vget (b_receiver_outputs o) i;
      eq ← bv_equals tmp x;
      if eq : bool then Ok (os1, tmp) else Throw "exit"
    else Ok (os1, tmp));
  Ok (reset_write_head os0, reset_write_head os1, tmp, P).

Definition base_check (o : BaseOT) (P : Link) : outcome Link :=
  tmp ← bv_make (8 * AES_BLK_SIZE);
  '(_, _, _, P) ← foldM (check_pair o) (os_new, os_new, tmp, P) (seqZ 0 (b_nOT o));
  Ok P.

End base.
