(* ===== verification/BaseOtProps.v ===== *)
(** * Properties of the base OTs

    [FakeOT] and the set-up of the OT extension leave two paired parties; the receiver
    of the Kyber OTs computes its strings without the message of the sender. *)

From S2P Require Import Prelude Memory OctetStream OctetProps Xor Block Aes YaoKey YaoGate Random BitVector Square128 Gf2n OtMatrix OtExtension OtProps OtTheorems Commit CommitProps BaseOt.

(** ** Vectors of 128 bits *)
Definition bv128 (x : Block) : BitVector := mkBv x 16 128.

Lemma bv128_wf x : block_wf x → bv_wf (bv128 x).
Proof. intros [Hl Hu]. split; cbn; [lia|done|lia|done]. Qed.

Lemma mem_read_all x n : Z.of_nat (length x) = n → mem_read x 0 n = Ok x.
Proof. intros <-. rewrite mem_read_Ok by lia. by rewrite drop_0, take_ge by lia. Qed.

Lemma mem_write_all x y : length x = length y → mem_write x 0 y = Ok y.
Proof.
  intros Hl. rewrite mem_write_Ok by lia. cbn [Z.to_nat take app Nat.add].
  by rewrite drop_ge, app_nil_r by lia.
Qed.

Lemma bv_read_all x : block_wf x → mem_read (bv_bytes (bv128 x)) 0 16 = Ok x.
Proof. intros [Hl _]. apply mem_read_all. cbn. lia. Qed.

Lemma bv128_num x : block_wf x → bv_num (bv128 x) = le_val x.
Proof. intros [Hl _]. unfold bv_num, bv_val. cbn [bv128 bv_nbytes bv_bytes]. by rewrite take_ge by lia. Qed.

Lemma bv128_int128 x : block_wf x → get_int128 (bv128 x) 0 = Ok (le_val x).
Proof. intros Hx. unfold get_int128. change (0 * 16) with 0. by rewrite bv_read_all. Qed.

Lemma bv128_assign x y : block_wf x → block_wf y → bv_assign (bv128 x) (bv128 y) = Ok (bv128 y).
Proof.
  intros [Hx _] Hy. unfold bv_assign. cbn [bv128 bv_nbits negb Z.eqb Pos.eqb mbind outcome_bind].
  change (bv_nbytes _) with 16. rewrite bv_read_all by done. cbn [mbind outcome_bind bv_bytes].
  by rewrite mem_write_all by (destruct Hy; cbn; congruence).
Qed.

Lemma block_zero : block_wf (replicate 16 0).
Proof. split; [done|]. by apply Forall_replicate. Qed.

Section strings.
Context `{Heap}.

Lemma bv_make_128 : bv_make 128 = Ok (bv128 (replicate 16 0)).
Proof.
  unfold bv_make. change (u64 (DIV_CEIL (s64 128) 8)) with 16. rewrite new_array_Ok by lia.
  cbn [mbind outcome_bind]. unfold assign_zero. cbn [bv_bytes bv_nbytes].
  change (Z.to_nat 16) with 16%nat. rewrite mem_write_all by by rewrite new_octets_length. done.
Qed.

(** [pack] and [unpack] with whole vectors as values. *)
Lemma carries_bv128 x y : block_wf x → block_wf y → carries (bv_pack (bv128 x)) (bv_unpack (bv128 y)) (bv128 x) 24.
Proof.
  intros [Hx Hux] [Hy _].
  pose proof (carries_append x Hux) as C. rewrite Hx in C. change (Z.of_nat 16) with 16 in C.
  apply (carries_map bv128) in C; [|lia].
  eapply carries_ext; [eapply (carries_bind (λ w, store_int w 128 8) (λ r, get_int r 8) 128 8
    (λ w, os_append w x) (λ n r, v ← bv_resize (bv128 y) n; '(z, r) ← os_consume r (bv_nbytes v);
      b ← mem_write (bv_bytes v) 0 z; Ok (set_bytes v b, r)) (bv128 x) 16);
    [lia|lia|apply (carries_int 8); [lia|by split]|]| | |lia].
  - eapply carries_ext; [exact C|done| |lia]. intros r. change (bv_resize (bv128 y) 128) with (Ok (bv128 y)).
    cbn [mbind outcome_bind]. change (bv_nbytes (bv128 y)) with 16.
    destruct (os_consume r 16) as [[z r']| |] eqn:E; [|done..]. cbn [mbind outcome_bind].
    assert (length z = 16%nat) by
      (unfold os_consume in E; bind_inv E; destruct a as [? ?]; bind_inv E;
       apply mem_read_inv in E1 as (_ & _ & _ & _ & E1); injection E as <- <-; exact E1).
    rewrite mem_write_all by (cbn; congruence). done.
  - intros w. unfold bv_pack. change (bv_nbits (bv128 x)) with 128.
    destruct (store_int w 128 8); [|done..]. cbn [mbind outcome_bind].
    change (bv_nbytes (bv128 x)) with 16. by rewrite bv_read_all by by split.
  - intros r. unfold bv_unpack. destruct (get_int r 8) as [[n r']| |]; done.
Qed.

Lemma bv128_randomize x g key p : block_wf x → at_pos g key p → p + 16 < prng_limit →
  ∃ g', bv_randomize (bv128 x) g = Ok (bv128 (key_stream key p 16), g') ∧ at_pos g' key (p + 16).
Proof.
  intros [Hx _] Hg Hp. unfold bv_randomize. change (s32 (bv_nbytes (bv128 x))) with 16.
  destruct (get_octets_spec g key p 16 Hg) as (g' & -> & Hg' & _); [lia|lia|]. cbn [mbind outcome_bind].
  rewrite mem_write_all by (rewrite key_stream_length; cbn; lia). by exists g'.
Qed.

Lemma key_stream_wf key p : schedule_wf key → block_wf (key_stream key p 16).
Proof. intros Hk. split; [by rewrite key_stream_length|by apply key_stream_u8]. Qed.

Lemma seed_from_spec g x : block_wf x →
  ∃ g', seed_from g (bv128 x) = Ok g' ∧ at_pos g' (aes_128_schedule x) 0.
Proof.
  intros Hx. unfold seed_from. change SEED_SIZE with 16. rewrite bv_read_all by done. cbn [mbind outcome_bind].
  destruct (SetSeed_spec g x Hx) as (g' & -> & Hp & _). by exists g'.
Qed.
End strings.

(** ** Construction *)
Section setup.
Context `{Heap}.

Lemma vector_resize_nil {A} (d : A) n : vector_resize d [] (Z.of_nat n) = Ok (replicate n d).
Proof.
  unfold vector_resize. rewrite (proj2 (Z.ltb_ge _ _)), Nat2Z.id by lia.
  by rewrite take_nil, Nat.sub_0_r.
Qed.

Lemma vector_resize_128 {A} (d : A) : vector_resize d [] 128 = Ok (replicate 128 d).
Proof. apply (vector_resize_nil d 128). Qed.

Lemma bv_make_0 : bv_make 0 = Ok (mkBv [] 0 0).
Proof.
  unfold bv_make. change (u64 (DIV_CEIL (s64 0) 8)) with 0. rewrite new_array_Ok by lia.
  cbn [mbind outcome_bind]. unfold assign_zero. cbn [bv_bytes bv_nbytes].
  change (Z.to_nat 0) with 0%nat. rewrite mem_write_all by by rewrite new_octets_length. done.
Qed.

Lemma bv_resize_128 : bv_resize (mkBv [] 0 0) 128 = Ok (bv128 (new_octets 16)).
Proof.
  unfold bv_resize. cbn [bv_nbits Z.eqb]. change (u64 (s32 (DIV_CEIL (s64 128) 8))) with 16.
  change (0 <? 128) with true. cbn iota. rewrite new_array_Ok by lia. cbn [mbind outcome_bind].
  change (mem_read (bv_bytes (mkBv [] 0 0)) 0 (bv_nbytes (mkBv [] 0 0))) with (@Ok (list Z) []).
  cbn [mbind outcome_bind]. rewrite mem_write_Ok by (cbn; lia). done.
Qed.

Definition fresh_base (role : Z) (v : BitVector) : BaseOT :=
  let z := bv128 (replicate 16 0) in
  mkBase 128 role v (replicate 128 (z, z)) (replicate 128 z) (replicate 128 (prng_new, prng_new))
    (replicate 128 prng_new).

Lemma fmap_const {A B} (x : B) (l : list A) : (λ _, x) <$> l = replicate (length l) x.
Proof. induction l; cbn; by f_equal. Qed.

Lemma base_new_spec role : base_new 128 role = Ok (fresh_base role (bv128 (new_octets 16))).
Proof.
  unfold base_new. rewrite bv_make_0. cbn [mbind outcome_bind]. change (u64 128) with 128.
  rewrite bv_resize_128. cbn [mbind outcome_bind]. rewrite !vector_resize_128. cbn [mbind outcome_bind].
  set (v0 := mkBv [] 0 0). set (z := bv128 (replicate 16 0)).
  lazymatch goal with |- context [foldM ?f _ _] =>
    pose proof (foldM_tabulate (λ (l : list (BitVector * BitVector * BitVector)) _, (l.*1, l.*2))
      (λ _, ((v0, v0), v0)) (λ _, ((z, z), z)) f 128) as E end.
  rewrite !fmap_const, length_seq, !fmap_replicate in E. cbn [fst snd] in E.
  change (Z.of_nat 128) with 128 in E.
  rewrite E; [done|]. intros i pre post Hi Hl. change (8 * AES_BLK_SIZE) with 128. rewrite bv_make_128.
  cbn [mbind outcome_bind]. rewrite !fmap_app, !fmap_cons. cbn [fst snd].
  rewrite !vset_Ok by (rewrite length_app, length_fmap; cbn [length]; lia). cbn [mbind outcome_bind].
  rewrite !Nat2Z.id, !insert_app_r_alt by (rewrite length_fmap; lia).
  rewrite !length_fmap, Hl, Nat.sub_diag. done.
Qed.

(** The choice bits are the bits of the number. *)
Lemma choice_bits_spec delta : is_word 128 delta →
  ∃ v, choice_bits delta = Ok v ∧ bv_wf v ∧ bv_nbits v = 128 ∧ bv_num v = delta.
Proof.
  intros Hd. unfold choice_bits. rewrite bv_make_128. cbn [mbind outcome_bind].
  destruct (foldM_inv (λ k v, bv_wf v ∧ bv_nbits v = 128 ∧
      ∀ j, 0 ≤ j < Z.of_nat k → Z.testbit (bv_num v) j = Z.testbit delta j)
    (λ v i, bv_set_bit v i (Z.land (lane_lo (int128_shr delta i)) 1)) (seqZ 0 128) (bv128 (replicate 16 0)))
    as (v & -> & Hw & Hn & Hb).
  - split; [apply bv128_wf, block_zero|]. split; [done|]. intros j Hj. lia.
  - intros k i v [-> Hk]%lookup_seqZ (Hw & Hn & Hb).
    destruct (bv_set_bit_spec v (0 + Z.of_nat k) (Z.land (lane_lo (int128_shr delta (0 + Z.of_nat k))) 1) Hw)
      as (v' & -> & Hw' & Hn' & Hb'); [lia|]. exists v'. split; [done|]. split; [done|]. split; [congruence|].
    intros j Hj. rewrite Hb' by lia. destruct (Z.eqb_spec j (0 + Z.of_nat k)) as [->|]; [|apply Hb; lia].
    rewrite int128_shr_spec by (done || lia). change 1 with (Z.ones 1) at 1. rewrite Z.land_ones by lia.
    rewrite <-Z.bit0_mod, lane_lo_bits, Z.shiftr_spec by lia. cbn [andb Z.ltb Z.compare].
    rewrite !Z.add_0_l. by destruct (Z.testbit delta _).
  - exists v. split; [done|]. split; [done|]. split; [done|].
    pose proof (bv_val_length v Hw) as Hl. pose proof (bv_size v Hw) as Hsz. rewrite Hn in Hsz. change ((128 + 7) / 8) with 16 in Hsz.
    pose proof (le_val_word _ (bv_val_u8 v Hw)) as Hv. change (le_val (bv_val v)) with (bv_num v) in Hv.
    rewrite Hl, Hsz in Hv. change (8 * 16) with 128 in Hv.
    apply Z.bits_inj'. intros j Hj. destruct (Z.ltb_spec j 128); [apply Hb; rewrite length_seqZ; lia|].
    by rewrite !(is_word_high 128) by (done || lia).
Qed.

Lemma set_receiver_inputs128_spec role delta : is_word 128 delta →
  ∃ v, set_receiver_inputs128 (fresh_base role (bv128 (new_octets 16))) delta = Ok (fresh_base role v) ∧
       bv_wf v ∧ bv_nbits v = 128 ∧ bv_num v = delta.
Proof.
  intros Hd. destruct (choice_bits_spec delta Hd) as (K & E & Hw & Hn & Hv).
  unfold set_receiver_inputs128, set_receiver_inputs. rewrite E. cbn [mbind outcome_bind].
  rewrite Hn. change (s32 (u32 128)) with 128. cbn [fresh_base b_nOT negb Z.eqb Pos.eqb b_receiver_inputs].
  unfold bv_assign. rewrite Hn. cbn [bv128 bv_nbits negb Z.eqb Pos.eqb mbind outcome_bind].
  cbn [bv_nbytes bv_bytes]. pose proof (bv_size K Hw) as Hsz. rewrite Hn in Hsz. change ((128 + 7) / 8) with 16 in Hsz.
  change (bv_nbytes (bv128 (new_octets 16))) with 16. change (bv_bytes (bv128 (new_octets 16))) with (new_octets 16).
  pose proof (bv_val_length K Hw) as Hl. rewrite (bv_read K 0) by (done || lia). cbn [mbind outcome_bind].
  rewrite drop_0, take_ge by lia. rewrite mem_write_all by (rewrite new_octets_length; lia). cbn [mbind outcome_bind].
  exists (bv128 (bv_val K)). split; [done|].
  assert (Hb : block_wf (bv_val K)) by (split; [lia|by apply bv_val_u8]).
  split; [by apply bv128_wf|]. split; [done|]. rewrite bv128_num by done. done.
Qed.

(** ** Loops over messages *)
Lemma seqZ_S k : seqZ 0 (Z.of_nat (S k)) = seqZ 0 (Z.of_nat k) ++ [Z.of_nat k].
Proof.
  replace (Z.of_nat (S k)) with (Z.of_nat k + 1) by lia. rewrite seqZ_app by lia.
  rewrite Z.add_0_l, (seqZ_cons (Z.of_nat k) 1) by lia. by rewrite (seqZ_nil _ (Z.pred 1)) by lia.
Qed.

Lemma foldM_seqZ_S {B} (f : B → Z → outcome B) b k :
  foldM f b (seqZ 0 (Z.of_nat (S k))) = (b' ← foldM f b (seqZ 0 (Z.of_nat k)); f b' (Z.of_nat k)).
Proof.
  rewrite seqZ_S, foldM_app. destruct (foldM f b _); [|done..]. cbn [mbind outcome_bind foldM].
  by destruct (f _ _).
Qed.

(** One side stores in a loop what the other gets in a loop. *)
Lemma carries_loop {T} (st : octetStream → Z → outcome octetStream)
    (get : T * octetStream → Z → outcome (T * octetStream)) (X : nat → T) size n : 0 ≤ size →
  (∀ k, (k < n)%nat → carries (λ w, st w (Z.of_nat k)) (λ r, get (X k, r) (Z.of_nat k)) (X (S k)) size) →
  carries (λ w, foldM st w (seqZ 0 (Z.of_nat n))) (λ r, foldM get (X 0%nat, r) (seqZ 0 (Z.of_nat n))) (X n)
    (Z.of_nat n * size).
Proof.
  intros Hs. induction n as [|n IH]; intros HC.
  - change (seqZ 0 (Z.of_nat 0)) with (@nil Z). apply (carries_ret (X 0%nat)).
  - assert (C : carries (λ w, w' ← foldM st w (seqZ 0 (Z.of_nat n)); st w' (Z.of_nat n))
      (λ r, '(x, r) ← foldM get (X 0%nat, r) (seqZ 0 (Z.of_nat n)); get (x, r) (Z.of_nat n))
      (X (S n)) (Z.of_nat n * size + size)).
    { apply carries_bind with (x := X n); [lia|done| |apply HC; lia]. apply IH. intros k Hk. apply HC. lia. }
    eapply carries_ext; [exact C| | |lia].
    + intros w. apply foldM_seqZ_S.
    + intros r. rewrite foldM_seqZ_S. by destruct (foldM get _ _) as [[x r']| |].
Qed.

(** A loop that keeps its invariant or stops with one exception for one reason. *)
Lemma foldM_inv_or {A B} (P : nat → B → Prop) (Bad : A → Prop) e (f : B → A → outcome B) l b :
  P 0%nat b →
  (∀ i a b, l !! i = Some a → P i b → (∃ b', f b a = Ok b' ∧ P (S i) b') ∨ (Bad a ∧ f b a = Throw e)) →
  (∃ b', foldM f b l = Ok b' ∧ P (length l) b') ∨ (Exists Bad l ∧ foldM f b l = Throw e).
Proof.
  revert P b. induction l as [|a l IH]; intros P b H0 HS; cbn [foldM]; [left; by exists b|].
  destruct (HS 0%nat a b eq_refl H0) as [(b1 & -> & H1)|[Ha ->]]; [|right; split; [by left|done]].
  cbn [mbind outcome_bind].
  destruct (IH (λ i, P (S i)) b1 H1) as [?|[??]]; [|by left|right; split; [by right|done]].
  intros i a' b' Hi. by apply (HS (S i) a' b').
Qed.

(** ** Fake OTs *)
Section fake.
Context (key0 : list Block) (q : Z).

(** The string that the sender draws for a pair. *)
Definition fake_string (r : nat) (b : bool) : Block := key_stream key0 (q + 32 * Z.of_nat r + 16 * b2z b) 16.

Definition fake_pack (w : octetStream) (i : Z) : outcome octetStream :=
  w ← bv_pack (bv128 (fake_string (Z.to_nat i) false)) w; bv_pack (bv128 (fake_string (Z.to_nat i) true)) w.

Definition zero128 : BitVector := bv128 (replicate 16 0).

(** The first [k] elements of a vector that is filled in order. *)
Definition table {A} (d : A) (f : nat → A) (k : nat) : list A := (λ i, if (i <? k)%nat then f i else d) <$> seq 0 128.

Lemma table_length {A} (d : A) f k : length (table d f k) = 128%nat.
Proof. unfold table. by rewrite length_fmap, length_seq. Qed.

Lemma table_lookup {A} (d : A) f k i : (i < 128)%nat → table d f k !! i = Some (if (i <? k)%nat then f i else d).
Proof. intros Hi. unfold table. by rewrite list_lookup_fmap, lookup_seq_lt by done. Qed.

Lemma table_0 {A} (d : A) f : table d f 0 = replicate 128 d.
Proof. unfold table. cbn [Nat.ltb Nat.leb]. by rewrite fmap_const, length_seq. Qed.

Lemma vget_table {A} (d : A) f k i : (i < 128)%nat → vget (table d f k) (Z.of_nat i) = Ok (if (i <? k)%nat then f i else d).
Proof. intros Hi. apply vget_Ok; [lia|]. rewrite Nat2Z.id. by apply table_lookup. Qed.

Lemma vset_table {A} (d : A) f k : (k < 128)%nat → vset (table d f k) (Z.of_nat k) (f k) = Ok (table d f (S k)).
Proof.
  intros Hk. rewrite vset_Ok by (rewrite table_length; lia). rewrite Nat2Z.id. f_equal.
  apply list_eq. intros i. destruct (decide (i < 128)%nat) as [Hi|Hi].
  - rewrite (table_lookup d f (S k)) by done. destruct (decide (i = k)) as [->|Hne].
    + rewrite list_lookup_insert_eq by (rewrite table_length; lia). by rewrite (proj2 (Nat.ltb_lt _ _)) by lia.
    + rewrite list_lookup_insert_ne by done. rewrite table_lookup by done.
      by destruct (Nat.ltb_spec i k), (Nat.ltb_spec i (S k)); try lia.
  - rewrite !lookup_ge_None_2; rewrite ?length_insert, ?table_length; (done || lia).
Qed.

Lemma vget_last {A} (d : A) f k : (k < 128)%nat → vget (table d f k) (Z.of_nat k) = Ok d.
Proof. intros Hk. by rewrite vget_table, Nat.ltb_irrefl by done. Qed.

Lemma vget_full {A} (d : A) f k : (k < 128)%nat → vget (table d f 128) (Z.of_nat k) = Ok (f k).
Proof. intros Hk. by rewrite vget_table, (proj2 (Nat.ltb_lt _ _)) by done. Qed.

Hypothesis Hkey : schedule_wf key0.

Lemma fake_string_wf r b : block_wf (fake_string r b).
Proof. by apply key_stream_wf. Qed.

(** What the receiver has after [k] pairs, and the two vectors it unpacks into. *)
Definition received (choice : nat → bool) (k : nat) : list BitVector * (BitVector * BitVector) :=
  (table zero128 (λ r, bv128 (fake_string r (choice r))) k,
   match k with
   | O => (zero128, zero128)
   | S k => (bv128 (fake_string k false), bv128 (fake_string k true))
   end).

Lemma received_0 choice : received choice 0 = (replicate 128 zero128, (zero128, zero128)).
Proof. unfold received. by rewrite table_0. Qed.

Lemma received_vectors choice k : ∃ x y, received choice k = ((received choice k).1, (bv128 x, bv128 y)) ∧ block_wf x ∧ block_wf y.
Proof.
  destruct k; cbn [received fst].
  - exists (replicate 16 0), (replicate 16 0). split; [done|]. split; apply block_zero.
  - eexists _, _. split; [done|]. split; apply fake_string_wf.
Qed.

Lemma zero128_assign y : block_wf y → bv_assign zero128 (bv128 y) = Ok (bv128 y).
Proof. apply bv128_assign, block_zero. Qed.

(** The end of an iteration of the receiver. *)
Definition fake_choose (v : BitVector) (ro : list BitVector) (b0 b1 : BitVector) (os : octetStream) (i : Z) :=
  b ← bv_get_bit v i;
  x ← vget ro i;
  x ← bv_assign x (if b : bool then b1 else b0);
  ro ← vset ro i x;
  Ok (ro, (b0, b1), os).

Lemma fake_carries v choice : bv_wf v → bv_nbits v = 128 → (∀ r, choice r = Z.testbit (bv_num v) (Z.of_nat r)) →
  carries (λ w, foldM fake_pack w (seqZ 0 128)) (λ r, foldM (fake_receive v) (received choice 0, r) (seqZ 0 128))
    (received choice 128) (128 * 48).
Proof.
  intros Hv Hn Hc. apply (carries_loop fake_pack (fake_receive v) (received choice) 48 128); [done|].
  intros k Hk. destruct (received_vectors choice k) as (x & y & E & Hx & Hy). rewrite E.
  apply (carries_ext (λ w, w ← bv_pack (bv128 (fake_string k false)) w; w ← bv_pack (bv128 (fake_string k true)) w; Ok w)
    _ (λ r, '(b0, r) ← bv_unpack (bv128 x) r; '(b1, r) ← bv_unpack (bv128 y) r; fake_choose v (received choice k).1 b0 b1 r (Z.of_nat k))
    _ _ (24 + (24 + 0))); [|intros w; unfold fake_pack; rewrite Nat2Z.id..|done|lia].
  - apply carries_bind with (x := bv128 (fake_string k false)); [lia|lia|apply carries_bv128; [apply fake_string_wf|done]|].
    apply carries_bind with (x := bv128 (fake_string k true)); [lia|lia|apply carries_bv128; [apply fake_string_wf|done]|].
    eapply carries_ext; [apply carries_ret|done| |done]. intros r. unfold fake_choose. cbn [received fst].
    rewrite bv_get_bit_spec by (done || lia). cbn [mbind outcome_bind]. rewrite vget_last by done. cbn [mbind outcome_bind].
    rewrite <-Hc. pose proof (vset_table zero128 (λ r, bv128 (fake_string r (choice r))) k Hk) as Es. cbn beta in Es.
    destruct (choice k); (rewrite zero128_assign by apply fake_string_wf); cbn [mbind outcome_bind]; rewrite Es; done.
  - destruct (bv_pack _ w); [|done..]. cbn [mbind outcome_bind]. by destruct (bv_pack _ _).
Qed.

Lemma bv_pack_out v w w' : os_out w = bits0 → bv_pack v w = Ok w' → os_out w' = bits0.
Proof.
  intros Hw E. unfold bv_pack in E. bind_inv E. bind_inv E. eapply os_append_out; [|exact E].
  by eapply store_int_out; [|exact E0].
Qed.

Lemma fake_pack_out l w w' : os_out w = bits0 → foldM fake_pack w l = Ok w' → os_out w' = bits0.
Proof.
  intros Hw. apply (foldM_preserves (λ w, os_out w = bits0)); [|done].
  intros i w1 w2 H1 E. unfold fake_pack in E. bind_inv E. eapply bv_pack_out; [|exact E].
  by eapply bv_pack_out; [|exact E0].
Qed.

(** The sender draws and stores. *)
Lemma fake_send_loop G w : at_pos G key0 q → q + 4096 < prng_limit →
  foldM fake_pack os_new (seqZ 0 128) = Ok w →
  ∃ G', foldM fake_send (replicate 128 (zero128, zero128), os_new, G) (seqZ 0 128)
    = Ok (table (zero128, zero128) (λ r, (bv128 (fake_string r false), bv128 (fake_string r true))) 128, w, G').
Proof.
  intros HG Hq Hpack.
  set (f := λ r, (bv128 (fake_string r false), bv128 (fake_string r true))).
  destruct (foldM_inv (λ k '(si, os, G), si = table (zero128, zero128) f k ∧
      foldM fake_pack os_new (seqZ 0 (Z.of_nat k)) = Ok os ∧ at_pos G key0 (q + 32 * Z.of_nat k))
    fake_send (seqZ 0 128) (replicate 128 (zero128, zero128), os_new, G))
    as ([[si os] G'] & E & -> & Eos & HG').
  - split; [by rewrite table_0|]. split; [done|]. by replace (q + _) with q by lia.
  - intros k i [[si os] g] [-> Hk]%lookup_seqZ (-> & Eos & Hg). rewrite Z.add_0_l in *.
    assert (Hk' : (k < 128)%nat) by lia.
    assert (Hstep : ∃ os', fake_pack os (Z.of_nat k) = Ok os' ∧ foldM fake_pack os_new (seqZ 0 (Z.of_nat (S k))) = Ok os').
    { rewrite foldM_seqZ_S, Eos. cbn [mbind outcome_bind].
      replace 128 with (Z.of_nat (S k) + (127 - Z.of_nat k)) in Hpack by lia.
      rewrite seqZ_app, foldM_app, foldM_seqZ_S, Eos in Hpack by lia. cbn [mbind outcome_bind] in Hpack.
      bind_inv Hpack. by exists a. }
    destruct Hstep as (os' & E1 & E2). unfold fake_send. rewrite vget_last by done. cbn [mbind outcome_bind].
    destruct (bv128_randomize (replicate 16 0) g key0 _ block_zero Hg ltac:(lia)) as (g1 & Er & Hg1). fold zero128 in Er.
    rewrite Er. cbn [mbind outcome_bind].
    destruct (bv128_randomize (replicate 16 0) g1 key0 _ block_zero Hg1 ltac:(lia)) as (g2 & Er2 & Hg2). fold zero128 in Er2.
    unfold fake_pack in E1. rewrite Nat2Z.id in E1. bind_inv E1.
    replace (key_stream key0 (q + 32 * Z.of_nat k) 16) with (fake_string k false) by (unfold fake_string; f_equal; cbn; lia).
    replace (key_stream key0 (q + 32 * Z.of_nat k + 16) 16) with (fake_string k true) in Er2 by (unfold fake_string; f_equal; cbn; lia).
    rewrite E. cbn [mbind outcome_bind]. rewrite Er2. cbn [mbind outcome_bind]. rewrite E1. cbn [mbind outcome_bind].
    pose proof (vset_table (zero128, zero128) f k Hk') as Es. unfold f in Es at 2. rewrite Es. cbn [mbind outcome_bind].
    eexists. split; [done|]. split; [done|]. split; [done|].
    by replace (q + 32 * Z.of_nat (S k)) with (q + 32 * Z.of_nat k + 16 + 16) by lia.
  - exists G'. rewrite E. rewrite length_seqZ in Eos. change (Z.of_nat (Z.to_nat 128)) with 128 in Eos.
    rewrite Hpack in Eos. by injection Eos as <-.
Qed.
End fake.

(** ** Loops over the elements of a vector *)
Definition each {A} (P : nat → A → Prop) (l : list A) : Prop :=
  length l = 128%nat ∧ ∀ i x, l !! i = Some x → P i x.

(** [Q] holds of the first [k] elements, [P] of the others. *)
Definition progress {A} (P Q : nat → A → Prop) (k : nat) : list A → Prop :=
  each (λ i x, if (i <? k)%nat then Q i x else P i x).

Lemma progress_0 {A} (P Q : nat → A → Prop) l : each P l → progress P Q 0 l.
Proof. done. Qed.

Lemma progress_all {A} (P Q : nat → A → Prop) l : progress P Q 128 l → each Q l.
Proof.
  intros [Hl H1]. split; [done|]. intros i x Hi. specialize (H1 i x Hi). apply lookup_lt_Some in Hi.
  by rewrite (proj2 (Nat.ltb_lt _ _)) in H1 by lia.
Qed.

Lemma each_get {A} (P : nat → A → Prop) l k : each P l → (k < 128)%nat → ∃ x, vget l (Z.of_nat k) = Ok x ∧ P k x.
Proof.
  intros [Hl H1] Hk. destruct (lookup_lt_is_Some_2 l k) as [x Hx]; [lia|]. exists x. split; [|by apply H1].
  apply vget_Ok; [lia|]. by rewrite Nat2Z.id.
Qed.

Lemma progress_get {A} (P Q : nat → A → Prop) l k : progress P Q k l → (k < 128)%nat →
  ∃ x, vget l (Z.of_nat k) = Ok x ∧ P k x.
Proof. intros Hp Hk. destruct (each_get _ l k Hp Hk) as (x & E & Hx). rewrite Nat.ltb_irrefl in Hx. by exists x. Qed.

Lemma progress_set {A} (P Q : nat → A → Prop) l k y : progress P Q k l → (k < 128)%nat → Q k y →
  ∃ l', vset l (Z.of_nat k) y = Ok l' ∧ progress P Q (S k) l'.
Proof.
  intros [Hl H1] Hk Hy. rewrite vset_Ok by lia. rewrite Nat2Z.id. eexists. split; [done|].
  split; [by rewrite length_insert|]. intros i x [(<- & <- & _)|[Hne Hi]]%list_lookup_insert_Some.
  - by rewrite (proj2 (Nat.ltb_lt _ _)) by lia.
  - specialize (H1 i x Hi). by destruct (Nat.ltb_spec i k), (Nat.ltb_spec i (S k)); try lia.
Qed.

Lemma each_replicate {A} (P : nat → A → Prop) x : (∀ i, P i x) → each P (replicate 128 x).
Proof. intros HP. split; [apply length_replicate|]. intros i y [-> _]%lookup_replicate. apply HP. Qed.

Lemma each_table {A} (P : nat → A → Prop) d f : (∀ i, (i < 128)%nat → P i (f i)) → each P (table d f 128).
Proof.
  intros HP. split; [apply table_length|]. intros i y Hi. pose proof (lookup_lt_Some _ _ _ Hi) as Hl.
  rewrite table_length in Hl. rewrite table_lookup, (proj2 (Nat.ltb_lt _ _)) in Hi by done.
  injection Hi as <-. by apply HP.
Qed.

(** ** Seeds *)

(** The seed that [extend_length] makes of a string. *)
Definition extended (x : Block) : Block := key_stream (aes_128_schedule x) 0 16.

Definition is_pair (x0 x1 : nat → Block) (i : nat) (p : BitVector * BitVector) : Prop := p = (bv128 (x0 i), bv128 (x1 i)).
Definition is_one (x : nat → Block) (i : nat) (v : BitVector) : Prop := v = bv128 (x i).
Definition any {A} (_ : nat) (_ : A) : Prop := True.

Lemma aes_schedule_wf x : block_wf x → schedule_wf (aes_128_schedule x).
Proof. intros Hx. rewrite aes_128_schedule_eq by done. by apply FixedKeyAES_wf. Qed.

Lemma extended_wf x : block_wf x → block_wf (extended x).
Proof. intros Hx. unfold extended. apply key_stream_wf. apply aes_schedule_wf. exact Hx. Qed.

(** What [set_seeds] keeps. *)
Definition same_base (o o' : BaseOT) : Prop :=
  b_nOT o' = b_nOT o ∧ b_role o' = b_role o ∧ b_receiver_inputs o' = b_receiver_inputs o.

Ltac base_cbn Hr :=
  cbn [with_generators with_strings b_role b_sender_inputs b_G_sender b_G_receiver b_receiver_outputs mbind outcome_bind];
  rewrite ?Hr; change (has_role SENDER SENDER) with true; change (has_role SENDER RECEIVER) with false;
  change (has_role RECEIVER RECEIVER) with true; change (has_role RECEIVER SENDER) with false; cbn iota.

Definition seeded2 (x0 x1 : nat → Block) (i : nat) (p : PRNG * PRNG) : Prop :=
  at_pos p.1 (aes_128_schedule (x0 i)) 0 ∧ at_pos p.2 (aes_128_schedule (x1 i)) 0.
Definition seeded (x : nat → Block) (i : nat) (g : PRNG) : Prop := at_pos g (aes_128_schedule (x i)) 0.

Lemma extend_sender o x0 x1 : (∀ i, block_wf (x0 i)) → (∀ i, block_wf (x1 i)) →
  b_nOT o = 128 → b_role o = SENDER → each (is_pair x0 x1) (b_sender_inputs o) → each (seeded2 x0 x1) (b_G_sender o) →
  ∃ o', extend_length o = Ok o' ∧ same_base o o' ∧ b_receiver_outputs o' = b_receiver_outputs o ∧
        each (is_pair (λ i, extended (x0 i)) (λ i, extended (x1 i))) (b_sender_inputs o').
Proof.
  intros W0 W1 Hn Hr Hsi Hg. unfold extend_length. rewrite Hn.
  lazymatch goal with |- context [foldM ?f ?o1 (seqZ 0 128)] =>
    destruct (foldM_inv (λ k o', ∃ si gs, o' = with_generators (with_strings o si (b_receiver_outputs o)) gs (b_G_receiver o) ∧
      progress (is_pair x0 x1) (is_pair (λ i, extended (x0 i)) (λ i, extended (x1 i))) k si ∧
      progress (seeded2 x0 x1) any k gs) f (seqZ 0 128) o1) as (o2 & -> & si & gs' & -> & Hs & _) end.
  - exists (b_sender_inputs o), (b_G_sender o). split; [by destruct o|]. split; by apply progress_0.
  - intros k i o' [-> Hk]%lookup_seqZ (si & gs1 & -> & Hs & Hg1). rewrite Z.add_0_l. assert (Hk' : (k < 128)%nat) by lia.
    base_cbn Hr.
    destruct (progress_get _ _ _ k Hs Hk') as (? & -> & ->). cbn [mbind outcome_bind].
    destruct (progress_get _ _ _ k Hg1 Hk') as ([g0 g1] & -> & Hp0 & Hp1). cbn [mbind outcome_bind fst snd] in *.
    destruct (bv128_randomize (x0 k) g0 _ 0 (W0 k) Hp0 ltac:(unfold prng_limit; lia)) as (g0' & -> & _). cbn [mbind outcome_bind].
    destruct (bv128_randomize (x1 k) g1 _ 0 (W1 k) Hp1 ltac:(unfold prng_limit; lia)) as (g1' & -> & _). cbn [mbind outcome_bind].
    assert (Hq : is_pair (λ i, extended (x0 i)) (λ i, extended (x1 i)) k (bv128 (extended (x0 k)), bv128 (extended (x1 k)))) by (unfold is_pair; reflexivity).
    change (0 + 16) with 16. fold (extended (x0 k)) (extended (x1 k)).
    destruct (progress_set _ _ si k _ Hs Hk' Hq) as (si' & -> & Hs').
    cbn [mbind outcome_bind].
    destruct (progress_set _ _ gs1 k (g0', g1') Hg1 Hk' I) as (gs2 & -> & Hg2). base_cbn Hr.
    eexists. split; [done|]. exists si', gs2. by split.
  - eexists. split; [done|]. split; [done|]. split; [done|]. by eapply progress_all.
Qed.

Lemma set_seeds_sender o x0 x1 : (∀ i, block_wf (x0 i)) → (∀ i, block_wf (x1 i)) →
  b_nOT o = 128 → b_role o = SENDER → each (is_pair x0 x1) (b_sender_inputs o) → each any (b_G_sender o) →
  ∃ o', set_seeds o = Ok o' ∧ same_base o o' ∧ b_receiver_outputs o' = b_receiver_outputs o ∧
        each (is_pair (λ i, extended (x0 i)) (λ i, extended (x1 i))) (b_sender_inputs o').
Proof.
  intros W0 W1 Hn Hr Hsi Hgs. unfold set_seeds. rewrite Hn.
  lazymatch goal with |- context [foldM ?f o (seqZ 0 128)] =>
    destruct (foldM_inv (λ k o', ∃ gs, o' = with_generators o gs (b_G_receiver o) ∧ progress any (seeded2 x0 x1) k gs) f (seqZ 0 128) o)
      as (o1 & -> & gs & -> & Hg) end.
  - exists (b_G_sender o). split; [by destruct o|]. by apply progress_0.
  - intros k i o' [-> Hk]%lookup_seqZ (gs & -> & Hg). rewrite Z.add_0_l. assert (Hk' : (k < 128)%nat) by lia.
    base_cbn Hr.
    destruct (each_get _ _ k Hsi Hk') as (? & -> & ->). cbn [mbind outcome_bind].
    destruct (progress_get _ _ _ k Hg Hk') as ([g0 g1] & -> & _). cbn [mbind outcome_bind].
    destruct (seed_from_spec g0 (x0 k) (W0 k)) as (g0' & -> & Hp0). cbn [mbind outcome_bind].
    destruct (seed_from_spec g1 (x1 k) (W1 k)) as (g1' & -> & Hp1). cbn [mbind outcome_bind].
    destruct (progress_set _ _ gs k (g0', g1') Hg Hk' (conj Hp0 Hp1)) as (gs' & -> & Hg'). base_cbn Hr.
    eexists. split; [done|]. by exists gs'.
  - cbn [mbind outcome_bind]. apply progress_all in Hg.
    destruct (extend_sender (with_generators o gs (b_G_receiver o)) x0 x1 W0 W1 Hn Hr Hsi Hg) as (o' & E & Hs & Hx).
    by exists o'.
Qed.

Lemma extend_receiver o x : (∀ i, block_wf (x i)) →
  b_nOT o = 128 → b_role o = RECEIVER → each (is_one x) (b_receiver_outputs o) → each (seeded x) (b_G_receiver o) →
  ∃ o', extend_length o = Ok o' ∧ same_base o o' ∧ b_sender_inputs o' = b_sender_inputs o ∧
        each (is_one (λ i, extended (x i))) (b_receiver_outputs o').
Proof.
  intros W Hn Hr Hro Hg. unfold extend_length. rewrite Hn.
  lazymatch goal with |- context [foldM ?f ?o1 (seqZ 0 128)] =>
    destruct (foldM_inv (λ k o', ∃ ro gr, o' = with_generators (with_strings o (b_sender_inputs o) ro) (b_G_sender o) gr ∧
      progress (is_one x) (is_one (λ i, extended (x i))) k ro ∧
      progress (seeded x) any k gr) f (seqZ 0 128) o1) as (o2 & -> & ro & gr' & -> & Hs & _) end.
  - exists (b_receiver_outputs o), (b_G_receiver o). split; [by destruct o|]. split; by apply progress_0.
  - intros k i o' [-> Hk]%lookup_seqZ (ro & gr1 & -> & Hs & Hg1). rewrite Z.add_0_l. assert (Hk' : (k < 128)%nat) by lia.
    base_cbn Hr. base_cbn Hr.
    destruct (progress_get _ _ _ k Hs Hk') as (? & -> & ->). cbn [mbind outcome_bind].
    destruct (progress_get _ _ _ k Hg1 Hk') as (g & -> & Hp). cbn [mbind outcome_bind].
    destruct (bv128_randomize (x k) g _ 0 (W k) Hp ltac:(unfold prng_limit; lia)) as (g' & -> & _). cbn [mbind outcome_bind].
    assert (Hq : is_one (λ i, extended (x i)) k (bv128 (extended (x k)))) by (unfold is_one; reflexivity).
    fold (extended (x k)).
    destruct (progress_set _ _ ro k _ Hs Hk' Hq) as (ro' & -> & Hs'). cbn [mbind outcome_bind].
    destruct (progress_set _ _ gr1 k g' Hg1 Hk' I) as (gr2 & -> & Hg2). base_cbn Hr.
    eexists. split; [done|]. exists ro', gr2. by split.
  - eexists. split; [done|]. split; [done|]. split; [done|]. by eapply progress_all.
Qed.

Lemma set_seeds_receiver o x : (∀ i, block_wf (x i)) →
  b_nOT o = 128 → b_role o = RECEIVER → each (is_one x) (b_receiver_outputs o) → each any (b_G_receiver o) →
  ∃ o', set_seeds o = Ok o' ∧ same_base o o' ∧ b_sender_inputs o' = b_sender_inputs o ∧
        each (is_one (λ i, extended (x i))) (b_receiver_outputs o').
Proof.
  intros W Hn Hr Hro Hgr. unfold set_seeds. rewrite Hn.
  lazymatch goal with |- context [foldM ?f o (seqZ 0 128)] =>
    destruct (foldM_inv (λ k o', ∃ gr, o' = with_generators o (b_G_sender o) gr ∧ progress any (seeded x) k gr) f (seqZ 0 128) o)
      as (o1 & -> & gr & -> & Hg) end.
  - exists (b_G_receiver o). split; [by destruct o|]. by apply progress_0.
  - intros k i o' [-> Hk]%lookup_seqZ (gr & -> & Hg). rewrite Z.add_0_l. assert (Hk' : (k < 128)%nat) by lia.
    base_cbn Hr.
    destruct (each_get _ _ k Hro Hk') as (? & -> & ->). cbn [mbind outcome_bind].
    destruct (progress_get _ _ _ k Hg Hk') as (g & -> & _). cbn [mbind outcome_bind].
    destruct (seed_from_spec g (x k) (W k)) as (g' & -> & Hp). cbn [mbind outcome_bind].
    destruct (progress_set _ _ gr k g' Hg Hk' Hp) as (gr' & -> & Hg'). base_cbn Hr.
    eexists. split; [done|]. by exists gr'.
  - cbn [mbind outcome_bind]. apply progress_all in Hg.
    destruct (extend_receiver (with_generators o (b_G_sender o) gr) x W Hn Hr Hro Hg) as (o' & E & Hs & Hx).
    by exists o'.
Qed.

(** ** The OT extension from base OTs *)
Lemma bv128_seed x : block_wf x → mem_read (bv_bytes (bv128 x)) 0 SEED_SIZE = Ok x.
Proof. apply bv_read_all. Qed.

Lemma block_val_inj x y : block_wf x → block_wf y → le_val x = le_val y → x = y.
Proof.
  intros [Hx Ux] [Hy Uy] E. rewrite <-(le_bytes_val x Ux), <-(le_bytes_val y Uy), Hx, Hy. by f_equal.
Qed.

Definition some_block (_ : nat) (v : BitVector) : Prop := ∃ y, v = bv128 y.
Definition some_pair (_ : nat) (p : BitVector * BitVector) : Prop := ∃ x y, p = (bv128 x, bv128 y).

(** The key of a pair. *)
Definition pair_key (x0 x1 : nat → Block) (r : nat) (b : bool) : list Block :=
  aes_128_schedule (if b then x1 r else x0 r).

Definition new_ext (role : Z) (passive : bool) (K : BitVector) (gs : list (PRNG * PRNG)) (gr : list PRNG) (G : PRNG) : OTExt :=
  mkOt role passive 128 1 K gs gr G [] [] [] [] [].

Lemma ot_new_receiver passive K si ro G x0 x1 : (∀ i, block_wf (x0 i)) → (∀ i, block_wf (x1 i)) →
  bv_nbits K = 128 → each (is_pair x0 x1) si → each some_block ro →
  (∃ gs gr, ot_new SENDER passive K si ro G = Ok (new_ext RECEIVER passive K gs gr G) ∧ gens2 (pair_key x0 x1) 0 gs) ∨
  ((∃ r, (r < 128)%nat ∧ x0 r = x1 r) ∧ ot_new SENDER passive K si ro G = Throw "base sender outputs are the same").
Proof.
  intros W0 W1 HK Hsi Hro. unfold ot_new. rewrite HK. change (s32 (u32 128)) with 128. change (u32 128) with 128.
  pose proof (proj1 Hsi) as Lsi. pose proof (proj1 Hro) as Lro. rewrite Lsi, Lro. change (INV_ROLE SENDER) with RECEIVER.
  cbn [Nat.eqb negb Z.of_nat Pos.of_succ_nat Pos.succ Z.eqb Pos.eqb]. rewrite !vector_resize_128. cbn [mbind outcome_bind].
  destruct (foldM_inv_or (λ k '(gs, gr), progress any (seeded2 x0 x1) k gs) (λ i, x0 (Z.to_nat i) = x1 (Z.to_nat i))
    "base sender outputs are the same" (init_base RECEIVER ro si) (seqZ 0 128) (replicate 128 (prng_new, prng_new), replicate 128 prng_new))
    as [([gs gr] & -> & Hg)|[Hbad ->]].
  - by apply each_replicate.
  - intros k i [gs gr] [-> Hk]%lookup_seqZ Hg. rewrite Z.add_0_l. assert (Hk' : (k < 128)%nat) by lia. unfold init_base.
    destruct (each_get _ _ k Hsi Hk') as (p & -> & Hp'). unfold is_pair in Hp'. subst p. cbn [mbind outcome_bind].
    destruct (each_get _ _ k Hro Hk') as (? & -> & y & ->). cbn [mbind outcome_bind].
    change (bv_nbytes (bv128 _)) with 16. change (u32 16 <? 16) with false. cbn [orb]. cbn iota.
    change (has_role RECEIVER RECEIVER) with true. change (has_role RECEIVER SENDER) with false. cbn iota.
    rewrite !bv128_int128 by done. cbn [mbind outcome_bind]. rewrite Nat2Z.id.
    destruct (Z.eqb_spec (le_val (x0 k)) (le_val (x1 k))) as [E|E].
    { right. split; [|done]. by apply block_val_inj. }
    left. destruct (progress_get _ _ _ k Hg Hk') as ([g0 g1] & -> & _). cbn [mbind outcome_bind].
    rewrite !bv128_seed by done. cbn [mbind outcome_bind].
    destruct (SetSeed_spec g0 (x0 k) (W0 k)) as (g0' & -> & Hp0 & _). cbn [mbind outcome_bind].
    destruct (SetSeed_spec g1 (x1 k) (W1 k)) as (g1' & -> & Hp1 & _). cbn [mbind outcome_bind].
    destruct (progress_set _ _ gs k (g0', g1') Hg Hk' (conj Hp0 Hp1)) as (gs' & -> & Hg'). cbn [mbind outcome_bind].
    eexists. split; [done|]. exact Hg'.
  - left. exists gs, gr. split; [done|]. apply progress_all in Hg as [Hl Hg]. split; [done|].
    intros i g0 g1 Hi. apply (Hg i (g0, g1) Hi).
  - right. split; [|done]. apply Exists_exists in Hbad as (i & Hi & E). apply elem_of_seqZ in Hi.
    exists (Z.to_nat i). split; [lia|done].
Qed.

Lemma ot_new_sender passive K si ro G x : (∀ i, block_wf (x i)) →
  bv_nbits K = 128 → each some_pair si → each (is_one x) ro →
  ∃ gs gr, ot_new RECEIVER passive K si ro G = Ok (new_ext SENDER passive K gs gr G) ∧
           gens (λ r, aes_128_schedule (x r)) 0 gr.
Proof.
  intros W HK Hsi Hro. unfold ot_new. rewrite HK. change (s32 (u32 128)) with 128. change (u32 128) with 128.
  pose proof (proj1 Hsi) as Lsi. pose proof (proj1 Hro) as Lro. rewrite Lsi, Lro. change (INV_ROLE RECEIVER) with SENDER.
  cbn [Nat.eqb negb Z.of_nat Pos.of_succ_nat Pos.succ Z.eqb Pos.eqb]. rewrite !vector_resize_128. cbn [mbind outcome_bind].
  destruct (foldM_inv (λ k '(gs, gr), progress any (seeded x) k gr)
    (init_base SENDER ro si) (seqZ 0 128) (replicate 128 (prng_new, prng_new), replicate 128 prng_new))
    as ([gs gr] & -> & Hg).
  - by apply each_replicate.
  - intros k i [gs gr] [-> Hk]%lookup_seqZ Hg. rewrite Z.add_0_l. assert (Hk' : (k < 128)%nat) by lia. unfold init_base.
    destruct (each_get _ _ k Hsi Hk') as (? & -> & y & z & ->). cbn [mbind outcome_bind].
    destruct (each_get _ _ k Hro Hk') as (? & -> & ->). cbn [mbind outcome_bind].
    change (bv_nbytes (bv128 _)) with 16. change (u32 16 <? 16) with false. cbn [orb]. cbn iota.
    change (has_role SENDER RECEIVER) with false. change (has_role SENDER SENDER) with true. cbn iota. cbn [mbind outcome_bind].
    destruct (progress_get _ _ _ k Hg Hk') as (g & -> & _). cbn [mbind outcome_bind].
    rewrite !bv128_seed by done. cbn [mbind outcome_bind].
    destruct (SetSeed_spec g (x k) (W k)) as (g' & -> & Hp & _). cbn [mbind outcome_bind].
    destruct (progress_set _ _ gr k g' Hg Hk' Hp) as (gr' & -> & Hg'). cbn [mbind outcome_bind].
    eexists. split; [done|]. exact Hg'.
  - exists gs, gr. split; [done|]. apply progress_all in Hg as [Hl Hg]. split; [done|].
    intros i g Hi. apply (Hg i g Hi).
Qed.

(** ** The set-up with fake base OTs *)
Lemma each_pair_blocks x0 x1 l : each (is_pair x0 x1) l → each some_pair l.
Proof. intros [Hl Hx]. split; [done|]. intros i p Hi. rewrite (Hx i p Hi). by eexists _, _. Qed.

(** The message of the sender, and what the receiver gets from it. *)
Lemma fake_message key q v : schedule_wf key → bv_wf v → bv_nbits v = 128 →
  ∃ w wire, foldM (fake_pack key q) os_new (seqZ 0 128) = Ok w ∧ os_Send w = Ok wire ∧
    ∀ rest, ∃ o r', os_Receive os_new (wire ++ rest) = Ok (o, rest) ∧
      foldM (fake_receive v) (replicate 128 zero128, (zero128, zero128), o) (seqZ 0 128)
        = Ok (received key q (λ r, Z.testbit (bv_num v) (Z.of_nat r)) 128, r').
Proof.
  intros Hk Hv Hn. set (choice := λ r : nat, Z.testbit (bv_num v) (Z.of_nat r)).
  pose proof (fake_carries key q Hk v choice Hv Hn (λ r, eq_refl)) as C.
  destruct (message _ _ _ _ C) as (w & wire & Ew & Es & Hr); [intros w'; by apply fake_pack_out|lia|].
  exists w, wire. split; [done|]. split; [done|]. intros rest.
  destruct (Hr os_new rest os_new_wf) as (o & r' & Eo & Eg). exists o, r'. split; [done|].
  by rewrite received_0 in Eg.
Qed.

Lemma fake_exec_sender key q o G w wire P : schedule_wf key → at_pos G key q → q + 4096 < prng_limit →
  foldM (fake_pack key q) os_new (seqZ 0 128) = Ok w → os_Send w = Ok wire →
  b_role o = SENDER → b_nOT o = 128 → b_sender_inputs o = replicate 128 (zero128, zero128) →
  each any (b_G_sender o) →
  ∃ o', fake_exec_base o P G false = Ok (o', mkLink (l_out P ++ wire) (l_in P)) ∧
    b_role o' = SENDER ∧ b_receiver_inputs o' = b_receiver_inputs o ∧ b_receiver_outputs o' = b_receiver_outputs o ∧
    each (is_pair (λ r, extended (fake_string key q r false)) (λ r, extended (fake_string key q r true)))
      (b_sender_inputs o').
Proof.
  intros Hk HG Hq Ew Es Hr Hn Hsi Hgs. unfold fake_exec_base. rewrite bv_make_128. cbn [mbind outcome_bind].
  rewrite andb_false_r, Hr. change (has_role SENDER SENDER) with true. change (has_role SENDER RECEIVER) with false.
  cbn iota. cbn [mbind outcome_bind].
  destruct (fake_send_loop key q G w HG Hq Ew) as (G' & E). rewrite <-Hsi, <-Hn in E. rewrite E. cbn [mbind outcome_bind].
  unfold send_if_ot_sender, link_send. rewrite Z.eqb_refl, Es. cbn [mbind outcome_bind].
  lazymatch goal with |- context [set_seeds ?o1] =>
    destruct (set_seeds_sender o1 (λ r, fake_string key q r false) (λ r, fake_string key q r true))
      as (o' & -> & (_ & Hr' & Hv) & Ho & Hsi') end;
    [intros; by apply fake_string_wf|intros; by apply fake_string_wf|exact Hn|exact Hr|by apply each_table|exact Hgs|].
  cbn [mbind outcome_bind]. exists o'. rewrite Hr', Hv, Ho. by split_and!.
Qed.

Lemma fake_exec_receiver key q o G wire out rest : schedule_wf key →
  b_role o = RECEIVER → b_nOT o = 128 → b_receiver_outputs o = replicate 128 zero128 →
  each any (b_G_receiver o) → bv_wf (b_receiver_inputs o) → bv_nbits (b_receiver_inputs o) = 128 →
  let choice r := Z.testbit (bv_num (b_receiver_inputs o)) (Z.of_nat r) in
  (∃ os r', os_Receive os_new (wire ++ rest) = Ok (os, rest) ∧
      foldM (fake_receive (b_receiver_inputs o)) (replicate 128 zero128, (zero128, zero128), os) (seqZ 0 128)
        = Ok (received key q choice 128, r')) →
  ∃ o', fake_exec_base o (mkLink out (wire ++ rest)) G false = Ok (o', mkLink out rest) ∧
    b_role o' = RECEIVER ∧ b_receiver_inputs o' = b_receiver_inputs o ∧ b_sender_inputs o' = b_sender_inputs o ∧
    each (is_one (λ r, extended (fake_string key q r (choice r)))) (b_receiver_outputs o').
Proof.
  intros Hk Hr Hn Hro Hgr Hv Hvn choice (os & os' & Er & Eg). unfold fake_exec_base. rewrite bv_make_128. cbn [mbind outcome_bind].
  rewrite andb_false_r, Hr. change (has_role RECEIVER SENDER) with false. change (has_role RECEIVER RECEIVER) with true.
  cbn iota. cbn [mbind outcome_bind].
  unfold send_if_ot_sender, link_receive. change (RECEIVER =? SENDER) with false. rewrite Z.eqb_refl. cbn iota. cbn [l_in l_out].
  change (reset_write_head os_new) with os_new. rewrite Er. cbn [mbind outcome_bind]. rewrite <-Hro, <-Hn in Eg. fold zero128.
  rewrite Eg. cbn [mbind outcome_bind received].
  lazymatch goal with |- context [set_seeds ?o1] =>
    destruct (set_seeds_receiver o1 (λ r, fake_string key q r (choice r))) as (o' & -> & (_ & Hr' & Hv') & Hs & Hro') end;
    [intros; by apply fake_string_wf|exact Hn|exact Hr|by apply each_table|exact Hgr|].
  cbn [mbind outcome_bind]. exists o'. rewrite Hr', Hv', Hs. by split_and!.
Qed.

(** A party as it comes out of the constructor. *)
Lemma new_ext_wf role passive K gs gr G : bv_wf K → bv_nbits K = 128 → ot_wf (new_ext role passive K gs gr G).
Proof. intros. split; try done; constructor. Qed.

(** The base OT before it runs. *)
Record ready (role : Z) (delta : Key) (o : BaseOT) : Prop := {
  rd_role : b_role o = role;
  rd_nOT : b_nOT o = 128;
  rd_sender : b_sender_inputs o = replicate 128 (zero128, zero128);
  rd_receiver : b_receiver_outputs o = replicate 128 zero128;
  rd_gs : each any (b_G_sender o);
  rd_gr : each any (b_G_receiver o);
  rd_wf : bv_wf (b_receiver_inputs o);
  rd_bits : bv_nbits (b_receiver_inputs o) = 128;
  rd_num : bv_num (b_receiver_inputs o) = delta;
}.

Lemma ready_spec role delta : is_word 128 delta →
  ∃ o, (o ← base_new 128 role; set_receiver_inputs128 o delta) = Ok o ∧ ready role delta o.
Proof.
  intros Hd. rewrite base_new_spec. cbn [mbind outcome_bind].
  destruct (set_receiver_inputs128_spec role delta Hd) as (v & E & Hw & Hn & Hv).
  exists (fresh_base role v). split; [exact E|]. split; try done; by apply each_replicate.
Qed.

(** After the base OTs without security the receiver has one string of each pair of the
    sender, the one that its choice bit selects. *)
Theorem fake_base_ots key q os or dr delta G0 G1 P out rest :
  at_pos G0 key q → q + 4096 < prng_limit → ready SENDER dr os → ready RECEIVER delta or →
  ∃ os' or' wire,
    fake_exec_base os P G0 false = Ok (os', mkLink (l_out P ++ wire) (l_in P)) ∧
    fake_exec_base or (mkLink out (wire ++ rest)) G1 false = Ok (or', mkLink out rest) ∧
    ∀ r, (r < 128)%nat → ∃ x0 x1, b_sender_inputs os' !! r = Some (x0, x1) ∧
      b_receiver_outputs or' !! r = Some (if Z.testbit delta (Z.of_nat r) then x1 else x0).
Proof.
  intros HG Hq [R1 R2 R3 R4 R5 _ R7 R8 _] [S1 S2 S3 S4 _ S6 S7 S8 S9].
  pose proof HG as (? & [_ _ Hk _ _ _ _] & _).
  destruct (fake_message key q (b_receiver_inputs or) Hk S7 S8) as (w & wire & Ew & Ewire & Hrd).
  destruct (fake_exec_sender key q os G0 w wire P Hk HG Hq Ew Ewire R1 R2 R3 R5) as (os' & Es & _ & _ & _ & Hsi).
  destruct (fake_exec_receiver key q or G1 wire out rest Hk S1 S2 S4 S6 S7 S8 (Hrd rest)) as (or' & Er & _ & _ & _ & Hro).
  exists os', or', wire. split; [done|]. split; [done|]. intros r Hr.
  destruct (lookup_lt_is_Some_2 (b_sender_inputs os') r) as [p Hp]; [rewrite (proj1 Hsi); lia|].
  destruct (lookup_lt_is_Some_2 (b_receiver_outputs or') r) as [y Hy]; [rewrite (proj1 Hro); lia|].
  pose proof (proj2 Hsi r p Hp) as Ep. pose proof (proj2 Hro r y Hy) as Ex. unfold is_pair in Ep. unfold is_one in Ex.
  rewrite S9 in Ex. subst p y. eexists _, _. split; [exact Hp|]. rewrite Hy. by destruct (Z.testbit _ _).
Qed.

(** ** Kyber: the receiver *)
Lemma set_bytes16_spec z x : block_wf z → (16 ≤ length x)%nat → set_bytes16 (bv128 z) x = Ok (bv128 (take 16 x)).
Proof.
  intros [Hz _] Hx. unfold set_bytes16. change (seqZ 0 AES_BLK_SIZE) with (seqZ 0 (Z.of_nat 16)).
  destruct (foldM_inv (λ k v, v = bv128 (take k x ++ drop k z))
    (λ v k, b ← vget x k; set_byte v k b) (seqZ 0 (Z.of_nat 16)) (bv128 z)) as (v & -> & ->).
  - done.
  - intros k i v [-> Hk]%lookup_seqZ ->. rewrite Z.add_0_l.
    destruct (lookup_lt_is_Some_2 x k) as [b Hb]; [lia|].
    rewrite (vget_Ok x (Z.of_nat k) b) by (lia || by rewrite Nat2Z.id). cbn [mbind outcome_bind].
    unfold set_byte. cbn [bv128 bv_bytes].
    rewrite vset_Ok by (rewrite length_app, length_take, length_drop; lia). cbn [mbind outcome_bind].
    eexists. split; [done|]. unfold set_bytes, bv128. cbn [bv_nbytes bv_nbits]. f_equal.
    rewrite Nat2Z.id, insert_app_r_alt by (rewrite length_take; lia).
    rewrite length_take, Nat.min_l, Nat.sub_diag by lia.
    rewrite (take_S_r _ _ _ Hb), <-app_assoc. f_equal.
    destruct (lookup_lt_is_Some_2 z k) as [c Hc]; [lia|]. by rewrite (drop_S _ _ _ Hc).
  - rewrite length_seqZ, Nat2Z.id. by rewrite (drop_ge z), app_nil_r by lia.
Qed.

Lemma set_zero128 x : (16 ≤ length x)%nat → set_bytes16 zero128 x = Ok (bv128 (take 16 x)).
Proof. apply set_bytes16_spec, block_zero. Qed.

Section kyber.
Context {R : Type} `{HK : !Kyber R} `{HKL : !@KyberLaws R HK} `{HG : GenericHash} `{HGL : !@GenericHashLaws HG}.

(** The octets that a sender sends for the ciphertexts [c]. *)
Definition ciphertext_wire (c : nat → list Z) : outcome (list Z) :=
  os ← foldM (λ os i, store_bytes os (c (Z.to_nat i))) os_new (seqZ 0 128); os_Send os.

(** A pack of the right length is read, whatever is in it. *)
Lemma carries_pack {T} (x : list Z) size (k : octetStream → outcome (T * octetStream)) (y : T) :
  Forall is_u8 x → length x = size → Z.of_nat size < 2 ^ 32 → (∀ r, k r = Ok (y, r)) →
  carries (λ w, store_bytes w x) (λ r, '(_, r) ← get_pack size r; k r) y (4 + Z.of_nat size).
Proof.
  intros Hu Hl Hs Hk.
  apply (carries_ext (λ w, w ← store_bytes w x; Ok w) _
    (λ r, '(z, r) ← get_bytes r; if (size <? length z)%nat then UB else if negb (length z =? size)%nat then Throw "exit"
       else k r) _ _ (4 + Z.of_nat size + 0)).
  - apply carries_bind with (x := x); [lia|lia|rewrite <-Hl; apply carries_bytes; [done|lia]|].
    eapply carries_ext; [apply carries_ret|done| |lia]. intros r.
    rewrite Hl, Nat.ltb_irrefl, Nat.eqb_refl. apply Hk.
  - intros w. by destruct (store_bytes w x).
  - intros r. unfold get_pack. destruct (get_bytes r) as [[z r']| |]; [|done..]. cbn [mbind outcome_bind].
    destruct (size <? length z)%nat; [done|]. by destruct (negb _).
  - lia.
Qed.

Hypothesis Hpk : Z.of_nat PKlength < 2 ^ 16.
Hypothesis Hct : Z.of_nat CTlength < 2 ^ 16.

(** The keys of the receiver fit into one message. *)
Lemma receiver_keys_loop o G r recver0 : bv_wf (b_receiver_inputs o) → bv_nbits (b_receiver_inputs o) = 128 →
  ∃ recver os r' wire, foldM (receiver_keys false) (b_receiver_inputs o, recver0, os_new, G, r) (seqZ 0 128)
    = Ok (b_receiver_inputs o, recver, os, G, r') ∧ os_Send os = Ok wire.
Proof.
  intros Hv Hn. set (size := 4 + Z.of_nat (2 * PKlength)).
  destruct (foldM_inv (λ k '(v, _, os, g, _), v = b_receiver_inputs o ∧ g = G ∧ os_wf os ∧ os_out os = bits0 ∧
      bits_tight (os_out os) ∧ flen os ≤ Z.of_nat k * size)
    (receiver_keys false) (seqZ 0 128) (b_receiver_inputs o, recver0, os_new, G, r))
    as ([[[[v recver] os] g] r'] & E & -> & -> & Hw & Ho & _ & Hl).
  - do 2 (split; [done|]). split; [apply os_new_wf|]. by rewrite flen_new.
  - intros k i [[[[v rc] os] g] rr] [-> Hk]%lookup_seqZ (-> & -> & Hw & Ho & Ht & Hl). unfold receiver_keys.
    cbn [mbind outcome_bind]. rewrite bv_get_bit_spec by (done || lia). cbn [mbind outcome_bind].
    set (b := Z.testbit _ _). pose proof (kyber_keys_length b rr) as [K1 K2]. pose proof (kyber_keys_u8 b rr) as [U1 U2].
    destruct (KyberReceiverMessage b rr) as [[sk [k0 k1]] rr'].  cbn [fst snd] in *.
    destruct (carries_bytes (k0 ++ k1)) with (w := os) as (os' & E & Hw' & Ht' & Hl' & _);
      [by apply Forall_app|rewrite length_app; lia|done|done|rewrite length_app; unfold size in Hl; nia|].
    rewrite E. cbn [mbind outcome_bind]. eexists. split; [done|]. split_and!; try done.
    + by eapply store_bytes_out.
    + rewrite length_app, K1, K2 in Hl'. unfold size in *. lia.
  - rewrite length_seqZ in Hl. pose proof (flushed_length os Hw). unfold flen in Hl.
    eexists _, os, _, _. split; [exact E|]. apply os_Send_spec; [done..|]. unfold size in Hl. lia.
Qed.
(** What the receiver decrypts: elements of its own array. *)
Definition decrypted (recver : list Z * bool) (stack : nat → list Z) (i : nat) : Block :=
  take 16 (KyberReceiverStrings recver.2 recver.1 (take CTlength (stack i), drop CTlength (stack i))).

Lemma decrypted_wf recver stack i : block_wf (decrypted recver stack i).
Proof.
  unfold decrypted. lazymatch goal with |- context [KyberReceiverStrings ?b ?sk ?c] =>
    pose proof (kyber_strings_length b sk c) as Hl; pose proof (kyber_strings_u8 b sk c) as Hu end.
  split; [rewrite length_take; lia|by apply Forall_take].
Qed.

Definition decrypted_strings (recver : list Z * bool) (stack : nat → list Z) (k : nat) : list BitVector :=
  table zero128 (λ i, bv128 (decrypted recver stack i)) k.

Lemma decrypted_strings_0 recver stack : decrypted_strings recver stack 0 = replicate 128 zero128.
Proof. apply table_0. Qed.

Lemma receiver_strings_carries recver stack c :
  (∀ i, length (c i) = (2 * CTlength)%nat ∧ Forall is_u8 (c i)) →
  carries (λ os, foldM (λ os i, store_bytes os (c (Z.to_nat i))) os (seqZ 0 128))
    (λ os, foldM (receiver_strings recver (stack <$> seq 0 128)) (replicate 128 zero128, os) (seqZ 0 128))
    (decrypted_strings recver stack 128) (128 * (4 + Z.of_nat (2 * CTlength))).
Proof.
  intros Hc. pose proof (carries_loop (λ os i, store_bytes os (c (Z.to_nat i)))
    (receiver_strings recver (stack <$> seq 0 128)) (decrypted_strings recver stack) (4 + Z.of_nat (2 * CTlength)) 128) as C.
  rewrite decrypted_strings_0 in C. apply C; [lia|]. intros k Hk. rewrite Nat2Z.id.
  destruct (Hc k) as [Hl Hu]. unfold receiver_strings. apply carries_pack; [done..|lia|]. intros os.
  rewrite (vget_Ok _ (Z.of_nat k) (stack k)) by (lia || (rewrite Nat2Z.id, list_lookup_fmap, lookup_seq_lt by done; done)).
  cbn [mbind outcome_bind]. unfold decrypted_strings. rewrite vget_last by done. cbn [mbind outcome_bind].
  rewrite set_zero128 by (rewrite kyber_strings_length; lia).
  cbn [mbind outcome_bind].
  pose proof (vset_table zero128 (λ i, bv128 (decrypted recver stack i)) k Hk) as E. unfold decrypted at 2 in E.
  by rewrite E.
Qed.

Lemma hash_with_id_spec x i : block_wf x → hash_with_id (bv128 x) i = Ok (bv128 (generic_hash 32 (x ++ le_bytes 8 i) 16)).
Proof.
  intros Hx. unfold hash_with_id. change (u32 (bv_nbytes (bv128 x))) with 16. change (16 <? AES_BLK_SIZE) with false.
  cbn iota. rewrite bv_read_all by done. cbn [mbind outcome_bind].
  rewrite mem_write_all by (rewrite generic_hash_length by lia; cbn; destruct Hx; lia). done.
Qed.

(** The seeds of the receiver. *)
Definition receiver_seed (recver : list Z * bool) (stack : nat → list Z) (i : nat) : Block :=
  generic_hash 32 (decrypted recver stack i ++ le_bytes 8 (Z.of_nat i)) 16.

Lemma receiver_seed_wf recver stack i : block_wf (receiver_seed recver stack i).
Proof. unfold receiver_seed. split; [by rewrite generic_hash_length by lia|apply generic_hash_u8]. Qed.

Lemma hash_receiver si recver stack :
  ∃ ro, foldM (hash_strings RECEIVER) (si, decrypted_strings recver stack 128) (seqZ 0 128) = Ok (si, ro) ∧
    each (is_one (receiver_seed recver stack)) ro.
Proof.
  destruct (foldM_inv (λ k '(si', ro), si' = si ∧ progress (is_one (decrypted recver stack)) (is_one (receiver_seed recver stack)) k ro)
    (hash_strings RECEIVER) (seqZ 0 128) (si, decrypted_strings recver stack 128)) as ([si' ro] & -> & -> & Hro).
  - split; [done|]. apply progress_0, each_table. done.
  - intros k i [si' ro] [-> Hk]%lookup_seqZ (-> & Hro). rewrite Z.add_0_l. assert (Hk' : (k < 128)%nat) by lia.
    unfold hash_strings. change (has_role RECEIVER RECEIVER) with true. change (has_role RECEIVER SENDER) with false. cbn iota.
    destruct (progress_get _ _ _ k Hro Hk') as (v & -> & Hv). unfold is_one in Hv. subst v. cbn [mbind outcome_bind].
    rewrite hash_with_id_spec by apply decrypted_wf. cbn [mbind outcome_bind].
    destruct (progress_set _ _ ro k (bv128 (receiver_seed recver stack k)) Hro Hk') as (ro' & E & Hro'); [by unfold is_one|].
    unfold receiver_seed in E at 1. rewrite E. cbn [mbind outcome_bind]. eexists. split; [done|]. by split.
  - exists ro. split; [done|]. by eapply progress_all.
Qed.
(** The end of the Kyber OTs for the receiver, and what it has sent, without the message
    of the sender. *)
Lemma kyber_receiver_run delta o G r recver stack out : ready RECEIVER delta o →
  ∃ o' r' own recver',
    (b_role o' = RECEIVER ∧ b_receiver_inputs o' = b_receiver_inputs o ∧ b_sender_inputs o' = b_sender_inputs o ∧
     each (is_one (λ i, extended (receiver_seed recver' stack i))) (b_receiver_outputs o')) ∧
    ∀ c rest, (∀ i, length (c i) = (2 * CTlength)%nat ∧ Forall is_u8 (c i)) →
      ∃ wire, ciphertext_wire c = Ok wire ∧
        exec_base (stack <$> seq 0 128) recver o (mkLink out (wire ++ rest)) G r false
          = Ok (o', mkLink (out ++ own) rest, r').
Proof.
  intros [Hr Hn _ Hro _ Hgr Hv Hvn _].
  destruct (receiver_keys_loop o G r recver Hv Hvn) as (recver' & os & r' & own & Ek & Eown).
  destruct (hash_receiver (b_sender_inputs o) recver' stack) as (ro & Eh & Heach).
  destruct (set_seeds_receiver (with_strings (with_receiver_inputs o (b_receiver_inputs o)) (b_sender_inputs o) ro)
    (receiver_seed recver' stack)) as (o' & Eo & (_ & Qr & Qv) & Qs & Qo);
    [apply receiver_seed_wf|exact Hn|exact Hr|exact Heach|exact Hgr|].
  exists o', r', own, recver'. split; [by rewrite Qr, Qv, Qs|]. intros c rest Hc.
  destruct (message _ _ _ _ (receiver_strings_carries recver' stack c Hc)) as (w & wire & Ew & Ewire & Hrd);
    [|lia|].
  { intros w' E. revert E. apply (foldM_preserves (λ w, os_out w = bits0)); [|done].
    intros i w1 w2 H1. by apply store_bytes_out. }
  exists wire. split; [unfold ciphertext_wire; by rewrite Ew|].
  destruct (Hrd os_new rest os_new_wf) as (os' & w' & Eos & Es). rewrite <-Hro, <-Hn in Es. rewrite <-Hn in Ek, Eh.
  unfold exec_base. rewrite Hr. change (has_role RECEIVER SENDER) with false. change (has_role RECEIVER RECEIVER) with true.
  cbn iota. rewrite Ek. cbn [mbind outcome_bind]. unfold send_if_ot_receiver, link_send. rewrite Z.eqb_refl, Eown.
  cbn [mbind outcome_bind]. unfold send_if_ot_sender, link_receive. change (RECEIVER =? SENDER) with false.
  rewrite Z.eqb_refl. cbn iota. cbn [l_in l_out]. change (reset_write_head os_new) with os_new. rewrite Eos.
  cbn [mbind outcome_bind]. rewrite Es. cbn [mbind outcome_bind]. rewrite Eh. cbn [mbind outcome_bind]. by rewrite Eo.
Qed.

(** C16. The receiver of the Kyber OTs learns nothing from the sender. Whatever
    ciphertexts the sender puts into its message, the receiver accepts them and ends
    in the same state with the same message sent: what it decrypts, hashes and seeds its
    generators with is its own array [stack], which nothing has written. *)
Theorem kyber_receiver_ignores_sender delta o G r recver stack out : ready RECEIVER delta o →
  ∃ o' r' own, ∀ c rest, (∀ i, length (c i) = (2 * CTlength)%nat ∧ Forall is_u8 (c i)) →
    ∃ wire, ciphertext_wire c = Ok wire ∧
      exec_base (stack <$> seq 0 128) recver o (mkLink out (wire ++ rest)) G r false
        = Ok (o', mkLink (out ++ own) rest, r').
Proof.
  intros Ho. destruct (kyber_receiver_run delta o G r recver stack out Ho) as (o' & r' & own & _ & _ & E).
  by exists o', r', own.
Qed.

(** The set-up of the extension on the side of its sender, which is the receiver of these
    base OTs: whatever ciphertexts the other party sends, it returns the same extension,
    with the same generators. *)
Theorem setup_ignores_sender delta passive Gb r G recver stack out : is_word 128 delta →
  ∃ ext r' own, ∀ c rest, (∀ i, length (c i) = (2 * CTlength)%nat ∧ Forall is_u8 (c i)) →
    ∃ wire, ciphertext_wire c = Ok wire ∧
      ot_setup (stack <$> seq 0 128) recver (mkLink out (wire ++ rest)) delta SENDER passive Gb r G
        = Ok (ext, mkLink (out ++ own) rest, r').
Proof.
  intros Hd. destruct (ready_spec (INV_ROLE SENDER) delta Hd) as (o & Eo & Ho).
  destruct (kyber_receiver_run delta o Gb r recver stack out Ho)
    as (o' & r' & own & recver' & (Qr & Qv & Qs & Qo) & E).
  destruct (ot_new_sender passive (b_receiver_inputs o') (b_sender_inputs o') (b_receiver_outputs o') G
    (λ i, extended (receiver_seed recver' stack i))) as (gs & gr & En & _);
    [intros; apply extended_wf, receiver_seed_wf|rewrite Qv; apply Ho|rewrite Qs, (rd_sender _ _ _ Ho)|exact Qo|].
  { apply each_replicate. intros i. by exists (replicate 16 0), (replicate 16 0). }
  eexists _, r', own. intros c rest Hc. destruct (E c rest Hc) as (wire & W & Er). exists wire. split; [done|].
  unfold ot_setup. destruct (base_new 128 (INV_ROLE SENDER)) as [o0| |]; [|done..].
  cbn [mbind outcome_bind] in *. rewrite Eo, bind_ok, Er.
  cbn [mbind outcome_bind]. rewrite Qr, En. cbn [mbind outcome_bind]. reflexivity.
Qed.
End kyber.
End setup.

(** ** Instances *)
#[local] Existing Instances toy_hash toy_hash_laws.

(** An OT whose ciphertexts hold only the first octet of each message. *)
#[local] Instance toy_kyber : Kyber unit := {
  PKlength := 1;
  CTlength := 1;
  randombytes n r := (replicate n (u8 5), r);
  KyberReceiverMessage b r := (([b2z b], ([1], [2])), r);
  KyberSenderMessage m _ r := (([u8 (hd 0 m.1)], [u8 (hd 0 m.2)]), r);
  KyberReceiverStrings b _ c := replicate 32 (u8 (hd 0 (if b then c.2 else c.1)));
}.

#[local, refine] Instance toy_kyber_laws : KyberLaws unit := {}.
Proof.
  - intros n r. apply length_replicate.
  - intros n r. apply replicate_u8.
  - done.
  - intros b r. split; by repeat constructor.
  - done.
  - intros m pks r. split; apply (replicate_u8 1).
  - intros b sk c. apply length_replicate.
  - intros b sk c. apply replicate_u8.
Defined.

Lemma kyber_receiver_ignores_sender_witness : ∃ o o' own wire0 wire1,
  ciphertext_wire (λ _, [7; 8]) = Ok wire0 ∧ ciphertext_wire (λ _, [9; 9]) = Ok wire1 ∧
  exec_base ((λ _, replicate 2 3) <$> seq 0 128) ([], false) o (mkLink [] wire0) zero_prng tt false = Ok (o', mkLink own [], tt) ∧
  exec_base ((λ _, replicate 2 3) <$> seq 0 128) ([], false) o (mkLink [] wire1) zero_prng tt false = Ok (o', mkLink own [], tt).
Proof.
  destruct (ready_spec RECEIVER 6 ltac:(done)) as (o & _ & Ho).
  destruct (kyber_receiver_ignores_sender ltac:(done) ltac:(done) 6 o zero_prng tt ([], false) (λ _, replicate 2 3) [] Ho)
    as (o' & [] & own & E).
  destruct (E (λ _, [7; 8]) []) as (wire0 & W0 & E0); [intros _; split; [done|by repeat constructor]|].
  destruct (E (λ _, [9; 9]) []) as (wire1 & W1 & E1); [intros _; split; [done|by repeat constructor]|].
  rewrite app_nil_r in E0, E1. exists o, o', own, wire0, wire1. split; [exact W0|]. split; [exact W1|].
  split; [exact E0|exact E1].
Defined.

Lemma setup_ignores_sender_witness : ∃ ext own wire0 wire1,
  ciphertext_wire (λ _, [7; 8]) = Ok wire0 ∧ ciphertext_wire (λ _, [9; 9]) = Ok wire1 ∧
  ot_setup ((λ _, replicate 2 3) <$> seq 0 128) ([], false) (mkLink [] wire0) 6 SENDER false zero_prng tt zero_prng
    = Ok (ext, mkLink own [], tt) ∧
  ot_setup ((λ _, replicate 2 3) <$> seq 0 128) ([], false) (mkLink [] wire1) 6 SENDER false zero_prng tt zero_prng
    = Ok (ext, mkLink own [], tt).
Proof.
  destruct (setup_ignores_sender ltac:(done) ltac:(done) 6 false zero_prng tt zero_prng ([], false) (λ _, replicate 2 3) [] ltac:(done))
    as (ext & [] & own & E).
  destruct (E (λ _, [7; 8]) []) as (wire0 & W0 & E0); [intros _; split; [done|by repeat constructor]|].
  destruct (E (λ _, [9; 9]) []) as (wire1 & W1 & E1); [intros _; split; [done|by repeat constructor]|].
  rewrite app_nil_r in E0, E1. exists ext, own, wire0, wire1. split; [exact W0|]. split; [exact W1|].
  split; [exact E0|exact E1].
Defined.
