(* ===== verification/CryptoTools.v ===== *)
(** * The tools of libOTe

    [deps/libOTe/cryptoTools/cryptoTools]: [PRNG] ([Crypto/PRNG.{h,cpp}]), [AESStream]
    and the modes of AES ([Crypto/AES.{h,cpp}]), rounding ([Common/Defines.h]).

    AES itself is a parameter, and so is Blake2: functions on blocks.  A [block] is a
    [Z] below [2 ^ 128], stored as sixteen octets, the lowest first. *)

From S2P Require Import Prelude.

Class OcAes := {
  (** [AES(key).ecbEncBlock(x)] *)
  enc : Z → Z → Z;
  enc_word key x : is_word 128 (enc key x);
}.

(** [Common/Defines.h] *)
Definition divCeil (val d : nat) : nat := (val + d - 1) / d.
Definition divNearest (val d : nat) : nat := (val + d / 2) / d.
Definition roundUpTo (val step : nat) : nat := divCeil val step * step.
Definition log2floor (x : Z) : Z := Z.log2 x.
Definition log2ceil (x : Z) : Z := Z.log2 (x - 1) + 1.

(** [block::allSame<u8>] and [block::allSame<bool>] *)
Definition allSame (val : Z) : Z := le_val (replicate 16 val).
Definition allSame_bool (val : bool) : Z := if val then Z.ones 128 else 0.

(** [cswapBytes] *)
Definition cswapBytes (x y cond : Z) : Z * Z :=
  let diff := Z.land (allSame cond) (Z.lxor x y) in (Z.lxor x diff, Z.lxor y diff).

(** [AES::hashBlocks] *)
Definition hashBlocks (aes : Z → Z) (plaintext : list Z) : list Z :=
  map (λ x, Z.lxor (aes x) x) plaintext.

Section aes.
Context `{OcAes}.

(** [AES::ecbEncCounterMode]: the counter is the low lane of a block. *)
Definition ecbEncCounterMode (key baseIdx blockLength : Z) : list Z :=
  map (λ i, enc key (u64 (baseIdx + i))) (seqZ 0 blockLength).

(** ** [PRNG] *)
Record OcPRNG := mkOcPRNG {
  oc_key : Z;
  mBuffer : list Z;
  mBytesIdx : Z;
  mBlockIdx : Z;
  mBufferByteCapacity : Z;
}.

Definition oc_octets (blocks : list Z) : list Z := mjoin (map (le_bytes 16) blocks).

Definition refillBuffer (p : OcPRNG) : outcome OcPRNG :=
  if Nat.eqb (length (mBuffer p)) 0 then Throw "PRNG has not been keyed "
  else
    let size := Z.of_nat (length (mBuffer p)) in
    Ok (mkOcPRNG (oc_key p) (ecbEncCounterMode (oc_key p) (mBlockIdx p) size) 0
          (u64 (mBlockIdx p + size)) (mBufferByteCapacity p)).

Definition oc_SetSeed (p : OcPRNG) (seed bufferSize : Z) : outcome OcPRNG :=
  let p := mkOcPRNG seed (mBuffer p) (mBytesIdx p) 0 (mBufferByteCapacity p) in
  refillBuffer
    (if Nat.eqb (length (mBuffer p)) 0
     then mkOcPRNG seed (replicate (Z.to_nat bufferSize) 0) (mBytesIdx p) 0 (16 * bufferSize)
     else p).

(** [PRNG()] *)
Definition oc_prng_new : OcPRNG := mkOcPRNG 0 [] 0 0 0.

(** One round of the loop of [PRNG::implGet]. *)
Definition implGet_step (p : OcPRNG) (lengthu8 : Z) : outcome (list Z * OcPRNG * Z) :=
  let step := Z.min lengthu8 (mBufferByteCapacity p - mBytesIdx p) in
  let dest := take (Z.to_nat step) (drop (Z.to_nat (mBytesIdx p)) (oc_octets (mBuffer p))) in
  let lengthu8 := lengthu8 - step in
  let p := mkOcPRNG (oc_key p) (mBuffer p) (mBytesIdx p + step) (mBlockIdx p) (mBufferByteCapacity p) in
  if mBytesIdx p =? mBufferByteCapacity p then
    let blocks := lengthu8 / 16 in
    let '(dest, p, lengthu8) :=
      if 8 * 16 <=? lengthu8 then
        (dest ++ oc_octets (ecbEncCounterMode (oc_key p) (mBlockIdx p) blocks),
         mkOcPRNG (oc_key p) (mBuffer p) (mBytesIdx p) (u64 (mBlockIdx p + blocks)) (mBufferByteCapacity p),
         lengthu8 - blocks * 16)
      else (dest, p, lengthu8) in
    p ← refillBuffer p;
    Ok (dest, p, lengthu8)
  else Ok (dest, p, lengthu8).

Fixpoint implGet_loop (fuel : nat) (p : OcPRNG) (lengthu8 : Z) : option (outcome (list Z * OcPRNG)) :=
  if lengthu8 =? 0 then Some (Ok ([], p))
  else
    match fuel with
    | O => None
    | S fuel =>
        match implGet_step p lengthu8 with
        | Ok (dest, p, rest) =>
            match implGet_loop fuel p rest with
            | Some r => Some ('(dest', p) ← r; Ok (dest ++ dest', p))
            | None => None
            end
        | Throw e => Some (Throw e)
        | UB => Some UB
        end
    end.

(** A turn takes octets, or fills the buffer for the next one. *)
Definition implGet (p : OcPRNG) (lengthu8 : Z) : outcome (list Z * OcPRNG) :=
  match implGet_loop (Z.to_nat lengthu8 + 1) p lengthu8 with Some r => r | None => Throw "no result" end.

(** [PRNG::get<T>()] for a type of [size] octets. *)
Definition oc_get (p : OcPRNG) (size : Z) : outcome (list Z * OcPRNG) :=
  if size <=? mBufferByteCapacity p - mBytesIdx p then
    Ok (take (Z.to_nat size) (drop (Z.to_nat (mBytesIdx p)) (oc_octets (mBuffer p))),
        mkOcPRNG (oc_key p) (mBuffer p) (mBytesIdx p + size) (mBlockIdx p) (mBufferByteCapacity p))
  else implGet p size.

Definition get_block (p : OcPRNG) : outcome (Z * OcPRNG) := '(x, p) ← oc_get p 16; Ok (le_val x, p).
Definition get_u64 (p : OcPRNG) : outcome (Z * OcPRNG) := '(x, p) ← oc_get p 8; Ok (le_val x, p).

(** [get(dest, length)] of blocks and of words, and [get] of an array of blocks. *)
Definition words (size : nat) (x : list Z) : list Z :=
  map (λ i, le_val (take size (drop (i * size) x))) (seq 0 (length x / size)).

Definition get_blocks (p : OcPRNG) (length : nat) : outcome (list Z * OcPRNG) :=
  '(x, p) ← implGet p (16 * Z.of_nat length); Ok (words 16 x, p).
Definition get_u64s (p : OcPRNG) (length : nat) : outcome (list Z * OcPRNG) :=
  '(x, p) ← implGet p (8 * Z.of_nat length); Ok (words 8 x, p).

Definition get_block_array (p : OcPRNG) (length : nat) : outcome (list Z * OcPRNG) :=
  '(x, p) ← oc_get p (16 * Z.of_nat length); Ok (words 16 x, p).

(** ** [AESStream]: a new AES key after another. *)
Definition stream_chunk : Z := 8.
Record AESStream := mkAESStream { as_prng : Z; as_keys : list Z; as_index : Z }.

Definition as_refillBuffer (s : AESStream) : AESStream :=
  mkAESStream (as_prng s) (ecbEncCounterMode (as_prng s) (as_index s) stream_chunk) (as_index s).

Definition as_setSeed (seed : Z) : AESStream := as_refillBuffer (mkAESStream seed [] 0).

Definition as_get (s : AESStream) : Z → Z := enc (as_keys s !!! Z.to_nat (as_index s mod stream_chunk)).

Definition as_next (s : AESStream) : AESStream :=
  let s := mkAESStream (as_prng s) (as_keys s) (u64 (as_index s + 1)) in
  if as_index s mod stream_chunk =? 0 then as_refillBuffer s else s.

(** ** The stream of octets that a [PRNG] gives *)
Definition stream_octet (key k : Z) : Z := le_bytes 16 (enc key (u64 (k / 16))) !!! Z.to_nat (k mod 16).
Definition stream (key pos n : Z) : list Z := map (stream_octet key) (seqZ pos n).

(** A generator that has given the first [pos] octets of the stream of [key]. *)
Definition at_pos (p : OcPRNG) (key pos : Z) : Prop :=
  ∃ b n, 0 ≤ b ∧ 0 < n ∧ oc_key p = key ∧ mBufferByteCapacity p = 16 * n ∧
    mBuffer p = ecbEncCounterMode key b n ∧ mBlockIdx p = u64 (b + n) ∧
    0 ≤ mBytesIdx p ≤ 16 * n ∧ pos = 16 * b + mBytesIdx p.

Lemma ecb_length key b n : 0 ≤ n → length (ecbEncCounterMode key b n) = Z.to_nat n.
Proof. intros. unfold ecbEncCounterMode. by rewrite length_map, length_seqZ. Qed.

Lemma ecb_u64 key b n : ecbEncCounterMode key (u64 b) n = ecbEncCounterMode key b n.
Proof. unfold ecbEncCounterMode, u64. apply map_ext. intros i. by rewrite Zplus_mod_idemp_l. Qed.

Lemma stream_length key pos n : length (stream key pos n) = Z.to_nat n.
Proof. unfold stream. by rewrite length_map, length_seqZ. Qed.

Lemma stream_app key pos n m : 0 ≤ n → 0 ≤ m →
  stream key pos n ++ stream key (pos + n) m = stream key pos (n + m).
Proof. intros. unfold stream. by rewrite <-map_app, <-seqZ_app by lia. Qed.

Lemma stream_slice key pos n k m : 0 ≤ k → 0 ≤ m → k + m ≤ n →
  take (Z.to_nat m) (drop (Z.to_nat k) (stream key pos n)) = stream key (pos + k) m.
Proof.
  intros. replace n with (k + (m + (n - k - m))) by lia.
  rewrite <-(stream_app _ _ k), <-(stream_app _ _ m) by lia.
  rewrite drop_app_length' by (rewrite stream_length; lia). by rewrite take_app_length' by (rewrite stream_length; lia).
Qed.

Lemma stream_block key b : 0 ≤ b → le_bytes 16 (enc key (u64 b)) = stream key (16 * b) 16.
Proof.
  intros Hb. unfold stream. apply list_eq_same_length with 16%nat; [by rewrite length_map, length_seqZ|by rewrite le_bytes_length|].
  intros i x y Hi Hx Hy. apply list_lookup_fmap_Some in Hy as (k & -> & Hk).
  apply lookup_seqZ in Hk as [-> _]. unfold stream_octet.
  replace (16 * b + Z.of_nat i) with (Z.of_nat i + b * 16) by lia.
  rewrite Z.div_add, Z.mod_add, Z.div_small, Z.mod_small, Z.add_0_l, Nat2Z.id by lia.
  symmetry. by apply list_lookup_total_correct.
Qed.

Lemma octets_ecb key b n : 0 ≤ b → 0 ≤ n → oc_octets (ecbEncCounterMode key b n) = stream key (16 * b) (16 * n).
Proof.
  intros Hb. unfold oc_octets, ecbEncCounterMode. revert n. apply natlike_ind; [done|].
  intros n Hn IH. unfold Z.succ. rewrite seqZ_app by lia. rewrite !map_app, join_app, IH.
  change (seqZ (0 + n) 1) with [n]. cbn [map mjoin list_join]. rewrite app_nil_r, stream_block by lia.
  replace (16 * (b + n)) with (16 * b + 16 * n) by lia. rewrite stream_app by lia. f_equal. lia.
Qed.

Lemma refill_at p key b nb :
  0 ≤ b → 0 < nb → oc_key p = key → mBufferByteCapacity p = 16 * nb → length (mBuffer p) = Z.to_nat nb →
  mBlockIdx p = u64 b →
  ∃ p', refillBuffer p = Ok p' ∧ at_pos p' key (16 * b) ∧ mBytesIdx p' = 0 ∧ mBytesIdx p' < mBufferByteCapacity p'.
Proof.
  intros Hb Hn Hk Hc Hl Hi. unfold refillBuffer. rewrite Hl. destruct (Nat.eqb_spec (Z.to_nat nb) 0); [lia|].
  eexists. split; [done|]. rewrite Hi, Hk, Z2Nat.id by lia. split; [|cbn; lia].
  exists b, nb. cbn. rewrite ecb_u64. unfold u64. rewrite Zplus_mod_idemp_l. repeat split; done || lia.
Qed.

(** A new seed starts the stream of its key. *)
Lemma SetSeed_at seed bufferSize : 0 < bufferSize →
  ∃ p, oc_SetSeed oc_prng_new seed bufferSize = Ok p ∧ at_pos p seed 0.
Proof.
  intros Hs. unfold oc_SetSeed. cbn [oc_prng_new mBuffer length Nat.eqb mBytesIdx].
  destruct (refill_at (mkOcPRNG seed (replicate (Z.to_nat bufferSize) 0) 0 0 (16 * bufferSize)) seed 0 bufferSize)
    as (p & E & Hp & _); [done..|apply length_replicate|done|].
  exists p. split; [exact E|]. exact Hp.
Qed.

(** What a turn of the loop gives, and how far it gets. *)
Lemma implGet_step_at p key pos len : at_pos p key pos → 0 < len →
  ∃ p' k, implGet_step p len = Ok (stream key pos k, p', len - k) ∧ at_pos p' key (pos + k) ∧ 0 ≤ k ≤ len ∧
    (k = len ∨ mBytesIdx p' < mBufferByteCapacity p' ∧ (mBytesIdx p < mBufferByteCapacity p → 1 ≤ k)).
Proof.
  intros (b & n & Hb & Hn & Hk & Hc & Hbuf & Hi & Hx & ->) Hlen. unfold implGet_step. cbn zeta.
  rewrite Hc, Hbuf, Hi, octets_ecb by lia. set (step := Z.min len (16 * n - mBytesIdx p)).
  rewrite stream_slice by lia. cbn [mBytesIdx mBufferByteCapacity mBlockIdx oc_key mBuffer].
  assert (length (ecbEncCounterMode key b n) = Z.to_nat n) as Hbl by (apply ecb_length; lia).
  destruct (Z.eqb_spec (mBytesIdx p + step) (16 * n)) as [E|E].
  - set (rest := len - step).
    assert (∀ p1 (dest : list Z) rest' b1 k, rest' = len - k → b + n ≤ b1 → 16 * b1 = 16 * b + mBytesIdx p + k →
      dest = stream key (16 * b + mBytesIdx p) k → step ≤ k ≤ len →
      oc_key p1 = key → mBufferByteCapacity p1 = 16 * n → mBuffer p1 = ecbEncCounterMode key b n → mBlockIdx p1 = u64 b1 →
      ∃ p' k, (p1 ← refillBuffer p1; Ok (dest, p1, rest')) = Ok (stream key (16 * b + mBytesIdx p) k, p', len - k) ∧
        at_pos p' key (16 * b + mBytesIdx p + k) ∧ 0 ≤ k ≤ len ∧
        (k = len ∨ mBytesIdx p' < mBufferByteCapacity p' ∧ (mBytesIdx p < 16 * n → 1 ≤ k))) as Hfin.
    { intros p1 dest rest' b1 k -> Hb1 Hpos -> Hkk H1 H2 H3 H4.
      destruct (refill_at p1 key b1 n) as (p' & -> & Hp & Hz & Hlt); try done; [lia|by rewrite H3|].
      exists p', k. rewrite bind_ok. split; [done|]. rewrite <-Hpos. split; [done|]. split; [lia|]. right. split; [done|].
      intros. lia. }
    destruct (Z.leb_spec (8 * 16) rest) as [Hr|Hr].
    + assert (0 ≤ rest / 16) by (apply Z.div_pos; lia).
      pose proof (Z.div_mod rest 16). pose proof (Z.mod_pos_bound rest 16).
      rewrite Hk. cbn [oc_key]. rewrite ecb_u64, octets_ecb by lia.
      eapply (Hfin _ _ _ (b + n + rest / 16) (step + 16 * (rest / 16))); try done; [lia|lia|lia| |lia|].
      * replace (16 * (b + n)) with (16 * b + mBytesIdx p + step) by lia. apply stream_app; lia.
      * cbn. unfold u64. by rewrite Zplus_mod_idemp_l.
    + apply (Hfin _ _ _ (b + n) step); done || lia.
  - exists (mkOcPRNG (oc_key p) (mBuffer p) (mBytesIdx p + step) (mBlockIdx p) (mBufferByteCapacity p)), step.
    rewrite Hk, Hbuf, Hi, Hc. split; [done|]. split; [|split; [lia|left; lia]].
    exists b, n. cbn. repeat split; done || lia.
Qed.

Lemma implGet_loop_at key fuel : ∀ p pos len, at_pos p key pos → 0 ≤ len →
  len = 0 ∨ len + b2z (negb (mBytesIdx p <? mBufferByteCapacity p)) ≤ Z.of_nat fuel →
  ∃ p', implGet_loop fuel p len = Some (Ok (stream key pos len, p')) ∧ at_pos p' key (pos + len).
Proof.
  induction fuel as [|fuel IH]; intros p pos len Hp Hlen Hf; cbn [implGet_loop];
    destruct (Z.eqb_spec len 0) as [->|Hl];
    try (exists p; by rewrite Z.add_0_r);
    revert Hf; destruct (Z.ltb_spec (mBytesIdx p) (mBufferByteCapacity p)) as [Hlt|Hge]; cbn [negb b2z]; intros [?|Hf]; try lia.
  all: destruct (implGet_step_at p key pos len Hp ltac:(lia)) as (p1 & k & -> & Hp1 & Hk & Hor).
  all: destruct (IH p1 (pos + k) (len - k) Hp1 ltac:(lia)) as (p2 & -> & Hp2).
  1, 3: destruct Hor as [->|[H1 H2]]; [left; lia|right];
    rewrite (proj2 (Z.ltb_lt _ _) H1); cbn [negb b2z]; lia.
  all: exists p2; rewrite bind_ok, stream_app by lia; replace (k + (len - k)) with len by lia;
    split; [done|]; by replace (pos + len) with (pos + k + (len - k)) by lia.
Qed.

Lemma implGet_at p key pos len : at_pos p key pos → 0 ≤ len →
  ∃ p', implGet p len = Ok (stream key pos len, p') ∧ at_pos p' key (pos + len).
Proof.
  intros Hp Hl. unfold implGet.
  destruct (implGet_loop_at key (Z.to_nat len + 1) p pos len Hp Hl) as (p' & -> & Hp').
  - right. destruct (_ <? _); cbn; lia.
  - by exists p'.
Qed.

Lemma oc_get_at p key pos size : at_pos p key pos → 0 ≤ size →
  ∃ p', oc_get p size = Ok (stream key pos size, p') ∧ at_pos p' key (pos + size).
Proof.
  intros Hp Hs. unfold oc_get. destruct (Z.leb_spec size (mBufferByteCapacity p - mBytesIdx p)) as [Hle|];
    [|by apply implGet_at].
  destruct Hp as (b & n & Hb & Hn & Hk & Hc & Hbuf & Hi & Hx & ->).
  rewrite Hbuf, octets_ecb, stream_slice by lia. eexists. split; [done|].
  exists b, n. cbn. repeat split; done || lia.
Qed.

(** The values that a generator gives from a position. *)
Definition stream_block_at (key pos : Z) : Z := le_val (stream key pos 16).
Definition stream_u64_at (key pos : Z) : Z := le_val (stream key pos 8).
Definition stream_blocks (key pos : Z) (n : nat) : list Z := words 16 (stream key pos (16 * Z.of_nat n)).
Definition stream_u64s (key pos : Z) (n : nat) : list Z := words 8 (stream key pos (8 * Z.of_nat n)).

Lemma get_block_at p key pos : at_pos p key pos →
  ∃ p', get_block p = Ok (stream_block_at key pos, p') ∧ at_pos p' key (pos + 16).
Proof. intros Hp. unfold get_block. destruct (oc_get_at p key pos 16 Hp) as (p' & -> & ?); [lia|]. by exists p'. Qed.

Lemma get_u64_at p key pos : at_pos p key pos →
  ∃ p', get_u64 p = Ok (stream_u64_at key pos, p') ∧ at_pos p' key (pos + 8).
Proof. intros Hp. unfold get_u64. destruct (oc_get_at p key pos 8 Hp) as (p' & -> & ?); [lia|]. by exists p'. Qed.

Lemma get_blocks_at p key pos n : at_pos p key pos →
  ∃ p', get_blocks p n = Ok (stream_blocks key pos n, p') ∧ at_pos p' key (pos + 16 * Z.of_nat n).
Proof. intros Hp. unfold get_blocks. destruct (implGet_at p key pos (16 * Z.of_nat n) Hp) as (p' & -> & ?); [lia|]. by exists p'. Qed.

Lemma get_block_array_at p key pos n : at_pos p key pos →
  ∃ p', get_block_array p n = Ok (stream_blocks key pos n, p') ∧ at_pos p' key (pos + 16 * Z.of_nat n).
Proof. intros Hp. unfold get_block_array. destruct (oc_get_at p key pos (16 * Z.of_nat n) Hp) as (p' & -> & ?); [lia|]. by exists p'. Qed.

Lemma get_u64s_at p key pos n : at_pos p key pos →
  ∃ p', get_u64s p n = Ok (stream_u64s key pos n, p') ∧ at_pos p' key (pos + 8 * Z.of_nat n).
Proof. intros Hp. unfold get_u64s. destruct (implGet_at p key pos (8 * Z.of_nat n) Hp) as (p' & -> & ?); [lia|]. by exists p'. Qed.

Lemma stream_u8 key pos n : Forall is_u8 (stream key pos n).
Proof.
  unfold stream. apply Forall_map, Forall_forall. intros k _. unfold stream_octet.
  assert (Z.to_nat (k mod 16) < length (le_bytes 16 (enc key (u64 (k / 16)))))%nat as Hl
    by (rewrite le_bytes_length; pose proof (Z.mod_pos_bound k 16); lia).
  apply lookup_lt_is_Some_2 in Hl as [x Hx]. rewrite (list_lookup_total_correct _ _ _ Hx).
  eapply Forall_lookup_1; [apply le_bytes_u8|exact Hx].
Qed.

Lemma words_word size (l : list Z) : Forall is_u8 l → Forall (is_word (8 * Z.of_nat size)) (words size l).
Proof.
  intros Hl. unfold words. apply Forall_map, Forall_forall. intros i _. cbn.
  set (x := take size _). assert (length x ≤ size)%nat as Hlen by (unfold x; rewrite length_take; lia).
  assert (Forall is_u8 x) as Hx by (unfold x; apply Forall_take, Forall_drop, Hl).
  pose proof (le_val_word x Hx) as Hw. unfold is_word in *.
  assert (2 ^ (8 * Z.of_nat (length x)) ≤ 2 ^ (8 * Z.of_nat size)) by (apply Z.pow_le_mono_r; lia). lia.
Qed.

Lemma words_length key pos n size : (0 < size)%nat →
  length (words size (stream key pos (Z.of_nat size * Z.of_nat n))) = n.
Proof.
  intros. unfold words. rewrite length_map, length_seq, stream_length.
  replace (Z.to_nat (Z.of_nat size * Z.of_nat n)) with (n * size)%nat by lia. by apply Nat.div_mul; lia.
Qed.

(** The generator of libOTe gives the octets of AES in counter mode, whatever the
    sizes of the pieces they are asked for in and wherever its buffer is filled or by-passed: from a new seed,
    requests of any sizes give consecutive parts of one stream. *)
Theorem oc_prng_is_counter_mode seed bufferSize sizes : 0 < bufferSize → Forall (λ n, 0 ≤ n) sizes →
  ∃ p p', oc_SetSeed oc_prng_new seed bufferSize = Ok p ∧
    foldM (λ '(out, p) n, '(x, p) ← oc_get p n; Ok (out ++ x, p)) ([], p) sizes
      = Ok (stream seed 0 (foldr Z.add 0 sizes), p').
Proof.
  intros Hb Hs. destruct (SetSeed_at seed bufferSize Hb) as (p & E & Hp). exists p.
  enough (∀ pos p, at_pos p seed pos → 0 ≤ pos → ∃ p',
    foldM (λ '(out, p) n, '(x, p) ← oc_get p n; Ok (out ++ x, p)) (stream seed 0 pos, p) sizes
      = Ok (stream seed 0 (pos + foldr Z.add 0 sizes), p')) as X.
  { destruct (X 0 p Hp ltac:(lia)) as [p' Hp']. exists p'. split; [done|]. exact Hp'. }
  clear p E Hp. induction Hs as [|n sizes Hn _ IH]; intros pos p Hp Hpos; cbn [foldM foldr].
  - exists p. by rewrite Z.add_0_r.
  - destruct (oc_get_at p seed pos n Hp Hn) as (p1 & -> & Hp1). rewrite !bind_ok.
    pose proof (stream_app seed 0 pos n Hpos Hn) as Es. rewrite Z.add_0_l in Es. rewrite Es.
    destruct (IH (pos + n) p1 Hp1 ltac:(lia)) as [p' Hp']. exists p'. by rewrite Hp', Z.add_assoc.
Qed.
End aes.

(** A cipher to run examples with. *)
Definition toy_aes : OcAes.
Proof.
  refine {| enc key x := (x * x + 3 * x * key + 0x9E3779B97F4A7C15 * key + 0xBF58476D1CE4E5B9 * x + 1) mod 2 ^ 128 |}.
  intros. by apply is_word_mod.
Defined.

Lemma oc_prng_is_counter_mode_witness :
  from_ok [] ('(x, _) ← (p ← @oc_SetSeed toy_aes oc_prng_new 7 2;
                @foldM Z _ (λ '(out, p) n, '(x, p) ← @oc_get toy_aes p n; Ok (out ++ x, p)) ([], p) [5; 300; 16; 0; 31]);
              Ok x)
    = @stream toy_aes 7 0 352.
Proof.
  destruct (@oc_prng_is_counter_mode toy_aes 7 2 [5; 300; 16; 0; 31]) as (p & p' & -> & E);
    [done|by repeat constructor|].
  rewrite bind_ok, E. reflexivity.
Defined.
