(* ===== verification/SmallField.v ===== *)
(** * VOLE over small fields

    [Vole/SoftSpokenOT/SmallFieldVole.{h,cpp}] of libOTe ([deps/libOTe/libOTe]): 128
    vector OLEs at a time, packed into blocks, over GF(2^fieldBits) with
    [fieldBits <= superBlkShift], the branch that [OT/OTExtensionWithMatrix.cpp] uses
    with fields of 4 elements.

    A [block] is a [Z] below [2 ^ 128].  An AES object is the function that it
    computes; arrays are lists.  What the code leaves uninitialised is an argument. *)

From S2P Require Import Prelude Xor CryptoTools.

(** [TwoChooseOne/TcoOtDefines.h] *)
Definition commStepSize : nat := 512.
Definition superBlkShift : nat := 3.
Definition superBlkSize : nat := 2 ^ superBlkShift.

(** [for (i = 0; i < n; i += step)] *)
Definition steps (n step : nat) : list nat := map (λ k, k * step)%nat (seq 0 (divCeil n step)).

(** ** Reduction

    [xorReduce<depth, blocks>]: u in the cell 0, v in the next ones, once every
    2 ^ depth cells. *)
Definition reduce_node (depth : nat) (inOut : list Z) (i : nat) : list Z :=
  let stride := (2 ^ (depth - 1))%nat in
  let inOut := foldl (λ x j,
    <[(i + j)%nat := Z.lxor (x !!! (i + j)%nat) (x !!! (i + stride + j)%nat)]> x)
    inOut (seq 0 depth) in
  <[(i + depth)%nat := inOut !!! (i + stride)%nat]> inOut.

Fixpoint xorReduce (depth blocks : nat) (inOut : list Z) (maxDepth : nat) : list Z :=
  match depth with
  | O => inOut
  | S d =>
      let inOut := xorReduce d blocks inOut maxDepth in
      if (depth <=? maxDepth)%nat
      then foldl (reduce_node depth) inOut (steps blocks (2 * 2 ^ (depth - 1)))
      else inOut
  end.

(** ** The sender *)
Record SmallFieldVoleSender := mkVoleSender {
  vs_fieldBits : nat;
  vs_numVoles : nat;
  vs_seeds : list Z;
}.

Definition fieldSize (fieldBits : nat) : nat := 2 ^ fieldBits.

Definition sender_numVolesPadded (fieldBits numVoles : nat) : nat :=
  roundUpTo numVoles (superBlkSize / 2 ^ fieldBits).

(** One superblock of [SmallFieldVoleSender::generateImpl]: [outU] and [outV]. *)
Definition sender_superBlk (fieldBits : nat) (aes : Z → Z) (blockIdx : Z) (seeds : list Z) : list Z * list Z :=
  let volePerSuperBlk := (superBlkSize / fieldSize fieldBits)%nat in
  let hashes := hashBlocks aes (map (Z.lxor blockIdx) seeds) in
  let hashes := xorReduce superBlkShift superBlkSize hashes fieldBits in
  (map (λ i, hashes !!! (i * fieldSize fieldBits)%nat) (seq 0 volePerSuperBlk),
   mjoin (map (λ i, map (λ j, hashes !!! (i * fieldSize fieldBits + j + 1)%nat) (seq 0 fieldBits))
            (seq 0 volePerSuperBlk))).

Definition sender_generate (s : SmallFieldVoleSender) (blockIdx : Z) (aes : Z → Z) : list Z * list Z :=
  let volePerSuperBlk := (superBlkSize / fieldSize (vs_fieldBits s))%nat in
  let out := map (λ k, sender_superBlk (vs_fieldBits s) aes blockIdx
                         (take superBlkSize (drop (k * superBlkSize) (vs_seeds s))))
               (seq 0 (divCeil (vs_numVoles s) volePerSuperBlk)) in
  (mjoin (map fst out), mjoin (map snd out)).

(** ** The receiver *)
Record SmallFieldVoleReceiver := mkVoleReceiver {
  vr_fieldBits : nat;
  vr_numVoles : nat;
  vr_seeds : list Z;
  vr_delta : list bool;
  vr_deltaUnpacked : list Z;
}.

Definition aesPerVole (fieldBits : nat) : nat := 2 ^ fieldBits - 1.
Definition volePerSuperBlk (fieldBits : nat) : nat := divNearest superBlkSize (aesPerVole fieldBits).

Definition receiver_numVolesPadded (fieldBits numVoles : nat) : nat :=
  Nat.max (roundUpTo numVoles (divNearest superBlkSize (2 ^ fieldBits - 1))) (roundUpTo numVoles 4).

(** One superblock of [SmallFieldVoleReceiver::generateImpl]: zeros stand for the
    hashes of the seeds that the receiver does not have. *)
Definition receiver_superBlk (fieldBits : nat) (aes : Z → Z) (blockIdx : Z) (seeds : list Z)
    (correction : option (list Z)) (deltaPtr : list Z) : list Z :=
  let hashes := hashBlocks aes (map (Z.lxor blockIdx) seeds) in
  let xorHashes := mjoin (map (λ i,
    0 :: map (λ j, hashes !!! (i * aesPerVole fieldBits + j)%nat) (seq 0 (aesPerVole fieldBits)))
    (seq 0 (volePerSuperBlk fieldBits))) in
  let xorHashes := xorReduce fieldBits (volePerSuperBlk fieldBits * 2 ^ fieldBits) xorHashes fieldBits in
  mjoin (map (λ i, map (λ j,
      let w := xorHashes !!! (i * fieldSize fieldBits + j + 1)%nat in
      match correction with
      | Some correction =>
          Z.lxor w (Z.land (correction !!! i) (allSame (deltaPtr !!! (i * fieldBits + j)%nat)))
      | None => w
      end) (seq 0 fieldBits)) (seq 0 (volePerSuperBlk fieldBits))).

Definition receiver_generate (r : SmallFieldVoleReceiver) (blockIdx : Z) (aes : Z → Z)
    (correction : option (list Z)) : list Z :=
  let f := vr_fieldBits r in
  let vps := volePerSuperBlk f in
  let n := (aesPerVole f * vps)%nat in
  mjoin (map (λ k, receiver_superBlk f aes blockIdx (take n (drop (k * n) (vr_seeds r)))
                     (drop (k * vps) <$> correction) (drop (k * (f * vps)) (vr_deltaUnpacked r)))
           (seq 0 (divCeil (vr_numVoles r) vps))).
