(* ===== verification/SmallFieldProps.v ===== *)
(** * Correctness of the VOLE over small fields

    The reduction computes all sums of subsets by bits, and the outputs of the two
    parties of [SmallField] are shares of [u * delta]. *)

From S2P Require Import Prelude Xor YaoGate CryptoTools SmallField.

(** ** Sums *)
Definition xsum {A} (g : A → Z) (l : list A) : Z := foldr (λ c a, Z.lxor (g c) a) 0 l.

Lemma xsum_app {A} (g : A → Z) l1 l2 : xsum g (l1 ++ l2) = Z.lxor (xsum g l1) (xsum g l2).
Proof.
  unfold xsum. induction l1 as [|c l1 IH]; cbn; [by rewrite Z.lxor_0_l|]. by rewrite IH, Z.lxor_assoc.
Qed.

Lemma xsum_ext {A} (g h : A → Z) l : (∀ c, c ∈ l → g c = h c) → xsum g l = xsum h l.
Proof.
  unfold xsum. induction l as [|c l IH]; intros E; cbn; [done|].
  rewrite (E c), IH; [done| |by left]. intros; apply E; by right.
Qed.

Lemma xsum_lxor {A} (g h : A → Z) l : xsum (λ c, Z.lxor (g c) (h c)) l = Z.lxor (xsum g l) (xsum h l).
Proof. unfold xsum. induction l as [|c l IH]; cbn; [done|]. rewrite IH. z_xor_solve. Qed.

Lemma xsum_fmap {A B} (g : B → Z) (h : A → B) l : xsum g (h <$> l) = xsum (g ∘ h) l.
Proof. unfold xsum. induction l as [|c l IH]; cbn; [done|]. by rewrite IH. Qed.

Lemma xsum_perm {A} (g : A → Z) l l' : l ≡ₚ l' → xsum g l = xsum g l'.
Proof.
  induction 1 as [|c l l' _ IH|c d l|l1 l2 l3 _ IH1 _ IH2]; [done| | |by rewrite IH1]; unfold xsum in *; cbn.
  - by rewrite IH.
  - z_xor_solve.
Qed.

Lemma xsum_zero {A} (l : list A) : xsum (λ _, 0) l = 0.
Proof. induction l as [|c l IH]; [done|]. exact IH. Qed.

Lemma xsum_key_if {A} b (g : A → Z) l : xsum (λ c, key_if b (g c)) l = key_if b (xsum g l).
Proof. destruct b; [done|]. apply xsum_zero. Qed.

(** ** Bits of small numbers *)
Lemma lxor_lt c d n : (c < 2 ^ n → d < 2 ^ n → Nat.lxor c d < 2 ^ n)%nat.
Proof.
  intros Hc Hd. assert (0 < 2 ^ n)%nat as Hp by (apply Nat.neq_0_lt_0, Nat.pow_nonzero; lia).
  enough (Nat.lxor c d = Nat.lxor c d mod 2 ^ n)%nat as -> by (apply Nat.mod_upper_bound; lia).
  apply Nat.bits_inj. intros m. destruct (Nat.lt_ge_cases m n).
  - by rewrite Nat.mod_pow2_bits_low.
  - rewrite Nat.mod_pow2_bits_high, Nat.lxor_spec by done.
    rewrite <-(Nat.mod_small c (2 ^ n)), <-(Nat.mod_small d (2 ^ n)) by done.
    by rewrite !Nat.mod_pow2_bits_high.
Qed.

(** Summing over [c] or over [c xor d] is the same. *)
Lemma xsum_lxor_index (g : nat → Z) n d : (d < 2 ^ n)%nat →
  xsum (λ c, g (Nat.lxor c d)) (seq 0 (2 ^ n)) = xsum g (seq 0 (2 ^ n)).
Proof.
  intros Hd. change (λ c, g (Nat.lxor c d)) with (g ∘ (λ c, Nat.lxor c d)). rewrite <-xsum_fmap. apply xsum_perm.
  apply NoDup_Permutation.
  - apply NoDup_fmap_2; [|apply NoDup_seq]. intros a b E.
    by rewrite <-(Nat.lxor_0_r a), <-(Nat.lxor_0_r b), <-!(Nat.lxor_nilpotent d), <-!Nat.lxor_assoc, E.
  - apply NoDup_seq.
  - intros x. rewrite list_elem_of_fmap. setoid_rewrite elem_of_seq. split.
    + intros (y & -> & Hy). split; [lia|]. apply lxor_lt; lia.
    + intros Hx. exists (Nat.lxor x d). split.
      * by rewrite Nat.lxor_assoc, Nat.lxor_nilpotent, Nat.lxor_0_r.
      * split; [lia|]. apply lxor_lt; lia.
Qed.

Lemma pow2_pos n : (0 < 2 ^ n)%nat.
Proof. apply Nat.neq_0_lt_0, Nat.pow_nonzero. lia. Qed.

Lemma lt_pow2 d : (d < 2 ^ d)%nat.
Proof. apply Nat.pow_gt_lin_r. lia. Qed.

(** Decides the comparisons of numbers in the goal. *)
Ltac nat_cases :=
  repeat match goal with
  | |- context [(?a <=? ?b)%nat] => destruct (Nat.leb_spec a b)
  | |- context [(?a <? ?b)%nat] => destruct (Nat.ltb_spec a b)
  | |- context [(?a =? ?b)%nat] => destruct (Nat.eqb_spec a b)
  end; cbn [andb]; try (exfalso; lia).

(** ** The reduction *)
Lemma reduce_loop x i s n k : (n ≤ s)%nat → (i + n ≤ length x)%nat →
  foldl (λ x j, <[(i + j)%nat := Z.lxor (x !!! (i + j)%nat) (x !!! (i + s + j)%nat)]> x) x (seq 0 n) !!! k
    = if ((i <=? k) && (k <? i + n))%nat then Z.lxor (x !!! k) (x !!! (k + s)%nat) else x !!! k.
Proof.
  intros Hn Hl. revert k. induction n as [|n IH]; intros k.
  - cbn [seq foldl]. by nat_cases.
  - rewrite seq_S, foldl_app. cbn [foldl Nat.add]. specialize (IH ltac:(lia) ltac:(lia)).
    set (y := foldl _ x _) in *.
    assert (length y = length x) as Hy.
    { unfold y. clear. generalize (seq 0 n). intros l. revert x.
      induction l as [|j l IH]; intros x; cbn [foldl]; [done|]. by rewrite IH, length_insert. }
    destruct (decide (k = i + n)%nat) as [->|Hk].
    + rewrite list_lookup_total_insert_eq by lia. rewrite !IH. nat_cases.
      by replace (i + s + n)%nat with (i + n + s)%nat by lia.
    + rewrite list_lookup_total_insert_ne by lia. rewrite IH. by nat_cases.
Qed.

Lemma reduce_node_length depth x i : length (reduce_node depth x i) = length x.
Proof.
  unfold reduce_node. rewrite length_insert. generalize (seq 0 depth). intros l. revert x.
  induction l as [|j l IH]; intros x; cbn [foldl]; [done|]. by rewrite IH, length_insert.
Qed.

(** One cell after a node of depth [d + 1]. *)
Definition reduced (d : nat) (x : list Z) (i r : nat) : Z :=
  if (r <=? d)%nat then Z.lxor (x !!! (i + r)%nat) (x !!! (i + r + 2 ^ d)%nat)
  else if (r =? S d)%nat then x !!! (i + 2 ^ d)%nat else x !!! (i + r)%nat.

Lemma reduce_node_lookup d x i k : (i + 2 ^ S d ≤ length x)%nat →
  reduce_node (S d) x i !!! k = if (k <? i)%nat then x !!! k else reduced d x i (k - i).
Proof.
  intros Hl. pose proof (lt_pow2 d). unfold reduce_node.
  replace (S d - 1)%nat with d by lia. change (2 ^ S d)%nat with (2 * 2 ^ d)%nat in Hl.
  unfold reduced. destruct (decide (k = i + S d)%nat) as [->|Hk].
  - rewrite list_lookup_total_insert_eq.
    + rewrite reduce_loop by lia. by nat_cases.
    + match goal with |- (_ < length (foldl ?f ?a ?l))%nat => assert (length (foldl f a l) = length x) as -> end; [|lia].
      clear. generalize (seq 0 (S d)). intros l. revert x.
      induction l as [|j l IH]; intros x; cbn [foldl]; [done|]. by rewrite IH, length_insert.
  - rewrite list_lookup_total_insert_ne by lia. rewrite reduce_loop by lia. nat_cases; try done; by replace (i + (k - i))%nat with k by lia.
Qed.

(** All the nodes of a level. *)
Lemma reduce_level d x m k : (m * 2 ^ S d ≤ length x)%nat →
  foldl (reduce_node (S d)) x (map (λ i, i * (2 * 2 ^ d))%nat (seq 0 m)) !!! k
    = if (k <? m * 2 ^ S d)%nat
      then reduced d x (k / 2 ^ S d * 2 ^ S d) (k mod 2 ^ S d) else x !!! k.
Proof.
  change (2 * 2 ^ d)%nat with (2 ^ S d)%nat. pose proof (pow2_pos (S d)) as Hp. set (e := (2 ^ S d)%nat) in *.
  revert k. induction m as [|m IH]; intros k Hl.
  - cbn [seq map foldl]. by nat_cases.
  - rewrite seq_S, map_app, foldl_app. cbn [map foldl Nat.add].
    assert (∀ l (y : list Z), length (foldl (reduce_node (S d)) y l) = length y) as Hlen.
    { clear. induction l as [|i l IH]; intros y; cbn [foldl]; [done|]. by rewrite IH, reduce_node_length. }
    rewrite reduce_node_lookup by (rewrite Hlen; fold e; lia).
    assert (∀ r, reduced d (foldl (reduce_node (S d)) x (map (λ i, (i * e)%nat) (seq 0 m))) (m * e) r
                 = reduced d x (m * e) r) as Hr.
    { intros r. unfold reduced. rewrite !IH by lia. by nat_cases. }
    rewrite Hr, IH by lia. nat_cases; try done.
    + assert (k / e = m)%nat as -> by (symmetry; apply (Nat.div_unique _ _ _ (k - m * e)); lia).
      f_equal. replace k with ((k - m * e) + m * e)%nat at 2 by lia.
      rewrite Nat.Div0.mod_add, Nat.mod_small; lia.
    + unfold reduced. change (2 * 2 ^ d)%nat with e. pose proof (lt_pow2 d).
      assert (e = 2 * 2 ^ d)%nat by done. nat_cases. f_equal. lia.
Qed.

Lemma xorReduce_length d blocks x f : length (xorReduce d blocks x f) = length x.
Proof.
  induction d as [|d IH]; cbn [xorReduce]; [done|]. nat_cases; [|done].
  rewrite <-IH. generalize (steps blocks (2 * 2 ^ (S d - 1))), (xorReduce d blocks x f). intros l.
  induction l as [|i l IHl]; intros y; cbn [foldl]; [done|]. by rewrite IHl, reduce_node_length.
Qed.

(** The cell [j] of a tree of depth [e] holds the sum of the cells [c] with bit [j - 1];
    the cell 0 all of them. *)
Definition in_cell (j c : nat) : bool := match j with O => true | S j => Nat.testbit c j end.

Definition subset_sum (x : list Z) (e i j : nat) : Z :=
  xsum (λ c, key_if (in_cell j c) (x !!! (i * 2 ^ e + c)%nat)) (seq 0 (2 ^ e)).

Lemma in_cell_high e j c : (c < 2 ^ e)%nat → (j ≤ e)%nat → in_cell j (c + 2 ^ e) = in_cell j c.
Proof.
  intros Hc Hj. destruct j as [|j]; [done|]. cbn [in_cell].
  rewrite <-(Nat.mod_pow2_bits_low (c + 2 ^ e) e j) by lia.
  replace (c + 2 ^ e)%nat with (c + 1 * 2 ^ e)%nat by lia. by rewrite Nat.Div0.mod_add, Nat.mod_small.
Qed.

Lemma in_cell_top e c : (c < 2 ^ S e)%nat → in_cell (S e) c = (2 ^ e <=? c)%nat.
Proof.
  intros Hc. cbn [in_cell]. rewrite Nat.testbit_eqb. change (2 ^ S e)%nat with (2 * 2 ^ e)%nat in Hc.
  pose proof (pow2_pos e). nat_cases; try done.
  - assert (c / 2 ^ e = 1)%nat as E by (symmetry; apply (Nat.div_unique _ _ _ (c - 2 ^ e)); lia).
    rewrite E in *. done.
  - rewrite Nat.div_small in * by lia. done.
Qed.

Lemma subset_sum_split x e i j :
  subset_sum x (S e) i j
    = Z.lxor (xsum (λ c, key_if (in_cell j c) (x !!! (2 * i * 2 ^ e + c)%nat)) (seq 0 (2 ^ e)))
             (xsum (λ c, key_if (in_cell j (c + 2 ^ e)) (x !!! ((2 * i + 1) * 2 ^ e + c)%nat)) (seq 0 (2 ^ e))).
Proof.
  unfold subset_sum. change (2 ^ S e)%nat with (2 * 2 ^ e)%nat.
  assert (seq 0 (2 * 2 ^ e) = seq 0 (2 ^ e) ++ seq (2 ^ e) (2 ^ e)) as ->.
  { rewrite <-seq_app. f_equal. lia. }
  rewrite xsum_app. f_equal.
  - apply xsum_ext. intros c _. do 2 f_equal. lia.
  - replace (seq (2 ^ e) (2 ^ e)) with (Nat.add (2 ^ e) <$> seq 0 (2 ^ e)) by (rewrite fmap_add_seq; f_equal; lia).
    rewrite xsum_fmap. apply xsum_ext. intros c _. cbn [compose].
    rewrite (Nat.add_comm c). do 2 f_equal. lia.
Qed.

Lemma xorReduce_spec d blocks x f m i j : length x = blocks → blocks = (m * 2 ^ d)%nat →
  (i * 2 ^ Nat.min d f < blocks)%nat → (j ≤ Nat.min d f)%nat →
  xorReduce d blocks x f !!! (i * 2 ^ Nat.min d f + j)%nat = subset_sum x (Nat.min d f) i j.
Proof.
  intros Hx. revert m i j. induction d as [|d IH]; intros m i j Hb Hi Hj.
  - cbn [xorReduce Nat.min]. unfold subset_sum. cbn. assert (j = 0)%nat as -> by (cbn in Hj; lia).
    cbn. by rewrite Z.lxor_0_r.
  - cbn [xorReduce]. pose proof (pow2_pos d) as Hp. nat_cases.
    + replace (S d - 1)%nat with d by lia. rewrite Nat.min_l in * by lia.
      assert (blocks = m * (2 * 2 ^ d))%nat as Hb' by (rewrite Hb; cbn [Nat.pow]; lia).
      assert (steps blocks (2 * 2 ^ d) = map (λ i, i * (2 * 2 ^ d))%nat (seq 0 m)) as ->.
      { unfold steps, divCeil. do 2 f_equal. symmetry. apply (Nat.div_unique _ _ _ (2 * 2 ^ d - 1)); lia. }
      rewrite reduce_level by (rewrite xorReduce_length; cbn [Nat.pow]; lia).
      pose proof (lt_pow2 (S d)) as Hd.
      set (e := (2 ^ S d)%nat) in *. assert (e = 2 * 2 ^ d)%nat as He by done.
      assert (i < m)%nat as Him by nia. assert ((i + 1) * e ≤ m * e)%nat by (apply Nat.mul_le_mono_r; lia). nat_cases.
      assert ((i * e + j) / e = i)%nat as -> by (symmetry; apply (Nat.div_unique _ _ _ j); lia).
      assert ((i * e + j) mod e = j)%nat as -> by (rewrite Nat.add_comm, Nat.Div0.mod_add, Nat.mod_small; lia).
      rewrite subset_sum_split.
      assert (∀ i' j', i' < 2 * m → j' ≤ d →
        xorReduce d blocks x f !!! (i' * 2 ^ d + j') = subset_sum x d i' j')%nat as IH'.
      { intros i' j' Hi' Hj'. specialize (IH (2 * m)%nat i' j'). apply IH; nia. }
      unfold reduced. nat_cases.
      * replace (i * e + j)%nat with (2 * i * 2 ^ d + j)%nat by lia.
        replace (2 * i * 2 ^ d + j + 2 ^ d)%nat with ((2 * i + 1) * 2 ^ d + j)%nat by lia.
        rewrite !IH' by lia. unfold subset_sum. f_equal. apply xsum_ext. intros c [_ Hc]%elem_of_seq.
        by rewrite in_cell_high by lia.
      * replace (i * e + 2 ^ d)%nat with ((2 * i + 1) * 2 ^ d + 0)%nat by lia.
        assert (j = S d) as -> by lia. rewrite IH' by lia. unfold subset_sum.
        symmetry. rewrite (xsum_ext _ (λ _, 0) (seq 0 (2 ^ d))), xsum_zero, Z.lxor_0_l.
        -- apply xsum_ext. intros c [_ Hc]%elem_of_seq. rewrite in_cell_top by (fold e; lia). by nat_cases.
        -- intros c [_ Hc]%elem_of_seq. rewrite in_cell_top by (fold e; lia). by nat_cases.
    + replace (Nat.min (S d) f) with (Nat.min d f) in * by lia.
      apply (IH (2 * m)%nat); try done. rewrite Hb. cbn [Nat.pow]. lia.
Qed.

(** ** Arrays of arrays *)
Lemma join_lookup_total {A} `{Inhabited A} (ls : list (list A)) n q r :
  (∀ l, l ∈ ls → length l = n) → (q < length ls)%nat → (r < n)%nat →
  mjoin ls !!! (q * n + r)%nat = (ls !!! q) !!! r.
Proof.
  intros Hl. revert q. induction ls as [|l ls IH]; intros q Hq Hr; [cbn in Hq; lia|].
  assert (length l = n) as Hn by (apply Hl; by left). change (mjoin (l :: ls)) with (l ++ mjoin ls).
  destruct q as [|q]; cbn [Nat.mul Nat.add].
  - rewrite lookup_total_app_l by lia. done.
  - rewrite lookup_total_app_r by lia. replace (n + q * n + r - length l)%nat with (q * n + r)%nat by lia.
    rewrite IH; [done| |cbn in Hq; lia|done]. intros l' Hl'. apply Hl. by right.
Qed.

Lemma join_length {A} (ls : list (list A)) n :
  (∀ l, l ∈ ls → length l = n) → length (mjoin ls) = (length ls * n)%nat.
Proof.
  intros Hl. induction ls as [|l ls IH]; [done|]. change (mjoin (l :: ls)) with (l ++ mjoin ls). cbn [length].
  rewrite length_app, IH, (Hl l); [lia|by left|]. intros l' Hl'. apply Hl. by right.
Qed.

Lemma map_lookup_total {A B} `{Inhabited A, Inhabited B} (g : A → B) (l : list A) k : (k < length l)%nat →
  map g l !!! k = g (l !!! k).
Proof. intros. change (map g l) with (g <$> l). by apply list_lookup_total_fmap. Qed.

Lemma map_seq_lookup {B} `{Inhabited B} (g : nat → B) n k : (k < n)%nat → map g (seq 0 n) !!! k = g k.
Proof. intros. rewrite map_lookup_total by (rewrite length_seq; done). by rewrite lookup_total_seq_lt. Qed.

Lemma imap_lookup_total {A B} `{Inhabited A, Inhabited B} (f : nat → A → B) l i : (i < length l)%nat →
  imap f l !!! i = f i (l !!! i).
Proof.
  intros Hi. apply lookup_lt_is_Some_2 in Hi as [x Hx].
  by rewrite list_lookup_total_alt, list_lookup_imap, Hx, (list_lookup_total_correct _ _ _ Hx).
Qed.

(** A table of [n] rows of [w] cells. *)
Lemma grid_lookup {B} `{Inhabited B} (g : nat → list B) n w q r :
  (∀ i, (i < n)%nat → length (g i) = w) → (q < n)%nat → (r < w)%nat →
  mjoin (map g (seq 0 n)) !!! (q * w + r)%nat = g q !!! r.
Proof.
  intros Hl Hq Hr. rewrite (join_lookup_total _ w).
  - by rewrite map_seq_lookup.
  - intros l (i & -> & Hi%elem_of_seq)%list_elem_of_fmap. apply Hl. lia.
  - by rewrite length_map, length_seq.
  - done.
Qed.

Lemma grid_length {B} (g : nat → list B) n w :
  (∀ i, (i < n)%nat → length (g i) = w) → length (mjoin (map g (seq 0 n))) = (n * w)%nat.
Proof.
  intros Hl. rewrite (join_length _ w), length_map, length_seq; [done|].
  intros l (i & -> & Hi%elem_of_seq)%list_elem_of_fmap. apply Hl. lia.
Qed.

Lemma slice_lookup {A} `{Inhabited A} (l : list A) n m k : (k < n)%nat → take n (drop m l) !!! k = l !!! (m + k)%nat.
Proof. intros. rewrite !list_lookup_total_alt, lookup_take_lt, lookup_drop by done. done. Qed.

Lemma slice_length {A} (l : list A) n m : (m + n ≤ length l)%nat → length (take n (drop m l)) = n.
Proof. intros. rewrite length_take, length_drop. lia. Qed.

Lemma cell_lt r n c e : (r < n → c < e → r * e + c < n * e)%nat.
Proof. intros. assert ((r + 1) * e ≤ n * e)%nat by (apply Nat.mul_le_mono_r; lia). lia. Qed.

Lemma divCeil_bound n d q r : (0 < d)%nat → (q * d + r < n)%nat → (q < divCeil n d)%nat.
Proof. intros. unfold divCeil. apply Nat.div_le_lower_bound; lia. Qed.

Lemma roundUpTo_le v d : (0 < d)%nat → (v ≤ roundUpTo v d)%nat.
Proof.
  intros Hd. unfold roundUpTo, divCeil. pose proof (Nat.div_mod_eq (v + d - 1) d).
  pose proof (Nat.mod_upper_bound (v + d - 1) d). lia.
Qed.

Lemma volePerSuperBlk_pos f : (1 ≤ f ≤ 3)%nat → (0 < superBlkSize / 2 ^ f)%nat.
Proof. intros Hf. assert (f = 1 ∨ f = 2 ∨ f = 3)%nat as [->|[->| ->]] by lia; cbn; lia. Qed.

Lemma div_lt_divCeil v n d : (0 < d)%nat → (v < n)%nat → (v / d < divCeil n d)%nat.
Proof.
  intros Hd Hv. apply (divCeil_bound n d _ (v mod d)); [done|].
  rewrite Nat.mul_comm, <-Nat.div_mod_eq. done.
Qed.

(** ** The outputs *)
Section outputs.
Context (aes : Z → Z) (blockIdx : Z).

(** The pseudorandom generator on a seed. *)
Definition prg (seed : Z) : Z := Z.lxor (aes (Z.lxor blockIdx seed)) (Z.lxor blockIdx seed).

Lemma hashBlocks_prg seeds : hashBlocks aes (map (Z.lxor blockIdx) seeds) = map prg seeds.
Proof. unfold hashBlocks. by rewrite map_map. Qed.

Lemma small_field f : (1 ≤ f ≤ 3)%nat → f = 1%nat ∨ f = 2%nat ∨ f = 3%nat.
Proof. lia. Qed.

Lemma sender_superBlk_spec f seeds i j : (1 ≤ f ≤ 3)%nat → length seeds = superBlkSize →
  (i < superBlkSize / 2 ^ f)%nat → (j < f)%nat →
  (sender_superBlk f aes blockIdx seeds).1 !!! i = subset_sum (map prg seeds) f i 0 ∧
  (sender_superBlk f aes blockIdx seeds).2 !!! (i * f + j)%nat = subset_sum (map prg seeds) f i (S j).
Proof.
  intros Hf Hs Hi Hj. unfold sender_superBlk, fieldSize. cbn [fst snd]. rewrite hashBlocks_prg.
  assert (∀ j', j' ≤ f → xorReduce superBlkShift superBlkSize (map prg seeds) f !!! (i * 2 ^ f + j')%nat
            = subset_sum (map prg seeds) f i j')%nat as E.
  { intros j' Hj'. pose proof (xorReduce_spec superBlkShift superBlkSize (map prg seeds) f 1 i j') as X.
    rewrite Nat.min_r in X by (unfold superBlkShift; lia). apply X; [by rewrite length_map|done| |done].
    clear - Hf Hi. destruct (small_field f Hf) as [->|[->| ->]]; cbn in *; lia. }
  split.
  - rewrite map_seq_lookup by done. rewrite <-(E 0%nat) by lia. f_equal. lia.
  - rewrite (grid_lookup _ _ f) by (try done; intros; by rewrite length_map, length_seq).
    rewrite map_seq_lookup, <-E by lia. f_equal. lia.
Qed.

Lemma sender_superBlk_length f seeds :
  length (sender_superBlk f aes blockIdx seeds).1 = (superBlkSize / 2 ^ f)%nat ∧
  length (sender_superBlk f aes blockIdx seeds).2 = (superBlkSize / 2 ^ f * f)%nat.
Proof.
  unfold sender_superBlk, fieldSize. cbn [fst snd]. split; [by rewrite length_map, length_seq|].
  apply grid_length. intros. by rewrite length_map, length_seq.
Qed.

Lemma sender_generate_spec s v j : let f := vs_fieldBits s in
  (1 ≤ f ≤ 3)%nat → (sender_numVolesPadded f (vs_numVoles s) * 2 ^ f ≤ length (vs_seeds s))%nat →
  (v < vs_numVoles s)%nat → (j < f)%nat →
  (sender_generate s blockIdx aes).1 !!! v = subset_sum (map prg (vs_seeds s)) f v 0 ∧
  (sender_generate s blockIdx aes).2 !!! (v * f + j)%nat = subset_sum (map prg (vs_seeds s)) f v (S j).
Proof.
  intros f Hf Hl Hv Hj. unfold sender_generate, fieldSize. cbn [fst snd]. fold f.
  unfold sender_numVolesPadded, roundUpTo in Hl. set (vps := (superBlkSize / 2 ^ f)%nat) in *.
  assert (vps * 2 ^ f = superBlkSize ∧ 0 < vps)%nat as [Hvps Hpos]
    by (unfold vps; destruct (small_field f Hf) as [E|[E|E]]; rewrite E; cbn; lia).
  pose proof (div_lt_divCeil v (vs_numVoles s) vps Hpos Hv) as Hq.
  pose proof (Nat.mod_upper_bound v vps ltac:(lia)) as Hr. pose proof (Nat.div_mod_eq v vps) as Hvq.
  set (q := (v / vps)%nat) in *. set (r := (v mod vps)%nat) in *.
  set (blk := λ k, sender_superBlk f aes blockIdx (take superBlkSize (drop (k * superBlkSize) (vs_seeds s)))).
  assert ((q + 1) * superBlkSize ≤ length (vs_seeds s))%nat as Hsl.
  { rewrite <-Hvps. etransitivity; [|exact Hl]. rewrite Nat.mul_assoc. apply Nat.mul_le_mono_r, Nat.mul_le_mono_r. lia. }
  destruct (sender_superBlk_spec f (take superBlkSize (drop (q * superBlkSize) (vs_seeds s))) r j Hf) as [E1 E2];
    [apply slice_length; lia|done|done|].
  assert (∀ j', subset_sum (map prg (take superBlkSize (drop (q * superBlkSize) (vs_seeds s)))) f r j'
            = subset_sum (map prg (vs_seeds s)) f v j') as Es.
  { intros j'. unfold subset_sum. apply xsum_ext. intros c [_ Hc]%elem_of_seq.
    assert (r * 2 ^ f + c < superBlkSize)%nat by (rewrite <-Hvps; apply cell_lt; lia).
    assert (v * 2 ^ f + c = q * superBlkSize + (r * 2 ^ f + c))%nat as Ev by (rewrite Hvq, <-Hvps; lia).
    rewrite Ev, !map_lookup_total by (rewrite ?slice_length; lia). by rewrite slice_lookup. }
  rewrite !map_map. split.
  - replace v with (q * vps + r)%nat at 1 by lia.
    rewrite (grid_lookup (λ k, (blk k).1) _ vps), <-Es; [done| |done|done].
    intros k _. apply sender_superBlk_length.
  - replace (v * f + j)%nat with (q * (vps * f) + (r * f + j))%nat by (rewrite Hvq; lia).
    rewrite (grid_lookup (λ k, (blk k).2) _ (vps * f)), <-Es; [done| |done|by apply cell_lt].
    intros k _. apply sender_superBlk_length.
Qed.

(** The hashes of the receiver, zero in the place of the seed that it misses. *)
Definition known_hash (f : nat) (seeds : list Z) (i c : nat) : Z :=
  match c with O => 0 | S c => prg (seeds !!! (i * aesPerVole f + c)%nat) end.

Definition known_sum (f : nat) (seeds : list Z) (i j : nat) : Z :=
  xsum (λ c, key_if (Nat.testbit c j) (known_hash f seeds i c)) (seq 0 (2 ^ f)).

Definition correct_with (correction : option (list Z)) (deltaPtr : list Z) (i k : nat) : Z :=
  match correction with
  | Some correction => Z.land (correction !!! i) (allSame (deltaPtr !!! k))
  | None => 0
  end.

Lemma receiver_hashes f seeds n : (n * aesPerVole f ≤ length seeds)%nat →
  let x := mjoin (map (λ i,
    0 :: map (λ j, map prg seeds !!! (i * aesPerVole f + j)%nat) (seq 0 (aesPerVole f))) (seq 0 n)) in
  length x = (n * 2 ^ f)%nat ∧
  ∀ i c, (i < n)%nat → (c < 2 ^ f)%nat → x !!! (i * 2 ^ f + c)%nat = known_hash f seeds i c.
Proof.
  intros Hs x. pose proof (pow2_pos f).
  assert (∀ i, (i < n)%nat → length (0%Z :: map (λ j, map prg seeds !!! (i * aesPerVole f + j)%nat)
            (seq 0 (aesPerVole f))) = 2 ^ f)%nat as Hw.
  { intros i _. cbn [length]. rewrite length_map, length_seq. unfold aesPerVole. lia. }
  split; [by apply grid_length|].
  intros i c Hi Hc. unfold x. rewrite (grid_lookup _ _ _ _ _ Hw Hi Hc).
  assert (∀ (a : Z) l k, (a :: l) !!! S k = l !!! k) as Hcons by done.
  destruct c as [|c]; [done|]. rewrite Hcons. unfold aesPerVole in *.
  rewrite map_seq_lookup, map_lookup_total by (lia || (pose proof (cell_lt i n c (2 ^ f - 1)); lia)). done.
Qed.

Lemma receiver_superBlk_spec f seeds correction deltaPtr i j :
  (volePerSuperBlk f * aesPerVole f ≤ length seeds)%nat → (i < volePerSuperBlk f)%nat → (j < f)%nat →
  receiver_superBlk f aes blockIdx seeds correction deltaPtr !!! (i * f + j)%nat
    = Z.lxor (known_sum f seeds i j) (correct_with correction deltaPtr i (i * f + j)).
Proof.
  intros Hs Hi Hj. unfold receiver_superBlk. rewrite hashBlocks_prg.
  destruct (receiver_hashes f seeds (volePerSuperBlk f) Hs) as [Hx Hc].
  set (x := mjoin _) in *. set (y := xorReduce _ _ _ _).
  assert (y !!! (i * fieldSize f + j + 1)%nat = known_sum f seeds i j) as E.
  { unfold y, fieldSize. pose proof (xorReduce_spec f (volePerSuperBlk f * 2 ^ f) x f (volePerSuperBlk f) i (S j)) as X.
    rewrite Nat.min_l in X by lia. replace (i * 2 ^ f + j + 1)%nat with (i * 2 ^ f + S j)%nat by lia.
    rewrite X; [|done|done|apply Nat.mul_lt_mono_pos_r; [apply pow2_pos|done]|lia].
    unfold subset_sum, known_sum. apply xsum_ext. intros c [_ Hcc]%elem_of_seq. by rewrite Hc by lia. }
  rewrite (grid_lookup _ _ f) by (try done; intros; by rewrite length_map, length_seq).
  rewrite map_seq_lookup by done. cbn beta zeta. rewrite E. unfold correct_with.
  destruct correction; [done|]. by rewrite Z.lxor_0_r.
Qed.

Lemma receiver_superBlk_length f seeds correction deltaPtr :
  length (receiver_superBlk f aes blockIdx seeds correction deltaPtr) = (volePerSuperBlk f * f)%nat.
Proof. unfold receiver_superBlk. apply grid_length. intros. by rewrite length_map, length_seq. Qed.

Lemma drop_lookup_total {A} `{Inhabited A} (l : list A) n k : drop n l !!! k = l !!! (n + k)%nat.
Proof. by rewrite !list_lookup_total_alt, lookup_drop. Qed.

Lemma receiver_generate_spec r correction v j : let f := vr_fieldBits r in
  (1 ≤ f ≤ 3)%nat → (receiver_numVolesPadded f (vr_numVoles r) * aesPerVole f ≤ length (vr_seeds r))%nat →
  (v < vr_numVoles r)%nat → (j < f)%nat →
  receiver_generate r blockIdx aes correction !!! (v * f + j)%nat
    = Z.lxor (known_sum f (vr_seeds r) v j) (correct_with correction (vr_deltaUnpacked r) v (v * f + j)).
Proof.
  intros f Hf Hl Hv Hj. unfold receiver_generate. fold f.
  assert (0 < volePerSuperBlk f ∧ 0 < aesPerVole f)%nat as [Hpos Hapv]
    by (clear - Hf; destruct (small_field f Hf) as [->|[->| ->]]; cbn; lia).
  assert (divCeil (vr_numVoles r) (volePerSuperBlk f) * volePerSuperBlk f * aesPerVole f ≤ length (vr_seeds r))%nat as Hsl.
  { etransitivity; [|exact Hl]. apply Nat.mul_le_mono_r. unfold receiver_numVolesPadded, roundUpTo.
    change (divNearest superBlkSize (2 ^ f - 1)) with (volePerSuperBlk f). lia. }
  clear Hl. set (vps := volePerSuperBlk f) in *. set (apv := aesPerVole f) in *.
  pose proof (div_lt_divCeil v (vr_numVoles r) vps Hpos Hv) as Hq.
  pose proof (Nat.mod_upper_bound v vps ltac:(lia)) as Hr. pose proof (Nat.div_mod_eq v vps) as Hvq.
  set (q := (v / vps)%nat) in *. set (i := (v mod vps)%nat) in *.
  assert (q * (apv * vps) + apv * vps ≤ length (vr_seeds r))%nat as Hb.
  { etransitivity; [|exact Hsl].
    replace (q * (apv * vps) + apv * vps)%nat with ((q + 1) * vps * apv)%nat by lia.
    apply Nat.mul_le_mono_r, Nat.mul_le_mono_r. lia. }
  replace (v * f + j)%nat with (q * (vps * f) + (i * f + j))%nat at 1 by (rewrite Hvq; lia).
  rewrite (grid_lookup _ _ (vps * f)); [|intros; apply receiver_superBlk_length|done|by apply cell_lt].
  rewrite receiver_superBlk_spec; [|fold vps apv; rewrite slice_length; lia|done|done]. f_equal.
  - unfold known_sum. apply xsum_ext. intros [|c] [_ Hc]%elem_of_seq; [done|]. cbn [known_hash]. fold apv.
    rewrite slice_lookup; [do 3 f_equal; rewrite Hvq; lia|].
    rewrite (Nat.mul_comm apv). apply cell_lt; [done|]. unfold apv, aesPerVole. lia.
  - unfold correct_with. destruct correction as [c|]; cbn [fmap option_fmap option_map]; [|done].
    rewrite !drop_lookup_total. f_equal; [f_equal; lia|]. do 2 f_equal. rewrite Hvq. lia.
Qed.
End outputs.

(** ** The relation of the outputs *)

(** [delta] of one VOLE, as a field element. *)
Fixpoint le_nat (l : list bool) : nat :=
  match l with [] => O | b :: l => (Nat.b2n b + 2 * le_nat l)%nat end.

Definition row_delta (delta : list bool) (f v : nat) : nat := le_nat (take f (drop (v * f) delta)).

Lemma le_nat_lt l : (le_nat l < 2 ^ length l)%nat.
Proof. induction l as [|b l IH]; cbn -[Nat.mul]; [lia|]. destruct b; cbn [Nat.b2n]; lia. Qed.

Lemma le_nat_bit l j : Nat.testbit (le_nat l) j = default false (l !! j).
Proof.
  revert j. induction l as [|b l IH]; intros j; [by rewrite Nat.bits_0|]. cbn [le_nat].
  destruct j as [|j]; cbn [lookup list_lookup]; [by rewrite Nat.add_b2n_double_bit0|].
  rewrite <-Nat.testbit_div2, Nat.div2_div, Nat.add_b2n_double_div2. apply IH.
Qed.

Definition share_seeds (s : SmallFieldVoleSender) (r : SmallFieldVoleReceiver) : Prop :=
  let f := vs_fieldBits s in
  vr_fieldBits r = f ∧ vr_numVoles r = vs_numVoles s ∧
  length (vr_delta r) = (f * vs_numVoles s)%nat ∧
  (∀ k, (k < f * vs_numVoles s)%nat → vr_deltaUnpacked r !!! k = u8 (- b2z (vr_delta r !!! k))) ∧
  (sender_numVolesPadded f (vs_numVoles s) * 2 ^ f ≤ length (vs_seeds s))%nat ∧
  (receiver_numVolesPadded f (vs_numVoles s) * aesPerVole f ≤ length (vr_seeds r))%nat ∧
  ∀ v c, (v < vs_numVoles s)%nat → (0 < c < 2 ^ f)%nat →
    vr_seeds r !!! (v * aesPerVole f + (c - 1))%nat
      = vs_seeds s !!! (v * 2 ^ f + Nat.lxor c (row_delta (vr_delta r) f v))%nat.

Lemma land_allSame b x : is_word 128 x → Z.land x (allSame (u8 (- b2z b))) = key_if b x.
Proof.
  intros Hx. destruct b; [|apply Z.land_0_r]. change (allSame (u8 (- b2z true))) with (Z.ones 128).
  rewrite Z.land_ones by lia. by apply Z.mod_small.
Qed.

Lemma row_delta_bit delta f n v j : length delta = (f * n)%nat → (v < n)%nat → (j < f)%nat →
  (row_delta delta f v < 2 ^ f)%nat ∧ Nat.testbit (row_delta delta f v) j = delta !!! (v * f + j)%nat.
Proof.
  intros Hl Hv Hj. unfold row_delta.
  assert ((v + 1) * f ≤ n * f)%nat by (apply Nat.mul_le_mono_r; lia). split.
  - eapply Nat.lt_le_trans; [apply le_nat_lt|]. rewrite slice_length by lia. done.
  - rewrite le_nat_bit, lookup_take_lt, lookup_drop by done.
    destruct (lookup_lt_is_Some_2 delta (v * f + j)) as [b Hb]; [lia|].
    by rewrite Hb, (list_lookup_total_correct _ _ _ Hb).
Qed.

(** The receiver has the shares of the sender plus [u * delta]. *)
Lemma small_field_vole s r blockIdx aes correction v j :
  share_seeds s r → (1 ≤ vs_fieldBits s ≤ 3)%nat → (v < vs_numVoles s)%nat → (j < vs_fieldBits s)%nat →
  (∀ c, correction = Some c → is_word 128 (c !!! v)) →
  receiver_generate r blockIdx aes correction !!! (v * vs_fieldBits s + j)%nat
    = Z.lxor ((sender_generate s blockIdx aes).2 !!! (v * vs_fieldBits s + j)%nat)
        (key_if (vr_delta r !!! (v * vs_fieldBits s + j)%nat)
          (Z.lxor ((sender_generate s blockIdx aes).1 !!! v)
                  (match correction with Some c => c !!! v | None => 0 end))).
Proof.
  intros (Hf & Hn & Hd & Hu & Hs & Hr & Hseed) Hf3 Hv Hj Hc.
  destruct (sender_generate_spec aes blockIdx s v j Hf3 Hs Hv Hj) as [-> ->].
  pose proof (receiver_generate_spec aes blockIdx r correction v j) as X. cbn zeta in X. rewrite Hf, Hn in X.
  rewrite X by done. clear X.
  destruct (row_delta_bit (vr_delta r) _ _ v j Hd Hv Hj) as [Hdlt Hdbit]. set (f := vs_fieldBits s) in *.
  assert (known_sum aes blockIdx f (vr_seeds r) v j
    = Z.lxor (subset_sum (map (prg aes blockIdx) (vs_seeds s)) f v (S j))
        (key_if (vr_delta r !!! (v * f + j)%nat) (subset_sum (map (prg aes blockIdx) (vs_seeds s)) f v 0))) as ->.
  { unfold known_sum. rewrite <-Hdbit. set (d := row_delta (vr_delta r) f v) in *.
    set (h := λ c, map (prg aes blockIdx) (vs_seeds s) !!! (v * 2 ^ f + c)%nat).
    assert (∀ j', subset_sum (map (prg aes blockIdx) (vs_seeds s)) f v j'
      = xsum (λ c, key_if (in_cell j' c) (h c)) (seq 0 (2 ^ f))) as Es by done. rewrite !Es.
    rewrite <-(xsum_lxor_index (λ c, key_if (in_cell (S j) c) (h c)) f d Hdlt).
    rewrite <-(xsum_lxor_index (λ c, key_if (in_cell 0 c) (h c)) f d Hdlt).
    rewrite <-xsum_key_if, <-xsum_lxor. apply xsum_ext. intros c [_ Hcc]%elem_of_seq.
    cbn [in_cell key_if]. rewrite Nat.lxor_spec.
    destruct c as [|c].
    - rewrite Nat.bits_0, Nat.lxor_0_l. cbn [known_hash key_if xorb].
      destruct (Nat.testbit d j); cbn [key_if]; by rewrite ?Z.lxor_nilpotent.
    - cbn [known_hash]. pose proof (Hseed v (S c) Hv ltac:(lia)) as E. fold d in E.
      replace (S c - 1)%nat with c in E by lia. rewrite E.
      assert (prg aes blockIdx (vs_seeds s !!! (v * 2 ^ f + Nat.lxor (S c) d)%nat) = h (Nat.lxor (S c) d)) as ->.
      { unfold h. rewrite map_lookup_total; [done|]. pose proof (lxor_lt (S c) d f ltac:(lia) Hdlt) as Hlt.
        eapply Nat.lt_le_trans; [apply (cell_lt v (vs_numVoles s)); [done|exact Hlt]|].
        etransitivity; [|exact Hs]. apply Nat.mul_le_mono_r, roundUpTo_le.
        by apply volePerSuperBlk_pos. }
      destruct (Nat.testbit (S c) j), (Nat.testbit d j); cbn [xorb key_if];
        rewrite ?Z.lxor_nilpotent, ?Z.lxor_0_l, ?Z.lxor_0_r; done. }
  rewrite Z.lxor_assoc. f_equal. unfold correct_with. destruct correction as [c|].
  - rewrite Hu by (rewrite (Nat.mul_comm f); by apply cell_lt). rewrite land_allSame by (by apply Hc).
    destruct (vr_delta r !!! (v * f + j)%nat); cbn [key_if]; by rewrite ?Z.lxor_0_l.
  - by rewrite !Z.lxor_0_r.
Qed.
