(* ===== verification/Pprf.v ===== *)
(** * Punctured pseudorandom functions and the set-up of the small-field VOLE

    [SilentMultiPprfSender] and [SilentMultiPprfReceiver] of [Tools/SilentPprf.{h,cpp}]
    for one thread, the format [BlockTransposed] and no value to program, as
    [SmallFieldVole.cpp] calls them, and the constructors of [SmallFieldVoleSender] and
    [SmallFieldVoleReceiver] with the check of consistency.

    Eight trees of [2 ^ depth] leaves grow at a time: a node is the list of its eight
    blocks, a level the list of its nodes. *)

From S2P Require Import Prelude Xor CryptoTools SmallField.

(** [Blake2]: a number of octets of output, the octets of input. *)
Class Blake2 := {
  blake2 : nat → list Z → list Z;
  blake2_length n x : length (blake2 n x) = n;
  blake2_u8 n x : Forall is_u8 (blake2 n x);
}.

Definition blake2_blocks `{Blake2} (n : nat) (input : list Z) : list Z :=
  words 16 (blake2 (16 * n) (oc_octets input)).

Section pprf.
Context `{OcAes}.

(** ** Growing trees *)
Definition tree_key (keep : nat) : Z := match keep with O => 3242342 | _ => 8993849 end.

Definition xor8 (a b : list Z) : list Z := zip_with Z.lxor a b.
Definition zero8 : list Z := replicate 8 0.

Definition expand8 (keep : nat) (parent : list Z) : list Z := xor8 (map (enc (tree_key keep)) parent) parent.

(** A level from the one above it, with the sums of its left and right children. *)
Definition grow_level (level0 : list (list Z)) : list (list Z) * (list Z * list Z) :=
  foldl (λ '(level1, (sum0, sum1)) parent,
      let child0 := expand8 0 parent in
      let child1 := expand8 1 parent in
      (level1 ++ [child0; child1], (xor8 sum0 child0, xor8 sum1 child1)))
    ([], (zero8, zero8)) level0.

Record PprfMsg := mkPprfMsg { pm_g : nat; pm_sums0 : list (list Z); pm_sums1 : list (list Z) }.

Definition pm_sums (m : PprfMsg) (keep : nat) : list (list Z) :=
  match keep with O => pm_sums0 m | _ => pm_sums1 m end.

(** [copyOut]: from a level of 8 trees to the rows of [curSize] of them. *)
Definition copyOut (lvl : list (list Z)) (curSize : nat) : list (list Z) :=
  map (λ j, map (λ x : list Z, x !!! j) lvl) (seq 0 curSize).

(** ** The sender *)
Definition sender_levels (depth : nat) (root : list Z) : list (list Z) * (list (list Z) * list (list Z)) :=
  foldl (λ '(level, (sums0, sums1)) (_ : nat),
      let '(level, (sum0, sum1)) := grow_level level in (level, (sums0 ++ [sum0], sums1 ++ [sum1])))
    ([root], ([], [])) (seq 0 depth).

(** The sums of the real trees, under the messages of the base OTs. *)
Definition mask_sums (depth g min : nat) (base : list Z) (sums : list (list Z)) : list (list Z) :=
  imap (λ d sum,
      imap (λ j x, if (j <? min)%nat then Z.lxor x (base !!! ((g + j) * depth + d)%nat) else x) sum)
    sums.

Definition sender_group (depth pntCount g : nat) (baseOTs : list (Z * Z)) (root : list Z)
    : list (list Z) * PprfMsg :=
  let min := Nat.min 8 (pntCount - g) in
  let '(lvl, (sums0, sums1)) := sender_levels depth root in
  (copyOut lvl min,
   mkPprfMsg g (mask_sums depth g min (map fst baseOTs) sums0) (mask_sums depth g min (map snd baseOTs) sums1)).

(** [SilentMultiPprfSender::expand], after [setBase]: the rows of [output] and the
    messages. *)
Definition pprf_send (depth pntCount : nat) (baseOTs : list (Z * Z)) (prng : OcPRNG)
    : outcome (list (list Z) * list PprfMsg * OcPRNG) :=
  if negb (Nat.eqb (depth * pntCount) (length baseOTs)) then Throw "rt error at SilentPprf.cpp"
  else
    '(seed, prng) ← get_block prng;
    tree ← oc_SetSeed oc_prng_new (Z.lxor seed 0) 256;
    '(out, msgs, _) ← foldM (λ '(out, msgs, tree) g,
        '(root, tree) ← get_blocks tree 8;
        let '(rows, m) := sender_group depth pntCount g baseOTs root in
        Ok (out ++ rows, msgs ++ [m], tree))
      ([], [], tree) (steps pntCount 8);
    Ok (out, msgs, prng).

(** ** The receiver *)

(** [getActivePath] *)
Definition getActivePath (choiceBits : list bool) : nat :=
  foldl (λ point i, Nat.lor point
      (Nat.shiftl (1 - Nat.b2n (default false (choiceBits !! i))) (length choiceBits - i - 1)))
    O (seq 0 (length choiceBits)).

Definition choice_row (depth : nat) (choices : list bool) (i : nat) : list bool :=
  take depth (drop (depth * i) choices).

(** [points] of [expand], padded to groups of 8. *)
Definition pprf_point (depth pntCount : nat) (choices : list bool) (i : nat) : nat :=
  if (i <? pntCount)%nat then getActivePath (choice_row depth choices i) else O.

(** The child of the root that is not on the active path. *)
Definition first_level (depth : nat) (baseOTs : list Z) (choices : list bool) (m : PprfMsg) : list (list Z) :=
  map (λ keep, map (λ i,
      let notAi := Nat.b2n (default false (choices !! ((i + pm_g m) * depth)%nat)) in
      if (keep =? notAi)%nat
      then Z.lxor (baseOTs !!! ((i + pm_g m) * depth)%nat) ((pm_sums m notAi !!! O) !!! i)
      else 0) (seq 0 8)) (seq 0 2).

(** The inactive child of the active parent in the tree [i]. *)
Definition fix_child (depth pntCount : nat) (baseOTs : list Z) (choices : list bool) (m : PprfMsg) (d : nat)
    (mySums : list Z * list Z) (level1 : list (list Z)) (i : nat) : list (list Z) :=
  let leafIdx := pprf_point depth pntCount choices (i + pm_g m) in
  let activeChildIdx := Nat.shiftr leafIdx (depth - 1 - d) in
  let inactiveChildIdx := Nat.lxor activeChildIdx 1 in
  let notAi := Nat.land inactiveChildIdx 1 in
  let inactiveChild := (level1 !!! inactiveChildIdx) !!! i in
  let correctSum := Z.lxor inactiveChild ((pm_sums m notAi !!! d) !!! i) in
  let mySum := match notAi with O => mySums.1 | _ => mySums.2 end in
  let x := Z.lxor (Z.lxor correctSum (mySum !!! i)) (baseOTs !!! ((i + pm_g m) * depth + d)%nat) in
  <[inactiveChildIdx := <[i := x]> (level1 !!! inactiveChildIdx)]> level1.

Definition receiver_level (depth pntCount : nat) (baseOTs : list Z) (choices : list bool) (m : PprfMsg)
    (level0 : list (list Z)) (d : nat) : list (list Z) :=
  let '(level1, mySums) := grow_level level0 in
  foldl (fix_child depth pntCount baseOTs choices m d mySums) level1 (seq 0 8).

Definition receiver_group (depth pntCount : nat) (baseOTs : list Z) (choices : list bool) (m : PprfMsg)
    : list (list Z) :=
  let lvl := foldl (receiver_level depth pntCount baseOTs choices m)
               (first_level depth baseOTs choices m) (seq 1 (depth - 1)) in
  copyOut lvl (Nat.min 8 (pntCount - pm_g m)).

(** [SilentMultiPprfReceiver::expand], after [setBase] and [setChoiceBits].  The groups
    come in the order in which the only thread of the sender sends them. *)
Definition pprf_recv (depth pntCount : nat) (baseOTs : list Z) (choices : list bool) (msgs : list PprfMsg)
    : outcome (list (list Z)) :=
  if negb (Nat.eqb (depth * pntCount) (length baseOTs)) then Throw "rt error at SilentPprf.cpp"
  else if negb (Nat.eqb (length choices) (depth * pntCount)) then Throw "rt error at SilentPprf.cpp"
  else
    '(out, _) ← foldM (λ '(out, msgs) (_ : nat),
        match msgs with
        | [] => Throw "channel closed"
        | m :: msgs => Ok (out ++ receiver_group depth pntCount baseOTs choices m, msgs)
        end) ([], msgs) (steps pntCount 8);
    Ok out.

(** ** The VOLE from the PPRF *)
Context `{Blake2}.

(** The hashes of the seeds of a row, and the seeds that replace them. *)
Definition row_hash (seed : Z) : Z * Z * Z :=
  let prgOut := blake2_blocks 3 [seed] in (prgOut !!! 0%nat, prgOut !!! 1%nat, prgOut !!! 2%nat).

Definition row_totals (row : list Z) : Z * Z :=
  foldl (λ '(c0, c1) seed, let '(h0, h1, _) := row_hash seed in (Z.lxor c0 h0, Z.lxor c1 h1)) (0, 0) row.
Definition row_entries (row : list Z) : list (Z * Z) := map (λ seed, (row_hash seed).1) row.
Definition row_seeds (row : list Z) : list Z := map (λ seed, (row_hash seed).2) row.
Definition hash_entries (entries : list (Z * Z)) : list Z :=
  blake2_blocks 2 (mjoin (map (λ '(h0, h1), [h0; h1]) entries)).

(** The proof of consistency: the corrections and the hashes of the rows. *)
Record ConsistencyMsg := mkConsistency { cm_corrections : list (Z * Z); cm_hashes : list (list Z) }.

Definition prove_consistency (rows : list (list Z)) : ConsistencyMsg :=
  mkConsistency (map row_totals rows) (map (λ row, hash_entries (row_entries row)) rows).

Definition vole_sender_new (fieldBits numVoles : nat) (prng : OcPRNG) (baseMessages : list (Z * Z))
    (malicious : bool) : outcome (SmallFieldVoleSender * list PprfMsg * option ConsistencyMsg * OcPRNG) :=
  if (fieldBits <? 1)%nat || (31 <? fieldBits)%nat then Throw "rt error at SmallFieldVole.h"
  else
    '(rows, msgs, prng) ← pprf_send fieldBits numVoles baseMessages prng;
    let pad := replicate ((sender_numVolesPadded fieldBits numVoles - numVoles) * 2 ^ fieldBits) 0 in
    if malicious then
      Ok (mkVoleSender fieldBits numVoles (mjoin (map row_seeds rows) ++ pad), msgs,
          Some (prove_consistency rows), prng)
    else Ok (mkVoleSender fieldBits numVoles (mjoin rows ++ pad), msgs, None, prng).

(** [choicesToDelta] *)
Definition choicesToDelta (choices : list bool) (fieldBits numVoles : nat) : outcome (list bool) :=
  if negb (Nat.eqb (length choices) (numVoles * fieldBits)) then Throw "rt error at SmallFieldVole.cpp"
  else Ok (mjoin (map (λ i, map (λ j, negb (default false (choices !! ((i + 1) * fieldBits - j - 1)%nat)))
                              (seq 0 fieldBits)) (seq 0 numVoles))).

(** The index of the seed that the receiver does not have. *)
Definition rowDelta (delta : list bool) (fieldBits row : nat) : nat :=
  foldl (λ r bit, Nat.lor r (Nat.shiftl (Nat.b2n (default false (delta !! (row * fieldBits + bit)%nat))) bit))
    O (seq 0 fieldBits).

(** One row of the check: the correction puts the missing hash right. *)
Definition check_seed_row (fieldBits : nat) (delta : list bool) (msg : ConsistencyMsg) (row : nat) (seeds : list Z) : bool :=
  let '(t0, t1) := row_totals seeds in
  let '(c0, c1) := cm_corrections msg !!! row in
  let '(c0, c1) := (Z.lxor c0 t0, Z.lxor c1 t1) in
  let entries := imap (λ col '(h0, h1),
      let isUnknownSeed := allSame_bool (col =? rowDelta delta fieldBits row)%nat in
      (Z.lxor h0 (Z.land isUnknownSeed c0), Z.lxor h1 (Z.land isUnknownSeed c1))) (row_entries seeds) in
  let hash := hash_entries entries in
  let hashes := cm_hashes msg !!! row in
  (hash !!! 0%nat =? hashes !!! 0%nat) && (hash !!! 1%nat =? hashes !!! 1%nat).

Definition check_consistency (fieldBits : nat) (delta : list bool) (msg : ConsistencyMsg) (rows : list (list Z)) : bool :=
  forallb id (imap (check_seed_row fieldBits delta msg) rows).

(** The columns of [for (col = 0; col < fieldSize; col = (col + dMask + 1) & ~dMask)],
    one unit of fuel for each column of the field. *)
Fixpoint swap_cols (fuel fieldSize dMask col : nat) : list nat :=
  match fuel with
  | O => []
  | S fuel =>
      if (col <? fieldSize)%nat
      then col :: swap_cols fuel fieldSize dMask (Nat.ldiff (col + dMask + 1) dMask)
      else []
  end.

Definition swap_row (deltaUnpacked : list Z) (fieldBits i col row : nat) (x : list Z) : list Z :=
  let dMask := (2 ^ i)%nat in
  let '(a, b) := cswapBytes (x !!! col) (x !!! (col + dMask)%nat) (deltaUnpacked !!! (row * fieldBits + i)%nat) in
  <[(col + dMask)%nat := b]> (<[col := a]> x).

(** The seeds in the order [x xor delta]: the missing one comes first. *)
Definition reorder_seeds (fieldBits : nat) (deltaUnpacked : list Z) (rows : list (list Z)) : list (list Z) :=
  foldl (λ rows i,
      foldl (λ rows col, imap (swap_row deltaUnpacked fieldBits i col) rows) rows
        (swap_cols (2 ^ fieldBits) (2 ^ fieldBits) (2 ^ i) 0))
    rows (seq 0 fieldBits).

(** [raw] is the fresh array of [deltaUnpacked]. *)
Definition vole_receiver_new (fieldBits numVoles : nat) (baseMessages : list Z) (choices : list bool)
    (malicious : bool) (raw : list Z) (msgs : list PprfMsg) (check : option ConsistencyMsg)
    : outcome SmallFieldVoleReceiver :=
  delta ← choicesToDelta choices fieldBits numVoles;
  if (fieldBits <? 1)%nat || (31 <? fieldBits)%nat then Throw "rt error at SmallFieldVole.h"
  else if negb (Nat.eqb (length delta) (fieldBits * numVoles)) then Throw "rt error at SmallFieldVole.cpp"
  else
    let deltaUnpacked := map (λ b, u8 (- b2z b)) delta ++ drop (length delta) raw in
    rows ← pprf_recv fieldBits numVoles baseMessages choices msgs;
    rows ← (if malicious then
              match check with
              | Some check =>
                  if check_consistency fieldBits delta check rows then Ok (map row_seeds rows)
                  else Throw "PPRF failed consistency check."
              | None => Throw "channel closed"
              end
            else Ok rows);
    let rows := reorder_seeds fieldBits deltaUnpacked rows in
    let pad := replicate ((receiver_numVolesPadded fieldBits numVoles - numVoles) * aesPerVole fieldBits) 0 in
    Ok (mkVoleReceiver fieldBits numVoles (mjoin (map (drop 1) rows) ++ pad) delta deltaUnpacked).
End pprf.
