(* ===== verification/PprfProps.v ===== *)
(** * Agreement of the punctured functions

    The receiver of [Pprf] computes the leaves of the sender's trees except the active
    ones; the check of consistency accepts them, and the parties get the seeds that the
    VOLE of [SmallField] needs. *)

From S2P Require Import Prelude Xor YaoGate CryptoTools SmallField SmallFieldProps Pprf.

(** ** Lists *)
Lemma xsum_diff {A} (g h : A → Z) l a : NoDup l → a ∈ l → (∀ c, c ∈ l → c ≠ a → g c = h c) →
  Z.lxor (xsum g l) (xsum h l) = Z.lxor (g a) (h a).
Proof.
  intros Hnd Ha E. apply list_elem_of_split in Ha as (l1 & l2 & ->).
  apply NoDup_app in Hnd as (_ & Hd & Hnd2). apply NoDup_cons in Hnd2 as [Ha2 _].
  rewrite !xsum_app. change (xsum ?f (a :: l2)) with (Z.lxor (f a) (xsum f l2)). cbn beta.
  rewrite (xsum_ext g h l1), (xsum_ext g h l2).
  - change (xsum g (a :: l2)) with (Z.lxor (g a) (xsum g l2)).
    z_xor_solve.
  - intros c Hc. apply E; [set_solver|]. by intros ->.
  - intros c Hc. apply E; [set_solver|]. intros ->. apply (Hd a Hc). by left.
Qed.

Section pprf.
Context `{OcAes}.

Definition child (keep : nat) (x : Z) : Z := Z.lxor (enc (tree_key keep) x) x.

(** Levels of [n] nodes of eight trees. *)
Definition level_ok (n : nat) (l : list (list Z)) : Prop := length l = n ∧ Forall (λ x, length x = 8%nat) l.

Definition cell (l : list (list Z)) (x i : nat) : Z := (l !!! x) !!! i.

Definition sel {A} (keep : nat) (s : A * A) : A := match keep with O => s.1 | _ => s.2 end.

Lemma level_node n l x : level_ok n l → (x < n)%nat → length (l !!! x) = 8%nat.
Proof.
  intros [Hn Hl] Hx. rewrite <-Hn in Hx. apply lookup_lt_is_Some_2 in Hx as [y Hy].
  rewrite (list_lookup_total_correct _ _ _ Hy). by apply (Forall_lookup_1 _ _ _ _ Hl Hy).
Qed.

Lemma xor8_lookup a b i : length a = 8%nat → length b = 8%nat → (i < 8)%nat →
  xor8 a b !!! i = Z.lxor (a !!! i) (b !!! i).
Proof.
  intros Ha Hb Hi.
  destruct (lookup_lt_is_Some_2 a i) as [x Hx]; [lia|]. destruct (lookup_lt_is_Some_2 b i) as [y Hy]; [lia|].
  rewrite (list_lookup_total_correct _ _ _ Hx), (list_lookup_total_correct _ _ _ Hy).
  apply list_lookup_total_correct. unfold xor8. by rewrite lookup_zip_with, Hx, Hy.
Qed.

Lemma expand8_length keep p : length p = 8%nat → length (expand8 keep p) = 8%nat.
Proof. intros. unfold expand8, xor8. rewrite length_zip_with, length_map. lia. Qed.

Lemma expand8_lookup keep p i : length p = 8%nat → (i < 8)%nat → expand8 keep p !!! i = child keep (p !!! i).
Proof.
  intros. unfold expand8. rewrite xor8_lookup by (rewrite ?length_map; done).
  by rewrite map_lookup_total by lia.
Qed.

Lemma grow_level_eq l :
  grow_level l = (mjoin (map (λ p, [expand8 0 p; expand8 1 p]) l),
                  (foldl xor8 zero8 (map (expand8 0) l), foldl xor8 zero8 (map (expand8 1) l))).
Proof.
  unfold grow_level. generalize zero8 at 1 3 as s0. generalize zero8 as s1.
  enough (∀ s1 s0 acc, foldl (λ '(level1, (sum0, sum1)) parent,
      (level1 ++ [expand8 0 parent; expand8 1 parent], (xor8 sum0 (expand8 0 parent), xor8 sum1 (expand8 1 parent))))
      (acc, (s0, s1)) l = (acc ++ mjoin (map (λ p, [expand8 0 p; expand8 1 p]) l),
        (foldl xor8 s0 (map (expand8 0) l), foldl xor8 s1 (map (expand8 1) l)))) as E.
  { intros s1 s0. apply (E s1 s0 []). }
  induction l as [|p l IH]; intros s1 s0 acc; cbn [foldl map].
  - change (mjoin []) with (@nil (list Z)). by rewrite app_nil_r.
  - rewrite IH. change (mjoin (?x :: ?l)) with (x ++ mjoin l). by rewrite <-app_assoc.
Qed.

Lemma sum_lookup ls (s : list Z) i : Forall (λ x : list Z, length x = 8%nat) ls → length s = 8%nat → (i < 8)%nat →
  length (foldl xor8 s ls) = 8%nat ∧
  foldl xor8 s ls !!! i = Z.lxor (s !!! i) (xsum (λ x : list Z, x !!! i) ls).
Proof.
  intros Hf. revert s. induction Hf as [|x ls Hx _ IH]; intros s Hs Hi; cbn [foldl].
  - split; [done|]. cbn. by rewrite Z.lxor_0_r.
  - destruct (IH (xor8 s x)) as [IH1 IH2]; [unfold xor8; rewrite length_zip_with; lia|done|].
    split; [done|]. rewrite IH2, xor8_lookup by done. unfold xsum. cbn. by rewrite Z.lxor_assoc.
Qed.


(** A level grows into one of twice its size. *)
Lemma grow_level_spec n l : level_ok n l →
  let '(l1, s) := grow_level l in
  level_ok (2 * n) l1 ∧
  (∀ x k i, (x < n)%nat → (k < 2)%nat → (i < 8)%nat → cell l1 (2 * x + k) i = child k (cell l x i)) ∧
  (∀ k i, (k < 2)%nat → (i < 8)%nat →
     length (sel k s) = 8%nat ∧ sel k s !!! i = xsum (λ x, cell l1 (2 * x + k) i) (seq 0 n)).
Proof.
  intros Hl. rewrite grow_level_eq. set (f := λ p, [expand8 0 p; expand8 1 p]).
  assert (∀ x k, (x < n)%nat → (k < 2)%nat → mjoin (map f l) !!! (2 * x + k)%nat = expand8 k (l !!! x)) as Hc.
  { intros x k Hx Hk. destruct Hl as [Hn _].
    replace (2 * x + k)%nat with (x * 2 + k)%nat by lia. rewrite (join_lookup_total _ 2).
    - rewrite map_lookup_total by lia. destruct k as [|[|k]]; [done|done|lia].
    - intros y (p & -> & _)%list_elem_of_fmap. done.
    - by rewrite length_map, Hn.
    - done. }
  assert (∀ x k i, (x < n)%nat → (k < 2)%nat → (i < 8)%nat →
    cell (mjoin (map f l)) (2 * x + k) i = child k (cell l x i)) as Hcell.
  { intros x k i Hx Hk Hi. unfold cell. rewrite Hc by done.
    by rewrite expand8_lookup by (done || by eapply level_node). }
  split; [|split; [done|]].
  - split.
    + rewrite (join_length _ 2), length_map by (by intros y (p & -> & _)%list_elem_of_fmap). destruct Hl as [-> _]. lia.
    + destruct Hl as [_ Hf]. apply Forall_forall. intros y Hy. apply list_elem_of_join in Hy as (z & Hy & Hz).
      apply list_elem_of_fmap in Hz as (p & -> & Hp). rewrite Forall_forall in Hf.
      repeat (apply elem_of_cons in Hy as [->|Hy]; [by apply expand8_length, Hf|]). by apply elem_of_nil in Hy.
  - intros k i Hk Hi.
    assert (sel k (foldl xor8 zero8 (map (expand8 0) l), foldl xor8 zero8 (map (expand8 1) l))
            = foldl xor8 zero8 (map (expand8 k) l)) as -> by (destruct k as [|[|k]]; [done|done|lia]).
    destruct (sum_lookup (map (expand8 k) l) zero8 i) as [H1 H2]; [|done|done|].
    { apply Forall_map. destruct Hl as [_ Hf]. eapply Forall_impl; [exact Hf|]. intros p Hp. by apply expand8_length. }
    split; [done|]. rewrite H2. unfold zero8. rewrite lookup_total_replicate_2, Z.lxor_0_l by done.
    change (map (expand8 k) l) with (expand8 k <$> l). rewrite xsum_fmap.
    rewrite (xsum_ext _ (λ x, child k (cell l x i)) (seq 0 n)) by (intros x [_ Hx]%elem_of_seq; apply Hcell; lia).
    destruct Hl as [<- Hf]. clear - Hf Hi.
    assert (l = (λ x, l !!! x) <$> seq 0 (length l)) as El.
    { apply list_eq_same_length with (length l); [by rewrite length_fmap, length_seq|done|].
      intros j x y Hj Hx Hy. apply list_lookup_fmap_Some in Hy as (j' & -> & Hj'). apply lookup_seq in Hj' as [-> _].
      by rewrite (list_lookup_total_correct _ _ _ Hx). }
    rewrite El at 1. rewrite xsum_fmap. apply xsum_ext. intros x [_ Hx]%elem_of_seq. cbn [compose].
    apply expand8_lookup; [|done]. by eapply (level_node (length l)).
Qed.

(** ** The trees of the sender *)
Fixpoint tree_node (d x : nat) (root : Z) : Z :=
  match d with O => root | S d => child (x mod 2) (tree_node d (x / 2) root) end.

Definition level_sum (d keep : nat) (root : Z) : Z := xsum (λ x, tree_node (S d) (2 * x + keep) root) (seq 0 (2 ^ d)).

Lemma tree_node_child d x k root : (k < 2)%nat → tree_node (S d) (2 * x + k) root = child k (tree_node d x root).
Proof.
  intros Hk. cbn [tree_node]. rewrite (Nat.add_comm _ k), (Nat.mul_comm 2), Nat.Div0.mod_add, Nat.div_add by lia.
  by rewrite Nat.mod_small, Nat.div_small, Nat.add_0_l by lia.
Qed.

Lemma half_lt x d : (x < 2 ^ S d)%nat → (x / 2 < 2 ^ d)%nat.
Proof. intros. apply Nat.Div0.div_lt_upper_bound. cbn in *. lia. Qed.

Lemma sender_levels_S d root :
  sender_levels (S d) root =
    let '(level, (sums0, sums1)) := sender_levels d root in
    let '(level, (sum0, sum1)) := grow_level level in (level, (sums0 ++ [sum0], sums1 ++ [sum1])).
Proof. unfold sender_levels. rewrite seq_S, foldl_app. cbn [foldl]. by destruct (foldl _ _ _) as [? [? ?]]. Qed.

Lemma sender_levels_spec d root : length root = 8%nat →
  let '(l, s) := sender_levels d root in
  level_ok (2 ^ d) l ∧
  (∀ x i, (x < 2 ^ d)%nat → (i < 8)%nat → cell l x i = tree_node d x (root !!! i)) ∧
  (∀ k, (k < 2)%nat → level_ok d (sel k s) ∧
     ∀ e i, (e < d)%nat → (i < 8)%nat → cell (sel k s) e i = level_sum e k (root !!! i)).
Proof.
  intros Hr. induction d as [|d IH].
  - split; [split; [done|by repeat constructor]|]. split.
    + intros x i Hx Hi. cbn in Hx. by assert (x = 0)%nat as -> by lia.
    + intros k Hk. split; [|lia]. destruct k as [|[|k]]; [..|lia]; by split.
  - rewrite sender_levels_S. destruct (sender_levels d root) as [l [s0 s1]]. destruct IH as (Hl & Hx & Hs).
    pose proof (grow_level_spec _ l Hl) as Hg. destruct (grow_level l) as [l1 [t0 t1]].
    destruct Hg as (Hl1 & Hg & Ht).
    assert (∀ x i, (x < 2 ^ S d)%nat → (i < 8)%nat → cell l1 x i = tree_node (S d) x (root !!! i)) as Hx1.
    { intros x i Hlt Hi. pose proof (half_lt x d Hlt). pose proof (Nat.mod_upper_bound x 2 ltac:(lia)).
      rewrite (Nat.div_mod_eq x 2). rewrite Hg, tree_node_child, Hx by done. done. }
    split; [exact Hl1|]. split; [exact Hx1|]. intros k Hk.
    destruct (Hs k Hk) as [[Hsl Hsf] Hse].
    assert (sel k (s0 ++ [t0], s1 ++ [t1]) = sel k (s0, s1) ++ [sel k (t0, t1)]) as -> by (by destruct k).
    split.
    + split; [rewrite length_app, Hsl; cbn; lia|]. apply Forall_app_2; [done|]. constructor; [|done].
      by apply (Ht k 0%nat); [|lia].
    + intros e i He Hi. unfold cell in *. destruct (decide (e = d)) as [->|Hed].
      * rewrite lookup_total_app_r by lia. replace (d - length (sel k (s0, s1)))%nat with 0%nat by lia.
        change ([?x] !!! 0%nat) with x. destruct (Ht k i Hk Hi) as [_ ->]. unfold level_sum.
        apply xsum_ext. intros x [_ Hx']%elem_of_seq. apply Hx1; [cbn; lia|done].
      * rewrite lookup_total_app_l by lia. apply Hse; lia.
Qed.

(** The masked sums that a group sends. *)
Lemma mask_sums_cell depth g min base sums n e j : level_ok n sums → (e < n)%nat → (j < min)%nat → (min ≤ 8)%nat →
  cell (mask_sums depth g min base sums) e j = Z.lxor (cell sums e j) (base !!! ((g + j) * depth + e)%nat).
Proof.
  intros Hs He Hj Hm. pose proof (level_node _ _ _ Hs He) as Hlen. destruct Hs as [Hn _]. unfold cell, mask_sums.
  rewrite imap_lookup_total by lia. rewrite imap_lookup_total by lia. by nat_cases.
Qed.

(** ** The receiver's choices *)
Lemma getActivePath_bit row k : Nat.testbit (getActivePath row) k
  = (k <? length row)%nat && negb (default false (row !! (length row - 1 - k)%nat)).
Proof.
  unfold getActivePath.
  assert (∀ n, n ≤ length row → Nat.testbit (foldl (λ point i, Nat.lor point
      (Nat.shiftl (1 - Nat.b2n (default false (row !! i))) (length row - i - 1))) 0 (seq 0 n)) k
    = (length row - n <=? k) && (k <? length row) && negb (default false (row !! (length row - 1 - k))))%nat as E.
  { induction n as [|n IH]; intros Hn.
    - cbn [seq foldl]. rewrite Nat.bits_0. by nat_cases.
    - rewrite seq_S, foldl_app. cbn [foldl Nat.add]. rewrite Nat.lor_spec, IH by lia. clear IH.
      destruct (decide (k = length row - n - 1)%nat) as [->|Hk].
      + rewrite Nat.shiftl_spec_high', Nat.sub_diag by lia.
        replace (length row - 1 - (length row - n - 1))%nat with n by lia.
        nat_cases. by destruct (default false (row !! n)).
      + assert (Nat.testbit (Nat.shiftl (1 - Nat.b2n (default false (row !! n))) (length row - n - 1)) k = false) as ->.
        { destruct (Nat.lt_ge_cases k (length row - n - 1)); [by apply Nat.shiftl_spec_low|].
          rewrite Nat.shiftl_spec_high' by lia. apply Nat.bits_above_log2.
          destruct (default false (row !! n)); cbn [Nat.b2n]; cbn; lia. }
        rewrite orb_false_r. by nat_cases. }
  rewrite E by lia. by nat_cases.
Qed.

Lemma bits_lt a n : (∀ k, (n ≤ k)%nat → Nat.testbit a k = false) → (a < 2 ^ n)%nat.
Proof.
  intros Hb. enough (a = a mod 2 ^ n)%nat as -> by (apply Nat.mod_upper_bound, Nat.pow_nonzero; lia).
  apply Nat.bits_inj. intros m. destruct (Nat.lt_ge_cases m n).
  - by rewrite Nat.mod_pow2_bits_low.
  - by rewrite Nat.mod_pow2_bits_high, Hb.
Qed.

Lemma getActivePath_lt row : (getActivePath row < 2 ^ length row)%nat.
Proof. apply bits_lt. intros k Hk. rewrite getActivePath_bit. by nat_cases. Qed.

(** ** One group of trees *)
Section group.
Context (depth pntCount g : nat) (base_s : list (Z * Z)) (base_r : list Z) (choices : list bool) (root : list Z).
Context (Hdepth : (1 ≤ depth)%nat) (Hroot : length root = 8%nat).
Context (Hchoices : length choices = (depth * pntCount)%nat) (Hbase : length base_s = (depth * pntCount)%nat).
Context (Hot : ∀ k, (k < depth * pntCount)%nat →
  base_r !!! k = if default false (choices !! k) then (base_s !!! k).2 else (base_s !!! k).1).

Let min : nat := Nat.min 8 (pntCount - g).
Let m : PprfMsg := (sender_group depth pntCount g base_s root).2.
Let pt (j : nat) : nat := pprf_point depth pntCount choices (j + g).
Let choice (j d : nat) : bool := default false (choices !! ((j + g) * depth + d)%nat).

Lemma pt_lt j : (pt j < 2 ^ depth)%nat.
Proof.
  unfold pt, pprf_point. nat_cases; [|apply pow2_pos].
  eapply Nat.lt_le_trans; [apply getActivePath_lt|]. apply Nat.pow_le_mono_r; [lia|].
  unfold choice_row. rewrite length_take. lia.
Qed.

Lemma pt_bit j d : (j < min)%nat → (d < depth)%nat → Nat.testbit (pt j) (depth - 1 - d) = negb (choice j d).
Proof.
  intros Hj Hd. unfold pt, pprf_point. assert (j + g < pntCount)%nat by lia. nat_cases.
  assert ((j + g + 1) * depth ≤ pntCount * depth)%nat by (apply Nat.mul_le_mono_r; lia).
  assert (length (choice_row depth choices (j + g)) = depth) as Hl.
  { unfold choice_row. rewrite slice_length; lia. }
  rewrite getActivePath_bit, Hl. nat_cases. unfold choice_row, choice.
  rewrite lookup_take_lt, lookup_drop by lia. replace (depth - 1 - (depth - 1 - d))%nat with d by lia.
  by rewrite (Nat.mul_comm depth).
Qed.

(** The sums of the sender, opened with the base OTs. *)
Lemma theirs_open j d : (j < min)%nat → (d < depth)%nat →
  Z.lxor (cell (pm_sums m (Nat.b2n (choice j d))) d j) (base_r !!! ((j + g) * depth + d)%nat)
    = level_sum d (Nat.b2n (choice j d)) (root !!! j).
Proof.
  intros Hj Hd. unfold m, sender_group. pose proof (sender_levels_spec depth root Hroot) as Hs.
  destruct (sender_levels depth root) as [l [s0 s1]]. destruct Hs as (_ & _ & Hs). cbn [snd]. fold min.
  assert ((j + g) * depth + d < depth * pntCount)%nat as Hk.
  { rewrite (Nat.mul_comm depth). apply cell_lt; lia. }
  rewrite Hot by done. fold (choice j d).
  set (k := Nat.b2n (choice j d)). assert (k < 2)%nat as Hk2 by (unfold k; destruct (choice j d); cbn; lia).
  destruct (Hs k Hk2) as [Hok Hc].
  assert (cell (pm_sums (mkPprfMsg g (mask_sums depth g min (map fst base_s) s0)
      (mask_sums depth g min (map snd base_s) s1)) k) d j
    = Z.lxor (cell (sel k (s0, s1)) d j) (map (sel k) base_s !!! ((g + j) * depth + d)%nat)) as ->.
  { unfold k in *. destruct (choice j d); cbn [Nat.b2n pm_sums pm_sums0 pm_sums1 sel fst snd] in *;
      by apply (mask_sums_cell depth g min _ _ depth); try done; unfold min; lia. }
  rewrite Hc, (Nat.add_comm g), map_lookup_total by (lia || unfold min in *; lia).
  unfold k. destruct (choice j d); cbn [Nat.b2n sel]; by rewrite Z.lxor_assoc, Z.lxor_nilpotent, Z.lxor_0_r.
Qed.

(** What the receiver knows of a level. *)
Definition known_level (d : nat) (l : list (list Z)) : Prop :=
  level_ok (2 ^ d) l ∧
  ∀ j x, (j < min)%nat → (x < 2 ^ d)%nat → x ≠ Nat.shiftr (pt j) (depth - d) →
    cell l x j = tree_node d x (root !!! j).

Lemma active_bit j d : (j < min)%nat → (d < depth)%nat →
  Nat.testbit (Nat.shiftr (pt j) (depth - 1 - d)) 0 = negb (choice j d).
Proof. intros. rewrite Nat.shiftr_spec' , Nat.add_0_l. by apply pt_bit. Qed.

Lemma active_split j d : (j < min)%nat → (d < depth)%nat →
  Nat.shiftr (pt j) (depth - 1 - d)
    = (2 * Nat.shiftr (pt j) (depth - d) + Nat.b2n (negb (choice j d)))%nat.
Proof.
  intros Hj Hd. rewrite <-(active_bit j d) by done.
  replace (depth - d)%nat with (depth - 1 - d + 1)%nat by lia.
  rewrite <-Nat.shiftr_shiftr, (Nat.shiftr_div_pow2 _ 1). change (2 ^ 1)%nat with 2%nat.
  rewrite Nat.bit0_odd. set (a := Nat.shiftr _ _). rewrite (Nat.div_mod_eq a 2) at 1. f_equal.
  by rewrite <-Nat.bit0_mod, Nat.bit0_odd.
Qed.

Lemma inactive_split j d : (j < min)%nat → (d < depth)%nat →
  Nat.lxor (Nat.shiftr (pt j) (depth - 1 - d)) 1
    = (2 * Nat.shiftr (pt j) (depth - d) + Nat.b2n (choice j d))%nat.
Proof.
  intros Hj Hd. rewrite active_split by done. set (a := Nat.shiftr _ _). apply Nat.bits_inj. intros k.
  rewrite Nat.lxor_spec. destruct k as [|k].
  - rewrite !(Nat.add_comm (2 * a)), !Nat.add_b2n_double_bit0. by destruct (choice j d).
  - rewrite <-!Nat.testbit_div2, !Nat.div2_div, !(Nat.add_comm (2 * a)), !Nat.add_b2n_double_div2.
    change (1 / 2)%nat with 0%nat. by rewrite Nat.bits_0, xorb_false_r.
Qed.

Lemma known_first : known_level 1 (first_level depth base_r choices m).
Proof.
  assert (pm_g m = g) as Hg by (unfold m, sender_group; by destruct (sender_levels _ _) as [? [? ?]]).
  unfold first_level. rewrite Hg. split.
  - split; [by rewrite length_map, length_seq|]. apply Forall_map, Forall_forall. by intros k _.
  - intros j x Hj Hx Hne. assert (j < 8)%nat by (unfold min in Hj; lia). unfold cell.
    rewrite map_seq_lookup by done. rewrite map_seq_lookup by done. cbn zeta.
    rewrite <-(Nat.add_0_r ((j + g) * depth)). change (default false (choices !! ((j + g) * depth + 0)%nat)) with (choice j 0).
    pose proof (active_split j 0 Hj ltac:(lia)) as Ha. rewrite !Nat.sub_0_r in Ha.
    assert (Nat.shiftr (pt j) depth = 0)%nat as Hz.
    { rewrite Nat.shiftr_div_pow2. apply Nat.div_small, pt_lt. }
    rewrite Hz in Ha. rewrite Ha in Hne. cbn [Nat.mul Nat.add] in Hne. cbn in Hx.
    assert (x = Nat.b2n (choice j 0)) as -> by (destruct (choice j 0); cbn in *; lia).
    nat_cases. pose proof (theirs_open j 0 Hj ltac:(lia)) as E. unfold cell in E.
    rewrite Z.lxor_comm, E. unfold level_sum. cbn [Nat.pow seq xsum foldr]. by rewrite Z.lxor_0_r.
Qed.

Definition fixed_value (d : nat) (mySums : list Z * list Z) (l1 : list (list Z)) (i : nat) : Z :=
  let idx := Nat.lxor (Nat.shiftr (pt i) (depth - 1 - d)) 1 in
  let notAi := Nat.land idx 1 in
  Z.lxor (Z.lxor (Z.lxor (cell l1 idx i) (cell (pm_sums m notAi) d i)) (sel notAi mySums !!! i))
    (base_r !!! ((i + g) * depth + d)%nat).

Lemma fix_children d mySums l1 n : (d < depth)%nat → level_ok (2 ^ S d) l1 → (n ≤ 8)%nat →
  let l' := foldl (fix_child depth pntCount base_r choices m d mySums) l1 (seq 0 n) in
  level_ok (2 ^ S d) l' ∧
  ∀ x i, (x < 2 ^ S d)%nat → (i < 8)%nat →
    cell l' x i = if ((i <? n) && (x =? Nat.lxor (Nat.shiftr (pt i) (depth - 1 - d)) 1))%nat
                  then fixed_value d mySums l1 i else cell l1 x i.
Proof.
  assert (pm_g m = g) as Hg by (unfold m, sender_group; by destruct (sender_levels _ _) as [? [? ?]]).
  intros Hd Hl1 Hn. induction n as [|n IH]; [split; [done|]; intros; by nat_cases|].
  rewrite seq_S, foldl_app. cbn [foldl Nat.add]. destruct (IH ltac:(lia)) as [Hok Hc]. clear IH.
  set (l' := foldl _ _ _) in *. unfold fix_child. rewrite Hg. fold (pt n).
  set (idx := λ i, Nat.lxor (Nat.shiftr (pt i) (depth - 1 - d)) 1) in *.
  assert (∀ i, idx i < 2 ^ S d)%nat as Hidx.
  { intros i. apply lxor_lt; [|cbn; pose proof (pow2_pos d); lia]. rewrite Nat.shiftr_div_pow2.
    apply Nat.Div0.div_lt_upper_bound. rewrite <-Nat.pow_add_r. replace (depth - 1 - d + S d)%nat with depth by lia.
    apply pt_lt. }
  change (Nat.lxor (Nat.shiftr (pt n) (depth - 1 - d)) 1) with (idx n).
  pose proof (level_node _ _ _ Hok (Hidx n)) as Hlen. destruct Hok as [Hlen' Hf]. cbn zeta.
  set (v := Z.lxor _ _).
  assert (v = fixed_value d mySums l1 n) as Ev.
  { unfold v, fixed_value. fold (cell l' (idx n) n). rewrite Hc, Nat.ltb_irrefl by (done || lia). done. }
  split.
  - split; [by rewrite length_insert|]. apply Forall_insert; [done|]. by rewrite length_insert.
  - intros x i Hx Hi. fold (idx i). unfold cell at 1. specialize (Hc x i Hx Hi). fold (idx i) in Hc.
    destruct (decide (x = idx n)) as [->|Hxn].
    + rewrite list_lookup_total_insert_eq by lia. destruct (decide (i = n)) as [->|Hin].
      * rewrite list_lookup_total_insert_eq by lia. by nat_cases.
      * rewrite list_lookup_total_insert_ne by lia. fold (cell l' (idx n) i). rewrite Hc. by nat_cases.
    + rewrite list_lookup_total_insert_ne by lia. fold (cell l' x i). rewrite Hc.
      nat_cases; try done. assert (i = n) as -> by lia. done.
Qed.

Lemma known_next d l : (1 ≤ d)%nat → (d < depth)%nat → known_level d l →
  known_level (S d) (receiver_level depth pntCount base_r choices m l d).
Proof.
  intros Hd1 Hd [Hok Hk]. unfold receiver_level. pose proof (grow_level_spec _ l Hok) as Hg.
  destruct (grow_level l) as [l1 s]. destruct Hg as (Hok1 & Hg & Hs).
  change (2 * 2 ^ d)%nat with (2 ^ S d)%nat in Hok1.
  destruct (fix_children d s l1 8 Hd Hok1 ltac:(lia)) as [Hok' Hc]. split; [done|].
  intros j x Hj Hx Hne. assert (j < 8)%nat as Hj8 by (unfold min in Hj; lia). rewrite Hc by done. clear Hc.
  replace (depth - S d)%nat with (depth - 1 - d)%nat in Hne by lia. rewrite active_split in Hne by done.
  set (a := Nat.shiftr (pt j) (depth - d)) in *.
  assert (∀ y k, (y < 2 ^ d)%nat → (k < 2)%nat → y ≠ a →
    cell l1 (2 * y + k) j = tree_node (S d) (2 * y + k) (root !!! j)) as Hother.
  { intros y k Hy Hk2 Hya. rewrite Hg, tree_node_child, Hk by done. done. }
  rewrite inactive_split by done. fold a. nat_cases.
  - subst x. unfold fixed_value. rewrite inactive_split by done. fold a.
    assert (Nat.land (2 * a + Nat.b2n (choice j d)) 1 = Nat.b2n (choice j d)) as ->.
    { change 1%nat with (Nat.ones 1). rewrite Nat.land_ones. change (2 ^ 1)%nat with 2%nat.
      rewrite (Nat.add_comm (2 * a)), (Nat.mul_comm 2), Nat.Div0.mod_add. by destruct (choice j d). }
    set (k := Nat.b2n (choice j d)) in *. assert (k < 2)%nat as Hk2 by (unfold k; destruct (choice j d); cbn; lia).
    pose proof (theirs_open j d Hj Hd) as Et. fold k in Et. destruct (Hs k j Hk2 Hj8) as [_ ->].
    assert (a < 2 ^ d)%nat as Had by (cbn in Hx; lia).
    pose proof (xsum_diff (λ x, tree_node (S d) (2 * x + k) (root !!! j)) (λ x, cell l1 (2 * x + k) j) (seq 0 (2 ^ d)) a
      (NoDup_seq _ _) ltac:(apply elem_of_seq; lia)) as Ex.
    specialize (Ex ltac:(intros y [_ Hy]%elem_of_seq Hya; by rewrite Hother by lia)). cbn beta in Ex.
    fold (level_sum d k (root !!! j)) in Ex. rewrite <-Et in Ex. revert Ex.
    generalize (cell (pm_sums m k) d j), (base_r !!! ((j + g) * depth + d)%nat), (cell l1 (2 * a + k) j),
      (xsum (λ x, cell l1 (2 * x + k) j) (seq 0 (2 ^ d))), (tree_node (S d) (2 * a + k) (root !!! j)).
    intros u b c w t Ex. transitivity (Z.lxor (Z.lxor (Z.lxor u b) w) c); [z_xor_solve|]. rewrite Ex. z_xor_solve.
  - assert (∃ y k, x = 2 * y + k ∧ k < 2 ∧ y < 2 ^ d)%nat as (y & k & -> & Hk2 & Hy).
    { exists (x / 2)%nat, (x mod 2)%nat. split; [apply Nat.div_mod_eq|]. split; [apply Nat.mod_upper_bound; lia|].
      by apply half_lt. }
    apply Hother; [done|done|]. intros ->. destruct (choice j d); cbn [negb Nat.b2n] in *; lia.
Qed.

Lemma known_leaves : known_level depth (foldl (receiver_level depth pntCount base_r choices m)
  (first_level depth base_r choices m) (seq 1 (depth - 1))).
Proof.
  assert (∀ n, (n ≤ depth - 1)%nat → known_level (S n) (foldl (receiver_level depth pntCount base_r choices m)
    (first_level depth base_r choices m) (seq 1 n))) as E.
  { induction n as [|n IH]; intros Hn; [apply known_first|].
    rewrite seq_S, foldl_app. cbn [foldl Nat.add]. apply known_next; [lia|lia|]. apply IH. lia. }
  specialize (E (depth - 1)%nat). by replace (S (depth - 1)) with depth in E by lia; apply E.
Qed.

(** The rows of both parties agree away from the active leaves. *)
Lemma group_agrees :
  length (sender_group depth pntCount g base_s root).1 = min ∧
  length (receiver_group depth pntCount base_r choices m) = min ∧
  ∀ j, (j < min)%nat →
    length ((sender_group depth pntCount g base_s root).1 !!! j) = (2 ^ depth)%nat ∧
    length (receiver_group depth pntCount base_r choices m !!! j) = (2 ^ depth)%nat ∧
    ∀ x, (x < 2 ^ depth)%nat → x ≠ pt j →
      cell (receiver_group depth pntCount base_r choices m) j x = cell (sender_group depth pntCount g base_s root).1 j x.
Proof.
  assert (pm_g m = g) as Hg by (unfold m, sender_group; by destruct (sender_levels _ _) as [? [? ?]]).
  destruct known_leaves as [[Hlen _] Hk]. unfold receiver_group. rewrite Hg. fold min.
  unfold sender_group. pose proof (sender_levels_spec depth root Hroot) as Hs.
  destruct (sender_levels depth root) as [l [s0 s1]]. destruct Hs as ([Hl _] & Hc & _). cbn [fst]. fold min.
  set (l' := foldl _ _ _) in *. unfold copyOut. split; [by rewrite length_map, length_seq|].
  split; [by rewrite length_map, length_seq|]. intros j Hj. unfold cell. rewrite !map_seq_lookup by done.
  rewrite !length_map. do 2 (split; [done|]). intros x Hx Hne.
  rewrite !map_lookup_total by lia. fold (cell l' x j) (cell l x j).
  rewrite Hc by (done || unfold min in Hj; lia). apply Hk; [done|done|]. by rewrite Nat.sub_diag.
Qed.
End group.

(** ** All the trees *)
Definition rows_agree (depth pntCount : nat) (choices : list bool) (n : nat) (rows_s rows_r : list (list Z)) : Prop :=
  length rows_s = n ∧ length rows_r = n ∧
  ∀ v, (v < n)%nat →
    length (rows_s !!! v) = (2 ^ depth)%nat ∧ length (rows_r !!! v) = (2 ^ depth)%nat ∧
    ∀ x, (x < 2 ^ depth)%nat → x ≠ pprf_point depth pntCount choices v → cell rows_r v x = cell rows_s v x.

(** The messages of base OTs with the choice bits [choices]. *)
Definition ot_messages (base_s : list (Z * Z)) (choices : list bool) (base_r : list Z) : Prop :=
  length base_r = length base_s ∧ length choices = length base_s ∧
  ∀ k, (k < length base_s)%nat →
    base_r !!! k = if default false (choices !! k) then (base_s !!! k).2 else (base_s !!! k).1.

Lemma divCeil_step n k d : (0 < d)%nat → (k < divCeil n d)%nat → (k * d < n)%nat.
Proof.
  intros Hd Hk. unfold divCeil in Hk. pose proof (Nat.div_mod_eq (n + d - 1) d).
  assert ((k + 1) * d ≤ (n + d - 1) / d * d)%nat by (apply Nat.mul_le_mono_r; lia). lia.
Qed.

(** The loops of both parties over the groups of trees. *)
Section groups.
Context (depth pntCount : nat) (base_s : list (Z * Z)) (base_r : list Z) (choices : list bool) (tkey : Z).
Hypothesis (Hdepth : (1 ≤ depth)%nat) (Hbase : length base_s = (depth * pntCount)%nat).
Hypothesis (Hot : ot_messages base_s choices base_r).

Let sf := λ '(out, msgs, tree) g, '(root, tree) ← get_blocks tree 8;
  let '(rows, m) := sender_group depth pntCount g base_s root in Ok (out ++ rows, msgs ++ [m], tree).
Let rf := λ '(out, msgs) (_ : nat), match msgs with
  | [] => Throw "channel closed"
  | m :: msgs => Ok (out ++ receiver_group depth pntCount base_r choices m, msgs)
  end.

Lemma groups_agree tree k : at_pos tree tkey 0 → (k ≤ divCeil pntCount 8)%nat → ∃ out msgs tree' pos' outr,
  foldM sf ([], [], tree) (map (λ k, k * 8)%nat (seq 0 k)) = Ok (out, msgs, tree') ∧ at_pos tree' tkey pos' ∧
  (∀ rest, foldM rf ([], msgs ++ rest) (map (λ k, k * 8)%nat (seq 0 k)) = Ok (outr, rest)) ∧
  rows_agree depth pntCount choices (Nat.min pntCount (k * 8)) out outr.
Proof.
  intros Ht. destruct Hot as (Hbr & Hch & Hot'). induction k as [|k IH]; intros Hk.
  - exists [], [], tree, 0, []. split; [done|]. split; [done|]. split; [done|].
    rewrite Nat.min_r by lia. split; [done|]. split; [done|]. lia.
  - destruct (IH ltac:(lia)) as (out & msgs & tree' & pos' & outr & Es & Htr & Er & Hlo & Hlr & Hag). clear IH.
    pose proof (divCeil_step pntCount k 8 ltac:(lia) ltac:(lia)) as Hk8. rewrite Nat.min_r in * by lia.
    destruct (get_blocks_at tree' tkey pos' 8 Htr) as (tree2 & Eb & Ht2).
    set (root := stream_blocks tkey pos' 8) in *.
    assert (length root = 8%nat) as Hroot by (apply (words_length tkey pos' 8 16); lia).
    pose proof (group_agrees depth pntCount (k * 8) base_s base_r choices root Hdepth Hroot) as Hga.
    destruct Hga as (Hgs & Hgr & Hga); [by rewrite Hch|done|by intros; apply Hot'; rewrite Hbase|].
    destruct (sender_group depth pntCount (k * 8) base_s root) as [rows m] eqn:Eg. cbn [fst snd] in *.
    set (rowsr := receiver_group depth pntCount base_r choices m) in *.
    exists (out ++ rows), (msgs ++ [m]), tree2, (pos' + 16 * Z.of_nat 8), (outr ++ rowsr).
    rewrite seq_S, map_app, !foldM_app, Es. split.
    { rewrite bind_ok. cbn [map foldM Nat.add]. unfold sf at 1. rewrite Eb, bind_ok, Eg. done. }
    split; [done|]. split.
    { intros rest. rewrite foldM_app, <-app_assoc, Er, bind_ok. done. }
    split; [rewrite length_app; lia|]. split; [rewrite length_app; lia|].
    intros v Hv. unfold cell in *. destruct (Nat.lt_ge_cases v (k * 8)).
    + rewrite !lookup_total_app_l by lia. by apply Hag.
    + rewrite !lookup_total_app_r by lia. rewrite Hlo, Hlr. destruct (Hga (v - k * 8)%nat) as (H1 & H2 & H3); [lia|].
      split; [done|]. split; [done|]. intros x Hx Hne. apply H3; [done|].
      by replace (v - k * 8 + k * 8)%nat with v by lia.
Qed.
End groups.

Lemma pprf_agree depth pntCount base_s base_r choices prng key pos :
  (1 ≤ depth)%nat → length base_s = (depth * pntCount)%nat → ot_messages base_s choices base_r → at_pos prng key pos →
  ∃ rows_s msgs prng' rows_r, pprf_send depth pntCount base_s prng = Ok (rows_s, msgs, prng') ∧
    at_pos prng' key (pos + 16) ∧ pprf_recv depth pntCount base_r choices msgs = Ok rows_r ∧
    rows_agree depth pntCount choices pntCount rows_s rows_r.
Proof.
  intros Hdepth Hbase Hot Hprng. pose proof Hot as (Hbr & Hch & _). unfold pprf_send, pprf_recv.
  rewrite Hbase, Nat.eqb_refl. cbn [negb]. rewrite Hbr, Hch, Hbase, Nat.eqb_refl. cbn [negb].
  destruct (get_block_at prng key pos Hprng) as (prng' & -> & Hp'). rewrite bind_ok.
  destruct (SetSeed_at (Z.lxor (stream_block_at key pos) 0) 256 ltac:(lia)) as (tree & -> & Ht). rewrite bind_ok.
  destruct (groups_agree depth pntCount base_s base_r choices _ Hdepth Hbase Hot tree (divCeil pntCount 8) Ht ltac:(lia))
    as (out & msgs & tree' & pos' & outr & Es & _ & Er & Hag).
  exists out, msgs, prng', outr. unfold steps. rewrite Es, bind_ok. split; [done|]. split; [done|].
  specialize (Er []). rewrite app_nil_r in Er. rewrite Er, bind_ok. split; [done|].
  rewrite Nat.min_l in Hag; [done|]. change (divCeil pntCount 8 * 8)%nat with (roundUpTo pntCount 8). apply roundUpTo_le. lia.
Qed.

(** ** The check of consistency *)
Context `{Blake2}.

Definition hash0 (x : Z) : Z := (row_hash x).1.1.
Definition hash1 (x : Z) : Z := (row_hash x).1.2.

Lemma blake2_word n x k : (k < n)%nat → is_word 128 (blake2_blocks n x !!! k).
Proof.
  intros Hk. unfold blake2_blocks.
  assert (Forall (is_word 128) (words 16 (blake2 (16 * n) (oc_octets x)))) as Hf by apply (words_word 16), blake2_u8.
  assert (k < length (words 16 (blake2 (16 * n) (oc_octets x))))%nat as Hl.
  { unfold words. rewrite length_map, length_seq, blake2_length, (Nat.mul_comm 16), Nat.div_mul by lia. done. }
  apply lookup_lt_is_Some_2 in Hl as [y Hy]. rewrite (list_lookup_total_correct _ _ _ Hy).
  by apply (Forall_lookup_1 _ _ _ _ Hf Hy).
Qed.

Lemma row_hash_words x : is_word 128 (hash0 x) ∧ is_word 128 (hash1 x) ∧ is_word 128 (row_hash x).2.
Proof. unfold hash0, hash1, row_hash. cbn [fst snd]. split; [|split]; apply blake2_word; lia. Qed.

Lemma row_totals_eq row : row_totals row = (xsum hash0 row, xsum hash1 row).
Proof.
  unfold row_totals. enough (∀ c0 c1, foldl (λ '(c0, c1) seed,
      let '(h0, h1, _) := row_hash seed in (Z.lxor c0 h0, Z.lxor c1 h1)) (c0, c1) row
    = (Z.lxor c0 (xsum hash0 row), Z.lxor c1 (xsum hash1 row))) as -> by (by rewrite !Z.lxor_0_l).
  induction row as [|x row IH]; intros c0 c1; cbn [foldl]; [by rewrite !Z.lxor_0_r|].
  destruct (row_hash x) as [[h0 h1] h2] eqn:E. rewrite IH. unfold xsum. cbn [foldr].
  unfold hash0 at 2, hash1 at 2. rewrite E. cbn [fst snd]. by rewrite !Z.lxor_assoc.
Qed.

Lemma list_as_seq (row : list Z) : row = (λ x, row !!! x) <$> seq 0 (length row).
Proof.
  apply list_eq_same_length with (length row); [by rewrite length_fmap, length_seq|done|].
  intros i x y Hi Hx Hy. apply list_lookup_fmap_Some in Hy as (j & -> & Hj). apply lookup_seq in Hj as [-> _].
  by rewrite (list_lookup_total_correct _ _ _ Hx).
Qed.

(** Totals of rows that differ in one place. *)
Lemma totals_diff (h : Z → Z) n a (row_s row_r : list Z) : length row_s = n → length row_r = n → (a < n)%nat →
  (∀ x, (x < n)%nat → x ≠ a → row_r !!! x = row_s !!! x) →
  Z.lxor (xsum h row_s) (xsum h row_r) = Z.lxor (h (row_s !!! a)) (h (row_r !!! a)).
Proof.
  intros Hs Hr Ha E. rewrite (list_as_seq row_s), (list_as_seq row_r) at 1. rewrite !xsum_fmap, Hs, Hr.
  apply (xsum_diff (h ∘ λ x, row_s !!! x) (h ∘ λ x, row_r !!! x) (seq 0 n) a); [apply NoDup_seq|apply elem_of_seq; lia|].
  intros c [_ Hc]%elem_of_seq Hca. cbn [compose]. by rewrite E by lia.
Qed.

Lemma land_ones_word x : is_word 128 x → Z.land (allSame_bool true) x = x.
Proof. intros Hx. unfold allSame_bool. rewrite Z.land_comm, Z.land_ones by lia. by apply Z.mod_small. Qed.

Lemma check_row_passes f delta msg v (row_s row_r : list Z) :
  length row_s = (2 ^ f)%nat → length row_r = (2 ^ f)%nat → (rowDelta delta f v < 2 ^ f)%nat →
  (∀ x, (x < 2 ^ f)%nat → x ≠ rowDelta delta f v → row_r !!! x = row_s !!! x) →
  cm_corrections msg !!! v = row_totals row_s → cm_hashes msg !!! v = hash_entries (row_entries row_s) →
  check_seed_row f delta msg v row_r = true.
Proof.
  intros Hs Hr Ha E Hc Hh. set (a := rowDelta delta f v) in *. unfold check_seed_row. fold a.
  rewrite Hc, Hh, !row_totals_eq, !(totals_diff _ (2 ^ f) a) by done.
  match goal with |- context [hash_entries (imap ?g _)] => set (fixe := g) end.
  assert (imap fixe (row_entries row_r) = row_entries row_s) as ->; [|by rewrite !Z.eqb_refl].
  apply list_eq_same_length with (2 ^ f)%nat; [by unfold row_entries; rewrite length_map|
    by unfold row_entries; rewrite length_imap, length_map|].
  intros x y z Hx Hy Hz. rewrite list_lookup_imap in Hy. unfold row_entries in *.
  apply list_lookup_fmap_Some in Hz as (sz & -> & Hsz).
  destruct (map (λ seed, (row_hash seed).1) row_r !! x) as [w|] eqn:Hw; [|done]. injection Hy as <-.
  apply list_lookup_fmap_Some in Hw as (rz & -> & Hrz).
  apply list_lookup_total_correct in Hsz. apply list_lookup_total_correct in Hrz.
  pose proof (row_hash_words rz) as (Hr0 & Hr1 & _). pose proof (row_hash_words sz) as (Hs0 & Hs1 & _).
  unfold fixe. fold (hash0 rz) (hash1 rz).
  destruct ((row_hash rz).1) as [h0 h1] eqn:Erz. destruct ((row_hash sz).1) as [k0 k1] eqn:Esz.
  assert (hash0 rz = h0) as E0 by (unfold hash0; by rewrite Erz).
  assert (hash1 rz = h1) as E1 by (unfold hash1; by rewrite Erz).
  assert (hash0 sz = k0) as E2 by (unfold hash0; by rewrite Esz).
  assert (hash1 sz = k1) as E3 by (unfold hash1; by rewrite Esz).
  nat_cases.
  - subst x. rewrite Hsz, Hrz, E0, E1, E2, E3. rewrite E0, E1, E2, E3 in *.
    rewrite !land_ones_word by (apply is_word_lxor; done). f_equal; z_xor_solve.
  - cbn [allSame_bool]. rewrite !Z.land_0_l, !Z.lxor_0_r.
    rewrite <-Hrz, <-Hsz, E in * by done. congruence.
Qed.

(** ** The order of the seeds *)
Definition reorder_row (f : nat) (deltaUnpacked : list Z) (v : nat) (x : list Z) : list Z :=
  foldl (λ x i, foldl (λ x col, swap_row deltaUnpacked f i col v x) x (swap_cols (2 ^ f) (2 ^ f) (2 ^ i) 0))
    x (seq 0 f).

Lemma foldl_imap {A B} (g : B → nat → A → A) (l : list B) (rows : list A) :
  foldl (λ rows b, imap (g b) rows) rows l = imap (λ v x, foldl (λ x b, g b v x) x l) rows.
Proof.
  revert rows. induction l as [|b l IH]; intros rows; cbn [foldl].
  - symmetry. apply list_eq. intros i. rewrite list_lookup_imap. by destruct (rows !! i).
  - rewrite IH. apply list_eq. intros i. rewrite !list_lookup_imap. by destruct (rows !! i).
Qed.

Lemma reorder_seeds_eq f dU rows : reorder_seeds f dU rows = imap (reorder_row f dU) rows.
Proof.
  unfold reorder_seeds, reorder_row.
  rewrite <-(foldl_imap (λ i v x, foldl (λ x col, swap_row dU f i col v x) x (swap_cols (2 ^ f) (2 ^ f) (2 ^ i) 0))).
  generalize (seq 0 f). intros l. revert rows. induction l as [|i l IH]; intros rows; cbn [foldl]; [done|].
  by rewrite IH, (foldl_imap (λ col v x, swap_row dU f i col v x)).
Qed.

Lemma cswap_delta b x y : is_word 128 x → is_word 128 y →
  cswapBytes x y (u8 (- b2z b)) = if b then (y, x) else (x, y).
Proof.
  intros Hx Hy. unfold cswapBytes. rewrite Z.land_comm, land_allSame by (by apply is_word_lxor).
  destruct b; cbn [key_if]; f_equal; z_xor_solve.
Qed.

Lemma swap_row_delta dU f i col v x b : is_word 128 (x !!! col) → is_word 128 (x !!! (col + 2 ^ i)%nat) →
  dU !!! (v * f + i)%nat = u8 (- b2z b) →
  swap_row dU f i col v x
    = <[(col + 2 ^ i)%nat := if b then x !!! col else x !!! (col + 2 ^ i)%nat]>
        (<[col := if b then x !!! (col + 2 ^ i)%nat else x !!! col]> x).
Proof. intros H1 H2 E. unfold swap_row. rewrite E, cswap_delta by done. by destruct b. Qed.

(** The swaps of one bit. *)
Definition xor_row (f d : nat) (x : list Z) : list Z := map (λ c, x !!! Nat.lxor c d) (seq 0 (2 ^ f)).

Lemma swap_pass f dU v x i b : (1 ≤ f ≤ 3)%nat → (i < f)%nat → length x = (2 ^ f)%nat → Forall (is_word 128) x →
  dU !!! (v * f + i)%nat = u8 (- b2z b) →
  foldl (λ x col, swap_row dU f i col v x) x (swap_cols (2 ^ f) (2 ^ f) (2 ^ i) 0)
    = xor_row f (if b then 2 ^ i else 0)%nat x.
Proof.
  intros Hf Hi Hl Hw Hd.
  assert (f = 1 ∨ f = 2 ∨ f = 3)%nat as [->|[->| ->]] by lia; assert (i = 0 ∨ i = 1 ∨ i = 2)%nat as [->|[->| ->]] by lia;
    try lia; cbn in Hl; repeat (destruct x as [|? x]; [discriminate|]; try (destruct x; [|discriminate]));
    clear Hf Hi Hl; rewrite !Forall_cons in Hw; destruct_and?;
    match goal with |- context [swap_cols ?n ?n ?m 0] => let c := eval vm_compute in (swap_cols n n m 0) in
      change (swap_cols n n m 0) with c end; cbn [foldl]; destruct b;
    repeat (rewrite (swap_row_delta _ _ _ _ _ _ _) by (exact Hd || assumption);
            cbn [insert list_insert lookup_total list_lookup_total Nat.add Nat.pow Nat.mul]); reflexivity.
Qed.

Lemma xor_row_length f d x : length (xor_row f d x) = (2 ^ f)%nat.
Proof. unfold xor_row. by rewrite length_map, length_seq. Qed.

Lemma xor_row_lookup f d x c : (c < 2 ^ f)%nat → xor_row f d x !!! c = x !!! Nat.lxor c d.
Proof. intros. unfold xor_row. by apply (map_seq_lookup (λ c, x !!! Nat.lxor c d)). Qed.

Lemma xor_row_words f d x : (d < 2 ^ f)%nat → length x = (2 ^ f)%nat → Forall (is_word 128) x →
  Forall (is_word 128) (xor_row f d x).
Proof.
  intros Hd Hl Hw. apply Forall_map, Forall_forall. intros c [_ Hc]%elem_of_seq. cbn.
  pose proof (lxor_lt c d f Hc Hd) as Hlt. rewrite <-Hl in Hlt. apply lookup_lt_is_Some_2 in Hlt as [y Hy].
  rewrite (list_lookup_total_correct _ _ _ Hy). by apply (Forall_lookup_1 _ _ _ _ Hw Hy).
Qed.

(** The swaps of all the bits. *)
Lemma reorder_row_spec f dU v x b : (1 ≤ f ≤ 3)%nat → length x = (2 ^ f)%nat → Forall (is_word 128) x →
  (∀ i, (i < f)%nat → dU !!! (v * f + i)%nat = u8 (- b2z (b i))) →
  length (reorder_row f dU v x) = (2 ^ f)%nat ∧
  ∀ c, (c < 2 ^ f)%nat → reorder_row f dU v x !!! c = x !!! Nat.lxor c (le_nat (map b (seq 0 f))).
Proof.
  intros Hf Hl Hw Hd.
  assert (∀ n, (n ≤ f)%nat →
    let y := foldl (λ x i, foldl (λ x col, swap_row dU f i col v x) x (swap_cols (2 ^ f) (2 ^ f) (2 ^ i) 0))
               x (seq 0 n) in
    length y = (2 ^ f)%nat ∧ Forall (is_word 128) y ∧
    ∀ c, (c < 2 ^ f)%nat → y !!! c = x !!! Nat.lxor c (le_nat (map b (seq 0 n)))) as E.
  { induction n as [|n IH]; intros Hn y.
    - split; [done|]. split; [done|]. intros c _. cbn. by rewrite Nat.lxor_0_r.
    - unfold y. rewrite seq_S, foldl_app. cbn [foldl Nat.add]. destruct (IH ltac:(lia)) as (Hl1 & Hw1 & Hc).
      set (z := foldl _ x (seq 0 n)) in *. rewrite (swap_pass f dU v z n (b n)) by (done || lia || by apply Hd; lia).
      assert ((if b n then 2 ^ n else 0) < 2 ^ f)%nat as Hd2.
      { pose proof (pow2_pos f). destruct (b n); [|done]. apply Nat.pow_lt_mono_r; lia. }
      split; [apply xor_row_length|]. split; [by apply xor_row_words|]. intros c Hc2.
      rewrite xor_row_lookup, Hc by (done || by apply lxor_lt). f_equal. rewrite Nat.lxor_assoc. f_equal.
      rewrite map_app. cbn [map]. clear. generalize (b n). intros bn. apply Nat.bits_inj. intros k.
      rewrite Nat.lxor_spec, !le_nat_bit.
      assert (length (map b (seq 0 n)) = n) as Hlen by (by rewrite length_map, length_seq).
      destruct (Nat.lt_ge_cases k n).
      + rewrite lookup_app_l by lia. destruct bn; [rewrite Nat.pow2_bits_false by lia|rewrite Nat.bits_0]; by rewrite ?xorb_false_l.
      + rewrite lookup_app_r, lookup_ge_None_2, Hlen by lia. cbn [default]. rewrite xorb_false_r.
        destruct (decide (k = n)) as [->|].
        * rewrite Nat.sub_diag. cbn. destruct bn; [by rewrite Nat.pow2_bits_true|by rewrite Nat.bits_0].
        * rewrite lookup_ge_None_2 by (cbn; lia). cbn. destruct bn; [by rewrite Nat.pow2_bits_false by lia|by rewrite Nat.bits_0]. }
  destruct (E f ltac:(lia)) as (H1 & _ & H2). by split.
Qed.

(** ** The choices of the base OTs *)
Lemma choicesToDelta_spec choices f n : length choices = (n * f)%nat →
  ∃ delta, choicesToDelta choices f n = Ok delta ∧ length delta = (f * n)%nat ∧
    ∀ v j, (v < n)%nat → (j < f)%nat →
      delta !! (v * f + j)%nat = Some (negb (default false (choices !! (v * f + (f - 1 - j))%nat))).
Proof.
  intros Hl. unfold choicesToDelta. rewrite Hl, Nat.eqb_refl. cbn [negb].
  set (g := λ i, map (λ j, negb (default false (choices !! ((i + 1) * f - j - 1)%nat))) (seq 0 f)).
  assert (∀ i, (i < n)%nat → length (g i) = f) as Hg by (intros; unfold g; by rewrite length_map, length_seq).
  assert (length (mjoin (map g (seq 0 n))) = (n * f)%nat) as Hlen by (by apply grid_length).
  eexists. split; [done|]. split; [by rewrite Hlen, Nat.mul_comm|]. intros v j Hv Hj.
  destruct (lookup_lt_is_Some_2 (mjoin (map g (seq 0 n))) (v * f + j)) as [b Hb].
  { rewrite Hlen. by apply cell_lt. }
  rewrite Hb. f_equal. apply list_lookup_total_correct in Hb. rewrite <-Hb, (grid_lookup g n f) by done.
  unfold g. rewrite map_seq_lookup by done. do 4 f_equal. lia.
Qed.

(** The three ways to read the index of the missing seed. *)
Lemma missing_seed choices f n delta v : length choices = (f * n)%nat → (v < n)%nat →
  (∀ v j, (v < n)%nat → (j < f)%nat →
     delta !! (v * f + j)%nat = Some (negb (default false (choices !! (v * f + (f - 1 - j))%nat)))) →
  pprf_point f n choices v = row_delta delta f v ∧ rowDelta delta f v = row_delta delta f v.
Proof.
  intros Hl Hv Hd.
  assert (∀ k, Nat.testbit (row_delta delta f v) k
    = (k <? f)%nat && negb (default false (choices !! (v * f + (f - 1 - k))%nat))) as Hr.
  { intros k. unfold row_delta. rewrite le_nat_bit. nat_cases; cbn [andb].
    - by rewrite lookup_take_lt, lookup_drop, Hd by lia.
    - by rewrite lookup_take_ge by lia. }
  split; apply Nat.bits_inj; intros k; rewrite Hr.
  - unfold pprf_point. nat_cases; rewrite getActivePath_bit.
    all: assert ((v + 1) * f ≤ n * f)%nat by (apply Nat.mul_le_mono_r; lia).
    all: assert (length (choice_row f choices v) = f) as -> by (unfold choice_row; rewrite slice_length; lia).
    + nat_cases. unfold choice_row. rewrite lookup_take_lt, lookup_drop by lia.
      by replace (f * v + (f - 1 - k))%nat with (v * f + (f - 1 - k))%nat by lia.
    + by nat_cases.
  - unfold rowDelta. assert (∀ m, (m ≤ f)%nat →
      Nat.testbit (foldl (λ r bit, Nat.lor r (Nat.shiftl (Nat.b2n (default false (delta !! (v * f + bit)%nat))) bit))
        O (seq 0 m)) k = (k <? m)%nat && negb (default false (choices !! (v * f + (f - 1 - k))%nat))) as E; [|by apply E].
    induction m as [|m IH]; intros Hm; [cbn [seq foldl]; rewrite Nat.bits_0; by nat_cases|].
    rewrite seq_S, foldl_app. cbn [foldl Nat.add]. rewrite Nat.lor_spec, IH, Hd by lia. change (default false (Some ?b)) with b. clear IH.
    destruct (decide (k = m)) as [->|Hkm].
    + rewrite Nat.shiftl_spec_high', Nat.sub_diag by lia. nat_cases.
      by destruct (default false (choices !! (v * f + (f - 1 - m))%nat)).
    + assert (Nat.testbit (Nat.shiftl (Nat.b2n (negb (default false (choices !! (v * f + (f - 1 - m))%nat)))) m) k = false) as ->.
      { destruct (Nat.lt_ge_cases k m); [by apply Nat.shiftl_spec_low|].
        rewrite Nat.shiftl_spec_high' by lia. apply Nat.bits_above_log2.
        destruct (default false (choices !! (v * f + (f - 1 - m))%nat)); cbn; lia. }
      rewrite orb_false_r. by nat_cases.
Qed.

(** ** The set-up *)
Lemma total_lookup {A} `{Inhabited A} (l : list A) k : (k < length l)%nat → l !! k = Some (l !!! k).
Proof. intros Hk. by apply list_lookup_lookup_total_lt. Qed.

Lemma consistency_accepted f n choices delta rows_s rows_r :
  length choices = (f * n)%nat →
  (∀ v j, (v < n)%nat → (j < f)%nat →
     delta !! (v * f + j)%nat = Some (negb (default false (choices !! (v * f + (f - 1 - j))%nat)))) →
  length delta = (f * n)%nat → (1 ≤ f)%nat →
  rows_agree f n choices n rows_s rows_r → check_consistency f delta (prove_consistency rows_s) rows_r = true.
Proof.
  intros Hc Hd Hdl Hf (Hls & Hlr & Hag). unfold check_consistency. apply forallb_forall. intros b Hb.
  apply list_elem_of_In, list_elem_of_lookup in Hb as [v Hb]. rewrite list_lookup_imap in Hb.
  destruct (rows_r !! v) as [row|] eqn:Hrow; [|done]. injection Hb as <-. unfold id.
  assert (v < n)%nat as Hv by (rewrite <-Hlr; by eapply lookup_lt_Some).
  apply list_lookup_total_correct in Hrow. destruct (Hag v Hv) as (H1 & H2 & H3).
  destruct (missing_seed choices f n delta v Hc Hv Hd) as [Ep Er].
  rewrite <-Hrow. apply (check_row_passes f delta _ v (rows_s !!! v)); [done|done| | | |].
  - rewrite Er. apply (row_delta_bit delta f n v 0); [done|done|lia].
  - intros x Hx Hne. apply H3; [done|]. by rewrite Ep, <-Er.
  - unfold prove_consistency. cbn [cm_corrections]. rewrite map_lookup_total by lia. done.
  - unfold prove_consistency. cbn [cm_hashes]. rewrite map_lookup_total by lia. done.
Qed.

Lemma row_seeds_word row : Forall (is_word 128) (row_seeds row).
Proof. apply Forall_map, Forall_forall. intros x _. cbn. apply row_hash_words. Qed.

Section reordered.
Context (f n : nat) (choices delta : list bool) (dU : list Z) (rows_s rows_r : list (list Z)).
Hypothesis (Hf : (1 ≤ f ≤ 3)%nat).
Hypothesis (Hch : length choices = (f * n)%nat) (Hdl : length delta = (f * n)%nat).
Hypothesis (Hdelta : ∀ v j, (v < n)%nat → (j < f)%nat →
  delta !! (v * f + j)%nat = Some (negb (default false (choices !! (v * f + (f - 1 - j))%nat)))).
Hypothesis (HdU : ∀ v j, (v < n)%nat → (j < f)%nat → dU !!! (v * f + j)%nat = u8 (- b2z (delta !!! (v * f + j)%nat))).
Hypothesis (Hag : rows_agree f n choices n rows_s rows_r).

Lemma agree_lengths v : (v < n)%nat →
  length (row_seeds (rows_s !!! v)) = (2 ^ f)%nat ∧ length (row_seeds (rows_r !!! v)) = (2 ^ f)%nat.
Proof. intros Hv. unfold row_seeds. rewrite !length_map. by destruct Hag as (_ & _ & X); destruct (X v Hv) as (-> & -> & _). Qed.

Lemma delta_row v : (v < n)%nat → le_nat (map (λ i, delta !!! (v * f + i)%nat) (seq 0 f)) = row_delta delta f v.
Proof.
  intros Hv. unfold row_delta. f_equal. assert ((v + 1) * f ≤ n * f)%nat by (apply Nat.mul_le_mono_r; lia).
  apply list_eq_same_length with f; [rewrite slice_length; lia|by rewrite length_map, length_seq|].
  intros i x y Hi Hx Hy. apply list_lookup_fmap_Some in Hx as (j & -> & Hj). apply lookup_seq in Hj as [-> _].
  rewrite lookup_take_lt, lookup_drop in Hy by done. by apply list_lookup_total_correct in Hy.
Qed.

Lemma reordered_row v : (v < n)%nat →
  length (reorder_row f dU v (row_seeds (rows_r !!! v))) = (2 ^ f)%nat ∧
  ∀ c, (0 < c < 2 ^ f)%nat → reorder_row f dU v (row_seeds (rows_r !!! v)) !!! c
    = row_seeds (rows_s !!! v) !!! Nat.lxor c (row_delta delta f v).
Proof.
  intros Hv. destruct (agree_lengths v Hv) as [Hl1 Hl2].
  destruct (reorder_row_spec f dU v (row_seeds (rows_r !!! v)) (λ i, delta !!! (v * f + i)%nat) Hf Hl2
    (row_seeds_word _)) as [H1 H2]; [intros; by apply HdU|]. split; [done|]. intros c Hc. rewrite H2, delta_row by lia.
  destruct (missing_seed choices f n delta v Hch Hv Hdelta) as [Ep _].
  destruct (row_delta_bit delta f n v 0 Hdl Hv ltac:(lia)) as [Hdlt _].
  set (d := row_delta delta f v) in *. pose proof (lxor_lt c d f ltac:(lia) Hdlt) as Hlt.
  unfold row_seeds in *. rewrite length_map in Hl1, Hl2. rewrite !map_lookup_total by lia.
  destruct Hag as (_ & _ & X). destruct (X v Hv) as (_ & _ & H3). do 2 f_equal. apply H3; [done|]. rewrite Ep. intros E.
  assert (c = 0)%nat; [|lia]. by rewrite <-(Nat.lxor_0_r c), <-(Nat.lxor_nilpotent d), <-Nat.lxor_assoc, E, Nat.lxor_nilpotent.
Qed.

Lemma sender_rows_length l : l ∈ map row_seeds rows_s → length l = (2 ^ f)%nat.
Proof.
  intros (row & -> & (v & Hv)%list_elem_of_lookup)%list_elem_of_fmap. destruct Hag as (Hls & _).
  assert (v < n)%nat by (rewrite <-Hls; by eapply lookup_lt_Some).
  rewrite <-(list_lookup_total_correct _ _ _ Hv). by apply agree_lengths.
Qed.

Lemma reordered_rows : length (reorder_seeds f dU (map row_seeds rows_r)) = n ∧
  ∀ v, (v < n)%nat → reorder_seeds f dU (map row_seeds rows_r) !!! v = reorder_row f dU v (row_seeds (rows_r !!! v)).
Proof.
  destruct Hag as (_ & Hlr & _). split; [rewrite reorder_seeds_eq, length_imap, length_map; done|].
  intros v Hv. rewrite reorder_seeds_eq, imap_lookup_total, map_lookup_total by (rewrite ?length_map; lia). done.
Qed.

Lemma receiver_rows_length l : l ∈ map (drop 1) (reorder_seeds f dU (map row_seeds rows_r)) → length l = aesPerVole f.
Proof.
  destruct reordered_rows as [Hrows Hrow].
  intros (row & -> & (v & Hv)%list_elem_of_lookup)%list_elem_of_fmap.
  assert (v < n)%nat as Hvn by (rewrite <-Hrows; by eapply lookup_lt_Some).
  rewrite <-(list_lookup_total_correct _ _ _ Hv), Hrow, length_drop by done. by destruct (reordered_row v Hvn) as [-> _].
Qed.

Lemma rows_share_seeds :
  share_seeds
    (mkVoleSender f n (mjoin (map row_seeds rows_s) ++ replicate ((sender_numVolesPadded f n - n) * 2 ^ f) 0))
    (mkVoleReceiver f n (mjoin (map (drop 1) (reorder_seeds f dU (map row_seeds rows_r)))
      ++ replicate ((receiver_numVolesPadded f n - n) * aesPerVole f) 0) delta dU).
Proof.
  pose proof sender_rows_length as Hs1. pose proof receiver_rows_length as Hs2. destruct reordered_rows as [Hrows Hrow].
  destruct Hag as (Hls & Hlr & _). set (rows := reorder_seeds f dU (map row_seeds rows_r)) in *.
  assert (n ≤ sender_numVolesPadded f n ∧ n ≤ receiver_numVolesPadded f n)%nat as [Hp1 Hp2].
  { split; [by apply roundUpTo_le, volePerSuperBlk_pos|]. unfold receiver_numVolesPadded.
    etransitivity; [apply (roundUpTo_le n 4); lia|]. lia. }
  unfold share_seeds. cbn [vs_fieldBits vs_numVoles vs_seeds vr_fieldBits vr_numVoles vr_seeds vr_delta vr_deltaUnpacked].
  split; [done|]. split; [done|]. split; [done|]. split; [|split; [|split]].
  - intros k Hk. assert (0 < f)%nat as Hf0 by lia. pose proof (Nat.div_mod_eq k f). pose proof (Nat.mod_upper_bound k f ltac:(lia)).
    assert (k / f < n)%nat by (apply Nat.Div0.div_lt_upper_bound; lia).
    replace k with (k / f * f + k mod f)%nat by lia. by apply HdU.
  - rewrite length_app, length_replicate, (join_length _ _ Hs1), length_map, Hls. nia.
  - rewrite length_app, length_replicate, (join_length _ _ Hs2), length_map, Hrows. nia.
  - intros v c Hv Hc. pose proof (row_delta_bit delta f n v 0 Hdl Hv ltac:(lia)) as [Hdlt _].
    pose proof (lxor_lt c _ f ltac:(lia) Hdlt) as Hlt.
    rewrite !lookup_total_app_l.
    + rewrite (join_lookup_total _ _ v _ Hs2), (join_lookup_total _ _ v _ Hs1)
        by (rewrite ?length_map; unfold aesPerVole; lia).
      rewrite !map_lookup_total, drop_lookup_total by lia. replace (1 + (c - 1))%nat with c by lia.
      rewrite Hrow by done. by apply reordered_row.
    + rewrite (join_length _ _ Hs1), length_map, Hls. by apply cell_lt.
    + rewrite (join_length _ _ Hs2), length_map, Hrows. apply cell_lt; [done|]. unfold aesPerVole. lia.
Qed.
End reordered.

Lemma vole_setup f n base_s base_r choices raw prng key pos :
  (1 ≤ f ≤ 3)%nat → length base_s = (f * n)%nat → ot_messages base_s choices base_r → at_pos prng key pos →
  ∃ s msgs cm prng' r, vole_sender_new f n prng base_s true = Ok (s, msgs, Some cm, prng') ∧
    at_pos prng' key (pos + 16) ∧ vole_receiver_new f n base_r choices true raw msgs (Some cm) = Ok r ∧
    vs_fieldBits s = f ∧ vs_numVoles s = n ∧ choicesToDelta choices f n = Ok (vr_delta r) ∧ share_seeds s r ∧
    Forall (is_word 128) (vs_seeds s).
Proof.
  intros Hf Hbase Hot Hprng. unfold vole_sender_new, vole_receiver_new.
  assert (((f <? 1) || (31 <? f))%nat = false) as -> by (nat_cases; done).
  destruct (pprf_agree f n base_s base_r choices prng key pos ltac:(lia) Hbase Hot Hprng)
    as (rows_s & msgs & prng' & rows_r & -> & Hp' & Er & Hag). rewrite bind_ok.
  assert (length choices = (f * n)%nat) as Hch by (destruct Hot as (_ & -> & _); done).
  destruct (choicesToDelta_spec choices f n) as (delta & Ed & Hdl & Hdelta); [lia|].
  exists (mkVoleSender f n (mjoin (map row_seeds rows_s)
    ++ replicate ((sender_numVolesPadded f n - n) * 2 ^ f) 0)), msgs, (prove_consistency rows_s), prng'.
  rewrite Ed, bind_ok, Hdl, Nat.eqb_refl. cbn [negb]. rewrite Er, bind_ok.
  rewrite (consistency_accepted f n choices delta rows_s rows_r) by (done || lia). rewrite bind_ok.
  set (dU := map _ _ ++ _). eexists. split; [done|]. split; [done|]. split; [done|]. split; [done|]. split; [done|].
  split; [done|]. split; last first.
  { cbn [vs_seeds]. apply Forall_app. split.
    - apply Forall_join, Forall_map, Forall_forall. intros row _. apply row_seeds_word.
    - apply Forall_replicate. unfold is_word. lia. }
  apply (rows_share_seeds f n choices); try done. intros v j Hv Hj.
  assert (v * f + j < length delta)%nat by (rewrite Hdl, (Nat.mul_comm f); by apply cell_lt).
  unfold dU. rewrite lookup_total_app_l by (by rewrite length_map). by rewrite map_lookup_total.
Qed.

(** C9. The set-up of the small-field VOLE gives both parties consistent shares for the fields of 2, 4 and 8
    elements ([f] = 1, 2 or 3 bits): from base OTs whose messages agree with the choices, the constructor of the sender and that of the receiver, with the proof
    of consistency, both return; afterwards, for every AES key, block index and correction [c], each
    output of the receiver is the output of the sender, plus the sum of [u] and [c] where the bit of
    [delta] is set. *)
Theorem small_field_vole_shares f n base_s base_r choices raw prng key pos :
  (1 ≤ f ≤ 3)%nat → length base_s = (f * n)%nat → ot_messages base_s choices base_r → at_pos prng key pos →
  ∃ s msgs cm prng' r, vole_sender_new f n prng base_s true = Ok (s, msgs, Some cm, prng') ∧
    vole_receiver_new f n base_r choices true raw msgs (Some cm) = Ok r ∧
    choicesToDelta choices f n = Ok (vr_delta r) ∧
    ∀ blockIdx aes c v j, (v < n)%nat → (j < f)%nat → is_word 128 (c !!! v) →
      let '(u, V) := sender_generate s blockIdx aes in
      receiver_generate r blockIdx aes (Some c) !!! (v * f + j)%nat
        = Z.lxor (V !!! (v * f + j)%nat) (key_if (vr_delta r !!! (v * f + j)%nat) (Z.lxor (u !!! v) (c !!! v))).
Proof.
  intros Hf Hbase Hot Hprng.
  destruct (vole_setup f n base_s base_r choices raw prng key pos Hf Hbase Hot Hprng)
    as (s & msgs & cm & prng' & r & Es & _ & Er & Hfs & Hns & Ed & Hshare & _).
  exists s, msgs, cm, prng', r. split; [done|]. split; [done|]. split; [done|]. intros blockIdx aes c v j Hv Hj Hc.
  destruct (sender_generate s blockIdx aes) as [u V] eqn:E.
  pose proof (small_field_vole s r blockIdx aes (Some c) v j Hshare) as X. rewrite Hfs, Hns, E in X.
  apply X; try done. by intros ? [= <-].
Qed.
End pprf.

(** ** Base OTs to run examples with *)
Definition toy_blake2 : Blake2.
Proof.
  refine {| blake2 n x := map (λ i, u8 (foldl (λ a y, (a * 31 + y + Z.of_nat i * (a mod 251)) mod 1000003) 7 x)) (seq 0 n) |}.
  - intros. by rewrite length_map, length_seq.
  - intros. apply Forall_map, Forall_forall. intros. cbn. apply is_u8_u8.
Defined.

Definition sample_base_s : list (Z * Z) := map (λ k, (Z.of_nat k, Z.of_nat (k * k + 1000))) (seq 0 128).
Definition sample_base_choices : list bool := map (λ k, Nat.even (k / 3)) (seq 0 128).
Definition sample_base_r : list Z :=
  zip_with (λ (c : bool) m, if c then m.2 else m.1) sample_base_choices sample_base_s.

Lemma sample_base_ok : ot_messages sample_base_s sample_base_choices sample_base_r.
Proof.
  split; [done|]. split; [done|]. change (length sample_base_s) with 128%nat. intros k Hk.
  do 128 (destruct k as [|k]; [reflexivity|]). lia.
Qed.

Lemma small_field_vole_shares_witness :
  ∃ p s msgs cm p' r, @oc_SetSeed toy_aes oc_prng_new 7 256 = Ok p ∧
    @vole_sender_new toy_aes toy_blake2 2 64 p sample_base_s true = Ok (s, msgs, Some cm, p') ∧
    @vole_receiver_new toy_aes toy_blake2 2 64 sample_base_r sample_base_choices true [] msgs (Some cm) = Ok r ∧
    receiver_generate r 3 (@enc toy_aes 9) (Some (replicate 64 5)) !!! 7%nat
      = Z.lxor ((sender_generate s 3 (@enc toy_aes 9)).2 !!! 7%nat)
          (key_if (vr_delta r !!! 7%nat) (Z.lxor ((sender_generate s 3 (@enc toy_aes 9)).1 !!! 3%nat) 5)).
Proof.
  destruct (@SetSeed_at toy_aes 7 256 eq_refl) as (p & Ep & Hp).
  destruct (@small_field_vole_shares toy_aes toy_blake2 2 64 sample_base_s sample_base_r sample_base_choices [] p 7 0
    ltac:(lia) eq_refl sample_base_ok Hp) as (s & msgs & cm & p' & r & Es & Er & _ & H).
  exists p, s, msgs, cm, p', r. split; [exact Ep|]. split; [exact Es|]. split; [exact Er|].
  specialize (H 3 (@enc toy_aes 9) (replicate 64 5) 3%nat 1%nat ltac:(lia) ltac:(lia)
    ltac:(change (0 ≤ 5 < 2 ^ 128); lia)).
  destruct (sender_generate s 3 (@enc toy_aes 9)) as [u V]. exact H.
Defined.
