(* ===== verification/SubspaceVole.v ===== *)
(** * The subspace VOLE with its check

    [SubspaceVoleSender] and [SubspaceVoleReceiver]
    ([Vole/SoftSpokenOT/SubspaceVole.h]) with the repetition code
    ([Tools/RepetitionCode.h], [Tools/GenericLinearCode.h]), and the universal hash and
    the check of [Vole/SoftSpokenOT/SubspaceVoleMaliciousLeaky.h].

    The sender of the VOLE is the receiver of the OT extension.  A message is the list of
    its blocks. *)

From S2P Require Import Prelude Xor YaoKey Gf2n CryptoTools SmallField.

(** ** The repetition code, of dimension 1 *)
Definition encodeXor (n : nat) (message : Z) (codeWord : list Z) : list Z :=
  imap (λ i x, if (i <? n)%nat then Z.lxor x message else x) codeWord.
Definition encode (n : nat) (message : Z) : list Z := encodeXor n message (replicate n 0).

(** ** Chosen [u] *)
Record SubspaceVoleSender := mkSubSender { ss_vole : SmallFieldVoleSender; ss_messages : list Z }.
Record SubspaceVoleReceiver :=
  mkSubReceiver { sr_vole : SmallFieldVoleReceiver; sr_messages : list Z; sr_readIndex : nat }.

Definition ss_code (s : SubspaceVoleSender) : nat := vs_numVoles (ss_vole s).
Definition sr_code (r : SubspaceVoleReceiver) : nat := vr_numVoles (sr_vole r).

Definition ss_generateChosen (s : SubspaceVoleSender) (blockIdx : Z) (aes : Z → Z) (chosenU : Z)
    : list Z * SubspaceVoleSender :=
  let '(correction, outV) := sender_generate (ss_vole s) blockIdx aes in
  let correction := encodeXor (ss_code s) chosenU correction in
  (outV, mkSubSender (ss_vole s) (ss_messages s ++ take (ss_code s) correction)).

(** [SubspaceVoleSender::send] *)
Definition ss_send (s : SubspaceVoleSender) (chl : list (list Z)) : list (list Z) * SubspaceVoleSender :=
  match ss_messages s with
  | [] => (chl, s)
  | _ => (chl ++ [ss_messages s], mkSubSender (ss_vole s) [])
  end.

Definition sr_uSize (r : SubspaceVoleReceiver) : nat := vr_numVoles (sr_vole r).
Definition sr_uPadded (r : SubspaceVoleReceiver) : nat :=
  receiver_numVolesPadded (vr_fieldBits (sr_vole r)) (vr_numVoles (sr_vole r)).

(** [SubspaceVoleReceiver::recv]: [raw] is the memory after the blocks received. *)
Definition sr_recv (raw : list Z) (r : SubspaceVoleReceiver) (chl : list (list Z)) (chosen : nat)
    : outcome (SubspaceVoleReceiver * list (list Z)) :=
  let blocks := (sr_code r * chosen)%nat in
  match chl with
  | [] => Throw "channel closed"
  | m :: chl =>
      if Nat.eqb (length m) blocks
      then Ok (mkSubReceiver (sr_vole r) (m ++ take (sr_uPadded r - sr_uSize r) raw) 0, chl)
      else Throw "BadReceiveBufferSize"
  end.

Definition sr_generateChosen (r : SubspaceVoleReceiver) (blockIdx : Z) (aes : Z → Z) : list Z * SubspaceVoleReceiver :=
  let correctionU := take (sr_uPadded r) (drop (sr_readIndex r) (sr_messages r)) in
  (receiver_generate (sr_vole r) blockIdx aes (Some correctionU),
   mkSubReceiver (sr_vole r) (sr_messages r) (sr_readIndex r + sr_uSize r)).

(** ** The universal hash *)
Definition gf64mod : Z := Z.lor (Z.lor (Z.lor (Z.shiftl 1 4) (Z.shiftl 1 3)) (Z.shiftl 1 1)) 1.

Definition gfMods : list Z :=
  [1; 3; 2^2 + 2 + 1; 2^3 + 2 + 1; 2^4 + 2 + 1; 2^5 + 2^2 + 1; 2^6 + 2 + 1; 2^7 + 2 + 1;
   2^8 + 2^4 + 2^3 + 2 + 1; 2^9 + 2 + 1; 2^10 + 2^3 + 1; 2^11 + 2^2 + 1; 2^12 + 2^3 + 1;
   2^13 + 2^4 + 2^3 + 2 + 1; 2^14 + 2^5 + 1; 2^15 + 2 + 1; 2^16 + 2^5 + 2^3 + 2 + 1; 2^17 + 2^3 + 1;
   2^18 + 2^3 + 1; 2^19 + 2^5 + 2^2 + 2 + 1; 2^20 + 2^3 + 1; 2^21 + 2^2 + 1; 2^22 + 2 + 1; 2^23 + 2^5 + 1;
   2^24 + 2^4 + 2^3 + 2 + 1; 2^25 + 2^3 + 1; 2^26 + 2^4 + 2^3 + 2 + 1; 2^27 + 2^5 + 2^2 + 2 + 1;
   2^28 + 2 + 1; 2^29 + 2^2 + 1; 2^30 + 2 + 1; 2^31 + 2^3 + 1].

Definition maxHashKeyUsage : Z := 1024 * 1024.

(** [popcount(u64)] of [Common/Defines.h]: [__builtin_popcount] takes an [unsigned int]. *)
Definition popcount (x : Z) : Z :=
  foldr (λ i n, b2z (Z.testbit (u32 x) i) + n) 0 (seqZ 0 32).

Section hash.
Context `{OcAes} (clmul : Z → Key → Key → Key).

Record UniversalHash := mkUHash {
  uh_prng : OcPRNG;
  hashKey : Z;
  hashKeySqAndA64 : Z;
  hashKeyUseCount : Z;
}.

Definition mulA64 (inHalf : bool) (x : Z) : Z :=
  let mul := clmul (b2z inHalf) x gf64mod in
  let reduced := clmul 0x01 mul gf64mod in
  Z.lxor mul reduced.

Definition reduce (x : Z) : Z := Z.lxor (mulA64 true x) x.
Definition reduceU64 (x : Z) : Z := lane_lo (reduce x).

Definition setupHash (prng : OcPRNG) : outcome UniversalHash :=
  '(key, prng) ← get_u64 prng;
  let hashKeySq := reduce (clmul 0x00 key key) in
  let hashKeySqA64 := mulA64 false hashKeySq in
  Ok (mkUHash prng key (Z.lor (lane_lo hashKeySq) (Z.shiftl (lane_lo hashKeySqA64) 64)) 0).

(** [rekeyCheck] *)
Definition rekeyCheck (h : UniversalHash) : outcome (bool * UniversalHash) :=
  let n := hashKeyUseCount h + 1 in
  if n <? maxHashKeyUsage
  then Ok (false, mkUHash (uh_prng h) (hashKey h) (hashKeySqAndA64 h) n)
  else h ← setupHash (uh_prng h); Ok (true, h).

Definition mulHash (h : UniversalHash) (hash : Z) : Z :=
  Z.lxor (clmul 0x00 hash (hashKeySqAndA64 h)) (clmul 0x11 hash (hashKeySqAndA64 h)).

Definition updateHash (h : UniversalHash) (hash x : Z) : Z :=
  let inMul := clmul 0x00 x (hashKey h) in
  let inHigh := Z.shiftr x 64 in
  mulHash h (Z.lxor hash (Z.lxor inMul inHigh)).

(** The hashes and the totals of former keys. *)
Record HashArray := mkHashes { ha_hash : list Z; ha_subtotal : list Z }.

Definition clearHashes (n : nat) : HashArray := mkHashes (replicate n 0) (replicate n 0).

Definition update_hashes (h : UniversalHash) (n : nat) (a : HashArray) (x : list Z) : HashArray :=
  mkHashes (imap (λ i hash, if (i <? n)%nat then updateHash h hash (x !!! i) else hash) (ha_hash a)) (ha_subtotal a).

Definition addSubtotalAfterRekey (count : nat) (a : HashArray) : HashArray :=
  mkHashes (imap (λ i hash, if (i <? count)%nat then 0 else hash) (ha_hash a))
    (imap (λ i t, if (i <? count)%nat then Z.lxor t (ha_hash a !!! i) else t) (ha_subtotal a)).

Definition finalHashRows (fieldBits : nat) : nat := divCeil 40 fieldBits.

Definition getFinalHashKey (h : UniversalHash) (fieldBits : nat) : outcome (list Z * UniversalHash) :=
  '(key, prng) ← get_u64s (uh_prng h) (finalHashRows fieldBits * fieldBits);
  Ok (key, mkUHash prng (hashKey h) (hashKeySqAndA64 h) (hashKeyUseCount h)).

Definition getFinalHashSubfield (finalHashKey : list Z) (x : Z) (fieldBits : nat) : list Z :=
  map (λ i, foldl (λ output j,
      Z.lor output (Z.shiftl (Z.land (popcount (Z.land (finalHashKey !!! (i * finalHashRows fieldBits + j)%nat) x)) 1)
                      (Z.of_nat j))) 0 (seq 0 (finalHashRows fieldBits)))
    (seq 0 fieldBits).

(** The coefficients of a product of polynomials, the lowest first. *)
Definition poly_product (fieldBits : nat) (f : nat → nat → Z) : list Z :=
  foldl (λ out j, foldl (λ out k, <[(j + k)%nat := Z.lxor (out !!! (j + k)%nat) (f j k)]> out)
                    out (seq 0 fieldBits))
    (replicate (2 * fieldBits - 1) 0) (seq 0 fieldBits).

Definition final_row (fieldBits : nat) (noPopcnt : list Z) : Z :=
  let mod_ := gfMods !!! fieldBits in
  let bit j := Z.land (popcount (noPopcnt !!! j)) 1 in
  let row := foldl (λ row j, Z.lor (Z.shiftl row 1) (bit j)) 0 (rev (seq (fieldBits - 1) fieldBits)) in
  foldl (λ row j,
      let row := Z.lor (Z.shiftl row 1) (bit j) in
      Z.lxor row (if Z.testbit row (Z.of_nat fieldBits) then mod_ else 0))
    row (rev (seq 0 (fieldBits - 1))).

Definition getFinalHash (finalHashKey x : list Z) (fieldBits : nat) : list Z :=
  let rows := finalHashRows fieldBits in
  foldl (λ finalHash i,
      let outputRow := final_row fieldBits
        (poly_product fieldBits (λ j k, Z.land (finalHashKey !!! (j * rows + i)%nat) (x !!! k))) in
      imap (λ j hash, Z.lor hash (Z.shiftl (b2z (Z.testbit outputRow (Z.of_nat j))) (Z.of_nat i))) finalHash)
    (replicate fieldBits 0) (seq 0 rows).

(** ** The sender of the response *)
Record SubspaceVoleMaliciousSender := mkMalSender {
  ms_sub : SubspaceVoleSender;
  ms_uh : UniversalHash;
  ms_U : HashArray;
  ms_V : HashArray;
}.

Definition ms_fieldBits (s : SubspaceVoleMaliciousSender) : nat := vs_fieldBits (ss_vole (ms_sub s)).
Definition ms_numVoles (s : SubspaceVoleMaliciousSender) : nat := vs_numVoles (ss_vole (ms_sub s)).
Definition ms_vSize (s : SubspaceVoleMaliciousSender) : nat := (ms_fieldBits s * ms_numVoles s)%nat.
Definition ms_vPadded (s : SubspaceVoleMaliciousSender) : nat :=
  roundUpTo (ms_fieldBits s * sender_numVolesPadded (ms_fieldBits s) (ms_numVoles s)) 4.

Definition uh_new : UniversalHash := mkUHash oc_prng_new 0 0 0.

Definition ms_new (sub : SubspaceVoleSender) : SubspaceVoleMaliciousSender :=
  let s := mkMalSender sub uh_new (clearHashes 1) (clearHashes 0) in
  mkMalSender sub uh_new (clearHashes 1) (clearHashes (ms_vPadded s)).

Definition ms_recvChallenge (s : SubspaceVoleMaliciousSender) (seed : Z) : outcome SubspaceVoleMaliciousSender :=
  prng ← oc_SetSeed (uh_prng (ms_uh s)) seed 256;
  uh ← setupHash prng;
  Ok (mkMalSender (ms_sub s) uh (ms_U s) (ms_V s)).

Definition ms_addSubtotal (s : SubspaceVoleMaliciousSender) : SubspaceVoleMaliciousSender :=
  mkMalSender (ms_sub s) (ms_uh s) (addSubtotalAfterRekey 1 (ms_U s)) (addSubtotalAfterRekey (ms_vSize s) (ms_V s)).

Definition ms_hash (s : SubspaceVoleMaliciousSender) (u : Z) (v : list Z) : outcome SubspaceVoleMaliciousSender :=
  let U := update_hashes (ms_uh s) 1 (ms_U s) [u] in
  let V := update_hashes (ms_uh s) (roundUpTo (ms_vSize s) 4) (ms_V s) v in
  '(rekeyed, uh) ← rekeyCheck (ms_uh s);
  let s := mkMalSender (ms_sub s) uh U V in
  Ok (if (rekeyed : bool) then ms_addSubtotal s else s).

Definition bytesPerHash (fieldBits : nat) : nat := divCeil (finalHashRows fieldBits * fieldBits) 8.

(** One packed hash. *)
Definition pack_hash (fieldBits : nat) (finalHash : list Z) : list Z :=
  let output := foldl (λ output j,
    u64 (Z.lor output (Z.shiftl (finalHash !!! j) (Z.of_nat (j * finalHashRows fieldBits))))) 0 (seq 0 fieldBits) in
  le_bytes (bytesPerHash fieldBits) output.

Definition ms_sendResponse (s : SubspaceVoleMaliciousSender) : outcome (list Z * SubspaceVoleMaliciousSender) :=
  let f := ms_fieldBits s in
  '(finalHashKey, uh) ← getFinalHashKey (ms_uh s) f;
  let s := ms_addSubtotal (mkMalSender (ms_sub s) uh (ms_U s) (ms_V s)) in
  let U := getFinalHashSubfield finalHashKey (reduceU64 (ha_subtotal (ms_U s) !!! 0%nat)) f in
  let V := map (λ i, getFinalHash finalHashKey
                       (map (λ j, reduceU64 (ha_subtotal (ms_V s) !!! (i * f + j)%nat)) (seq 0 f)) f)
             (seq 0 (ms_numVoles s)) in
  Ok (mjoin (map (pack_hash f) (U :: V)),
      mkMalSender (ms_sub s) (ms_uh s) (clearHashes 1) (clearHashes (ms_vPadded s))).

(** ** The check of the response *)
Record SubspaceVoleMaliciousReceiver := mkMalReceiver {
  mr_sub : SubspaceVoleReceiver;
  mr_uh : UniversalHash;
  mr_W : HashArray;
}.

Definition mr_fieldBits (r : SubspaceVoleMaliciousReceiver) : nat := vr_fieldBits (sr_vole (mr_sub r)).
Definition mr_numVoles (r : SubspaceVoleMaliciousReceiver) : nat := vr_numVoles (sr_vole (mr_sub r)).
Definition mr_wSize (r : SubspaceVoleMaliciousReceiver) : nat := (mr_fieldBits r * mr_numVoles r)%nat.
Definition mr_wPadded (r : SubspaceVoleMaliciousReceiver) : nat :=
  roundUpTo (mr_fieldBits r * receiver_numVolesPadded (mr_fieldBits r) (mr_numVoles r)) 4.

Definition mr_new (sub : SubspaceVoleReceiver) : SubspaceVoleMaliciousReceiver :=
  mkMalReceiver sub uh_new (clearHashes (mr_wPadded (mkMalReceiver sub uh_new (clearHashes 0)))).

(** [sendChallenge]: the seed that it sends. *)
Definition mr_sendChallenge (r : SubspaceVoleMaliciousReceiver) (prng : OcPRNG)
    : outcome (Z * SubspaceVoleMaliciousReceiver * OcPRNG) :=
  '(seed, prng) ← get_block prng;
  p ← oc_SetSeed (uh_prng (mr_uh r)) seed 256;
  uh ← setupHash p;
  Ok (seed, mkMalReceiver (mr_sub r) uh (mr_W r), prng).

Definition mr_addSubtotal (r : SubspaceVoleMaliciousReceiver) : SubspaceVoleMaliciousReceiver :=
  mkMalReceiver (mr_sub r) (mr_uh r) (addSubtotalAfterRekey (mr_wSize r) (mr_W r)).

Definition mr_hash (r : SubspaceVoleMaliciousReceiver) (w : list Z) : outcome SubspaceVoleMaliciousReceiver :=
  let W := update_hashes (mr_uh r) (roundUpTo (mr_wSize r) 4) (mr_W r) w in
  '(rekeyed, uh) ← rekeyCheck (mr_uh r);
  let r := mkMalReceiver (mr_sub r) uh W in
  Ok (if (rekeyed : bool) then mr_addSubtotal r else r).

(** [SmallFieldVoleReceiver::sharedFunctionXorGF] of one VOLE. *)
Definition allSame_u64 (x : Z) : Z := if Z.testbit x 7 then Z.lor (u8 x) (Z.ones 64 - Z.ones 8) else u8 x.

Definition reduce_products (fieldBits : nat) (modulus : Z) (products : list Z) : list Z :=
  foldl (λ products j,
      foldl (λ products k,
          if Z.testbit modulus (Z.of_nat (fieldBits - k))
          then <[(j - k)%nat := Z.lxor (products !!! (j - k)%nat) (products !!! j)]> products else products)
        products (seq 1 fieldBits))
    products (rev (seq fieldBits (fieldBits - 1))).

Definition sharedFunctionXorGF (fieldBits : nat) (u deltaUnpacked : list Z) (modulus : Z) (product : list Z) : list Z :=
  let products := reduce_products fieldBits modulus
    (poly_product fieldBits (λ bitU bitD, Z.land (u !!! bitU) (allSame_u64 (deltaUnpacked !!! bitD)))) in
  imap (λ j x, Z.lxor x (products !!! j)) product.

(** One hash of the sender, unpacked. *)
Definition unpack_hash (fieldBits : nat) (hash : Z) : list Z :=
  map (λ j, Z.land (Z.shiftr hash (Z.of_nat (j * finalHashRows fieldBits))) (Z.ones (Z.of_nat (finalHashRows fieldBits))))
    (seq 0 fieldBits).

Definition mr_checkResponse (r : SubspaceVoleMaliciousReceiver) (response : list Z)
    : outcome SubspaceVoleMaliciousReceiver :=
  let f := mr_fieldBits r in
  let n := mr_numVoles r in
  '(finalHashKey, uh) ← getFinalHashKey (mr_uh r) f;
  let r := mr_addSubtotal (mkMalReceiver (mr_sub r) uh (mr_W r)) in
  let W := map (λ i, getFinalHash finalHashKey
                       (map (λ j, reduceU64 (ha_subtotal (mr_W r) !!! (i * f + j)%nat)) (seq 0 f)) f) (seq 0 n) in
  let b := bytesPerHash f in
  if negb (Nat.eqb (length response) (b * (1 + n))) then Throw "BadReceiveBufferSize"
  else
    let hash i := le_val (take b (drop (b * i) response)) in
    let U := map (unpack_hash f) (encode n (hash 0%nat)) in
    let V := map (λ i, unpack_hash f (hash (1 + i)%nat)) (seq 0 n) in
    let W := imap (λ i w, sharedFunctionXorGF f (U !!! i) (drop (i * f) (vr_deltaUnpacked (sr_vole (mr_sub r))))
                            (gfMods !!! f) w) W in
    if bool_decide (W = V)
    then Ok (mkMalReceiver (mr_sub r) (mr_uh r) (clearHashes (mr_wPadded r)))
    else Throw "Failed subspace VOLE consistency check".
End hash.
