(* ===== verification/SubspaceProps.v ===== *)
(** * The check of the subspace VOLE

    The universal hash is linear, so the check of [SubspaceVole] accepts honest parties;
    it reads half of the hashes. *)

From S2P Require Import Prelude Xor YaoKey YaoGate Gf2n CryptoTools SmallField SmallFieldProps SubspaceVole.

Lemma key_if_lxor b x y : key_if b (Z.lxor x y) = Z.lxor (key_if b x) (key_if b y).
Proof. by destruct b. Qed.

Lemma lane_lo_lxor a b : lane_lo (Z.lxor a b) = Z.lxor (lane_lo a) (lane_lo b).
Proof. unfold lane_lo, u64. rewrite <-!Z.land_ones by lia. apply Z.bits_inj'. intros i Hi.
  rewrite !Z.lxor_spec, !Z.land_spec, Z.lxor_spec. by destruct (Z.testbit a i), (Z.testbit b i), (Z.testbit (Z.ones 64) i). Qed.

Lemma lane_hi_lxor a b : lane_hi (Z.lxor a b) = Z.lxor (lane_hi a) (lane_hi b).
Proof. unfold lane_hi. rewrite Z.shiftr_lxor. apply lane_lo_lxor. Qed.

Section linear.
Context `{OcAes} (clmul : Z → Key → Key → Key) (Hclmul : clmul_spec clmul).

Lemma clmul_lxor (i j : bool) a b k :
  clmul (b2z i + 16 * b2z j) (Z.lxor a b) k
    = Z.lxor (clmul (b2z i + 16 * b2z j) a k) (clmul (b2z i + 16 * b2z j) b k).
Proof.
  rewrite !Hclmul, <-clm_lxor_l. f_equal. destruct i; cbn [get_half]; [apply lane_hi_lxor|apply lane_lo_lxor].
Qed.

Lemma clmul00_lxor a b k : clmul 0x00 (Z.lxor a b) k = Z.lxor (clmul 0x00 a k) (clmul 0x00 b k).
Proof. exact (clmul_lxor false false a b k). Qed.
Lemma clmul01_lxor a b k : clmul 0x01 (Z.lxor a b) k = Z.lxor (clmul 0x01 a k) (clmul 0x01 b k).
Proof. exact (clmul_lxor true false a b k). Qed.
Lemma clmul11_lxor a b k : clmul 0x11 (Z.lxor a b) k = Z.lxor (clmul 0x11 a k) (clmul 0x11 b k).
Proof. exact (clmul_lxor true true a b k). Qed.

(** The hash of a sum is the sum of the hashes. *)
Lemma updateHash_lxor h x x' y y' :
  updateHash clmul h (Z.lxor x x') (Z.lxor y y') = Z.lxor (updateHash clmul h x y) (updateHash clmul h x' y').
Proof.
  unfold updateHash, mulHash. rewrite (clmul00_lxor y y' (hashKey h)), Z.shiftr_lxor.
  set (a := clmul 0 y _). set (a' := clmul 0 y' _). set (b := Z.shiftr y 64). set (b' := Z.shiftr y' 64).
  replace (Z.lxor (Z.lxor x x') (Z.lxor (Z.lxor a a') (Z.lxor b b')))
    with (Z.lxor (Z.lxor x (Z.lxor a b)) (Z.lxor x' (Z.lxor a' b'))) by z_xor_solve.
  set (u := Z.lxor x (Z.lxor a b)). set (u' := Z.lxor x' (Z.lxor a' b')). set (s := hashKeySqAndA64 h).
  clearbody u u' s.
  rewrite clmul00_lxor, clmul11_lxor.
  set (p := clmul 0 u s). set (q := clmul 17 u s). set (p' := clmul 0 u' s). set (q' := clmul 17 u' s). z_xor_solve.
Qed.

Lemma mulA64_lxor half x y : mulA64 clmul half (Z.lxor x y) = Z.lxor (mulA64 clmul half x) (mulA64 clmul half y).
Proof.
  unfold mulA64. assert (∀ x, clmul (b2z half) x gf64mod = clmul (b2z half + 16 * b2z false) x gf64mod) as E
    by (intros; f_equal; cbn; lia). rewrite !E, clmul_lxor. clear E.
  set (a := clmul (b2z half + _) x _). set (b := clmul (b2z half + _) y _).
  rewrite clmul01_lxor.
  set (c := clmul 1 a _). set (d := clmul 1 b _). z_xor_solve.
Qed.

Lemma reduceU64_lxor x y : reduceU64 clmul (Z.lxor x y) = Z.lxor (reduceU64 clmul x) (reduceU64 clmul y).
Proof.
  unfold reduceU64, reduce. rewrite mulA64_lxor, <-lane_lo_lxor. f_equal.
  set (a := mulA64 clmul true x). set (b := mulA64 clmul true y). z_xor_solve.
Qed.

Lemma updateHash_key_if h b x y : updateHash clmul h (key_if b x) (key_if b y) = key_if b (updateHash clmul h x y).
Proof.
  destruct b; [done|]. cbn [key_if]. pose proof (updateHash_lxor h 0 0 0 0) as E.
  rewrite Z.lxor_nilpotent in E. by rewrite E at 1; rewrite Z.lxor_nilpotent.
Qed.

Lemma reduceU64_key_if b x : reduceU64 clmul (key_if b x) = key_if b (reduceU64 clmul x).
Proof.
  destruct b; [done|]. cbn [key_if]. pose proof (reduceU64_lxor 0 0) as E. rewrite Z.lxor_nilpotent in E.
  by rewrite E at 1; rewrite Z.lxor_nilpotent.
Qed.

(** ** The states of both parties *)
Definition shares (n : nat) (delta : list bool) (u : Z) (v w : list Z) : Prop :=
  (n ≤ length v)%nat ∧ (n ≤ length w)%nat ∧
  ∀ i, (i < n)%nat → w !!! i = Z.lxor (v !!! i) (key_if (delta !!! i) u).

Definition arrays_rel (n : nat) (delta : list bool) (U V W : HashArray) : Prop :=
  length (ha_hash U) = 1%nat ∧ length (ha_subtotal U) = 1%nat ∧
  shares n delta (ha_hash U !!! 0%nat) (ha_hash V) (ha_hash W) ∧
  shares n delta (ha_subtotal U !!! 0%nat) (ha_subtotal V) (ha_subtotal W).

Lemma update_rel h n m delta U V W u v w : (n ≤ m)%nat → (1 ≤ n)%nat →
  arrays_rel n delta U V W → shares n delta u v w →
  arrays_rel n delta (update_hashes clmul h 1 U [u]) (update_hashes clmul h m V v) (update_hashes clmul h m W w).
Proof.
  intros Hm Hn (HU1 & HU2 & (HV & HW & Hh) & Hsub) (_ & _ & Hs). unfold arrays_rel, update_hashes. cbn [ha_hash ha_subtotal].
  rewrite length_imap. split; [done|]. split; [done|]. split; [|done]. unfold shares. rewrite !length_imap.
  split; [done|]. split; [done|]. intros i Hi.
  rewrite !imap_lookup_total by lia. nat_cases. change ([u] !!! 0%nat) with u.
  by rewrite Hh, Hs, updateHash_lxor, updateHash_key_if by done.
Qed.

Lemma subtotal_rel n delta U V W : (1 ≤ n)%nat → arrays_rel n delta U V W →
  arrays_rel n delta (addSubtotalAfterRekey 1 U) (addSubtotalAfterRekey n V) (addSubtotalAfterRekey n W).
Proof.
  intros Hn (HU1 & HU2 & (HV & HW & Hh) & (HV2 & HW2 & Ht)).
  unfold arrays_rel, addSubtotalAfterRekey. cbn [ha_hash ha_subtotal]. rewrite !length_imap.
  do 2 (split; [done|]). unfold shares. rewrite !length_imap. split; split; try done; split; try done; intros i Hi;
    rewrite !imap_lookup_total by lia; nat_cases.
  - by destruct (delta !!! i).
  - rewrite Ht, Hh by done. destruct (delta !!! i); cbn [key_if]; [|by rewrite !Z.lxor_0_r].
    set (a := ha_subtotal V !!! i). set (b := ha_subtotal U !!! 0%nat). set (c := ha_hash V !!! i).
    set (d := ha_hash U !!! 0%nat). z_xor_solve.
Qed.

Definition mal_rel (delta : list bool) (s : SubspaceVoleMaliciousSender) (r : SubspaceVoleMaliciousReceiver) : Prop :=
  ms_uh s = mr_uh r ∧ (∃ key pos, at_pos (uh_prng (ms_uh s)) key pos) ∧
  ms_fieldBits s = mr_fieldBits r ∧ ms_numVoles s = mr_numVoles r ∧ (1 ≤ ms_vSize s)%nat ∧
  arrays_rel (ms_vSize s) delta (ms_U s) (ms_V s) (mr_W r).

Lemma setupHash_at p key pos : at_pos p key pos →
  ∃ h, setupHash clmul p = Ok h ∧ hashKeyUseCount h = 0 ∧ at_pos (uh_prng h) key (pos + 8).
Proof. intros Hp. unfold setupHash. destruct (get_u64_at p key pos Hp) as (p' & -> & Hp'). rewrite bind_ok. by eexists. Qed.

(** Both parties hash the shares of one chunk. *)
Lemma hash_rel delta s r u v w : mal_rel delta s r → shares (ms_vSize s) delta u v w →
  ∃ s' r', ms_hash clmul s u v = Ok s' ∧ mr_hash clmul r w = Ok r' ∧ mal_rel delta s' r' ∧
    ms_sub s' = ms_sub s ∧ mr_sub r' = mr_sub r.
Proof.
  intros (Huh & (key & pos & Hp) & Hf & Hn & Hv & Ha) Hs. unfold ms_hash, mr_hash, mr_wSize. rewrite <-Huh, <-Hf, <-Hn.
  fold (ms_vSize s). pose proof (roundUpTo_le (ms_vSize s) 4 ltac:(lia)) as Hle.
  pose proof (update_rel (ms_uh s) _ _ delta _ _ _ u v w Hle Hv Ha Hs) as Hu.
  unfold rekeyCheck. destruct (hashKeyUseCount (ms_uh s) + 1 <? maxHashKeyUsage).
  - rewrite !bind_ok. eexists _, _. split; [done|]. split; [done|]. split; [|done]. split; [done|].
    split; [by exists key, pos|]. by split.
  - destruct (setupHash_at _ key pos Hp) as (h & -> & _ & Hp'). rewrite !bind_ok.
    eexists _, _. split; [done|]. split; [done|]. split; [|done]. split; [done|]. split; [by exists key, (pos + 8)|].
    split; [done|]. split; [done|]. split; [done|]. unfold ms_addSubtotal, mr_addSubtotal. cbn [ms_U ms_V mr_W].
    unfold mr_wSize. cbn [mr_sub]. fold (mr_fieldBits r) (mr_numVoles r).
    change (mr_fieldBits (mkMalReceiver (mr_sub r) h (update_hashes clmul (ms_uh s) (roundUpTo (ms_vSize s) 4) (mr_W r) w)))
      with (mr_fieldBits r).
    change (mr_numVoles (mkMalReceiver (mr_sub r) h (update_hashes clmul (ms_uh s) (roundUpTo (ms_vSize s) 4) (mr_W r) w)))
      with (mr_numVoles r).
    rewrite <-Hf, <-Hn. fold (ms_vSize s). by apply subtotal_rel.
Qed.

(** The challenge sets both hashes up. *)
Lemma challenge_rel delta s r prng key pos :
  ms_fieldBits s = mr_fieldBits r → ms_numVoles s = mr_numVoles r → (1 ≤ ms_vSize s)%nat →
  ms_uh s = uh_new → mr_uh r = uh_new → arrays_rel (ms_vSize s) delta (ms_U s) (ms_V s) (mr_W r) → at_pos prng key pos →
  ∃ seed r' prng' s', mr_sendChallenge clmul r prng = Ok (seed, r', prng') ∧ at_pos prng' key (pos + 16) ∧
    ms_recvChallenge clmul s seed = Ok s' ∧ mal_rel delta s' r' ∧ ms_sub s' = ms_sub s ∧ mr_sub r' = mr_sub r.
Proof.
  intros Hf Hn Hv Hs Hr Ha Hp. unfold mr_sendChallenge, ms_recvChallenge. rewrite Hs, Hr.
  destruct (get_block_at prng key pos Hp) as (prng' & -> & Hp'). rewrite bind_ok. cbn [uh_prng uh_new].
  set (seed := stream_block_at key pos). destruct (SetSeed_at seed 256 ltac:(lia)) as (p & Ep & Hpp). rewrite Ep, !bind_ok.
  destruct (setupHash_at p seed 0 Hpp) as (h & Eh & _ & Hph). rewrite Eh, !bind_ok.
  exists seed. do 2 eexists. exists (mkMalSender (ms_sub s) h (ms_U s) (ms_V s)).
  split; [done|]. split; [done|]. rewrite Ep, !bind_ok, Eh, bind_ok. split; [done|]. split; [|done]. split; [done|].
  split; [by exists seed, (0 + 8)|]. by split.
Qed.

(** ** Parities *)
Definition parity32 (x : Z) : bool := foldr xorb false (map (Z.testbit x) (seqZ 0 32)).

Lemma testbit_u32 x i : 0 ≤ i < 32 → Z.testbit (u32 x) i = Z.testbit x i.
Proof. intros. unfold u32. by rewrite Z.mod_pow2_bits_low by lia. Qed.

Lemma popcount_parity x : Z.land (popcount x) 1 = b2z (parity32 x).
Proof.
  change 1 with (Z.ones 1). rewrite Z.land_ones by lia. change (2 ^ 1) with 2. rewrite Zmod_odd.
  unfold popcount, parity32.
  assert (∀ l, Forall (λ i, 0 ≤ i < 32) l →
    Z.odd (foldr (λ i n, b2z (Z.testbit (u32 x) i) + n) 0 l) = foldr xorb false (map (Z.testbit x) l)) as E.
  { induction 1 as [|i l Hi _ IH]; cbn [foldr map]; [done|].
    rewrite Z.odd_add, IH, testbit_u32 by done. by destruct (Z.testbit x i). }
  rewrite E; [by destruct (foldr _ _ _)|]. apply Forall_forall. intros i Hi%elem_of_seqZ. lia.
Qed.

Lemma parity32_lxor x y : parity32 (Z.lxor x y) = xorb (parity32 x) (parity32 y).
Proof.
  unfold parity32. induction (seqZ 0 32) as [|i l IH]; cbn [map foldr]; [done|].
  rewrite IH, Z.lxor_spec. by destruct (Z.testbit x i), (Z.testbit y i), (foldr xorb false (map (Z.testbit x) l)),
    (foldr xorb false (map (Z.testbit y) l)).
Qed.

Lemma parity32_key_if b x : parity32 (key_if b x) = b && parity32 x.
Proof. destruct b; [done|]. reflexivity. Qed.

(** ** The half of a hash that the check reads *)
Lemma parity32_u32 k x : parity32 (Z.land k (u32 x)) = parity32 (Z.land k x).
Proof.
  unfold parity32. assert (∀ l, Forall (λ i, 0 ≤ i < 32) l →
    map (Z.testbit (Z.land k (u32 x))) l = map (Z.testbit (Z.land k x)) l) as E.
  { induction 1 as [|i l Hi _ IH]; cbn [map]; [done|]. by rewrite IH, !Z.land_spec, testbit_u32. }
  rewrite E; [done|]. apply Forall_forall. intros i Hi%elem_of_seqZ. lia.
Qed.

Definition same_parities (a b : list Z) : Prop := length a = length b ∧ ∀ i, parity32 (a !!! i) = parity32 (b !!! i).

Lemma foldl_rel {A B} (R : B → B → Prop) (f g : B → A → B) l : (∀ b b' a, R b b' → R (f b a) (g b' a)) →
  ∀ b b', R b b' → R (foldl f b l) (foldl g b' l).
Proof. intros Hs. induction l as [|a l IH]; intros b b' Hb; cbn [foldl]; [done|]. apply IH, Hs, Hb. Qed.

Lemma product_parities f g h : (∀ j k, parity32 (g j k) = parity32 (h j k)) →
  same_parities (poly_product f g) (poly_product f h).
Proof.
  intros E. unfold poly_product. apply foldl_rel; [|done]. intros b b' j. apply foldl_rel. intros c c' k [L P].
  split; [by rewrite !length_insert|]. intros i. destruct (decide (i = j + k)%nat) as [->|Hne].
  - destruct (decide (j + k < length c)%nat) as [Hlt|Hge].
    + by rewrite !list_lookup_total_insert_eq, !parity32_lxor, P, E by lia.
    + rewrite !list_insert_ge by lia. apply P.
  - by rewrite !list_lookup_total_insert_ne by done.
Qed.

Lemma row_parities f a b : same_parities a b → final_row f a = final_row f b.
Proof.
  intros [_ P]. unfold final_row. set (row := foldl _ _ (rev (seq (f - 1) f))).
  assert (row = foldl (λ row j, Z.lor (Z.shiftl row 1) (Z.land (popcount (b !!! j)) 1)) 0 (rev (seq (f - 1) f))) as ->.
  { apply (foldl_rel eq); [|done]. intros x _ j <-. by rewrite !popcount_parity, P. }
  apply (foldl_rel eq); [|done]. intros x _ j <-. by rewrite !popcount_parity, P.
Qed.

Lemma map_u32_lookup x k : map u32 x !!! k = u32 (x !!! k).
Proof.
  destruct (decide (k < length x)%nat) as [Hk|Hk]; [by apply map_lookup_total|].
  rewrite !list_lookup_total_alt, !lookup_ge_None_2 by (rewrite ?length_map; lia). done.
Qed.

(** C35. [popcount(u64)] counts the bits of an [unsigned int], so the final hash of the check of
    consistency, over the field and over its subfield, ignores the upper 32 bits of every word: it is the same for all words
    with equal lower halves, whatever its key is. *)
Theorem final_hash_ignores_high_half K x f :
  getFinalHash K (map u32 x) f = getFinalHash K x f ∧
  ∀ y, getFinalHashSubfield K (u32 y) f = getFinalHashSubfield K y f.
Proof.
  split.
  - unfold getFinalHash. apply (foldl_rel eq); [|done]. intros o _ i <-.
    rewrite (row_parities f _ (poly_product f (λ j k, Z.land (K !!! (j * finalHashRows f + i)%nat) (x !!! k)))); [done|].
    apply product_parities. intros j k. by rewrite map_u32_lookup, parity32_u32.
  - intros y. unfold getFinalHashSubfield. apply map_ext. intros i. apply (foldl_rel eq); [|done]. intros o _ j <-.
    by rewrite !popcount_parity, parity32_u32.
Qed.

(** ** The final hash over GF(4) *)
Section final.
Context (K : list Z).

(** The parities of the products of the two rows of the key with a word. *)
Definition key_par (j i : nat) (x : Z) : bool := parity32 (Z.land (K !!! (j * 20 + i)%nat) x).

Lemma key_par_lxor j i x y : key_par j i (Z.lxor x y) = xorb (key_par j i x) (key_par j i y).
Proof.
  unfold key_par. rewrite <-parity32_lxor. f_equal. apply Z.bits_inj'. intros k Hk.
  rewrite Z.lxor_spec, !Z.land_spec, Z.lxor_spec. by destruct (Z.testbit (K !!! _) k), (Z.testbit x k), (Z.testbit y k).
Qed.

Lemma key_par_key_if j i b x : key_par j i (key_if b x) = b && key_par j i x.
Proof. destruct b; [done|]. unfold key_par. cbn [key_if]. rewrite Z.land_0_r. reflexivity. Qed.

Lemma lor_loop_bits (g : nat → bool) n k : 0 ≤ k →
  Z.testbit (foldl (λ o j, Z.lor o (Z.shiftl (b2z (g j)) (Z.of_nat j))) 0 (seq 0 n)) k
    = (k <? Z.of_nat n) && g (Z.to_nat k).
Proof.
  intros Hk. induction n as [|n IH].
  - cbn [seq foldl]. rewrite Z.bits_0. by destruct (Z.ltb_spec k (Z.of_nat 0)); [lia|].
  - rewrite seq_S, foldl_app. cbn [foldl Nat.add]. rewrite Z.lor_spec, IH, Z.shiftl_spec by done.
    destruct (Z.eq_dec k (Z.of_nat n)) as [->|Hkn].
    + rewrite Z.sub_diag, Nat2Z.id. destruct (Z.ltb_spec (Z.of_nat n) (Z.of_nat n)), (Z.ltb_spec (Z.of_nat n) (Z.of_nat (S n)));
        try lia. by destruct (g n).
    + assert (Z.testbit (b2z (g n)) (k - Z.of_nat n) = false) as ->.
      { destruct (Z.lt_ge_cases k (Z.of_nat n)); [apply Z.testbit_neg_r; lia|].
        apply (is_word_high 1); [|lia|lia]. destruct (g n); unfold is_word; cbn; lia. }
      rewrite orb_false_r. by destruct (Z.ltb_spec k (Z.of_nat n)), (Z.ltb_spec k (Z.of_nat (S n))); try lia.
Qed.

(** The number with the bits [g]. *)
Definition bits20 (g : nat → bool) : Z := foldl (λ o j, Z.lor o (Z.shiftl (b2z (g j)) (Z.of_nat j))) 0 (seq 0 20).

Lemma bits20_spec g k : 0 ≤ k → Z.testbit (bits20 g) k = (k <? 20) && g (Z.to_nat k).
Proof. intros. unfold bits20. by rewrite lor_loop_bits. Qed.

Lemma bits20_word g : is_word 20 (bits20 g).
Proof.
  assert (0 ≤ bits20 g) as H0.
  { assert (∀ l a, 0 ≤ a → 0 ≤ foldl (λ o j, Z.lor o (Z.shiftl (b2z (g j)) (Z.of_nat j))) a l) as E; [|by apply E].
    induction l as [|j l IH]; intros a Ha; cbn [foldl]; [done|]. apply IH. apply Z.lor_nonneg. split; [done|].
    apply Z.shiftl_nonneg. by destruct (g j). }
  apply is_word_bits; [lia|done|]. intros i Hi. rewrite bits20_spec by lia. by destruct (Z.ltb_spec i 20); [lia|].
Qed.

Lemma bits20_ext g h : (∀ i, (i < 20)%nat → g i = h i) → bits20 g = bits20 h.
Proof.
  intros E. apply Z.bits_inj'. intros k Hk. rewrite !bits20_spec by done.
  destruct (Z.ltb_spec k 20); [cbn [andb]; apply E; lia|done].
Qed.

Lemma subfield_spec x : getFinalHashSubfield K x 2 = [bits20 (λ i, key_par 0 i x); bits20 (λ i, key_par 1 i x)].
Proof.
  unfold getFinalHashSubfield. change (finalHashRows 2) with 20%nat. cbn [seq map].
  assert (∀ j, foldl (λ output i, Z.lor output (Z.shiftl (Z.land (popcount (Z.land (K !!! (j * 20 + i)%nat) x)) 1)
      (Z.of_nat i))) 0 (seq 0 20) = bits20 (λ i, key_par j i x)) as E.
  { intros j. unfold bits20. generalize (seq 0 20). intros l. generalize 0. induction l as [|i l IH]; intros a; [done|].
    cbn [foldl]. by rewrite IH, popcount_parity. }
  by rewrite <-!E.
Qed.

(** The row of the product, reduced. *)
Lemma final_row_spec (p0 p1 p2 : Z) :
  Z.testbit (final_row 2 [p0; p1; p2]) 0 = xorb (parity32 p0) (parity32 p2) ∧
  Z.testbit (final_row 2 [p0; p1; p2]) 1 = xorb (parity32 p1) (parity32 p2).
Proof.
  unfold final_row. cbn [rev seq foldl app Nat.sub]. change ([p0; p1; p2] !!! 0%nat) with p0.
  change ([p0; p1; p2] !!! 1%nat) with p1. change ([p0; p1; p2] !!! 2%nat) with p2.
  rewrite !popcount_parity. by destruct (parity32 p0), (parity32 p1), (parity32 p2).
Qed.

Definition hash_bits (x0 x1 : Z) (j i : nat) : bool :=
  match j with
  | O => xorb (key_par 0 i x0) (key_par 1 i x1)
  | _ => xorb (xorb (key_par 0 i x1) (key_par 1 i x0)) (key_par 1 i x1)
  end.

Lemma final_hash_spec x0 x1 : getFinalHash K [x0; x1] 2 = [bits20 (hash_bits x0 x1 0); bits20 (hash_bits x0 x1 1)].
Proof.
  unfold getFinalHash. change (finalHashRows 2) with 20%nat. unfold bits20.
  assert (∀ i, let row := final_row 2 (poly_product 2 (λ j k, Z.land (K !!! (j * 20 + i)%nat) ([x0; x1] !!! k))) in
    Z.testbit row 0 = hash_bits x0 x1 0 i ∧ Z.testbit row 1 = hash_bits x0 x1 1 i) as Hrow.
  { intros i row. unfold row, poly_product. cbn [seq foldl Nat.mul Nat.add Nat.sub replicate].
    change ([x0; x1] !!! 0%nat) with x0. change ([x0; x1] !!! 1%nat) with x1.
    cbn [insert list_insert lookup_total list_lookup_total]. rewrite !Z.lxor_0_l.
    match goal with |- context [final_row 2 [?a; ?b; ?c]] => destruct (final_row_spec a b c) as [-> ->] end.
    rewrite !parity32_lxor. unfold hash_bits, key_par. cbn [Nat.mul Nat.add]. split; [done|].
    by rewrite (xorb_comm (parity32 (Z.land (K !!! i) x1))). }
  change (replicate 2 0) with [0; 0].
  match goal with |- foldl ?F _ _ = _ => assert (∀ l a b, foldl F [a; b] l =
    [foldl (λ o i, Z.lor o (Z.shiftl (b2z (hash_bits x0 x1 0 i)) (Z.of_nat i))) a l;
     foldl (λ o i, Z.lor o (Z.shiftl (b2z (hash_bits x0 x1 1 i)) (Z.of_nat i))) b l]) as E end; [|apply E].
  induction l as [|i l IH]; intros a b; cbn [foldl]; [done|]. destruct (Hrow i) as [H0 H1].
  rewrite <-IH, <-H0, <-H1. reflexivity.
Qed.
End final.

(** ** The response *)
Lemma key_if_land b x : is_word 20 x → Z.land x (allSame_u64 (u8 (- b2z b))) = key_if b x.
Proof.
  intros Hx. destruct b; cbn [key_if]; [|apply Z.land_0_r].
  change (allSame_u64 (u8 (- b2z true))) with (Z.ones 64). rewrite Z.land_ones by lia.
  apply Z.mod_small. unfold is_word in Hx. assert (2 ^ 20 ≤ 2 ^ 64) by (apply Z.pow_le_mono_r; lia). lia.
Qed.

Lemma bits20_key_if b g : key_if b (bits20 g) = bits20 (λ i, b && g i).
Proof. destruct b; cbn [key_if andb]; [done|]. symmetry. apply Z.bits_inj'. intros k Hk. rewrite bits20_spec, Z.bits_0 by done. by rewrite andb_false_r. Qed.

Lemma bits20_lxor g h : Z.lxor (bits20 g) (bits20 h) = bits20 (λ i, xorb (g i) (h i)).
Proof. apply Z.bits_inj'. intros k Hk. rewrite Z.lxor_spec, !bits20_spec by done. by destruct (k <? 20). Qed.

Lemma shared_spec u0 u1 d0 d1 D w0 w1 : is_word 20 u0 → is_word 20 u1 →
  D !!! 0%nat = u8 (- b2z d0) → D !!! 1%nat = u8 (- b2z d1) →
  sharedFunctionXorGF 2 [u0; u1] D (gfMods !!! 2%nat) [w0; w1]
    = [Z.lxor w0 (Z.lxor (key_if d0 u0) (key_if d1 u1));
       Z.lxor w1 (Z.lxor (Z.lxor (key_if d1 u0) (key_if d0 u1)) (key_if d1 u1))].
Proof.
  intros Hu0 Hu1 E0 E1. unfold sharedFunctionXorGF, poly_product. cbn [seq foldl Nat.mul Nat.add Nat.sub replicate].
  rewrite E0, E1. change ([u0; u1] !!! 0%nat) with u0. change ([u0; u1] !!! 1%nat) with u1.
  rewrite !key_if_land by done. cbn [insert list_insert lookup_total list_lookup_total].
  change (gfMods !!! 2%nat) with 7. unfold reduce_products. cbn [seq rev app foldl Nat.sub].
  change (Z.testbit 7 (Z.of_nat 1)) with true. change (Z.testbit 7 (Z.of_nat 0)) with true. cbn iota.
  cbn [insert list_insert lookup_total list_lookup_total imap compose]. by rewrite !Z.lxor_0_l.
Qed.

(** The hashes of the shares are shares of the hash. *)
Lemma final_shares K u v0 v1 d0 d1 D : D !!! 0%nat = u8 (- b2z d0) → D !!! 1%nat = u8 (- b2z d1) →
  sharedFunctionXorGF 2 (getFinalHashSubfield K u 2) D (gfMods !!! 2%nat)
    (getFinalHash K [Z.lxor v0 (key_if d0 u); Z.lxor v1 (key_if d1 u)] 2)
  = getFinalHash K [v0; v1] 2.
Proof.
  intros E0 E1. rewrite subfield_spec, !final_hash_spec, (shared_spec _ _ d0 d1) by (done || apply bits20_word).
  rewrite !bits20_key_if, !bits20_lxor. f_equal; [|f_equal]; apply bits20_ext; intros i _; unfold hash_bits;
    rewrite !key_par_lxor, !key_par_key_if;
    destruct d0, d1, (key_par K 0 i v0), (key_par K 1 i v0), (key_par K 0 i v1), (key_par K 1 i v1), (key_par K 0 i u),
      (key_par K 1 i u); reflexivity.
Qed.

Lemma pack_length l : length (pack_hash 2 l) = 5%nat.
Proof. unfold pack_hash. by rewrite le_bytes_length. Qed.

Lemma unpack_pack a b : is_word 20 a → is_word 20 b → unpack_hash 2 (le_val (pack_hash 2 [a; b])) = [a; b].
Proof.
  intros Ha Hb. unfold unpack_hash, pack_hash. change (finalHashRows 2) with 20%nat. change (bytesPerHash 2) with 5%nat.
  cbn [seq foldl map Nat.mul Nat.add]. change ([a; b] !!! 0%nat) with a. change ([a; b] !!! 1%nat) with b.
  set (x := u64 (Z.lor _ _)).
  assert (∀ k, 0 ≤ k → Z.testbit x k = (k <? 64) && (Z.testbit a k || Z.testbit b (k - 20))) as Hx.
  { intros k Hk. unfold x, u64. rewrite Z.testbit_mod_pow2, Z.lor_spec, Z.testbit_mod_pow2, Z.lor_spec, Z.bits_0, !Z.shiftl_spec by lia.
    rewrite Z.sub_0_r. destruct (k <? 64); [|done]. done. }
  assert (is_word (8 * Z.of_nat 5) x) as Hw.
  { apply is_word_bits; [lia|unfold x, u64; apply Z.mod_pos_bound; lia|]. intros k Hk. rewrite Hx by lia.
    by rewrite (is_word_high 20 a k Ha), (is_word_high 20 b (k - 20) Hb), andb_false_r by lia. }
  rewrite le_val_bytes by exact Hw. clearbody x. clear Hw.
  f_equal; [|f_equal]; apply Z.bits_inj'; intros k Hk; rewrite Z.land_spec, Z.shiftr_spec, Z.testbit_ones_nonneg, Hx by lia.
  all: change (Z.of_nat 20) with 20; change (Z.of_nat 0) with 0; rewrite ?Z.add_0_r.
  - destruct (Z.ltb_spec k 20) as [Hlt|Hge].
    + rewrite (Z.testbit_neg_r b) by lia. destruct (Z.ltb_spec k 64); [|lia]. by rewrite orb_false_r, andb_true_r.
    + by rewrite andb_false_r, (is_word_high 20 a k Ha) by lia.
  - replace (k + 20 - 20) with k by lia. rewrite (is_word_high 20 a (k + 20) Ha) by lia.
    destruct (Z.ltb_spec k 20) as [Hlt|Hge].
    + destruct (Z.ltb_spec (k + 20) 64); [|lia]. by rewrite andb_true_r.
    + by rewrite andb_false_r, (is_word_high 20 b k Hb) by lia.
Qed.

Lemma join_slice {A} (ls : list (list A)) n i : Forall (λ l, length l = n) ls → (i < length ls)%nat →
  take n (drop (n * i) (mjoin ls)) = ls !!! i.
Proof.
  intros Hls. revert i. induction Hls as [|l ls Hl _ IH]; cbn [length]; [lia|]. intros i Hi.
  change (mjoin (l :: ls)) with (l ++ mjoin ls). destruct i as [|i].
  - rewrite Nat.mul_0_r, drop_0, take_app_length' by done. done.
  - rewrite drop_app_ge by lia. replace (n * S i - length l)%nat with (n * i)%nat by lia. rewrite IH by lia. done.
Qed.
Lemma imap_map_seq {B C} (F : nat → B → C) (g : nat → B) n :
  imap F (map g (seq 0 n)) = map (λ i, F i (g i)) (seq 0 n).
Proof.
  apply list_eq. intros i. rewrite list_lookup_imap, !list_lookup_fmap.
  destruct (seq 0 n !! i) as [k|] eqn:E; [|done]. apply lookup_seq in E as [-> _]. done.
Qed.

Lemma shares_reduce n delta U V W i : arrays_rel n delta U V W → (i < n)%nat →
  reduceU64 clmul (ha_subtotal W !!! i)
    = Z.lxor (reduceU64 clmul (ha_subtotal V !!! i)) (key_if (delta !!! i) (reduceU64 clmul (ha_subtotal U !!! 0%nat))).
Proof. intros (_ & _ & _ & _ & _ & Ht) Hi. by rewrite Ht, reduceU64_lxor, reduceU64_key_if by done. Qed.

(** The packed hashes, and what the receiver of the response reads. *)
Section response.
Context (K : list Z) (u : Z) (v : nat → list Z) (n : nat).
Context (Hv : ∀ i, ∃ x y, v i = [x; y]).
Let packed : list (list Z) := map (pack_hash 2) (getFinalHashSubfield K u 2 :: map (λ i, getFinalHash K (v i) 2) (seq 0 n)).

Lemma packed_slice i : (i < S n)%nat → take 5 (drop (5 * i) (mjoin packed)) = packed !!! i.
Proof.
  intros Hi. apply join_slice.
  - apply Forall_map, Forall_forall. intros l _. apply pack_length.
  - unfold packed. rewrite length_map. cbn [length]. rewrite length_map, length_seq. done.
Qed.

Lemma packed_length : length (mjoin packed) = (5 * (1 + n))%nat.
Proof.
  rewrite (join_length _ 5).
  - unfold packed. rewrite length_map. cbn [length]. rewrite length_map, length_seq. lia.
  - unfold packed. intros l (l' & -> & _)%list_elem_of_fmap. apply pack_length.
Qed.

Lemma unpack_u : unpack_hash 2 (le_val (packed !!! 0%nat)) = getFinalHashSubfield K u 2.
Proof. unfold packed. cbn [map]. change (?a :: ?b !!! 0%nat) with a. rewrite subfield_spec. cbn [lookup_total list_lookup_total]. apply unpack_pack; apply bits20_word. Qed.

Lemma unpack_v i : (i < n)%nat → unpack_hash 2 (le_val (packed !!! S i)) = getFinalHash K (v i) 2.
Proof.
  intros Hi. change (packed !!! S i) with (map (pack_hash 2) (map (λ i, getFinalHash K (v i) 2) (seq 0 n)) !!! i).
  rewrite map_map, map_seq_lookup by done.
  destruct (Hv i) as (x & y & ->). rewrite final_hash_spec. apply unpack_pack; apply bits20_word.
Qed.
End response.

(** The check accepts the response. *)
Lemma check_rel delta s r : mal_rel delta s r → ms_fieldBits s = 2%nat →
  (∀ k, (k < ms_vSize s)%nat → vr_deltaUnpacked (sr_vole (mr_sub r)) !!! k = u8 (- b2z (delta !!! k))) →
  ∃ response s' r', ms_sendResponse clmul s = Ok (response, s') ∧ mr_checkResponse clmul r response = Ok r' ∧
    ms_sub s' = ms_sub s ∧ mr_sub r' = mr_sub r.
Proof.
  intros (Huh & (key & pos & Hp) & Hf & Hn & Hv & Ha) Hf2 Hdelta.
  destruct (get_u64s_at _ key pos 40 Hp) as (p' & Ek & _). set (K := stream_u64s key pos 40) in *.
  set (h := mkUHash p' (hashKey (ms_uh s)) (hashKeySqAndA64 (ms_uh s)) (hashKeyUseCount (ms_uh s))).
  assert (getFinalHashKey (ms_uh s) 2 = Ok (K, h)) as EK.
  { unfold getFinalHashKey. change (finalHashRows 2 * 2)%nat with 40%nat. by rewrite Ek. }
  pose proof (subtotal_rel _ _ _ _ _ Hv Ha) as Hr.
  set (U' := addSubtotalAfterRekey 1 (ms_U s)) in *. set (V' := addSubtotalAfterRekey (ms_vSize s) (ms_V s)) in *.
  set (W' := addSubtotalAfterRekey (ms_vSize s) (mr_W r)) in *.
  set (n := ms_numVoles s). set (u := reduceU64 clmul (ha_subtotal U' !!! 0%nat)).
  set (v := λ i, map (λ j, reduceU64 clmul (ha_subtotal V' !!! (i * 2 + j)%nat)) (seq 0 2)).
  set (response := mjoin (map (pack_hash 2) (getFinalHashSubfield K u 2 :: map (λ i, getFinalHash K (v i) 2) (seq 0 n)))).
  exists response. eexists. eexists. split.
  { unfold ms_sendResponse. rewrite Hf2, EK, bind_ok. reflexivity. }
  assert (mr_addSubtotal (mkMalReceiver (mr_sub r) h (mr_W r)) = mkMalReceiver (mr_sub r) h W') as EW.
  { unfold mr_addSubtotal, W', ms_vSize. rewrite Hf, Hn. done. }
  unfold mr_checkResponse. rewrite <-Huh, <-Hf, <-Hn, Hf2, EK, bind_ok, EW. cbn [mr_W mr_sub mr_uh].
  fold n. clearbody U' V' W' h K.
  assert (∀ i, ∃ x y, v i = [x; y]) as Hv2 by (intros; by eexists _, _).
  change (bytesPerHash 2) with 5%nat. unfold response. rewrite packed_length, Nat.eqb_refl. cbn [negb].
  assert (ms_vSize s = 2 * n)%nat as Hsz by (unfold ms_vSize; by rewrite Hf2).
  rewrite bool_decide_true; [split; [done|]; split; [reflexivity|done]|].
  rewrite imap_map_seq. apply map_ext_in. intros i Hi%in_seq. cbn [Nat.add].
  rewrite !packed_slice, unpack_v by (done || lia). unfold encode, encodeXor. rewrite map_lookup_total by (rewrite length_imap, length_replicate; lia).
  rewrite imap_lookup_total by (rewrite length_replicate; lia). rewrite lookup_total_replicate_2 by lia.
  nat_cases. rewrite Z.lxor_0_l, unpack_u. cbn [map seq].
  rewrite !(shares_reduce _ _ _ _ _ _ Hr) by lia. unfold v. cbn [map seq]. fold u.
  apply final_shares; rewrite drop_lookup_total, Hdelta by lia; do 3 f_equal; lia.
Qed.
End linear.
