(* ===== verification/SoftSpoken.v ===== *)
(** * The SoftSpoken OT extension

    [TwoOneMaliciousSender] and [TwoOneMaliciousReceiver]
    ([TwoChooseOne/SoftSpokenOT/TwoOneMalicious.h]) over [DotMaliciousLeaky.{h,cpp}],
    [DotSemiHonest.{h,cpp}], [TwoOneSemiHonest.h] and [Tools/Chunker.h] of libOTe, for
    [wSize() <= 256], where the arrays of the caller are the scratch memory.

    The parties work on chunks of 128 OTs.  The sender of the OTs is the receiver of the
    VOLE and the other way round. *)

From S2P Require Import Prelude Xor YaoKey Gf2n CryptoTools SmallField Pprf SubspaceVole.

(** [transpose128], in place, on the first 128 blocks. *)
Class Transpose128 := {
  transpose128 : list Z → list Z;
  transpose128_length x : length (transpose128 x) = length x;
  transpose128_rest x k : (128 ≤ k)%nat → transpose128 x !!! k = x !!! k;
  transpose128_word x r : (128 ≤ length x)%nat → (r < 128)%nat → is_word 128 (transpose128 x !!! r);
  transpose128_bit x r c : (128 ≤ length x)%nat → (r < 128)%nat → (c < 128)%nat →
    Z.testbit (transpose128 x !!! r) (Z.of_nat c) = Z.testbit (x !!! c) (Z.of_nat r);
}.

(** ** Keys of AES ([AESRekeyManager]) *)
Definition maxAESKeyUsage : Z := 1024.
Record AESRekeyManager := mkRekey { mAESs : AESStream; aesKeyUseCount : Z }.

Section softspoken.
Context `{OcAes}.

Definition useAES (m : AESRekeyManager) (n : Z) : (Z → Z) * AESRekeyManager :=
  let count := aesKeyUseCount m + n in
  let m := if maxAESKeyUsage <? count then mkRekey (as_next (mAESs m)) 0 else mkRekey (mAESs m) count in
  (as_get (mAESs m), m).

(** ** The hash with tweaks ([TwoOneRTCR]) *)
Definition word32 (x : Z) (i : Z) : Z := u32 (Z.shiftr x (32 * i)).
Definition of_words32 (w : Z → Z) : Z :=
  Z.lor (Z.lor (Z.lor (w 0) (Z.shiftl (w 1) 32)) (Z.shiftl (w 2) 64)) (Z.shiftl (w 3) 96).

(** [_mm_shuffle_epi32(x, 0b10010011)], [_mm_srai_epi32(_, 31)] and [_mm_slli_epi32(x, 1)] *)
Definition mul2 (x : Z) : Z :=
  let wordsRotated i := word32 x ((i + 3) mod 4) in
  let mask i := if i =? 0 then 135 else 1 in
  let output i := u32 (Z.shiftl (word32 x i) 1) in
  of_words32 (λ i, Z.lxor (output i) (if Z.testbit (wordsRotated i) 31 then mask i else 0)).

Record TwoOneRTCR := mkRTCR {
  rt_rekey : AESRekeyManager;
  hashKeys : list Z;
  tweak : Z;
  tweakMul : Z;
}.

Definition rtcr_new : TwoOneRTCR := mkRTCR (mkRekey (mkAESStream 0 [] 0) 0) (replicate 64 0) 0 0.

Definition rtcr_setKey (r : TwoOneRTCR) (hashKey seed : Z) : TwoOneRTCR :=
  let keys := <[0%nat := hashKey]> (hashKeys r) in
  let keys := foldl (λ keys i, <[S i := mul2 (keys !!! i)]> keys) keys (seq 0 63) in
  let keys := foldl (λ keys i, <[S i := Z.lxor (keys !!! S i) (keys !!! i)]> keys) keys (seq 0 63) in
  mkRTCR (mkRekey (as_setSeed seed) (aesKeyUseCount (rt_rekey r))) keys (tweak r) (tweakMul r).

Definition rtcr_useAES (r : TwoOneRTCR) (n : Z) : TwoOneRTCR :=
  mkRTCR (useAES (rt_rekey r) n).2 (hashKeys r) (tweak r) (tweakMul r).

(** [TwoOneRTCR<blocksPerTweak>::hashBlocks<numBlocks>] *)
Definition rtcr_hashBlocks (blocksPerTweak : nat) (r : TwoOneRTCR) (plaintext : list Z) : list Z * TwoOneRTCR :=
  let numBlocks := length plaintext in
  let n := (numBlocks / blocksPerTweak)%nat in
  let '(tmp, tweakMulLocal) := foldl (λ '(tmp, local) i,
      let tmp := foldl (λ tmp j,
        let idx := (numBlocks - 1 - (i * blocksPerTweak + j))%nat in
        <[idx := Z.lxor local (plaintext !!! idx)]> tmp) tmp (seq 0 blocksPerTweak) in
      (tmp, if (i <? n - 1)%nat
            then Z.lxor local (hashKeys r !!! Z.to_nat (log2floor (Z.lxor (Z.of_nat i) (Z.of_nat i + 1))))
            else local))
    (replicate numBlocks 0, tweakMul r) (seq 0 n) in
  let t := u64 (tweak r + Z.of_nat n) in
  let tm := Z.lxor tweakMulLocal (hashKeys r !!! Z.to_nat (log2floor (Z.lxor (u64 (t - 1)) t))) in
  (hashBlocks (as_get (mAESs (rt_rekey r))) tmp, mkRTCR (rt_rekey r) (hashKeys r) t tm).

(** Writes a list into an array. *)
Definition write_at (a : list Z) (i : nat) (x : list Z) : list Z := take i a ++ x ++ drop (i + length x) a.

(** [xorAndHashMessages]: [messagesOut] and [messagesIn] are one array or two. *)
Definition hash_pair_group (deltaBlock : Z) (same : bool) (count : nat) (st : list Z * list Z * TwoOneRTCR) (i : nat)
    : list Z * list Z * TwoOneRTCR :=
  let '(out, inp, enc) := st in
  let superBlk := mjoin (map (λ j, [inp !!! (i + j)%nat; Z.lxor (inp !!! (i + j)%nat) deltaBlock]) (seq 0 count)) in
  let '(x, enc) := rtcr_hashBlocks 2 enc superBlk in
  let out := write_at out (2 * i) x in
  (out, if same then out else inp, enc).

Definition xorAndHashMessages (numUsed : nat) (deltaBlock : Z) (same : bool) (out inp : list Z) (enc : TwoOneRTCR)
    : list Z * TwoOneRTCR :=
  let big := (superBlkSize / 2)%nat in
  let st := foldl (λ st k, hash_pair_group deltaBlock same big st (numUsed - big * (k + 1))%nat)
              (out, inp, enc) (seq 0 (numUsed / big)) in
  let remainingIters := (numUsed - big * (numUsed / big))%nat in
  let '(out, _, enc) := foldl (λ st j, hash_pair_group deltaBlock same 1 st (remainingIters - j - 1)%nat)
                          st (seq 0 remainingIters) in
  (out, enc).

(** The loops of [TwoOneMaliciousReceiver::Hasher::processChunk]: the memory of the input
    may be the one of the output, every block is written over itself. *)
Definition hash_part (count : nat) (st : list Z * TwoOneRTCR) (i : nat) : list Z * TwoOneRTCR :=
  let '(a, rtcr) := st in
  let '(x, rtcr) := rtcr_hashBlocks 1 rtcr (take count (drop i a)) in
  (write_at a i x, rtcr).

Definition hash_chunk (numUsed : nat) (a : list Z) (rtcr : TwoOneRTCR) : list Z * TwoOneRTCR :=
  let '(a, rtcr) := foldl (λ st k, hash_part superBlkSize st (numUsed - superBlkSize * (k + 1))%nat)
                      (a, rtcr) (seq 0 (numUsed / superBlkSize)) in
  let i := (numUsed - superBlkSize * (numUsed / superBlkSize))%nat in
  let half := (superBlkSize / 2)%nat in
  let '(a, rtcr, i) := if (half <=? i)%nat
                       then (hash_part half (a, rtcr) (i - half)%nat, (i - half)%nat) else (a, rtcr, i) in
  foldl (λ st j, hash_part 1 st (i - j - 1)%nat) (a, rtcr) (seq 0 i).

(** ** The state of the parties *)
Context (clmul : Z → Key → Key → Key).

Definition commSize : nat := commStepSize * superBlkSize.

Record OtSender := mkOtSender {
  os_vole : SubspaceVoleMaliciousReceiver;
  os_aes : AESRekeyManager;
  os_blockIdx : Z;
  os_rtcr : TwoOneRTCR;
}.

Record OtReceiver := mkOtReceiver {
  or_vole : SubspaceVoleMaliciousSender;
  or_aes : AESRekeyManager;
  or_blockIdx : Z;
  or_rtcr : TwoOneRTCR;
}.

(** [delta()] *)
Definition le_bits (l : list bool) : Z := foldr (λ b x, b2z b + 2 * x) 0 l.
Definition os_delta (s : OtSender) : Z := le_bits (take 128 (vr_delta (sr_vole (mr_sub (os_vole s))))).

(** ** Setting up: [setBaseOts] *)
Context `{Blake2}.
Definition gOtExtBaseOtCount : nat := 128.

Definition receiver_setBaseOts (fieldBits : nat) (prng : OcPRNG) (baseSendOts : list (Z * Z))
    : outcome (OtReceiver * (Z * list PprfMsg * option ConsistencyMsg) * OcPRNG) :=
  '(seed, prng) ← get_block prng;
  let numVoles := divCeil gOtExtBaseOtCount fieldBits in
  '(vole, msgs, check, prng) ← vole_sender_new fieldBits numVoles prng baseSendOts true;
  Ok (mkOtReceiver (ms_new (mkSubSender vole [])) (mkRekey (as_setSeed seed) 0) 0 rtcr_new, (seed, msgs, check), prng).

Definition sender_setBaseOts (fieldBits : nat) (raw : list Z) (baseRecvOts : list Z) (choices : list bool)
    (m : Z * list PprfMsg * option ConsistencyMsg) : outcome OtSender :=
  let '(seed, msgs, check) := m in
  let numVoles := divCeil gOtExtBaseOtCount fieldBits in
  vole ← vole_receiver_new fieldBits numVoles baseRecvOts choices true raw msgs check;
  Ok (mkOtSender (mr_new (mkSubReceiver vole [] 0)) (mkRekey (as_setSeed seed) 0) 0 rtcr_new).

(** ** The VOLE of a batch of chunks *)

(** [DotMaliciousLeakyReceiver::processChunk] under [ChunkedSender::runBatch]: the
    output chunks, and the messages sent. *)
Definition receiver_processChunk (r : OtReceiver) (choices : Z) : list Z * OtReceiver :=
  let blockIdx := or_blockIdx r in
  let '(aes, rekey) := useAES (or_aes r) (Z.of_nat (ms_numVoles (or_vole r))) in
  let '(V, sub) := ss_generateChosen (ms_sub (or_vole r)) blockIdx aes choices in
  (V, mkOtReceiver (mkMalSender sub (ms_uh (or_vole r)) (ms_U (or_vole r)) (ms_V (or_vole r)))
        rekey (u64 (blockIdx + 1)) (or_rtcr r)).

Definition or_flush (r : OtReceiver) (chl : list (list Z)) : list (list Z) * OtReceiver :=
  let '(chl, sub) := ss_send (ms_sub (or_vole r)) chl in
  (chl, mkOtReceiver (mkMalSender sub (ms_uh (or_vole r)) (ms_U (or_vole r)) (ms_V (or_vole r)))
          (or_aes r) (or_blockIdx r) (or_rtcr r)).

Definition receiver_step (numChunks : nat) (choices : list Z) (st : list (list Z) * list (list Z) * OtReceiver) (nChunk : nat)
    : list (list Z) * list (list Z) * OtReceiver :=
  let '(out, chl, r) := st in
  let '(V, r) := receiver_processChunk r (choices !!! nChunk) in
  let '(chl, r) := if (S nChunk <? numChunks)%nat && (S nChunk mod commSize =? 0)%nat
                   then or_flush r chl else (chl, r) in
  (out ++ [V], chl, r).

Definition receiver_runBatch (r : OtReceiver) (choices : list Z) : list (list Z) * list (list Z) * OtReceiver :=
  let numChunks := length choices in
  let '(out, chl, r) := foldl (receiver_step numChunks choices) ([], [], r) (seq 0 numChunks) in
  let '(chl, r) := or_flush r chl in
  (out, chl, r).

(** [DotMaliciousLeakySender::processChunk] under [ChunkedReceiver::runBatch]; [raw] is
    the memory after the messages. *)
Definition sender_processChunk (s : OtSender) : list Z * OtSender :=
  let blockIdx := os_blockIdx s in
  let '(aes, rekey) := useAES (os_aes s) (Z.of_nat (mr_numVoles (os_vole s))) in
  let '(W, sub) := sr_generateChosen (mr_sub (os_vole s)) blockIdx aes in
  (W, mkOtSender (mkMalReceiver sub (mr_uh (os_vole s)) (mr_W (os_vole s))) rekey (u64 (blockIdx + 1)) (os_rtcr s)).

Definition sender_step (raw : list Z) (numChunks : nat) (st : list (list Z) * list (list Z) * OtSender) (nChunk : nat)
    : outcome (list (list Z) * list (list Z) * OtSender) :=
  let '(out, chl, s) := st in
  '(chl, s) ← (if (nChunk mod commSize =? 0)%nat then
      '(sub, chl) ← sr_recv raw (mr_sub (os_vole s)) chl (Nat.min (numChunks - nChunk) commSize);
      Ok (chl, mkOtSender (mkMalReceiver sub (mr_uh (os_vole s)) (mr_W (os_vole s))) (os_aes s) (os_blockIdx s) (os_rtcr s))
    else Ok (chl, s));
  let '(W, s) := sender_processChunk s in
  Ok (out ++ [W], chl, s).

Definition sender_runBatch (raw : list Z) (s : OtSender) (numChunks : nat) (chl : list (list Z))
    : outcome (list (list Z) * list (list Z) * OtSender) :=
  foldM (sender_step raw numChunks) ([], chl, s) (seq 0 numChunks).

(** ** Choices *)
Definition choice_block (choices : list bool) (k : nat) : Z := le_bits (take 128 (drop (128 * k) choices)).

(** The last choices, with 64 random ones after them, as four words. *)
Definition extra_choices (choices : list bool) (sacrificialChoices : Z) : Z * Z :=
  let n := length choices in
  let messagesFullChunks := (n / 128)%nat in
  let bit := (n mod 128)%nat in
  let last := choice_block choices messagesFullChunks in
  let words := if (bit =? 0)%nat then [0; 0; 0; 0] else [lane_lo last; lane_hi last; 0; 0] in
  let bit64 := Z.of_nat (bit mod 64) in
  let word := (bit / 64)%nat in
  let mask := u64 (Z.shiftl 1 bit64) - 1 in
  let words := <[word := Z.land (words !!! word) mask]> words in
  let words := <[word := Z.lor (words !!! word) (u64 (Z.shiftl sacrificialChoices bit64))]> words in
  let words := <[(word + 1)%nat := Z.shiftr (Z.shiftr sacrificialChoices (63 - bit64)) 1]> words in
  (Z.lor (words !!! 0%nat) (Z.shiftl (words !!! 1%nat) 64), Z.lor (words !!! 2%nat) (Z.shiftl (words !!! 3%nat) 64)).

Definition num_chunks (n : nat) : nat := divCeil (n + 64) 128.

(** ** Hashing the chunks *)
Context `{Transpose128}.

(** [TwoOneMaliciousReceiver::Hasher::processChunk] on the chunk [V], for [numUsed]
    messages. *)
Definition receiver_hashChunk (numUsed : nat) (st : list Z * OtReceiver) (chunk : Z * list Z)
    : outcome (list Z * OtReceiver) :=
  let '(messages, r) := st in
  let '(choices, V) := chunk in
  vole ← ms_hash clmul (or_vole r) choices V;
  let V := transpose128 V in
  let rtcr := rtcr_useAES (or_rtcr r) (Z.of_nat numUsed) in
  let '(out, rtcr) := hash_chunk numUsed V rtcr in
  Ok (messages ++ take numUsed out, mkOtReceiver vole (or_aes r) (or_blockIdx r) rtcr).

(** [TwoOneMaliciousSender::Hasher::processChunk]: the pairs of a chunk are computed in
    its memory, [raw] fills the chunk up, or in a temporary array that starts as [raw]. *)
Definition sender_hashChunk (raw : list Z) (numUsed : nat) (same : bool) (st : list Z * OtSender) (W : list Z)
    : outcome (list Z * OtSender) :=
  let '(messages, s) := st in
  let rtcr := rtcr_useAES (os_rtcr s) 128 in
  vole ← mr_hash clmul (os_vole s) W;
  let W := transpose128 (W ++ take (256 - length W) raw) in
  let '(out, rtcr) := xorAndHashMessages numUsed (os_delta s) same (if same then W else take 256 raw) W rtcr in
  Ok (messages ++ take (2 * numUsed) out, mkOtSender vole (os_aes s) (os_blockIdx s) rtcr).

(** ** [receiveImpl] *)

(** Up to [recvChallenge]: the messages sent and what is kept. *)
Definition receive_first (r : OtReceiver) (choices : list bool) (prng : OcPRNG)
    : outcome (list (list Z) * (list (Z * list Z) * list (Z * list Z)) * OtReceiver * OcPRNG) :=
  let n := length choices in
  let full := (n / 128)%nat in
  let numExtra := (num_chunks n - full)%nat in
  let blocks := map (choice_block choices) (seq 0 full) in
  let '(V, chl, r) := receiver_runBatch r blocks in
  '(sacrificialChoices, prng) ← get_u64 prng;
  let '(e0, e1) := extra_choices choices sacrificialChoices in
  let extra := take numExtra [e0; e1] in
  let '(extraV, chl', r) := receiver_runBatch r extra in
  Ok (chl ++ chl', (zip blocks V, zip extra extraV), r, prng).

Definition receive_second (r : OtReceiver) (n : nat) (chunks : list (Z * list Z) * list (Z * list Z))
    (challenge hashKey seed : Z) : outcome (list Z * list Z * OtReceiver) :=
  let '(full_chunks, extra_chunks) := chunks in
  vole ← ms_recvChallenge clmul (or_vole r) challenge;
  let r := mkOtReceiver vole (or_aes r) (or_blockIdx r) (rtcr_setKey (or_rtcr r) hashKey seed) in
  '(messages, r) ← foldM (receiver_hashChunk 128) ([], r) full_chunks;
  '(messages, r) ← (if (n mod 128 =? 0)%nat then Ok (messages, r)
                    else receiver_hashChunk (n mod 128) (messages, r) (extra_chunks !!! 0%nat));
  let numExtra := (num_chunks n - n / 128)%nat in
  vole ← (if (numExtra =? 2)%nat || (n mod 128 =? 0)%nat
          then let '(choices, V) := extra_chunks !!! (numExtra - 1)%nat in ms_hash clmul (or_vole r) choices V
          else Ok (or_vole r));
  '(response, vole) ← ms_sendResponse clmul vole;
  Ok (messages, response, mkOtReceiver vole (or_aes r) (or_blockIdx r) (or_rtcr r)).

(** ** [sendImpl] *)
Definition send_first (raw : list Z) (s : OtSender) (n : nat) (chl : list (list Z)) (prng : OcPRNG)
    : outcome (list (list Z) * list (list Z) * (Z * Z * Z) * OtSender * OcPRNG) :=
  let full := (n / 128)%nat in
  let numExtra := (num_chunks n - full)%nat in
  '(W, chl, s) ← sender_runBatch raw s full chl;
  '(extraW, chl, s) ← sender_runBatch raw s numExtra chl;
  '(challenge, vole, prng) ← mr_sendChallenge clmul (os_vole s) prng;
  '(keyAndSeed, prng) ← get_block_array prng 2;
  let hashKey := keyAndSeed !!! 0%nat in
  let seed := keyAndSeed !!! 1%nat in
  Ok (W, extraW, (challenge, hashKey, seed),
      mkOtSender vole (os_aes s) (os_blockIdx s) (rtcr_setKey (os_rtcr s) hashKey seed), prng).

Definition send_second (raw : list Z) (s : OtSender) (n : nat) (W extraW : list (list Z)) (response : list Z)
    : outcome (list Z * OtSender) :=
  '(messages, s) ← foldM (sender_hashChunk raw 128 true) ([], s) W;
  '(messages, s) ← (if (n mod 128 =? 0)%nat then Ok (messages, s)
                    else sender_hashChunk raw (n mod 128) false (messages, s) (extraW !!! 0%nat));
  let numExtra := (num_chunks n - n / 128)%nat in
  vole ← (if (numExtra =? 2)%nat || (n mod 128 =? 0)%nat
          then mr_hash clmul (os_vole s) (extraW !!! (numExtra - 1)%nat) else Ok (os_vole s));
  vole ← mr_checkResponse clmul vole response;
  Ok (messages, mkOtSender vole (os_aes s) (os_blockIdx s) (os_rtcr s)).

(** ** A run of both parties

    From the messages of the base OTs to the outputs: the pairs of the sender and the
    messages of the receiver.  [seed_s] and [seed_r] are what [sysRandomSeed] gives. *)
Definition soft_spoken_ot (fieldBits : nat) (raw : list Z) (seed_s seed_r : Z) (base_s : list (Z * Z))
    (base_r : list Z) (base_choices choices : list bool) : outcome (list Z * list Z) :=
  prng_s ← oc_SetSeed oc_prng_new seed_s 256;
  prng_r ← oc_SetSeed oc_prng_new seed_r 256;
  '(r, m, prng_r) ← receiver_setBaseOts fieldBits prng_r base_s;
  s ← sender_setBaseOts fieldBits raw base_r base_choices m;
  '(chl, chunks, r, prng_r) ← receive_first r choices prng_r;
  '(W, extraW, (challenge, hashKey, seed), s, prng_s) ← send_first raw s (length choices) chl prng_s;
  '(received, response, r) ← receive_second r (length choices) chunks challenge hashKey seed;
  '(sent, s) ← send_second raw s (length choices) W extraW response;
  Ok (sent, received).
End softspoken.
