(* ===== verification/SoftBatch.v ===== *)
(** * Batches of chunks

    The parties of [SoftSpoken] run the same chunks: the receiver sends its corrections
    every [commSize] chunks, the sender reads them before the chunks that use them, and
    both end with shares of the choices times delta. *)

From S2P Require Import Prelude Xor YaoKey YaoGate Gf2n CryptoTools SmallField SmallFieldProps Pprf PprfProps SubspaceVole SubspaceProps SoftSpoken.

Lemma lookup_word l k : Forall (is_word 128) l → is_word 128 (l !!! k).
Proof.
  intros Hl. destruct (decide (k < length l)%nat) as [Hk|Hk].
  - by apply (Forall_lookup_total_1 _ l k).
  - rewrite list_lookup_total_alt, lookup_ge_None_2 by lia. unfold is_word. cbn. lia.
Qed.

Lemma xsum_word {A} (g : A → Z) l : (∀ c, is_word 128 (g c)) → is_word 128 (xsum g l).
Proof.
  intros Hg. unfold xsum. induction l as [|c l IH]; cbn [foldr]; [unfold is_word; lia|].
  apply is_word_lxor; [lia|apply Hg|apply IH].
Qed.

Section generate.
Context (aes : Z → Z) (Haes : ∀ x, is_word 128 (aes x)) (blockIdx : Z) (Hidx : is_word 128 blockIdx).

Lemma prg_word seed : is_word 128 seed → is_word 128 (prg aes blockIdx seed).
Proof. intros Hs. unfold prg. repeat (apply is_word_lxor; [lia| |]); done || apply Haes. Qed.

Lemma sender_u_word s v : (1 ≤ vs_fieldBits s ≤ 3)%nat →
  (sender_numVolesPadded (vs_fieldBits s) (vs_numVoles s) * 2 ^ vs_fieldBits s ≤ length (vs_seeds s))%nat →
  (v < vs_numVoles s)%nat → Forall (is_word 128) (vs_seeds s) → is_word 128 ((sender_generate s blockIdx aes).1 !!! v).
Proof.
  intros Hf Hl Hv Hs. destruct (sender_generate_spec aes blockIdx s v 0 Hf Hl Hv ltac:(lia)) as [-> _].
  unfold subset_sum. apply xsum_word. intros c. destruct (in_cell _ _); cbn [key_if]; [|unfold is_word; lia].
  apply lookup_word, Forall_map. eapply Forall_impl; [exact Hs|]. intros x Hx. by apply prg_word.
Qed.

Lemma divCeil_mul n d : (0 < d)%nat → (n ≤ divCeil n d * d)%nat.
Proof. apply (roundUpTo_le n d). Qed.

Lemma sender_generate_length s : (1 ≤ vs_fieldBits s ≤ 3)%nat →
  (vs_numVoles s ≤ length (sender_generate s blockIdx aes).1)%nat ∧
  (vs_fieldBits s * vs_numVoles s ≤ length (sender_generate s blockIdx aes).2)%nat.
Proof.
  intros Hf. unfold sender_generate, fieldSize. cbn [fst snd]. set (f := vs_fieldBits s) in *.
  set (vps := (superBlkSize / 2 ^ f)%nat).
  assert (0 < vps)%nat as Hpos by (by apply volePerSuperBlk_pos).
  pose proof (divCeil_mul (vs_numVoles s) vps Hpos) as Hn. rewrite !map_map. split.
  - erewrite grid_length by (intros; apply sender_superBlk_length). exact Hn.
  - erewrite grid_length by (intros; apply sender_superBlk_length). fold vps.
    rewrite Nat.mul_assoc, (Nat.mul_comm f). by apply Nat.mul_le_mono_r.
Qed.

Lemma receiver_generate_length r correction : (1 ≤ vr_fieldBits r ≤ 3)%nat →
  (vr_fieldBits r * vr_numVoles r ≤ length (receiver_generate r blockIdx aes correction))%nat.
Proof.
  intros Hf. unfold receiver_generate. set (f := vr_fieldBits r) in *.
  erewrite grid_length by (intros; apply receiver_superBlk_length).
  assert (0 < volePerSuperBlk f)%nat as Hpos by (clear - Hf; destruct (small_field f Hf) as [->|[->| ->]]; cbn; lia).
  rewrite Nat.mul_assoc, (Nat.mul_comm f). apply Nat.mul_le_mono_r. by apply divCeil_mul.
Qed.
End generate.

(** The invariant of a loop. *)
Lemma foldl_seq_inv {B} (P : nat → B → Prop) (f : B → nat → B) n b :
  P 0%nat b → (∀ k b, (k < n)%nat → P k b → P (S k) (f b k)) → P n (foldl f b (seq 0 n)).
Proof.
  intros H0. induction n as [|n IH]; intros Hs; [done|]. rewrite seq_S, foldl_app. cbn [foldl Nat.add].
  apply Hs; [lia|]. apply IH. intros. apply Hs; [lia|done].
Qed.

(** ** What the parties share before a batch *)
Section batch.
Context `{OcAes}.

Definition vole_s (r : OtReceiver) : SmallFieldVoleSender := ss_vole (ms_sub (or_vole r)).
Definition vole_r (s : OtSender) : SmallFieldVoleReceiver := sr_vole (mr_sub (os_vole s)).

Definition seeds_rel (delta : list bool) (vs : SmallFieldVoleSender) (vr : SmallFieldVoleReceiver) : Prop :=
  share_seeds vs vr ∧ vr_delta vr = delta ∧ (1 ≤ vs_fieldBits vs ≤ 3)%nat ∧ (1 ≤ vs_numVoles vs)%nat ∧
  Forall (is_word 128) (vs_seeds vs).

Definition batch_rel (delta : list bool) (r : OtReceiver) (s : OtSender) : Prop :=
  seeds_rel delta (vole_s r) (vole_r s) ∧ ss_messages (ms_sub (or_vole r)) = [] ∧
  or_aes r = os_aes s ∧ or_blockIdx r = os_blockIdx s ∧ is_word 64 (or_blockIdx r).

Lemma sender_eta s : s = mkOtSender (mkMalReceiver (mr_sub (os_vole s)) (mr_uh (os_vole s)) (mr_W (os_vole s)))
                           (os_aes s) (os_blockIdx s) (os_rtcr s).
Proof. by destruct s as [[]]. Qed.

Lemma commSize_pos : (0 < commSize)%nat.
Proof. unfold commSize. apply Nat.mul_pos_pos; [unfold commStepSize; lia|apply pow2_pos]. Qed.
#[local] Opaque commSize.

(** The keys and the counter of the chunk [k]. *)
Fixpoint aes_after (n : Z) (k : nat) (m : AESRekeyManager) : AESRekeyManager :=
  match k with O => m | S k => (useAES (aes_after n k m) n).2 end.
Definition aes_at (n : Z) (k : nat) (m : AESRekeyManager) : Z → Z := (useAES (aes_after n k m) n).1.
Definition idx_at (b : Z) (k : nat) : Z := u64 (b + Z.of_nat k).

Lemma aes_at_word n k m x : is_word 128 (aes_at n k m x).
Proof. apply enc_word. Qed.

Lemma idx_at_word b k : is_word 128 (idx_at b k).
Proof.
  unfold idx_at, u64, is_word. pose proof (Z.mod_pos_bound (b + Z.of_nat k) (2 ^ 64) ltac:(lia)).
  assert (2 ^ 64 ≤ 2 ^ 128) by (apply Z.pow_le_mono_r; lia). lia.
Qed.

Lemma idx_at_S b k : u64 (idx_at b k + 1) = idx_at b (S k).
Proof. unfold idx_at, u64. rewrite Zplus_mod_idemp_l. f_equal. lia. Qed.

Section one.
Context (vs : SmallFieldVoleSender) (m : AESRekeyManager) (b : Z) (choices : list Z).
Let n := vs_numVoles vs.
Let N := length choices.

Definition chunk_out (k : nat) : list Z * list Z := sender_generate vs (idx_at b k) (aes_at (Z.of_nat n) k m).
Definition chunk_corr (k : nat) : list Z := take n (encodeXor n (choices !!! k) (chunk_out k).1).

(** The message of the group [g]. *)
Definition corr_range (a k : nat) : list Z := mjoin (map chunk_corr (seq a k)).
Definition group (g : nat) : list Z := corr_range (g * commSize) (Nat.min commSize (N - g * commSize)).

Context (Hf : (1 ≤ vs_fieldBits vs ≤ 3)%nat) (Hn : (1 ≤ n)%nat).

Lemma chunk_corr_length k : length (chunk_corr k) = n.
Proof.
  unfold chunk_corr, encodeXor, chunk_out. rewrite length_take, length_imap.
  destruct (sender_generate_length (aes_at (Z.of_nat n) k m) (idx_at b k) vs Hf) as [E _]. fold n in E. lia.
Qed.

Lemma chunk_corr_lookup k v : (v < n)%nat → chunk_corr k !!! v = Z.lxor ((chunk_out k).1 !!! v) (choices !!! k).
Proof.
  intros Hv. unfold chunk_corr, encodeXor.
  destruct (sender_generate_length (aes_at (Z.of_nat n) k m) (idx_at b k) vs Hf) as [E _]. fold n in E.
  rewrite list_lookup_total_alt, lookup_take_lt, <-list_lookup_total_alt by done.
  rewrite imap_lookup_total by (unfold chunk_out; lia). by nat_cases.
Qed.

Lemma corr_range_S a k : corr_range a (S k) = corr_range a k ++ chunk_corr (a + k).
Proof. unfold corr_range. rewrite seq_S, map_app, join_app. cbn [map mjoin list_join]. by rewrite app_nil_r. Qed.

Lemma corr_range_length a k : length (corr_range a k) = (k * n)%nat.
Proof.
  unfold corr_range. rewrite (join_length _ n), length_map, length_seq; [done|].
  intros l (i & -> & _)%list_elem_of_fmap. apply chunk_corr_length.
Qed.

Lemma corr_range_lookup a k i v : (i < k)%nat → (v < n)%nat → corr_range a k !!! (i * n + v)%nat = chunk_corr (a + i) !!! v.
Proof.
  intros Hi Hv. unfold corr_range. rewrite (join_lookup_total _ n).
  - rewrite map_lookup_total by (rewrite length_seq; done). by rewrite lookup_total_seq_lt.
  - intros l (j & -> & _)%list_elem_of_fmap. apply chunk_corr_length.
  - by rewrite length_map, length_seq.
  - done.
Qed.

(** The state of the receiver after [k] chunks. *)
Definition receiver_inv (r0 : OtReceiver) (k : nat) (st : list (list Z) * list (list Z) * OtReceiver) : Prop :=
  ∃ q, (q * commSize ≤ k ≤ (q + 1) * commSize)%nat ∧ (k < N → k < (q + 1) * commSize)%nat ∧
    (k = 0 ∨ k < N ∨ q * commSize < k)%nat ∧
    st = (map (λ i, (chunk_out i).2) (seq 0 k), map group (seq 0 q),
          mkOtReceiver (mkMalSender (mkSubSender vs (corr_range (q * commSize) (k - q * commSize)))
                          (ms_uh (or_vole r0)) (ms_U (or_vole r0)) (ms_V (or_vole r0)))
            (aes_after (Z.of_nat n) k m) (idx_at b k) (or_rtcr r0)).

Lemma mult_step q k : (q * commSize ≤ k)%nat → (k < (q + 1) * commSize)%nat →
  (S k mod commSize = 0)%nat ↔ S k = ((q + 1) * commSize)%nat.
Proof.
  pose proof commSize_pos as HC. generalize dependent commSize. intros C HC H1 H2. split; intros E.
  - apply Nat.Div0.mod_divides in E as [d E]. assert (q < d ∧ d < q + 2)%nat as [? ?]; [|f_equal; replace d with (q + 1)%nat in E by lia; lia].
    split; apply Nat.nle_gt; intros Hle.
    + apply (Nat.mul_le_mono_l _ _ C) in Hle. lia.
    + apply (Nat.mul_le_mono_l _ _ C) in Hle. lia.
  - rewrite E. apply Nat.Div0.mod_mul.
Qed.

Lemma flush_group r0 q k : (q * commSize < k)%nat → (k = (q + 1) * commSize ∨ k = N)%nat →
  (k ≤ (q + 1) * commSize)%nat → (k ≤ N)%nat →
  or_flush (mkOtReceiver (mkMalSender (mkSubSender vs (corr_range (q * commSize) (k - q * commSize)))
              (ms_uh (or_vole r0)) (ms_U (or_vole r0)) (ms_V (or_vole r0)))
              (aes_after (Z.of_nat n) k m) (idx_at b k) (or_rtcr r0)) (map group (seq 0 q))
  = (map group (seq 0 (S q)),
     mkOtReceiver (mkMalSender (mkSubSender vs []) (ms_uh (or_vole r0)) (ms_U (or_vole r0)) (ms_V (or_vole r0)))
       (aes_after (Z.of_nat n) k m) (idx_at b k) (or_rtcr r0)).
Proof.
  intros H1 H2 H3 H4. unfold or_flush, ss_send. cbn [ms_sub or_vole ss_messages ss_vole].
  pose proof (corr_range_length (q * commSize) (k - q * commSize)) as Hl.
  assert (corr_range (q * commSize) (k - q * commSize) = group q) as E.
  { unfold group. f_equal. lia. }
  destruct (corr_range (q * commSize) (k - q * commSize)) as [|x l] eqn:E'.
  - exfalso. cbn [length] in Hl. destruct (k - q * commSize)%nat eqn:Ek; [lia|]. cbn in Hl. lia.
  - rewrite seq_S, map_app. cbn [map Nat.add]. by rewrite <-E.
Qed.

Lemma receiver_step_inv r0 k st : (k < N)%nat → receiver_inv r0 k st → receiver_inv r0 (S k) (receiver_step N choices st k).
Proof.
  intros Hk (q & [H1 H2] & H3 & _ & ->). specialize (H3 Hk). unfold receiver_step, receiver_processChunk, ms_numVoles.
  cbn [or_vole or_blockIdx or_aes ms_sub ss_vole ms_uh ms_U ms_V or_rtcr].
  fold n. destruct (useAES (aes_after (Z.of_nat n) k m) (Z.of_nat n)) as [aes rekey] eqn:Eu.
  assert (aes = aes_at (Z.of_nat n) k m) as -> by (unfold aes_at; by rewrite Eu).
  assert (rekey = aes_after (Z.of_nat n) (S k) m) as -> by (cbn [aes_after]; by rewrite Eu).
  unfold ss_generateChosen, ss_code. cbn [ss_vole ss_messages]. fold n.
  change (sender_generate vs (idx_at b k) (aes_at (Z.of_nat n) k m)) with (chunk_out k).
  destruct (chunk_out k) as [corr V] eqn:Ec.
  assert (take n (encodeXor n (choices !!! k) corr) = chunk_corr k) as -> by (unfold chunk_corr; by rewrite Ec).
  assert (corr_range (q * commSize) (k - q * commSize) ++ chunk_corr k = corr_range (q * commSize) (S k - q * commSize)) as ->.
  { replace (S k - q * commSize)%nat with (S (k - q * commSize)) by lia. rewrite corr_range_S.
    by replace (q * commSize + (k - q * commSize))%nat with k by lia. }
  assert (map (λ i, (chunk_out i).2) (seq 0 k) ++ [V] = map (λ i, (chunk_out i).2) (seq 0 (S k))) as ->.
  { rewrite seq_S, map_app. cbn [map Nat.add]. by rewrite Ec. }
  rewrite idx_at_S. pose proof (mult_step q k H1 H3) as Hm.
  destruct ((S k <? N)%nat && (S k mod commSize =? 0)%nat) eqn:E.
  - apply andb_true_iff in E as [HkN E]. apply Nat.ltb_lt in HkN. apply Nat.eqb_eq in E. apply Hm in E. clear Hm.
    rewrite flush_group by lia. exists (q + 1)%nat. rewrite Nat.add_1_r in *.
    split; [lia|]. split; [lia|]. split; [lia|]. replace (S k - S q * commSize)%nat with 0%nat by lia. done.
  - exists q. split; [lia|]. split; [|split; [lia|done]]. intros HkN. apply andb_false_iff in E as [E|E].
    + apply Nat.ltb_ge in E. lia.
    + apply Nat.eqb_neq in E. destruct (decide (S k = (q + 1) * commSize)%nat) as [E'|]; [|lia]. by apply Hm in E'.
Qed.

Lemma receiver_batch r0 : vole_s r0 = vs → ss_messages (ms_sub (or_vole r0)) = [] → or_aes r0 = m → or_blockIdx r0 = b → is_word 64 b →
  ∃ G, (N ≤ G * commSize)%nat ∧ (∀ g, (g < G)%nat → (g * commSize < N)%nat) ∧
    receiver_runBatch r0 choices =
      (map (λ i, (chunk_out i).2) (seq 0 N), map group (seq 0 G),
       mkOtReceiver (mkMalSender (mkSubSender vs []) (ms_uh (or_vole r0)) (ms_U (or_vole r0)) (ms_V (or_vole r0)))
         (aes_after (Z.of_nat n) N m) (idx_at b N) (or_rtcr r0)).
Proof.
  intros Hvs Hmsg Hm Hb Hbw. unfold receiver_runBatch. fold N.
  assert (receiver_inv r0 N (foldl (receiver_step N choices) ([], [], r0) (seq 0 N))) as (q & Hq & Hq1 & Hq2 & ->).
  { apply (foldl_seq_inv (receiver_inv r0)).
    - exists 0%nat. split; [lia|]. split; [pose proof commSize_pos; lia|]. split; [by left|].
      cbn [seq map aes_after Nat.mul]. f_equal. destruct r0 as [vole raes rb rt]. destruct vole as [sub uh U V].
      destruct sub as [vs' msg]. cbn in *. subst. unfold idx_at. rewrite Z.add_0_r, u64_word by done. done.
    - intros k st Hk Hinv. by apply receiver_step_inv. }
  destruct Hq2 as [HN|[HN|HN]]; [|lia|].
  - exists 0%nat. assert (q = 0)%nat as -> by (pose proof commSize_pos; destruct q; [done|nia]).
    split; [lia|]. split; [lia|]. rewrite HN. cbn [seq map Nat.mul Nat.sub].
    unfold or_flush, ss_send. cbn [ms_sub or_vole]. done.
  - exists (S q). split; [lia|]. split.
    + intros g Hg. assert (g * commSize ≤ q * commSize)%nat by (apply Nat.mul_le_mono_r; lia). lia.
    + by rewrite flush_group by lia.
Qed.

(** ** The sender *)
Section sender.
Context (delta : list bool) (vr : SmallFieldVoleReceiver) (Hrel : seeds_rel delta vs vr).
Context (Hchoices : ∀ i, (i < N)%nat → is_word 128 (choices !!! i)).
Context (s0 : OtSender) (raw : list Z) (G : nat) (rest : list (list Z)).
Context (HG : (N ≤ G * commSize)%nat) (HGN : ∀ g, (g < G)%nat → (g * commSize < N)%nat).

Definition sender_at (sub : SubspaceVoleReceiver) (k : nat) : OtSender :=
  mkOtSender (mkMalReceiver sub (mr_uh (os_vole s0)) (mr_W (os_vole s0)))
    (aes_after (Z.of_nat n) k m) (idx_at b k) (os_rtcr s0).

Definition chunk_shares (k : nat) (W : list Z) : Prop :=
  shares (vs_fieldBits vs * n) delta (choices !!! k) (chunk_out k).2 W.

Lemma group_lookup q k v : (q * commSize ≤ k)%nat → (k < (q + 1) * commSize)%nat → (k < N)%nat → (v < n)%nat →
  (n * (k - q * commSize) + v < length (group q))%nat ∧
  group q !!! (n * (k - q * commSize) + v)%nat = chunk_corr k !!! v.
Proof.
  intros H1 H2 H3 Hv. unfold group. rewrite corr_range_length.
  set (i := (k - q * commSize)%nat). assert (i < Nat.min commSize (N - q * commSize))%nat as Hi by lia.
  rewrite (Nat.mul_comm n). split; [by apply cell_lt|]. rewrite corr_range_lookup by done. f_equal. f_equal. lia.
Qed.

(** One chunk under the corrections of its group. *)
Lemma sender_chunk sub q k pad : sr_vole sub = vr → sr_messages sub = group q ++ pad →
  sr_readIndex sub = (n * (k - q * commSize))%nat → (q * commSize ≤ k)%nat → (k < (q + 1) * commSize)%nat → (k < N)%nat →
  ∃ W sub', sender_processChunk (sender_at sub k) = (W, sender_at sub' (S k)) ∧ chunk_shares k W ∧
    sr_vole sub' = vr ∧ sr_messages sub' = group q ++ pad ∧ sr_readIndex sub' = (n * (S k - q * commSize))%nat.
Proof.
  intros Hsub Hmsg Hidx H1 H2 H3. destruct Hrel as (Hshare & Hdelta & _ & _ & Hseeds).
  pose proof Hshare as (Hf' & Hn' & Hdl & _ & Hsl & _).
  unfold sender_processChunk, sender_at, mr_numVoles. cbn [os_vole os_blockIdx os_aes mr_sub mr_uh mr_W os_rtcr].
  rewrite Hsub, Hn'. fold n. destruct (useAES (aes_after (Z.of_nat n) k m) (Z.of_nat n)) as [aes rekey] eqn:Eu.
  assert (aes = aes_at (Z.of_nat n) k m) as -> by (unfold aes_at; by rewrite Eu).
  assert (rekey = aes_after (Z.of_nat n) (S k) m) as -> by (cbn [aes_after]; by rewrite Eu).
  unfold sr_generateChosen, sr_uSize, sr_uPadded. rewrite Hsub, Hn', Hf', Hmsg, Hidx. fold n. cbn zeta.
  set (correction := take _ _). eexists _, _. rewrite idx_at_S. split; [reflexivity|].
  cbn [sr_vole sr_messages sr_readIndex]. split; [|split; [done|split; [done|nia]]].
  assert (∀ v, (v < n)%nat → correction !!! v = Z.lxor ((chunk_out k).1 !!! v) (choices !!! k)) as Hcorr.
  { intros v Hv. unfold correction. assert (n ≤ receiver_numVolesPadded (vs_fieldBits vs) n)%nat as Hpad.
    { unfold receiver_numVolesPadded. etransitivity; [apply (roundUpTo_le n 4); lia|]. lia. }
    rewrite slice_lookup by lia. destruct (group_lookup q k v H1 H2 H3 Hv) as [Hlt E].
    rewrite lookup_total_app_l, E by done. by apply chunk_corr_lookup. }
  unfold chunk_shares, shares. destruct (sender_generate_length (aes_at (Z.of_nat n) k m) (idx_at b k) vs Hf) as [_ Hl1].
  pose proof (receiver_generate_length (aes_at (Z.of_nat n) k m) (idx_at b k) vr (Some correction)) as Hl2.
  rewrite Hf', Hn' in Hl2. split; [exact Hl1|]. split; [by apply Hl2|]. clear Hl1 Hl2.
  intros i Hi. pose proof (Nat.div_mod_eq i (vs_fieldBits vs)) as Ei.
  pose proof (Nat.mod_upper_bound i (vs_fieldBits vs) ltac:(lia)) as Hj.
  assert (i / vs_fieldBits vs < n)%nat as Hv by (apply Nat.Div0.div_lt_upper_bound; lia).
  set (v := (i / vs_fieldBits vs)%nat) in *. set (j := (i mod vs_fieldBits vs)%nat) in *.
  replace i with (v * vs_fieldBits vs + j)%nat by lia.
  rewrite (small_field_vole vs vr _ _ (Some correction) v j Hshare Hf Hv Hj).
  - rewrite Hdelta, (Hcorr v Hv). f_equal. f_equal. unfold chunk_out. set (x := _ !!! v). set (y := choices !!! k). z_xor_solve.
  - intros c [= <-]. rewrite (Hcorr v Hv). apply is_word_lxor; [lia| |by apply Hchoices].
    exact (sender_u_word _ (aes_at_word (Z.of_nat n) k m) _ (idx_at_word b k) vs v Hf Hsl Hv Hseeds).
Qed.

Definition sender_inv (k : nat) (st : list (list Z) * list (list Z) * OtSender) : Prop :=
  ∃ p W sub, st = (W, map group (seq p (G - p)) ++ rest, sender_at sub k) ∧ sr_vole sub = vr ∧ length W = k ∧
    (∀ i, (i < k)%nat → chunk_shares i (W !!! i)) ∧ (k ≤ p * commSize)%nat ∧ (p ≤ G)%nat ∧
    (∀ q, p = S q → q * commSize < k)%nat ∧
    ((k < p * commSize)%nat → ∃ q pad, p = S q ∧ sr_messages sub = group q ++ pad ∧ sr_readIndex sub = (n * (k - q * commSize))%nat).

Lemma sender_step_inv k st : (k < N)%nat → sender_inv k st → ∃ st', sender_step raw N st k = Ok st' ∧ sender_inv (S k) st'.
Proof.
  intros Hk (p & W & sub & -> & Hsub & HW & Hsh & Hkp & HpG & Hq & Hmsg). pose proof commSize_pos as HC.
  assert ((k mod commSize = 0)%nat ↔ k = (p * commSize)%nat) as Hmod.
  { destruct k as [|k']; [|destruct p as [|q]; [lia|]; specialize (Hq q eq_refl); rewrite (mult_step q) by lia; lia].
    rewrite Nat.Div0.mod_0_l. destruct p as [|q]; [done|]. specialize (Hq q eq_refl). lia. }
  assert (∃ q pad sub1, (let s := sender_at sub k in
    if (k mod commSize =? 0)%nat then
      '(sub, chl) ← sr_recv raw (mr_sub (os_vole s)) (map group (seq p (G - p)) ++ rest) (Nat.min (N - k) commSize);
      Ok (chl, mkOtSender (mkMalReceiver sub (mr_uh (os_vole s)) (mr_W (os_vole s))) (os_aes s) (os_blockIdx s) (os_rtcr s))
    else Ok (map group (seq p (G - p)) ++ rest, s))
    = Ok (map group (seq (S q) (G - S q)) ++ rest, sender_at sub1 k) ∧ sr_vole sub1 = vr ∧ sr_messages sub1 = group q ++ pad ∧
      sr_readIndex sub1 = (n * (k - q * commSize))%nat ∧ (q * commSize ≤ k < (q + 1) * commSize)%nat ∧ (S q ≤ G)%nat)
    as (q & pad & sub1 & E1 & Hs1 & Hm1 & Hi1 & Hk1 & HG1).
  { destruct (Nat.eqb_spec (k mod commSize) 0) as [E|E].
    - apply Hmod in E. assert (p < G)%nat as HpG' by (apply (Nat.mul_lt_mono_pos_r commSize); lia).
      exists p. eexists. eexists. unfold sr_recv. destruct (G - p)%nat as [|g] eqn:Eg; [lia|]. cbn [seq map app].
      cbn [sender_at os_vole mr_sub]. rewrite Hsub.
      assert (length (group p) = sr_code sub * Nat.min (N - k) commSize)%nat as El.
      { unfold group. rewrite corr_range_length. unfold sr_code. rewrite Hsub. destruct Hrel as ((_ & -> & _) & _). fold n. rewrite E, (Nat.min_comm (N - _)). apply Nat.mul_comm. }
      rewrite El, Nat.eqb_refl, bind_ok. cbn [mr_uh mr_W os_aes os_blockIdx os_rtcr].
      replace (G - S p)%nat with g by lia. split; [reflexivity|]. cbn [sr_vole sr_messages sr_readIndex]. rewrite E.
      split; [done|]. split; [done|]. split; [lia|]. lia.
    - assert (k < p * commSize)%nat as Hlt by (assert (k ≠ p * commSize)%nat by (by intros ->; apply E, Hmod); lia).
      destruct (Hmsg Hlt) as (q & pad & -> & Hm & Hi). exists q, pad, sub. specialize (Hq q eq_refl).
      split; [done|]. split; [done|]. split; [done|]. split; [done|]. split; [|done]. lia. }
  destruct (sender_chunk sub1 q k pad Hs1 Hm1 Hi1 (proj1 Hk1) (proj2 Hk1) Hk) as (Wk & sub2 & E2 & Hsh2 & Hs2 & Hm2 & Hi2).
  unfold sender_step. cbn zeta in E1. rewrite E1, bind_ok, E2. eexists. split; [reflexivity|].
  exists (S q), (W ++ [Wk]), sub2. split; [done|]. split; [done|]. rewrite length_app, HW. split; [cbn; lia|]. split.
  { intros i Hi. destruct (decide (i = k)) as [->|Hne].
    - by rewrite lookup_total_app_r, HW, Nat.sub_diag by lia.
    - rewrite lookup_total_app_l by lia. apply Hsh. lia. }
  split; [lia|]. split; [done|]. split; [intros ? [= <-]; lia|]. intros _. by exists q, pad.
Qed.

Lemma sender_batch : vole_r s0 = vr → os_aes s0 = m → os_blockIdx s0 = b → is_word 64 b →
  ∃ W sub, sender_runBatch raw s0 N (map group (seq 0 G) ++ rest) = Ok (W, rest, sender_at sub N) ∧
    sr_vole sub = vr ∧ length W = N ∧ ∀ i, (i < N)%nat → chunk_shares i (W !!! i).
Proof.
  intros Hvr Hm Hb Hbw. unfold sender_runBatch.
  destruct (foldM_inv sender_inv (sender_step raw N) (seq 0 N) ([], map group (seq 0 G) ++ rest, s0)) as (st & E & Hinv).
  - exists 0%nat, [], (mr_sub (os_vole s0)). split.
    + rewrite Nat.sub_0_r. f_equal. unfold sender_at, idx_at. cbn [aes_after].
      rewrite Z.add_0_r, u64_word, <-Hm, <-Hb by done. apply sender_eta.
    + split; [done|]. split; [done|]. split; [lia|]. split; [lia|]. split; [lia|]. split; [lia|]. lia.
  - intros k i st Hi%lookup_seq Hst. cbn [Nat.add] in Hi. destruct Hi as [-> Hi]. by apply sender_step_inv.
  - rewrite length_seq in Hinv. destruct Hinv as (p & W & sub & -> & Hs & HW & Hsh & Hkp & HpG & Hq & _). exists W, sub.
    rewrite E. assert (p = G) as ->.
    { destruct (decide (p = G)) as [|Hne]; [done|]. pose proof (HGN p ltac:(lia)). lia. }
    by rewrite Nat.sub_diag.
Qed.
End sender.
End one.

(** Both parties run a batch. *)
Lemma batch_shares delta r s choices raw : batch_rel delta r s → (∀ i, (i < length choices)%nat → is_word 128 (choices !!! i)) →
  let len := (vs_fieldBits (vole_s r) * vs_numVoles (vole_s r))%nat in
  ∃ V chl r', receiver_runBatch r choices = (V, chl, r') ∧ length V = length choices ∧
    vole_s r' = vole_s r ∧ ms_uh (or_vole r') = ms_uh (or_vole r) ∧ ms_U (or_vole r') = ms_U (or_vole r) ∧
    ms_V (or_vole r') = ms_V (or_vole r) ∧ or_rtcr r' = or_rtcr r ∧
    ∀ rest, ∃ W s', sender_runBatch raw s (length choices) (chl ++ rest) = Ok (W, rest, s') ∧ length W = length choices ∧
      batch_rel delta r' s' ∧ vole_r s' = vole_r s ∧ mr_uh (os_vole s') = mr_uh (os_vole s) ∧
      mr_W (os_vole s') = mr_W (os_vole s) ∧ os_rtcr s' = os_rtcr s ∧
      ∀ i, (i < length choices)%nat → shares len delta (choices !!! i) (V !!! i) (W !!! i).
Proof.
  intros (Hrel & Hmsg & Haes & Hidx & Hb) Hch len. pose proof Hrel as (_ & _ & Hf & Hn & _).
  destruct (receiver_batch (vole_s r) (or_aes r) (or_blockIdx r) choices Hf Hn r eq_refl Hmsg eq_refl eq_refl Hb)
    as (G & HG & HGN & ->).
  eexists _, _, _. split; [reflexivity|]. split; [by rewrite length_map, length_seq|].
  do 5 (split; [done|]). intros rest.
  destruct (sender_batch (vole_s r) (or_aes r) (or_blockIdx r) choices Hf Hn delta (vole_r s) Hrel Hch s raw G rest HG HGN
    eq_refl (eq_sym Haes) (eq_sym Hidx) Hb) as (W & sub & E & Hsub & HW & Hsh).
  exists W. eexists. split; [exact E|]. split; [done|]. split; [|do 4 (split; [done|]); intros i Hi].
  - unfold batch_rel, vole_r. cbn [sender_at os_vole mr_sub os_aes os_blockIdx]. rewrite Hsub.
    split; [exact Hrel|]. split; [done|]. split; [done|]. split; [done|]. unfold idx_at. apply is_word_mod. lia.
  - rewrite map_seq_lookup by done. by apply Hsh.
Qed.
End batch.
