(* ===== verification/SoftHash.v ===== *)
(** * The hash with tweaks

    The sender hashes pairs of blocks, the receiver single blocks, both from the last
    block of a chunk to the first and over the memory that they read: the blocks of the
    same OT get the same tweak. *)

From S2P Require Import Prelude Xor YaoKey YaoGate Gf2n CryptoTools SmallField SmallFieldProps SubspaceVole SoftSpoken SoftBatch.

Lemma foldl_same {A B} (f g : B → A → B) b l : (∀ b a, f b a = g b a) → foldl f b l = foldl g b l.
Proof. intros E. revert b. induction l as [|a l IH]; intros b; cbn [foldl]; [done|]. by rewrite E, IH. Qed.

(** ** Tweaks *)
Definition tweak_step (keys : list Z) (t : nat) : Z :=
  keys !!! Z.to_nat (log2floor (Z.lxor (u64 (Z.of_nat t)) (u64 (Z.of_nat (S t))))).

Fixpoint tweak_sum (keys : list Z) (t : nat) : Z :=
  match t with O => 0 | S t => Z.lxor (tweak_sum keys t) (tweak_step keys t) end.

Lemma lxor_low e a i j : 0 ≤ e → 0 ≤ i < 2 ^ e → 0 ≤ j < 2 ^ e → Z.lxor (a * 2 ^ e + i) (a * 2 ^ e + j) = Z.lxor i j.
Proof.
  intros He Hi Hj. assert (∀ x, 0 ≤ x < 2 ^ e → a * 2 ^ e + x = Z.lxor (Z.shiftl a e) x) as E.
  { intros x Hx. rewrite <-Z.shiftl_mul_pow2 by done. apply Z.add_nocarry_lxor. apply Z.bits_inj'. intros k Hk.
    rewrite Z.land_spec, Z.shiftl_spec, Z.bits_0 by done. destruct (Z.lt_ge_cases k e).
    - by rewrite Z.testbit_neg_r by lia.
    - rewrite (is_word_high e x k) by (done || lia). apply andb_false_r. }
  rewrite !E by done. set (s := Z.shiftl a e). z_xor_solve.
Qed.

Lemma u64_aligned (e : nat) a i : (e ≤ 3)%nat → 0 ≤ i < 2 ^ Z.of_nat e →
  u64 (a * 2 ^ Z.of_nat e + i) = (a mod 2 ^ (64 - Z.of_nat e)) * 2 ^ Z.of_nat e + i.
Proof.
  intros He Hi. unfold u64. set (p := 2 ^ Z.of_nat e) in *. set (q := 2 ^ (64 - Z.of_nat e)).
  assert (2 ^ 64 = q * p) as -> by (unfold p, q; rewrite <-Z.pow_add_r by lia; f_equal; lia).
  assert (0 < q) by (apply Z.pow_pos_nonneg; lia). pose proof (Z.mod_pos_bound a q ltac:(lia)).
  symmetry. apply (Z.mod_unique_pos _ _ (a / q)); [nia|]. pose proof (Z.div_mod a q ltac:(lia)). nia.
Qed.

(** Inside an aligned group the step depends on the position in the group alone. *)
Lemma step_aligned keys e a i : (e ≤ 3)%nat → (S i < 2 ^ e)%nat →
  tweak_step keys (a * 2 ^ e + i) = keys !!! Z.to_nat (log2floor (Z.lxor (Z.of_nat i) (Z.of_nat i + 1))).
Proof.
  intros He Hi. unfold tweak_step. rewrite <-Nat.add_succ_r, !Nat2Z.inj_add, !Nat2Z.inj_mul, Nat2Z.inj_pow. change (Z.of_nat 2) with 2.
  assert (0 ≤ Z.of_nat (S i) < 2 ^ Z.of_nat e) as Hz by (change 2 with (Z.of_nat 2); rewrite <-Nat2Z.inj_pow; lia).
  rewrite !u64_aligned by lia. rewrite lxor_low by lia. do 4 f_equal. lia.
Qed.

Section rtcr.
Context `{OcAes}.

Definition rtcr_at (r : TwoOneRTCR) (T : nat) : Prop :=
  tweak r = u64 (Z.of_nat T) ∧ tweakMul r = tweak_sum (hashKeys r) T.

Definition hashed (r : TwoOneRTCR) (t : nat) (x : Z) : Z :=
  let y := Z.lxor (tweak_sum (hashKeys r) t) x in Z.lxor (as_get (mAESs (rt_rekey r)) y) y.

Definition same_keys (r r' : TwoOneRTCR) : Prop := rt_rekey r' = rt_rekey r ∧ hashKeys r' = hashKeys r.

Lemma same_keys_hashed r r' t x : same_keys r r' → hashed r' t x = hashed r t x.
Proof. intros [E1 E2]. unfold hashed. by rewrite E1, E2. Qed.

Lemma rtcr_at_eq r r' r0 T : same_keys r0 r → same_keys r0 r' → rtcr_at r T → rtcr_at r' T → r = r'.
Proof.
  intros [E1 E2] [E3 E4] [E5 E6] [E7 E8]. destruct r, r'. cbn in *. congruence.
Qed.

Lemma write_row (g : nat → Z) (idx : nat → nat) (tmp : list Z) n k :
  (∀ j, (j < n)%nat → (idx j < length tmp)%nat) → (∀ i j, (i < n)%nat → (j < n)%nat → idx i = idx j → i = j) →
  length (foldl (λ tmp j, <[idx j := g j]> tmp) tmp (seq 0 n)) = length tmp ∧
  (∀ j, (j < n)%nat → foldl (λ tmp j, <[idx j := g j]> tmp) tmp (seq 0 n) !!! idx j = g j) ∧
  ((∀ j, (j < n)%nat → idx j ≠ k) → foldl (λ tmp j, <[idx j := g j]> tmp) tmp (seq 0 n) !!! k = tmp !!! k).
Proof.
  induction n as [|n IH]; intros Hi Hinj; [cbn; split; [done|]; split; [lia|done]|].
  rewrite seq_S, foldl_app. cbn [foldl Nat.add]. destruct IH as (H1 & H2 & H3); [intros; apply Hi; lia|intros; apply Hinj; lia|].
  rewrite length_insert. split; [done|]. split.
  - intros j Hj. destruct (decide (j = n)) as [->|Hne].
    + rewrite list_lookup_total_insert_eq; [done|]. rewrite H1. apply Hi. lia.
    + rewrite list_lookup_total_insert_ne; [apply H2; lia|]. intros E. apply Hne. symmetry. apply Hinj; [lia..|done].
  - intros Hk. rewrite list_lookup_total_insert_ne by (apply Hk; lia). apply H3. intros. apply Hk. lia.
Qed.

(** One call of [hashBlocks] on an aligned group of [2 ^ e] tweaks. *)
Section group.
Context (bpt e T : nat) (r : TwoOneRTCR) (plaintext : list Z).
Context (Hb : (0 < bpt)%nat) (He : (e ≤ 3)%nat) (HT : (T mod 2 ^ e = 0)%nat) (Hr : rtcr_at r T).
Context (Hlen : length plaintext = (2 ^ e * bpt)%nat).

Definition block_of (i j : nat) : nat := (length plaintext - 1 - (i * bpt + j))%nat.

Lemma cell_bound i j : (i < 2 ^ e)%nat → (j < bpt)%nat → (i * bpt + j < length plaintext)%nat.
Proof. intros. rewrite Hlen. by apply cell_lt. Qed.

Lemma cell_inj i i' j j' : (i < 2 ^ e)%nat → (j < bpt)%nat → (i' < 2 ^ e)%nat → (j' < bpt)%nat →
  block_of i j = block_of i' j' → i = i' ∧ j = j'.
Proof.
  intros Hi Hj Hi' Hj'. pose proof (cell_bound i j Hi Hj). pose proof (cell_bound i' j' Hi' Hj'). unfold block_of. intros E.
  assert (i * bpt + j = i' * bpt + j')%nat as E' by lia.
  assert (i = i') as ->; [|lia].
  assert ((i * bpt + j) / bpt = i)%nat as <- by (rewrite Nat.div_add_l, Nat.div_small by lia; lia).
  rewrite E', !Nat.div_add_l, !Nat.div_small by lia. lia.
Qed.

Definition group_inv (k : nat) (st : list Z * Z) : Prop :=
  st.2 = tweak_sum (hashKeys r) (T + Nat.min k (2 ^ e - 1)) ∧ length st.1 = length plaintext ∧
  ∀ i j, (i < k)%nat → (j < bpt)%nat → st.1 !!! block_of i j = Z.lxor (tweak_sum (hashKeys r) (T + i)) (plaintext !!! block_of i j).

Lemma rtcr_hashBlocks_spec : ∃ out r', rtcr_hashBlocks bpt r plaintext = (out, r') ∧ same_keys r r' ∧ rtcr_at r' (T + 2 ^ e) ∧
  length out = length plaintext ∧
  ∀ i j, (i < 2 ^ e)%nat → (j < bpt)%nat → out !!! block_of i j = hashed r (T + i) (plaintext !!! block_of i j).
Proof.
  unfold rtcr_hashBlocks. pose proof (pow2_pos e) as Hpos.
  assert (length plaintext / bpt = 2 ^ e)%nat as -> by (rewrite Hlen; apply Nat.div_mul; lia).
  match goal with |- context [foldl ?F ?b ?l] => assert (group_inv (2 ^ e) (foldl F b l)) as Hinv end.
  { apply (foldl_seq_inv group_inv).
    - destruct Hr as [_ E]. unfold group_inv. cbn [fst snd]. rewrite Nat.min_0_l, Nat.add_0_r. split; [done|].
      split; [apply length_replicate|lia].
    - intros k [tmp local] Hi (H1 & H2 & H3). cbn [Nat.add fst snd] in *.
      set (g := λ j, Z.lxor local (plaintext !!! block_of k j)).
      change (foldl _ tmp (seq 0 bpt)) with (foldl (λ tmp j, <[block_of k j := g j]> tmp) tmp (seq 0 bpt)).
      pose proof (λ k', write_row g (block_of k) tmp bpt k'
        ltac:(intros j Hj; rewrite H2; pose proof (cell_bound k j Hi Hj); unfold block_of; lia)
        ltac:(intros a b Ha Hb' E; by apply (cell_inj k k a b))) as Hrow.
      destruct (Hrow 0%nat) as (L & W & _). unfold group_inv. cbn [fst snd]. rewrite L. split; [|split; [done|]].
      + rewrite H1, Nat.min_l by lia. nat_cases.
        * rewrite Nat.min_l, Nat.add_succ_r by lia. cbn [tweak_sum]. f_equal.
          rewrite <-(step_aligned _ e (T / 2 ^ e)) by lia. f_equal.
          rewrite (Nat.div_mod_eq T (2 ^ e)) at 2. rewrite HT. lia.
        * rewrite Nat.min_r by lia. f_equal. lia.
      + intros i j Hik Hj. destruct (decide (i = k)) as [->|Hne].
        * rewrite W by done. unfold g. by rewrite H1, Nat.min_l by lia.
        * destruct (Hrow (block_of i j)) as (_ & _ & E). rewrite E; [apply H3; lia|]. clear E.
          intros j' Hj' E. apply Hne. by destruct (cell_inj k i j' j Hi Hj' ltac:(lia) Hj E). }
  destruct (foldl _ _ _) as [tmp local]. destruct Hinv as (H1 & H2 & H3). cbn [fst snd] in *.
  eexists _, _. split; [reflexivity|]. split; [done|]. split; [|split].
  - destruct Hr as [Et _]. split; cbn [tweak tweakMul hashKeys]; rewrite Et.
    + unfold u64. rewrite Zplus_mod_idemp_l. f_equal. lia.
    + rewrite H1, Nat.min_r by lia. replace (T + 2 ^ e)%nat with (S (T + (2 ^ e - 1))) by lia. cbn [tweak_sum]. f_equal.
      unfold tweak_step. do 4 f_equal.
      * unfold u64. rewrite Zminus_mod_idemp_l, <-Z.add_sub_assoc, Zplus_mod_idemp_l. f_equal. lia.
      * unfold u64. rewrite Zplus_mod_idemp_l. f_equal. lia.
  - unfold hashBlocks. by rewrite length_map.
  - intros i j Hi Hj. pose proof (cell_bound i j Hi Hj). unfold hashBlocks.
    rewrite map_lookup_total by (rewrite H2; unfold block_of; lia). rewrite H3 by done. done.
Qed.
End group.

(** ** The loops over a chunk *)
Lemma write_at_length a i x : (i + length x ≤ length a)%nat → length (write_at a i x) = length a.
Proof. intros. unfold write_at. rewrite !length_app, length_take, length_drop. lia. Qed.

Lemma write_at_in a i x k : (i + length x ≤ length a)%nat → (i ≤ k < i + length x)%nat → write_at a i x !!! k = x !!! (k - i)%nat.
Proof.
  intros. unfold write_at. rewrite lookup_total_app_r by (rewrite length_take; lia).
  rewrite lookup_total_app_l by (rewrite length_take; lia). f_equal. rewrite length_take. lia.
Qed.

Lemma write_at_out a i x k : (i + length x ≤ length a)%nat → (k < i ∨ i + length x ≤ k)%nat → write_at a i x !!! k = a !!! k.
Proof.
  intros Hl [Hk|Hk]; unfold write_at.
  - rewrite lookup_total_app_l by (rewrite length_take; lia). rewrite !list_lookup_total_alt, lookup_take_lt by done. done.
  - rewrite !lookup_total_app_r by (rewrite ?length_take; lia). rewrite drop_lookup_total. f_equal. rewrite length_take. lia.
Qed.

Section chunk.
Context (numUsed T : nat) (r : TwoOneRTCR) (X : list Z).

(** The tweak of the OT [p] of the chunk. *)
Definition tweak_of (p : nat) : nat := (T + (numUsed - 1 - p))%nat.

Definition hash_inv (i : nat) (st : list Z * TwoOneRTCR) : Prop :=
  same_keys r st.2 ∧ rtcr_at st.2 (T + (numUsed - i)) ∧ length st.1 = length X ∧
  (∀ p, (p < i)%nat → st.1 !!! p = X !!! p) ∧
  (∀ p, (i ≤ p < numUsed)%nat → st.1 !!! p = hashed r (tweak_of p) (X !!! p)).

Lemma hash_part_inv e i st : (e ≤ 3)%nat → (numUsed ≤ length X)%nat → (2 ^ e ≤ i ≤ numUsed)%nat →
  ((T + (numUsed - i)) mod 2 ^ e = 0)%nat → hash_inv i st → hash_inv (i - 2 ^ e) (hash_part (2 ^ e) st (i - 2 ^ e)).
Proof.
  intros He HX Hi Hmod (Hk & Hr & Hl & Hlow & Hhigh). destruct st as [a rt]. cbn [fst snd] in *. unfold hash_part.
  set (i' := (i - 2 ^ e)%nat) in *. set (x := take (2 ^ e) (drop i' a)).
  assert (length x = 2 ^ e * 1)%nat as Hx by (unfold x; rewrite slice_length; lia).
  destruct (rtcr_hashBlocks_spec 1 e (T + (numUsed - i)) rt x ltac:(lia) He Hmod Hr Hx) as (out & rt' & -> & Hk' & Hr' & Ho & Hs).
  rewrite Hx, Nat.mul_1_r in Ho. unfold hash_inv. cbn [fst snd]. split; [destruct Hk, Hk'; split; congruence|].
  split; [by replace (numUsed - i')%nat with (numUsed - i + 2 ^ e)%nat by lia; rewrite Nat.add_assoc|].
  split; [rewrite write_at_length; lia|]. split.
  - intros p Hp. rewrite write_at_out by lia. apply Hlow. lia.
  - intros p Hp. destruct (decide (p < i)%nat) as [Hpi|Hpi]; [|rewrite write_at_out by lia; apply Hhigh; lia].
    rewrite write_at_in by lia. specialize (Hs (i - 1 - p)%nat 0%nat ltac:(lia) ltac:(lia)). unfold block_of in Hs.
    rewrite Hx in Hs. replace (2 ^ e * 1 - 1 - ((i - 1 - p) * 1 + 0))%nat with (p - i')%nat in Hs by lia. rewrite Hs.
    rewrite (same_keys_hashed r) by done. unfold x. rewrite slice_lookup by lia.
    replace (i' + (p - i'))%nat with p by lia. rewrite Hlow by done. unfold tweak_of. f_equal. lia.
Qed.

(** A loop that goes down by groups. *)
Lemma parts_inv e i m : (e ≤ 3)%nat → (numUsed ≤ length X)%nat → (m * 2 ^ e ≤ i ≤ numUsed)%nat →
  ((T + (numUsed - i)) mod 2 ^ e = 0)%nat → ∀ st, hash_inv i st →
  hash_inv (i - m * 2 ^ e) (foldl (λ st k, hash_part (2 ^ e) st (i - 2 ^ e * (k + 1))%nat) st (seq 0 m)).
Proof.
  intros He HX Hi Hmod st Hst.
  apply (foldl_seq_inv (λ k, hash_inv (i - k * 2 ^ e))); [by rewrite Nat.mul_0_l, Nat.sub_0_r|].
  intros k st' Hk Hinv. assert ((k + 1) * 2 ^ e ≤ m * 2 ^ e)%nat by (apply Nat.mul_le_mono_r; lia).
  replace (i - S k * 2 ^ e)%nat with (i - k * 2 ^ e - 2 ^ e)%nat by lia.
  replace (i - 2 ^ e * (k + 1))%nat with (i - k * 2 ^ e - 2 ^ e)%nat by lia.
  apply hash_part_inv; [done|done|lia| |done].
  replace (T + (numUsed - (i - k * 2 ^ e)))%nat with (T + (numUsed - i) + k * 2 ^ e)%nat by lia.
  by rewrite Nat.Div0.mod_add.
Qed.

Lemma hash_chunk_spec : (numUsed ≤ length X)%nat → (T mod 8 = 0)%nat → rtcr_at r T →
  hash_inv 0 (hash_chunk numUsed X r).
Proof.
  intros HX HT Hr. unfold hash_chunk. change superBlkSize with (2 ^ 3)%nat. change (2 ^ 3 / 2)%nat with (2 ^ 2)%nat.
  pose proof (Nat.div_mod_eq numUsed (2 ^ 3)) as Hd. pose proof (Nat.mod_upper_bound numUsed (2 ^ 3) ltac:(cbn; lia)) as Hm.
  set (q := (numUsed / 2 ^ 3)%nat) in *. change (2 ^ 3)%nat with 8%nat in Hd, Hm.
  clearbody q.
  pose proof (parts_inv 3 numUsed q ltac:(lia) HX ltac:(change (2 ^ 3)%nat with 8%nat; lia)) as P1.
  rewrite Nat.sub_diag, Nat.add_0_r in P1. specialize (P1 HT (X, r)).
  assert (hash_inv numUsed (X, r)) as H0.
  { split; [done|]. cbn [fst snd]. rewrite Nat.sub_diag, Nat.add_0_r. split; [done|]. split; [done|]. split; [done|lia]. }
  specialize (P1 H0). clear H0. destruct (foldl _ _ _) as [a rt]. rewrite (Nat.mul_comm q) in P1.
  set (i := (numUsed - 2 ^ 3 * q)%nat) in *. assert (i < 8)%nat as Hi by (unfold i; change (2 ^ 3)%nat with 8%nat; lia).
  assert (∀ m st, (m ≤ numUsed)%nat → hash_inv m st → hash_inv 0 (foldl (λ st j, hash_part 1 st (m - j - 1)%nat) st (seq 0 m))) as Hsingles.
  { intros m st Hm' Hst. pose proof (parts_inv 0 m m ltac:(lia) HX ltac:(cbn; lia) (Nat.mod_1_r _) st Hst) as P.
    replace (m - m * 2 ^ 0)%nat with 0%nat in P by (cbn; lia). change (2 ^ 0)%nat with 1%nat in P.
    rewrite (foldl_same _ (λ st k, hash_part 1 st (m - 1 * (k + 1))%nat)); [exact P|]. intros st' j. f_equal. lia. }
  destruct (Nat.leb_spec (2 ^ 2) i) as [Hle|Hlt].
  - pose proof (hash_part_inv 2 i (a, rt) ltac:(lia) HX ltac:(lia)) as P2.
    destruct (hash_part (2 ^ 2) (a, rt) (i - 2 ^ 2)) as [a' rt']. apply Hsingles; [lia|]. apply P2; [|done].
    replace (T + (numUsed - i))%nat with (T + q * 2 * 2 ^ 2)%nat by (unfold i; cbn; lia).
    rewrite Nat.Div0.mod_add. rewrite (Nat.div_mod_eq T 8), HT. change (2 ^ 2)%nat with 4%nat.
    replace (8 * (T / 8) + 0)%nat with (T / 8 * 2 * 4)%nat by lia. apply Nat.Div0.mod_mul.
  - apply Hsingles; [lia|done].
Qed.
End chunk.

(** ** The pairs of the sender *)
Section pairs.
Context (numUsed T : nat) (r : TwoOneRTCR) (X : list Z) (deltaBlock : Z) (same : bool).

Definition pair_inv (i : nat) (st : list Z * list Z * TwoOneRTCR) : Prop :=
  let '(out, inp, enc) := st in
  same_keys r enc ∧ rtcr_at enc (T + (numUsed - i)) ∧ (2 * numUsed ≤ length out)%nat ∧
  (∀ p, (p < i)%nat → inp !!! p = X !!! p) ∧ (same = true → inp = out) ∧
  (∀ p, (i ≤ p < numUsed)%nat → out !!! (2 * p)%nat = hashed r (tweak_of numUsed T p) (X !!! p) ∧
     out !!! (2 * p + 1)%nat = hashed r (tweak_of numUsed T p) (Z.lxor (X !!! p) deltaBlock)).

Lemma hash_pairs_inv e i st : (e ≤ 3)%nat → (2 ^ e ≤ i ≤ numUsed)%nat → ((T + (numUsed - i)) mod 2 ^ e = 0)%nat →
  pair_inv i st → pair_inv (i - 2 ^ e) (hash_pair_group deltaBlock same (2 ^ e) st (i - 2 ^ e)).
Proof.
  intros He Hi Hmod. destruct st as [[out inp] enc]. intros (Hk & Hr & Hl & Hlow & Hsame & Hhigh). unfold hash_pair_group.
  set (i' := (i - 2 ^ e)%nat) in *. set (row := λ j, [inp !!! (i' + j)%nat; Z.lxor (inp !!! (i' + j)%nat) deltaBlock]).
  set (x := mjoin (map row (seq 0 (2 ^ e)))).
  assert (length x = 2 ^ e * 2)%nat as Hx by (unfold x; by apply grid_length).
  destruct (rtcr_hashBlocks_spec 2 e (T + (numUsed - i)) enc x ltac:(lia) He Hmod Hr Hx) as (y & enc' & -> & Hk' & Hr' & Hy & Hs).
  rewrite Hx in Hy. split; [destruct Hk, Hk'; split; congruence|].
  split; [by replace (numUsed - i')%nat with (numUsed - i + 2 ^ e)%nat by lia; rewrite Nat.add_assoc|].
  split; [rewrite write_at_length; lia|]. split; [|split].
  - intros p Hp. destruct same; [|apply Hlow; lia]. rewrite write_at_out by lia. rewrite <-Hsame by done. apply Hlow. lia.
  - by intros ->.
  - intros p Hp. destruct (decide (p < i)%nat) as [Hpi|Hpi]; [|rewrite !write_at_out by lia; apply Hhigh; lia].
    assert (∀ h, (h < 2)%nat → write_at out (2 * i') y !!! (2 * p + h)%nat
              = hashed r (tweak_of numUsed T p) (row (p - i')%nat !!! h)) as E.
    { intros h Hh. rewrite write_at_in by lia. specialize (Hs (i - 1 - p)%nat (1 - h)%nat ltac:(lia) ltac:(lia)).
      unfold block_of in Hs. rewrite Hx in Hs.
      replace (2 ^ e * 2 - 1 - ((i - 1 - p) * 2 + (1 - h)))%nat with ((p - i') * 2 + h)%nat in Hs by lia.
      replace (2 * p + h - 2 * i')%nat with ((p - i') * 2 + h)%nat by lia. rewrite Hs, (same_keys_hashed r) by done.
      unfold x. rewrite (grid_lookup row _ 2) by (done || lia). unfold tweak_of. f_equal. lia. }
    assert (row (p - i')%nat = [X !!! p; Z.lxor (X !!! p) deltaBlock]) as Er.
    { unfold row. replace (i' + (p - i'))%nat with p by lia. by rewrite Hlow. }
    pose proof (E 0%nat ltac:(lia)) as E0. pose proof (E 1%nat ltac:(lia)) as E1. rewrite Nat.add_0_r in E0. rewrite Er in E0, E1.
    by split.
Qed.

Lemma pairs_inv e i m : (e ≤ 3)%nat → (m * 2 ^ e ≤ i ≤ numUsed)%nat → ((T + (numUsed - i)) mod 2 ^ e = 0)%nat →
  ∀ st, pair_inv i st →
  pair_inv (i - m * 2 ^ e) (foldl (λ st k, hash_pair_group deltaBlock same (2 ^ e) st (i - 2 ^ e * (k + 1))%nat) st (seq 0 m)).
Proof.
  intros He Hi Hmod st Hst. apply (foldl_seq_inv (λ k, pair_inv (i - k * 2 ^ e))); [by rewrite Nat.mul_0_l, Nat.sub_0_r|].
  intros k st' Hk Hinv. assert ((k + 1) * 2 ^ e ≤ m * 2 ^ e)%nat by (apply Nat.mul_le_mono_r; lia).
  replace (i - S k * 2 ^ e)%nat with (i - k * 2 ^ e - 2 ^ e)%nat by lia.
  replace (i - 2 ^ e * (k + 1))%nat with (i - k * 2 ^ e - 2 ^ e)%nat by lia.
  apply hash_pairs_inv; [done|lia| |done].
  replace (T + (numUsed - (i - k * 2 ^ e)))%nat with (T + (numUsed - i) + k * 2 ^ e)%nat by lia. by rewrite Nat.Div0.mod_add.
Qed.

Lemma xorAndHash_spec out : (2 * numUsed ≤ length out)%nat → (same = true → X = out) → (T mod 8 = 0)%nat → rtcr_at r T →
  ∃ out' inp enc, xorAndHashMessages numUsed deltaBlock same out X r = (out', enc) ∧ pair_inv 0 (out', inp, enc).
Proof.
  intros Hout Hsame HT Hr. unfold xorAndHashMessages. change (superBlkSize / 2)%nat with (2 ^ 2)%nat.
  pose proof (Nat.div_mod_eq numUsed (2 ^ 2)) as Hd. set (q := (numUsed / 2 ^ 2)%nat) in *. change (2 ^ 2)%nat with 4%nat in Hd. clearbody q.
  assert (T mod 2 ^ 2 = 0)%nat as HT4.
  { rewrite (Nat.div_mod_eq T 8), HT. change (2 ^ 2)%nat with 4%nat.
    replace (8 * (T / 8) + 0)%nat with (T / 8 * 2 * 4)%nat by lia. apply Nat.Div0.mod_mul. }
  pose proof (pairs_inv 2 numUsed q ltac:(lia) ltac:(change (2 ^ 2)%nat with 4%nat; lia)) as P1.
  rewrite Nat.sub_diag, Nat.add_0_r in P1. specialize (P1 HT4 (out, X, r)).
  assert (pair_inv numUsed (out, X, r)) as H0.
  { split; [done|]. rewrite Nat.sub_diag, Nat.add_0_r. split; [done|]. split; [done|]. split; [done|]. split; [done|lia]. }
  specialize (P1 H0). clear H0. set (st := foldl _ _ _) in *. rewrite (Nat.mul_comm q) in P1.
  set (m := (numUsed - 2 ^ 2 * q)%nat) in *.
  pose proof (pairs_inv 0 m m ltac:(lia) ltac:(cbn; lia) (Nat.mod_1_r _) st P1) as P.
  replace (m - m * 2 ^ 0)%nat with 0%nat in P by (cbn; lia). change (2 ^ 0)%nat with 1%nat in P.
  rewrite (foldl_same _ (λ st k, hash_pair_group deltaBlock same 1 st (m - 1 * (k + 1))%nat)) by (intros; f_equal; lia).
  destruct (foldl _ st _) as [[out' inp'] enc']. by exists out', inp', enc'.
Qed.
End pairs.
End rtcr.
