(* ===== verification/OtTranspose.v ===== *)
(** * The transposition of libOTe

    [sse_transpose128] with [sse_loadSubSquare] and [sse_transposeSubSquare]
    ([Tools/Tools.cpp]), which swaps squares of 16 by 16 bits over the diagonal: an
    implementation of what [SoftSpoken] needs of [transpose128]. *)

From S2P Require Import Prelude Xor YaoKey Square128 CryptoTools SmallField SmallFieldProps Pprf SubspaceVole SoftSpoken SoftBatch.

(** ** The code: a register is the list of its octets. *)
Definition sse_loadSubSquare (inp : list Z) (x y : nat) : list Z * list Z :=
  (map (λ l, le_bytes 16 (inp !!! (16 * x + l)%nat) !!! (2 * y)%nat) (seq 0 16),
   map (λ l, le_bytes 16 (inp !!! (16 * x + l)%nat) !!! (2 * y + 1)%nat) (seq 0 16)).

(** [outU16View[row][y] = v] *)
Definition set_u16 (row : Z) (y : nat) (v : Z) : Z :=
  Z.lor (Z.ldiff (row mod 2 ^ 128) (Z.shiftl 0xFFFF (16 * Z.of_nat y))) (Z.shiftl v (16 * Z.of_nat y)).

Definition store_step (x y : nat) (st : list Z * (list Z * list Z)) (j : nat) : list Z * (list Z * list Z) :=
  let '(out, (in0, in1)) := st in
  let out := <[(16 * x + 7 - j)%nat := set_u16 (out !!! (16 * x + 7 - j)%nat) y (movemask in0)]> out in
  let out := <[(16 * x + 15 - j)%nat := set_u16 (out !!! (16 * x + 15 - j)%nat) y (movemask in1)]> out in
  (out, (slli1 in0, slli1 in1)).

Definition sse_transposeSubSquare (out : list Z) (inp : list Z * list Z) (x y : nat) : list Z :=
  (foldl (store_step x y) (out, inp) (seq 0 8)).1.

Definition swap_squares (j : nat) (inOut : list Z) (k : nat) : list Z :=
  let a := sse_loadSubSquare inOut k j in
  let b := sse_loadSubSquare inOut j k in
  let inOut := sse_transposeSubSquare inOut a j k in
  sse_transposeSubSquare inOut b k j.

Definition sse_transpose128 (inOut : list Z) : list Z :=
  foldl (λ inOut j,
      let a := sse_loadSubSquare inOut j j in
      let inOut := sse_transposeSubSquare inOut a j j in
      foldl (swap_squares j) inOut (seq 0 j))
    inOut (seq 0 8).

(** ** Squares *)
Lemma set_u16_bit row y v i : is_word 16 v → 0 ≤ i < 128 →
  Z.testbit (set_u16 row y v) i
    = if (16 * Z.of_nat y <=? i) && (i <? 16 * Z.of_nat y + 16) then Z.testbit v (i - 16 * Z.of_nat y) else Z.testbit row i.
Proof.
  intros Hv Hi. unfold set_u16. rewrite Z.lor_spec, Z.ldiff_spec, !Z.shiftl_spec, Z.mod_pow2_bits_low by lia.
  change 0xFFFF with (Z.ones 16). set (k := 16 * Z.of_nat y).
  destruct (Z.leb_spec k i) as [H1|H1], (Z.ltb_spec i (k + 16)) as [H2|H2]; try lia; cbn [andb].
  - rewrite Z.ones_spec_low by lia. cbn [negb]. by rewrite andb_false_r.
  - rewrite Z.ones_spec_high, (is_word_high 16 v) by (done || lia). cbn [negb]. by rewrite andb_true_r, orb_false_r.
  - rewrite (Z.testbit_neg_r (Z.ones 16)), (Z.testbit_neg_r v) by lia. cbn [negb]. by rewrite andb_true_r, orb_false_r.
Qed.

Lemma set_u16_word row y v : is_word 16 v → (y < 8)%nat → is_word 128 (set_u16 row y v).
Proof.
  intros Hv Hy. unfold set_u16. pose proof (is_word_mod 128 row ltac:(lia)) as Hr. apply is_word_bits; [lia| |].
  - apply Z.lor_nonneg. split; [apply Z.ldiff_nonneg; left; apply Hr|apply Z.shiftl_nonneg, Hv].
  - intros i Hi. rewrite Z.lor_spec, Z.ldiff_spec, !Z.shiftl_spec by lia.
    by rewrite (is_word_high 128 _ i Hr), (is_word_high 16 v) by (done || lia).
Qed.

Definition store_inv (x y : nat) (out in0 in1 : list Z) (j : nat) (st : list Z * (list Z * list Z)) : Prop :=
  st.2 = (Nat.iter j slli1 in0, Nat.iter j slli1 in1) ∧ length st.1 = length out ∧
  ∀ r, st.1 !!! r =
    if (16 * x + 8 - j <=? r)%nat && (r <? 16 * x + 8)%nat then set_u16 (out !!! r) y (masks in0 (16 * x + 7 - r))
    else if (16 * x + 16 - j <=? r)%nat && (r <? 16 * x + 16)%nat then set_u16 (out !!! r) y (masks in1 (16 * x + 15 - r))
    else out !!! r.

Lemma store_step_inv x y out in0 in1 j st : (16 * x + 16 ≤ length out)%nat → (j < 8)%nat →
  store_inv x y out in0 in1 j st → store_inv x y out in0 in1 (S j) (store_step x y st j).
Proof.
  intros Hl Hj. destruct st as [o [a b]]. intros ([= -> ->] & Ho & Hr). unfold store_step, store_inv. cbn [fst snd] in *.
  rewrite !length_insert. split; [done|]. split; [done|]. intros r.
  destruct (decide (r = 16 * x + 15 - j)%nat) as [->|N1].
  - rewrite list_lookup_total_insert_eq by (rewrite length_insert; lia).
    rewrite list_lookup_total_insert_ne, Hr by lia. nat_cases. by replace (16 * x + 15 - (16 * x + 15 - j))%nat with j by lia.
  - rewrite list_lookup_total_insert_ne by lia. destruct (decide (r = 16 * x + 7 - j)%nat) as [->|N2].
    + rewrite list_lookup_total_insert_eq by lia. rewrite Hr. nat_cases.
      by replace (16 * x + 7 - (16 * x + 7 - j))%nat with j by lia.
    + rewrite list_lookup_total_insert_ne, Hr by lia. nat_cases; done.
Qed.

Lemma store_spec x y out in0 in1 : (16 * x + 16 ≤ length out)%nat →
  length (sse_transposeSubSquare out (in0, in1) x y) = length out ∧
  ∀ r, sse_transposeSubSquare out (in0, in1) x y !!! r =
    if (16 * x <=? r)%nat && (r <? 16 * x + 8)%nat then set_u16 (out !!! r) y (masks in0 (16 * x + 7 - r))
    else if (16 * x + 8 <=? r)%nat && (r <? 16 * x + 16)%nat then set_u16 (out !!! r) y (masks in1 (16 * x + 15 - r))
    else out !!! r.
Proof.
  intros Hl. unfold sse_transposeSubSquare.
  assert (store_inv x y out in0 in1 8 (foldl (store_step x y) (out, (in0, in1)) (seq 0 8))) as (_ & H1 & H2).
  - apply (foldl_seq_inv (store_inv x y out in0 in1)).
    + split; [done|]. split; [done|]. intros r. nat_cases; done.
    + intros k st Hk Hst. by apply store_step_inv.
  - split; [done|]. intros r. rewrite H2. replace (16 * x + 8 - 8)%nat with (16 * x)%nat by lia.
    by replace (16 * x + 16 - 8)%nat with (16 * x + 8)%nat by lia.
Qed.

Lemma loaded_lanes (inp : list Z) x q : lanes 2 (map (λ l, le_bytes 16 (inp !!! (16 * x + l)%nat) !!! q) (seq 0 16)).
Proof.
  split; [by rewrite length_map|]. apply Forall_map, Forall_forall. intros l _. unfold compose. cbv beta.
  destruct (decide (q < 16)%nat) as [Hq|Hq].
  - apply Forall_lookup_total_1; [apply le_bytes_u8|by rewrite le_bytes_length].
  - rewrite list_lookup_total_alt, lookup_ge_None_2 by (rewrite le_bytes_length; lia). unfold is_u8. cbn. lia.
Qed.

(** The mask of a column of a loaded square. *)
Lemma loaded_mask (inp : list Z) y q j i : (q < 16)%nat → (j < 8)%nat → (i < 16)%nat →
  Z.testbit (masks (map (λ l, le_bytes 16 (inp !!! (16 * y + l)%nat) !!! q) (seq 0 16)) j) (Z.of_nat i)
    = Z.testbit (inp !!! (16 * y + i)%nat) (8 * Z.of_nat q + (7 - Z.of_nat j)).
Proof.
  intros Hq Hj Hi. rewrite (masks_testbit 2) by (apply loaded_lanes || lia).
  rewrite map_seq_lookup by done. rewrite le_bytes_testbit by lia. done.
Qed.

Lemma square_spec (inp out : list Z) x y : (x < 8)%nat → (y < 8)%nat → (128 ≤ length out)%nat →
  let o := sse_transposeSubSquare out (sse_loadSubSquare inp y x) x y in
  length o = length out ∧ (∀ r, (r / 16 ≠ x)%nat → o !!! r = out !!! r) ∧
  ∀ r, (r / 16 = x)%nat → is_word 128 (o !!! r) ∧
    ∀ c, (c < 128)%nat → Z.testbit (o !!! r) (Z.of_nat c)
      = if (c / 16 =? y)%nat then Z.testbit (inp !!! c) (Z.of_nat r) else Z.testbit (out !!! r) (Z.of_nat c).
Proof.
  intros Hx Hy Hl o. unfold sse_loadSubSquare in o.
  pose (col q := map (λ l, le_bytes 16 (inp !!! (16 * y + l)%nat) !!! q) (seq 0 16)).
  destruct (store_spec x y out (col (2 * x)%nat) (col (2 * x + 1)%nat) ltac:(lia)) as [L R]. fold o in L, R. split; [exact L|].
  assert (∀ r, r / 16 = x ↔ 16 * x ≤ r < 16 * x + 16)%nat as Hdiv.
  { intros r. pose proof (Nat.div_mod_eq r 16). pose proof (Nat.mod_upper_bound r 16). split; [lia|]. intros Hr.
    symmetry. apply (Nat.div_unique _ _ _ (r - 16 * x)); lia. }
  split.
  - intros r Hr. rewrite R. pose proof (Hdiv r). nat_cases; done || lia.
  - intros r Hr%Hdiv. 
    assert (∃ q j, (q < 16)%nat ∧ (j < 8)%nat ∧ 8 * Z.of_nat q + (7 - Z.of_nat j) = Z.of_nat r ∧
      o !!! r = set_u16 (out !!! r) y (masks (col q) j))
      as (q & j & Hq & Hj & Eqj & ->).
    { rewrite R. destruct (decide (r < 16 * x + 8)%nat); nat_cases.
      - exists (2 * x)%nat, (16 * x + 7 - r)%nat. split; [lia|]. split; [lia|]. split; [lia|done].
      - exists (2 * x + 1)%nat, (16 * x + 15 - r)%nat. split; [lia|]. split; [lia|]. split; [lia|done]. }
    pose proof (masks_word 2 _ j (loaded_lanes inp y q)) as Hw. fold (col q) in Hw.
    split; [by apply set_u16_word|]. intros c Hc. rewrite set_u16_bit by (done || lia).
    destruct (Nat.eqb_spec (c / 16) y) as [E|E].
    + pose proof (Nat.div_mod_eq c 16) as Ec. pose proof (Nat.mod_upper_bound c 16 ltac:(lia)). rewrite E in Ec.
      destruct (Z.leb_spec (16 * Z.of_nat y) (Z.of_nat c)), (Z.ltb_spec (Z.of_nat c) (16 * Z.of_nat y + 16)); try lia. cbn [andb].
      replace (Z.of_nat c - 16 * Z.of_nat y) with (Z.of_nat (c mod 16)) by lia.
      unfold col. rewrite loaded_mask, Eqj, <-Ec by done. done.
    + destruct ((16 * Z.of_nat y <=? Z.of_nat c) && (Z.of_nat c <? 16 * Z.of_nat y + 16)) eqn:E'; [|done].
      apply andb_true_iff in E' as [E1%Z.leb_le E2%Z.ltb_lt]. exfalso. apply E. symmetry.
      apply (Nat.div_unique _ _ _ (c - 16 * y)); lia.
Qed.

(** ** The loops *)
Definition swapped (x : list Z) (done : nat → nat → bool) (o : list Z) : Prop :=
  length o = length x ∧ (∀ r, (128 ≤ r)%nat → o !!! r = x !!! r) ∧
  (∀ r, (r < 128)%nat → done (r / 16)%nat (r / 16)%nat = true → is_word 128 (o !!! r)) ∧
  ∀ r c, (r < 128)%nat → (c < 128)%nat → Z.testbit (o !!! r) (Z.of_nat c)
    = if done (r / 16)%nat (c / 16)%nat then Z.testbit (x !!! c) (Z.of_nat r) else Z.testbit (x !!! r) (Z.of_nat c).

Definition done_after (j k : nat) (a b : nat) : bool :=
  (a <? j)%nat && (b <? j)%nat || (a =? j)%nat && ((b =? j)%nat || (b <? k)%nat) || (b =? j)%nat && (a <? k)%nat.

Lemma block_lt r : (r < 128 → r / 16 < 8)%nat.
Proof. intros. apply Nat.Div0.div_lt_upper_bound. lia. Qed.

Lemma block_high r x : (128 ≤ r → x < 8 → r / 16 ≠ x)%nat.
Proof. intros Hr Hx <-. pose proof (Nat.div_mod_eq r 16). pose proof (Nat.mod_upper_bound r 16). lia. Qed.

Ltac done_cases := unfold done_after in *; nat_cases; cbn [orb andb] in *; try done; try lia.

Lemma swap_squares_spec x j k o : (128 ≤ length x)%nat → (j < 8)%nat → (k < j)%nat →
  swapped x (done_after j k) o → swapped x (done_after j (S k)) (swap_squares j o k).
Proof.
  intros Hx Hj Hk (L & Hhi & Hw & Hb). unfold swap_squares.
  destruct (square_spec o o j k Hj ltac:(lia) ltac:(lia)) as (L1 & F1 & S1). set (o1 := sse_transposeSubSquare o _ j k) in *.
  destruct (square_spec o o1 k j ltac:(lia) Hj ltac:(lia)) as (L2 & F2 & S2). set (o2 := sse_transposeSubSquare o1 _ k j) in *.
  clearbody o1 o2. split; [lia|]. split; [|split].
  - intros r Hr. rewrite F2, F1 by (apply block_high; lia). by apply Hhi.
  - intros r Hr Hd. destruct (decide (r / 16 = k)%nat) as [E|E]; [by apply S2|]. rewrite F2 by done.
    destruct (decide (r / 16 = j)%nat) as [E'|E']; [by apply S1|]. rewrite F1 by done. apply Hw; [done|]. clear - Hd E E'. done_cases.
  - intros r c Hr Hc. destruct (decide (r / 16 = k)%nat) as [E|E].
    + destruct (S2 r E) as [_ B2]. rewrite B2, F1, !Hb, E by (done || lia).
      generalize (c / 16)%nat. intros b. clear - Hk. done_cases.
    + rewrite F2 by done. destruct (decide (r / 16 = j)%nat) as [E'|E'].
      * destruct (S1 r E') as [_ B1]. rewrite B1, !Hb, E' by done. generalize (c / 16)%nat. intros b. clear - Hk. done_cases.
      * rewrite F1, Hb by done. revert E E'. generalize (c / 16)%nat (r / 16)%nat. intros b a. clear - Hk. intros. done_cases.
Qed.

Lemma swapped_ext x d d' o : (∀ a b, d a b = d' a b) → swapped x d o → swapped x d' o.
Proof.
  intros E (L & H1 & H2 & H3). split; [done|]. split; [done|]. split; [intros r Hr; rewrite <-E; by apply H2|].
  intros r c. rewrite <-E. apply H3.
Qed.

Lemma sse_transpose_loop x : (128 ≤ length x)%nat → swapped x (λ a b, (a <? 8)%nat && (b <? 8)%nat) (sse_transpose128 x).
Proof.
  intros Hx. unfold sse_transpose128.
  apply (foldl_seq_inv (λ j, swapped x (λ a b, (a <? j)%nat && (b <? j)%nat))).
  - split; [done|]. split; [done|]. split; done.
  - intros j o Hj (L & Hhi & Hw & Hb).
    apply (swapped_ext x (done_after j j)); [intros a b; done_cases|].
    apply (foldl_seq_inv (λ k, swapped x (done_after j k))); [|intros k o' Hk; by apply swap_squares_spec].
    destruct (square_spec o o j j Hj Hj ltac:(lia)) as (L1 & F1 & S1). set (o1 := sse_transposeSubSquare o _ j j) in *. clearbody o1.
    split; [lia|]. split; [|split].
    + intros r Hr. rewrite F1 by (apply block_high; lia). by apply Hhi.
    + intros r Hr Hd. destruct (decide (r / 16 = j)%nat) as [E|E]; [by apply S1|]. rewrite F1 by done.
      apply Hw; [done|]. clear - Hd E. revert Hd. done_cases.
    + intros r c Hr Hc. destruct (decide (r / 16 = j)%nat) as [E|E].
      * destruct (S1 r E) as [_ B1]. rewrite B1, !Hb, E by done. generalize (c / 16)%nat. intros b. clear. done_cases.
      * rewrite F1, Hb by done. revert E. generalize (c / 16)%nat (r / 16)%nat. intros b a. clear. intros. done_cases.
Qed.

Definition sse_transpose (x : list Z) : list Z := if (128 <=? length x)%nat then sse_transpose128 x else x.

#[export] Instance sse_Transpose128 : Transpose128.
Proof.
  refine {| transpose128 := sse_transpose |}; unfold sse_transpose.
  - intros x. destruct (Nat.leb_spec 128 (length x)); [|done]. by apply sse_transpose_loop.
  - intros x k Hk. destruct (Nat.leb_spec 128 (length x)); [|done]. by apply sse_transpose_loop.
  - intros x r Hx Hr. destruct (Nat.leb_spec 128 (length x)); [|lia]. apply sse_transpose_loop; [done|done|].
    pose proof (block_lt r Hr). nat_cases; lia || done.
  - intros x r c Hx Hr Hc. destruct (Nat.leb_spec 128 (length x)); [|lia].
    destruct (sse_transpose_loop x Hx) as (_ & _ & _ & Hb). rewrite Hb by done.
    pose proof (block_lt r Hr). pose proof (block_lt c Hc). nat_cases; lia || done.
Defined.
