(* ===== verification/SoftSpokenProps.v ===== *)
(** * SoftSpoken OT is an OT

    From the messages of the base OTs on, the receiver ends with the messages of the
    sender that it chose. *)

From S2P Require Import Prelude Xor YaoKey YaoGate Gf2n CryptoTools SmallField SmallFieldProps Pprf PprfProps SubspaceVole SubspaceProps SoftSpoken SoftBatch SoftHash OtTranspose.

(** ** Bits of choices *)
Lemma le_bits_bit l i : Z.testbit (le_bits l) (Z.of_nat i) = default false (l !! i).
Proof.
  unfold le_bits. revert i. induction l as [|b l IH]; intros i; cbn [foldr]; [apply Z.bits_0|].
  destruct i as [|i].
  - change (Z.of_nat 0) with 0. rewrite Z.add_comm. exact (Z.testbit_0_r _ b).
  - rewrite Nat2Z.inj_succ, Z.add_comm. etransitivity; [apply (Z.testbit_succ_r _ b); lia|]. apply IH.
Qed.

Lemma le_bits_word l n : (length l ≤ n)%nat → is_word (Z.of_nat n) (le_bits l).
Proof.
  intros Hl. assert (0 ≤ le_bits l < 2 ^ Z.of_nat (length l)) as Hw.
  { clear Hl. unfold le_bits. induction l as [|b l IH]; cbn [foldr length]; [cbn; lia|].
    rewrite Nat2Z.inj_succ, Z.pow_succ_r by lia. destruct b; cbn [b2z Z.b2z]; lia. }
  unfold is_word. assert (2 ^ Z.of_nat (length l) ≤ 2 ^ Z.of_nat n) by (apply Z.pow_le_mono_r; lia). lia.
Qed.

Lemma choice_block_word choices k : is_word 128 (choice_block choices k).
Proof. apply (le_bits_word _ 128). rewrite length_take. lia. Qed.

Lemma choice_block_bit choices k p : (p < 128)%nat →
  Z.testbit (choice_block choices k) (Z.of_nat p) = default false (choices !! (128 * k + p)%nat).
Proof. intros. unfold choice_block. by rewrite le_bits_bit, lookup_take_lt, lookup_drop. Qed.

Lemma word_pair x y : is_word 64 x → is_word 64 y → is_word 128 (Z.lor x (Z.shiftl y 64)).
Proof.
  intros Hx Hy. apply is_word_bits; [lia|apply Z.lor_nonneg; split; [apply Hx|apply Z.shiftl_nonneg, Hy]|]. intros i Hi.
  rewrite Z.lor_spec, Z.shiftl_spec by lia. by rewrite (is_word_high 64 x i Hx), (is_word_high 64 y (i - 64) Hy) by lia.
Qed.

Lemma word_shiftr64 x k : is_word 64 x → 0 ≤ k → is_word 64 (Z.shiftr x k).
Proof.
  intros Hx Hk. apply is_word_bits; [lia|apply Z.shiftr_nonneg, Hx|]. intros i Hi.
  rewrite Z.shiftr_spec by lia. apply (is_word_high 64); [done|lia|lia].
Qed.

Lemma word_u64 x : is_word 64 (u64 x).
Proof. apply is_word_mod. lia. Qed.

Lemma mask_bits k : 0 ≤ k < 64 → u64 (Z.shiftl 1 k) - 1 = Z.ones k.
Proof.
  intros Hk. rewrite Z.shiftl_1_l, u64_word; [by rewrite Z.ones_equiv, Z.sub_1_r|].
  unfold is_word. split; [apply Z.pow_nonneg; lia|apply Z.pow_lt_mono_r; lia].
Qed.

Lemma pair_bit x y i : is_word 64 x → 0 ≤ i → Z.testbit (Z.lor x (Z.shiftl y 64)) i = if i <? 64 then Z.testbit x i else Z.testbit y (i - 64).
Proof.
  intros Hx Hi. rewrite Z.lor_spec, Z.shiftl_spec by done. destruct (Z.ltb_spec i 64).
  - by rewrite (Z.testbit_neg_r y), orb_false_r by lia.
  - by rewrite (is_word_high 64 x i Hx) by lia.
Qed.

Lemma masked_bit x y k i : 0 ≤ i < k → k < 64 → Z.testbit (Z.lor (Z.land x (Z.ones k)) (u64 (Z.shiftl y k))) i = Z.testbit x i.
Proof.
  intros Hi Hk. rewrite Z.lor_spec, Z.land_spec, Z.ones_spec_low by lia. unfold u64.
  rewrite Z.mod_pow2_bits_low, Z.shiftl_spec, (Z.testbit_neg_r y) by lia. by rewrite andb_true_r, orb_false_r.
Qed.

(** The extra block starts with the last choices. *)
Lemma extra_choices_spec choices sac : is_word 64 sac →
  is_word 128 (extra_choices choices sac).1 ∧ is_word 128 (extra_choices choices sac).2 ∧
  ∀ p, (p < length choices mod 128)%nat →
    Z.testbit (extra_choices choices sac).1 (Z.of_nat p) = default false (choices !! (128 * (length choices / 128) + p)%nat).
Proof.
  intros Hs. unfold extra_choices. set (n := length choices). set (bit := (n mod 128)%nat).
  assert (bit < 128)%nat as Hbit by (apply Nat.mod_upper_bound; lia).
  set (last := choice_block choices (n / 128)). pose proof (choice_block_word choices (n / 128)) as Hlast. fold last in Hlast.
  assert (∃ a b, (if (bit =? 0)%nat then [0; 0; 0; 0] else [lane_lo last; lane_hi last; 0; 0]) = [a; b; 0; 0] ∧
    is_word 64 a ∧ is_word 64 b ∧ (bit ≠ 0%nat → a = lane_lo last ∧ b = lane_hi last)) as (a & b & -> & Ha & Hb & Hab).
  { destruct (Nat.eqb_spec bit 0).
    - exists 0, 0. split; [done|]. split; [unfold is_word; lia|]. split; [unfold is_word; lia|by intros []].
    - eexists _, _. split; [done|]. split; [apply word_u64|]. split; [apply word_u64|done]. }
  set (k := Z.of_nat (bit mod 64)). assert (0 ≤ k < 64) as Hk by (unfold k; pose proof (Nat.mod_upper_bound bit 64); lia).
  cbn zeta. rewrite mask_bits by done. pose proof (Nat.div_mod_eq bit 64) as Hbk.
  set (t := Z.shiftr (Z.shiftr sac (63 - k)) 1). assert (is_word 64 t) as Ht by (unfold t; repeat apply word_shiftr64; done || lia).
  assert (∀ x, is_word 64 x → is_word 64 (Z.lor (Z.land x (Z.ones k)) (u64 (Z.shiftl sac k)))) as Hm.
  { intros x Hx. apply is_word_lor; [lia|apply is_word_land_l; [lia|done|rewrite Z.ones_equiv; pose proof (Z.pow_pos_nonneg 2 k); lia]|apply word_u64]. }
  assert (bit / 64 = 0 ∨ bit / 64 = 1)%nat as [E|E].
  { assert (bit / 64 < 2)%nat by (apply Nat.Div0.div_lt_upper_bound; lia). lia. }
  all: rewrite E in *; cbn [insert list_insert lookup_total list_lookup_total Nat.add fst snd].
  - split; [apply word_pair; [by apply Hm|done]|]. split; [apply word_pair; unfold is_word; lia|]. intros p Hp.
    rewrite pair_bit by (by apply Hm || lia). destruct (Hab ltac:(lia)) as [-> _].
    destruct (Z.ltb_spec (Z.of_nat p) 64); [|lia]. rewrite masked_bit by lia.
    unfold lane_lo, u64. rewrite Z.mod_pow2_bits_low by lia. apply choice_block_bit. lia.
  - split; [apply word_pair; [done|by apply Hm]|]. split; [apply word_pair; [done|unfold is_word; lia]|]. intros p Hp.
    rewrite pair_bit by (done || lia). destruct (Hab ltac:(lia)) as [-> ->].
    destruct (Z.ltb_spec (Z.of_nat p) 64).
    + unfold lane_lo, u64. rewrite Z.mod_pow2_bits_low by lia. apply choice_block_bit. lia.
    + rewrite masked_bit by lia. unfold lane_hi, u64. rewrite Z.mod_pow2_bits_low, Z.shiftr_spec by lia.
      replace (Z.of_nat p - 64 + 64) with (Z.of_nat p) by lia. apply choice_block_bit. lia.
Qed.

(** ** Chunks *)
Section chunks.
Context `{OcAes, Transpose128} (clmul : Z → Key → Key → Key) (Hclmul : clmul_spec clmul).

Lemma transposed_shares delta u V W p : shares 128 delta u V W → length delta = 128%nat → (p < 128)%nat →
  transpose128 V !!! p = Z.lxor (transpose128 W !!! p) (key_if (Z.testbit u (Z.of_nat p)) (le_bits delta)).
Proof.
  intros (HV & HW & Hs) Hd Hp. pose proof (transpose128_word V p HV Hp) as HwV. pose proof (transpose128_word W p HW Hp) as HwW.
  pose proof (le_bits_word delta 128 ltac:(lia)) as Hwd.
  apply Z.bits_inj'. intros i Hi. rewrite Z.lxor_spec.
  assert (Z.testbit (key_if (Z.testbit u (Z.of_nat p)) (le_bits delta)) i = Z.testbit u (Z.of_nat p) && Z.testbit (le_bits delta) i) as ->
    by (destruct (Z.testbit u (Z.of_nat p)); cbn [key_if andb]; [done|apply Z.bits_0]).
  destruct (Z.lt_ge_cases i 128) as [Hi'|Hi'].
  - replace i with (Z.of_nat (Z.to_nat i)) by lia. set (c := Z.to_nat i). assert (c < 128)%nat as Hc by lia.
    rewrite !transpose128_bit, le_bits_bit by done. rewrite Hs, Z.lxor_spec by done.
    destruct (lookup_lt_is_Some_2 delta c ltac:(lia)) as [d Ed]. rewrite Ed, (list_lookup_total_correct _ _ _ Ed). cbn [from_option id].
    destruct d; cbn [key_if]; rewrite ?Z.bits_0; by destruct (Z.testbit (V !!! c) (Z.of_nat p)), (Z.testbit u (Z.of_nat p)).
  - rewrite (is_word_high 128 _ i HwV), (is_word_high 128 _ i HwW), (is_word_high 128 _ i Hwd) by lia. by rewrite andb_false_r.
Qed.

(** The messages of the receiver are those of the sender that [c] chooses. *)
Definition picked (c : nat → bool) (recv sent : list Z) : Prop :=
  length sent = (2 * length recv)%nat ∧
  ∀ p, (p < length recv)%nat → recv !!! p = sent !!! (2 * p + Nat.b2n (c p))%nat.

Lemma picked_nil c : picked c [] [].
Proof. split; [done|]. cbn. lia. Qed.

Lemma picked_app c c' recv sent recv' sent' : picked c recv sent → picked c' recv' sent' →
  (∀ p, (p < length recv')%nat → c (length recv + p)%nat = c' p) → picked c (recv ++ recv') (sent ++ sent').
Proof.
  intros [L1 H1] [L2 H2] Hc. split; [rewrite !length_app; lia|]. rewrite length_app. intros p Hp.
  destruct (decide (p < length recv)%nat) as [Hlt|Hge].
  - rewrite !lookup_total_app_l; [by apply H1| |done]. destruct (c p); cbn [Nat.b2n]; lia.
  - rewrite !lookup_total_app_r by (destruct (c p); cbn [Nat.b2n]; lia).
    rewrite H2 by lia. f_equal. rewrite <-Hc by lia. replace (length recv + (p - length recv))%nat with p by lia. lia.
Qed.

(** Keys are used 128 times at once, up to the last chunk. *)
Definition rekey_aligned (m : AESRekeyManager) : Prop := ∃ k, 0 ≤ k ≤ 8 ∧ aesKeyUseCount m = 128 * k.

Lemma useAES_same m n : rekey_aligned m → 1 ≤ n ≤ 128 →
  mAESs (useAES m n).2 = mAESs (useAES m 128).2 ∧ rekey_aligned (useAES m 128).2.
Proof.
  intros (k & Hk & Ec) Hn. unfold useAES, maxAESKeyUsage. rewrite Ec. cbn [snd].
  destruct (Z.ltb_spec 1024 (128 * k + n)), (Z.ltb_spec 1024 (128 * k + 128)); try lia; split; try done; cbn [aesKeyUseCount].
  - exists 0. cbn. lia.
  - exists (k + 1). cbn [aesKeyUseCount]. lia.
Qed.

Definition rtcr_rel (T : nat) (r s : TwoOneRTCR) : Prop := r = s ∧ rtcr_at r T ∧ rekey_aligned (rt_rekey r).

Definition sub_ok (delta : list bool) (ss : SubspaceVoleSender) (sr : SubspaceVoleReceiver) : Prop :=
  vs_fieldBits (ss_vole ss) = 2%nat ∧ vs_numVoles (ss_vole ss) = 64%nat ∧ vr_delta (sr_vole sr) = delta ∧
  length delta = 128%nat ∧ ∀ k, (k < 128)%nat → vr_deltaUnpacked (sr_vole sr) !!! k = u8 (- b2z (delta !!! k)).

Definition chunk_rel (delta : list bool) (r : OtReceiver) (s : OtSender) : Prop :=
  mal_rel delta (or_vole r) (os_vole s) ∧ sub_ok delta (ms_sub (or_vole r)) (mr_sub (os_vole s)).

Lemma sub_ok_size delta r s : sub_ok delta (ms_sub (or_vole r)) (mr_sub (os_vole s)) →
  ms_vSize (or_vole r) = 128%nat ∧ ms_fieldBits (or_vole r) = 2%nat ∧ os_delta s = le_bits delta ∧ length delta = 128%nat.
Proof.
  intros (Hf & Hn & Hd & Hl & _). unfold ms_vSize, ms_fieldBits, ms_numVoles, os_delta. rewrite Hf, Hn, Hd.
  by rewrite take_ge by lia.
Qed.

Lemma shares_app n delta u V W rest : shares n delta u V W → shares n delta u V (W ++ rest).
Proof.
  intros (HV & HW & Hs). split; [done|]. split; [rewrite length_app; lia|]. intros i Hi.
  rewrite lookup_total_app_l by lia. by apply Hs.
Qed.

Lemma chunk_step delta T r s u V W raw numUsed same recv sent : chunk_rel delta r s → rtcr_rel T (or_rtcr r) (os_rtcr s) →
  shares 128 delta u V W → (256 ≤ length raw)%nat → (1 ≤ numUsed ≤ 128)%nat → (T mod 8 = 0)%nat →
  ∃ recv' sent' r' s', receiver_hashChunk clmul numUsed (recv, r) (u, V) = Ok (recv ++ recv', r') ∧
    sender_hashChunk clmul raw numUsed same (sent, s) W = Ok (sent ++ sent', s') ∧
    length recv' = numUsed ∧ picked (λ p, Z.testbit u (Z.of_nat p)) recv' sent' ∧ chunk_rel delta r' s' ∧
    ms_sub (or_vole r') = ms_sub (or_vole r) ∧ mr_sub (os_vole s') = mr_sub (os_vole s) ∧
    (numUsed = 128%nat → rtcr_rel (T + 128) (or_rtcr r') (os_rtcr s')).
Proof.
  intros (Hmal & Hok) (Er & Hat & Hal) Hsh Hraw Hn HT. destruct (sub_ok_size _ _ _ Hok) as (Hv & _ & Hod & Hd).
  destruct (hash_rel clmul Hclmul delta (or_vole r) (os_vole s) u V W Hmal) as (vr & vs & E1 & E2 & Hmal' & Es1 & Es2); [by rewrite Hv|].
  unfold receiver_hashChunk, sender_hashChunk. rewrite E1, E2, !bind_ok, <-Er, Hod.
  destruct (useAES_same (rt_rekey (or_rtcr r)) (Z.of_nat numUsed) Hal ltac:(lia)) as [Ek Hal'].
  set (rt1 := rtcr_useAES (or_rtcr r) (Z.of_nat numUsed)). set (rt2 := rtcr_useAES (or_rtcr r) 128).
  assert (∀ t x, hashed rt1 t x = hashed rt2 t x) as Eh by (intros; unfold hashed, rt1, rt2; cbn [rtcr_useAES rt_rekey hashKeys]; by rewrite Ek).
  set (V' := transpose128 V). set (W' := transpose128 (W ++ take (256 - length W) raw)).
  pose proof (shares_app _ _ _ _ _ (take (256 - length W) raw) Hsh) as Hsh'. destruct Hsh as (HV & HW & _).
  assert (256 ≤ length W')%nat as HW' by (unfold W'; rewrite transpose128_length, length_app, length_take; lia).
  pose proof (hash_chunk_spec numUsed T rt1 V' ltac:(unfold V'; rewrite transpose128_length; lia) HT Hat) as Hrecv.
  destruct (hash_chunk numUsed V' rt1) as [out1 rt1'].
  destruct (xorAndHash_spec numUsed T rt2 W' (le_bits delta) same (if same then W' else take 256 raw))
    as (out2 & inp & rt2' & Ex & Hsent); [destruct same; [lia|rewrite length_take; lia]|by destruct same|done|exact Hat|].
  rewrite Ex. destruct Hrecv as (Hk1 & Ha1 & Hl1 & _ & H1). destruct Hsent as (Hk2 & Ha2 & Hl2 & _ & _ & H2). cbn [fst snd] in *.
  do 4 eexists. split; [reflexivity|]. split; [reflexivity|].
  assert (length (take numUsed out1) = numUsed) as Ll1 by (rewrite length_take, Hl1; unfold V'; rewrite transpose128_length; lia).
  split; [done|]. split; [|split; [|split; [done|split; [done|]]]].
  - split; [rewrite length_take, Ll1; lia|]. rewrite Ll1. intros p Hp.
    rewrite !list_lookup_total_alt, !lookup_take_lt, <-!list_lookup_total_alt by (destruct (Z.testbit u (Z.of_nat p)); cbn [Nat.b2n]; lia).
    rewrite H1, Eh by lia. destruct (H2 p ltac:(lia)) as [Hp0 Hp1]. unfold V', W' in *.
    rewrite (transposed_shares delta u V _ p Hsh' Hd ltac:(lia)). destruct (Z.testbit u (Z.of_nat p)); cbn [key_if Nat.b2n].
    + by rewrite Hp1.
    + by rewrite Nat.add_0_r, Hp0, Z.lxor_0_r.
  - split; [done|]. cbn [or_vole os_vole]. by rewrite Es1, Es2.
  - intros ->. cbn [or_rtcr os_rtcr]. change (Z.of_nat 128) with 128 in *. fold rt2 in rt1. subst rt1.
    replace (T + (128 - 0))%nat with (T + 128)%nat in Ha1, Ha2 by lia.
    split; [by apply (rtcr_at_eq _ _ rt2 (T + 128))|]. split; [done|]. destruct Hk1 as [-> _]. exact Hal'.
Qed.

Lemma zip_lookup {A B} `{Inhabited A, Inhabited B} (l : list A) (k : list B) i :
  (i < length l)%nat → (i < length k)%nat → zip l k !!! i = (l !!! i, k !!! i).
Proof.
  intros Hl Hk. apply lookup_lt_is_Some_2 in Hl as [x Hx]. apply lookup_lt_is_Some_2 in Hk as [y Hy].
  rewrite (list_lookup_total_correct _ _ _ Hx), (list_lookup_total_correct _ _ _ Hy). apply list_lookup_total_correct.
  rewrite lookup_zip_with, Hx. cbn. by rewrite Hy.
Qed.

(** The full chunks. *)
Lemma chunks_fold delta raw us : ∀ V W T r s recv sent, chunk_rel delta r s → rtcr_rel T (or_rtcr r) (os_rtcr s) →
  length V = length us → length W = length us → (∀ i, (i < length us)%nat → shares 128 delta (us !!! i) (V !!! i) (W !!! i)) →
  (256 ≤ length raw)%nat → (T mod 8 = 0)%nat →
  ∃ recv' sent' r' s', foldM (receiver_hashChunk clmul 128) (recv, r) (zip us V) = Ok (recv ++ recv', r') ∧
    foldM (sender_hashChunk clmul raw 128 true) (sent, s) W = Ok (sent ++ sent', s') ∧
    length recv' = (128 * length us)%nat ∧
    picked (λ p, Z.testbit (us !!! (p / 128)%nat) (Z.of_nat (p mod 128))) recv' sent' ∧ chunk_rel delta r' s' ∧
    rtcr_rel (T + 128 * length us) (or_rtcr r') (os_rtcr s').
Proof.
  induction us as [|u us IH]; intros V W T r s recv sent Hrel Hrt HV HW Hsh Hraw HT; destruct V as [|v V], W as [|w W]; try done.
  - exists [], [], r, s. cbn [foldM zip zip_with length]. rewrite !app_nil_r, Nat.mul_0_r, Nat.add_0_r.
    split; [done|]. split; [done|]. split; [done|]. split; [apply picked_nil|]. by split.
  - cbn [foldM zip zip_with]. cbn [length] in HV, HW, Hsh.
    destruct (chunk_step delta T r s u v w raw 128 true recv sent Hrel Hrt (Hsh 0%nat ltac:(lia)) Hraw ltac:(lia) HT)
      as (rc & sn & r1 & s1 & -> & -> & Hl & Hc & Hrel1 & _ & _ & Hrt1). rewrite !bind_ok.
    destruct (IH V W (T + 128)%nat r1 s1 (recv ++ rc) (sent ++ sn) Hrel1 (Hrt1 eq_refl)) as (rc' & sn' & r2 & s2 & E1 & E2 & Hl2 & Hc2 & Hrel2 & Hrt2);
      [lia|lia|intros i Hi; apply (Hsh (S i)); lia|done| |].
    { rewrite <-Nat.Div0.add_mod_idemp_l, HT. done. }
    exists (rc ++ rc'), (sn ++ sn'), r2, s2. rewrite !app_assoc. split; [exact E1|]. split; [exact E2|].
    rewrite length_app, Hl, Hl2. cbn [length]. split; [lia|]. split; [|split; [done|by replace (T + 128 * S (length us))%nat with (T + 128 + 128 * length us)%nat by lia]].
    assert (∀ p, (p < 128)%nat → (u :: us) !!! (p / 128)%nat = u ∧ (p mod 128 = p)%nat) as E.
    { intros p Hp. by rewrite Nat.div_small, Nat.mod_small. }
    apply (picked_app _ (λ p, Z.testbit (us !!! (p / 128)%nat) (Z.of_nat (p mod 128)))).
    + destruct Hc as [Lc Hc]. split; [done|]. intros p Hp. rewrite Hl in *. destruct (E p Hp) as [-> ->]. apply Hc. lia.
    + done.
    + intros p _. rewrite Hl. replace (128 + p)%nat with (p + 1 * 128)%nat by lia.
      rewrite Nat.div_add, Nat.Div0.mod_add, Nat.add_1_r by lia. done.
Qed.

(** One extra chunk, or two. *)
Lemma num_extra n : (num_chunks n - n / 128)%nat = (if (n mod 128 <=? 64)%nat then 1 else 2)%nat.
Proof.
  unfold num_chunks, divCeil. pose proof (Nat.div_mod_eq n 128) as E. pose proof (Nat.mod_upper_bound n 128 ltac:(lia)) as Hb.
  set (q := (n / 128)%nat) in *. set (b := (n mod 128)%nat) in *.
  replace (n + 64 + 128 - 1)%nat with (b + 191 + q * 128)%nat by lia. rewrite Nat.div_add by lia.
  destruct (Nat.leb_spec b 64).
  - rewrite <-(Nat.div_unique (b + 191) 128 1 (b + 63)) by lia. lia.
  - rewrite <-(Nat.div_unique (b + 191) 128 2 (b - 65)) by lia. lia.
Qed.

Section second.
Context (delta : list bool) (raw : list Z) (choices : list bool) (V W : list (list Z)).
Context (extra : list Z) (extraV extraW : list (list Z)).
Let n := length choices.
Let us := map (choice_block choices) (seq 0 (n / 128)).
Context (Hraw : (256 ≤ length raw)%nat).
Context (HV : length V = (n / 128)%nat) (HW : length W = (n / 128)%nat).
Context (Hsh : ∀ i, (i < n / 128)%nat → shares 128 delta (us !!! i) (V !!! i) (W !!! i)).
Let numExtra := (num_chunks n - n / 128)%nat.
Context (Hx : length extra = numExtra) (HxV : length extraV = numExtra) (HxW : length extraW = numExtra).
Context (Hxsh : ∀ i, (i < numExtra)%nat → shares 128 delta (extra !!! i) (extraV !!! i) (extraW !!! i)).
Context (Hbits : ∀ p, (p < n mod 128)%nat → Z.testbit (extra !!! 0%nat) (Z.of_nat p) = default false (choices !! (128 * (n / 128) + p)%nat)).

Let c (p : nat) : bool := default false (choices !! p).

Lemma num_extra_pos : (0 < numExtra)%nat.
Proof. unfold numExtra. rewrite num_extra. nat_cases; lia. Qed.

(** The chunks that give messages. *)
Lemma messages_agree r s : chunk_rel delta r s → rtcr_rel 0 (or_rtcr r) (os_rtcr s) →
  ∃ recv1 sent1 r1 s1, foldM (receiver_hashChunk clmul 128) ([], r) (zip us V) = Ok (recv1, r1) ∧
    foldM (sender_hashChunk clmul raw 128 true) ([], s) W = Ok (sent1, s1) ∧
  ∃ recv sent r' s',
    (if (n mod 128 =? 0)%nat then Ok (recv1, r1)
     else receiver_hashChunk clmul (n mod 128) (recv1, r1) (zip extra extraV !!! 0%nat)) = Ok (recv, r') ∧
    (if (n mod 128 =? 0)%nat then Ok (sent1, s1)
     else sender_hashChunk clmul raw (n mod 128) false (sent1, s1) (extraW !!! 0%nat)) = Ok (sent, s') ∧
    chunk_rel delta r' s' ∧ length recv = n ∧ picked c recv sent.
Proof.
  intros Hrel Hrt. assert (length us = n / 128)%nat as Hus by (unfold us; by rewrite length_map, length_seq).
  destruct (chunks_fold delta raw us V W 0 r s [] [] Hrel Hrt) as (rc & sn & r1 & s1 & E1 & E2 & Hl & Hc & Hrel1 & Hrt1);
    [by rewrite Hus..|by rewrite Hus|done|done|]. cbn [app Nat.add] in *. rewrite Hus in *.
  exists rc, sn, r1, s1. split; [done|]. split; [done|].
  pose proof (Nat.div_mod_eq n 128) as En. pose proof (Nat.mod_upper_bound n 128 ltac:(lia)) as Hb.
  assert (picked c rc sn) as Hc1.
  { destruct Hc as [Lc Hc]. split; [done|]. intros p Hp. rewrite Hc by done. rewrite Hl in Hp.
    assert (p / 128 < n / 128)%nat by (apply Nat.Div0.div_lt_upper_bound; lia). unfold us. rewrite map_seq_lookup by done.
    rewrite choice_block_bit by (apply Nat.mod_upper_bound; lia). by rewrite <-Nat.div_mod_eq. }
  destruct (Nat.eqb_spec (n mod 128) 0) as [E|E].
  - exists rc, sn, r1, s1. split; [done|]. split; [done|]. split; [done|]. split; [lia|done].
  - pose proof num_extra_pos as Hpos. rewrite zip_lookup by lia.
    destruct (chunk_step delta (128 * (n / 128)) r1 s1 (extra !!! 0%nat) (extraV !!! 0%nat) (extraW !!! 0%nat) raw (n mod 128) false
      rc sn Hrel1 Hrt1 (Hxsh 0%nat Hpos) Hraw ltac:(lia)) as (rc2 & sn2 & r2 & s2 & E3 & E4 & Hl2 & Hc2 & Hrel2 & _).
    { rewrite Nat.mul_comm. replace 128%nat with (16 * 8)%nat at 2 by lia. rewrite Nat.mul_assoc. apply Nat.Div0.mod_mul. }
    exists (rc ++ rc2), (sn ++ sn2), r2, s2. split; [done|]. split; [done|]. split; [done|]. split; [rewrite length_app; lia|].
    eapply picked_app; [done|exact Hc2|]. intros p Hp. rewrite Hl. unfold c. symmetry. apply Hbits. lia.
Qed.

(** The last block is hashed for the check alone. *)
Lemma last_chunk r s : chunk_rel delta r s →
  ∃ vr vs,
    (if (numExtra =? 2)%nat || (n mod 128 =? 0)%nat
     then let '(choices, V) := zip extra extraV !!! (numExtra - 1)%nat in ms_hash clmul (or_vole r) choices V
     else Ok (or_vole r)) = Ok vr ∧
    (if (numExtra =? 2)%nat || (n mod 128 =? 0)%nat
     then mr_hash clmul (os_vole s) (extraW !!! (numExtra - 1)%nat) else Ok (os_vole s)) = Ok vs ∧
    mal_rel delta vr vs ∧ ms_sub vr = ms_sub (or_vole r) ∧ mr_sub vs = mr_sub (os_vole s).
Proof.
  intros [Hmal Hok]. pose proof num_extra_pos. destruct (_ || _); [|by exists (or_vole r), (os_vole s)].
  rewrite zip_lookup by lia. apply hash_rel; [done..|]. destruct (sub_ok_size _ _ _ Hok) as [-> _]. apply Hxsh. lia.
Qed.

Lemma second_phase r s challenge hashKey seed vole : ms_recvChallenge clmul (or_vole r) challenge = Ok vole →
  let r0 := mkOtReceiver vole (or_aes r) (or_blockIdx r) (rtcr_setKey (or_rtcr r) hashKey seed) in
  chunk_rel delta r0 s → rtcr_rel 0 (or_rtcr r0) (os_rtcr s) →
  ∃ recv response r' sent s',
    receive_second clmul r n (zip us V, zip extra extraV) challenge hashKey seed = Ok (recv, response, r') ∧
    send_second clmul raw s n W extraW response = Ok (sent, s') ∧ length recv = n ∧ picked c recv sent.
Proof.
  intros Hch r0 Hrel Hrt.
  destruct (messages_agree r0 s Hrel Hrt) as (rc1 & sn1 & r1 & s1 & E1 & E2 & rc & sn & r2 & s2 & E3 & E4 & Hrel2 & Hl & Hc).
  destruct (last_chunk r2 s2 Hrel2) as (vr & vs & E5 & E6 & Hmal & Es1 & Es2).
  destruct Hrel2 as [_ Hok]. destruct (sub_ok_size _ _ _ Hok) as (Hsz & Hf & _). destruct Hok as (_ & _ & _ & _ & Hdu).
  destruct (check_rel clmul Hclmul delta vr vs Hmal) as (response & vr' & vs' & E7 & E8 & _).
  - unfold ms_fieldBits. rewrite Es1. exact Hf.
  - intros k Hk. rewrite Es2. apply Hdu. unfold ms_vSize, ms_fieldBits, ms_numVoles in Hk, Hsz. rewrite Es1 in Hk. lia.
  - exists rc, response. eexists. exists sn. eexists. split; [|split; [|done]].
    + unfold receive_second. rewrite Hch, bind_ok. fold r0. rewrite E1, bind_ok, E3, bind_ok. fold numExtra.
      rewrite E5, bind_ok, E7, bind_ok. reflexivity.
    + unfold send_second. rewrite E2, bind_ok, E4, bind_ok. fold numExtra. rewrite E6, bind_ok, E8, bind_ok. reflexivity.
Qed.
End second.

(** ** The start *)
Context `{Blake2}.

Lemma zero_shares n delta a b : (n ≤ a)%nat → (n ≤ b)%nat → shares n delta 0 (replicate a 0) (replicate b 0).
Proof.
  intros Ha Hb. split; [by rewrite length_replicate|]. split; [by rewrite length_replicate|]. intros i Hi.
  rewrite !lookup_total_replicate_2 by lia. by destruct (delta !!! i).
Qed.

(** The parties after [setBaseOts]. *)
Definition start_rel (delta : list bool) (r : OtReceiver) (s : OtSender) : Prop :=
  batch_rel delta r s ∧ vs_fieldBits (vole_s r) = 2%nat ∧ vs_numVoles (vole_s r) = 64%nat ∧
  ms_uh (or_vole r) = uh_new ∧ mr_uh (os_vole s) = uh_new ∧
  arrays_rel 128 delta (ms_U (or_vole r)) (ms_V (or_vole r)) (mr_W (os_vole s)) ∧
  or_rtcr r = rtcr_new ∧ os_rtcr s = rtcr_new.

Lemma setup_start base_s base_r base_choices raw prng key pos :
  length base_s = 128%nat → ot_messages base_s base_choices base_r → at_pos prng key pos →
  ∃ r m prng' s delta, receiver_setBaseOts 2 prng base_s = Ok (r, m, prng') ∧
    sender_setBaseOts 2 raw base_r base_choices m = Ok s ∧ at_pos prng' key (pos + 16 + 16) ∧ start_rel delta r s.
Proof.
  intros Hbase Hot Hp. unfold receiver_setBaseOts, sender_setBaseOts. change (divCeil gOtExtBaseOtCount 2) with 64%nat.
  destruct (get_block_at prng key pos Hp) as (prng1 & -> & Hp1). rewrite bind_ok. set (seed := stream_block_at key pos).
  destruct (vole_setup 2 64 base_s base_r base_choices raw prng1 key (pos + 16) ltac:(lia) Hbase Hot Hp1)
    as (vs & msgs & cm & prng2 & vr & -> & Hp2 & Er & Hf & Hn & _ & Hshare & Hwords).
  rewrite bind_ok. eexists _, (seed, msgs, Some cm), prng2, _, (vr_delta vr). split; [reflexivity|].
  rewrite Er, bind_ok. split; [reflexivity|]. split; [done|].
  pose proof Hshare as (Hf' & Hn' & _).
  unfold start_rel, batch_rel, seeds_rel, vole_s, vole_r.
  cbn [or_vole os_vole or_aes os_aes or_blockIdx os_blockIdx or_rtcr os_rtcr ms_new mr_new ms_sub mr_sub ss_vole sr_vole ss_messages
    ms_uh mr_uh ms_U ms_V mr_W].
  split; [split; [split; [done|]; split; [done|]; split; [lia|]; split; [lia|done]|split; [done|]; split; [done|]; split; [done|]; unfold is_word; lia]|].
  split; [done|]. split; [done|]. split; [done|]. split; [done|]. split; [|done].
  unfold ms_vPadded, ms_fieldBits, ms_numVoles, mr_wPadded, mr_fieldBits, mr_numVoles. cbn [ms_sub mr_sub ss_vole sr_vole].
  rewrite Hf', Hn', Hf, Hn. change (roundUpTo (2 * sender_numVolesPadded 2 64) 4) with 128%nat.
  change (roundUpTo (2 * receiver_numVolesPadded 2 64) 4) with 132%nat.
  split; [done|]. split; [done|]. change (ha_hash (clearHashes 1) !!! 0%nat) with 0.
  change (ha_subtotal (clearHashes 1) !!! 0%nat) with 0. split; apply zero_shares; lia.
Qed.

(** The batches and the challenge. *)
Lemma first_phase delta r s raw choices prng_r key_r pos_r prng_s key_s pos_s :
  start_rel delta r s → at_pos prng_r key_r pos_r → at_pos prng_s key_s pos_s →
  let n := length choices in
  let us := map (choice_block choices) (seq 0 (n / 128)) in
  let numExtra := (num_chunks n - n / 128)%nat in
  ∃ chl V extra extraV r' prng_r', receive_first r choices prng_r = Ok (chl, (zip us V, zip extra extraV), r', prng_r') ∧
  ∃ W extraW challenge hashKey seed s' prng_s',
    send_first clmul raw s n chl prng_s = Ok (W, extraW, (challenge, hashKey, seed), s', prng_s') ∧
    length V = (n / 128)%nat ∧ length W = (n / 128)%nat ∧
    (∀ i, (i < n / 128)%nat → shares 128 delta (us !!! i) (V !!! i) (W !!! i)) ∧
    length extra = numExtra ∧ length extraV = numExtra ∧ length extraW = numExtra ∧
    (∀ i, (i < numExtra)%nat → shares 128 delta (extra !!! i) (extraV !!! i) (extraW !!! i)) ∧
    (∀ p, (p < n mod 128)%nat → Z.testbit (extra !!! 0%nat) (Z.of_nat p) = default false (choices !! (128 * (n / 128) + p)%nat)) ∧
  ∃ vole, ms_recvChallenge clmul (or_vole r') challenge = Ok vole ∧
    let r0 := mkOtReceiver vole (or_aes r') (or_blockIdx r') (rtcr_setKey (or_rtcr r') hashKey seed) in
    chunk_rel delta r0 s' ∧ rtcr_rel 0 (or_rtcr r0) (os_rtcr s').
Proof.
  intros (Hb & Hf & Hn & Huhr & Huhs & Ha & Hrt1 & Hrt2) Hpr Hps n us numExtra.
  assert (length us = n / 128)%nat as Hus by (unfold us; by rewrite length_map, length_seq).
  destruct (batch_shares delta r s us raw Hb) as (V & chl & r1 & E1 & HV & Hvs1 & Hu1 & HU1 & HV1 & Hr1 & HS).
  { intros i Hi. unfold us. rewrite map_seq_lookup by lia. apply choice_block_word. }
  destruct (get_u64_at prng_r key_r pos_r Hpr) as (prng_r1 & Eu & _). set (sac := stream_u64_at key_r pos_r) in *.
  assert (is_word 64 sac) as Hsac.
  { unfold sac, stream_u64_at. pose proof (le_val_word _ (stream_u8 key_r pos_r 8)) as X. by rewrite stream_length in X. }
  destruct (extra_choices_spec choices sac Hsac) as (He0 & He1 & Hbits). destruct (extra_choices choices sac) as [e0 e1] eqn:Ee.
  cbn [fst snd] in *. fold n in Hbits. set (extra := take numExtra [e0; e1]).
  assert (length extra = numExtra ∧ (0 < numExtra ≤ 2)%nat) as [Hx Hxpos].
  { unfold extra. rewrite length_take. unfold numExtra. rewrite num_extra. cbn [length]. nat_cases; lia. }
  assert (∀ i, (i < length extra)%nat → is_word 128 (extra !!! i)) as Hxw.
  { intros i Hi. unfold extra. rewrite list_lookup_total_alt, lookup_take_lt by lia.
    destruct i as [|[|i]]; [done|done|cbn; unfold is_word; lia]. }
  destruct (HS []) as (W0 & s0 & _ & _ & Hb0 & _).
  destruct (batch_shares delta r1 s0 extra raw Hb0 Hxw) as (xV0 & chl' & r20 & E2 & _). clear Hb0.
  destruct (HS chl') as (W & s1 & F1 & HW & Hb1 & Hvr1 & Hus1 & HW1 & Hs1 & Hsh1). clear HS.
  destruct (batch_shares delta r1 s1 extra raw Hb1 Hxw) as (xV & chl2 & r2 & E2' & HxV & Hvs2 & Hu2 & HU2 & HV2 & Hr2 & HS).
  rewrite E2 in E2'. injection E2' as -> -> ->.
  destruct (HS []) as (xW & s2 & F2 & HxW & Hb2 & Hvr2 & Hus2 & HW2 & Hs2 & Hsh2). clear HS.
  exists (chl ++ chl2), V, extra, xV, r2, prng_r1. split.
  { unfold receive_first. fold n us numExtra. rewrite E1, Eu, bind_ok, Ee. fold extra. rewrite E2. done. }
  destruct Hb2 as (Hrel2 & _). pose proof Hrel2 as ((Hfr & Hnr & Hdl & Hdu & _) & Hdelta & _).
  assert (vs_fieldBits (vole_s r2) = 2%nat ∧ vs_numVoles (vole_s r2) = 64%nat) as [Hf2 Hn2] by (rewrite Hvs2, Hvs1; done).
  assert (ms_vSize (or_vole r2) = 128%nat) as Hsz by (unfold ms_vSize, ms_fieldBits, ms_numVoles; fold (vole_s r2); by rewrite Hf2, Hn2).
  destruct (challenge_rel clmul delta (or_vole r2) (os_vole s2) prng_s key_s pos_s)
    as (challenge & mr' & prng_s1 & ms' & C1 & Hps1 & C2 & Hmal & Es1 & Es2);
    [by symmetry|by symmetry|rewrite Hsz; lia|by rewrite Hu2, Hu1|by rewrite Hus2, Hus1|by rewrite Hsz, HU2, HU1, HV2, HV1, HW2, HW1|done|].
  destruct (get_block_array_at prng_s1 key_s (pos_s + 16) 2 Hps1) as (prng_s2 & Eb & _). set (keys := stream_blocks key_s (pos_s + 16) 2) in *.
  exists W, xW, challenge, (keys !!! 0%nat), (keys !!! 1%nat). eexists. exists prng_s2. split.
  { unfold send_first. fold numExtra. rewrite <-Hus, F1, bind_ok, <-Hx, <-(app_nil_r chl2), F2, bind_ok, C1, bind_ok, Eb, bind_ok. reflexivity. }
  rewrite Hvs1, Hf, Hn in Hsh2. rewrite Hf, Hn in Hsh1. rewrite Hus in *. rewrite Hx in *.
  do 7 (split; [done|]). split.
  { intros p Hp. rewrite <-Hbits by done. unfold extra. destruct numExtra as [|k] eqn:Ek; [lia|]. done. }
  exists ms'. split; [done|]. cbn zeta. cbn [or_rtcr os_rtcr]. rewrite Hr2, Hr1, Hs2, Hs1, Hrt1, Hrt2. split.
  - split; [exact Hmal|]. cbn [or_vole os_vole]. rewrite Es1, Es2. fold (vole_s r2) (vole_r s2).
    rewrite Hf2, Hn2 in Hdl, Hdu. split; [done|]. split; [done|]. split; [done|]. rewrite <-Hdelta. split; [done|].
    intros k Hk. by apply Hdu.
  - split; [done|]. split; [done|]. exists 0. split; [lia|done].
Qed.

(** The whole run, for any transposition with the laws of [Transpose128]. *)
Lemma soft_spoken_run raw seed_s seed_r base_s base_r base_choices choices :
  length base_s = 128%nat → ot_messages base_s base_choices base_r → (256 ≤ length raw)%nat →
  ∃ sent received, soft_spoken_ot clmul 2 raw seed_s seed_r base_s base_r base_choices choices = Ok (sent, received) ∧
    length received = length choices ∧ picked (λ p, default false (choices !! p)) received sent.
Proof.
  intros Hbase Hot Hraw. unfold soft_spoken_ot.
  destruct (SetSeed_at seed_s 256 ltac:(lia)) as (prng_s & -> & Hps).
  destruct (SetSeed_at seed_r 256 ltac:(lia)) as (prng_r & -> & Hpr). rewrite !bind_ok.
  destruct (setup_start base_s base_r base_choices raw prng_r seed_r 0 Hbase Hot Hpr)
    as (r & m & prng_r1 & s & delta & -> & E2 & Hpr1 & Hstart). rewrite bind_ok, E2, bind_ok.
  destruct (first_phase delta r s raw choices prng_r1 seed_r _ prng_s seed_s 0 Hstart Hpr1 Hps)
    as (chl & V & extra & xV & r1 & prng_r2 & -> & W & xW & challenge & hk & seed & s1 & prng_s1 & E4 & HV & HW & Hsh &
        Hx & HxV & HxW & Hxsh & Hbits & vole & Hch & Hrel & Hrt). rewrite bind_ok, E4, bind_ok.
  destruct (second_phase delta raw choices V W extra xV xW Hraw HV HW Hsh Hx HxV HxW Hxsh Hbits r1 s1 challenge hk seed vole Hch Hrel Hrt)
    as (recv & response & r2 & sent & s2 & -> & E6 & Hl & Hc). rewrite bind_ok, E6, bind_ok.
  by exists sent, recv.
Qed.
End chunks.

(** C8. SoftSpoken OT with fields of four elements: from 128 base OTs that agree with their choices, for any
    choice bits of the receiver, any seeds of the generators, any AES and Blake2 and whatever the fresh memory holds, both parties
    come to the end, all checks pass, and the receiver gets of each of the pairs of the sender the message
    that its choice bit selects. *)
Theorem soft_spoken_ot_correct `{OcAes, Blake2} clmul raw seed_s seed_r base_s base_r base_choices choices :
  clmul_spec clmul → length base_s = 128%nat → ot_messages base_s base_choices base_r → (256 ≤ length raw)%nat →
  ∃ sent received,
    soft_spoken_ot (H1 := sse_Transpose128) clmul 2 raw seed_s seed_r base_s base_r base_choices choices = Ok (sent, received) ∧
    length received = length choices ∧ length sent = (2 * length choices)%nat ∧
    ∀ p c, choices !! p = Some c → received !!! p = sent !!! (2 * p + Nat.b2n c)%nat.
Proof.
  intros Hclmul Hbase Hot Hraw.
  destruct (soft_spoken_run clmul Hclmul raw seed_s seed_r base_s base_r base_choices choices Hbase Hot Hraw)
    as (sent & received & E & Hl & Hs & Hc).
  exists sent, received. split; [exact E|]. split; [done|]. split; [lia|]. intros p c Hp.
  rewrite Hc, Hp; [done|]. rewrite Hl. by eapply lookup_lt_Some.
Qed.

Lemma soft_spoken_ot_correct_witness :
  ∃ sent received, @soft_spoken_ot toy_aes (λ c a b, software_clmul a b c) toy_blake2 sse_Transpose128
      2 (replicate 256 0) 11 12 sample_base_s sample_base_r sample_base_choices [true; false; true]
    = Ok (sent, received) ∧
    received !!! 0%nat = sent !!! 1%nat ∧ received !!! 1%nat = sent !!! 2%nat ∧ received !!! 2%nat = sent !!! 5%nat.
Proof.
  destruct (@soft_spoken_ot_correct toy_aes toy_blake2 (λ c a b, software_clmul a b c) (replicate 256 0) 11 12
    sample_base_s sample_base_r sample_base_choices [true; false; true] software_clmul_spec eq_refl sample_base_ok
    ltac:(apply le_n)) as (sent & received & E & _ & _ & H).
  exists sent, received. split; [exact E|].
  split; [exact (H 0%nat true eq_refl)|]. split; [exact (H 1%nat false eq_refl)|exact (H 2%nat true eq_refl)].
Defined.
