(* ===== verification/OtSoft.v ===== *)
(** * The OT extension of the default build

    [OTExtensionWithMatrix::soft_sender] and [soft_receiver]
    ([OT/OTExtensionWithMatrix.cpp]): SoftSpoken OT of libOTe between two parties, from
    the generators of the base OTs to the matrices. *)

From S2P Require Import Prelude Memory OctetStream OctetProps Xor Block Aes YaoKey YaoGate CryptoTools Pprf PprfProps SubspaceVole SoftSpoken OtTranspose SoftSpokenProps Random BitVector Square128 Gf2n OtMatrix OtExtension OtProps OtTheorems.

(** ** The code *)

(** The bases of the sender, [G_receiver], and those of the receiver, [G_sender]: one
    block of each generator. *)
Definition soft_outputs (gr : list PRNG) : outcome (list Z * list PRNG) :=
  foldM (λ '(outputs, gs) g, '(x, g) ← prng_get_doubleword g; Ok (outputs ++ [x], gs ++ [g])) ([], []) gr.

Definition soft_inputs (gs : list (PRNG * PRNG)) : outcome (list (Z * Z) * list (PRNG * PRNG)) :=
  foldM (λ '(inputs, gs) '(g0, g1),
      '(x0, g0) ← prng_get_doubleword g0;
      '(x1, g1) ← prng_get_doubleword g1;
      Ok (inputs ++ [(x0, x1)], gs ++ [(g0, g1)])) ([], []) gs.

Definition bit_list (v : BitVector) (n : Z) : outcome (list bool) :=
  foldM (λ choices i, b ← bv_get_bit v i; Ok (choices ++ [b])) [] (seqZ 0 n).

(** [squares.at(i / 128).rows[i % 128] = x] *)
Definition store_row (m : Matrix) (i : Z) (x : Z) : outcome Matrix :=
  match m !! Z.to_nat (i / 128) with
  | None => Throw "vector::_M_range_check"
  | Some s => s ← vset s (i mod 128) x; vset m (i / 128) s
  end.

Definition store_sent (sent : list Z) (st : Matrix * Matrix) (i : Z) : outcome (Matrix * Matrix) :=
  let '(s0, s1) := st in
  x0 ← vget sent (2 * i); s0 ← store_row s0 i x0;
  x1 ← vget sent (2 * i + 1); s1 ← store_row s1 i x1;
  Ok (s0, s1).

Definition store_received (messages : list Z) (r : Matrix) (i : Z) : outcome Matrix :=
  x ← vget messages i; store_row r i x.

(** [extend] of both parties, after the agreement on the protocol. *)
Definition soft_extend `{OcAes, Blake2} (clmul : Z → Key → Key → Key) (raw : list Z) (seed_s seed_r : Z)
    (snd rcv : OTExt) (n : Z) (newReceiverInput : BitVector) : outcome (OTExt * OTExt) :=
  snd ← ot_resize snd n;
  rcv ← ot_resize rcv n;
  '(outputs, gr) ← soft_outputs (G_receiver snd);
  base_choices ← bit_list (baseReceiverInput snd) 128;
  '(inputs, gs) ← soft_inputs (G_sender rcv);
  if negb (n =? bv_nbits newReceiverInput) then Throw "assertion failed"
  else
    choices ← bit_list newReceiverInput n;
    '(sent, messages) ← soft_spoken_ot (H1 := sse_Transpose128) clmul 2 raw seed_s seed_r inputs outputs base_choices choices;
    '(s0, s1) ← foldM (store_sent sent) (ot_s0 snd, ot_s1 snd) (seqZ 0 n);
    r ← foldM (store_received messages) (ot_r rcv) (seqZ 0 n);
    let snd := with_prngs snd (G_sender snd) gr in
    let rcv := with_prngs rcv gs (G_receiver rcv) in
    Ok (with_matrices snd s0 s1 (ot_r snd) (ot_t1 snd) (ot_u snd),
        with_matrices rcv (ot_s0 rcv) (ot_s1 rcv) r (ot_t1 rcv) (ot_u rcv)).

(** ** Its parts *)
Lemma soft_outputs_at key p gr : gens key p gr → room p 1 →
  ∃ outputs gr', soft_outputs gr = Ok (outputs, gr') ∧ length outputs = 128%nat ∧ gens key (p + 1) gr' ∧
    ∀ i, (i < 128)%nat → outputs !!! i = draws (key i) p 0.
Proof.
  intros [Hl Hg] Hr. unfold soft_outputs.
  destruct (foldM_inv (λ k '(o, gs), length o = k ∧ length gs = k ∧ (∀ i, (i < k)%nat → o !!! i = draws (key i) p 0) ∧
      ∀ i g, gs !! i = Some g → at_pos g (key i) (16 * (p + 1)))
    (λ '(outputs, gs) g, '(x, g) ← prng_get_doubleword g; Ok (outputs ++ [x], gs ++ [g])) gr ([], []))
    as ([o gs] & -> & Lo & Lg & Ho & Hgs).
  - split; [done|]. split; [done|]. split; [lia|]. intros i g Hi. by rewrite lookup_nil in Hi.
  - intros k g [o gs] Hk (Lo & Lg & Ho & Hgs). destruct (doubleword_at g (key k) p (Hg k g Hk) Hr) as (g' & -> & Hg').
    rewrite bind_ok. eexists. split; [done|]. cbn beta iota. rewrite !length_app. split; [cbn; lia|]. split; [cbn; lia|]. split.
    + intros i Hi. destruct (decide (i = k)) as [->|Hne].
      * rewrite lookup_total_app_r, Lo, Nat.sub_diag by lia. done.
      * rewrite lookup_total_app_l by lia. apply Ho. lia.
    + intros i h Hi. apply lookup_app_Some in Hi as [Hi|[Hge Hi]]; [by apply Hgs|].
      assert (i = k) as -> by (apply lookup_lt_Some in Hi; cbn in Hi; lia). rewrite Lg, Nat.sub_diag in Hi. by injection Hi as <-.
  - exists o, gs. split; [done|]. rewrite Hl in *. split; [done|]. split; [by split|done].
Qed.

Lemma soft_inputs_at key p gs : gens2 key p gs → room p 1 →
  ∃ inputs gs', soft_inputs gs = Ok (inputs, gs') ∧ length inputs = 128%nat ∧ gens2 key (p + 1) gs' ∧
    ∀ i, (i < 128)%nat → inputs !!! i = (draws (key i false) p 0, draws (key i true) p 0).
Proof.
  intros [Hl Hg] Hr. unfold soft_inputs.
  destruct (foldM_inv (λ k '(o, gs), length o = k ∧ length gs = k ∧
      (∀ i, (i < k)%nat → o !!! i = (draws (key i false) p 0, draws (key i true) p 0)) ∧
      ∀ i g0 g1, gs !! i = Some (g0, g1) → at_pos g0 (key i false) (16 * (p + 1)) ∧ at_pos g1 (key i true) (16 * (p + 1)))
    (λ '(inputs, gs) '(g0, g1),
      '(x0, g0) ← prng_get_doubleword g0;
      '(x1, g1) ← prng_get_doubleword g1;
      Ok (inputs ++ [(x0, x1)], gs ++ [(g0, g1)])) gs ([], [])) as ([o gs'] & -> & Lo & Lg & Ho & Hgs).
  - split; [done|]. split; [done|]. split; [lia|]. intros i g0 g1 Hi. by rewrite lookup_nil in Hi.
  - intros k [g0 g1] [o gs'] Hk (Lo & Lg & Ho & Hgs). destruct (Hg k g0 g1 Hk) as [H0 H1].
    destruct (doubleword_at g0 (key k false) p H0 Hr) as (g0' & -> & H0'). rewrite bind_ok.
    destruct (doubleword_at g1 (key k true) p H1 Hr) as (g1' & -> & H1'). rewrite bind_ok.
    eexists. split; [done|]. cbn beta iota. rewrite !length_app. split; [cbn; lia|]. split; [cbn; lia|]. split.
    + intros i Hi. destruct (decide (i = k)) as [->|Hne].
      * rewrite lookup_total_app_r, Lo, Nat.sub_diag by lia. done.
      * rewrite lookup_total_app_l by lia. apply Ho. lia.
    + intros i h0 h1 Hi. apply lookup_app_Some in Hi as [Hi|[Hge Hi]]; [by apply Hgs|].
      assert (i = k) as -> by (apply lookup_lt_Some in Hi; cbn in Hi; lia). rewrite Lg, Nat.sub_diag in Hi. by injection Hi as <- <-.
  - exists o, gs'. split; [done|]. rewrite Hl in *. split; [done|]. split; [by split|done].
Qed.

Lemma bit_list_spec v (n : nat) : bv_wf v → Z.of_nat n ≤ bv_nbits v →
  bit_list v (Z.of_nat n) = Ok (map (λ i, Z.testbit (bv_num v) (Z.of_nat i)) (seq 0 n)).
Proof.
  intros Hv Hn. unfold bit_list. induction n as [|n IH]; [done|].
  rewrite Nat2Z.inj_succ. unfold Z.succ. rewrite seqZ_app, foldM_app, IH by lia. rewrite bind_ok.
  change (seqZ (0 + Z.of_nat n) 1) with [Z.of_nat n]. cbn [foldM]. rewrite bv_get_bit_spec by (done || lia).
  rewrite !bind_ok. by rewrite seq_S, map_app.
Qed.

(** The squares that hold [n] rows. *)
Definition row_squares (n : Z) : nat := Z.to_nat ((n + 127) / 128).

Lemma row_squares_bounds n : 0 < n → Z.of_nat (row_squares n) * 128 - 128 < n ≤ Z.of_nat (row_squares n) * 128.
Proof.
  intros Hn. unfold row_squares. pose proof (Z.div_mod (n + 127) 128 ltac:(lia)). pose proof (Z.mod_pos_bound (n + 127) 128 ltac:(lia)).
  rewrite Z2Nat.id by (apply Z.div_pos; lia). lia.
Qed.

Lemma resize_rows o n : ot_wf o → 0 < n →
  ∃ o', ot_resize o n = Ok o' ∧ same_setup o o' ∧ shapes (row_squares n) o' ∧
        G_sender o' = G_sender o ∧ G_receiver o' = G_receiver o.
Proof.
  intros Ho Hn. assert (ot_resize o n = ot_resize o (Z.of_nat (row_squares n) * 128)) as ->; [|by apply ot_resize_shapes].
  pose proof (row_squares_bounds n Hn).
  assert (DIV_CEIL n 128 = DIV_CEIL (Z.of_nat (row_squares n) * 128) 128) as E.
  { unfold DIV_CEIL. rewrite !Z.quot_div_nonneg by lia.
    transitivity (Z.of_nat (row_squares n)).
    - symmetry. apply Z.div_unique with (n + 127 - 128 * Z.of_nat (row_squares n)); lia.
    - apply Z.div_unique with 127; lia. }
  unfold ot_resize, resize_vertical. by rewrite E.
Qed.

Lemma store_row_mat N F (k : nat) x : (k < N * 128)%nat →
  store_row (mat N F) (Z.of_nat k) x = Ok (mat N (λ i r, if (128 * i + r =? k)%nat then x else F i r)).
Proof.
  intros Hk. pose proof (Nat.div_mod_eq k 128) as Ek. pose proof (Nat.mod_upper_bound k 128 ltac:(lia)) as Hr.
  assert (k / 128 < N)%nat as Hi by (apply Nat.Div0.div_lt_upper_bound; lia).
  assert (Z.of_nat k / 128 = Z.of_nat (k / 128) ∧ Z.of_nat k mod 128 = Z.of_nat (k mod 128)) as [Ez Ez2]
    by (rewrite Nat2Z.inj_div, Nat2Z.inj_mod; done).
  unfold store_row. rewrite Ez, Ez2, Nat2Z.id, mat_lookup by done.
  rewrite vset_Ok by (rewrite sq_length; lia). rewrite bind_ok, Nat2Z.id, sq_insert by done.
  rewrite vset_Ok by (rewrite mat_length; lia). rewrite Nat2Z.id. f_equal.
  apply (list_eq_same_length _ _ N); [by rewrite mat_length|by rewrite length_insert, mat_length|].
  intros i s s' Hi' Hs. rewrite mat_lookup by done. intros E%(inj Some). rewrite <-E. clear E s'.
  destruct (decide (i = k / 128)%nat) as [->|Hne].
  - rewrite list_lookup_insert_eq in Hs by (rewrite mat_length; lia). apply (inj Some) in Hs as <-.
    apply sq_ext_fn. intros r Hr'. destruct (Nat.eqb_spec r (k mod 128)), (Nat.eqb_spec (128 * (k / 128) + r) k); done || lia.
  - rewrite list_lookup_insert_ne, mat_lookup in Hs by (done || lia). apply (inj Some) in Hs as <-.
    apply sq_ext_fn. intros r Hr'. destruct (Nat.eqb_spec (128 * i + r) k) as [E|]; [|done]. exfalso. apply Hne.
    apply (Nat.div_unique k 128 i r); lia.
Qed.

(** The rows [0, ..., k - 1] are stored. *)
Definition stored (N k : nat) (x : nat → Z) (F : nat → nat → Z) : Matrix :=
  mat N (λ i r, if (128 * i + r <? k)%nat then x (128 * i + r)%nat else F i r).

Lemma stored_S N k x F : (k < N * 128)%nat → store_row (stored N k x F) (Z.of_nat k) (x k) = Ok (stored N (S k) x F).
Proof.
  intros Hk. unfold stored. rewrite store_row_mat by done. f_equal. apply mat_ext. intros i r _ _.
  destruct (Nat.eqb_spec (128 * i + r) k) as [->|]; [by destruct (Nat.ltb_spec k (S k)); [|lia]|].
  destruct (Nat.ltb_spec (128 * i + r) k), (Nat.ltb_spec (128 * i + r) (S k)); done || lia.
Qed.

Lemma stored_row N (n : nat) x F j : (j < n)%nat → (n ≤ N * 128)%nat → output_row (stored N n x F) (Z.of_nat j) = Ok (x j).
Proof.
  intros Hj Hn. unfold stored. rewrite output_row_mat by lia. rewrite <-Nat.div_mod_eq. by destruct (Nat.ltb_spec j n); [|lia].
Qed.

Lemma store_sent_loop N (n : nat) sent F0 F1 : length sent = (2 * n)%nat → (n ≤ N * 128)%nat →
  foldM (store_sent sent) (mat N F0, mat N F1) (seqZ 0 (Z.of_nat n))
    = Ok (stored N n (λ j, sent !!! (2 * j)%nat) F0, stored N n (λ j, sent !!! (2 * j + 1)%nat) F1).
Proof.
  intros Hl Hn.
  destruct (foldM_inv (λ k st, st = (stored N k (λ j, sent !!! (2 * j)%nat) F0, stored N k (λ j, sent !!! (2 * j + 1)%nat) F1))
    (store_sent sent) (seqZ 0 (Z.of_nat n)) (mat N F0, mat N F1)) as (st & -> & ->).
  - done.
  - intros k z st Hz ->. apply lookup_seqZ in Hz as [-> Hk]. rewrite Z.add_0_l. unfold store_sent.
    assert (∀ m, (m < length sent)%nat → vget sent (Z.of_nat m) = Ok (sent !!! m)) as Hget.
    { intros m Hm. apply vget_nat. by apply list_lookup_lookup_total_lt. }
    replace (2 * Z.of_nat k) with (Z.of_nat (2 * k)) by lia. rewrite Hget, bind_ok by lia.
    rewrite (stored_S N k (λ j, sent !!! (2 * j)%nat) F0), bind_ok by lia.
    replace (Z.of_nat (2 * k) + 1) with (Z.of_nat (2 * k + 1)) by lia. rewrite Hget, bind_ok by lia.
    rewrite (stored_S N k (λ j, sent !!! (2 * j + 1)%nat) F1), bind_ok by lia. by eexists.
  - by rewrite length_seqZ, Nat2Z.id.
Qed.

Lemma store_received_loop N (n : nat) messages F : length messages = n → (n ≤ N * 128)%nat →
  foldM (store_received messages) (mat N F) (seqZ 0 (Z.of_nat n)) = Ok (stored N n (λ j, messages !!! j) F).
Proof.
  intros Hl Hn.
  destruct (foldM_inv (λ k r, r = stored N k (λ j, messages !!! j) F)
    (store_received messages) (seqZ 0 (Z.of_nat n)) (mat N F)) as (st & -> & ->).
  - done.
  - intros k z st Hz ->. apply lookup_seqZ in Hz as [-> Hk]. rewrite Z.add_0_l. unfold store_received.
    rewrite (vget_nat _ _ (messages !!! k)) by (apply list_lookup_lookup_total_lt; lia). rewrite bind_ok.
    rewrite (stored_S N k (λ j, messages !!! j) F) by lia. by eexists.
  - by rewrite length_seqZ, Nat2Z.id.
Qed.

(** ** The whole *)
Lemma resized_wf N o o' : ot_wf o → same_setup o o' → shapes N o' → ot_wf o'.
Proof.
  intros [Hb Hl Hd Hdb _ _ _ _ _] [_ _ Eb El Ei _] [S0 S1 Sr St Su].
  split; [congruence|congruence|by rewrite Ei|by rewrite Ei|by eapply shape_squares..].
Qed.

(** C7. The extension of the default build refines a random OT: from parties whose base OTs agree,
    [soft_sender] and [soft_receiver] return for every number of OTs, row [j] of the receiver is
    row [j] of the first matrix of the sender or of its second one as the choice bit [j] says, and the parties stay
    paired, with every base generator one block further. *)
Theorem soft_extend_gives_ot `{OcAes, Blake2} clmul raw seed_s seed_r key p m snd rcv n x :
  clmul_spec clmul → (256 ≤ length raw)%nat → paired key p m snd rcv → room p 1 →
  0 < n → bv_wf x → bv_nbits x = n →
  ∃ snd' rcv', soft_extend clmul raw seed_s seed_r snd rcv n x = Ok (snd', rcv') ∧ paired key (p + 1) m snd' rcv' ∧
    ∀ j, 0 ≤ j < n → ∃ m0 m1, output_row (ot_s0 snd') j = Ok m0 ∧ output_row (ot_s1 snd') j = Ok m1 ∧
      output_row (ot_r rcv') j = Ok (if Z.testbit (bv_num x) j then m1 else m0).
Proof.
  intros Hclmul Hraw [Rs Rr Ws Wr Hpas Hkey Hgs Hgr HGs HGr] Hroom Hn Hx Hxn. unfold soft_extend.
  destruct (resize_rows snd n Ws Hn) as (snd1 & -> & Ss & Shs & _ & Egs).
  destruct (resize_rows rcv n Wr Hn) as (rcv1 & -> & Sr & Shr & Egr & _). rewrite !bind_ok.
  pose proof (resized_wf _ _ _ Ws Ss Shs) as Ws1. pose proof (resized_wf _ _ _ Wr Sr Shr) as Wr1.
  rewrite Egs, Egr. destruct (soft_outputs_at _ p _ Hgs Hroom) as (outputs & gr & -> & Lo & Hgr' & Ho). rewrite bind_ok.
  rewrite (same_input _ _ Ss). set (d := baseReceiverInput snd) in *.
  change (bit_list d 128) with (bit_list d (Z.of_nat 128)). pose proof (ow_delta_bits _ Ws) as Hdb. pose proof (ow_delta _ Ws) as Hdw. fold d in Hdb, Hdw.
  rewrite bit_list_spec, bind_ok by (done || lia).
  set (bc := map _ _). destruct (soft_inputs_at _ p _ Hgr Hroom) as (inputs & gs & -> & Li & Hgs' & Hi). rewrite bind_ok.
  rewrite Hxn, Z.eqb_refl. cbn [negb]. set (N := row_squares n) in *. set (nn := Z.to_nat n).
  assert (n = Z.of_nat nn) as En by lia. pose proof (row_squares_bounds n Hn) as HN. fold N in HN.
  rewrite En, bit_list_spec, bind_ok by (done || lia). set (choices := map _ _).
  assert (length choices = nn) as Lc by (unfold choices; by rewrite length_map, length_seq).
  destruct (soft_spoken_run clmul Hclmul raw seed_s seed_r inputs outputs bc choices Li) as (sent & messages & -> & Lm & Ls & Hc); [|done|].
  { split; [by rewrite Lo, Li|]. split; [unfold bc; by rewrite Li, length_map, length_seq|]. rewrite Li. intros k Hk.
    rewrite Ho, Hi by done. unfold bc. change (map ?f ?l) with (f <$> l). rewrite list_lookup_fmap, lookup_seq_lt by done.
    cbn [fmap option_fmap option_map from_option id Nat.add]. unfold OtProps.chosen. by destruct (Z.testbit _ _). }
  rewrite bind_ok. rewrite Lc in Lm.
  rewrite (mat_of_shape N _ (shape_s0 _ _ Shs)), (mat_of_shape N _ (shape_s1 _ _ Shs)), (mat_of_shape N _ (shape_r _ _ Shr)).
  rewrite store_sent_loop, bind_ok by lia. rewrite store_received_loop, bind_ok by lia.
  eexists _, _. split; [reflexivity|]. split.
  - destruct Ss as [E1 E2 E3 E4 E5 E6], Sr as [F1 F2 F3 F4 F5 F6]. destruct Ws1, Wr1.
    split; cbn [with_matrices with_prngs ot_role passive_only baseReceiverInput G_receiver G_sender]; try congruence.
    + split; cbn [with_matrices with_prngs nbaseOTs nsubloops baseReceiverInput ot_s0 ot_s1 ot_r ot_t1 ot_u]; try done; eapply shape_squares, mat_shape_mat.
    + split; cbn [with_matrices with_prngs nbaseOTs nsubloops baseReceiverInput ot_s0 ot_s1 ot_r ot_t1 ot_u]; try done; eapply shape_squares, mat_shape_mat.
    + exact Hkey.
    + by rewrite E5.
    + unfold g_room. cbn [with_matrices with_prngs ot_G]. by rewrite E6.
    + unfold g_room. cbn [with_matrices with_prngs ot_G]. by rewrite F6.
  - intros j Hj. cbn [with_matrices ot_s0 ot_s1 ot_r]. assert (∃ k, j = Z.of_nat k ∧ (k < nn)%nat) as (k & -> & Hk) by (exists (Z.to_nat j); lia).
    eexists _, _. rewrite !stored_row by lia. split; [reflexivity|]. split; [reflexivity|]. f_equal. rewrite Hc by lia.
    unfold choices. change (map ?f ?l) with (f <$> l). rewrite list_lookup_fmap, lookup_seq_lt by lia.
    cbn [fmap option_fmap option_map from_option id Nat.add]. destruct (Z.testbit _ _); cbn [Nat.b2n]; [done|]. by rewrite Nat.add_0_r.
Qed.

Lemma soft_extend_gives_ot_witness : ∃ snd rcv snd' rcv' m0 m1,
  @soft_extend toy_aes toy_blake2 (λ c a b, software_clmul a b c) (replicate 256 0) 11 12 snd rcv 9 sample_choice = Ok (snd', rcv') ∧
  output_row (ot_s0 snd') 4 = Ok m0 ∧ output_row (ot_s1 snd') 4 = Ok m1 ∧ output_row (ot_r rcv') 4 = Ok m1.
Proof.
  destruct (sample_pair false) as (key & snd & rcv & G & Hp & _).
  destruct (@soft_extend_gives_ot toy_aes toy_blake2 (λ c a b, software_clmul a b c) (replicate 256 0) 11 12 key 0 64 snd rcv 9 sample_choice
    software_clmul_spec ltac:(apply le_n) Hp ltac:(by split) eq_refl sample_choice_wf eq_refl) as (snd' & rcv' & E & _ & H).
  destruct (H 4 ltac:(lia)) as (m0 & m1 & E0 & E1 & E2). exists snd, rcv, snd', rcv', m0, m1.
  split; [exact E|]. split; [exact E0|]. split; [exact E1|exact E2].
Defined.
